(* ===== verification/_CoqProject ===== *)
-Q . S2P
Prelude.v
BudgetLedger.v
BudgetTheorems.v
PolicyDsl.v
PolicyDigest.v
PolicyResolver.v
PolicyEvaluation.v
PolicyActivation.v
Concurrency.v
ProviderTables.v
Consent.v
ConsentTheorems.v
ProviderPlatform.v
ProviderDispatch.v
ProviderTheorems.v
ProviderRaces.v
WebhookGuard.v
Outbox.v
WebhookDelivery.v
WebhookTheorems.v
Communications.v
CommunicationTheorems.v
AgentTables.v
AgentTools.v
AgentPlanner.v
AgentRuntime.v
AgentExamples.v
AgentTheorems.v
AgentOutcome.v
CaseActivities.v
CaseWorkflow.v
WorkflowTheorems.v
WorkflowFindings.v
CaseService.v
CaseTheorems.v
Encoding.v
KeyRings.v
CaseQuery.v
CaseQueryTheorems.v
AuthTables.v
OidcService.v
OidcSessions.v
GuestSandbox.v
AuthGuards.v
AuthExamples.v
AuthTheorems.v
AuthIsolation.v
SandboxPurge.v
AuthCredentials.v
AuthFindings.v
PolicyResearch.v
ResearchTheorems.v
ResearchQueue.v
ResearchFindings.v
Regex.v
EnvConfig.v
EnvTheorems.v
EnvFindings.v
Simulators.v
SimulatorTheorems.v
Underwriter.v
UnderwriterTheorems.v
PlaidSandbox.v
SimulatorFindings.v
AuditLog.v
AuditTheorems.v
Telemetry.v
TelemetryTheorems.v
Queues.v
HttpRoutes.v
RouteTheorems.v
EvaluationRunner.v
EvaluationTheorems.v
RequestDtos.v
RequestClasses.v
Requests.v
RequestTheorems.v
