(* ===== verification/Prelude.v ===== *)
(** * Meridian: a verification of the mortgage integration agent

    The program (TypeScript, under src/) collects evidence on a mortgage case
    from external providers, under a consent; lets an agent with a budget
    propose conditions; decides which lending policies apply; and leaves every
    doubt to a person.  A durable workflow drives the case, an outbox and
    webhooks tell others of it, and people, API clients and visitors of a
    sandbox reach it through authenticated sessions.  This library models the
    server in the source's own structure and proves what its parts promise, in
    every interleaving of the requests that share the database where that
    matters.

    ** The parts and their files

    Foundations.
    - [Prelude] (this file): results, the state-and-error monad [M] with
      [transaction] and [catch], its hint database [monad] and inversion
      tactic [minv], sums over finite maps, ranges of SQL integers, the
      JavaScript functions the parts share (Module [JS]).
    - [Concurrency], Module [Threads]: request handlers as trees of database
      statements and outgoing calls ([Prog]), pools of handlers and their
      interleavings ([step], [reachable]), schedules, and the rely-guarantee
      conditions [safe], [keeps] and [relies] with their soundness theorems.
    - [Encoding]: base64, base64url and hexadecimal texts.  [Regex]: patterns
      as data, decided by derivatives.

    Budgets.
    - [BudgetLedger], Module [Ledger]:
      agent-runtime/agent-budget-ledger.service.ts with the CHECK constraints
      of the migrations: a row per run, per reservation and per tenant month.
      [BudgetTheorems]: its histories as a step relation, and the theorems.

    Policy.
    - [PolicyDsl], Module [Dsl]: policy/dsl, the parser of rule documents and
      their evaluator on binary64 numbers.  [PolicyDigest]: policy-digest.ts.
    - [PolicyResolver], Module [Resolver]:
      policy-applicability-resolver.service.ts, from a context to the policy
      versions that apply, or to the reasons why a person must decide.
    - [PolicyEvaluation], Module [Evaluation]: policy-evaluation.service.ts,
      snapshots and bindings of a case, proved against the interface
      [PolicyResolver] with its laws [ResolverLaws], which the resolver above
      implements.
    - [PolicyActivation], Module [Activation]: the approval, activation and
      change-impact services.
    - [PolicyResearch], Module [Research]: policy-research.service.ts, the
      queue of research runs with its leases, and the source monitor.
      [ResearchTheorems], [ResearchQueue]: what it guarantees;
      [ResearchFindings]: two workers on one run.

    Providers and consent.
    - [ProviderTables], Module [Tables]: the rows these parts share.
    - [Consent]: consent/consent.service.ts and data-disposition/ (legal
      holds, retention reviews, erasure).  [ConsentTheorems]: one call of them.
    - [ProviderPlatform], Module [Platform]: common/structural-exclusions.ts
      and, of provider-platform/, the adapter registry, the kill switch, the
      promotion pipeline, permissible purpose and authorization grants.
    - [ProviderDispatch], Module [Dispatch]: operation intents,
      dispatch-provider-request.ts, reconciliation and the finding contract.
      [ProviderTheorems]: the guarantees under concurrency; [ProviderRaces]:
      schedules in which a service does not do what its documentation says.
    - [KeyRings], Module [Ciphers]: the three envelopes of encrypted data
      (provider payloads, documents, session tokens) under rotating key rings.

    Outgoing messages.
    - [WebhookGuard]: webhook-url-guard.ts, which addresses a webhook may
      reach.  [Outbox]: database/outbox and the webhook signatures.
      [WebhookDelivery]: endpoints, fan-out, attempts and the rate limit.
      [WebhookTheorems]: what delivery guarantees.
    - [Communications]: src/communications, templates, the classifier, drafts,
      approval and delivery.  [CommunicationTheorems].

    The agent and the case.
    - [AgentTables]: the rows of cases, conditions, manifests, runs, and the
      [World] they form with the tables above.  [AgentTools]: the tool contract
      and tools/.  [AgentPlanner]: agent-planner.ts.  [AgentRuntime]: the five
      nodes of lending-operations-agent-runtime.ts with their budget claims.
      [AgentTheorems], [AgentOutcome]: what a run can do and why it opens a
      condition; [AgentExamples]: a small world to evaluate them at.
    - [CaseActivities], [CaseWorkflow]: workflows/, the activities and the
      workflow function as a reaction to events, with retried, lost and
      still-running attempts.  [WorkflowTheorems], [WorkflowFindings].
    - [CaseService]: cases.service.ts and temporal-client.service.ts.
      [CaseTheorems].  [CaseQuery]: cursors, pages, readers and the timeline.
      [CaseQueryTheorems].

    Identity and configuration.
    - [AuthTables], [OidcService], [OidcSessions], [GuestSandbox],
      [AuthGuards]: auth/, from cookies and secrets to the guards and
      endpoints, with database/purge-tenant-data.ts.  [AuthTheorems],
      [AuthIsolation], [SandboxPurge], [AuthCredentials]: what they guarantee;
      [AuthExamples], [AuthFindings]: concrete parameters and runs.
    - [EnvConfig], Module [Env]: config/env.validation.ts and config/cors.ts.
      [EnvTheorems], [EnvFindings].

    Simulators and the one-shot path.
    - [Simulators]: integrations/ and
      provider-platform/provider-finding-contract.ts: the five simulators down
      to their hashes, the failures they inject, their adapters and
      registration, and the schemas of findings.  [PlaidSandbox]: the
      authorised sandbox.  [SimulatorTheorems]: what simulators deliver.
    - [Underwriter]: agent/ and loan/, an application decided in one call by
      rules or by a local model.  [UnderwriterTheorems], [SimulatorFindings].

    ** How code becomes definitions

    A method that throws returns [result]; a method that writes is a function
    of the tables ([M]) or a [Prog].  Tables are finite maps from primary keys
    to records with the entity's columns.  Generated keys and the time are
    arguments, or are drawn from a supply and a clock in the state.  An SQL
    [integer] is a [Z] with the range check that raises 22003; CHECK and unique
    constraints are tests that raise 23514 and 23505; a JavaScript number that
    may be a fraction is a binary64 value; texts are sequences of code units 0
    to 255.  What a handler sends out (an HTTP request, a message, its own
    response) is a call that the environment answers as it likes.

    Interference is modelled where it fits the code.  The budget ledger
    serialises its writers with row locks and compare-and-swap updates, so a
    history is a sequence of operations, each with its own clock; in the one
    gap of [reserve], between its look-up of the idempotency key and its
    guarded update, an arbitrary history may run.  Policy evaluation is a
    fixed sequence of small transactions: [env n] is an arbitrary growth of the
    tables before the n-th of them.  Everything else interleaves handlers
    statement by statement: a [Prog] is stepped in a pool together with steps
    of others, a handler may stop for good at any point, which is a crash, and
    [during], [every], [relies] and [along] say of a program what each of its
    statements and calls does whatever others have committed in between.
    Temporal adds attempts that are retried, lost, and still run after they
    were lost.

    ** What the theorems show

    - Money: in every history no run and no tenant month is overspent and the
      counters equal the sums over the reservations
      ([budget_never_overspent]); a resolved reservation never changes, the
      terms of a ledger never change, a retried claim is the same claim, every
      refusal has the code that names its cause, and every open reservation
      can still be resolved.  Runs of the agent only move the ledger the way
      its service could ([runs_refine_the_ledger]).
    - Policies: the parser accepts exactly the well-formed documents and
      inverts the printer; the walk up the jurisdictions terminates and is
      exact; a RESOLVED answer is grounded ([resolution_is_grounded]) and
      everything else goes to review; a case has at most one active binding
      and an evaluation returns the current one ([one_active_binding],
      [evaluation_is_current], [evaluation_is_coherent]); no version is
      released by one person alone ([release_needs_two_people]); research
      quotes recorded revisions and touches no policy
      ([research_is_grounded]), and a batch of it always ends
      ([batch_finishes_runs]).
    - Providers: in every interleaving a logical effect is submitted at most
      once ([one_submission_per_effect]), a call was made only after every gate
      was found open ([dispatch_needs_authority]) and outside the simulator
      only after proposal, certification and independent approval
      ([live_calls_are_promoted]); a retry never submits again; values stay
      readable through a rotation of keys ([rotation_keeps_values_readable]).
    - Consent: a revocation stops every purpose and opens a review of exactly
      what was collected; resolving it erases exactly that, or is refused; a
      run of the agent without valid consent does nothing
      ([no_consent_no_action]).
    - Cases: a case becomes ready only through an evaluation that proposed no
      condition, or a reviewer's resolution ([readiness_has_a_reason]); a
      condition is the outcome of a released rule on recorded inputs
      ([condition_is_justified]); no tenant reaches another's cases
      ([cases_are_tenant_isolated]); following the cursors visits every case
      once ([pages_visit_every_case_once]).
    - Messages: nothing is sent to a borrower that is neither routine nor
      approved ([deliveries_are_authorised]); webhooks go to public addresses
      only ([posts_are_public]), as often as the rate limit allows
      ([rate_limit_equals_reference]).
    - Identity: a request acts only as a credential it presented
      ([context_is_earned]); self-made workspaces belong to nobody else
      ([self_service_is_isolated]); a purge deletes a tenant and nothing else
      ([purge_is_exact]); credentials work until they are rotated or revoked
      ([credentials_live_and_die]).
    - Configuration: start-up accepts exactly the coherent configurations
      ([accepted_environments]), and what it accepts is well typed
      ([environment_is_well_typed]).
    - Simulators and the one-shot path: for every borrower a simulated finding
      keeps the contract of findings ([simulated_findings_conform]); the rules
      decide as their thresholds say ([rules_decide]), and an evaluation that
      returns has a confidence in its range, conditions exactly when it is
      conditional, and a row that records it ([evaluation_is_bounded]).
    - Divergences: theorems on concrete runs in [ProviderRaces],
      [WorkflowFindings], [AuthFindings], [ResearchFindings], [EnvFindings] and
      the theorem files, each where the code departs from a comment or from
      what it means to do.

    ** Fuel and bounds

    The walk up the jurisdictions has one more step than there are
    jurisdictions, enough because it stops at the first repetition
    ([ancestry_is_exact] proves that it is never exhausted).  Scanners of
    texts have the length of the text ([chunks], the address parsers, the
    placeholders of a template), following the pages of a list the number of
    rows, a run of a program to its end ([exec], [drive]) the structure of the
    program.  [chunks_lose_nothing], [guard_equals_reference] and
    [pages_visit_every_case_once] state that the bound is enough, where the
    result could depend on it.

    ** Parameters

    SHA-256, HMAC, scrypt, AES-256-GCM, JSON serialisation below the canonical
    form and the JSON parser, [Date.parse], [localeCompare], the URL parser and
    DNS, the JWT library, class-transformer and class-validator, zod's
    own checks (the shapes of findings are modelled, and so are the simulators
    behind the adapters; [ProviderDispatch] takes both as arguments), the
    model behind the planner, the research and the one-shot underwriter, the identity provider and the Temporal server.
    Where a theorem relies on one of them the hypothesis is named in its
    statement, and its witness instantiates it with a concrete function.

    ** Not modelled

    The HTTP and GraphQL bindings, the evaluation runner, telemetry, operator
    scripts, the console and the client.  Of the modelled services log texts
    are left out. *)

From Stdlib Require Import Ascii.
From stdpp Require Import gmap strings list fin_maps.

Open Scope Z_scope.

(** ** Results and stateful computations

    A method that may throw returns a [result]; a method that also touches
    the database is a function of the database state.  The state component
    is returned on the error path too, because a throw does not undo what
    an earlier transaction committed; [transaction] is what undoes it. *)

Inductive result (E A : Type) : Type :=
| Ok (a : A)
| Err (e : E).
Arguments Ok {E A} a.
Arguments Err {E A} e.

#[export] Instance result_ret {E} : MRet (result E) := fun _ a => Ok a.
#[export] Instance result_bind {E} : MBind (result E) := fun _ _ f m =>
  match m with Ok a => f a | Err e => Err e end.

Lemma rbind_Ok {E A B} (m : result E A) (f : A -> result E B) b :
  m ≫= f = Ok b <-> exists a, m = Ok a /\ f a = Ok b.
Proof. unfold mbind, result_bind. destruct m; split; naive_solver. Qed.

Definition M (S E A : Type) : Type := S -> result E A * S.

#[export] Instance M_ret {S E} : MRet (M S E) := fun _ a s => (Ok a, s).
#[export] Instance M_bind {S E} : MBind (M S E) := fun _ _ f m s =>
  match m s with
  | (Ok a, s') => f a s'
  | (Err e, s') => (Err e, s')
  end.

Section Monad.
Context {S E : Type}.

Definition throw {A} (e : E) : M S E A := fun s => (Err e, s).
Definition gets {A} (f : S -> A) : M S E A := fun s => (Ok (f s), s).
Definition modify (f : S -> S) : M S E unit := fun s => (Ok tt, f s).
Definition lift {A} (r : result E A) : M S E A := fun s => (r, s).

(** [if (c) throw e;] *)
Definition guard_throw (c : bool) (e : E) : M S E unit :=
  if c then throw e else mret tt.

(** [const x = ...; if (!x) throw e;] *)
Definition or_throw {A} (o : option A) (e : E) : M S E A :=
  match o with Some a => mret a | None => throw e end.

(** [dataSource.transaction(work)]: a throw rolls the writes back. *)
Definition transaction {A} (m : M S E A) : M S E A := fun s =>
  match m s with
  | (Ok a, s') => (Ok a, s')
  | (Err e, _) => (Err e, s)
  end.

(** [try { m } catch (error) { h(error) }] *)
Definition catch {A} (m : M S E A) (h : E -> M S E A) : M S E A := fun s =>
  match m s with
  | (Ok a, s') => (Ok a, s')
  | (Err e, s') => h e s'
  end.

(** A computation that leaves an invariant true on every exit, error
    exits included. *)
Definition preserves {A} (I : S -> Prop) (m : M S E A) : Prop :=
  forall s, I s -> I (m s).2.

Lemma bind_Ok {A B} (m : M S E A) (f : A -> M S E B) s b s' :
  (m ≫= f) s = (Ok b, s') <->
  exists a s1, m s = (Ok a, s1) /\ f a s1 = (Ok b, s').
Proof.
  unfold mbind, M_bind. destruct (m s) as [[a|e] s1]; split; naive_solver.
Qed.

Lemma bind_Err {A B} (m : M S E A) (f : A -> M S E B) s e s' :
  (m ≫= f) s = (Err e, s') <->
  m s = (Err e, s') \/
  exists a s1, m s = (Ok a, s1) /\ f a s1 = (Err e, s').
Proof.
  unfold mbind, M_bind. destruct (m s) as [[a|e'] s1]; split; naive_solver.
Qed.

Lemma bind_run {A B} (m : M S E A) (f : A -> M S E B) s a s1 :
  m s = (Ok a, s1) -> (m ≫= f) s = f a s1.
Proof. unfold mbind, M_bind. by intros ->. Qed.

Lemma bind_fail {A B} (m : M S E A) (f : A -> M S E B) s e s1 :
  m s = (Err e, s1) -> (m ≫= f) s = (Err e, s1).
Proof. unfold mbind, M_bind. by intros ->. Qed.

Lemma transaction_Ok {A} (m : M S E A) s a s' :
  transaction m s = (Ok a, s') <-> m s = (Ok a, s').
Proof. unfold transaction. destruct (m s) as [[?|?] ?]; naive_solver. Qed.

Lemma transaction_Err {A} (m : M S E A) s e s' :
  transaction m s = (Err e, s') <-> s' = s /\ exists s1, m s = (Err e, s1).
Proof. unfold transaction. destruct (m s) as [[?|?] ?]; naive_solver. Qed.

Lemma preserves_ret {A} (I : S -> Prop) (a : A) : preserves I (mret a).
Proof. intros s H. exact H. Qed.

Lemma preserves_throw {A} (I : S -> Prop) (e : E) :
  preserves I (throw (A := A) e).
Proof. intros s H. exact H. Qed.

Lemma preserves_gets {A} (I : S -> Prop) (f : S -> A) : preserves I (gets f).
Proof. intros s H. exact H. Qed.

Lemma preserves_modify (I : S -> Prop) (f : S -> S) :
  (forall s, I s -> I (f s)) -> preserves I (modify f).
Proof. intros Hf s H. by apply Hf. Qed.

Lemma preserves_lift {A} (I : S -> Prop) (r : result E A) :
  preserves I (lift r).
Proof. intros s H. exact H. Qed.

Lemma preserves_guard (I : S -> Prop) c e : preserves I (guard_throw c e).
Proof. intros s H. unfold guard_throw. by destruct c. Qed.

Lemma preserves_or_throw {A} (I : S -> Prop) (o : option A) e :
  preserves I (or_throw o e).
Proof. intros s H. by destruct o. Qed.

Lemma preserves_bind {A B} (I : S -> Prop) (m : M S E A) (f : A -> M S E B) :
  preserves I m -> (forall a, preserves I (f a)) -> preserves I (m ≫= f).
Proof.
  intros Hm Hf s H. unfold mbind, M_bind. specialize (Hm s H).
  destruct (m s) as [[a|e] s1]; [by apply Hf|exact Hm].
Qed.

(** Only the successful exit of a transaction has to be checked. *)
Lemma preserves_transaction {A} (I : S -> Prop) (m : M S E A) :
  (forall s a s', I s -> m s = (Ok a, s') -> I s') ->
  preserves I (transaction m).
Proof.
  intros Hm s H. unfold transaction.
  destruct (m s) as [[a|e] s1] eqn:Em; simpl; [by eapply Hm|exact H].
Qed.

Lemma preserves_catch {A} (I : S -> Prop) (m : M S E A) h :
  preserves I m -> (forall e, preserves I (h e)) -> preserves I (catch m h).
Proof.
  intros Hm Hh s H. unfold catch. specialize (Hm s H).
  destruct (m s) as [[a|e] s1]; [exact Hm|by apply Hh].
Qed.
End Monad.

Create HintDb monad.
#[export] Hint Resolve preserves_ret preserves_throw preserves_gets
  preserves_lift preserves_guard preserves_or_throw preserves_bind
  preserves_catch : monad.

(** Inverts a successful or failed run of a [M] computation, one bind,
    guard or lookup at a time. *)
Ltac minv_step :=
  match goal with
  | H : (_ ≫= _) _ = (Ok _, _) |- _ =>
      apply bind_Ok in H as (? & ? & ? & H)
  | H : _ ≫= _ = Ok _ |- _ => apply rbind_Ok in H as (? & ? & H)
  | H : @mret (result _) _ _ _ = _ |- _ => unfold mret, result_ret in H
  | H : Ok _ = Ok _ |- _ => injection H as H; subst
  | H : Err _ = Ok _ |- _ => discriminate H
  | H : transaction _ _ = (Ok _, _) |- _ =>
      apply (proj1 (transaction_Ok _ _ _ _)) in H
  | H : mret _ _ = (_, _) |- _ => unfold mret, M_ret in H
  | H : gets _ _ = (_, _) |- _ => unfold gets in H
  | H : modify _ _ = (_, _) |- _ => unfold modify in H
  | H : lift _ _ = (_, _) |- _ => unfold lift in H
  | H : throw _ _ = (Ok _, _) |- _ => discriminate H
  | H : throw _ _ = (Err _, _) |- _ => unfold throw in H
  | H : guard_throw ?c _ _ = (_, _) |- _ =>
      unfold guard_throw in H; destruct c eqn:?
  | H : or_throw ?o _ _ = (_, _) |- _ =>
      unfold or_throw in H; destruct o eqn:?
  | H : (Ok _, _) = (_, _) |- _ => injection H as H; subst
  | H : (Err _, _) = (Err _, _) |- _ => injection H as H; subst
  | H : (Err _, _) = (Ok _, _) |- _ => discriminate H
  end; simplify_eq.

Ltac minv := repeat minv_step.

(** ** Sums over tables

    The counters the services keep are sums over the rows of another table.
    [msum f m] is that sum; the lemmas say how it moves when one row is
    inserted or rewritten. *)

Section MapSum.
Context {K : Type} `{Countable K} {V : Type}.
Implicit Types (f g : K -> V -> Z) (m : gmap K V).

Definition msum f m : Z := map_fold (fun k v acc => f k v + acc) 0 m.

Lemma msum_empty f : msum f ∅ = 0.
Proof. apply map_fold_empty. Qed.

Lemma msum_insert_new f m k v :
  m !! k = None -> msum f (<[k := v]> m) = f k v + msum f m.
Proof.
  intros Hk. unfold msum.
  apply (map_fold_insert_L (fun k v acc => f k v + acc)); [intros; lia|done].
Qed.

Lemma msum_delete f m k v :
  m !! k = Some v -> msum f m = f k v + msum f (delete k m).
Proof.
  intros Hk. rewrite <- (insert_delete_id m k v Hk) at 1.
  apply msum_insert_new, lookup_delete_eq.
Qed.

Lemma msum_update f m k v v' :
  m !! k = Some v -> msum f (<[k := v']> m) = msum f m - f k v + f k v'.
Proof.
  intros Hk. rewrite (msum_delete f m k v Hk).
  rewrite <- (insert_delete_eq m k v').
  rewrite msum_insert_new by apply lookup_delete_eq. lia.
Qed.

Lemma msum_ext f g m :
  (forall k v, m !! k = Some v -> f k v = g k v) -> msum f m = msum g m.
Proof.
  induction m as [|k v m Hk IH] using map_ind; intros Hfg.
  - by rewrite !msum_empty.
  - rewrite !msum_insert_new by done. rewrite Hfg by apply lookup_insert_eq.
    rewrite IH; [done|]. intros k' v' Hk'. apply Hfg.
    rewrite lookup_insert_ne; [done|]. intros ->. congruence.
Qed.

Lemma msum_nonneg f m :
  (forall k v, m !! k = Some v -> 0 <= f k v) -> 0 <= msum f m.
Proof.
  induction m as [|k v m Hk IH] using map_ind; intros Hf.
  - by rewrite msum_empty.
  - rewrite msum_insert_new by done.
    pose proof (Hf k v ltac:(apply lookup_insert_eq)).
    enough (0 <= msum f m) by lia. apply IH. intros k' v' Hk'. apply Hf.
    rewrite lookup_insert_ne; [done|]. intros ->. congruence.
Qed.

Lemma msum_zero f m :
  (forall k v, m !! k = Some v -> f k v = 0) -> msum f m = 0.
Proof.
  intros Hf. rewrite (msum_ext f (fun _ _ => 0)) by done. clear Hf.
  induction m as [|k v m Hk IH] using map_ind; [apply msum_empty|].
  rewrite msum_insert_new by done. lia.
Qed.

(** A row never contributes more than the whole. *)
Lemma msum_elem_le f m k v :
  (forall k' v', m !! k' = Some v' -> 0 <= f k' v') ->
  m !! k = Some v -> f k v <= msum f m.
Proof.
  intros Hf Hk. rewrite (msum_delete f m k v Hk).
  enough (0 <= msum f (delete k m)) by lia. apply msum_nonneg.
  intros k' v' [_ Hk']%lookup_delete_Some. by apply (Hf k').
Qed.
End MapSum.

(** ** Queries

    [findOneBy] returns one row that satisfies the criteria; [find] all of
    them.  [order_by] is a stable sort, used for [order: { c: 'ASC' }]. *)

Section Queries.
Context {K : Type} `{Countable K} {V : Type}.
Implicit Types (m : gmap K V) (p : V -> bool).

Definition rows m : list V := (map_to_list m).*2.
Definition find_rows p m : list V := List.filter p (rows m).
Definition find_row p m : option V := List.find p (rows m).

Lemma elem_rows m v : v ∈ rows m <-> exists k, m !! k = Some v.
Proof.
  unfold rows. rewrite list_elem_of_fmap. split.
  - intros ([k v'] & -> & Hin). exists k. by apply elem_of_map_to_list.
  - intros [k Hk]. exists (k, v). split; [done|].
    by apply elem_of_map_to_list.
Qed.

Lemma find_row_Some p m v :
  find_row p m = Some v -> p v = true /\ exists k, m !! k = Some v.
Proof.
  intros Hf. apply List.find_some in Hf as [Hin Hp]. split; [done|].
  apply elem_rows. by apply list_elem_of_In.
Qed.

Lemma find_row_None p m k v :
  find_row p m = None -> m !! k = Some v -> p v = false.
Proof.
  intros Hf Hk. apply (List.find_none _ _ Hf).
  apply list_elem_of_In, elem_rows. eauto.
Qed.

Lemma elem_find_rows p m v :
  v ∈ find_rows p m <-> p v = true /\ exists k, m !! k = Some v.
Proof.
  unfold find_rows. rewrite list_elem_of_In, List.filter_In,
    <- list_elem_of_In, elem_rows. naive_solver.
Qed.
End Queries.

Section OrderBy.
Context {A : Type} (key : A -> Z).

Fixpoint insert_by (a : A) (l : list A) : list A :=
  match l with
  | [] => [a]
  | b :: l' => if key a <=? key b then a :: l else b :: insert_by a l'
  end.

Definition order_by (l : list A) : list A := foldr insert_by [] l.

Lemma insert_by_Permutation a l : insert_by a l ≡ₚ a :: l.
Proof.
  induction l as [|b l IH]; simpl; [done|].
  destruct (key a <=? key b); [done|]. rewrite IH. apply perm_swap.
Qed.

Lemma order_by_Permutation l : order_by l ≡ₚ l.
Proof.
  induction l as [|a l IH]; simpl; [done|].
  by rewrite insert_by_Permutation, IH.
Qed.

Lemma elem_order_by a l : a ∈ order_by l <-> a ∈ l.
Proof. by rewrite order_by_Permutation. Qed.

(** The first row of an ascending order is a minimum of the key. *)
Lemma order_by_head_min l b :
  head (order_by l) = Some b -> b ∈ l /\ forall a, a ∈ l -> key b <= key a.
Proof.
  intros Hh. split.
  - apply elem_order_by. destruct (order_by l); simplify_eq/=. by left.
  - revert b Hh. induction l as [|a l IH]; intros b; simpl; [done|].
    destruct (order_by l) as [|d l'] eqn:El; simpl.
    + intros [= <-] c [->|Hc]%elem_of_cons; [done|].
      apply elem_order_by in Hc. rewrite El in Hc. by apply elem_of_nil in Hc.
    + specialize (IH d eq_refl).
      destruct (key a <=? key d) eqn:E; intros [= <-] c [->|Hc]%elem_of_cons;
        try specialize (IH c Hc); lia.
Qed.
End OrderBy.

(** ** Numbers, strings and dates of the runtime *)

Module JS.
(** [Number.isSafeInteger], on the numbers that are integers at all. *)
Definition isSafeInteger (z : Z) : bool := Z.abs z <=? 2 ^ 53 - 1.

(** [ToInt32] and [ToUint32], the conversions of the bitwise operators. *)
Definition toUint32 (z : Z) : Z := z mod 2 ^ 32.
Definition toInt32 (z : Z) : Z :=
  let u := z mod 2 ^ 32 in if u <? 2 ^ 31 then u else u - 2 ^ 32.

(** [a << n] and [a >>> n]. *)
Definition shl (a n : Z) : Z := toInt32 (Z.shiftl (toInt32 a) (n mod 32)).
Definition ushr (a n : Z) : Z := Z.shiftr (toUint32 a) (n mod 32).

(** White space of [String.prototype.trim] among the code units 0-255. *)
Definition is_space (c : Ascii.ascii) : bool :=
  let n := Ascii.nat_of_ascii c in
  (((9 <=? n) && (n <=? 13)) || (n =? 32) || (n =? 160))%nat.

Fixpoint drop_while (p : Ascii.ascii -> bool) (l : list Ascii.ascii) :=
  match l with
  | [] => []
  | c :: l' => if p c then drop_while p l' else l
  end.

Definition strip (p : Ascii.ascii -> bool) (s : string) : string :=
  String.string_of_list_ascii
    (reverse (drop_while p (reverse (drop_while p
      (String.list_ascii_of_string s))))).

Definition trim : string -> string := strip is_space.

(** PostgreSQL's [btrim(s)]: only the space character. *)
Definition btrim : string -> string :=
  strip (fun c => Ascii.eqb c " "%char).

(** Truthiness of a string. *)
Definition truthy (s : string) : bool := negb (String.eqb s "").
Definition nonblank (s : string) : bool := truthy (trim s).

(** Splits on one separator character, like [s.split(sep)]: always at
    least one piece. *)
Fixpoint split_on (sep : Ascii.ascii) (s : string) : list string :=
  match s with
  | EmptyString => [EmptyString]
  | String c s' =>
      let ps := split_on sep s' in
      if Ascii.eqb c sep then EmptyString :: ps
      else match ps with
           | p :: ps' => String c p :: ps'
           | [] => [String c EmptyString]
           end
  end.

(** [getUTCFullYear] and [getUTCMonth] of a time value in milliseconds
    (proleptic Gregorian calendar, months from 1). *)
Definition utc_month (ms : Z) : Z * Z :=
  let z := ms / 86400000 + 719468 in
  let era := z / 146097 in
  let doe := z mod 146097 in
  let yoe := (doe - doe / 1460 + doe / 36524 - doe / 146096) / 365 in
  let doy := doe - (365 * yoe + yoe / 4 - yoe / 100) in
  let mp := (5 * doy + 2) / 153 in
  let m := if mp <? 10 then mp + 3 else mp - 9 in
  (yoe + era * 400 + (if m <=? 2 then 1 else 0), m).

Lemma toUint32_range z : 0 <= toUint32 z < 2 ^ 32.
Proof. unfold toUint32. apply Z.mod_pos_bound. lia. Qed.

Lemma toUint32_toInt32 z : toUint32 (toInt32 z) = toUint32 z.
Proof.
  unfold toUint32, toInt32. destruct (z mod 2 ^ 32 <? 2 ^ 31).
  - by rewrite Z.mod_mod by lia.
  - rewrite Zminus_mod, Z_mod_same_full, Z.sub_0_r, !Z.mod_mod by lia. done.
Qed.

Lemma ushr_small a n :
  0 <= a < 2 ^ 32 -> 0 <= n < 32 -> ushr a n = a / 2 ^ n.
Proof.
  intros Ha Hn. unfold ushr, toUint32.
  rewrite !Z.mod_small, Z.shiftr_div_pow2; lia.
Qed.
End JS.

(** ** Set-like list tests

    [list.includes(x)] and [xs.every((x) => new Set(ys).has(x))]. *)

Definition includes (l : list string) (x : string) : bool := bool_decide (x ∈ l).
Definition all_included (xs ys : list string) : bool := forallb (includes ys) xs.

Lemma includes_spec l x : includes l x = true <-> x ∈ l.
Proof. apply bool_decide_eq_true. Qed.

Lemma all_included_spec xs ys : all_included xs ys = true <-> xs ⊆ ys.
Proof.
  unfold all_included. rewrite forallb_forall. split.
  - intros H x Hx. apply includes_spec, H. by apply list_elem_of_In.
  - intros H x Hx. apply includes_spec, H. by apply list_elem_of_In.
Qed.

Lemma concat_cons (x : string) xs : String.concat "" (x :: xs) = (x +:+ String.concat "" xs)%string.
Proof.
  destruct xs; [|done]. cbn. induction x as [|c x IH]; [done|]. by rewrite IH at 1.
Qed.

(** Destructs the conditions of a run until it is a value. *)
Ltac case_all :=
  repeat (case_match; simplify_eq/=).

(** Boolean conjunctions as propositions. *)
Ltac bsplit :=
  repeat match goal with
  | H : _ && _ = true |- _ => apply andb_true_iff in H as [? H]
  | H : _ || _ = false |- _ => apply orb_false_iff in H as [? H]
  | H : negb _ = true |- _ => apply negb_true_iff in H
  | H : negb _ = false |- _ => apply negb_false_iff in H
  | H : String.eqb _ _ = true |- _ => apply String.eqb_eq in H
  | H : String.eqb _ _ = false |- _ => apply String.eqb_neq in H
  | H : bool_decide _ = true |- _ => apply bool_decide_eq_true in H
  | H : bool_decide _ = false |- _ => apply bool_decide_eq_false in H
  | H : (_ <=? _) = true |- _ => apply Z.leb_le in H
  | H : (_ <=? _) = false |- _ => apply Z.leb_gt in H
  | H : (_ <? _) = true |- _ => apply Z.ltb_lt in H
  | H : (_ <? _) = false |- _ => apply Z.ltb_ge in H
  | H : (_ =? _) = true |- _ => apply Z.eqb_eq in H
  | H : (_ =? _) = false |- _ => apply Z.eqb_neq in H
  end.
