(* ===== verification/BudgetLedger.v ===== *)
(** * The Agent budget ledger

    [AgentBudgetLedgerService] (agent-runtime/agent-budget-ledger.service.ts)
    is the PostgreSQL authority for Agent budgets.  A ledger row per workflow
    run keeps, for steps, tokens, provider calls and cost, a limit, what was
    used and what is reserved; a reservation row per idempotency key keeps the
    claim; a usage row per tenant and UTC month keeps the tenant aggregate.

    The tables are finite maps; a row is a record.  SQL statements are
    functions on rows with [integer] arithmetic (an overflow raises 22003)
    and the CHECK constraints of the migrations (a violation raises 23514).
    Generated primary keys are arguments of the operations; an insert under a
    taken key raises 23505.  [b_now] is PostgreSQL's [now()] and [b_date] is
    [Date.now()].  The theorems are in [BudgetTheorems.v]. *)

From Stdlib Require Import Ascii.
From stdpp Require Import gmap strings list fin_maps.
From S2P Require Import Prelude.

Module Ledger.

(** ** Rows and tables *)

Inductive AgentBudgetReservationStatus := Reserved | Committed | Released | Unknown.

#[export] Instance AgentBudgetReservationStatus_eq_dec :
  EqDecision AgentBudgetReservationStatus.
Proof. solve_decision. Defined.

Record AgentBudgetLedger := {
  lg_id : string;
  lg_tenantId : string;
  lg_caseId : string;
  lg_workflowRunId : string;
  stepLimit : Z; stepUsed : Z; stepReserved : Z;
  tokenLimit : Z; tokenUsed : Z; tokenReserved : Z;
  providerCallLimit : Z; providerCallUsed : Z; providerCallReserved : Z;
  costLimitMinorUnits : Z; costUsedMinorUnits : Z; costReservedMinorUnits : Z;
  lg_currency : string;
  lg_startedAt : Z;
  lg_deadlineAt : Z;
  lg_version : Z;
  lg_closedAt : option Z }.

Record AgentBudgetUnits := {
  stepUnits : Z; tokenUnits : Z; providerCallUnits : Z; costMinorUnits : Z }.

(** A UTC month, the [date] of its first day. *)
Definition window : Type := Z * Z.

Record AgentBudgetReservation := {
  rs_id : string;
  rs_tenantId : string;
  rs_ledgerId : string;
  rs_idempotencyKey : string;
  rs_units : AgentBudgetUnits;
  rs_aggregateWindowStart : option window;
  rs_actualCostMinorUnits : option Z;
  rs_status : AgentBudgetReservationStatus;
  rs_resolvedAt : option Z;
  rs_resolvedBy : option string;
  rs_resolutionNote : option string }.

Record TenantAgentBudgetUsage := {
  us_providerCallUsed : Z; us_providerCallReserved : Z;
  us_costUsedMinorUnits : Z; us_costReservedMinorUnits : Z;
  us_currency : string }.

Record Tenant := {
  agentRunStepBudgetOverride : option Z;
  agentRunDurationBudgetMsOverride : option Z;
  agentMonthlyProviderCallLimit : option Z;
  agentMonthlyCostLimitMinorUnits : option Z;
  agentBudgetCurrency : option string }.

Record DB := {
  tenants : gmap string Tenant;
  ledgers : gmap string AgentBudgetLedger;
  reservations : gmap string AgentBudgetReservation;
  usage : gmap (string * window) TenantAgentBudgetUsage }.

Definition put_ledger (l : AgentBudgetLedger) (db : DB) : DB :=
  {| tenants := tenants db; ledgers := <[lg_id l := l]> (ledgers db);
     reservations := reservations db; usage := usage db |}.
Definition put_reservation (r : AgentBudgetReservation) (db : DB) : DB :=
  {| tenants := tenants db; ledgers := ledgers db;
     reservations := <[rs_id r := r]> (reservations db); usage := usage db |}.
Definition put_usage (k : string * window) (u : TenantAgentBudgetUsage) (db : DB) : DB :=
  {| tenants := tenants db; ledgers := ledgers db;
     reservations := reservations db; usage := <[k := u]> (usage db) |}.

(** The two clocks an operation reads. *)
Record Clock := { b_now : Z; b_date : Z }.

(** ** Errors *)

Inductive AgentBudgetFailureCode :=
| BUDGET_EXHAUSTED | DEADLINE_EXCEEDED | LEDGER_VERSION_CONFLICT
| LEDGER_CLOSED | RESERVATION_CONFLICT.

Inductive Failure :=
| AgentBudgetError (code : AgentBudgetFailureCode) (message : string)
| EntityNotFound
| UniqueViolation
| CheckViolation
| NumericOutOfRange.

Definition isUniqueViolation (e : Failure) : bool :=
  match e with UniqueViolation => true | _ => false end.

(** ** Validation *)

Definition assertNonnegativeInt (value : Z) (name : string) : result Failure unit :=
  if negb (JS.isSafeInteger value) || (value <? 0) || (2147483647 <? value)
  then Err (AgentBudgetError RESERVATION_CONFLICT
              (name +:+ " must be a nonnegative 32-bit safe integer"))
  else Ok tt.

Definition validateUnits (u : AgentBudgetUnits) : result Failure unit :=
  _ ← assertNonnegativeInt (stepUnits u) "stepUnits";
  _ ← assertNonnegativeInt (tokenUnits u) "tokenUnits";
  _ ← assertNonnegativeInt (providerCallUnits u) "providerCallUnits";
  _ ← assertNonnegativeInt (costMinorUnits u) "costMinorUnits";
  if (stepUnits u =? 0) && (tokenUnits u =? 0) &&
     (providerCallUnits u =? 0) && (costMinorUnits u =? 0)
  then Err (AgentBudgetError RESERVATION_CONFLICT
              "A budget reservation must claim at least one unit")
  else Ok tt.

Record AgentBudgetLedgerInput := {
  in_tenantId : string; in_caseId : string; in_workflowRunId : string;
  in_stepLimit : Z; in_tokenLimit : Z; in_providerCallLimit : Z;
  in_costLimitMinorUnits : Z; in_currency : string;
  in_startedAt : Z; in_deadlineAt : Z }.

(** [/^[A-Z]{3}$/] *)
Definition is_upper (c : Ascii.ascii) : bool :=
  let n := Ascii.nat_of_ascii c in ((65 <=? n) && (n <=? 90))%nat.
Definition is_currency_code (s : string) : bool :=
  match s with
  | String a (String b (String c EmptyString)) =>
      is_upper a && is_upper b && is_upper c
  | _ => false
  end.

Definition validateLedgerInput (i : AgentBudgetLedgerInput) : result Failure unit :=
  _ ← assertNonnegativeInt (in_stepLimit i) "step limit";
  _ ← assertNonnegativeInt (in_tokenLimit i) "token limit";
  _ ← assertNonnegativeInt (in_providerCallLimit i) "provider-call limit";
  _ ← assertNonnegativeInt (in_costLimitMinorUnits i) "cost limit";
  if negb (is_currency_code (in_currency i))
  then Err (AgentBudgetError RESERVATION_CONFLICT
              "Budget currency must be a three-letter uppercase code")
  else if in_deadlineAt i <=? in_startedAt i
  then Err (AgentBudgetError DEADLINE_EXCEEDED
              "Agent deadline must be after its trusted start time")
  else Ok tt.

Definition opt_nonblank (o : option string) : bool :=
  match o with Some s => JS.nonblank s | None => false end.

Definition validateManualResolution (resolvedBy resolutionNote : option string)
  : result Failure unit :=
  if negb (opt_nonblank resolvedBy) ||
     (200 <? Z.of_nat (String.length (default "" resolvedBy)))
  then Err (AgentBudgetError RESERVATION_CONFLICT
              "Manual reconciliation requires a bounded reviewer identity")
  else if negb (opt_nonblank resolutionNote) ||
          (Z.of_nat (String.length (default "" resolutionNote)) <? 10) ||
          (2000 <? Z.of_nat (String.length (default "" resolutionNote)))
  then Err (AgentBudgetError RESERVATION_CONFLICT
              "Manual reconciliation requires a 10-2000 character evidence note")
  else Ok tt.

Definition assertSameLedgerConfiguration (l : AgentBudgetLedger)
    (i : AgentBudgetLedgerInput) : result Failure unit :=
  if negb (String.eqb (lg_caseId l) (in_caseId i)) ||
     negb (stepLimit l =? in_stepLimit i) ||
     negb (tokenLimit l =? in_tokenLimit i) ||
     negb (providerCallLimit l =? in_providerCallLimit i) ||
     negb (costLimitMinorUnits l =? in_costLimitMinorUnits i) ||
     negb (String.eqb (JS.trim (lg_currency l)) (in_currency i))
  then Err (AgentBudgetError RESERVATION_CONFLICT
              "A workflow retry cannot reset or alter its existing budget ledger")
  else Ok tt.

Definition assertSameUnits (r : AgentBudgetReservation) (u : AgentBudgetUnits)
  : result Failure unit :=
  if negb (stepUnits (rs_units r) =? stepUnits u) ||
     negb (tokenUnits (rs_units r) =? tokenUnits u) ||
     negb (providerCallUnits (rs_units r) =? providerCallUnits u) ||
     negb (costMinorUnits (rs_units r) =? costMinorUnits u)
  then Err (AgentBudgetError RESERVATION_CONFLICT
              "A reservation idempotency key cannot be reused for different units")
  else Ok tt.

(** ** Snapshots and receipts *)

Record AgentBudgetSnapshot := {
  sn_ledgerId : string; sn_version : Z;
  remainingSteps : Z; remainingTokens : Z; remainingProviderCalls : Z;
  remainingCostMinorUnits : Z; remainingDurationMs : Z;
  sn_currency : string; sn_startedAt : Z; sn_deadlineAt : Z; sn_closed : bool }.

Definition snapshot (clk : Clock) (l : AgentBudgetLedger) : AgentBudgetSnapshot :=
  {| sn_ledgerId := lg_id l;
     sn_version := lg_version l;
     remainingSteps := Z.max 0 (stepLimit l - stepUsed l - stepReserved l);
     remainingTokens := Z.max 0 (tokenLimit l - tokenUsed l - tokenReserved l);
     remainingProviderCalls :=
       Z.max 0 (providerCallLimit l - providerCallUsed l - providerCallReserved l);
     remainingCostMinorUnits :=
       Z.max 0 (costLimitMinorUnits l - costUsedMinorUnits l - costReservedMinorUnits l);
     remainingDurationMs := Z.max 0 (lg_deadlineAt l - b_date clk);
     sn_currency := JS.trim (lg_currency l);
     sn_startedAt := lg_startedAt l;
     sn_deadlineAt := lg_deadlineAt l;
     sn_closed := bool_decide (is_Some (lg_closedAt l)) |}.

Record Receipt := {
  rc_reservationId : string; rc_idempotencyKey : string;
  rc_status : AgentBudgetReservationStatus; rc_units : AgentBudgetUnits;
  rc_actualCostMinorUnits : option Z; rc_replayed : bool;
  rc_ledger : AgentBudgetSnapshot }.

Definition receipt (clk : Clock) (r : AgentBudgetReservation)
    (l : AgentBudgetLedger) (replayed : bool) : Receipt :=
  {| rc_reservationId := rs_id r; rc_idempotencyKey := rs_idempotencyKey r;
     rc_status := rs_status r; rc_units := rs_units r;
     rc_actualCostMinorUnits := rs_actualCostMinorUnits r;
     rc_replayed := replayed; rc_ledger := snapshot clk l |}.

(** ** SQL arithmetic and constraints *)

(** A value of type [integer]. *)
Definition int4 (z : Z) : result Failure Z :=
  if (-2147483648 <=? z) && (z <=? 2147483647) then Ok z else Err NumericOutOfRange.

(** ["used" + "reserved" + $n <= "limit"] *)
Definition fits (used reserved n limit : Z) : result Failure bool :=
  s ← int4 (used + reserved);
  t ← int4 (s + n);
  mret (t <=? limit).

(** [AND], left to right. *)
Definition sql_and (a : bool) (b : result Failure bool) : result Failure bool :=
  if a then b else Ok false.

(** The CHECK constraints of "agent_budget_ledgers". *)
Definition ledger_checks (l : AgentBudgetLedger) : result Failure AgentBudgetLedger :=
  if (0 <=? stepLimit l) && (0 <=? stepUsed l) && (0 <=? stepReserved l) &&
     (0 <=? tokenLimit l) && (0 <=? tokenUsed l) && (0 <=? tokenReserved l) &&
     (0 <=? providerCallLimit l) && (0 <=? providerCallUsed l) &&
     (0 <=? providerCallReserved l) && (0 <=? costLimitMinorUnits l) &&
     (0 <=? costUsedMinorUnits l) && (0 <=? costReservedMinorUnits l) &&
     (0 <? lg_version l) && (lg_startedAt l <? lg_deadlineAt l)
  then Ok l else Err CheckViolation.

(** The CHECK constraints of "tenant_agent_budget_usage". *)
Definition usage_checks (u : TenantAgentBudgetUsage) : result Failure TenantAgentBudgetUsage :=
  if (0 <=? us_providerCallUsed u) && (0 <=? us_providerCallReserved u) &&
     (0 <=? us_costUsedMinorUnits u) && (0 <=? us_costReservedMinorUnits u)
  then Ok u else Err CheckViolation.

(** The CHECK constraints of "agent_budget_reservations". *)
Definition reservation_checks (r : AgentBudgetReservation) : result Failure AgentBudgetReservation :=
  let u := rs_units r in
  a ← int4 (stepUnits u + tokenUnits u);
  b ← int4 (a + providerCallUnits u);
  c ← int4 (b + costMinorUnits u);
  if (0 <=? stepUnits u) && (0 <=? tokenUnits u) && (0 <=? providerCallUnits u) &&
     (0 <=? costMinorUnits u) && (0 <=? default 0 (rs_actualCostMinorUnits r)) &&
     (0 <? c)
  then Ok r else Err CheckViolation.

(** [UPDATE "agent_budget_ledgers" SET set WHERE "id" = id AND "tenantId" =
    tenant AND cond RETURNING *]. *)
Definition update_ledger (id tenant : string)
    (cond : AgentBudgetLedger -> result Failure bool)
    (set : AgentBudgetLedger -> result Failure AgentBudgetLedger)
  : M DB Failure (option AgentBudgetLedger) :=
  row ← gets (fun db => ledgers db !! id);
  match row with
  | None => mret None
  | Some l =>
      if negb (String.eqb (lg_tenantId l) tenant) then mret None else
      b ← lift (cond l);
      if b : bool then
        l' ← lift (set l ≫= ledger_checks);
        _ ← modify (put_ledger l');
        mret (Some l')
      else mret None
  end.

(** Counters of a ledger row after a statement; each is an [integer]. *)
Definition set_counters (l : AgentBudgetLedger)
    (sU sR tU tR pU pR cU cR : Z) : result Failure AgentBudgetLedger :=
  sU ← int4 sU; sR ← int4 sR; tU ← int4 tU; tR ← int4 tR;
  pU ← int4 pU; pR ← int4 pR; cU ← int4 cU; cR ← int4 cR;
  v ← int4 (lg_version l + 1);
  mret {| lg_id := lg_id l; lg_tenantId := lg_tenantId l; lg_caseId := lg_caseId l;
          lg_workflowRunId := lg_workflowRunId l;
          stepLimit := stepLimit l; stepUsed := sU; stepReserved := sR;
          tokenLimit := tokenLimit l; tokenUsed := tU; tokenReserved := tR;
          providerCallLimit := providerCallLimit l; providerCallUsed := pU;
          providerCallReserved := pR;
          costLimitMinorUnits := costLimitMinorUnits l; costUsedMinorUnits := cU;
          costReservedMinorUnits := cR;
          lg_currency := lg_currency l; lg_startedAt := lg_startedAt l;
          lg_deadlineAt := lg_deadlineAt l; lg_version := v;
          lg_closedAt := lg_closedAt l |}.

(** ** The tenant aggregate *)

Definition current_window (clk : Clock) : window := JS.utc_month (b_now clk).

Definition set_usage (u : TenantAgentBudgetUsage) (pU pR cU cR : Z)
  : result Failure TenantAgentBudgetUsage :=
  pU ← int4 pU; pR ← int4 pR; cU ← int4 cU; cR ← int4 cR;
  usage_checks {| us_providerCallUsed := pU; us_providerCallReserved := pR;
                  us_costUsedMinorUnits := cU; us_costReservedMinorUnits := cR;
                  us_currency := us_currency u |}.

Definition insert_usage_row (clk : Clock) (tenantId currency : string) : M DB Failure unit :=
  modify (fun db =>
    match tenants db !! tenantId, usage db !! (tenantId, current_window clk) with
    | Some t, None =>
        match agentMonthlyProviderCallLimit t, agentMonthlyCostLimitMinorUnits t,
              agentBudgetCurrency t with
        | Some _, Some _, Some c =>
            if String.eqb (JS.btrim c) currency
            then put_usage (tenantId, current_window clk)
                   {| us_providerCallUsed := 0; us_providerCallReserved := 0;
                      us_costUsedMinorUnits := 0; us_costReservedMinorUnits := 0;
                      us_currency := c |} db
            else db
        | _, _, _ => db
        end
    | _, _ => db
    end).

Definition reserve_usage_where (t : Tenant) (u : TenantAgentBudgetUsage)
    (currency : string) (units : AgentBudgetUnits) : result Failure bool :=
  match agentBudgetCurrency t, agentMonthlyProviderCallLimit t,
        agentMonthlyCostLimitMinorUnits t with
  | Some c, Some callLimit, Some costLimit =>
      sql_and (String.eqb (JS.btrim (us_currency u)) currency &&
               String.eqb (JS.btrim c) currency)
        (a ← fits (us_providerCallUsed u) (us_providerCallReserved u)
               (providerCallUnits units) callLimit;
         sql_and a
           (fits (us_costUsedMinorUnits u) (us_costReservedMinorUnits u)
              (costMinorUnits units) costLimit))
  | _, _, _ => Ok false
  end.

Definition reserveTenantAggregate (clk : Clock) (tenantId currency : string)
    (units : AgentBudgetUnits) : M DB Failure (option window) :=
  if (providerCallUnits units =? 0) && (costMinorUnits units =? 0) then mret None else
  _ ← insert_usage_row clk tenantId currency;
  t ← gets (fun db => tenants db !! tenantId);
  u ← gets (fun db => usage db !! (tenantId, current_window clk));
  match t, u with
  | Some t, Some u =>
      b ← lift (reserve_usage_where t u currency units);
      if b : bool then
        u' ← lift (set_usage u (us_providerCallUsed u)
                     (us_providerCallReserved u + providerCallUnits units)
                     (us_costUsedMinorUnits u)
                     (us_costReservedMinorUnits u + costMinorUnits units));
        _ ← modify (put_usage (tenantId, current_window clk) u');
        mret (Some (current_window clk))
      else throw (AgentBudgetError BUDGET_EXHAUSTED
                    "Tenant aggregate Agent budget is unavailable or exhausted")
  | _, _ => throw (AgentBudgetError BUDGET_EXHAUSTED
                     "Tenant aggregate Agent budget is unavailable or exhausted")
  end.

Definition commit_usage_where (t : option Tenant) (u : TenantAgentBudgetUsage)
    (r : AgentBudgetReservation) (actual : Z) : result Failure bool :=
  let units := rs_units r in
  sql_and ((providerCallUnits units <=? us_providerCallReserved u) &&
           (costMinorUnits units <=? us_costReservedMinorUnits u))
    (if actual <=? costMinorUnits units then Ok true else
     match t with
     | Some t =>
         match agentBudgetCurrency t, agentMonthlyCostLimitMinorUnits t with
         | Some c, Some costLimit =>
             sql_and (String.eqb (JS.btrim c) (JS.btrim (us_currency u)))
               (s ← int4 (us_costUsedMinorUnits u + us_costReservedMinorUnits u);
                s ← int4 (s - costMinorUnits units);
                s ← int4 (s + actual);
                mret (s <=? costLimit))
         | _, _ => Ok false
         end
     | None => Ok false
     end).

Definition commitTenantAggregate (r : AgentBudgetReservation) (actual : Z)
  : M DB Failure unit :=
  match rs_aggregateWindowStart r with
  | None => mret tt
  | Some w =>
      u ← gets (fun db => usage db !! (rs_tenantId r, w));
      t ← gets (fun db => tenants db !! rs_tenantId r);
      let units := rs_units r in
      match u with
      | None => throw (AgentBudgetError BUDGET_EXHAUSTED
                  "Actual provider cost exceeds the tenant aggregate Agent budget")
      | Some u =>
          b ← lift (commit_usage_where t u r actual);
          if b : bool then
            u' ← lift (set_usage u
                         (us_providerCallUsed u + providerCallUnits units)
                         (us_providerCallReserved u - providerCallUnits units)
                         (us_costUsedMinorUnits u + actual)
                         (us_costReservedMinorUnits u - costMinorUnits units));
            modify (put_usage (rs_tenantId r, w) u')
          else throw (AgentBudgetError BUDGET_EXHAUSTED
                  "Actual provider cost exceeds the tenant aggregate Agent budget")
      end
  end.

Definition releaseTenantAggregate (r : AgentBudgetReservation) : M DB Failure unit :=
  match rs_aggregateWindowStart r with
  | None => mret tt
  | Some w =>
      u ← gets (fun db => usage db !! (rs_tenantId r, w));
      let units := rs_units r in
      match u with
      | Some u =>
          if (providerCallUnits units <=? us_providerCallReserved u) &&
             (costMinorUnits units <=? us_costReservedMinorUnits u)
          then
            u' ← lift (set_usage u (us_providerCallUsed u)
                         (us_providerCallReserved u - providerCallUnits units)
                         (us_costUsedMinorUnits u)
                         (us_costReservedMinorUnits u - costMinorUnits units));
            modify (put_usage (rs_tenantId r, w) u')
          else throw (AgentBudgetError RESERVATION_CONFLICT
                        "Tenant aggregate reservation no longer exists")
      | None => throw (AgentBudgetError RESERVATION_CONFLICT
                         "Tenant aggregate reservation no longer exists")
      end
  end.

(** ** Operations *)

Definition find_ledger (id tenantId : string) (db : DB) : option AgentBudgetLedger :=
  match ledgers db !! id with
  | Some l => if String.eqb (lg_tenantId l) tenantId then Some l else None
  | None => None
  end.

Definition by_workflow (tenantId runId : string) (l : AgentBudgetLedger) : bool :=
  String.eqb (lg_tenantId l) tenantId && String.eqb (lg_workflowRunId l) runId.

Definition new_ledger (newId : string) (i : AgentBudgetLedgerInput) : AgentBudgetLedger :=
  {| lg_id := newId; lg_tenantId := in_tenantId i; lg_caseId := in_caseId i;
     lg_workflowRunId := in_workflowRunId i;
     stepLimit := in_stepLimit i; stepUsed := 0; stepReserved := 0;
     tokenLimit := in_tokenLimit i; tokenUsed := 0; tokenReserved := 0;
     providerCallLimit := in_providerCallLimit i; providerCallUsed := 0;
     providerCallReserved := 0;
     costLimitMinorUnits := in_costLimitMinorUnits i; costUsedMinorUnits := 0;
     costReservedMinorUnits := 0;
     lg_currency := in_currency i; lg_startedAt := in_startedAt i;
     lg_deadlineAt := in_deadlineAt i; lg_version := 1; lg_closedAt := None |}.

(** [INSERT ... ON CONFLICT ("tenantId", "workflowRunId") DO NOTHING
    RETURNING *], falling back to the existing row. *)
Definition insert_or_find_ledger (newId : string) (i : AgentBudgetLedgerInput)
  : M DB Failure AgentBudgetLedger :=
  existing ← gets (fun db =>
    find_row (by_workflow (in_tenantId i) (in_workflowRunId i)) (ledgers db));
  match existing with
  | Some l => mret l
  | None =>
      taken ← gets (fun db => ledgers db !! newId);
      _ ← guard_throw (bool_decide (is_Some taken)) UniqueViolation;
      l ← lift (ledger_checks (new_ledger newId i));
      _ ← modify (put_ledger l);
      mret l
  end.

Definition createOrLoad (clk : Clock) (newId : string) (i : AgentBudgetLedgerInput)
  : M DB Failure AgentBudgetSnapshot :=
  _ ← lift (validateLedgerInput i);
  l ← transaction (insert_or_find_ledger newId i);
  _ ← lift (assertSameLedgerConfiguration l i);
  mret (snapshot clk l).

Definition observe (clk : Clock) (tenantId ledgerId : string)
  : M DB Failure AgentBudgetSnapshot :=
  row ← gets (find_ledger ledgerId tenantId);
  l ← or_throw row EntityNotFound;
  mret (snapshot clk l).

Record ReserveInput := {
  ri_tenantId : string; ri_ledgerId : string; ri_idempotencyKey : string;
  ri_expectedVersion : Z; ri_units : AgentBudgetUnits }.

Definition receiptFor (clk : Clock) (r : AgentBudgetReservation) (replayed : bool)
  : M DB Failure Receipt :=
  row ← gets (find_ledger (rs_ledgerId r) (rs_tenantId r));
  l ← or_throw row EntityNotFound;
  mret (receipt clk r l replayed).

Definition by_key (i : ReserveInput) (r : AgentBudgetReservation) : bool :=
  String.eqb (rs_ledgerId r) (ri_ledgerId i) &&
  String.eqb (rs_tenantId r) (ri_tenantId i) &&
  String.eqb (rs_idempotencyKey r) (ri_idempotencyKey i).

Definition reserve_where (clk : Clock) (i : ReserveInput) (l : AgentBudgetLedger)
  : result Failure bool :=
  let u := ri_units i in
  sql_and ((lg_version l =? ri_expectedVersion i) &&
           bool_decide (lg_closedAt l = None) && (b_now clk <? lg_deadlineAt l))
    (a ← fits (stepUsed l) (stepReserved l) (stepUnits u) (stepLimit l);
     sql_and a
    (a ← fits (tokenUsed l) (tokenReserved l) (tokenUnits u) (tokenLimit l);
     sql_and a
    (a ← fits (providerCallUsed l) (providerCallReserved l) (providerCallUnits u)
           (providerCallLimit l);
     sql_and a
     (fits (costUsedMinorUnits l) (costReservedMinorUnits l) (costMinorUnits u)
        (costLimitMinorUnits l))))).

Definition reserve_set (i : ReserveInput) (l : AgentBudgetLedger)
  : result Failure AgentBudgetLedger :=
  let u := ri_units i in
  set_counters l (stepUsed l) (stepReserved l + stepUnits u)
    (tokenUsed l) (tokenReserved l + tokenUnits u)
    (providerCallUsed l) (providerCallReserved l + providerCallUnits u)
    (costUsedMinorUnits l) (costReservedMinorUnits l + costMinorUnits u).

Definition throwReservationFailure {A} (clk : Clock) (i : ReserveInput)
  : M DB Failure A :=
  row ← gets (find_ledger (ri_ledgerId i) (ri_tenantId i));
  l ← or_throw row EntityNotFound;
  if bool_decide (is_Some (lg_closedAt l))
  then throw (AgentBudgetError LEDGER_CLOSED "Agent budget ledger is closed")
  else if lg_deadlineAt l <=? b_date clk
  then throw (AgentBudgetError DEADLINE_EXCEEDED "Agent run deadline has been exceeded")
  else if negb (lg_version l =? ri_expectedVersion i)
  then throw (AgentBudgetError LEDGER_VERSION_CONFLICT "Agent budget ledger version is stale")
  else throw (AgentBudgetError BUDGET_EXHAUSTED "Agent budget capacity is exhausted").

Definition new_reservation (newId : string) (i : ReserveInput) (w : option window)
  : AgentBudgetReservation :=
  {| rs_id := newId; rs_tenantId := ri_tenantId i; rs_ledgerId := ri_ledgerId i;
     rs_idempotencyKey := ri_idempotencyKey i; rs_units := ri_units i;
     rs_aggregateWindowStart := w; rs_actualCostMinorUnits := None;
     rs_status := Reserved; rs_resolvedAt := None; rs_resolvedBy := None;
     rs_resolutionNote := None |}.

(** [save(create({...}))]: the primary key and the unique index
    ("ledgerId", "idempotencyKey"). *)
Definition insert_reservation (r : AgentBudgetReservation) : M DB Failure AgentBudgetReservation :=
  taken ← gets (fun db => reservations db !! rs_id r);
  dup ← gets (fun db => find_row (fun r' =>
    String.eqb (rs_ledgerId r') (rs_ledgerId r) &&
    String.eqb (rs_idempotencyKey r') (rs_idempotencyKey r)) (reservations db));
  _ ← guard_throw (bool_decide (is_Some taken) || bool_decide (is_Some dup)) UniqueViolation;
  r ← lift (reservation_checks r);
  _ ← modify (put_reservation r);
  mret r.

Definition reserve_write (clk : Clock) (newId : string) (i : ReserveInput)
  : M DB Failure Receipt :=
  row ← update_ledger (ri_ledgerId i) (ri_tenantId i) (reserve_where clk i) (reserve_set i);
  match row with
  | None => throwReservationFailure clk i
  | Some l =>
      w ← reserveTenantAggregate clk (ri_tenantId i) (JS.trim (lg_currency l)) (ri_units i);
      r ← insert_reservation (new_reservation newId i w);
      mret (receipt clk r l false)
  end.

(** The transaction of [reserve].  It first looks the key up; the UPDATE that
    follows takes the row lock.  [other] is what other transactions commit
    between the two statements. *)
Definition reserve_tx (clk : Clock) (other : DB -> DB) (newId : string)
    (i : ReserveInput) : M DB Failure Receipt :=
  existing ← gets (fun db => find_row (by_key i) (reservations db));
  match existing with
  | Some r =>
      _ ← lift (assertSameUnits r (ri_units i));
      receiptFor clk r true
  | None =>
      _ ← modify other;
      transaction (reserve_write clk newId i)
  end.

(** The catch branch after a unique violation. *)
Definition reserve_reload (clk : Clock) (i : ReserveInput) : M DB Failure Receipt :=
  existing ← gets (fun db => find_row (by_key i) (reservations db));
  r ← or_throw existing EntityNotFound;
  _ ← lift (assertSameUnits r (ri_units i));
  receiptFor clk r true.

Definition reserve (clk : Clock) (other : DB -> DB) (newId : string)
    (i : ReserveInput) : M DB Failure Receipt :=
  _ ← lift (validateUnits (ri_units i));
  _ ← guard_throw (negb (JS.truthy (ri_idempotencyKey i)) ||
                   (200 <? Z.of_nat (String.length (ri_idempotencyKey i))))
        (AgentBudgetError RESERVATION_CONFLICT
           "Budget reservation requires a bounded idempotency key");
  catch (reserve_tx clk other newId i)
    (fun e => if negb (isUniqueViolation e) then throw e else reserve_reload clk i).

(** [SELECT ... FOR UPDATE] of the reservation, then of its ledger. *)
Definition resolveReservation (tenantId reservationId : string)
    (action : AgentBudgetReservation -> AgentBudgetLedger -> M DB Failure Receipt)
  : M DB Failure Receipt :=
  transaction (
    row ← gets (fun db => reservations db !! reservationId);
    r ← or_throw row (AgentBudgetError RESERVATION_CONFLICT
                        "Budget reservation does not exist");
    _ ← guard_throw (negb (String.eqb (rs_tenantId r) tenantId))
          (AgentBudgetError RESERVATION_CONFLICT "Budget reservation does not exist");
    lrow ← gets (find_ledger (rs_ledgerId r) tenantId);
    l ← or_throw lrow (AgentBudgetError RESERVATION_CONFLICT
                         "The reservation ledger no longer exists");
    action r l).

Record CommitInput := {
  ci_tenantId : string; ci_reservationId : string;
  ci_actualCostMinorUnits : option Z; ci_requireUnknown : bool;
  ci_resolvedBy : option string; ci_resolutionNote : option string }.

Definition commit_where (r : AgentBudgetReservation) (actual : Z) (l : AgentBudgetLedger)
  : result Failure bool :=
  s ← int4 (costUsedMinorUnits l + costReservedMinorUnits l);
  s ← int4 (s - costMinorUnits (rs_units r));
  s ← int4 (s + actual);
  mret (s <=? costLimitMinorUnits l).

Definition commit_set (r : AgentBudgetReservation) (actual : Z) (l : AgentBudgetLedger)
  : result Failure AgentBudgetLedger :=
  let u := rs_units r in
  set_counters l (stepUsed l + stepUnits u) (stepReserved l - stepUnits u)
    (tokenUsed l + tokenUnits u) (tokenReserved l - tokenUnits u)
    (providerCallUsed l + providerCallUnits u) (providerCallReserved l - providerCallUnits u)
    (costUsedMinorUnits l + actual) (costReservedMinorUnits l - costMinorUnits u).

Definition resolved (r : AgentBudgetReservation) (st : AgentBudgetReservationStatus)
    (actual : option Z) (at_ : Z) (by_ note : option string) : AgentBudgetReservation :=
  {| rs_id := rs_id r; rs_tenantId := rs_tenantId r; rs_ledgerId := rs_ledgerId r;
     rs_idempotencyKey := rs_idempotencyKey r; rs_units := rs_units r;
     rs_aggregateWindowStart := rs_aggregateWindowStart r;
     rs_actualCostMinorUnits := actual; rs_status := st;
     rs_resolvedAt := Some at_; rs_resolvedBy := by_; rs_resolutionNote := note |}.

Definition only_unknown : Failure :=
  AgentBudgetError RESERVATION_CONFLICT
    "Only an UNKNOWN reservation can be reconciled manually".

Definition commit_action (clk : Clock) (i : CommitInput)
    (r : AgentBudgetReservation) (l : AgentBudgetLedger) : M DB Failure Receipt :=
  if bool_decide (rs_status r = Committed) then
    if ci_requireUnknown i then throw only_unknown
    else mret (receipt clk r l false)
  else if ci_requireUnknown i && negb (bool_decide (rs_status r = Unknown))
  then throw only_unknown
  else if bool_decide (rs_status r = Released)
  then throw (AgentBudgetError RESERVATION_CONFLICT
                "A released budget reservation cannot be committed")
  else
    let actual := default (costMinorUnits (rs_units r)) (ci_actualCostMinorUnits i) in
    row ← update_ledger (lg_id l) (ci_tenantId i) (commit_where r actual) (commit_set r actual);
    match row with
    | None => throw (AgentBudgetError BUDGET_EXHAUSTED
                       "Actual provider cost exceeds the authoritative budget")
    | Some l' =>
        _ ← commitTenantAggregate r actual;
        let r' := resolved r Committed (Some actual) (b_date clk)
                    (ci_resolvedBy i) (ci_resolutionNote i) in
        r' ← lift (reservation_checks r');
        _ ← modify (put_reservation r');
        mret (receipt clk r' l' false)
    end.

Definition commit (clk : Clock) (i : CommitInput) : M DB Failure Receipt :=
  _ ← lift (match ci_actualCostMinorUnits i with
            | Some a => assertNonnegativeInt a "actual cost"
            | None => Ok tt
            end);
  _ ← lift (if ci_requireUnknown i
            then validateManualResolution (ci_resolvedBy i) (ci_resolutionNote i)
            else Ok tt);
  resolveReservation (ci_tenantId i) (ci_reservationId i) (commit_action clk i).

(** [resolution?: { requireUnknown: true; resolvedBy; resolutionNote }] *)
Definition release_set (r : AgentBudgetReservation) (l : AgentBudgetLedger)
  : result Failure AgentBudgetLedger :=
  let u := rs_units r in
  set_counters l (stepUsed l) (stepReserved l - stepUnits u)
    (tokenUsed l) (tokenReserved l - tokenUnits u)
    (providerCallUsed l) (providerCallReserved l - providerCallUnits u)
    (costUsedMinorUnits l) (costReservedMinorUnits l - costMinorUnits u).

Definition release_action (clk : Clock) (tenantId : string)
    (resolution : option (string * string))
    (r : AgentBudgetReservation) (l : AgentBudgetLedger) : M DB Failure Receipt :=
  let requireUnknown := bool_decide (is_Some resolution) in
  if bool_decide (rs_status r = Released) then
    if requireUnknown then throw only_unknown
    else mret (receipt clk r l false)
  else if requireUnknown && negb (bool_decide (rs_status r = Unknown))
  then throw only_unknown
  else if bool_decide (rs_status r = Committed)
  then throw (AgentBudgetError RESERVATION_CONFLICT
                "A committed budget reservation cannot be released")
  else
    row ← update_ledger (lg_id l) tenantId (fun _ => Ok true) (release_set r);
    match row with
    | None => throw (AgentBudgetError RESERVATION_CONFLICT
                       "The reservation ledger could not release capacity")
    | Some l' =>
        _ ← releaseTenantAggregate r;
        let r' := resolved r Released (rs_actualCostMinorUnits r) (b_date clk)
                    (fst <$> resolution) (snd <$> resolution) in
        r' ← lift (reservation_checks r');
        _ ← modify (put_reservation r');
        mret (receipt clk r' l' false)
    end.

Definition release (clk : Clock) (tenantId reservationId : string)
    (resolution : option (string * string)) : M DB Failure Receipt :=
  _ ← lift (match resolution with
            | Some (who, note) => validateManualResolution (Some who) (Some note)
            | None => Ok tt
            end);
  resolveReservation tenantId reservationId (release_action clk tenantId resolution).

Definition with_status (r : AgentBudgetReservation) (st : AgentBudgetReservationStatus)
  : AgentBudgetReservation :=
  {| rs_id := rs_id r; rs_tenantId := rs_tenantId r; rs_ledgerId := rs_ledgerId r;
     rs_idempotencyKey := rs_idempotencyKey r; rs_units := rs_units r;
     rs_aggregateWindowStart := rs_aggregateWindowStart r;
     rs_actualCostMinorUnits := rs_actualCostMinorUnits r; rs_status := st;
     rs_resolvedAt := rs_resolvedAt r; rs_resolvedBy := rs_resolvedBy r;
     rs_resolutionNote := rs_resolutionNote r |}.

Definition markUnknown_action (clk : Clock)
    (r : AgentBudgetReservation) (l : AgentBudgetLedger) : M DB Failure Receipt :=
  if bool_decide (rs_status r = Reserved) then
    let r' := with_status r Unknown in
    _ ← modify (put_reservation r');
    mret (receipt clk r' l false)
  else if negb (bool_decide (rs_status r = Unknown))
  then throw (AgentBudgetError RESERVATION_CONFLICT
                "Only an unresolved reservation can become outcome-unknown")
  else mret (receipt clk r l false).

Definition markUnknown (clk : Clock) (tenantId reservationId : string) : M DB Failure Receipt :=
  resolveReservation tenantId reservationId (markUnknown_action clk).

(** ** The operator's view of the aggregate *)

Record AgentBudgetAggregateUsageSnapshot := {
  ag_windowStart : window; ag_enabled : bool; ag_currency : option string;
  ag_providerCallLimit : option Z; ag_providerCallUsed : Z; ag_providerCallReserved : Z;
  ag_remainingProviderCalls : option Z;
  ag_costLimitMinorUnits : option Z; ag_costUsedMinorUnits : Z;
  ag_costReservedMinorUnits : Z; ag_remainingCostMinorUnits : option Z }.

Definition observeAggregateUsage (at_ : Z) (tenantId : string)
  : M DB Failure AgentBudgetAggregateUsageSnapshot :=
  let w := JS.utc_month at_ in
  t ← gets (fun db => tenants db !! tenantId);
  t ← or_throw t EntityNotFound;
  u ← gets (fun db => usage db !! (tenantId, w));
  let enabled := bool_decide (is_Some (agentMonthlyProviderCallLimit t)) &&
                 bool_decide (is_Some (agentMonthlyCostLimitMinorUnits t)) &&
                 bool_decide (is_Some (agentBudgetCurrency t)) in
  let pU := default 0 (us_providerCallUsed <$> u) in
  let pR := default 0 (us_providerCallReserved <$> u) in
  let cU := default 0 (us_costUsedMinorUnits <$> u) in
  let cR := default 0 (us_costReservedMinorUnits <$> u) in
  mret {| ag_windowStart := w; ag_enabled := enabled;
          ag_currency := match JS.trim <$> agentBudgetCurrency t with
                         | Some c => Some c
                         | None => JS.trim <$> (us_currency <$> u)
                         end;
          ag_providerCallLimit := agentMonthlyProviderCallLimit t;
          ag_providerCallUsed := pU; ag_providerCallReserved := pR;
          ag_remainingProviderCalls :=
            if enabled
            then Some (Z.max 0 (default 0 (agentMonthlyProviderCallLimit t) - pU - pR))
            else None;
          ag_costLimitMinorUnits := agentMonthlyCostLimitMinorUnits t;
          ag_costUsedMinorUnits := cU; ag_costReservedMinorUnits := cR;
          ag_remainingCostMinorUnits :=
            if enabled
            then Some (Z.max 0 (default 0 (agentMonthlyCostLimitMinorUnits t) - cU - cR))
            else None |}.

(** ** The ledger invariant

    The counters are the sums of the reservation rows: a row that is RESERVED
    or UNKNOWN holds its units, a COMMITTED row has spent them (its actual
    cost, for the cost dimension), a RELEASED row holds nothing. *)

Inductive dim := Steps | Tokens | Calls | Cost.

Definition used (d : dim) (l : AgentBudgetLedger) : Z :=
  match d with
  | Steps => stepUsed l | Tokens => tokenUsed l
  | Calls => providerCallUsed l | Cost => costUsedMinorUnits l
  end.
Definition reserved (d : dim) (l : AgentBudgetLedger) : Z :=
  match d with
  | Steps => stepReserved l | Tokens => tokenReserved l
  | Calls => providerCallReserved l | Cost => costReservedMinorUnits l
  end.
Definition limit (d : dim) (l : AgentBudgetLedger) : Z :=
  match d with
  | Steps => stepLimit l | Tokens => tokenLimit l
  | Calls => providerCallLimit l | Cost => costLimitMinorUnits l
  end.
Definition units_of (d : dim) (u : AgentBudgetUnits) : Z :=
  match d with
  | Steps => stepUnits u | Tokens => tokenUnits u
  | Calls => providerCallUnits u | Cost => costMinorUnits u
  end.

Definition is_open (st : AgentBudgetReservationStatus) : bool :=
  match st with Reserved | Unknown => true | _ => false end.

(** What a reservation row holds, and what it has spent. *)
Definition held (d : dim) (r : AgentBudgetReservation) : Z :=
  if is_open (rs_status r) then units_of d (rs_units r) else 0.
Definition spent (d : dim) (r : AgentBudgetReservation) : Z :=
  match rs_status r with
  | Committed =>
      match d with
      | Cost => default 0 (rs_actualCostMinorUnits r)
      | _ => units_of d (rs_units r)
      end
  | _ => 0
  end.

Definition on_ledger (k : string) (f : AgentBudgetReservation -> Z)
    (_ : string) (r : AgentBudgetReservation) : Z :=
  if String.eqb (rs_ledgerId r) k then f r else 0.

Definition in_window (tw : string * window) (r : AgentBudgetReservation) : bool :=
  String.eqb (rs_tenantId r) tw.1 &&
  bool_decide (rs_aggregateWindowStart r = Some tw.2).

Definition on_window (tw : string * window) (f : AgentBudgetReservation -> Z)
    (_ : string) (r : AgentBudgetReservation) : Z :=
  if in_window tw r then f r else 0.

(** The two dimensions the tenant aggregate has. *)
Definition agg (d : dim) : bool := match d with Calls | Cost => true | _ => false end.

Definition u_used (d : dim) (u : TenantAgentBudgetUsage) : Z :=
  match d with Calls => us_providerCallUsed u | Cost => us_costUsedMinorUnits u | _ => 0 end.
Definition u_reserved (d : dim) (u : TenantAgentBudgetUsage) : Z :=
  match d with
  | Calls => us_providerCallReserved u | Cost => us_costReservedMinorUnits u | _ => 0
  end.
Definition t_limit (d : dim) (t : Tenant) : option Z :=
  match d with
  | Calls => agentMonthlyProviderCallLimit t
  | Cost => agentMonthlyCostLimitMinorUnits t
  | _ => None
  end.

Definition total_units (u : AgentBudgetUnits) : Z :=
  stepUnits u + tokenUnits u + providerCallUnits u + costMinorUnits u.

Record row_ok (db : DB) (r : AgentBudgetReservation) : Prop := {
  row_units : forall d, 0 <= units_of d (rs_units r);
  row_total : 0 < total_units (rs_units r) <= 2147483647;
  row_actual : 0 <= default 0 (rs_actualCostMinorUnits r);
  row_ledger : exists l, ledgers db !! rs_ledgerId r = Some l /\
                 lg_tenantId l = rs_tenantId r;
  row_window : forall w, rs_aggregateWindowStart r = Some w ->
                 is_Some (usage db !! (rs_tenantId r, w)) }.

Record ledger_ok (db : DB) (k : string) (l : AgentBudgetLedger) : Prop := {
  ledger_id : lg_id l = k;
  ledger_checked : ledger_checks l = Ok l;
  ledger_reserved : forall d,
    reserved d l = msum (on_ledger k (held d)) (reservations db);
  ledger_used : forall d, used d l = msum (on_ledger k (spent d)) (reservations db);
  ledger_within : forall d, used d l + reserved d l <= limit d l <= 2147483647 }.

Record usage_ok (db : DB) (tw : string * window) (u : TenantAgentBudgetUsage) : Prop := {
  usage_reserved : forall d, agg d = true ->
    u_reserved d u = msum (on_window tw (held d)) (reservations db);
  usage_used : forall d, agg d = true ->
    u_used d u = msum (on_window tw (spent d)) (reservations db);
  usage_cap : forall d, agg d = true -> u_used d u + u_reserved d u <= 2147483647;
  usage_within : forall d t lim, tenants db !! tw.1 = Some t -> t_limit d t = Some lim ->
    u_used d u + u_reserved d u <= lim }.

Record Inv (db : DB) : Prop := {
  inv_rid : forall k r, reservations db !! k = Some r -> rs_id r = k;
  inv_rows : forall k r, reservations db !! k = Some r -> row_ok db r;
  inv_ledgers : forall k l, ledgers db !! k = Some l -> ledger_ok db k l;
  inv_usage : forall tw u, usage db !! tw = Some u -> usage_ok db tw u;
  inv_keys : forall k1 k2 r1 r2,
    reservations db !! k1 = Some r1 -> reservations db !! k2 = Some r2 ->
    rs_ledgerId r1 = rs_ledgerId r2 -> rs_idempotencyKey r1 = rs_idempotencyKey r2 ->
    k1 = k2;
  inv_runs : forall k1 k2 l1 l2,
    ledgers db !! k1 = Some l1 -> ledgers db !! k2 = Some l2 ->
    lg_tenantId l1 = lg_tenantId l2 -> lg_workflowRunId l1 = lg_workflowRunId l2 -> k1 = k2;
  inv_tenants : forall k t d lim, tenants db !! k = Some t -> t_limit d t = Some lim ->
    0 <= lim }.

(** ** Lemmas on the statements *)

Lemma int4_Ok z y : int4 z = Ok y -> y = z /\ -2147483648 <= z <= 2147483647.
Proof. unfold int4. case_match; [|done]. intros [= <-]. bsplit. lia. Qed.

Lemma fits_true u r n lim :
  fits u r n lim = Ok true -> u + r + n <= lim /\ u + r + n <= 2147483647.
Proof.
  unfold fits. intros H. minv.
  repeat match goal with H : int4 _ = Ok _ |- _ => apply int4_Ok in H as [-> ?] end.
  bsplit. lia.
Qed.

Lemma ledger_checks_Ok l l' :
  ledger_checks l = Ok l' ->
  l' = l /\ (forall d, 0 <= used d l /\ 0 <= reserved d l).
Proof.
  unfold ledger_checks. case_match; [|done]. intros [= <-]. split; [done|].
  bsplit. intros []; simpl; lia.
Qed.

Lemma update_ledger_Ok id t c s db o db' :
  update_ledger id t c s db = (Ok o, db') ->
  match o with
  | None => db' = db
  | Some l' => exists l, ledgers db !! id = Some l /\ lg_tenantId l = t /\
      c l = Ok true /\ s l = Ok l' /\ db' = put_ledger l' db /\
      ledger_checks l' = Ok l'
  end.
Proof.
  unfold update_ledger. intros H. minv.
  destruct (ledgers _ !! id) as [l|]; minv; [|done].
  destruct (String.eqb (lg_tenantId l) t) eqn:Et; simpl in *; minv; [|done].
  destruct (c l) as [[]|] eqn:Ec; minv; [|done].
  match goal with H : ledger_checks _ = Ok _ |- _ =>
    pose proof H; apply ledger_checks_Ok in H as [-> _] end.
  bsplit. naive_solver.
Qed.

(** What the counters of a row become, dimension by dimension. *)
Lemma set_counters_Ok l sU sR tU tR pU pR cU cR l' :
  set_counters l sU sR tU tR pU pR cU cR = Ok l' ->
  lg_id l' = lg_id l /\
  (lg_tenantId l' = lg_tenantId l /\ lg_workflowRunId l' = lg_workflowRunId l) /\
  lg_version l' = lg_version l + 1 /\
  (forall d, limit d l' = limit d l) /\
  (forall d, used d l' = match d with Steps => sU | Tokens => tU | Calls => pU | Cost => cU end) /\
  (forall d, reserved d l' = match d with Steps => sR | Tokens => tR | Calls => pR | Cost => cR end).
Proof.
  unfold set_counters. intros H. minv.
  repeat match goal with H : int4 _ = Ok _ |- _ => apply int4_Ok in H as [-> _] end.
  repeat split; simpl; try done; by intros [].
Qed.

Lemma set_usage_Ok u pU pR cU cR u' :
  set_usage u pU pR cU cR = Ok u' ->
  us_currency u' = us_currency u /\
  (forall d, u_used d u' = match d with Calls => pU | Cost => cU | _ => 0 end) /\
  (forall d, u_reserved d u' = match d with Calls => pR | Cost => cR | _ => 0 end).
Proof.
  unfold set_usage. intros H. minv.
  repeat match goal with H : int4 _ = Ok _ |- _ => apply int4_Ok in H as [-> _] end.
  unfold usage_checks in *. case_match; [|done]. simplify_eq.
  repeat split; by intros [].
Qed.

Lemma reservation_checks_Ok r r' :
  reservation_checks r = Ok r' ->
  r' = r /\ (forall d, 0 <= units_of d (rs_units r)) /\
  0 < total_units (rs_units r) <= 2147483647 /\
  0 <= default 0 (rs_actualCostMinorUnits r).
Proof.
  unfold reservation_checks, total_units. intros H. minv. case_match; [|done]. simplify_eq.
  repeat match goal with H : int4 _ = Ok _ |- _ => apply int4_Ok in H as [-> ?] end.
  bsplit. split_and!; try done; try lia. intros []; simpl; lia.
Qed.

(** ** One reservation is resolved

    Commit, release and outcome-unknown all rewrite one reservation row, its
    ledger row and, for cost-bearing work, its usage row. *)

Record same_claim (r r' : AgentBudgetReservation) : Prop := {
  sc_id : rs_id r' = rs_id r;
  sc_tenant : rs_tenantId r' = rs_tenantId r;
  sc_ledger : rs_ledgerId r' = rs_ledgerId r;
  sc_key : rs_idempotencyKey r' = rs_idempotencyKey r;
  sc_units : rs_units r' = rs_units r;
  sc_window : rs_aggregateWindowStart r' = rs_aggregateWindowStart r;
  sc_actual : 0 <= default 0 (rs_actualCostMinorUnits r') }.

(** The ledger row follows the reservation row. *)
Record ledger_moves (r r' : AgentBudgetReservation) (l l' : AgentBudgetLedger) : Prop := {
  lm_id : lg_id l' = lg_id l;
  lm_tenant : lg_tenantId l' = lg_tenantId l /\ lg_workflowRunId l' = lg_workflowRunId l;
  lm_checked : ledger_checks l' = Ok l';
  lm_limit : forall d, limit d l' = limit d l;
  lm_reserved : forall d, reserved d l' = reserved d l - held d r + held d r';
  lm_used : forall d, used d l' = used d l - spent d r + spent d r';
  lm_within : forall d, used d l' + reserved d l' <= limit d l' }.

(** So does the usage row, when the reservation has a window. *)
Definition usage_moves (db : DB) (r r' : AgentBudgetReservation)
    (us' : gmap (string * window) TenantAgentBudgetUsage) : Prop :=
  match rs_aggregateWindowStart r with
  | None => us' = usage db
  | Some w => exists u u',
      usage db !! (rs_tenantId r, w) = Some u /\
      us' = <[(rs_tenantId r, w) := u']> (usage db) /\
      forall d, agg d = true ->
        u_reserved d u' = u_reserved d u - held d r + held d r' /\
        u_used d u' = u_used d u - spent d r + spent d r' /\
        u_used d u' + u_reserved d u' <= 2147483647 /\
        forall t lim, tenants db !! rs_tenantId r = Some t -> t_limit d t = Some lim ->
          u_used d u' + u_reserved d u' <= lim
  end.

Lemma on_ledger_step k f db id r r' :
  reservations db !! id = Some r -> rs_ledgerId r' = rs_ledgerId r ->
  msum (on_ledger k f) (<[id := r']> (reservations db)) =
  msum (on_ledger k f) (reservations db) +
    (if String.eqb (rs_ledgerId r) k then f r' - f r else 0).
Proof.
  intros Hr Hl. rewrite (msum_update _ _ _ r) by done. unfold on_ledger.
  rewrite Hl. destruct (String.eqb (rs_ledgerId r) k); lia.
Qed.

Lemma on_window_step tw f db id r r' :
  reservations db !! id = Some r -> rs_tenantId r' = rs_tenantId r ->
  rs_aggregateWindowStart r' = rs_aggregateWindowStart r ->
  msum (on_window tw f) (<[id := r']> (reservations db)) =
  msum (on_window tw f) (reservations db) +
    (if in_window tw r then f r' - f r else 0).
Proof.
  intros Hr Ht Hw. rewrite (msum_update _ _ _ r) by done.
  unfold on_window, in_window. rewrite Ht, Hw. case_match; lia.
Qed.

Lemma in_window_true tw r :
  in_window tw r = true -> rs_tenantId r = tw.1 /\ rs_aggregateWindowStart r = Some tw.2.
Proof. unfold in_window. intros H. by bsplit. Qed.

Lemma in_window_self r w :
  rs_aggregateWindowStart r = Some w -> in_window (rs_tenantId r, w) r = true.
Proof.
  intros H. unfold in_window. simpl. rewrite String.eqb_refl. simpl.
  by apply bool_decide_eq_true.
Qed.

Lemma t_limit_agg d t lim : t_limit d t = Some lim -> agg d = true.
Proof. by destruct d. Qed.

(** Replacing a ledger row by one of the same run keeps runs unique. *)
Lemma same_run_unique (m : gmap string AgentBudgetLedger) k l l' :
  (forall k1 k2 l1 l2, m !! k1 = Some l1 -> m !! k2 = Some l2 ->
     lg_tenantId l1 = lg_tenantId l2 -> lg_workflowRunId l1 = lg_workflowRunId l2 -> k1 = k2) ->
  m !! k = Some l -> lg_tenantId l' = lg_tenantId l -> lg_workflowRunId l' = lg_workflowRunId l ->
  forall k1 k2 l1 l2, <[k := l']> m !! k1 = Some l1 -> <[k := l']> m !! k2 = Some l2 ->
    lg_tenantId l1 = lg_tenantId l2 -> lg_workflowRunId l1 = lg_workflowRunId l2 -> k1 = k2.
Proof.
  intros Hm Hk Et Er k1 k2 l1 l2. rewrite !lookup_insert.
  repeat case_decide; intros; simplify_eq; try done; eapply Hm; eauto; congruence.
Qed.

Section Resolve.
Context (db : DB) (id : string) (r r' : AgentBudgetReservation).
Context (l l' : AgentBudgetLedger) (us' : gmap (string * window) TenantAgentBudgetUsage).
Context (HI : Inv db) (Hr : reservations db !! id = Some r).
Context (Hl : ledgers db !! rs_ledgerId r = Some l).
Context (Hsame : same_claim r r') (Hlm : ledger_moves r r' l l').
Context (Hum : usage_moves db r r' us').

Let db' : DB :=
  {| tenants := tenants db; ledgers := <[rs_ledgerId r := l']> (ledgers db);
     reservations := <[id := r']> (reservations db); usage := us' |}.

Lemma resolve_rows k x : reservations db' !! k = Some x -> row_ok db' x.
Proof using HI Hr Hl Hsame Hlm Hum.
  assert (Hrows : forall y, row_ok db y -> row_ok db' y).
  { intros y [Hu Hs Ha (ly & Hly & Hty) Hw]. split; [done|done|done| |].
    - unfold db'; simpl. destruct (decide (rs_ledgerId r = rs_ledgerId y)) as [E|E].
      + rewrite <- E. exists l'. rewrite lookup_insert_eq. split; [done|].
        rewrite (proj1 (lm_tenant _ _ _ _ Hlm)). congruence.
      + exists ly. by rewrite lookup_insert_ne.
    - intros w Hyw. specialize (Hw w Hyw). unfold db'; simpl. revert Hum.
      unfold usage_moves. destruct (rs_aggregateWindowStart r) as [w0|]; [|by intros ->].
      intros (u & u' & _ & -> & _). apply lookup_insert_is_Some'. by right. }
  unfold db'; simpl. rewrite lookup_insert. case_decide as E.
  - intros [= <-]. apply Hrows.
    destruct (inv_rows db HI id r Hr) as [Hu Hs _ Hlr Hw]. destruct Hsame. split.
    + intros d. rewrite sc_units0. apply Hu.
    + by rewrite sc_units0.
    + done.
    + by rewrite sc_ledger0, sc_tenant0.
    + intros w. rewrite sc_window0, sc_tenant0. apply Hw.
  - intros Hx. apply Hrows. by eapply inv_rows.
Qed.

Lemma resolve_ledgers k x : ledgers db' !! k = Some x -> ledger_ok db' k x.
Proof using HI Hr Hl Hsame Hlm.
  unfold db'; simpl. rewrite lookup_insert. case_decide as E.
  - intros [= <-]. subst k. pose proof (inv_ledgers _ HI _ _ Hl) as [Hid Hchk Hres Hused Hw].
    split; unfold db'; simpl.
    + by rewrite (lm_id _ _ _ _ Hlm).
    + apply Hlm.
    + intros d. rewrite (on_ledger_step _ _ _ _ r) by (done || apply Hsame).
      rewrite String.eqb_refl, (lm_reserved _ _ _ _ Hlm), Hres. lia.
    + intros d. rewrite (on_ledger_step _ _ _ _ r) by (done || apply Hsame).
      rewrite String.eqb_refl, (lm_used _ _ _ _ Hlm), Hused. lia.
    + intros d. pose proof (lm_within _ _ _ _ Hlm d). pose proof (lm_limit _ _ _ _ Hlm d).
      specialize (Hw d). lia.
  - intros Hx. pose proof (inv_ledgers _ HI _ _ Hx) as [Hid Hchk Hres Hused Hw].
    apply String.eqb_neq in E.
    split; [done|done| | |done]; intros d; unfold db'; simpl;
      rewrite (on_ledger_step _ _ _ _ r) by (done || apply Hsame);
      rewrite E, ?Hres, ?Hused; lia.
Qed.

Lemma resolve_usage tw x : usage db' !! tw = Some x -> usage_ok db' tw x.
Proof using HI Hr Hsame Hum.
  assert (Hold : in_window tw r = false -> usage db !! tw = Some x -> usage_ok db' tw x).
  { intros Hin Hx. pose proof (inv_usage _ HI _ _ Hx) as [H1 H2 H3 H4].
    split; [| |done|done]; intros d Hd; unfold db'; simpl;
      rewrite (on_window_step _ _ _ _ r) by (done || apply Hsame);
      rewrite Hin, ?H1, ?H2 by done; lia. }
  unfold db' at 1; simpl. revert Hum. unfold usage_moves.
  destruct (rs_aggregateWindowStart r) as [w|] eqn:Ew.
  - intros (u & u' & Hu & -> & Hd). rewrite lookup_insert. case_decide as E.
    + intros [= <-]. subst tw. pose proof (inv_usage _ HI _ _ Hu) as [H1 H2 H3 H4].
      split; unfold db'; simpl.
      3: intros d Hagg; apply (Hd d Hagg).
      1,2: intros d Hagg; rewrite (on_window_step _ _ _ _ r) by (done || apply Hsame);
        rewrite in_window_self by done; destruct (Hd d Hagg) as (-> & -> & _);
        rewrite ?H1, ?H2 by done; lia.
      intros d t lim Ht Hlim.
      destruct (Hd d (t_limit_agg _ _ _ Hlim)) as (_ & _ & _ & Hwithin). eauto.
    + intros Hx. apply Hold; [|done]. destruct (in_window tw r) eqn:Ein; [|done].
      apply in_window_true in Ein as [? ?]. destruct tw; simplify_eq/=.
  - intros ->. intros Hx. apply Hold; [|done].
    destruct (in_window tw r) eqn:Ein; [|done].
    apply in_window_true in Ein as [? ?]. congruence.
Qed.

Lemma resolve_Inv : Inv db'.
Proof using HI Hr Hl Hsame Hlm Hum.
  split.
  - intros k x. unfold db'; simpl. rewrite lookup_insert. case_decide as E.
    + intros [= <-]. subst k. rewrite (sc_id _ _ Hsame). by apply (inv_rid _ HI).
    + by apply (inv_rid _ HI).
  - apply resolve_rows.
  - apply resolve_ledgers.
  - apply resolve_usage.
  - intros k1 k2 r1 r2. unfold db'; simpl. rewrite !lookup_insert.
    destruct Hsame. pose proof (inv_keys _ HI) as Hk.
    repeat case_decide; intros ? ? ? ?; simplify_eq; try done;
      eapply Hk; eauto; congruence.
  - destruct (lm_tenant _ _ _ _ Hlm). by eapply same_run_unique; [apply HI|..].
  - apply (inv_tenants _ HI).
Qed.
End Resolve.

(** ** Commit, release and outcome-unknown keep the invariant *)

Lemma find_ledger_Some id t db l :
  find_ledger id t db = Some l -> ledgers db !! id = Some l /\ lg_tenantId l = t.
Proof. unfold find_ledger. intros H. case_all. by bsplit. Qed.

(** What a resolution action may assume of the rows it is given. *)
Definition found (db : DB) (tenantId id : string) (r : AgentBudgetReservation)
    (l : AgentBudgetLedger) : Prop :=
  reservations db !! id = Some r /\ rs_id r = id /\ rs_tenantId r = tenantId /\
  ledgers db !! rs_ledgerId r = Some l /\ lg_id l = rs_ledgerId r /\
  lg_tenantId l = tenantId.

Lemma resolveReservation_Ok t id act db x db' :
  Inv db -> resolveReservation t id act db = (Ok x, db') ->
  exists r l, found db t id r l /\ act r l db = (Ok x, db').
Proof.
  intros HI H. unfold resolveReservation in H. minv. bsplit.
  match goal with H : find_ledger _ _ _ = Some _ |- _ => apply find_ledger_Some in H as [? ?] end.
  do 2 eexists. split; [|done]. unfold found. split_and!; eauto.
  - by eapply inv_rid.
  - by eapply inv_ledgers.
Qed.

Lemma resolveReservation_preserves t id act :
  (forall db r l x db', Inv db -> found db t id r l -> act r l db = (Ok x, db') -> Inv db') ->
  preserves Inv (resolveReservation t id act).
Proof.
  intros Hact db HI. destruct (resolveReservation t id act db) as [[x|e] db'] eqn:E; simpl.
  - apply resolveReservation_Ok in E as (r & l & Hf & E); [|done]. eauto.
  - apply transaction_Err in E as [-> _]. done.
Qed.

Lemma held_open d r : is_open (rs_status r) = true -> held d r = units_of d (rs_units r).
Proof. unfold held. by intros ->. Qed.

Lemma spent_open d r : is_open (rs_status r) = true -> spent d r = 0.
Proof. unfold spent. by destruct (rs_status r). Qed.

Lemma commitTenantAggregate_Ok r actual db db' :
  commitTenantAggregate r actual db = (Ok tt, db') ->
  match rs_aggregateWindowStart r with
  | None => db' = db
  | Some w => exists u u', usage db !! (rs_tenantId r, w) = Some u /\
      db' = put_usage (rs_tenantId r, w) u' db /\
      commit_usage_where (tenants db !! rs_tenantId r) u r actual = Ok true /\
      set_usage u (us_providerCallUsed u + providerCallUnits (rs_units r))
        (us_providerCallReserved u - providerCallUnits (rs_units r))
        (us_costUsedMinorUnits u + actual)
        (us_costReservedMinorUnits u - costMinorUnits (rs_units r)) = Ok u'
  end.
Proof.
  unfold commitTenantAggregate. intros H.
  destruct (rs_aggregateWindowStart r) as [w|]; minv; [|done].
  destruct (usage _ !! _) as [u|] eqn:Eu; minv.
  destruct (commit_usage_where _ _ _ _) as [[]|] eqn:Ec; minv. naive_solver.
Qed.

Lemma commit_usage_where_true t u r actual :
  commit_usage_where t u r actual = Ok true ->
  actual <= costMinorUnits (rs_units r) \/
  exists tn lim, t = Some tn /\ agentMonthlyCostLimitMinorUnits tn = Some lim /\
    us_costUsedMinorUnits u + us_costReservedMinorUnits u -
      costMinorUnits (rs_units r) + actual <= Z.min lim 2147483647.
Proof.
  unfold commit_usage_where, sql_and. intros H.
  case_match; [|done]. case_match eqn:Ea; [left; bsplit; lia|].
  case_all. minv.
  repeat match goal with H : int4 _ = Ok _ |- _ => apply int4_Ok in H as [-> ?] end.
  bsplit. right. do 2 eexists. split_and!; [done|done|]. lia.
Qed.

(** Committing moves the held units to the used ones, in the usage row. *)
Lemma commit_usage_moves db db1 r r' actual db' :
  Inv db -> usage db1 = usage db -> tenants db1 = tenants db ->
  is_open (rs_status r) = true ->
  rs_status r' = Committed -> rs_units r' = rs_units r ->
  rs_actualCostMinorUnits r' = Some actual ->
  commitTenantAggregate r actual db1 = (Ok tt, db') ->
  usage_moves db r r' (usage db') /\ tenants db' = tenants db /\
  ledgers db' = ledgers db1 /\ reservations db' = reservations db1.
Proof.
  intros HI Eus Ets Ho Hs Hu Ha H. apply commitTenantAggregate_Ok in H. unfold usage_moves.
  destruct (rs_aggregateWindowStart r) as [w|]; [|by subst].
  rewrite Eus, Ets in H.
  destruct H as (u & u' & Hlu & -> & Hwhere & Hset). simpl. rewrite Eus. split; [|done].
  apply set_usage_Ok in Hset as (_ & Hused & Hres).
  exists u, u'. split_and!; [done|done|]. intros d Hd.
  pose proof (usage_within _ _ _ (inv_usage _ HI _ _ Hlu)) as Hin.
  rewrite (held_open d r Ho), (spent_open d r Ho).
  unfold held, spent. rewrite Hs, Hu, Ha; simpl.
  pose proof (usage_cap _ _ _ (inv_usage _ HI _ _ Hlu) d Hd) as Hcap.
  apply commit_usage_where_true in Hwhere.
  rewrite Hused, Hres. destruct d; simplify_eq/=; split_and!; try lia.
  - intros t lim Ht Hl. specialize (Hin Calls t lim Ht Hl). simpl in Hin. lia.
  - destruct Hwhere as [?|(tn & lim' & Et & El & Hle)]; lia.
  - intros t lim Ht Hl. specialize (Hin Cost t lim Ht Hl). simpl in Hin.
    destruct Hwhere as [?|(tn & lim' & Et & El & Hle)]; [lia|].
    simplify_eq. lia.
Qed.

Lemma commit_where_true r a l :
  commit_where r a l = Ok true ->
  costUsedMinorUnits l + costReservedMinorUnits l - costMinorUnits (rs_units r) + a
    <= costLimitMinorUnits l.
Proof.
  unfold commit_where. intros H. minv.
  repeat match goal with H : int4 _ = Ok _ |- _ => apply int4_Ok in H as [-> ?] end.
  bsplit. lia.
Qed.

Lemma commit_ledger_moves r r' a l l' :
  is_open (rs_status r) = true -> rs_status r' = Committed ->
  rs_units r' = rs_units r -> rs_actualCostMinorUnits r' = Some a ->
  (forall d, used d l + reserved d l <= limit d l) ->
  commit_where r a l = Ok true -> commit_set r a l = Ok l' ->
  ledger_checks l' = Ok l' -> ledger_moves r r' l l'.
Proof.
  intros Ho Hs Hu Ha Hin Hw Hset Hchk. apply commit_where_true in Hw.
  unfold commit_set in Hset. apply set_counters_Ok in Hset as (? & ? & _ & ? & Hused & Hres).
  split; try done; intros d; rewrite ?Hused, ?Hres;
    rewrite ?(held_open d r Ho), ?(spent_open d r Ho); unfold held, spent;
    rewrite ?Hs, ?Hu, ?Ha; simpl.
  - destruct d; simpl; lia.
  - destruct d; simpl; lia.
  - rewrite H1. specialize (Hin d). destruct d; simpl in *; lia.
Qed.

Lemma commit_action_Inv clk i db r l x db' :
  Inv db -> found db (ci_tenantId i) (ci_reservationId i) r l ->
  commit_action clk i r l db = (Ok x, db') -> Inv db'.
Proof.
  intros HI (Hr & Hid & Ht & Hl & Hlid & Hlt) H. unfold commit_action in H.
  destruct (bool_decide (rs_status r = Committed)) eqn:E1.
  { destruct (ci_requireUnknown i); by minv. }
  destruct (_ && _) in H; [by minv|].
  destruct (bool_decide (rs_status r = Released)) eqn:E2; [by minv|].
  bsplit. assert (Ho : is_open (rs_status r) = true) by (by destruct (rs_status r)).
  set (a := default (costMinorUnits (rs_units r)) (ci_actualCostMinorUnits i)) in *.
  set (r0 := resolved r Committed (Some a) (b_date clk) (ci_resolvedBy i) (ci_resolutionNote i)) in *.
  minv. destruct x0 as [l'|]; minv.
  match goal with H : update_ledger _ _ _ _ _ = _ |- _ =>
    apply update_ledger_Ok in H as (l0 & Hl0 & _ & Hw & Hset & -> & Hchk) end.
  rewrite Hlid, Hl in Hl0. injection Hl0 as <-.
  match goal with H : reservation_checks _ = Ok _ |- _ =>
    apply reservation_checks_Ok in H as (-> & _ & _ & Ha) end.
  match goal with H : commitTenantAggregate _ _ ?d = (Ok ?u, ?d') |- _ =>
    destruct u; rename d' into db2; rename H into Hagg end.
  assert (Hlm : ledger_moves r r0 l l').
  { eapply (commit_ledger_moves r r0 a); eauto. intros d.
    apply (ledger_within _ _ _ (inv_ledgers _ HI _ _ Hl)). }
  apply (commit_usage_moves db _ r r0) in Hagg as (Hum & Et & El & Er); try done.
  unfold put_reservation. rewrite Et, El, Er. simpl.
  rewrite (lm_id _ _ _ _ Hlm), Hlid, Hid. by apply (resolve_Inv db _ r r0 l l').
Qed.

Lemma release_usage_moves db db1 r r' db' :
  Inv db -> usage db1 = usage db -> tenants db1 = tenants db ->
  reservations db !! rs_id r = Some r -> is_open (rs_status r) = true ->
  rs_status r' = Released ->
  releaseTenantAggregate r db1 = (Ok tt, db') ->
  usage_moves db r r' (usage db') /\ tenants db' = tenants db /\
  ledgers db' = ledgers db1 /\ reservations db' = reservations db1.
Proof.
  intros HI Eus Ets Hr Ho Hs H. unfold releaseTenantAggregate in H. unfold usage_moves.
  destruct (rs_aggregateWindowStart r) as [w|]; minv; [|done].
  destruct (usage _ !! _) as [u|] eqn:Eu; minv.
  destruct (_ && _) in H; minv. rewrite Eus in Eu. simpl. rewrite Eus. split; [|done].
  match goal with H : set_usage _ _ _ _ _ = Ok ?u' |- _ =>
    apply set_usage_Ok in H as (_ & Hused & Hres); exists u, u' end.
  split_and!; [done|done|]. intros d Hd.
  pose proof (row_units _ _ (inv_rows _ HI _ _ Hr) d) as Hpos.
  pose proof (usage_within _ _ _ (inv_usage _ HI _ _ Eu)) as Hin.
  rewrite (held_open d r Ho), (spent_open d r Ho). unfold held, spent. rewrite Hs; simpl.
  pose proof (usage_cap _ _ _ (inv_usage _ HI _ _ Eu) d Hd) as Hcap.
  rewrite Hused, Hres. destruct d; simplify_eq/=; split_and!; try lia;
    intros t lim Ht Hl; [specialize (Hin Calls t lim Ht Hl)|specialize (Hin Cost t lim Ht Hl)];
    simpl in Hin; lia.
Qed.

Lemma release_ledger_moves r r' l l' :
  is_open (rs_status r) = true -> rs_status r' = Released ->
  (forall d, 0 <= units_of d (rs_units r)) ->
  (forall d, used d l + reserved d l <= limit d l) ->
  release_set r l = Ok l' -> ledger_checks l' = Ok l' -> ledger_moves r r' l l'.
Proof.
  intros Ho Hs Hpos Hin Hset Hchk. unfold release_set in Hset.
  apply set_counters_Ok in Hset as (? & ? & _ & Hlim & Hused & Hres).
  split; try done; intros d; rewrite ?Hused, ?Hres;
    rewrite ?(held_open d r Ho), ?(spent_open d r Ho); unfold held, spent; rewrite ?Hs;
    specialize (Hpos d); specialize (Hin d); rewrite ?Hlim; destruct d; simpl in *; lia.
Qed.

Lemma release_action_Inv clk t res id db r l x db' :
  Inv db -> found db t id r l ->
  release_action clk t res r l db = (Ok x, db') -> Inv db'.
Proof.
  intros HI (Hr & Hid & Ht & Hl & Hlid & Hlt) H. unfold release_action in H.
  destruct (bool_decide (rs_status r = Released)) eqn:E1.
  { destruct (bool_decide (is_Some res)); by minv. }
  destruct (_ && _) in H; [by minv|].
  destruct (bool_decide (rs_status r = Committed)) eqn:E2; [by minv|].
  bsplit. assert (Ho : is_open (rs_status r) = true) by (by destruct (rs_status r)).
  set (r0 := resolved _ _ _ _ _ _) in *.
  minv. destruct x0 as [l'|]; minv.
  match goal with H : update_ledger _ _ _ _ _ = _ |- _ =>
    apply update_ledger_Ok in H as (l0 & Hl0 & _ & _ & Hset & -> & Hchk) end.
  rewrite Hlid, Hl in Hl0. injection Hl0 as <-.
  match goal with H : reservation_checks _ = Ok _ |- _ =>
    apply reservation_checks_Ok in H as (-> & _ & _ & Ha) end.
  match goal with H : releaseTenantAggregate _ _ = (Ok ?u, _) |- _ =>
    destruct u; rename H into Hagg end.
  assert (Hlm : ledger_moves r r0 l l').
  { apply release_ledger_moves; try done; intros d.
    - by apply (row_units _ _ (inv_rows _ HI _ _ Hr)).
    - apply (ledger_within _ _ _ (inv_ledgers _ HI _ _ Hl)). }
  apply (release_usage_moves db _ r r0) in Hagg as (Hum & Et & El & Er); try done.
  unfold put_reservation. rewrite Et, El, Er. simpl.
  rewrite (lm_id _ _ _ _ Hlm), Hlid. by apply (resolve_Inv db _ r r0 l l').
Qed.

Lemma markUnknown_action_Inv clk t id db r l x db' :
  Inv db -> found db t id r l -> markUnknown_action clk r l db = (Ok x, db') -> Inv db'.
Proof.
  intros HI (Hr & Hid & Ht & Hl & Hlid & Hlt) H. unfold markUnknown_action in H.
  destruct (bool_decide (rs_status r = Reserved)) eqn:E1; [|case_match; by minv].
  bsplit. set (r0 := with_status r Unknown) in *. minv.
  assert (Hh : forall d, held d r0 = held d r) by (intros d; unfold held; by rewrite E1).
  assert (Hs : forall d, spent d r0 = spent d r) by (intros d; unfold spent; by rewrite E1).
  pose proof (resolve_Inv db _ r r0 l l (usage db) HI Hr Hl) as Hres.
  unfold put_reservation. simpl.
  rewrite (insert_id (ledgers db)) in Hres by done. apply Hres.
  - split; try done. apply (row_actual _ _ (inv_rows _ HI _ _ Hr)).
  - pose proof (inv_ledgers _ HI _ _ Hl) as [_ ? _ _ ?].
    split; try done; intros d; rewrite ?Hh, ?Hs; try lia. naive_solver.
  - unfold usage_moves. destruct (rs_aggregateWindowStart r) as [w|] eqn:Ew; [|done].
    destruct (row_window _ _ (inv_rows _ HI _ _ Hr) w Ew) as [u Hu].
    exists u, u. rewrite insert_id by done. split_and!; [done|done|].
    intros d Hd. rewrite Hh, Hs. pose proof (inv_usage _ HI _ _ Hu) as [_ _ ? Hw].
    split_and!; [lia|lia|by eauto|]. intros t0 lim. apply Hw.
Qed.

Lemma commit_preserves clk i : preserves Inv (commit clk i).
Proof.
  unfold commit. repeat (apply preserves_bind; [auto with monad|intros []]).
  apply resolveReservation_preserves. intros. by eapply commit_action_Inv.
Qed.

Lemma release_preserves clk t id res : preserves Inv (release clk t id res).
Proof.
  unfold release. apply preserves_bind; [auto with monad|intros []].
  apply resolveReservation_preserves. intros. by eapply release_action_Inv.
Qed.

Lemma markUnknown_preserves clk t id : preserves Inv (markUnknown clk t id).
Proof. apply resolveReservation_preserves. intros. by eapply markUnknown_action_Inv. Qed.

(** ** A new ledger, a new reservation *)

Lemma no_rows_on_ledger db k f :
  Inv db -> ledgers db !! k = None -> msum (on_ledger k f) (reservations db) = 0.
Proof.
  intros HI Hk. apply msum_zero. intros id r Hr. unfold on_ledger.
  destruct (String.eqb (rs_ledgerId r) k) eqn:E; [|done]. bsplit.
  destruct (row_ledger _ _ (inv_rows _ HI _ _ Hr)) as (l & Hl & _). congruence.
Qed.

Lemma no_rows_in_window db tw f :
  Inv db -> usage db !! tw = None -> msum (on_window tw f) (reservations db) = 0.
Proof.
  intros HI Hk. apply msum_zero. intros id r Hr. unfold on_window.
  destruct (in_window tw r) eqn:E; [|done]. apply in_window_true in E as [Et Ew].
  destruct (row_window _ _ (inv_rows _ HI _ _ Hr) _ Ew) as [u Hu].
  rewrite Et in Hu. destruct tw; simplify_eq/=.
Qed.

Lemma new_ledger_Inv db l :
  Inv db -> ledgers db !! lg_id l = None ->
  ledger_checks l = Ok l ->
  (forall k x, ledgers db !! k = Some x ->
     by_workflow (lg_tenantId l) (lg_workflowRunId l) x = false) ->
  (forall d, used d l = 0 /\ reserved d l = 0 /\ 0 <= limit d l <= 2147483647) ->
  Inv (put_ledger l db).
Proof.
  intros HI Hk Hchk Hrun Hl. split; try apply HI.
  - intros k r Hr. destruct (inv_rows _ HI k r Hr) as [? ? ? (lr & Hlr & ?) ?].
    split; try done. exists lr. simpl. rewrite lookup_insert_ne; [done|]. congruence.
  - intros k x. simpl. rewrite lookup_insert. case_decide as E.
    + intros [= <-]. subst k. split; simpl; [done|done| | |]; intros d;
        destruct (Hl d) as (Hu & Hr & ?); rewrite ?Hu, ?Hr, ?no_rows_on_ledger by done; lia.
    + intros Hx. by destruct (inv_ledgers _ HI _ _ Hx).
  - intros tw u Hu. by destruct (inv_usage _ HI _ _ Hu).
  - assert (Hne : forall k x, ledgers db !! k = Some x -> lg_tenantId x = lg_tenantId l ->
      lg_workflowRunId x = lg_workflowRunId l -> False).
    { intros k x Hx Et Er. specialize (Hrun k x Hx). unfold by_workflow in Hrun.
      by rewrite Et, Er, !String.eqb_refl in Hrun. }
    intros k1 k2 l1 l2. simpl. rewrite !lookup_insert.
    repeat case_decide; intros; simplify_eq; try done;
      [by exfalso; eapply Hne; eauto..|by eapply (inv_runs _ HI)].
Qed.

Section NewClaim.
Context (db : DB) (r : AgentBudgetReservation) (l l' : AgentBudgetLedger).
Context (us' : gmap (string * window) TenantAgentBudgetUsage).
Context (HI : Inv db) (Hfresh : reservations db !! rs_id r = None).
Context (Hkey : forall k x, reservations db !! k = Some x ->
           rs_ledgerId x = rs_ledgerId r -> rs_idempotencyKey x = rs_idempotencyKey r -> False).
Context (Hst : rs_status r = Reserved) (Hact : rs_actualCostMinorUnits r = None) (Hpos : forall d, 0 <= units_of d (rs_units r)).
Context (Htot : 0 < total_units (rs_units r) <= 2147483647) (Hchk : ledger_checks l' = Ok l').
Context (Hl : ledgers db !! rs_ledgerId r = Some l) (Hlt : lg_tenantId l = rs_tenantId r).
Context (Hid' : lg_id l' = lg_id l) (Ht' : lg_tenantId l' = lg_tenantId l).
Context (Hrun' : lg_workflowRunId l' = lg_workflowRunId l).
Context (Hlim : forall d, limit d l' = limit d l) (Hused : forall d, used d l' = used d l).
Context (Hres : forall d, reserved d l' = reserved d l + units_of d (rs_units r)).
Context (Hin : forall d, used d l' + reserved d l' <= limit d l').
Context (Hus : match rs_aggregateWindowStart r with
  | None => us' = usage db
  | Some w => exists u', us' = <[(rs_tenantId r, w) := u']> (usage db) /\
      forall d, agg d = true ->
        u_reserved d u' = default 0 (u_reserved d <$> usage db !! (rs_tenantId r, w))
                          + units_of d (rs_units r) /\
        u_used d u' = default 0 (u_used d <$> usage db !! (rs_tenantId r, w)) /\
        u_used d u' + u_reserved d u' <= 2147483647 /\
        forall t lim, tenants db !! rs_tenantId r = Some t -> t_limit d t = Some lim ->
          u_used d u' + u_reserved d u' <= lim
  end).

Let db' : DB :=
  {| tenants := tenants db; ledgers := <[rs_ledgerId r := l']> (ledgers db);
     reservations := <[rs_id r := r]> (reservations db); usage := us' |}.

Lemma claim_rows k x : reservations db' !! k = Some x -> row_ok db' x.
Proof using All.
  assert (Hup : forall tw, is_Some (usage db !! tw) -> is_Some (us' !! tw)).
  { intros tw Hs. revert Hus. destruct (rs_aggregateWindowStart r) as [w|]; [|by intros ->].
    intros (u' & -> & _). apply lookup_insert_is_Some'. by right. }
  unfold db'; simpl. rewrite lookup_insert. case_decide as E.
  - intros [= <-]. split; simpl; [done|done|by rewrite Hact| |].
    + exists l'. rewrite lookup_insert_eq. split; [done|]. congruence.
    + intros w Hw. revert Hus. rewrite Hw. intros (u' & -> & _).
      rewrite lookup_insert_eq. by eexists.
  - intros Hx. destruct (inv_rows _ HI _ _ Hx) as [? ? ? (ly & Hly & Hty) Hw].
    split; simpl; try done; [|by eauto].
    destruct (decide (rs_ledgerId r = rs_ledgerId x)) as [El|El].
    + rewrite <- El. exists l'. rewrite lookup_insert_eq. split; [done|]. congruence.
    + exists ly. by rewrite lookup_insert_ne.
Qed.

Lemma claim_ledgers k x : ledgers db' !! k = Some x -> ledger_ok db' k x.
Proof using All.
  assert (Hs : forall f k, msum (on_ledger k f) (reservations db') =
    (if String.eqb (rs_ledgerId r) k then f r else 0) + msum (on_ledger k f) (reservations db)).
  { intros f k0. unfold db'; simpl. by rewrite msum_insert_new. }
  unfold db' at 1; simpl. rewrite lookup_insert. case_decide as E.
  - intros [= <-]. subst k. destruct (inv_ledgers _ HI _ _ Hl) as [Hid Hck Hr Hu Hw].
    split; [congruence|done| | |].
    + intros d. rewrite Hs, String.eqb_refl, Hres, Hr. unfold held. rewrite Hst; simpl. lia.
    + intros d. rewrite Hs, String.eqb_refl, Hused, Hu. unfold spent. rewrite Hst; simpl. lia.
    + intros d. specialize (Hin d). specialize (Hw d). rewrite Hlim in *. lia.
  - intros Hx. apply String.eqb_neq in E. destruct (inv_ledgers _ HI _ _ Hx) as [Hid Hck Hr Hu Hw].
    split; try done; intros d; rewrite Hs, E, ?Hr, ?Hu; lia.
Qed.

Lemma claim_usage tw x : usage db' !! tw = Some x -> usage_ok db' tw x.
Proof using All.
  assert (Hs : forall f tw, msum (on_window tw f) (reservations db') =
    (if in_window tw r then f r else 0) + msum (on_window tw f) (reservations db)).
  { intros f k0. unfold db'; simpl. by rewrite msum_insert_new. }
  assert (Hold : in_window tw r = false -> usage db !! tw = Some x -> usage_ok db' tw x).
  { intros Hw Hx. destruct (inv_usage _ HI _ _ Hx) as [H1 H2 H3 H4].
    split; [| |done|done]; intros d Hd; rewrite Hs, Hw, ?H1, ?H2 by done; lia. }
  unfold db' at 1; simpl. revert Hus.
  destruct (rs_aggregateWindowStart r) as [w|] eqn:Ew.
  - intros (u' & -> & Hd). rewrite lookup_insert. case_decide as E.
    + intros [= <-]. subst tw.
      assert (Hbase : forall d, agg d = true ->
        default 0 (u_reserved d <$> usage db !! (rs_tenantId r, w)) =
          msum (on_window (rs_tenantId r, w) (held d)) (reservations db) /\
        default 0 (u_used d <$> usage db !! (rs_tenantId r, w)) =
          msum (on_window (rs_tenantId r, w) (spent d)) (reservations db)).
      { intros d Hagg. destruct (usage db !! (rs_tenantId r, w)) as [u|] eqn:Eu; simpl.
        - destruct (inv_usage _ HI _ _ Eu) as [H1 H2 _ _]. by rewrite H1, H2.
        - by rewrite !no_rows_in_window. }
      split.
      * intros d Hagg. rewrite Hs, in_window_self by done. unfold held at 1. rewrite Hst; simpl.
        destruct (Hd d Hagg) as (-> & _ & _). destruct (Hbase d Hagg) as [-> _]. lia.
      * intros d Hagg. rewrite Hs, in_window_self by done. unfold spent at 1. rewrite Hst; simpl.
        destruct (Hd d Hagg) as (_ & -> & _). destruct (Hbase d Hagg) as [_ ->]. lia.
      * intros d Hagg. apply (Hd d Hagg).
      * intros d t lim Ht Hlim'.
        destruct (Hd d (t_limit_agg _ _ _ Hlim')) as (_ & _ & _ & H3). eauto.
    + intros Hx. apply Hold; [|done]. destruct (in_window tw r) eqn:Ein; [|done].
      apply in_window_true in Ein as [? ?]. destruct tw; simplify_eq/=.
  - intros -> Hx. apply Hold; [|done].
    destruct (in_window tw r) eqn:Ein; [|done].
    apply in_window_true in Ein as [? ?]. congruence.
Qed.

Lemma claim_Inv : Inv db'.
Proof using All.
  split.
  - intros k x. unfold db'; simpl. rewrite lookup_insert. case_decide as E.
    + intros [= <-]. by subst k.
    + by apply (inv_rid _ HI).
  - apply claim_rows.
  - apply claim_ledgers.
  - apply claim_usage.
  - intros k1 k2 r1 r2. unfold db'; simpl. rewrite !lookup_insert.
    repeat case_decide; intros ? ? ? ?; simplify_eq; try done.
    + exfalso. by eapply Hkey.
    + exfalso. by eapply Hkey.
    + by eapply (inv_keys _ HI).
  - by eapply same_run_unique; [apply HI|..].
  - apply (inv_tenants _ HI).
Qed.
End NewClaim.

Lemma assertNonnegativeInt_Ok z n x :
  assertNonnegativeInt z n = Ok x -> 0 <= z <= 2147483647.
Proof. unfold assertNonnegativeInt. case_match; [done|]. intros _. bsplit. lia. Qed.

Lemma validateLedgerInput_Ok i x id :
  validateLedgerInput i = Ok x -> forall d, 0 <= limit d (new_ledger id i) <= 2147483647.
Proof.
  unfold validateLedgerInput. intros H. minv.
  repeat match goal with H : assertNonnegativeInt _ _ = _ |- _ =>
    apply assertNonnegativeInt_Ok in H end.
  by intros [].
Qed.

Lemma validateUnits_Ok u x :
  validateUnits u = Ok x -> forall d, 0 <= units_of d u <= 2147483647.
Proof.
  unfold validateUnits. intros H. minv.
  repeat match goal with H : assertNonnegativeInt _ _ = _ |- _ =>
    apply assertNonnegativeInt_Ok in H end.
  by intros [].
Qed.

(** What [insert_or_find_ledger] does: it returns the row the run already has
    or inserts a fresh one. *)
Lemma insert_or_find_ledger_Ok newId i db l db' :
  insert_or_find_ledger newId i db = (Ok l, db') ->
  by_workflow (in_tenantId i) (in_workflowRunId i) l = true /\
  ((db' = db /\ exists k, ledgers db !! k = Some l) \/
   (l = new_ledger newId i /\ ledgers db !! newId = None /\ ledger_checks l = Ok l /\
    (forall k x, ledgers db !! k = Some x ->
       by_workflow (in_tenantId i) (in_workflowRunId i) x = false) /\
    db' = put_ledger l db)).
Proof.
  unfold insert_or_find_ledger. intros H. minv.
  destruct (find_row _ _) as [l0|] eqn:Ef; minv.
  - apply find_row_Some in Ef. naive_solver.
  - match goal with H : ledger_checks _ = Ok _ |- _ =>
      pose proof H; apply ledger_checks_Ok in H as [-> _] end.
    bsplit. split.
    + unfold by_workflow. simpl. by rewrite !String.eqb_refl.
    + right. split_and!; try done; [by apply eq_None_not_Some|].
      intros. by eapply find_row_None.
Qed.

Lemma createOrLoad_preserves clk newId i : preserves Inv (createOrLoad clk newId i).
Proof.
  intros db HI. unfold createOrLoad.
  destruct (validateLedgerInput i) as [x|e] eqn:Ev; [|done].
  unfold mbind at 1, M_bind at 1, lift at 1.
  apply (preserves_bind Inv (transaction (insert_or_find_ledger newId i))); [| |done].
  - apply preserves_transaction. intros s l s' Hs H.
    apply insert_or_find_ledger_Ok in H as [_ [[-> _]|(-> & Hf & Hchk & Hrun & ->)]]; [done|].
    apply new_ledger_Inv; [done|done|done|done|]. intros d.
    pose proof (validateLedgerInput_Ok i x newId Ev d). by destruct d.
  - intros l. auto with monad.
Qed.

(** The aggregate row an insert leaves behind holds nothing yet. *)
Lemma insert_usage_row_Inv clk t c db : Inv db -> Inv (insert_usage_row clk t c db).2.
Proof.
  intros HI. unfold insert_usage_row, modify. simpl. case_all; try done.
  split; try apply HI.
  - intros k r Hr. destruct (inv_rows _ HI _ _ Hr) as [? ? ? ? Hw]. split; try done.
    intros w Hrw. simpl. apply lookup_insert_is_Some'. right. eauto.
  - intros k l Hl. by destruct (inv_ledgers _ HI _ _ Hl).
  - intros tw u. simpl. rewrite lookup_insert. case_decide as E.
    + intros [= <-]. subst tw. split.
      * intros d Hd. simpl. rewrite no_rows_in_window by done. by destruct d.
      * intros d Hd. simpl. rewrite no_rows_in_window by done. by destruct d.
      * by intros [].
      * simpl. intros d t' lim Ht Hl. pose proof (inv_tenants _ HI _ _ _ _ Ht Hl).
        destruct d; simpl; lia.
    + intros Hu. by destruct (inv_usage _ HI _ _ Hu).
Qed.

Lemma reserve_usage_where_true t u c units :
  reserve_usage_where t u c units = Ok true ->
  forall d, agg d = true -> exists lim, t_limit d t = Some lim /\
    u_used d u + u_reserved d u + units_of d units <= Z.min lim 2147483647.
Proof.
  unfold reserve_usage_where, sql_and. intros H. case_all. minv.
  destruct (fits (us_providerCallUsed u) _ _ _) as [[]|] eqn:E1; simplify_eq.
  simpl in *. apply fits_true in E1, H.
  intros [] Hd; simplify_eq/=; eexists; (split; [done|lia]).
Qed.

Lemma insert_usage_row_spec clk t c db db1 u :
  insert_usage_row clk t c db = (Ok tt, db1) ->
  usage db1 !! (t, current_window clk) = Some u ->
  ledgers db1 = ledgers db /\ reservations db1 = reservations db /\ tenants db1 = tenants db /\
  (forall u', <[(t, current_window clk) := u']> (usage db1) =
              <[(t, current_window clk) := u']> (usage db)) /\
  (forall d, u_used d u = default 0 (u_used d <$> usage db !! (t, current_window clk)) /\
             u_reserved d u = default 0 (u_reserved d <$> usage db !! (t, current_window clk))).
Proof.
  unfold insert_usage_row, modify. intros [= <-].
  destruct (usage db !! (t, current_window clk)) as [u0|] eqn:Eu.
  - case_match; simpl; rewrite Eu; intros [= <-]; by split_and!.
  - case_all; rewrite ?Eu; try done. rewrite lookup_insert_eq. intros [= <-].
    split_and!; try done.
    + intros u'. by rewrite insert_insert_eq.
    + by intros [].
Qed.

(** What a granted aggregate claim does to the usage table. *)
Lemma reserveTenantAggregate_Ok clk t c units db w db' :
  reserveTenantAggregate clk t c units db = (Ok w, db') ->
  ledgers db' = ledgers db /\ reservations db' = reservations db /\ tenants db' = tenants db /\
  match w with
  | None => usage db' = usage db
  | Some w => exists u', usage db' = <[(t, w) := u']> (usage db) /\
      forall d, agg d = true ->
        u_reserved d u' = default 0 (u_reserved d <$> usage db !! (t, w)) + units_of d units /\
        u_used d u' = default 0 (u_used d <$> usage db !! (t, w)) /\
        u_used d u' + u_reserved d u' <= 2147483647 /\
        forall tn lim, tenants db !! t = Some tn -> t_limit d tn = Some lim ->
          u_used d u' + u_reserved d u' <= lim
  end.
Proof.
  unfold reserveTenantAggregate. intros H. case_match eqn:E0; [by minv|].
  apply bind_Ok in H as ([] & db1 & H1 & H).
  minv. destruct (tenants _ !! t) as [tn|] eqn:Et; minv.
  destruct (usage _ !! _) as [u|] eqn:Eu; minv.
  destruct (reserve_usage_where _ _ _ _) as [[]|] eqn:Ew; minv.
  apply (insert_usage_row_spec _ _ _ _ _ _ H1) in Eu as (El & Er & Etn & Hins & Hbase).
  rewrite Etn in Et. pose proof (reserve_usage_where_true _ _ _ _ Ew) as Hfit.
  match goal with H : set_usage _ _ _ _ _ = Ok _ |- _ =>
    apply set_usage_Ok in H as (_ & Hused & Hres) end.
  simpl. split_and!; try done. eexists. split; [apply Hins|]. intros d Hd.
  destruct (Hbase d) as [<- <-]. destruct (Hfit d Hd) as (lim & Hlim & Hle).
  rewrite Hused, Hres. split_and!.
  - by destruct d.
  - by destruct d.
  - destruct d; simpl in *; lia.
  - intros tn' lim' Ht' Hl'. simplify_eq. destruct d; simpl in *; lia.
Qed.

Lemma reserve_where_true clk i l :
  reserve_where clk i l = Ok true ->
  lg_version l = ri_expectedVersion i /\ lg_closedAt l = None /\
  b_now clk < lg_deadlineAt l /\
  forall d, used d l + reserved d l + units_of d (ri_units i) <= limit d l.
Proof.
  unfold reserve_where, sql_and. intros H. case_match; [|done]. minv. bsplit.
  repeat (match goal with H : (if ?x then _ else _) = Ok true |- _ => destruct x; [|done] end; minv).
  repeat match goal with H : fits _ _ _ _ = Ok true |- _ => apply fits_true in H end.
  split_and!; try done. intros []; simpl; lia.
Qed.

Lemma insert_reservation_Ok r db r' db' :
  insert_reservation r db = (Ok r', db') ->
  r' = r /\ db' = put_reservation r db /\ reservations db !! rs_id r = None /\
  (forall d, 0 <= units_of d (rs_units r)) /\
  0 < total_units (rs_units r) <= 2147483647 /\
  (forall k x, reservations db !! k = Some x -> rs_ledgerId x = rs_ledgerId r ->
     rs_idempotencyKey x = rs_idempotencyKey r -> False).
Proof.
  unfold insert_reservation. intros H. minv. bsplit.
  match goal with H : reservation_checks _ = Ok _ |- _ =>
    apply reservation_checks_Ok in H as (-> & Hu & Htot & _) end.
  split_and!; try done; try apply Htot.
  - by apply eq_None_not_Some.
  - intros k x Hx El Ek.
    match goal with H : ~ is_Some (find_row ?p _) |- _ =>
      apply eq_None_not_Some in H; pose proof (find_row_None p _ _ _ H Hx) as Hp end.
    simpl in Hp. rewrite El, Ek, !String.eqb_refl in Hp. done.
Qed.

(** A granted reservation: the row it claims against fitted the claim, and
    nothing but that ledger row, one usage row and one reservation row moved. *)
Lemma reserve_write_Ok clk newId i db x db' :
  reserve_write clk newId i db = (Ok x, db') ->
  exists l l' w, ledgers db !! ri_ledgerId i = Some l /\ lg_tenantId l = ri_tenantId i /\
    reserve_where clk i l = Ok true /\ reserve_set i l = Ok l' /\
    x = receipt clk (new_reservation newId i w) l' false /\
    reservations db !! newId = None /\
    (forall d, 0 <= units_of d (ri_units i)) /\
    0 < total_units (ri_units i) <= 2147483647 /\ ledger_checks l' = Ok l' /\
    (forall k r, reservations db !! k = Some r -> rs_ledgerId r = ri_ledgerId i ->
       rs_idempotencyKey r = ri_idempotencyKey i -> False) /\
    ledgers db' = <[lg_id l' := l']> (ledgers db) /\
    reservations db' = <[newId := new_reservation newId i w]> (reservations db) /\
    tenants db' = tenants db /\
    match w with
    | None => usage db' = usage db
    | Some w => exists u', usage db' = <[(ri_tenantId i, w) := u']> (usage db) /\
        forall d, agg d = true ->
          u_reserved d u' = default 0 (u_reserved d <$> usage db !! (ri_tenantId i, w))
                            + units_of d (ri_units i) /\
          u_used d u' = default 0 (u_used d <$> usage db !! (ri_tenantId i, w)) /\
          u_used d u' + u_reserved d u' <= 2147483647 /\
          forall tn lim, tenants db !! ri_tenantId i = Some tn -> t_limit d tn = Some lim ->
            u_used d u' + u_reserved d u' <= lim
    end.
Proof.
  unfold reserve_write. intros H. apply bind_Ok in H as (o & db1 & Hup & H).
  apply update_ledger_Ok in Hup. destruct o as [l'|].
  2: { subst. unfold throwReservationFailure in H. minv. case_all. }
  destruct Hup as (l & Hl & Hlt & Hw & Hset & -> & Hchk).
  apply bind_Ok in H as (w & db2 & Hagg & H).
  apply bind_Ok in H as (r & db3 & Hins & H). minv.
  apply reserveTenantAggregate_Ok in Hagg as (El & Er & Et & Hus). simpl in *.
  apply insert_reservation_Ok in Hins as (-> & -> & Hfresh & Hpos & Htot & Hkey). simpl in *.
  rewrite Er in Hfresh, Hkey. exists l, l', w. simpl. rewrite El, Er, Et.
  split_and!; try done; apply Htot.
Qed.

Lemma reserve_write_Inv clk newId i db x db' :
  Inv db -> reserve_write clk newId i db = (Ok x, db') -> Inv db'.
Proof.
  intros HI H. apply reserve_write_Ok in H
    as (l & l' & w & Hl & Hlt & Hw & Hset & -> & Hfresh & Hpos & Htot & Hchk & Hkey & El & Er & Et & Hus).
  apply reserve_where_true in Hw as (_ & _ & _ & Hfit).
  unfold reserve_set in Hset. apply set_counters_Ok in Hset as (Hid & [Ht Hrun] & _ & Hlim & Hused & Hres).
  pose proof (ledger_id _ _ _ (inv_ledgers _ HI _ _ Hl)) as Hlid.
  destruct db' as [tn' lg' rs' us']. simpl in *. subst.
  rewrite Hid, Hlid.
  apply (claim_Inv db (new_reservation newId i w) l l'); simpl; try done; try congruence.
  - intros d. rewrite Hres. by destruct d.
  - intros d. specialize (Hfit d). rewrite Hused, Hres, Hlim. destruct d; simpl in *; lia.
Qed.

(** [reserve] keeps the invariant whatever invariant-preserving work other
    transactions commit in between. *)
Lemma reserve_preserves clk other newId i :
  (forall db, Inv db -> Inv (other db)) -> preserves Inv (reserve clk other newId i).
Proof.
  intros Hother. unfold reserve. repeat (apply preserves_bind; [auto with monad|intros []]).
  assert (Hrc : forall r b, preserves Inv (receiptFor clk r b)).
  { intros r b. unfold receiptFor. auto with monad. }
  apply preserves_catch.
  - unfold reserve_tx. apply preserves_bind; [auto with monad|]. intros [r|].
    + auto with monad.
    + apply preserves_bind; [by apply preserves_modify|]. intros [].
      apply preserves_transaction. intros. by eapply reserve_write_Inv.
  - intros e. destruct (isUniqueViolation e); simpl; [|auto with monad].
    unfold reserve_reload. auto 10 with monad.
Qed.

End Ledger.
