(* ===== verification/BudgetTheorems.v ===== *)
(** * What the Agent budget ledger promises

    The theorems on [BudgetLedger]: the histories of the service as a step
    relation, the accounting invariant on every history, replay and
    terminality of reservations, the failure codes of [reserve], and that an
    open reservation can always be resolved. *)

From Stdlib Require Import Ascii.
From stdpp Require Import gmap strings list fin_maps.
From S2P Require Import Prelude BudgetLedger.
Import Ledger.

Module BudgetTheorems.

(** ** Histories

    A step runs one operation of the service to its end, successful or not.
    A [reserve] reads its key first and takes the row lock afterwards: any
    number of other steps may commit in between. *)

Inductive step : DB -> DB -> Prop :=
| step_createOrLoad clk newId i db : step db (createOrLoad clk newId i db).2
| step_reserve clk newId i db db1 :
    steps db db1 -> step db (reserve clk (fun _ => db1) newId i db).2
| step_commit clk i db : step db (commit clk i db).2
| step_release clk t id res db : step db (release clk t id res db).2
| step_markUnknown clk t id db : step db (markUnknown clk t id db).2
with steps : DB -> DB -> Prop :=
| steps_refl db : steps db db
| steps_cons db db1 db2 : step db db1 -> steps db1 db2 -> steps db db2.

Scheme step_mind := Induction for step Sort Prop
with steps_mind := Induction for steps Sort Prop.

(** An empty database with a tenant table. *)
Definition initial (ts : gmap string Tenant) : DB :=
  {| tenants := ts; ledgers := ∅; reservations := ∅; usage := ∅ |}.

(** The limits an operator configures are not negative (the CHECK of the
    tenants table). *)
Definition limits_ok (ts : gmap string Tenant) : Prop :=
  forall k t d lim, ts !! k = Some t -> t_limit d t = Some lim -> 0 <= lim.

Lemma initial_Inv ts : limits_ok ts -> Inv (initial ts).
Proof. intros Ht. split; simpl; try done. Qed.

(** Rule induction for a relation that every operation respects. *)
Section Histories.
Context (P : DB -> DB -> Prop).
Context (Prefl : forall db, P db db).
Context (Ptrans : forall a b c, P a b -> P b c -> P a c).
Context (Pcreate : forall clk id i db, P db (createOrLoad clk id i db).2).
Context (Preserve : forall clk id i db db1, P db db1 ->
           P db (reserve clk (fun _ => db1) id i db).2).
Context (Pcommit : forall clk i db, P db (commit clk i db).2).
Context (Prelease : forall clk t id res db, P db (release clk t id res db).2).
Context (Punknown : forall clk t id db, P db (markUnknown clk t id db).2).

Lemma steps_respect db db' : steps db db' -> P db db'.
Proof using All.
  revert db db'.
  apply (steps_mind (fun db db' _ => P db db') (fun db db' _ => P db db')); eauto.
Qed.
End Histories.

(** ** How rows may evolve *)

Definition status_rank (st : AgentBudgetReservationStatus) : Z :=
  match st with Reserved => 0 | Unknown => 1 | Committed | Released => 2 end.

(** A reservation row is untouched, or keeps its claim and moves on:
    RESERVED to UNKNOWN, either of them to COMMITTED or RELEASED. *)
Definition evolves (r r' : AgentBudgetReservation) : Prop :=
  r' = r \/ (same_claim r r' /\ status_rank (rs_status r) < status_rank (rs_status r')).

(** A ledger row keeps its identity, its limits and its deadline; its version
    and what it has used never go back. *)
Record ledger_evolves (l l' : AgentBudgetLedger) : Prop := {
  le_run : (lg_id l', lg_tenantId l', lg_caseId l', lg_workflowRunId l') =
           (lg_id l, lg_tenantId l, lg_caseId l, lg_workflowRunId l);
  le_limits : forall d, limit d l' = limit d l;
  le_terms : (lg_currency l', lg_startedAt l', lg_deadlineAt l', lg_closedAt l') =
             (lg_currency l, lg_startedAt l, lg_deadlineAt l, lg_closedAt l);
  le_version : lg_version l <= lg_version l';
  le_used : forall d, used d l <= used d l' }.

Record db_evolves (db db' : DB) : Prop := {
  de_rows : forall k r, reservations db !! k = Some r ->
    exists r', reservations db' !! k = Some r' /\ evolves r r';
  de_ledgers : forall k l, ledgers db !! k = Some l ->
    exists l', ledgers db' !! k = Some l' /\ ledger_evolves l l';
  de_tenants : tenants db' = tenants db }.

Lemma evolves_trans r1 r2 r3 : evolves r1 r2 -> evolves r2 r3 -> evolves r1 r3.
Proof.
  intros [->|[[] ?]] [->|[[] ?]]; [by left|by right|by right|]. right. split; [|lia].
  split; congruence || done.
Qed.

#[export] Instance ledger_evolves_preorder : PreOrder ledger_evolves.
Proof.
  split.
  - intros l. split; done || intros; lia.
  - intros l1 l2 l3 [? H1 ? ? U1] [? H2 ? ? U2]. split; try congruence; try lia.
    intros d. specialize (U1 d). specialize (U2 d). lia.
Qed.

#[export] Instance db_evolves_preorder : PreOrder db_evolves.
Proof.
  split.
  - intros db. split; [| |done].
    + intros k r Hr. exists r. split; [done|by left].
    + intros k l Hl. by exists l.
  - intros a b c [R1 L1 T1] [R2 L2 T2]. split; [| |congruence].
    + intros k r Hr. destruct (R1 k r Hr) as (r1 & Hr1 & E1).
      destruct (R2 k r1 Hr1) as (r2 & Hr2 & E2). eauto using evolves_trans.
    + intros k l Hl. destruct (L1 k l Hl) as (l1 & Hl1 & E1).
      destruct (L2 k l1 Hl1) as (l2 & Hl2 & E2). exists l2. split; [done|].
      by transitivity l1.
Qed.

Lemma set_counters_frame l sU sR tU tR pU pR cU cR l' :
  set_counters l sU sR tU tR pU pR cU cR = Ok l' ->
  stepUsed l <= sU -> tokenUsed l <= tU -> providerCallUsed l <= pU ->
  costUsedMinorUnits l <= cU -> ledger_evolves l l'.
Proof.
  unfold set_counters. intros H ? ? ? ?. minv.
  repeat match goal with H : int4 _ = Ok _ |- _ => apply int4_Ok in H as [-> _] end.
  split; simpl; try done; try lia; intros []; simpl; lia || done.
Qed.

(** One reservation row and one ledger row replaced. *)
Lemma resolve_evolves db db' id r r' l l' :
  reservations db !! id = Some r -> ledgers db !! rs_ledgerId r = Some l ->
  reservations db' = <[id := r']> (reservations db) ->
  ledgers db' = <[rs_ledgerId r := l']> (ledgers db) -> tenants db' = tenants db ->
  evolves r r' -> ledger_evolves l l' -> db_evolves db db'.
Proof.
  intros Hr Hl Er El Et Ev Lv. split; [| |done].
  - intros k x Hx. rewrite Er, lookup_insert. case_decide; simplify_eq; eauto.
    exists x. split; [done|by left].
  - intros k x Hx. rewrite El, lookup_insert. case_decide; simplify_eq; eauto.
    by exists x.
Qed.

Lemma put_usage_frame k u db :
  ledgers (put_usage k u db) = ledgers db /\
  reservations (put_usage k u db) = reservations db /\
  tenants (put_usage k u db) = tenants db.
Proof. done. Qed.

Lemma commitTenantAggregate_frame r a db db' :
  commitTenantAggregate r a db = (Ok tt, db') ->
  ledgers db' = ledgers db /\ reservations db' = reservations db /\ tenants db' = tenants db.
Proof.
  intros H. apply commitTenantAggregate_Ok in H. case_match; [|by subst].
  destruct H as (? & ? & _ & -> & _). apply put_usage_frame.
Qed.

Lemma releaseTenantAggregate_frame r db db' :
  releaseTenantAggregate r db = (Ok tt, db') ->
  ledgers db' = ledgers db /\ reservations db' = reservations db /\ tenants db' = tenants db.
Proof.
  unfold releaseTenantAggregate. intros H. case_match; minv; [|done].
  destruct (usage _ !! _); minv. case_match; minv. apply put_usage_frame.
Qed.

Lemma commit_action_evolves clk i db r l x db' :
  (forall a, ci_actualCostMinorUnits i = Some a -> 0 <= a) ->
  Inv db -> found db (ci_tenantId i) (ci_reservationId i) r l ->
  commit_action clk i r l db = (Ok x, db') -> db_evolves db db'.
Proof.
  intros Hact HI (Hr & Hid & Ht & Hl & Hlid & Hlt) H. unfold commit_action in H.
  destruct (bool_decide (rs_status r = Committed)) eqn:E1.
  { case_match; by minv. }
  case_match; [by minv|].
  destruct (bool_decide (rs_status r = Released)) eqn:E2; [by minv|]. bsplit.
  pose proof (row_units _ _ (inv_rows _ HI _ _ Hr)) as Hpos.
  set (a := default (costMinorUnits (rs_units r)) (ci_actualCostMinorUnits i)) in *.
  assert (Ha : 0 <= a).
  { unfold a. destruct (ci_actualCostMinorUnits i); simpl; [eauto|apply (Hpos Cost)]. }
  apply bind_Ok in H as (o & db1 & Hup & H). apply update_ledger_Ok in Hup.
  destruct o as [l'|]; [|by minv].
  destruct Hup as (l0 & Hl0 & _ & _ & Hset & -> & _).
  rewrite Hlid, Hl in Hl0. injection Hl0 as <-.
  apply bind_Ok in H as ([] & db2 & Hagg & H). minv.
  apply commitTenantAggregate_frame in Hagg as (El & Er & Et).
  match goal with H : reservation_checks _ = Ok _ |- _ =>
    apply reservation_checks_Ok in H as (-> & _ & _ & Hact') end.
  pose proof (proj1 (set_counters_Ok _ _ _ _ _ _ _ _ _ _ Hset)) as Hid'.
  eapply (resolve_evolves _ _ _ r _ l l'); simpl; eauto.
  - by rewrite Er, Hid.
  - by rewrite El; simpl; rewrite Hid', Hlid.
  - right. split; [by split|]. simpl. by destruct (rs_status r).
  - eapply set_counters_frame; [exact Hset|..];
      [specialize (Hpos Steps)|specialize (Hpos Tokens)|specialize (Hpos Calls)|];
      simpl in *; lia.
Qed.

Lemma release_action_evolves clk t res id db r l x db' :
  Inv db -> found db t id r l ->
  release_action clk t res r l db = (Ok x, db') -> db_evolves db db'.
Proof.
  intros HI (Hr & Hid & Ht & Hl & Hlid & Hlt) H. unfold release_action in H.
  destruct (bool_decide (rs_status r = Released)) eqn:E1.
  { case_match; by minv. }
  case_match; [by minv|].
  destruct (bool_decide (rs_status r = Committed)) eqn:E2; [by minv|]. bsplit.
  apply bind_Ok in H as (o & db1 & Hup & H). apply update_ledger_Ok in Hup.
  destruct o as [l'|]; [|by minv].
  destruct Hup as (l0 & Hl0 & _ & _ & Hset & -> & _).
  rewrite Hlid, Hl in Hl0. injection Hl0 as <-.
  apply bind_Ok in H as ([] & db2 & Hagg & H). minv.
  apply releaseTenantAggregate_frame in Hagg as (El & Er & Et).
  match goal with H : reservation_checks _ = Ok _ |- _ =>
    apply reservation_checks_Ok in H as (-> & _ & _ & Hact') end.
  pose proof (proj1 (set_counters_Ok _ _ _ _ _ _ _ _ _ _ Hset)) as Hid'.
  eapply (resolve_evolves _ _ _ r _ l l'); simpl; eauto.
  - by rewrite Er.
  - by rewrite El; simpl; rewrite Hid', Hlid.
  - right. split; [by split|]. simpl. by destruct (rs_status r).
  - eapply set_counters_frame; [exact Hset|..]; lia.
Qed.

Lemma markUnknown_action_evolves clk t id db r l x db' :
  Inv db -> found db t id r l ->
  markUnknown_action clk r l db = (Ok x, db') -> db_evolves db db'.
Proof.
  intros HI (Hr & Hid & Ht & Hl & Hlid & Hlt) H. unfold markUnknown_action in H.
  destruct (bool_decide (rs_status r = Reserved)) eqn:E1; [|case_match; by minv].
  bsplit. minv.
  eapply (resolve_evolves _ _ _ r (with_status r Unknown) l l); simpl; eauto.
  - by rewrite insert_id.
  - right. split; [|by rewrite E1]. split; try done.
    apply (row_actual _ _ (inv_rows _ HI _ _ Hr)).
  - done.
Qed.

Lemma resolveReservation_evolves t id act db :
  (forall r l x db', Inv db -> found db t id r l -> act r l db = (Ok x, db') ->
     db_evolves db db') ->
  Inv db -> db_evolves db (resolveReservation t id act db).2.
Proof.
  intros Hact HI. destruct (resolveReservation t id act db) as [[x|e] db'] eqn:E; simpl.
  - apply resolveReservation_Ok in E as (r & l & Hf & E); [|done]. eauto.
  - by apply transaction_Err in E as [-> _].
Qed.

Lemma commit_evolves clk i db : Inv db -> db_evolves db (commit clk i db).2.
Proof.
  intros HI. unfold commit. unfold mbind at 1, M_bind at 1, lift at 1.
  destruct (match ci_actualCostMinorUnits i with Some _ => _ | _ => _ end) as [x|] eqn:Ea; [|done].
  unfold mbind, M_bind, lift. destruct (if ci_requireUnknown i then _ else _); [|done].
  apply resolveReservation_evolves; [|done]. intros r l y db' _ Hf H.
  eapply commit_action_evolves; eauto. intros a' Hi. rewrite Hi in Ea.
  by apply assertNonnegativeInt_Ok in Ea as [? _].
Qed.

Lemma release_evolves clk t id res db : Inv db -> db_evolves db (release clk t id res db).2.
Proof.
  intros HI. unfold release, mbind, M_bind, lift.
  destruct (match res with Some _ => _ | _ => _ end); [|done].
  apply resolveReservation_evolves; [|done]. intros. by eapply release_action_evolves.
Qed.

Lemma markUnknown_evolves clk t id db : Inv db -> db_evolves db (markUnknown clk t id db).2.
Proof.
  apply resolveReservation_evolves. intros. by eapply markUnknown_action_evolves.
Qed.

Lemma createOrLoad_evolves clk newId i db : db_evolves db (createOrLoad clk newId i db).2.
Proof.
  apply (preserves_bind (db_evolves db)); [auto with monad| |done]. intros [].
  apply (preserves_bind (db_evolves db)); [|auto with monad].
  apply preserves_transaction. intros s l s' Hs H.
  apply insert_or_find_ledger_Ok in H as [_ [[-> _]|(-> & Hf & _ & _ & ->)]]; [done|].
  transitivity s; [done|]. split; simpl; [| |done].
  - intros k r Hr. exists r. split; [done|by left].
  - intros k l Hl. exists l. rewrite lookup_insert_ne; [done|]. intros <-. simpl in *. congruence.
Qed.

Lemma reserve_write_evolves clk newId i db x db' :
  Inv db -> reserve_write clk newId i db = (Ok x, db') -> db_evolves db db'.
Proof.
  intros HI H. apply reserve_write_Ok in H
    as (l & l' & w & Hl & _ & _ & Hset & _ & Hfresh & _ & _ & _ & _ & El & Er & Et & _).
  pose proof (proj1 (set_counters_Ok _ _ _ _ _ _ _ _ _ _ Hset)) as Hid'.
  pose proof (ledger_id _ _ _ (inv_ledgers _ HI _ _ Hl)) as Hlid.
  split; [| |done].
  - intros k r Hr. exists r. rewrite Er, lookup_insert_ne by congruence. split; [done|by left].
  - intros k x' Hx. rewrite El, lookup_insert. case_decide as E; [|by exists x'].
    exists l'. split; [done|]. rewrite Hid', Hlid in E. simplify_eq.
    eapply set_counters_frame; [exact Hset|..]; lia.
Qed.

Lemma receiptFor_state clk r b s : (receiptFor clk r b s).2 = s.
Proof. unfold receiptFor, mbind, M_bind, gets, or_throw. by destruct (find_ledger _ _ _). Qed.

Lemma reserve_reload_state clk i s : (reserve_reload clk i s).2 = s.
Proof.
  unfold reserve_reload, mbind, M_bind, gets, or_throw, lift.
  destruct (find_row _ _); [|done]. simpl. destruct (assertSameUnits _ _); [|done].
  apply receiptFor_state.
Qed.

(** Where [reserve] can leave the database: as it was, as the others left it,
    or with one granted claim on top. *)
Lemma reserve_tx_state clk other newId i db o db' :
  reserve_tx clk other newId i db = (o, db') ->
  db' = db \/ db' = other db \/
  exists x, reserve_write clk newId i (other db) = (Ok x, db').
Proof.
  unfold reserve_tx, mbind at 1, M_bind at 1, gets at 1.
  destruct (find_row (by_key i) (reservations db)) as [r|].
  - unfold mbind, M_bind, lift. destruct (assertSameUnits _ _); intros H; [|left; congruence].
    left. rewrite <- (receiptFor_state clk r true db). by rewrite H.
  - unfold mbind, M_bind, modify, transaction.
    destruct (reserve_write clk newId i (other db)) as [[x|e] s1]; intros [= _ <-]; eauto.
Qed.

Lemma reserve_state clk other newId i db o db' :
  reserve clk other newId i db = (o, db') ->
  db' = db \/ db' = other db \/
  exists x, reserve_write clk newId i (other db) = (Ok x, db').
Proof.
  unfold reserve, mbind, M_bind, lift, guard_throw.
  destruct (validateUnits _); [|intros [= _ <-]; by left].
  destruct (_ || _); [intros [= _ <-]; by left|]. simpl. unfold catch.
  destruct (reserve_tx clk other newId i db) as [[x|e] s1] eqn:Etx;
    apply reserve_tx_state in Etx.
  - by intros [= _ <-].
  - destruct (negb _); [by intros [= _ <-]|]. intros H.
    assert (db' = s1) as -> by (by rewrite <- (reserve_reload_state clk i s1), H). done.
Qed.

Lemma reserve_evolves clk newId i db db1 :
  Inv db1 -> db_evolves db db1 -> db_evolves db (reserve clk (fun _ => db1) newId i db).2.
Proof.
  intros HI Hev. destruct (reserve clk _ newId i db) as [o db'] eqn:E.
  apply reserve_state in E as [->|[->|[x Hw]]]; [done|done|]. transitivity db1; [done|]. by eapply reserve_write_evolves.
Qed.

Lemma steps_evolve db db' : steps db db' -> Inv db -> Inv db' /\ db_evolves db db'.
Proof.
  apply (steps_respect (fun a b => Inv a -> Inv b /\ db_evolves a b)).
  - by split.
  - intros a b c Hab Hbc Ha. destruct (Hab Ha) as [Hb ?]. destruct (Hbc Hb) as [? ?].
    split; [done|]. by transitivity b.
  - split; [by apply createOrLoad_preserves|apply createOrLoad_evolves].
  - intros clk id i a b Hab Ha. destruct (Hab Ha) as [Hb ?].
    split; [by apply reserve_preserves|by apply reserve_evolves].
  - split; [by apply commit_preserves|by apply commit_evolves].
  - split; [by apply release_preserves|by apply release_evolves].
  - split; [by apply markUnknown_preserves|by apply markUnknown_evolves].
Qed.

(** ** The accounting of every history *)

Definition reachable (db : DB) : Prop :=
  exists ts, limits_ok ts /\ steps (initial ts) db.

Lemma reachable_Inv db : reachable db -> Inv db.
Proof.
  intros (ts & Ht & Hs). apply (steps_evolve _ _ Hs). by apply initial_Inv.
Qed.
#[export] Hint Resolve reachable_Inv : monad.

(** C2: In every history of the service, with any interleaving of the
    operations, no run and no tenant month is ever overspent.  For each ledger
    row and each of steps, tokens, provider calls and cost, used plus reserved
    stays within the limit, and the two counters are exactly what the
    reservation rows of that ledger have spent and hold.  For each tenant and
    month, used plus reserved calls and cost stay within the limits configured
    for the tenant, and are again the sums over the rows of that window. *)
Theorem budget_never_overspent db :
  reachable db ->
  (forall k l d, ledgers db !! k = Some l ->
     0 <= used d l /\ 0 <= reserved d l /\ used d l + reserved d l <= limit d l /\
     used d l = msum (on_ledger k (spent d)) (reservations db) /\
     reserved d l = msum (on_ledger k (held d)) (reservations db)) /\
  (forall t w u d tn lim, usage db !! (t, w) = Some u ->
     tenants db !! t = Some tn -> t_limit d tn = Some lim ->
     u_used d u + u_reserved d u <= lim /\
     u_used d u = msum (on_window (t, w) (spent d)) (reservations db) /\
     u_reserved d u = msum (on_window (t, w) (held d)) (reservations db)).
Proof.
  intros HI%reachable_Inv. split.
  - intros k l d Hl. destruct (inv_ledgers _ HI _ _ Hl) as [_ Hc Hr Hu Hw].
    apply ledger_checks_Ok in Hc as [_ Hc]. destruct (Hc d). specialize (Hw d).
    split_and!; auto; lia.
  - intros t w u d tn lim Hu Ht Hl. destruct (inv_usage _ HI _ _ Hu) as [H1 H2 _ H3].
    pose proof (t_limit_agg _ _ _ Hl). split_and!; eauto.
Qed.

(** C18: A resolved reservation is final.  Once a row is COMMITTED or RELEASED,
    no further history of the service changes or removes it: a committed claim
    cannot be released, a released one cannot be committed, and repeating a
    commit or a release never moves capacity a second time. *)
Theorem resolved_reservation_is_final db db' k r :
  reachable db -> steps db db' ->
  reservations db !! k = Some r -> is_open (rs_status r) = false ->
  reservations db' !! k = Some r.
Proof.
  intros HI%reachable_Inv Hs Hr Hc. destruct (steps_evolve _ _ Hs HI) as [_ [Hrows _ _]].
  destruct (Hrows k r Hr) as (r' & Hr' & [->|[_ Hlt]]); [done|].
  destruct (rs_status r), (rs_status r'); done.
Qed.

(** A run's budget terms are fixed for good.  In every continuation of a
    history a ledger row still exists, with the same run, the same limits, the
    same currency, start and deadline; its version and each used counter never
    go back. *)
Theorem ledger_terms_are_fixed db db' k l :
  reachable db -> steps db db' -> ledgers db !! k = Some l ->
  exists l', ledgers db' !! k = Some l' /\
    lg_workflowRunId l' = lg_workflowRunId l /\ lg_tenantId l' = lg_tenantId l /\
    lg_startedAt l' = lg_startedAt l /\ lg_deadlineAt l' = lg_deadlineAt l /\
    lg_version l <= lg_version l' /\
    forall d, limit d l' = limit d l /\ used d l <= used d l'.
Proof.
  intros HI%reachable_Inv Hs Hl. destruct (steps_evolve _ _ Hs HI) as [_ [_ Hlg _]].
  destruct (Hlg k l Hl) as (l' & Hl' & []). simplify_eq. exists l'. by split_and!.
Qed.

(** ** Idempotent reservation *)

Lemma assertSameUnits_Ok r u x : assertSameUnits r u = Ok x -> rs_units r = u.
Proof.
  unfold assertSameUnits. case_match; [done|]. intros _. bsplit.
  destruct (rs_units r), u; simpl in *. by subst.
Qed.

Lemma assertSameUnits_refl r : assertSameUnits r (rs_units r) = Ok tt.
Proof. unfold assertSameUnits. by rewrite !Z.eqb_refl. Qed.

Lemma by_key_true i r :
  by_key i r = true -> rs_ledgerId r = ri_ledgerId i /\ rs_tenantId r = ri_tenantId i /\
    rs_idempotencyKey r = ri_idempotencyKey i.
Proof. unfold by_key. intros H. by bsplit. Qed.

Lemma receiptFor_Ok clk r b db : Inv db -> (exists k, reservations db !! k = Some r) ->
  exists l, receiptFor clk r b db = (Ok (receipt clk r l b), db) /\
    ledgers db !! rs_ledgerId r = Some l.
Proof.
  intros HI [k Hr]. destruct (row_ledger _ _ (inv_rows _ HI _ _ Hr)) as (l & Hl & Ht).
  exists l. split; [|done]. unfold receiptFor, mbind, M_bind, gets, find_ledger.
  by rewrite Hl, Ht, String.eqb_refl.
Qed.

(** The row that a granted or replayed reservation stands on. *)
Definition backed (db : DB) (i : ReserveInput) (id : string) : Prop :=
  exists r, reservations db !! id = Some r /\ by_key i r = true /\ rs_units r = ri_units i.

Lemma find_row_by_key i db r :
  Inv db -> find_row (by_key i) (reservations db) = Some r -> assertSameUnits r (ri_units i) = Ok tt ->
  backed db i (rs_id r).
Proof.
  intros HI Hf Hu. apply find_row_Some in Hf as (Hk & k & Hr).
  exists r. rewrite (inv_rid _ HI _ _ Hr). split_and!; [done|done|].
  by eapply assertSameUnits_Ok.
Qed.

Lemma reserve_reload_backed clk i db rc db' :
  Inv db -> reserve_reload clk i db = (Ok rc, db') -> backed db' i (rc_reservationId rc).
Proof.
  intros HI H. unfold reserve_reload, mbind, M_bind, gets, or_throw, lift in H.
  destruct (find_row _ _) as [r|] eqn:Ef; [|done]. simpl in H.
  destruct (assertSameUnits r (ri_units i)) as [[]|] eqn:Eu; [|done].
  destruct (receiptFor_Ok clk r true db HI) as (l & E & _).
  { by apply find_row_Some in Ef as [_ ?]. }
  rewrite E in H. simplify_eq. by apply find_row_by_key.
Qed.

Lemma reserve_write_backed clk newId i db rc db' :
  reserve_write clk newId i db = (Ok rc, db') -> backed db' i (rc_reservationId rc).
Proof.
  intros H. apply reserve_write_Ok in H
    as (l & l' & w & _ & _ & _ & _ & -> & _ & _ & _ & _ & _ & _ & Er & _).
  exists (new_reservation newId i w). rewrite Er. simpl. split_and!; [|by unfold by_key; simpl; rewrite !String.eqb_refl|done].
  apply lookup_insert_eq.
Qed.

Lemma reserve_backed clk other newId i db rc db' :
  Inv db -> Inv (other db) -> reserve clk other newId i db = (Ok rc, db') ->
  backed db' i (rc_reservationId rc).
Proof.
  intros HI HI' H. unfold reserve, mbind, M_bind, lift, guard_throw in H.
  destruct (validateUnits _); [|done]. destruct (_ || _); [done|]. simpl in H.
  unfold catch in H.
  destruct (reserve_tx clk other newId i db) as [[x|e] s1] eqn:Etx.
  - simplify_eq. unfold reserve_tx, mbind, M_bind, gets, lift, modify in Etx.
    destruct (find_row _ _) as [r|] eqn:Ef.
    + destruct (assertSameUnits r (ri_units i)) as [[]|] eqn:Eu; [|done].
      destruct (receiptFor_Ok clk r true db HI) as (l & E & _).
      { by apply find_row_Some in Ef as [_ ?]. }
      rewrite E in Etx. simplify_eq. by apply find_row_by_key.
    + apply (proj1 (transaction_Ok _ _ _ _)) in Etx. by eapply reserve_write_backed.
  - destruct (negb _); [done|]. eapply reserve_reload_backed; [|exact H].
    apply reserve_tx_state in Etx as [->|[->|[y Hw]]]; [done|done|].
    by eapply reserve_write_Inv.
Qed.

(** A key that is backed replays: same reservation, nothing written. *)
Lemma backed_replays clk other newId i db id :
  Inv db -> backed db i id -> validateUnits (ri_units i) = Ok tt ->
  ri_idempotencyKey i <> "" -> (String.length (ri_idempotencyKey i) <= 200)%nat ->
  exists rc, reserve clk other newId i db = (Ok rc, db) /\
    rc_reservationId rc = id /\ rc_replayed rc = true /\ rc_units rc = ri_units i.
Proof.
  intros HI (r & Hr & Hk & Hu) Hv Hne Hlen.
  unfold reserve, mbind, M_bind, lift, guard_throw. rewrite Hv.
  assert ((negb (JS.truthy (ri_idempotencyKey i)) ||
           (200 <? Z.of_nat (String.length (ri_idempotencyKey i)))) = false) as ->.
  { unfold JS.truthy. rewrite negb_involutive. apply orb_false_intro; [|lia].
    by apply String.eqb_neq. }
  simpl. unfold catch, reserve_tx, mbind, M_bind, gets, lift.
  destruct (find_row (by_key i) (reservations db)) as [r'|] eqn:Ef.
  2: { pose proof (find_row_None _ _ _ _ Ef Hr). congruence. }
  apply find_row_Some in Ef as (Hk' & k' & Hr').
  assert (k' = id) as ->.
  { apply by_key_true in Hk as (? & ? & ?), Hk' as (? & ? & ?).
    eapply (inv_keys _ HI); eauto; congruence. }
  assert (r' = r) as -> by congruence. rewrite <- Hu, assertSameUnits_refl.
  destruct (receiptFor_Ok clk r true db HI) as (l & -> & _); [by eauto|].
  eexists. split_and!; [done| |done|done]. simpl. by apply (inv_rid _ HI).
Qed.

(** The guards a granted [reserve] has passed. *)
Lemma reserve_guards clk other newId i db rc db' :
  reserve clk other newId i db = (Ok rc, db') ->
  validateUnits (ri_units i) = Ok tt /\ ri_idempotencyKey i <> "" /\
  (String.length (ri_idempotencyKey i) <= 200)%nat.
Proof.
  unfold reserve, mbind, M_bind, lift, guard_throw.
  destruct (validateUnits _) as [[]|]; [|done]. destruct (_ || _) eqn:E; [done|].
  intros _. apply orb_false_iff in E as [E1 E2]. unfold JS.truthy in E1. bsplit.
  split_and!; [done| |lia]. done.
Qed.

Lemma backed_steps db db' i id :
  Inv db -> steps db db' -> backed db i id -> backed db' i id.
Proof.
  intros HI Hs (r & Hr & Hk & Hu). destruct (steps_evolve _ _ Hs HI) as [_ [Hrows _ _]].
  destruct (Hrows _ _ Hr) as (r' & Hr' & Hev). exists r'. split; [done|].
  destruct Hev as [->|[[] _]]; [done|]. unfold by_key in *.
  by rewrite sc_ledger0, sc_tenant0, sc_key0, sc_units0.
Qed.

(** A reservation is granted at most once per idempotency key.  After
    [reserve] has returned a receipt, and after any further history, the same
    claim (same tenant, ledger, key and units, at any clock, with any expected
    version) returns a receipt for the same reservation, marked as replayed,
    and writes nothing. *)
Theorem reserve_is_idempotent clk db db1 newId i rc db2 db3 clk' other' newId' i' :
  reachable db -> steps db db1 ->
  reserve clk (fun _ => db1) newId i db = (Ok rc, db2) -> steps db2 db3 ->
  ri_tenantId i' = ri_tenantId i -> ri_ledgerId i' = ri_ledgerId i ->
  ri_idempotencyKey i' = ri_idempotencyKey i -> ri_units i' = ri_units i ->
  exists rc', reserve clk' other' newId' i' db3 = (Ok rc', db3) /\
    rc_reservationId rc' = rc_reservationId rc /\ rc_replayed rc' = true /\
    rc_units rc' = ri_units i.
Proof.
  intros HI%reachable_Inv Hs1 H Hs3 Et El Ek Eu.
  destruct (steps_evolve _ _ Hs1 HI) as [HI1 _].
  pose proof (reserve_backed _ _ _ _ _ _ _ HI HI1 H) as Hb.
  assert (HI2 : Inv db2).
  { replace db2 with (reserve clk (fun _ => db1) newId i db).2 by (by rewrite H).
    by apply reserve_preserves. }
  destruct (steps_evolve _ _ Hs3 HI2) as [HI3 _].
  pose proof (backed_steps _ _ _ _ HI2 Hs3 Hb) as Hb3.
  apply reserve_guards in H as (Hv & Hne & Hlen).
  rewrite <- Eu. apply backed_replays; rewrite ?Eu, ?Ek; try done.
  destruct Hb3 as (r & Hr & Hk & Hu). exists r. unfold by_key in *. by rewrite Et, El, Ek, Eu.
Qed.

(** ** Forward facts: statements that cannot fail *)

Lemma int4_fits z : -2147483648 <= z <= 2147483647 -> int4 z = Ok z.
Proof.
  intros H. unfold int4. by rewrite (proj2 (Z.leb_le _ _) (proj1 H)),
    (proj2 (Z.leb_le _ _) (proj2 H)).
Qed.

Lemma fits_total u r n lim :
  0 <= u -> 0 <= r -> 0 <= n -> u + r + n <= 2147483647 ->
  fits u r n lim = Ok (u + r + n <=? lim).
Proof.
  intros. unfold fits, mbind, result_bind. by rewrite !int4_fits by lia.
Qed.

(** The row a statement writes when nothing overflows. *)
Definition with_counters (l : AgentBudgetLedger) (sU sR tU tR pU pR cU cR : Z) :=
  {| lg_id := lg_id l; lg_tenantId := lg_tenantId l; lg_caseId := lg_caseId l;
     lg_workflowRunId := lg_workflowRunId l;
     stepLimit := stepLimit l; stepUsed := sU; stepReserved := sR;
     tokenLimit := tokenLimit l; tokenUsed := tU; tokenReserved := tR;
     providerCallLimit := providerCallLimit l; providerCallUsed := pU;
     providerCallReserved := pR;
     costLimitMinorUnits := costLimitMinorUnits l; costUsedMinorUnits := cU;
     costReservedMinorUnits := cR;
     lg_currency := lg_currency l; lg_startedAt := lg_startedAt l;
     lg_deadlineAt := lg_deadlineAt l; lg_version := lg_version l + 1;
     lg_closedAt := lg_closedAt l |}.

Lemma set_counters_total l sU sR tU tR pU pR cU cR :
  ledger_checks l = Ok l -> lg_version l < 2147483647 ->
  0 <= sU <= 2147483647 -> 0 <= sR <= 2147483647 ->
  0 <= tU <= 2147483647 -> 0 <= tR <= 2147483647 ->
  0 <= pU <= 2147483647 -> 0 <= pR <= 2147483647 ->
  0 <= cU <= 2147483647 -> 0 <= cR <= 2147483647 ->
  set_counters l sU sR tU tR pU pR cU cR ≫= ledger_checks =
    Ok (with_counters l sU sR tU tR pU pR cU cR).
Proof.
  intros Hc Hv. intros. unfold ledger_checks in Hc. case_match eqn:E; [|done].
  clear Hc. bsplit. unfold set_counters, mbind, result_bind.
  rewrite !int4_fits by lia. simpl. unfold ledger_checks. simpl.
  rewrite !(proj2 (Z.leb_le _ _)), !(proj2 (Z.ltb_lt _ _)) by lia. done.
Qed.

Lemma update_ledger_total id t c s db l l' :
  ledgers db !! id = Some l -> lg_tenantId l = t -> c l = Ok true ->
  s l ≫= ledger_checks = Ok l' ->
  update_ledger id t c s db = (Ok (Some l'), put_ledger l' db).
Proof.
  intros Hl <- Hc Hs. unfold update_ledger, mbind at 1, M_bind at 1, gets at 1.
  rewrite Hl, String.eqb_refl. simpl. unfold mbind at 1, M_bind at 1, lift at 1. rewrite Hc.
  unfold mbind at 1, M_bind at 1, lift at 1. by rewrite Hs.
Qed.

Lemma update_ledger_denied id t c s db l :
  ledgers db !! id = Some l -> c l = Ok false -> update_ledger id t c s db = (Ok None, db).
Proof.
  intros Hl Hc. unfold update_ledger, mbind at 1, M_bind at 1, gets at 1.
  rewrite Hl. case_match; [done|]. unfold mbind at 1, M_bind at 1, lift at 1. by rewrite Hc.
Qed.

Lemma reservation_checks_total r :
  (forall d, 0 <= units_of d (rs_units r)) ->
  0 < total_units (rs_units r) <= 2147483647 ->
  0 <= default 0 (rs_actualCostMinorUnits r) -> reservation_checks r = Ok r.
Proof.
  intros Hu Ht Ha. unfold total_units in Ht.
  pose proof (Hu Steps). pose proof (Hu Tokens). pose proof (Hu Calls). pose proof (Hu Cost).
  simpl in *. unfold reservation_checks, mbind, result_bind. rewrite !int4_fits by lia.
  rewrite !(proj2 (Z.leb_le _ _)), !(proj2 (Z.ltb_lt _ _)) by lia. done.
Qed.

Lemma set_usage_total u pU pR cU cR :
  0 <= pU <= 2147483647 -> 0 <= pR <= 2147483647 ->
  0 <= cU <= 2147483647 -> 0 <= cR <= 2147483647 ->
  exists u', set_usage u pU pR cU cR = Ok u'.
Proof.
  intros. unfold set_usage, mbind, result_bind. rewrite !int4_fits by lia.
  unfold usage_checks. simpl. rewrite !(proj2 (Z.leb_le _ _)) by lia. by eexists.
Qed.

(** ** An open reservation can be resolved *)

Section Open.
Context (db : DB) (id : string) (r : AgentBudgetReservation) (l : AgentBudgetLedger).
Context (HI : Inv db) (Hr : reservations db !! id = Some r).
Context (Ho : is_open (rs_status r) = true).
Context (Hl : ledgers db !! rs_ledgerId r = Some l).

Lemma rows_nonneg f d k x :
  f = held \/ f = spent -> reservations db !! k = Some x -> 0 <= f d x.
Proof using HI.
  intros Hf Hx. pose proof (inv_rows _ HI _ _ Hx) as [Hu _ Ha _ _].
  specialize (Hu d). destruct Hf as [->| ->]; [unfold held; by case_match|].
  unfold spent. destruct (rs_status x) eqn:E; try done.
  by destruct d.
Qed.

Lemma ledger_holds d : 0 <= units_of d (rs_units r) <= reserved d l /\ 0 <= used d l.
Proof using HI Hr Ho Hl.
  pose proof (row_units _ _ (inv_rows _ HI _ _ Hr) d) as Hu.
  destruct (inv_ledgers _ HI _ _ Hl) as [_ _ Hres Hused _]. rewrite Hres, Hused.
  assert (Hn : forall f k x, f = held \/ f = spent -> reservations db !! k = Some x ->
    0 <= on_ledger (rs_ledgerId r) (f d) k x).
  { intros f k x Hf Hx. unfold on_ledger. case_match; [|done]. by eapply rows_nonneg. }
  pose proof (msum_elem_le (on_ledger (rs_ledgerId r) (held d)) (reservations db) id r) as Hle.
  unfold on_ledger at 2 in Hle. rewrite String.eqb_refl, (held_open d r Ho) in Hle.
  split; [split; [done|apply Hle; [|done]]|apply msum_nonneg]; intros; by apply Hn; auto.
Qed.

Lemma usage_holds d w : agg d = true -> rs_aggregateWindowStart r = Some w ->
  exists u, usage db !! (rs_tenantId r, w) = Some u /\
    units_of d (rs_units r) <= u_reserved d u /\ 0 <= u_used d u /\
    u_used d u + u_reserved d u <= 2147483647.
Proof using HI Hr Ho.
  intros Hd Hw. destruct (row_window _ _ (inv_rows _ HI _ _ Hr) w Hw) as [u Hu].
  destruct (inv_usage _ HI _ _ Hu) as [H1 H2 H3 _]. exists u. split; [done|].
  assert (Hn : forall f k x, f = held \/ f = spent -> reservations db !! k = Some x ->
    0 <= on_window (rs_tenantId r, w) (f d) k x).
  { intros f k x Hf Hx. unfold on_window. case_match; [|done]. by eapply rows_nonneg. }
  pose proof (msum_elem_le (on_window (rs_tenantId r, w) (held d)) (reservations db) id r) as Hle.
  unfold on_window at 2 in Hle. rewrite in_window_self, (held_open d r Ho) in Hle by done.
  split_and!; [rewrite H1 by done; apply Hle; [|done]|rewrite H2 by done; apply msum_nonneg
    |auto]; intros; by apply Hn; auto.
Qed.

Lemma resolveReservation_run act :
  resolveReservation (rs_tenantId r) id act db = transaction (act r l) db.
Proof using HI Hr Hl.
  unfold resolveReservation, transaction, mbind, M_bind, gets, or_throw, guard_throw.
  rewrite Hr. simpl. rewrite String.eqb_refl. simpl. unfold find_ledger. rewrite Hl.
  destruct (row_ledger _ _ (inv_rows _ HI _ _ Hr)) as (l0 & Hl0 & Ht).
  assert (l0 = l) as -> by congruence. by rewrite Ht, String.eqb_refl.
Qed.

Lemma usage_release db1 : usage db1 = usage db ->
  exists db2, releaseTenantAggregate r db1 = (Ok tt, db2).
Proof using HI Hr Ho.
  intros Eu. unfold releaseTenantAggregate.
  destruct (rs_aggregateWindowStart r) as [w|] eqn:Ew; [|by eexists].
  destruct (usage_holds Calls w eq_refl Ew) as (u & Hu & ? & ? & ?).
  destruct (usage_holds Cost w eq_refl Ew) as (u0 & Hu0 & ? & ? & ?). simplify_eq.
  pose proof (row_units _ _ (inv_rows _ HI _ _ Hr)) as Hpos.
  pose proof (Hpos Calls). pose proof (Hpos Cost). simpl in *.
  unfold mbind, M_bind, gets. rewrite Eu, Hu. rewrite !(proj2 (Z.leb_le _ _)) by lia. simpl.
  edestruct (set_usage_total u) as [u' E]; [..|unfold lift; rewrite E]; [lia..|]. by eexists.
Qed.

Lemma usage_commit a db1 : usage db1 = usage db -> 0 <= a <= costMinorUnits (rs_units r) ->
  exists db2, commitTenantAggregate r a db1 = (Ok tt, db2).
Proof using HI Hr Ho.
  intros Eu Ha. unfold commitTenantAggregate.
  destruct (rs_aggregateWindowStart r) as [w|] eqn:Ew; [|by eexists].
  destruct (usage_holds Calls w eq_refl Ew) as (u & Hu & ? & ? & ?).
  destruct (usage_holds Cost w eq_refl Ew) as (u0 & Hu0 & ? & ? & ?). simplify_eq.
  pose proof (row_units _ _ (inv_rows _ HI _ _ Hr)) as Hpos.
  pose proof (Hpos Calls). pose proof (Hpos Cost). simpl in *.
  unfold mbind, M_bind, gets. rewrite Eu, Hu. unfold lift, commit_usage_where.
  rewrite !(proj2 (Z.leb_le _ _)) by lia. simpl.
  edestruct (set_usage_total u) as [u' E]; [..|rewrite E]; [lia..|]. by eexists.
Qed.
End Open.

Lemma release_open_total clk db id r l :
  Inv db -> reservations db !! id = Some r -> is_open (rs_status r) = true ->
  ledgers db !! rs_ledgerId r = Some l -> lg_version l < 2147483647 ->
  exists rc db', release clk (rs_tenantId r) id None db = (Ok rc, db') /\ rc_status rc = Released.
Proof.
  intros HI Hr Ho Hl Hv. unfold release. rewrite (bind_run _ _ db tt db) by done.
  pose proof (inv_ledgers _ HI _ _ Hl) as [Hid Hchk _ _ Hw].
  pose proof (row_ledger _ _ (inv_rows _ HI _ _ Hr)) as (l0 & Hl0 & Ht). simplify_eq.
  pose proof (ledger_holds db id r l HI Hr Ho Hl) as Hh.
  pose proof (Hh Steps). pose proof (Hh Tokens). pose proof (Hh Calls). pose proof (Hh Cost).
  pose proof (Hw Steps). pose proof (Hw Tokens). pose proof (Hw Calls). pose proof (Hw Cost).
  simpl in * |-.
  rewrite (resolveReservation_run _ _ _ _ HI Hr Hl). unfold transaction, release_action.
  rewrite (bool_decide_eq_false_2 (rs_status r = Released)),
    (bool_decide_eq_false_2 (rs_status r = Committed)) by (by destruct (rs_status r)).
  change (bool_decide (is_Some (@None (string * string)))) with false.
  cbn [andb negb]. erewrite bind_run.
  2: { apply (update_ledger_total _ _ _ _ _ l); [by rewrite Hid|done|done|].
       apply set_counters_total; [done|done|lia..]. }
  edestruct (usage_release db id r HI Hr Ho) as [db2 Hagg]; [|rewrite (bind_run _ _ _ _ _ Hagg)];
    [done|].
  destruct (inv_rows _ HI _ _ Hr) as [Hu Htot Ha _ _].
  rewrite reservation_checks_total by done. by do 2 eexists.
Qed.

Lemma commit_open_total clk i db id r l :
  Inv db -> reservations db !! id = Some r -> is_open (rs_status r) = true ->
  ledgers db !! rs_ledgerId r = Some l -> lg_version l < 2147483647 ->
  ci_tenantId i = rs_tenantId r -> ci_reservationId i = id -> ci_requireUnknown i = false ->
  0 <= default (costMinorUnits (rs_units r)) (ci_actualCostMinorUnits i)
    <= costMinorUnits (rs_units r) ->
  exists rc db', commit clk i db = (Ok rc, db') /\ rc_status rc = Committed.
Proof.
  intros HI Hr Ho Hl Hv Et Ei Eu Hact. unfold commit.
  pose proof (inv_ledgers _ HI _ _ Hl) as [Hid Hchk _ _ Hw].
  pose proof (row_ledger _ _ (inv_rows _ HI _ _ Hr)) as (l0 & Hl0 & Ht). simplify_eq.
  pose proof (ledger_holds db _ r l HI Hr Ho Hl) as Hh.
  pose proof (Hh Steps). pose proof (Hh Tokens). pose proof (Hh Calls). pose proof (Hh Cost).
  pose proof (Hw Steps). pose proof (Hw Tokens). pose proof (Hw Calls). pose proof (Hw Cost).
  simpl in * |-. rewrite (bind_run _ _ db tt db), Eu.
  2: { destruct (ci_actualCostMinorUnits i) as [a|]; [|done]. simpl in *.
       unfold lift, assertNonnegativeInt, JS.isSafeInteger.
       by rewrite (proj2 (Z.leb_le _ _)), !(proj2 (Z.ltb_ge _ _)) by lia. }
  rewrite (bind_run _ _ db tt db) by done.
  rewrite Et, (resolveReservation_run _ _ _ _ HI Hr Hl). unfold transaction, commit_action.
  rewrite (bool_decide_eq_false_2 (rs_status r = Released)),
    (bool_decide_eq_false_2 (rs_status r = Committed)) by (by destruct (rs_status r)).
  rewrite Eu. cbn [andb negb]. set (a := default _ (ci_actualCostMinorUnits i)) in *.
  erewrite bind_run.
  2: { apply (update_ledger_total _ _ _ _ _ l); [by rewrite Hid|congruence| |].
       - unfold commit_where, mbind, result_bind. rewrite !int4_fits by lia.
         unfold mret, result_ret. f_equal. lia.
       - apply set_counters_total; [done|done|lia..]. }
  edestruct (usage_commit db _ r HI Hr Ho a) as [db2 Hagg];
    [..|rewrite (bind_run _ _ _ _ _ Hagg)]; [done|done|].
  destruct (inv_rows _ HI _ _ Hr) as [Hu Htot Ha _ _].
  rewrite reservation_checks_total by (simpl; done || lia). by do 2 eexists.
Qed.

(** Capacity is never stuck.  In every reachable state an open reservation
    (RESERVED or UNKNOWN) can be released, and can be committed at any actual
    cost up to the reserved one: neither the CHECK constraints nor integer
    overflow nor the tenant aggregate can refuse it, as long as the version
    counter of the ledger row is below the top of its integer type. *)
Theorem open_reservation_can_be_resolved clk db id r l a :
  reachable db -> reservations db !! id = Some r -> is_open (rs_status r) = true ->
  ledgers db !! rs_ledgerId r = Some l -> lg_version l < 2147483647 ->
  0 <= a <= costMinorUnits (rs_units r) ->
  (exists rc db', release clk (rs_tenantId r) id None db = (Ok rc, db') /\
     rc_status rc = Released) /\
  (exists rc db', commit clk {| ci_tenantId := rs_tenantId r; ci_reservationId := id;
       ci_actualCostMinorUnits := Some a; ci_requireUnknown := false;
       ci_resolvedBy := None; ci_resolutionNote := None |} db = (Ok rc, db') /\
     rc_status rc = Committed).
Proof.
  intros HI%reachable_Inv Hr Ho Hl Hv Ha. split.
  - by eapply release_open_total.
  - by eapply commit_open_total.
Qed.

(** ** Unknown outcomes *)

Lemma validateManualResolution_Ok who note x :
  validateManualResolution who note = Ok x ->
  exists w n, who = Some w /\ note = Some n /\ JS.nonblank w = true /\ JS.nonblank n = true /\
    (String.length w <= 200)%nat /\ (10 <= String.length n <= 2000)%nat.
Proof.
  unfold validateManualResolution. intros H. case_match; [done|]. case_match; [done|]. bsplit.
  destruct who as [w|], note as [n|]; simpl in *; try done.
  exists w, n. split_and!; done || lia.
Qed.

Lemma commit_manual_row clk i r l db rc db' :
  ci_requireUnknown i = true -> commit_action clk i r l db = (Ok rc, db') ->
  rs_status r = Unknown /\ exists a, reservations db' !! rs_id r =
    Some (resolved r Committed (Some a) (b_date clk) (ci_resolvedBy i) (ci_resolutionNote i)).
Proof.
  intros Hq H. unfold commit_action in H. rewrite Hq in H. simpl in H.
  case_match; [by minv|]. destruct (bool_decide (rs_status r = Unknown)) eqn:Eu; [|by minv].
  simpl in H. case_match; [by minv|]. bsplit. split; [done|].
  apply bind_Ok in H as (o & db1 & _ & H). destruct o as [l'|]; [|by minv].
  apply bind_Ok in H as ([] & db2 & _ & H). minv.
  match goal with H : reservation_checks _ = Ok _ |- _ =>
    apply reservation_checks_Ok in H as (-> & _) end.
  eexists. simpl. by rewrite lookup_insert_eq.
Qed.

(** An unknown provider outcome stays accounted for until a named reviewer
    resolves it.  Marking a reservation outcome-unknown frees nothing: every
    ledger row and every usage row stays as it was.  A manual commit succeeds
    only on a reservation that is UNKNOWN, and then records the reviewer and
    an evidence note of 10 to 2000 characters, neither of them blank. *)
Theorem unknown_outcome_needs_a_reviewer clk i db rc db' :
  reachable db ->
  (markUnknown clk (ci_tenantId i) (ci_reservationId i) db = (Ok rc, db') ->
   ledgers db' = ledgers db /\ usage db' = usage db /\ rc_status rc = Unknown) /\
  (ci_requireUnknown i = true -> commit clk i db = (Ok rc, db') ->
   exists r r' who note,
     reservations db !! ci_reservationId i = Some r /\ rs_status r = Unknown /\
     reservations db' !! ci_reservationId i = Some r' /\ rs_status r' = Committed /\
     rs_resolvedBy r' = Some who /\ rs_resolutionNote r' = Some note /\
     JS.nonblank who = true /\ JS.nonblank note = true /\
     (10 <= String.length note <= 2000)%nat).
Proof.
  intros HI%reachable_Inv. split.
  - intros H. apply resolveReservation_Ok in H as (r & l & _ & H); [|done].
    unfold markUnknown_action in H. case_match; [by minv|]. case_match eqn:E; [by minv|].
    bsplit. by minv.
  - intros Hq H. unfold commit in H. rewrite Hq in H.
    apply bind_Ok in H as (x & s & Hx & H). minv.
    match goal with H : validateManualResolution _ _ = Ok _ |- _ =>
      apply validateManualResolution_Ok in H as (w & n & Ew & En & ? & ? & ? & ?) end.
    apply resolveReservation_Ok in H as (r & l & (Hr & Hid & _) & H); [|done].
    apply commit_manual_row in H as (Hu & a & Hr'); [|done]. rewrite Hid in Hr'.
    exists r. eexists _, w, n. split_and!; [done|done|exact Hr'|done..|lia|lia].
Qed.

(** ** What [reserve] decides *)

Definition all_dims : list dim := [Steps; Tokens; Calls; Cost].

Definition grantable (clk : Clock) (i : ReserveInput) (l : AgentBudgetLedger) : bool :=
  (lg_version l =? ri_expectedVersion i) && bool_decide (lg_closedAt l = None) &&
  (b_now clk <? lg_deadlineAt l) &&
  forallb (fun d => used d l + reserved d l + units_of d (ri_units i) <=? limit d l) all_dims.

(** The code of a refusal, in the order of precedence. *)
Definition denial (clk : Clock) (i : ReserveInput) (l : AgentBudgetLedger)
  : AgentBudgetFailureCode :=
  if bool_decide (is_Some (lg_closedAt l)) then LEDGER_CLOSED
  else if lg_deadlineAt l <=? b_date clk then DEADLINE_EXCEEDED
  else if negb (lg_version l =? ri_expectedVersion i) then LEDGER_VERSION_CONFLICT
  else BUDGET_EXHAUSTED.

Lemma reserve_where_total clk i db k l :
  Inv db -> ledgers db !! k = Some l -> (forall d, 0 <= units_of d (ri_units i)) ->
  (forall d, used d l + reserved d l + units_of d (ri_units i) <= 2147483647) ->
  reserve_where clk i l = Ok (grantable clk i l).
Proof.
  intros HI Hl Hu Hmax. pose proof (inv_ledgers _ HI _ _ Hl) as [_ Hc _ _ _].
  apply ledger_checks_Ok in Hc as [_ Hpos]. unfold reserve_where, grantable, sql_and.
  destruct ((_ =? _) && _ && _); [|done]. simpl.
  pose proof (Hpos Steps). pose proof (Hpos Tokens). pose proof (Hpos Calls). pose proof (Hpos Cost).
  pose proof (Hu Steps). pose proof (Hu Tokens). pose proof (Hu Calls). pose proof (Hu Cost).
  pose proof (Hmax Steps). pose proof (Hmax Tokens). pose proof (Hmax Calls).
  pose proof (Hmax Cost). simpl in *.
  rewrite !fits_total by lia. unfold mbind, result_bind.
  repeat (case_match; simpl; try done). by rewrite andb_true_r.
Qed.

Lemma throwReservationFailure_code clk i db l :
  find_ledger (ri_ledgerId i) (ri_tenantId i) db = Some l ->
  exists msg, throwReservationFailure (A := Receipt) clk i db =
    (Err (AgentBudgetError (denial clk i l) msg), db).
Proof.
  intros Hl. unfold throwReservationFailure, denial, mbind, M_bind, gets, or_throw. rewrite Hl.
  simpl. repeat case_match; by eexists.
Qed.

(** A first claim under its key reaches the guarded UPDATE. *)
Lemma reserve_first clk newId i db :
  validateUnits (ri_units i) = Ok tt -> ri_idempotencyKey i <> "" ->
  (String.length (ri_idempotencyKey i) <= 200)%nat ->
  (forall k r, reservations db !! k = Some r -> by_key i r = false) ->
  reserve clk (fun d => d) newId i db =
  catch (transaction (reserve_write clk newId i))
    (fun e => if negb (isUniqueViolation e) then throw e else reserve_reload clk i) db.
Proof.
  intros Hv Hne Hlen Hnew. unfold reserve. rewrite (bind_run _ _ db tt db) by (by unfold lift; rewrite Hv).
  rewrite (bind_run _ _ db tt db).
  2: { unfold guard_throw, JS.truthy. rewrite negb_involutive.
       rewrite (proj2 (String.eqb_neq _ _) Hne), (proj2 (Z.ltb_ge _ _)) by lia. done. }
  unfold catch, reserve_tx. rewrite (bind_run _ _ db (find_row (by_key i) (reservations db)) db) by done.
  destruct (find_row (by_key i) (reservations db)) as [r|] eqn:Ef; [|done].
  apply find_row_Some in Ef as (Hk & k & Hr). by rewrite (Hnew _ _ Hr) in Hk.
Qed.

Lemma insert_reservation_total db r :
  reservations db !! rs_id r = None ->
  (forall k x, reservations db !! k = Some x -> rs_ledgerId x = rs_ledgerId r ->
     rs_idempotencyKey x <> rs_idempotencyKey r) ->
  reservation_checks r = Ok r ->
  insert_reservation r db = (Ok r, put_reservation r db).
Proof.
  intros Hf Hk Hc. unfold insert_reservation.
  rewrite (bind_run _ _ db None db) by (by unfold gets; rewrite Hf).
  rewrite (bind_run _ _ db None db).
  2: { unfold gets. destruct (find_row _ _) as [x|] eqn:E; [|done].
       apply find_row_Some in E as (E & k & Hx). bsplit. by destruct (Hk k x Hx). }
  rewrite (bind_run _ _ db tt db) by done.
  by rewrite (bind_run _ _ db r db) by (by unfold lift; rewrite Hc).
Qed.

Lemma validateUnits_pos u : validateUnits u = Ok tt -> 0 < total_units u.
Proof.
  intros H. pose proof (validateUnits_Ok _ _ H) as Hu.
  pose proof (Hu Steps). pose proof (Hu Tokens). pose proof (Hu Calls). pose proof (Hu Cost).
  unfold validateUnits in H. minv. simpl in *. unfold total_units.
  case_match eqn:E; [done|].
  destruct (stepUnits u =? 0) eqn:?, (tokenUnits u =? 0) eqn:?, (providerCallUnits u =? 0) eqn:?,
    (costMinorUnits u =? 0) eqn:?; try done; bsplit; lia.
Qed.

(** The writes of a claim that fits and bears no cost. *)
Lemma reserve_write_granted clk newId i db l :
  Inv db -> ledgers db !! ri_ledgerId i = Some l -> lg_tenantId l = ri_tenantId i ->
  reserve_where clk i l = Ok true ->
  validateUnits (ri_units i) = Ok tt -> total_units (ri_units i) <= 2147483647 ->
  providerCallUnits (ri_units i) = 0 -> costMinorUnits (ri_units i) = 0 ->
  (forall d, used d l + reserved d l + units_of d (ri_units i) <= 2147483647) ->
  lg_version l < 2147483647 ->
  (forall k r, reservations db !! k = Some r -> by_key i r = false) ->
  reservations db !! newId = None ->
  let u := ri_units i in
  let l' := with_counters l (stepUsed l) (stepReserved l + stepUnits u)
    (tokenUsed l) (tokenReserved l + tokenUnits u) (providerCallUsed l)
    (providerCallReserved l + providerCallUnits u) (costUsedMinorUnits l)
    (costReservedMinorUnits l + costMinorUnits u) in
  let r := new_reservation newId i None in
  reserve_write clk newId i db =
    (Ok (receipt clk r l' false), put_reservation r (put_ledger l' db)).
Proof.
  intros HI Hl Ht Hw Hv Htot Hpc Hcost Hmax Hver Hnew Hid u l' r.
  pose proof (validateUnits_Ok _ _ Hv) as Hu.
  pose proof (inv_ledgers _ HI _ _ Hl) as [Hlid Hc Hres Hused Hwin].
  pose proof (proj2 (ledger_checks_Ok _ _ Hc)) as Hpos. unfold reserve_write.
  rewrite (bind_run _ _ db (Some l') (put_ledger l' db)).
  2: { apply (update_ledger_total _ _ _ _ _ l); [done|done|done|].
       pose proof (Hpos Steps). pose proof (Hpos Tokens). pose proof (Hpos Calls).
       pose proof (Hpos Cost). pose proof (Hu Steps). pose proof (Hu Tokens).
       pose proof (Hmax Steps). pose proof (Hmax Tokens). pose proof (Hmax Calls).
       pose proof (Hmax Cost). simpl in * |-. subst u.
       apply set_counters_total; [done|done|lia..]. }
  unfold reserveTenantAggregate. rewrite Hpc, Hcost. cbn [Z.eqb andb].
  rewrite (bind_run _ _ _ None (put_ledger l' db)) by done.
  rewrite (bind_run _ _ _ r (put_reservation r (put_ledger l' db))); [done|].
  apply insert_reservation_total; simpl; [done| |].
  - intros k x Hx El Ek. destruct (row_ledger _ _ (inv_rows _ HI _ _ Hx)) as (lx & Hlx & Htx).
    rewrite El, Hl in Hlx. simplify_eq. specialize (Hnew _ _ Hx). unfold by_key in Hnew.
    by rewrite El, Ek, <- Htx, Ht, !String.eqb_refl in Hnew.
  - apply reservation_checks_total; simpl; [apply (fun d => proj1 (Hu d))| |done].
    split; [by apply validateUnits_pos|done].
Qed.

(** What [reserve] decides about work that bears no provider cost.  For a
    first claim of steps and tokens against an existing ledger of the tenant,
    with no other transaction in between, [reserve] grants exactly when the
    expected version is current, the ledger is open, the deadline is ahead and
    every dimension fits; then the claimed units, and only they, move to
    reserved.  Otherwise it throws the code that names the reason and the
    database is unchanged. *)
Theorem reserve_decides clk newId i db l :
  reachable db -> ledgers db !! ri_ledgerId i = Some l -> lg_tenantId l = ri_tenantId i ->
  validateUnits (ri_units i) = Ok tt -> total_units (ri_units i) <= 2147483647 ->
  providerCallUnits (ri_units i) = 0 -> costMinorUnits (ri_units i) = 0 ->
  (forall d, used d l + reserved d l + units_of d (ri_units i) <= 2147483647) ->
  lg_version l < 2147483647 ->
  ri_idempotencyKey i <> "" -> (String.length (ri_idempotencyKey i) <= 200)%nat ->
  (forall k r, reservations db !! k = Some r -> by_key i r = false) ->
  reservations db !! newId = None ->
  if grantable clk i l
  then exists rc db' l', reserve clk (fun d => d) newId i db = (Ok rc, db') /\
    rc_replayed rc = false /\ rc_status rc = Reserved /\
    ledgers db' = <[ri_ledgerId i := l']> (ledgers db) /\ usage db' = usage db /\
    lg_version l' = lg_version l + 1 /\
    forall d, reserved d l' = reserved d l + units_of d (ri_units i) /\ used d l' = used d l
  else exists msg, reserve clk (fun d => d) newId i db =
    (Err (AgentBudgetError (denial clk i l) msg), db).
Proof.
  intros HI%reachable_Inv Hl Ht Hv Htot Hpc Hcost Hmax Hver Hne Hlen Hnew Hid.
  pose proof (validateUnits_Ok _ _ Hv) as Hu. rewrite reserve_first by done.
  pose proof (reserve_where_total clk i db _ l HI Hl (fun d => proj1 (Hu d)) Hmax) as Hw.
  unfold catch, transaction. destruct (grantable clk i l) eqn:Eg.
  - rewrite (reserve_write_granted clk newId i db l) by done.
    eexists _, _, _. split_and!; [done..| |done| |].
    + simpl. by rewrite (ledger_id _ _ _ (inv_ledgers _ HI _ _ Hl)).
    + done.
    + by intros [].
  - unfold reserve_write. rewrite (bind_run _ _ db None db) by (by eapply update_ledger_denied).
    destruct (throwReservationFailure_code clk i db l) as [msg ->]; [|by exists msg].
    unfold find_ledger. by rewrite Hl, Ht, String.eqb_refl.
Qed.

Lemma reserveTenantAggregate_unconfigured clk t c units db w db' :
  (forall tn, tenants db !! t = Some tn ->
     agentMonthlyProviderCallLimit tn = None \/ agentMonthlyCostLimitMinorUnits tn = None \/
     agentBudgetCurrency tn = None) ->
  0 < providerCallUnits units \/ 0 < costMinorUnits units ->
  reserveTenantAggregate clk t c units db = (Ok w, db') -> False.
Proof.
  intros Hcfg Hcost H. unfold reserveTenantAggregate in H.
  rewrite (proj2 (andb_false_iff _ _)) in H by (destruct Hcost; [left|right]; lia).
  apply bind_Ok in H as ([] & db1 & Hins & H).
  assert (Et : tenants db1 = tenants db).
  { unfold insert_usage_row, modify in Hins. injection Hins as <-. by repeat case_match. }
  unfold mbind, M_bind, gets in H. rewrite Et in H.
  destruct (tenants db !! t) as [tn|] eqn:Etn; [|done].
  destruct (usage _ !! _) as [u|]; [|done].
  assert (reserve_usage_where tn u c units = Ok false) as Hw.
  { unfold reserve_usage_where. destruct (Hcfg tn eq_refl) as [E|[E|E]]; rewrite E;
      by repeat case_match. }
  unfold lift in H. by rewrite Hw in H.
Qed.

(** Cost-bearing work is fail-closed.  For a tenant without a complete
    monthly configuration (provider-call limit, cost limit and currency), a
    first claim of provider calls or cost always throws, whatever other
    transactions commit meanwhile, and leaves only their work behind. *)
Theorem cost_bearing_work_is_fail_closed clk newId i db db1 :
  reachable db -> steps db db1 ->
  (forall t, tenants db !! ri_tenantId i = Some t ->
     agentMonthlyProviderCallLimit t = None \/ agentMonthlyCostLimitMinorUnits t = None \/
     agentBudgetCurrency t = None) ->
  0 < providerCallUnits (ri_units i) \/ 0 < costMinorUnits (ri_units i) ->
  (forall k r, reservations db1 !! k = Some r -> by_key i r = false) ->
  exists e db', reserve clk (fun _ => db1) newId i db = (Err e, db') /\ (db' = db \/ db' = db1).
Proof.
  intros HI%reachable_Inv Hs Hcfg Hcost Hnew.
  destruct (steps_evolve _ _ Hs HI) as [HI1 [_ _ Et]].
  assert (Hno : forall x db', reserve_write clk newId i db1 <> (Ok x, db')).
  { intros x db' Hw. unfold reserve_write in Hw. apply bind_Ok in Hw as (o & db2 & Hup & Hw).
    apply update_ledger_Ok in Hup. destruct o as [l|].
    2: { unfold throwReservationFailure in Hw. minv. case_all. }
    destruct Hup as (l0 & _ & _ & _ & _ & -> & _). apply bind_Ok in Hw as (w & db3 & Hagg & _).
    apply reserveTenantAggregate_unconfigured in Hagg; try done. simpl. by rewrite Et. }
  destruct (reserve clk (fun _ => db1) newId i db) as [[rc|e] db'] eqn:E.
  - pose proof (reserve_backed _ _ _ _ _ _ _ HI HI1 E) as Hb.
    apply reserve_state in E as [->|[->|[x Hw]]]; [| |by destruct (Hno _ _ Hw)].
    + destruct (backed_steps _ _ _ _ HI Hs Hb) as (r & Hr & Hk & _).
      by rewrite (Hnew _ _ Hr) in Hk.
    + destruct Hb as (r & Hr & Hk & _). by rewrite (Hnew _ _ Hr) in Hk.
  - exists e, db'. split; [done|].
    apply reserve_state in E as [->|[->|[x Hw]]]; [by left|by right|by destruct (Hno _ _ Hw)].
Qed.

(** A retried run cannot reset its budget.  When the run already has a
    ledger row, [createOrLoad] writes nothing, whatever limits, start and
    deadline the retry asks for: it returns the snapshot of the existing row,
    consumption and first deadline included, or refuses the retry because its
    case, limits or currency differ. *)
Theorem createOrLoad_never_resets clk newId i db k l :
  reachable db -> ledgers db !! k = Some l ->
  lg_tenantId l = in_tenantId i -> lg_workflowRunId l = in_workflowRunId i ->
  (createOrLoad clk newId i db).2 = db /\
  forall sn, (createOrLoad clk newId i db).1 = Ok sn ->
    sn = snapshot clk l /\ lg_caseId l = in_caseId i /\
    forall d, limit d l = limit d (new_ledger newId i).
Proof.
  intros HI%reachable_Inv Hl Ht Hr.
  assert (Hf : find_row (by_workflow (in_tenantId i) (in_workflowRunId i)) (ledgers db) = Some l).
  { destruct (find_row _ _) as [x|] eqn:E.
    - apply find_row_Some in E as (E & k' & Hx). unfold by_workflow in E. bsplit.
      assert (k' = k) as -> by (eapply (inv_runs _ HI); eauto; congruence). congruence.
    - pose proof (find_row_None _ _ _ _ E Hl) as E'. unfold by_workflow in E'.
      by rewrite Ht, Hr, !String.eqb_refl in E'. }
  unfold createOrLoad, mbind, M_bind, lift, transaction, insert_or_find_ledger, gets.
  destruct (validateLedgerInput i); [|done]. unfold mbind, M_bind. rewrite Hf. simpl.
  destruct (assertSameLedgerConfiguration l i) eqn:Ea; [|done]. split; [done|].
  intros sn [= <-]. split; [done|]. unfold assertSameLedgerConfiguration in Ea.
  case_match; [done|]. bsplit. split; [done|]. by intros [].
Qed.

(** ** A concrete history

    One tenant with a monthly budget of 3 provider calls and 500 minor units;
    a run with 2 steps, one of them reserved and later outcome-unknown. *)

Definition acme : Tenant :=
  {| agentRunStepBudgetOverride := None; agentRunDurationBudgetMsOverride := None;
     agentMonthlyProviderCallLimit := Some 3; agentMonthlyCostLimitMinorUnits := Some 500;
     agentBudgetCurrency := Some "USD" |}.
Definition tenants0 : gmap string Tenant := {[ "acme" := acme ]}.
Definition clock0 : Clock := {| b_now := 1000; b_date := 1000 |}.
Definition run0 : AgentBudgetLedgerInput :=
  {| in_tenantId := "acme"; in_caseId := "case"; in_workflowRunId := "run";
     in_stepLimit := 2; in_tokenLimit := 0; in_providerCallLimit := 2;
     in_costLimitMinorUnits := 400; in_currency := "USD";
     in_startedAt := 1000; in_deadlineAt := 76000 |}.
Definition claim (key : string) (v steps calls cost : Z) : ReserveInput :=
  {| ri_tenantId := "acme"; ri_ledgerId := "L"; ri_idempotencyKey := key;
     ri_expectedVersion := v;
     ri_units := {| stepUnits := steps; tokenUnits := 0; providerCallUnits := calls;
                    costMinorUnits := cost |} |}.
Definition db0 : DB := (createOrLoad clock0 "L" run0 (initial tenants0)).2.
Definition db1 : DB := (reserve clock0 (fun _ => db0) "R1" (claim "k1" 1 1 1 200) db0).2.
Definition db2 : DB := (markUnknown clock0 "acme" "R1" db1).2.
Definition manual : CommitInput :=
  {| ci_tenantId := "acme"; ci_reservationId := "R1"; ci_actualCostMinorUnits := Some 150;
     ci_requireUnknown := true; ci_resolvedBy := Some "reviewer";
     ci_resolutionNote := Some "provider invoice 17" |}.
Definition db3 : DB := (commit clock0 manual db2).2.

Lemma limits_ok0 : limits_ok tenants0.
Proof.
  unfold tenants0. intros k t d lim Ht Hl. apply lookup_singleton_Some in Ht as [_ <-].
  destruct d; simplify_eq/=; lia.
Qed.

Lemma history1 : steps (initial tenants0) db1.
Proof.
  eapply steps_cons; [apply (step_createOrLoad clock0 "L" run0)|].
  eapply steps_cons; [apply (step_reserve clock0 "R1" (claim "k1" 1 1 1 200)); apply steps_refl|].
  apply steps_refl.
Qed.

Lemma history2 : steps db1 db2.
Proof. eapply steps_cons; [apply step_markUnknown|apply steps_refl]. Qed.

Lemma history3 : steps db2 db3.
Proof. eapply steps_cons; [apply step_commit|apply steps_refl]. Qed.

Lemma steps_app a b c : steps a b -> steps b c -> steps a c.
Proof. induction 1; eauto using steps_cons. Qed.

Lemma reachable0 : reachable db0.
Proof.
  exists tenants0. split; [apply limits_ok0|].
  eapply steps_cons; [apply (step_createOrLoad clock0 "L" run0)|apply steps_refl].
Qed.

Lemma reachable1 : reachable db1.
Proof. exists tenants0. split; [apply limits_ok0|apply history1]. Qed.

Lemma reachable2 : reachable db2.
Proof.
  exists tenants0. split; [apply limits_ok0|].
  eapply steps_app; [apply history1|apply history2].
Qed.

Lemma reachable3 : reachable db3.
Proof.
  exists tenants0. split; [apply limits_ok0|].
  eapply steps_app; [|apply history3]. eapply steps_app; [apply history1|apply history2].
Qed.

Lemma budget_never_overspent_witness :
  (used Cost <$> ledgers db3 !! "L") = Some 150 /\
  (reserved Cost <$> ledgers db3 !! "L") = Some 0 /\
  forall l, ledgers db3 !! "L" = Some l -> used Cost l + reserved Cost l <= limit Cost l.
Proof.
  split; [vm_compute; reflexivity|]. split; [vm_compute; reflexivity|]. intros l Hl.
  apply (proj1 (budget_never_overspent db3 reachable3) "L" l Cost Hl).
Defined.

Lemma resolved_reservation_is_final_witness :
  exists r, reservations db3 !! "R1" = Some r /\ rs_status r = Committed /\
    reservations (release clock0 "acme" "R1" None db3).2 !! "R1" = Some r.
Proof.
  eexists. split; [reflexivity|]. split; [reflexivity|].
  eapply (resolved_reservation_is_final db3); [apply reachable3| |reflexivity|reflexivity].
  eapply steps_cons; [apply step_release|apply steps_refl].
Defined.

Lemma ledger_terms_are_fixed_witness :
  exists l l', ledgers db1 !! "L" = Some l /\ ledgers db2 !! "L" = Some l' /\
    lg_deadlineAt l' = lg_deadlineAt l.
Proof.
  destruct (ledgers db1 !! "L") as [l|] eqn:El; [|vm_compute in El; discriminate El].
  destruct (ledger_terms_are_fixed db1 db2 "L" l reachable1 history2 El)
    as (l' & Hl' & _ & _ & _ & Hd & _).
  exists l, l'. auto.
Defined.

Lemma reserve_is_idempotent_witness :
  exists rc', reserve clock0 (fun d => d) "R9" (claim "k1" 7 1 1 200) db2 = (Ok rc', db2) /\
    rc_reservationId rc' = "R1" /\ rc_replayed rc' = true.
Proof.
  destruct (reserve clock0 (fun _ => db0) "R1" (claim "k1" 1 1 1 200) db0) as [o db'] eqn:E.
  assert (db' = db1) as -> by (unfold db1; rewrite E; reflexivity).
  destruct o as [rc|e]; [|vm_compute in E; discriminate E].
  assert (rc_reservationId rc = "R1") as Hid by (vm_compute in E; injection E; intros; subst; reflexivity).
  destruct (reserve_is_idempotent clock0 db0 db0 "R1" (claim "k1" 1 1 1 200) rc db1 db2
    clock0 (fun d => d) "R9" (claim "k1" 7 1 1 200) reachable0 (steps_refl _) E history2
    eq_refl eq_refl eq_refl eq_refl) as (rc' & H1 & H2 & H3 & _).
  exists rc'. rewrite Hid in H2. auto.
Defined.

Lemma open_reservation_can_be_resolved_witness :
  exists r l, reservations db2 !! "R1" = Some r /\ ledgers db2 !! "L" = Some l /\
    exists rc db', release clock0 "acme" "R1" None db2 = (Ok rc, db') /\ rc_status rc = Released.
Proof.
  destruct (reservations db2 !! "R1") as [r|] eqn:Er; [|vm_compute in Er; discriminate Er].
  destruct (ledgers db2 !! "L") as [l|] eqn:El; [|vm_compute in El; discriminate El].
  exists r, l. split; [reflexivity|]. split; [reflexivity|].
  pose proof Er as Er'. vm_compute in Er'. injection Er' as Er'.
  pose proof El as El'. vm_compute in El'. injection El' as El'.
  assert (Et : rs_tenantId r = "acme") by (rewrite <- Er'; reflexivity).
  rewrite <- Et.
  apply (open_reservation_can_be_resolved clock0 db2 "R1" r l 200 reachable2 Er).
  - rewrite <- Er'. reflexivity.
  - rewrite <- El, <- Er'. reflexivity.
  - rewrite <- El'. simpl. lia.
  - rewrite <- Er'. simpl. lia.
Defined.

Lemma unknown_outcome_needs_a_reviewer_witness :
  exists r', reservations db3 !! "R1" = Some r' /\ rs_status r' = Committed /\
    rs_resolvedBy r' = Some "reviewer".
Proof.
  destruct (commit clock0 manual db2) as [o db'] eqn:E.
  assert (db' = db3) as -> by (unfold db3; rewrite E; reflexivity).
  destruct o as [rc|e]; [|vm_compute in E; discriminate E].
  destruct (proj2 (unknown_outcome_needs_a_reviewer clock0 manual db2 rc db3 reachable2)
    eq_refl E) as (r & r' & who & note & _ & _ & H & Hs & Hw & _).
  exists r'. split; [exact H|]. split; [exact Hs|].
  vm_compute in H. injection H as <-. reflexivity.
Defined.

Lemma reserve_decides_witness :
  exists rc db', reserve clock0 (fun d => d) "R1" (claim "k1" 1 2 0 0) db0 = (Ok rc, db') /\
    rc_replayed rc = false.
Proof.
  destruct (ledgers db0 !! "L") as [l|] eqn:El; [|vm_compute in El; discriminate El].
  pose proof El as El'. vm_compute in El'. injection El' as El'.
  pose proof (reserve_decides clock0 "R1" (claim "k1" 1 2 0 0) db0 l reachable0 El) as H.
  rewrite <- El' in H. simpl in H.
  destruct H as (rc & db' & l' & H & Hr & _); try reflexivity; try done; try lia.
  - intros []; simpl; lia.
  - exists rc, db'. auto.
Defined.

Definition bare : Tenant :=
  {| agentRunStepBudgetOverride := None; agentRunDurationBudgetMsOverride := None;
     agentMonthlyProviderCallLimit := None; agentMonthlyCostLimitMinorUnits := None;
     agentBudgetCurrency := None |}.
Definition db_bare : DB :=
  (createOrLoad clock0 "L" run0 (initial {[ "acme" := bare ]})).2.

Lemma reachable_bare : reachable db_bare.
Proof.
  eexists. split; [|eapply steps_cons; [apply (step_createOrLoad clock0 "L" run0)|apply steps_refl]].
  intros k t d lim Ht Hl. apply lookup_singleton_Some in Ht as [_ <-]. by destruct d.
Qed.

Lemma cost_bearing_work_is_fail_closed_witness :
  exists e db', reserve clock0 (fun _ => db_bare) "R1" (claim "k1" 1 1 1 0) db_bare = (Err e, db').
Proof.
  destruct (cost_bearing_work_is_fail_closed clock0 "R1" (claim "k1" 1 1 1 0) db_bare db_bare)
    as (e & db' & H & _).
  - apply reachable_bare.
  - apply steps_refl.
  - intros t Ht. vm_compute in Ht. injection Ht as <-. left. reflexivity.
  - left. reflexivity.
  - intros k r Hr. discriminate Hr.
  - exists e, db'. exact H.
Defined.

Lemma createOrLoad_never_resets_witness :
  exists l, ledgers db1 !! "L" = Some l /\ stepReserved l = 1 /\
    (createOrLoad {| b_now := 90000; b_date := 90000 |} "L2" run0 db1).2 = db1.
Proof.
  destruct (ledgers db1 !! "L") as [l|] eqn:El; [|vm_compute in El; discriminate El].
  pose proof El as El'. vm_compute in El'. injection El' as El'. exists l. split; [reflexivity|].
  split; [rewrite <- El'; reflexivity|].
  apply (createOrLoad_never_resets _ "L2" run0 db1 "L" l reachable1 El);
    rewrite <- El'; reflexivity.
Defined.

End BudgetTheorems.
