(* ===== verification/PolicyDsl.v ===== *)
(** * The policy rule language

    policy/dsl: [parsePolicyRule] turns an untyped document into a
    [PolicyRuleDocument], collecting the problems it meets, and
    [evaluatePolicyRule] decides a parsed rule on a fact context.

    Numbers are IEEE 754 binary64 values ([spec_float] with the operations at
    precision 53 and maximal exponent 1024).  An object is the list of its
    own enumerable properties.  [Date.parse] is implementation-defined on
    most strings, so whether a string parses is a parameter. *)

From Stdlib Require Import Ascii SpecFloat.
From stdpp Require Import gmap strings list pretty.
From S2P Require Import Prelude.

Module Dsl.

(** ** Untyped values *)

Inductive value :=
| VUndefined
| VNull
| VBool (b : bool)
| VNumber (x : spec_float)
| VString (s : string)
| VArray (vs : list value)
| VObject (props : list (string * value)).

(** [obj.key] on own properties. *)
Fixpoint get (props : list (string * value)) (key : string) : value :=
  match props with
  | [] => VUndefined
  | (k, v) :: props' => if String.eqb k key then v else get props' key
  end.

Definition isFinite (x : spec_float) : bool :=
  match x with S754_infinity _ | S754_nan => false | _ => true end.

(** ** Documents *)

Record PolicyRuleApplicability := {
  jurisdictions : list string;
  product : string;
  lifecycleEvents : list string;
  effectiveFrom : string;
  transitionRule : option string }.

Inductive PolicyRuleCondition :=
| difference_percent (left right : string) (greaterThan : spec_float).

Record PolicyRuleOutcome := { oc_condition : string; oc_route : string }.

Record PolicyRuleDocument := {
  doc_id : string;
  doc_version : string;
  doc_applicability : PolicyRuleApplicability;
  doc_when : PolicyRuleCondition;
  doc_outcome : PolicyRuleOutcome }.

Record PolicyDslIssue := { path : string; message : string }.

(** ** The parser

    [issues.push] appends to the list all the functions share: each takes the
    list so far and returns it extended. *)

Definition push (p m : string) (issues : list PolicyDslIssue) : list PolicyDslIssue :=
  issues ++ [{| path := p; message := m |}].

(** A string in double quotes. *)
Definition quoted (s : string) : string :=
  String "034" s +:+ String "034" EmptyString.

Definition parser (A : Type) : Type :=
  list PolicyDslIssue -> option A * list PolicyDslIssue.

Definition requireString (v : value) (p : string) : parser string := fun issues =>
  match v with
  | VString s =>
      if JS.nonblank s then (Some s, issues)
      else (None, push p "must be a non-empty string" issues)
  | _ => (None, push p "must be a non-empty string" issues)
  end.

(** [value === undefined ? undefined : requireString(value, path, issues)] *)
Definition optionalString (v : value) (p : string) : parser string := fun issues =>
  match v with
  | VUndefined => (None, issues)
  | _ => requireString v p issues
  end.

Definition as_string (v : value) : option string :=
  match v with VString s => Some s | _ => None end.

Definition requireStringArray (v : value) (p : string) : parser (list string) := fun issues =>
  match v with
  | VArray (x :: xs) =>
      let vs := x :: xs in
      if forallb (fun v => match v with VString s => JS.nonblank s | _ => false end) vs
      then (mapM as_string vs, issues)
      else (None, push p "every element must be a non-empty string" issues)
  | _ => (None, push p "must be a non-empty array of strings" issues)
  end.

(** [/^\d+\.\d+\.\d+$/] *)
Definition is_digit (c : Ascii.ascii) : bool :=
  let n := Ascii.nat_of_ascii c in ((48 <=? n) && (n <=? 57))%nat.
Definition digits (s : string) : bool :=
  JS.truthy s && forallb is_digit (String.list_ascii_of_string s).
Definition SEMVER_PATTERN (s : string) : bool :=
  match JS.split_on "."%char s with
  | [a; b; c] => digits a && digits b && digits c
  | _ => false
  end.

Definition requireSemver (v : value) (p : string) : parser string := fun issues =>
  match v with
  | VString s =>
      if SEMVER_PATTERN s then (Some s, issues)
      else (None, push p ("must be a semver string, e.g. " +:+ quoted "1.0.0") issues)
  | _ => (None, push p ("must be a semver string, e.g. " +:+ quoted "1.0.0") issues)
  end.

Definition requireFiniteNumber (v : value) (p : string) : parser spec_float := fun issues =>
  match v with
  | VNumber x =>
      if isFinite x then (Some x, issues) else (None, push p "must be a finite number" issues)
  | _ => (None, push p "must be a finite number" issues)
  end.

Section Parser.
(** [!Number.isNaN(Date.parse(s))] *)
Context (parses_as_date : string -> bool).

Definition requireIsoDate (v : value) (p : string) : parser string := fun issues =>
  match v with
  | VString s =>
      if parses_as_date s then (Some s, issues)
      else (None, push p "must be an ISO 8601 date-time string" issues)
  | _ => (None, push p "must be an ISO 8601 date-time string" issues)
  end.

Definition parseApplicability (raw : value) : parser PolicyRuleApplicability := fun issues =>
  match raw with
  | VObject o =>
      let '(js, issues) :=
        requireStringArray (get o "jurisdictions") "rule.applicability.jurisdictions" issues in
      let '(pr, issues) := requireString (get o "product") "rule.applicability.product" issues in
      let '(ev, issues) :=
        requireStringArray (get o "lifecycle_events") "rule.applicability.lifecycle_events" issues in
      let '(ef, issues) :=
        requireIsoDate (get o "effective_from") "rule.applicability.effective_from" issues in
      let '(tr, issues) :=
        optionalString (get o "transition_rule") "rule.applicability.transition_rule" issues in
      match js, pr, ev, ef with
      | Some js, Some pr, Some ev, Some ef =>
          if JS.truthy pr && JS.truthy ef then
            (Some {| jurisdictions := js; product := pr; lifecycleEvents := ev;
                     effectiveFrom := ef; transitionRule := tr |}, issues)
          else (None, issues)
      | _, _, _, _ => (None, issues)
      end
  | _ => (None, push "rule.applicability" "must be an object" issues)
  end.

Definition parseWhen (raw : value) : parser PolicyRuleCondition := fun issues =>
  match raw with
  | VObject o =>
      match o with
      | [(operator, body)] =>
          if negb (String.eqb operator "difference_percent") then
            (None, push "rule.when"
               ("unrecognized condition operator " +:+ quoted operator) issues)
          else
            match body with
            | VObject b =>
                let '(l, issues) :=
                  requireString (get b "left") "rule.when.difference_percent.left" issues in
                let '(r, issues) :=
                  requireString (get b "right") "rule.when.difference_percent.right" issues in
                let '(g, issues) :=
                  requireFiniteNumber (get b "greater_than")
                    "rule.when.difference_percent.greater_than" issues in
                match l, r, g with
                | Some l, Some r, Some g =>
                    if JS.truthy l && JS.truthy r
                    then (Some (difference_percent l r g), issues) else (None, issues)
                | _, _, _ => (None, issues)
                end
            | _ => (None, push "rule.when.difference_percent" "must be an object" issues)
            end
      | _ => (None, push "rule.when" "must have exactly one condition operator key" issues)
      end
  | _ => (None, push "rule.when" "must be an object" issues)
  end.

Definition parseOutcome (raw : value) : parser PolicyRuleOutcome := fun issues =>
  match raw with
  | VObject o =>
      let '(c, issues) := requireString (get o "condition") "rule.outcome.condition" issues in
      let '(r, issues) := requireString (get o "route") "rule.outcome.route" issues in
      match c, r with
      | Some c, Some r =>
          if JS.truthy c && JS.truthy r
          then (Some {| oc_condition := c; oc_route := r |}, issues) else (None, issues)
      | _, _ => (None, issues)
      end
  | _ => (None, push "rule.outcome" "must be an object" issues)
  end.

(** [PolicyDslValidationError] carries the issues. *)
Definition parsePolicyRule (raw : value) : result (list PolicyDslIssue) PolicyRuleDocument :=
  match raw with
  | VObject top =>
      match get top "rule" with
      | VObject ruleRaw =>
          let '(id, issues) := requireString (get ruleRaw "id") "rule.id" [] in
          let '(version, issues) :=
            requireSemver (get ruleRaw "version") "rule.version" issues in
          let '(applicability, issues) := parseApplicability (get ruleRaw "applicability") issues in
          let '(when, issues) := parseWhen (get ruleRaw "when") issues in
          let '(outcome, issues) := parseOutcome (get ruleRaw "outcome") issues in
          match id, version, applicability, when, outcome with
          | Some id, Some version, Some applicability, Some when, Some outcome =>
              if JS.truthy id && JS.truthy version then
                Ok {| doc_id := id; doc_version := version; doc_applicability := applicability;
                      doc_when := when; doc_outcome := outcome |}
              else Err issues
          | _, _, _, _, _ => Err issues
          end
      | _ => Err [{| path := "rule"; message := "must be an object with a " +:+ quoted "rule" +:+ " key" |}]
      end
  | _ => Err [{| path := "rule"; message := "must be an object with a " +:+ quoted "rule" +:+ " key" |}]
  end.
End Parser.

(** ** The evaluator *)

Record PolicyFactContext := {
  application : list (string * value);
  evidence : list (string * value) }.

(** [Math.abs(right - left) / Math.abs(left)) * 100], in binary64. *)
Definition f64_sub : spec_float -> spec_float -> spec_float := SFsub 53 1024.
Definition f64_div : spec_float -> spec_float -> spec_float := SFdiv 53 1024.
Definition f64_mul : spec_float -> spec_float -> spec_float := SFmul 53 1024.
Definition f64_of_Z (z : Z) : spec_float := binary_normalize 53 1024 z 0 false.
Arguments f64_of_Z : simpl never.

(** The decimal index a property name of an array denotes, if it does. *)
Definition array_index (s : string) (n : nat) : option nat :=
  list_find (fun k => pretty k = s) (seq 0 n) ≫= fun p => Some p.2.

(** [segment in current ? current[segment] : absent].  What an object or an
    array inherits is a function, which neither is a number nor is navigated
    further, except for the prototypes themselves: only the one of an array
    has a numeric property. *)
Definition property (v : value) (segment : string) : option value :=
  match v with
  | VObject o =>
      if existsb (fun kv => String.eqb kv.1 segment) o then Some (get o segment) else None
  | VArray vs =>
      if String.eqb segment "length" then Some (VNumber (f64_of_Z (Z.of_nat (length vs))))
      else if String.eqb segment "__proto__"
      then Some (VObject [("length", VNumber (S754_zero false))])
      else array_index segment (length vs) ≫= fun i => vs !! i
  | _ => None
  end.

Fixpoint navigate (v : value) (segments : list string) : option value :=
  match segments with
  | [] => Some v
  | s :: segments' => property v s ≫= fun v' => navigate v' segments'
  end.

Definition context_value (c : PolicyFactContext) : value :=
  VObject [("application", VObject (application c)); ("evidence", VObject (evidence c))].

Definition resolveFactPath (c : PolicyFactContext) (path : string) : option spec_float :=
  match navigate (context_value c) (JS.split_on "."%char path) with
  | Some (VNumber x) => if isFinite x then Some x else None
  | _ => None
  end.

(** The trace of an evaluation, before it is formatted as text. *)
Inductive Reason :=
| MissingFacts (left right : string)
| ZeroBase (left : string)
| Compared (left : string) (l : spec_float) (right : string) (r : spec_float)
    (differencePercent : spec_float) (matched : bool) (greaterThan : spec_float).

Definition differencePercent (l r : spec_float) : spec_float :=
  f64_mul (f64_div (SFabs (f64_sub r l)) (SFabs l)) (f64_of_Z 100).

Definition evaluateCondition (cond : PolicyRuleCondition) (c : PolicyFactContext)
  : bool * Reason :=
  match cond with
  | difference_percent lf rt greaterThan =>
      match resolveFactPath c lf, resolveFactPath c rt with
      | Some l, Some r =>
          if SFeqb l (S754_zero false) then (false, ZeroBase lf)
          else
            let d := differencePercent l r in
            let matched := SFltb greaterThan d in
            (matched, Compared lf l rt r d matched greaterThan)
      | _, _ => (false, MissingFacts lf rt)
      end
  end.

Record PolicyEvaluationOutcome := {
  ev_matched : bool;
  ev_condition : option string;
  ev_route : option string;
  ev_reason : Reason }.

Definition evaluatePolicyRule (rule : PolicyRuleDocument) (c : PolicyFactContext)
  : PolicyEvaluationOutcome :=
  let '(matched, reason) := evaluateCondition (doc_when rule) c in
  if negb matched
  then {| ev_matched := false; ev_condition := None; ev_route := None; ev_reason := reason |}
  else {| ev_matched := true; ev_condition := Some (oc_condition (doc_outcome rule));
          ev_route := Some (oc_route (doc_outcome rule)); ev_reason := reason |}.

(** ** Well-formed documents

    What a document has to look like for [parsePolicyRule] to accept it. *)

Definition is_text (v : value) (s : string) : Prop := v = VString s /\ JS.nonblank s = true.
Definition is_texts (v : value) (ss : list string) : Prop :=
  v = VArray (VString <$> ss) /\ ss <> [] /\ Forall (fun s => JS.nonblank s = true) ss.

(** A transition rule that is not a non-blank text counts as absent. *)
Definition transition_of (v : value) : option string :=
  match v with VString s => if JS.nonblank s then Some s else None | _ => None end.

Section WellFormed.
Context (parses_as_date : string -> bool).

Record applicability_of (o : list (string * value)) (a : PolicyRuleApplicability) : Prop := {
  ap_jurisdictions : is_texts (get o "jurisdictions") (jurisdictions a);
  ap_product : is_text (get o "product") (product a);
  ap_events : is_texts (get o "lifecycle_events") (lifecycleEvents a);
  ap_from : get o "effective_from" = VString (effectiveFrom a) /\
            parses_as_date (effectiveFrom a) = true /\ effectiveFrom a <> "";
  ap_transition : transitionRule a = transition_of (get o "transition_rule") }.

Definition condition_of (v : value) (c : PolicyRuleCondition) : Prop :=
  match c with
  | difference_percent lf rt g => exists b,
      v = VObject [("difference_percent", VObject b)] /\
      is_text (get b "left") lf /\ is_text (get b "right") rt /\
      get b "greater_than" = VNumber g /\ isFinite g = true
  end.

Record document_of (raw : value) (d : PolicyRuleDocument) : Prop := {
  wf_rule : exists top rule, raw = VObject top /\ get top "rule" = VObject rule /\
    is_text (get rule "id") (doc_id d) /\
    get rule "version" = VString (doc_version d) /\ SEMVER_PATTERN (doc_version d) = true /\
    (exists a, get rule "applicability" = VObject a /\ applicability_of a (doc_applicability d)) /\
    condition_of (get rule "when") (doc_when d) /\
    exists o, get rule "outcome" = VObject o /\
      is_text (get o "condition") (oc_condition (doc_outcome d)) /\
      is_text (get o "route") (oc_route (doc_outcome d)) }.
End WellFormed.

(** ** Parser lemmas *)

Lemma nonblank_truthy s : JS.nonblank s = true -> JS.truthy s = true.
Proof. by destruct s. Qed.

Lemma requireString_spec v p issues :
  (exists s, is_text v s /\ requireString v p issues = (Some s, issues)) \/
  ((forall s, ~ is_text v s) /\
   requireString v p issues = (None, push p "must be a non-empty string" issues)).
Proof.
  destruct v as [| | | |s| |]; try (right; split; [intros ? [? ?]; discriminate|done]).
  simpl. destruct (JS.nonblank s) eqn:E; [left; by exists s|right]. split; [|done].
  intros s' [? ?]. simplify_eq. congruence.
Qed.

Lemma mapM_as_string vs :
  forallb (fun v => match v with VString s => JS.nonblank s | _ => false end) vs = true ->
  exists ss, mapM as_string vs = Some ss /\ vs = VString <$> ss /\
    Forall (fun s => JS.nonblank s = true) ss.
Proof.
  induction vs as [|v vs IH]; simpl; intros H; [by exists []|].
  apply andb_true_iff in H as [Hv H]. destruct v; try done.
  destruct (IH H) as (ss & E & -> & HF). exists (s :: ss). simpl.
  rewrite E. simpl. split_and!; [done|done|by constructor].
Qed.

Lemma forallb_texts ss :
  Forall (fun s => JS.nonblank s = true) ss ->
  forallb (fun v => match v with VString s => JS.nonblank s | _ => false end) (VString <$> ss) = true.
Proof. induction 1; simpl; [done|]. by rewrite H. Qed.

Lemma requireStringArray_spec v p issues :
  (exists ss, is_texts v ss /\ requireStringArray v p issues = (Some ss, issues)) \/
  ((forall ss, ~ is_texts v ss) /\
   exists m, requireStringArray v p issues = (None, push p m issues)).
Proof.
  assert (Hno : (forall vs, v <> VArray vs) ->
    (forall ss, ~ is_texts v ss) /\ exists m, requireStringArray v p issues = (None, push p m issues)).
  { intros Hv. split; [intros ss [-> _]; by destruct (Hv (VString <$> ss))|].
    destruct v; simpl; eauto. by destruct (Hv vs). }
  destruct v as [| | | | |vs|]; try (right; by apply Hno). clear Hno.
  destruct vs as [|x xs].
  { right. split; [|by eexists]. intros [|] (? & ? & ?); done. }
  unfold requireStringArray. case_match eqn:E.
  - destruct (mapM_as_string _ E) as (ss & Em & Ev & HF). left. exists ss.
    split; [|by rewrite Em]. rewrite Ev. split_and!; [done| |done].
    destruct ss; [|done]. by rewrite Ev in E.
  - right. split; [|by eexists]. intros ss (Hv & _ & HF). injection Hv as Hv.
    rewrite Hv, forallb_texts in E; done.
Qed.

(** A parser for [R]: it extends the issue list, it succeeds exactly on what
    [R] accepts, and every failure records an issue under its prefix. *)
Definition parses {A} (R : A -> Prop) (prefix : string) (p : parser A) : Prop :=
  forall issues, exists extra,
    Forall (fun i => String.prefix prefix (path i) = true) extra /\
    ((exists a, R a /\ p issues = (Some a, issues ++ extra)) \/
     ((forall a, ~ R a) /\ extra <> [] /\ p issues = (None, issues ++ extra))).

Lemma parses_fail {A} (R : A -> Prop) prefix p m (f : parser A) :
  String.prefix prefix p = true -> (forall a, ~ R a) ->
  (forall issues, f issues = (None, push p m issues)) -> parses R prefix f.
Proof.
  intros Hp HR Hf issues. exists [{| path := p; message := m |}].
  split; [by repeat constructor|]. right. by rewrite Hf.
Qed.

Lemma parses_string v prefix p :
  String.prefix prefix p = true -> parses (is_text v) prefix (requireString v p).
Proof.
  intros Hp issues. destruct (requireString_spec v p issues) as [(s & Hs & ->)|[Hs ->]].
  - exists []. split; [done|]. left. exists s. by rewrite app_nil_r.
  - eexists [{| path := p; message := _ |}]. split; [by repeat constructor|]. right. by split_and!.
Qed.

Lemma parses_strings v prefix p :
  String.prefix prefix p = true -> parses (is_texts v) prefix (requireStringArray v p).
Proof.
  intros Hp issues. destruct (requireStringArray_spec v p issues) as [(s & Hs & ->)|[Hs [m ->]]].
  - exists []. split; [done|]. left. exists s. by rewrite app_nil_r.
  - eexists [{| path := p; message := _ |}]. split; [by repeat constructor|]. right. by split_and!.
Qed.

Lemma is_text_inj v s t : is_text v s -> is_text v t -> s = t.
Proof. intros [-> _] [? _]. by simplify_eq. Qed.

Lemma parses_outcome v :
  parses (fun oc => exists o, v = VObject o /\ is_text (get o "condition") (oc_condition oc) /\
            is_text (get o "route") (oc_route oc)) "rule.outcome" (parseOutcome v).
Proof.
  destruct v as [| | | | | |o]; try (eapply parses_fail; [..|done]; [done|by intros ? (? & ? & ?)]).
  intros issues. unfold parseOutcome.
  destruct (parses_string (get o "condition") "rule.outcome" "rule.outcome.condition" eq_refl issues)
    as (e1 & F1 & H1).
  destruct (parses_string (get o "route") "rule.outcome" "rule.outcome.route" eq_refl (issues ++ e1))
    as (e2 & F2 & H2).
  exists (e1 ++ e2). split; [by apply Forall_app|]. rewrite app_assoc.
  destruct H1 as [(c & Hc & ->)|(Hc & He & ->)];
    destruct H2 as [(r & Hr & ->)|(Hr & He2 & ->)].
  - left. exists {| oc_condition := c; oc_route := r |}.
    rewrite !nonblank_truthy by (apply Hc || apply Hr). split; [|done]. by exists o.
  - right. split_and!; [intros a (? & ? & ? & ?); naive_solver|rewrite app_nil; naive_solver|done].
  - right. split_and!; [intros a (? & ? & ? & ?); naive_solver|rewrite app_nil; naive_solver|done].
  - right. split_and!; [intros a (? & ? & ? & ?); naive_solver|rewrite app_nil; naive_solver|done].
Qed.

Lemma parses_number v prefix p :
  String.prefix prefix p = true ->
  parses (fun g => v = VNumber g /\ isFinite g = true) prefix (requireFiniteNumber v p).
Proof.
  intros Hp. destruct v as [| | |x| | |];
    try (eapply parses_fail; [done|by intros ? [? ?]|done]).
  destruct (isFinite x) eqn:E.
  - intros issues. exists []. split; [done|]. left. exists x. simpl. by rewrite E, app_nil_r.
  - eapply parses_fail; [done| |intros; simpl; by rewrite E]. intros g [? ?]. simplify_eq. congruence.
Qed.

Lemma parses_when v : parses (condition_of v) "rule.when" (parseWhen v).
Proof.
  destruct v as [| | | | | |o]; try (eapply parses_fail; [..|done]; [done|by intros [] (? & ? & _)]).
  destruct o as [|[op body] [|kv o]]; [eapply parses_fail; [..|done]; [done|by intros [] (? & ? & _)]| |
    eapply parses_fail; [..|done]; [done|by intros [] (? & ? & _)]].
  unfold parseWhen. destruct (String.eqb op "difference_percent") eqn:Eop; simpl.
  2: { eapply parses_fail; [..|done]; [done|]. bsplit. intros [] (? & ? & _). by simplify_eq. }
  bsplit. subst op.
  destruct body as [| | | | | |b]; try (eapply parses_fail; [..|done]; [done|by intros [] (? & ? & _)]).
  intros issues.
  destruct (parses_string (get b "left") "rule.when" "rule.when.difference_percent.left" eq_refl issues)
    as (e1 & F1 & H1).
  destruct (parses_string (get b "right") "rule.when" "rule.when.difference_percent.right" eq_refl
    (issues ++ e1)) as (e2 & F2 & H2).
  destruct (parses_number (get b "greater_than") "rule.when"
    "rule.when.difference_percent.greater_than" eq_refl ((issues ++ e1) ++ e2)) as (e3 & F3 & H3).
  exists (e1 ++ e2 ++ e3). split; [by rewrite !Forall_app|]. rewrite !app_assoc.
  destruct H1 as [(l & Hl & ->)|(Hl & He1 & ->)];
    destruct H2 as [(r & Hr & ->)|(Hr & He2 & ->)];
    destruct H3 as [(g & Hg & ->)|(Hg & He3 & ->)].
  { left. exists (difference_percent l r g).
    rewrite !nonblank_truthy by (apply Hl || apply Hr). split; [|done]. exists b. naive_solver. }
  all: right; split_and!; [intros [] (? & ? & ? & ? & ? & ?); naive_solver
    |rewrite !app_nil; naive_solver|done].
Qed.

Section Accepts.
Context (parses_as_date : string -> bool).

Lemma parses_date v prefix p :
  String.prefix prefix p = true ->
  parses (fun s => v = VString s /\ parses_as_date s = true) prefix
    (requireIsoDate parses_as_date v p).
Proof.
  intros Hp. destruct v as [| | | |s| |];
    try (eapply parses_fail; [done|by intros ? [? ?]|done]).
  destruct (parses_as_date s) eqn:E.
  - intros issues. exists []. split; [done|]. left. exists s. simpl. by rewrite E, app_nil_r.
  - eapply parses_fail; [done| |intros; simpl; by rewrite E]. intros g [? ?]. simplify_eq. congruence.
Qed.

(** An ill-formed transition rule leaves an issue behind and no value. *)
Lemma transition_run v issues :
  exists extra, Forall (fun i => String.prefix "rule.applicability" (path i) = true) extra /\
    optionalString v "rule.applicability.transition_rule" issues = (transition_of v, issues ++ extra).
Proof.
  assert (Hnil : exists extra : list PolicyDslIssue,
    Forall (fun i => String.prefix "rule.applicability" (path i) = true) extra /\
    issues = issues ++ extra) by (exists []; by rewrite app_nil_r).
  assert (Hpush : exists extra,
    Forall (fun i => String.prefix "rule.applicability" (path i) = true) extra /\
    push "rule.applicability.transition_rule" "must be a non-empty string" issues = issues ++ extra)
    by (eexists [_]; split; [|reflexivity]; by repeat constructor).
  destruct v as [| | | |s| |]; simpl; try (destruct Hpush as (e & F & ->); by exists e).
  - destruct Hnil as (e & F & He). exists e. split; [done|]. by rewrite <- He.
  - destruct (JS.nonblank s); [destruct Hnil as (e & F & He)|destruct Hpush as (e & F & He)];
      exists e; (split; [done|]); by rewrite <- He.
Qed.

Hypothesis no_empty_date : parses_as_date "" = false.

Lemma parses_applicability v :
  parses (fun a => exists o, v = VObject o /\ applicability_of parses_as_date o a)
    "rule.applicability" (parseApplicability parses_as_date v).
Proof using no_empty_date.
  destruct v as [| | | | | |o];
    try (eapply parses_fail; [..|done]; [done|by intros ? (? & ? & ?)]).
  intros issues. unfold parseApplicability.
  destruct (parses_strings (get o "jurisdictions") "rule.applicability"
    "rule.applicability.jurisdictions" eq_refl issues) as (e1 & F1 & H1).
  destruct (parses_string (get o "product") "rule.applicability"
    "rule.applicability.product" eq_refl (issues ++ e1)) as (e2 & F2 & H2).
  destruct (parses_strings (get o "lifecycle_events") "rule.applicability"
    "rule.applicability.lifecycle_events" eq_refl ((issues ++ e1) ++ e2)) as (e3 & F3 & H3).
  destruct (parses_date (get o "effective_from") "rule.applicability"
    "rule.applicability.effective_from" eq_refl (((issues ++ e1) ++ e2) ++ e3)) as (e4 & F4 & H4).
  destruct (transition_run (get o "transition_rule") ((((issues ++ e1) ++ e2) ++ e3) ++ e4))
    as (e5 & F5 & H5).
  exists (e1 ++ e2 ++ e3 ++ e4 ++ e5). split; [by rewrite !Forall_app|]. rewrite !app_assoc.
  destruct H1 as [(js & Hj & ->)|(Hj & He1 & ->)]; destruct H2 as [(pr & Hp & ->)|(Hp & He2 & ->)];
    destruct H3 as [(ev & Hv & ->)|(Hv & He3 & ->)]; destruct H4 as [(ef & Hf & ->)|(Hf & He4 & ->)];
    rewrite H5.
  { left. eexists. rewrite nonblank_truthy by apply Hp.
    assert (ef <> "") by (intros ->; naive_solver congruence).
    assert (JS.truthy ef = true) as -> by (by apply negb_true_iff, String.eqb_neq).
    split; [|reflexivity]. exists o. split; [done|]. split; naive_solver. }
  all: right; split_and!;
    [intros a (? & ? & [? ? ? (? & ? & ?) ?]); naive_solver|rewrite !app_nil; naive_solver|done].
Qed.

Lemma parses_version v :
  parses (fun s => v = VString s /\ SEMVER_PATTERN s = true) "rule.version"
    (requireSemver v "rule.version").
Proof.
  destruct v as [| | | |s| |]; try (eapply parses_fail; [..|done]; [done|by intros ? [? ?]]).
  destruct (SEMVER_PATTERN s) eqn:E.
  - intros issues. exists []. split; [done|]. left. exists s. simpl. by rewrite E, app_nil_r.
  - eapply parses_fail; [..|intros; simpl; by rewrite E]; [done|]. intros g [? ?]. simplify_eq. congruence.
Qed.

(** The run of the whole parser: acceptance is [document_of]; a refusal
    always names something. *)
Lemma parsePolicyRule_run raw :
  (exists d, parsePolicyRule parses_as_date raw = Ok d /\ document_of parses_as_date raw d) \/
  (exists issues, parsePolicyRule parses_as_date raw = Err issues /\ issues <> [] /\
     forall d, ~ document_of parses_as_date raw d).
Proof using no_empty_date.
  assert (Htop : (forall top rule, raw = VObject top -> get top "rule" = VObject rule -> False) ->
    forall d, ~ document_of parses_as_date raw d).
  { intros Hno d [(top & rule & E1 & E2 & _)]. eauto. }
  unfold parsePolicyRule.
  destruct raw as [| | | | | |top];
    try (right; eexists; split; [done|split; [done|apply Htop; intros; simplify_eq; congruence]]).
  destruct (get top "rule") as [| | | | | |rule] eqn:Er;
    try (right; eexists; split; [done|split; [done|apply Htop; intros; simplify_eq; congruence]]).
  destruct (parses_string (get rule "id") "rule" "rule.id" eq_refl []) as (e1 & _ & H1).
  destruct (parses_version (get rule "version") ([] ++ e1)) as (e2 & _ & H2).
  destruct (parses_applicability (get rule "applicability") (([] ++ e1) ++ e2)) as (e3 & _ & H3).
  destruct (parses_when (get rule "when") ((([] ++ e1) ++ e2) ++ e3)) as (e4 & _ & H4).
  destruct (parses_outcome (get rule "outcome") (((([] ++ e1) ++ e2) ++ e3) ++ e4)) as (e5 & _ & H5).
  destruct H1 as [(i & Hi & ->)|(Hi & He1 & ->)]; destruct H2 as [(v & Hv & ->)|(Hv & He2 & ->)];
    destruct H3 as [(a & Ha & ->)|(Ha & He3 & ->)]; destruct H4 as [(w & Hw & ->)|(Hw & He4 & ->)];
    destruct H5 as [(o & Ho & ->)|(Ho & He5 & ->)].
  { left. rewrite nonblank_truthy by apply Hi. destruct Hv as [Hv Hs].
    assert (JS.truthy v = true) as -> by (by destruct v). eexists. split; [reflexivity|].
    split. exists top, rule. simpl. naive_solver. }
  all: right; eexists; split; [reflexivity|split];
    [rewrite !app_nil; intros (((? & ?) & ?) & ?); destruct_and?; congruence|].
  all: intros d [(top' & rule' & E1 & E2 & D1 & D2 & D3 & D4 & D5 & D6)].
  all: injection E1 as <-; assert (rule' = rule) as -> by congruence.
  all: first [by apply (Hi _ D1)|by apply (Hv _ (conj D2 D3))|by apply (Ha _ D4)
             |by apply (Hw _ D5)|by apply (Ho _ D6)].
Qed.
End Accepts.

(** ** Arithmetic of the evaluator *)

Lemma binary_round_aux_abs prec emax s mx ex lx :
  SFabs (binary_round_aux prec emax s mx ex lx) = SFabs (binary_round_aux prec emax false mx ex lx).
Proof.
  unfold binary_round_aux. destruct (shr_fexp _ _ mx ex lx) as [m1 e1].
  destruct (shr_fexp _ _ _ e1 loc_Exact) as [m2 e2].
  destruct (shr_m m2); [done| |done]. by destruct (e2 <=? _).
Qed.

Lemma binary_normalize_opp prec emax m e z z' :
  SFabs (binary_normalize prec emax (- m) e z) = SFabs (binary_normalize prec emax m e z').
Proof.
  destruct m; simpl; [done| |]; unfold binary_round; destruct (shl_align _ _ _) as [mz ez];
    try done; [|symmetry]; apply binary_round_aux_abs.
Qed.

(** The size of a difference does not depend on which side is larger. *)
Lemma f64_sub_abs_comm x y : SFabs (f64_sub x y) = SFabs (f64_sub y x).
Proof.
  unfold f64_sub. destruct x as [sx|sx| |sx mx ex], y as [sy|sy| |sy my ey]; simpl; try done.
  - by destruct sx, sy.
  - by destruct sx, sy.
  - rewrite (Z.min_comm ey ex).
    rewrite <- (binary_normalize_opp _ _ _ _ false false). f_equal. f_equal. lia.
Qed.

(** ** Uniqueness, printing *)

Lemma is_texts_inj v ss ts : is_texts v ss -> is_texts v ts -> ss = ts.
Proof.
  intros (-> & _) (H & _). injection H as H. revert ts H.
  induction ss as [|s ss IH]; intros [|t ts]; simpl; intros; simplify_eq; [done|].
  f_equal. by apply IH.
Qed.

Lemma document_of_inj pd raw d1 d2 :
  document_of pd raw d1 -> document_of pd raw d2 -> d1 = d2.
Proof.
  intros [(t1 & r1 & A1 & A2 & A3 & A4 & _ & (a1 & A6 & A7) & A8 & o1 & A9 & A10 & A11)]
    [(t2 & r2 & B1 & B2 & B3 & B4 & _ & (a2 & B6 & B7) & B8 & o2 & B9 & B10 & B11)].
  assert (t2 = t1) as -> by congruence. assert (r2 = r1) as -> by congruence.
  assert (a2 = a1) as -> by congruence. assert (o2 = o1) as -> by congruence.
  destruct d1 as [i1 v1 [] [] []], d2 as [i2 v2 [] [] []]. simpl in *.
  destruct A7 as [? ? ? [? _] ?], B7 as [? ? ? [? _] ?]. simpl in *.
  destruct A8 as (b1 & ? & ? & ? & ? & _), B8 as (b2 & ? & ? & ? & ? & _).
  assert (b2 = b1) as -> by congruence.
  repeat match goal with
  | H : is_text ?v ?s, H' : is_text ?v ?t |- _ =>
      assert (s = t) as -> by (by eapply is_text_inj); clear H
  | H : is_texts ?v ?s, H' : is_texts ?v ?t |- _ =>
      assert (s = t) as -> by (by eapply is_texts_inj); clear H
  end. congruence.
Qed.

(** The document as an author would write it. *)
Definition print_applicability (a : PolicyRuleApplicability) (transition : value) : value :=
  VObject [("jurisdictions", VArray (VString <$> jurisdictions a));
           ("product", VString (product a));
           ("lifecycle_events", VArray (VString <$> lifecycleEvents a));
           ("effective_from", VString (effectiveFrom a));
           ("transition_rule", transition)].

Definition print_when (c : PolicyRuleCondition) : value :=
  match c with
  | difference_percent lf rt g =>
      VObject [("difference_percent",
        VObject [("left", VString lf); ("right", VString rt); ("greater_than", VNumber g)])]
  end.

Definition print_rule (d : PolicyRuleDocument) (transition : value) : value :=
  VObject [("rule", VObject
    [("id", VString (doc_id d)); ("version", VString (doc_version d));
     ("applicability", print_applicability (doc_applicability d) transition);
     ("when", print_when (doc_when d));
     ("outcome", VObject [("condition", VString (oc_condition (doc_outcome d)));
                          ("route", VString (oc_route (doc_outcome d)))])])].

Definition print_transition (o : option string) : value :=
  match o with Some s => VString s | None => VUndefined end.

Definition texts (ss : list string) : bool :=
  negb (bool_decide (ss = [])) && forallb JS.nonblank ss.

(** The documents an author can mean. *)
Definition valid_rule (pd : string -> bool) (d : PolicyRuleDocument) : bool :=
  let a := doc_applicability d in
  JS.nonblank (doc_id d) && SEMVER_PATTERN (doc_version d) &&
  texts (jurisdictions a) && JS.nonblank (product a) && texts (lifecycleEvents a) &&
  pd (effectiveFrom a) &&
  match transitionRule a with Some s => JS.nonblank s | None => true end &&
  match doc_when d with
  | difference_percent lf rt g => JS.nonblank lf && JS.nonblank rt && isFinite g
  end &&
  JS.nonblank (oc_condition (doc_outcome d)) && JS.nonblank (oc_route (doc_outcome d)).

Definition with_transition (d : PolicyRuleDocument) (tr : option string) : PolicyRuleDocument :=
  {| doc_id := doc_id d; doc_version := doc_version d;
     doc_applicability :=
       {| jurisdictions := jurisdictions (doc_applicability d);
          product := product (doc_applicability d);
          lifecycleEvents := lifecycleEvents (doc_applicability d);
          effectiveFrom := effectiveFrom (doc_applicability d); transitionRule := tr |};
     doc_when := doc_when d; doc_outcome := doc_outcome d |}.

Lemma texts_is_texts ss : texts ss = true -> is_texts (VArray (VString <$> ss)) ss.
Proof.
  unfold texts. intros H. bsplit. split_and!; [done|done|].
  apply Forall_forall. intros x Hx. eapply (proj1 (forallb_forall _ _)); [eassumption|].
  by apply list_elem_of_In.
Qed.

Lemma print_document_of pd d v :
  pd "" = false -> valid_rule pd d = true ->
  document_of pd (print_rule d v) (with_transition d (transition_of v)).
Proof.
  intros He H. unfold valid_rule in H. destruct d as [i ver a [lf rt g] o]. simpl in H.
  repeat match goal with H : _ && _ = true |- _ => apply andb_true_iff in H as [H ?] end.
  split. do 2 eexists. split; [reflexivity|]. split; [reflexivity|]. simpl.
  split_and!; [by split|done|done| | |].
  - eexists. split; [reflexivity|]. split; simpl; [by apply texts_is_texts|by split
      |by apply texts_is_texts| |done].
    split_and!; [done|done|]. intros E. rewrite E in *. congruence.
  - eexists. split; [reflexivity|]. by split_and!.
  - eexists. split; [reflexivity|]. by split_and!.
Qed.

(** ** Properties *)

Section Properties.
Context (parses_as_date : string -> bool).
Hypothesis no_empty_date : parses_as_date "" = false.

Lemma parsePolicyRule_Ok_iff raw d :
  parsePolicyRule parses_as_date raw = Ok d <-> document_of parses_as_date raw d.
Proof using no_empty_date.
  destruct (parsePolicyRule_run parses_as_date no_empty_date raw)
    as [(d' & E & Hd)|(iss & E & _ & Hd)]; rewrite E; split.
  - intros [= <-]. done.
  - intros H. f_equal. by eapply document_of_inj.
  - done.
  - intros H. by destruct (Hd d).
Qed.

(** [parsePolicyRule] accepts exactly the well-formed documents, and
    returns the one document each of them denotes; every refusal carries at
    least one issue.  [document_of] says what well-formed means: non-blank
    texts, a semantic version, a date, one known condition operator with a
    finite threshold. *)
Theorem parsePolicyRule_accepts raw :
  (forall d, parsePolicyRule parses_as_date raw = Ok d <-> document_of parses_as_date raw d) /\
  (forall issues, parsePolicyRule parses_as_date raw = Err issues -> issues <> []).
Proof using no_empty_date.
  split; [apply parsePolicyRule_Ok_iff|]. intros iss E.
  destruct (parsePolicyRule_run parses_as_date no_empty_date raw)
    as [(d' & E' & Hd)|(iss' & E' & Hne & Hd)]; congruence.
Qed.

(** C27: Printing and parsing a rule gives the rule back, for every rule an
    author can write. *)
Theorem parsePolicyRule_roundtrip d :
  valid_rule parses_as_date d = true ->
  parsePolicyRule parses_as_date
    (print_rule d (print_transition (transitionRule (doc_applicability d)))) = Ok d.
Proof using no_empty_date.
  intros H. apply parsePolicyRule_Ok_iff.
  replace d with (with_transition d (transition_of (print_transition
    (transitionRule (doc_applicability d))))) at 3; [by apply print_document_of|].
  unfold valid_rule in H. bsplit.
  destruct d as [i v [js pr ev ef tr] w o]. unfold with_transition. simpl in *.
  do 2 f_equal. destruct tr as [t|]; simpl; [|done].
  destruct (JS.nonblank t) eqn:E; [done|]. exfalso.
  repeat match goal with H : _ && _ = true |- _ => apply andb_true_iff in H as [H ?] end.
  congruence.
Qed.

(** An ill-formed [transition_rule] is not refused.  Whatever value an
    otherwise valid document has there, the parser accepts the document; a
    value that is no non-blank text is dropped, and the rule is then the one
    without a transition rule. *)
Theorem ill_formed_transition_rule_is_dropped d v :
  valid_rule parses_as_date d = true -> transition_of v = None ->
  parsePolicyRule parses_as_date (print_rule d v) = Ok (with_transition d None).
Proof using no_empty_date.
  intros H Hv. apply parsePolicyRule_Ok_iff. rewrite <- Hv. by apply print_document_of.
Qed.
End Properties.

(** A rule matches exactly when both of its facts resolve to finite
    numbers, the base is not zero, and the size of their difference, as a
    percentage of the base, exceeds the threshold; it makes no difference
    which of the two is larger.  Only then does the outcome carry the rule's
    condition and route; a missing fact or a zero base never matches. *)
Theorem evaluatePolicyRule_matches rule c lf rt g :
  doc_when rule = difference_percent lf rt g ->
  (ev_matched (evaluatePolicyRule rule c) = true <->
   exists l r, resolveFactPath c lf = Some l /\ resolveFactPath c rt = Some r /\
     SFeqb l (S754_zero false) = false /\
     SFltb g (f64_mul (f64_div (SFabs (f64_sub l r)) (SFabs l)) (f64_of_Z 100)) = true) /\
  (if ev_matched (evaluatePolicyRule rule c)
   then ev_condition (evaluatePolicyRule rule c) = Some (oc_condition (doc_outcome rule)) /\
        ev_route (evaluatePolicyRule rule c) = Some (oc_route (doc_outcome rule))
   else ev_condition (evaluatePolicyRule rule c) = None /\
        ev_route (evaluatePolicyRule rule c) = None).
Proof.
  intros Hw. unfold evaluatePolicyRule. rewrite Hw. unfold evaluateCondition, differencePercent.
  destruct (resolveFactPath c lf) as [l|] eqn:El; [|split; [split|]; naive_solver].
  destruct (resolveFactPath c rt) as [r|] eqn:Er; [|split; [split|]; naive_solver].
  rewrite (f64_sub_abs_comm r l).
  destruct (SFeqb l (S754_zero false)) eqn:Ez.
  { split; [|done]. split; [done|]. intros (l' & r' & [= <-] & _ & E & _). by rewrite E in Ez. }
  destruct (SFltb g _) eqn:Eg; simpl; (split; [|done]).
  - split; [|done]. intros _. by exists l, r.
  - split; [done|]. intros (l' & r' & [= <-] & [= <-] & _ & E). by rewrite E in Eg.
Qed.

(** ** A concrete rule: declared and verified income differ by more than 10% *)

Definition nonempty_date (s : string) : bool := negb (String.eqb s "").

Definition income_rule : PolicyRuleDocument :=
  {| doc_id := "income-variance"; doc_version := "1.0.0";
     doc_applicability := {| jurisdictions := ["US-CA"]; product := "CONVENTIONAL_MORTGAGE";
       lifecycleEvents := ["PRE_DECISION"]; effectiveFrom := "2026-01-01T00:00:00Z";
       transitionRule := None |};
     doc_when := difference_percent "application.monthly_income" "evidence.verified_income"
                   (f64_of_Z 10);
     doc_outcome := {| oc_condition := "INCOME_VARIANCE"; oc_route := "UNDERWRITER_REVIEW" |} |}.

Definition facts : PolicyFactContext :=
  {| application := [("monthly_income", VNumber (f64_of_Z 8000))];
     evidence := [("verified_income", VNumber (f64_of_Z 7000))] |}.

Lemma parsePolicyRule_accepts_witness :
  exists d, parsePolicyRule nonempty_date (print_rule income_rule VUndefined) = Ok d /\
    document_of nonempty_date (print_rule income_rule VUndefined) d.
Proof.
  exists income_rule. split; [reflexivity|].
  apply (proj1 (parsePolicyRule_accepts nonempty_date eq_refl _) income_rule). reflexivity.
Defined.

Lemma parsePolicyRule_roundtrip_witness :
  parsePolicyRule nonempty_date (print_rule income_rule VUndefined) = Ok income_rule.
Proof. exact (parsePolicyRule_roundtrip nonempty_date eq_refl income_rule eq_refl). Defined.

Lemma ill_formed_transition_rule_is_dropped_witness :
  parsePolicyRule nonempty_date (print_rule income_rule (VNumber (f64_of_Z 5))) =
    Ok (with_transition income_rule None).
Proof.
  exact (ill_formed_transition_rule_is_dropped nonempty_date eq_refl income_rule
    (VNumber (f64_of_Z 5)) eq_refl eq_refl).
Defined.

Lemma evaluatePolicyRule_matches_witness :
  ev_matched (evaluatePolicyRule income_rule facts) = true.
Proof.
  apply (proj1 (evaluatePolicyRule_matches income_rule facts "application.monthly_income"
    "evidence.verified_income" (f64_of_Z 10) eq_refl)).
  exists (f64_of_Z 8000), (f64_of_Z 7000). vm_compute. repeat split; reflexivity.
Defined.

End Dsl.
