(* ===== verification/PolicyDigest.v ===== *)
(** * Content digests

    policy/policy-digest.ts: [computeDigest] hashes a value after sorting the
    keys of every object in it.  [sha256] of the serialised value is a
    parameter; the theorem is about what reaches it. *)

From Stdlib Require Import Ascii.
From stdpp Require Import strings list sorting.
From S2P Require Import Prelude PolicyDsl.

Module Digest.
Import Dsl.

(** [([a], [b]) => (a < b ? -1 : a > b ? 1 : 0)], as an order. *)
Definition key_le (x y : string * value) : Prop := String.le x.1 y.1.
#[export] Instance key_le_dec : RelDecision key_le.
Proof. intros x y. apply _. Defined.

Fixpoint canonicalize (v : value) : value :=
  match v with
  | VArray vs => VArray (List.map canonicalize vs)
  | VObject props =>
      VObject (merge_sort key_le (List.map (fun kv => (kv.1, canonicalize kv.2)) props))
  | _ => v
  end.

(** [createHash('sha256').update(JSON.stringify(...)).digest('hex')] of the
    canonical value. *)
Definition computeDigest (sha256 : value -> string) (v : value) : string :=
  sha256 (canonicalize v).

(** Equal up to the order of object keys, at any depth. *)
Inductive same_content : value -> value -> Prop :=
| same_refl v : same_content v v
| same_sym v w : same_content v w -> same_content w v
| same_trans u v w : same_content u v -> same_content v w -> same_content u w
| same_element l v w r :
    same_content v w -> same_content (VArray (l ++ v :: r)) (VArray (l ++ w :: r))
| same_property l k v w r :
    same_content v w -> same_content (VObject (l ++ (k, v) :: r)) (VObject (l ++ (k, w) :: r))
| same_order l l' :
    NoDup l.*1 -> l ≡ₚ l' -> same_content (VObject l) (VObject l').

#[export] Instance same_content_equivalence : Equivalence same_content.
Proof. split; repeat intro; eauto using same_refl, same_sym, same_trans. Qed.

#[export] Instance key_le_trans : Transitive key_le.
Proof. intros x y z. unfold key_le. apply transitivity. Qed.
#[export] Instance key_le_total : Total key_le.
Proof. intros x y. unfold key_le. apply total, _. Qed.

Lemma sorted_by_key_unique (l l' : list (string * value)) :
  NoDup l.*1 -> l ≡ₚ l' -> merge_sort key_le l = merge_sort key_le l'.
Proof.
  intros Hnd Hp. apply (StronglySorted_unique_strong key_le).
  - intros x y. rewrite !merge_sort_Permutation, <- Hp. intros Hx Hy H1 H2.
    assert (x.1 = y.1) as Hk by (unfold key_le in *; by apply (anti_symm String.le)).
    clear -Hnd Hx Hy Hk. induction l as [|z l IH]; [by apply elem_of_nil in Hx|].
    simpl in Hnd. apply NoDup_cons in Hnd as [Hz Hnd].
    apply elem_of_cons in Hx as [->|Hx], Hy as [->|Hy]; [done| | |auto].
    + destruct Hz. rewrite Hk. by apply list_elem_of_fmap_2.
    + destruct Hz. rewrite <- Hk. by apply list_elem_of_fmap_2.
  - apply (StronglySorted_merge_sort _ _).
  - apply (StronglySorted_merge_sort _ _).
  - by rewrite !merge_sort_Permutation.
Qed.

#[export] Instance canonicalize_proper : Proper (same_content ==> eq) canonicalize.
Proof.
  intros v w H. induction H as [v|v w _ IH|u v w _ IH1 _ IH2|l v w r _ IH|l k v w r _ IH|l l' Hnd Hp].
  - done.
  - done.
  - by rewrite IH1.
  - simpl. by rewrite !map_app; simpl; rewrite IH.
  - simpl. by rewrite !map_app; simpl; rewrite IH.
  - simpl. f_equal. apply sorted_by_key_unique.
    + rewrite <- list_fmap_compose. done.
    + by apply Permutation_map.
Qed.

(** A digest is a function of content.  Two values that differ only in
    the order in which their objects were built, at any depth, have the same
    digest, whatever the hash. *)
Theorem digest_ignores_key_order sha256 v w :
  same_content v w -> computeDigest sha256 v = computeDigest sha256 w.
Proof. intros H. unfold computeDigest. by rewrite H. Qed.

Definition unordered1 : value := VObject [("b", VNull); ("a", VArray [VObject [("y", VNull); ("x", VNull)]])].
Definition unordered2 : value := VObject [("a", VArray [VObject [("x", VNull); ("y", VNull)]]); ("b", VNull)].

Lemma digest_ignores_key_order_witness :
  computeDigest (fun v => match v with VObject ((k, _) :: _) => k | _ => "" end) unordered1 =
  computeDigest (fun v => match v with VObject ((k, _) :: _) => k | _ => "" end) unordered2 /\
  same_content unordered1 unordered2.
Proof.
  assert (same_content unordered1 unordered2) as H.
  { transitivity (VObject [("b", VNull); ("a", VArray [VObject [("x", VNull); ("y", VNull)]])]).
    - apply (same_property [("b", VNull)] "a" _ _ []). apply (same_element [] _ _ []).
      apply same_order; [apply (bool_decide_unpack _); reflexivity|apply perm_swap].
    - apply same_order; [apply (bool_decide_unpack _); reflexivity|apply perm_swap]. }
  split; [exact (digest_ignores_key_order _ _ _ H)|exact H].
Defined.

End Digest.
