(* ===== verification/PolicyResolver.v ===== *)
(** * The applicability resolver

    policy/policy-applicability-resolver.service.ts decides which released
    policy versions apply to a case, or that a person has to.  The catalog
    tables are an argument ([Catalog]); the only effect is the research
    request made for an unresolved case, an operation of the optional
    [PolicyResearchService] that the resolver is given.

    The texts of the unresolved reasons are the constructors of [Unresolved].
    Times are milliseconds. *)

From Stdlib Require Import Ascii.
From stdpp Require Import gmap strings list.
From S2P Require Import Prelude PolicyDsl.

Module Resolver.

(** ** Catalog rows *)

Inductive JurisdictionCoverageStatus := COVERED | PARTIAL | NOT_COVERED.
Inductive PolicyReleaseStatus :=
  DRAFT | PROPOSED | RELEASED | SUPERSEDED | WITHDRAWN | CORRECTED.

#[export] Instance JurisdictionCoverageStatus_eq_dec : EqDecision JurisdictionCoverageStatus.
Proof. solve_decision. Defined.
#[export] Instance PolicyReleaseStatus_eq_dec : EqDecision PolicyReleaseStatus.
Proof. solve_decision. Defined.

Record Jurisdiction := {
  code : string; parentCode : option string; coverageStatus : JurisdictionCoverageStatus }.

Record PolicyApplicability := {
  pa_id : string; pa_policyVersionId : string; pa_jurisdictionCode : string;
  pa_productCode : string; pa_lifecycleEvent : string; pa_transitionRule : option string }.

Record PolicyVersion := {
  pv_id : string; pv_ruleId : string; pv_version : string; pv_dsl : Dsl.value;
  pv_effectiveFrom : Z; pv_effectiveTo : option Z; pv_releaseStatus : PolicyReleaseStatus }.

Record PolicySource := {
  ps_id : string; ps_name : string; ps_jurisdictionCode : string;
  ps_freshnessObjectiveHours : Z }.

Record PolicySourceRevision := {
  sr_id : string; sr_policySourceId : string; sr_recordedAt : Z }.

(** The rows in the order the database returns them. *)
Record Catalog := {
  c_jurisdictions : gmap string Jurisdiction;
  c_applicability : list PolicyApplicability;
  c_versions : gmap string PolicyVersion;
  c_sources : list PolicySource;
  c_revisions : list PolicySourceRevision }.

(** ** Contexts and results *)

Record PolicyResolutionContext := {
  jurisdictionCode : string; productCode : string; lifecycleEvent : string;
  asOf : Z; applicationReceivedAt : option Z }.

Inductive Unresolved :=
| AncestryCycle (code : string)
| UnknownJurisdiction (code : string)
| NotCovered (code : string)
| NoSource (code : string)
| NoRevision (source : string)
| InvalidObjective (source : string)
| StaleSource (source : string) (deadline : Z)
| NeedsReceiptTime (applicability : string)
| UnsupportedTransition (applicability rule : string)
| Overlapping (ruleId : string) (n : nat) (asOf : Z).

Record ResolvedPolicyVersionRef := {
  rv_policyVersionId : string; rv_ruleId : string; rv_version : string;
  rv_rule : Dsl.PolicyRuleDocument; rv_effectiveFrom : Z; rv_effectiveTo : option Z }.

Inductive ResolutionStatus := RESOLVED | REVIEW_REQUIRED.

Record PolicyResolutionResult := {
  status : ResolutionStatus;
  versions : list ResolvedPolicyVersionRef;
  unresolvedReasons : list Unresolved;
  revalidateAfter : option Z }.

Definition review_required (reasons : list Unresolved) : PolicyResolutionResult :=
  {| status := REVIEW_REQUIRED; versions := []; unresolvedReasons := reasons;
     revalidateAfter := None |}.

(** ** Ancestry

    [while (nextCode)] with its visited set; [fuel] bounds the iterations. *)

Inductive Ancestry :=
| Covered (ancestry : list Jurisdiction)
| Uncovered (reason : Unresolved)
| OutOfFuel.

Fixpoint ancestry_loop (js : gmap string Jurisdiction) (fuel : nat)
    (nextCode : option string) (visited : list string) (ancestry : list Jurisdiction) : Ancestry :=
  match nextCode with
  | None => Covered ancestry
  | Some c =>
      if negb (JS.truthy c) then Covered ancestry else
      match fuel with
      | O => OutOfFuel
      | S fuel' =>
          if includes visited c then Uncovered (AncestryCycle c)
          else match js !! c with
               | None => Uncovered (UnknownJurisdiction c)
               | Some j =>
                   if negb (bool_decide (coverageStatus j = COVERED))
                   then Uncovered (NotCovered c)
                   else ancestry_loop js fuel' (parentCode j) (c :: visited) (ancestry ++ [j])
               end
      end
  end.

Definition loadCoveredAncestry (js : gmap string Jurisdiction) (leafCode : string) : Ancestry :=
  ancestry_loop js (S (size js)) (Some leafCode) [] [].

(** ** Source freshness *)

Definition sources_of (c : Catalog) (codes : list string) : list PolicySource :=
  List.filter (fun s => includes codes (ps_jurisdictionCode s)) (c_sources c).

(** The first revision of the source in [order: { recordedAt: 'DESC' }]. *)
Definition latest_revision (c : Catalog) (s : PolicySource) : option PolicySourceRevision :=
  head (List.filter (fun r => String.eqb (sr_policySourceId r) (ps_id s))
          (order_by (fun r => - sr_recordedAt r) (c_revisions c))).

Definition missing_sources (c : Catalog) (codes : list string) : list Unresolved :=
  NoSource <$> List.filter (fun code =>
    negb (existsb (fun s => String.eqb (ps_jurisdictionCode s) code) (sources_of c codes))) codes.

Definition source_deadline (s : PolicySource) (r : PolicySourceRevision) : Z :=
  sr_recordedAt r + ps_freshnessObjectiveHours s * 60 * 60 * 1000.

Definition check_source (c : Catalog) (now : Z) (acc : option Z * list Unresolved)
    (s : PolicySource) : option Z * list Unresolved :=
  let '(earliest, reasons) := acc in
  match latest_revision c s with
  | None => (earliest, reasons ++ [NoRevision (ps_name s)])
  | Some r =>
      if ps_freshnessObjectiveHours s <=? 0
      then (earliest, reasons ++ [InvalidObjective (ps_name s)])
      else
        let deadline := source_deadline s r in
        if deadline <=? now then (earliest, reasons ++ [StaleSource (ps_name s) deadline])
        else
          (match earliest with
           | None => Some deadline
           | Some e => if deadline <? e then Some deadline else Some e
           end, reasons)
  end.

Definition validateSourceFreshness (c : Catalog) (codes : list string) (now : Z)
    (reasons : list Unresolved) : option Z * list Unresolved :=
  let sources := sources_of c codes in
  let reasons := reasons ++ missing_sources c codes in
  if (length sources =? 0)%nat then (None, reasons)
  else fold_left (check_source c now) sources (None, reasons).

(** ** Transition rules *)

Definition ON_OR_AFTER : string := "application_received_on_or_after_effective_date".
Definition AS_OF : string := "evaluation_as_of_effective_date".

Definition resolveApplicabilityInstant (a : PolicyApplicability) (ctx : PolicyResolutionContext)
  : Z + Unresolved :=
  match pa_transitionRule a with
  | None => inl (asOf ctx)
  | Some t =>
      if negb (JS.truthy t) then inl (asOf ctx)
      else if String.eqb t ON_OR_AFTER then
        match applicationReceivedAt ctx with
        | None => inr (NeedsReceiptTime (pa_id a))
        | Some at_ => inl at_
        end
      else if String.eqb t AS_OF then inl (asOf ctx)
      else inr (UnsupportedTransition (pa_id a) t)
  end.

(** ** Candidates *)

Record Search := {
  candidates : list (string * list PolicyVersion);
  boundaries : list Z;
  reasons : list Unresolved }.

(** [map.set(k, [...(map.get(k) ?? []), v])] on an insertion-ordered map. *)
Fixpoint add_candidate (v : PolicyVersion) (m : list (string * list PolicyVersion))
  : list (string * list PolicyVersion) :=
  match m with
  | [] => [(pv_ruleId v, [v])]
  | (k, vs) :: m' =>
      if String.eqb k (pv_ruleId v) then (k, vs ++ [v]) :: m' else (k, vs) :: add_candidate v m'
  end.

Definition anchored (a : PolicyApplicability) : bool :=
  match pa_transitionRule a with Some t => String.eqb t ON_OR_AFTER | None => false end.

Definition consider (c : Catalog) (ctx : PolicyResolutionContext) (st : Search)
    (a : PolicyApplicability) : Search :=
  match c_versions c !! pa_policyVersionId a with
  | None => st
  | Some v =>
      if negb (bool_decide (pv_releaseStatus v = RELEASED)) then st else
      match resolveApplicabilityInstant a ctx with
      | inr r => {| candidates := candidates st; boundaries := boundaries st;
                    reasons := reasons st ++ [r] |}
      | inl t =>
          if t <? pv_effectiveFrom v then
            {| candidates := candidates st;
               boundaries := boundaries st ++ (if anchored a then [] else [pv_effectiveFrom v]);
               reasons := reasons st |}
          else
            match pv_effectiveTo v with
            | Some to =>
                if to <=? t then st
                else {| candidates := add_candidate v (candidates st);
                        boundaries := boundaries st ++ (if anchored a then [] else [to]);
                        reasons := reasons st |}
            | None => {| candidates := add_candidate v (candidates st);
                         boundaries := boundaries st; reasons := reasons st |}
            end
      end
  end.

Definition applicability_rows (c : Catalog) (ctx : PolicyResolutionContext) (codes : list string)
  : list PolicyApplicability :=
  List.filter (fun a => includes codes (pa_jurisdictionCode a) &&
    String.eqb (pa_productCode a) (productCode ctx) &&
    String.eqb (pa_lifecycleEvent a) (lifecycleEvent ctx)) (c_applicability c).

Definition version_ref (v : PolicyVersion) (rule : Dsl.PolicyRuleDocument)
  : ResolvedPolicyVersionRef :=
  {| rv_policyVersionId := pv_id v; rv_ruleId := pv_ruleId v; rv_version := pv_version v;
     rv_rule := rule; rv_effectiveFrom := pv_effectiveFrom v; rv_effectiveTo := pv_effectiveTo v |}.

Section Resolve.
Context (parses_as_date : string -> bool).
Context {S : Type}.

(** The loop over the buckets; [candidates[0]] of a bucket of one. *)
Fixpoint select (ctx : PolicyResolutionContext) (m : list (string * list PolicyVersion))
    (versions : list ResolvedPolicyVersionRef) (reasons : list Unresolved)
  : result (list Dsl.PolicyDslIssue) (list ResolvedPolicyVersionRef * list Unresolved) :=
  match m with
  | [] => Ok (versions, reasons)
  | (ruleId, vs) :: m' =>
      if (1 <? length vs)%nat
      then select ctx m' versions (reasons ++ [Overlapping ruleId (length vs) (asOf ctx)])
      else match vs with
           | v :: _ =>
               rule ← Dsl.parsePolicyRule parses_as_date (pv_dsl v);
               select ctx m' (versions ++ [version_ref v rule]) reasons
           | [] => select ctx m' versions reasons
           end
  end.

Notation run := (M S (list Dsl.PolicyDslIssue)).

(** [policyResearchService?.requestForUnresolvedResolution(context, reasons)] *)
Context (research : option (PolicyResolutionContext -> list Unresolved -> run unit)).

Definition review (ctx : PolicyResolutionContext) (reasons : list Unresolved)
  : run PolicyResolutionResult :=
  _ ← match research with Some f => f ctx reasons | None => mret tt end;
  mret (review_required reasons).

Definition resolve (c : Catalog) (now : Z) (ctx : PolicyResolutionContext)
  : run PolicyResolutionResult :=
  match loadCoveredAncestry (c_jurisdictions c) (jurisdictionCode ctx) with
  | OutOfFuel => review ctx []
  | Uncovered r => review ctx [r]
  | Covered ancestry =>
      let codes := code <$> ancestry in
      let '(deadline, reasons0) := validateSourceFreshness c codes now [] in
      if (0 <? length reasons0)%nat then review ctx reasons0 else
      let st := fold_left (consider c ctx) (applicability_rows c ctx codes)
                  {| candidates := []; boundaries := []; reasons := reasons0 |} in
      r ← lift (select ctx (candidates st) [] (reasons st));
      let '(vs, rs) := r in
      if (0 <? length rs)%nat then review ctx rs else
      mret {| status := RESOLVED; versions := vs; unresolvedReasons := [];
              revalidateAfter :=
                head (order_by (fun t => t)
                  (match deadline with Some d => [d] | None => [] end ++ boundaries st)) |}
  end.
End Resolve.

(** ** Ancestry lemmas *)

Lemma visited_bound (js : gmap string Jurisdiction) (visited : list string) :
  NoDup visited -> (forall c, c ∈ visited -> is_Some (js !! c)) ->
  (length visited <= size js)%nat.
Proof.
  intros Hnd Hin. rewrite <- size_dom.
  rewrite <- (size_list_to_set (C := gset string) visited) by done.
  apply subseteq_size. intros c. rewrite elem_of_list_to_set, elem_of_dom. apply Hin.
Qed.

(** The loop never runs out: it visits each code at most once. *)
Lemma ancestry_loop_total js fuel next visited acc :
  NoDup visited -> (forall c, c ∈ visited -> is_Some (js !! c)) ->
  (size js < fuel + length visited)%nat ->
  ancestry_loop js fuel next visited acc <> OutOfFuel.
Proof.
  revert next visited acc. induction fuel as [|fuel IH]; intros next visited acc Hnd Hin Hf.
  - pose proof (visited_bound js visited Hnd Hin). lia.
  - destruct next as [c|]; simpl; [|done].
    destruct (negb (JS.truthy c)); [done|]. destruct (includes visited c) eqn:Ev; [done|].
    destruct (js !! c) as [j|] eqn:Ej; [|done]. case_match; [done|]. apply IH.
    + constructor; [|done]. rewrite <- includes_spec. congruence.
    + intros c' [->|Hc]%elem_of_cons; [by eexists|auto].
    + simpl. lia.
Qed.

Lemma loadCoveredAncestry_total js leaf : loadCoveredAncestry js leaf <> OutOfFuel.
Proof. apply ancestry_loop_total; [constructor|by intros ? ?%elem_of_nil|simpl; lia]. Qed.

(** The chain of covered jurisdictions from a code up to a root. *)
Inductive chain (js : gmap string Jurisdiction) : string -> list Jurisdiction -> Prop :=
| chain_root c j :
    js !! c = Some j -> coverageStatus j = COVERED ->
    (parentCode j = None \/ parentCode j = Some "") -> chain js c [j]
| chain_up c j p l :
    js !! c = Some j -> coverageStatus j = COVERED ->
    parentCode j = Some p -> p <> "" -> chain js p l -> chain js c (j :: l).

Lemma ancestry_loop_chain js fuel c visited acc res :
  c <> "" -> ancestry_loop js fuel (Some c) visited acc = Covered res ->
  exists l, res = acc ++ l /\ chain js c l.
Proof.
  revert c visited acc. induction fuel as [|fuel IH]; intros c visited acc Hc H; simpl in H.
  - by destruct c.
  - assert (JS.truthy c = true) as Et by (by destruct c). rewrite Et in H. simpl in H.
    case_match; [done|]. case_match eqn:Ej; [|done]. case_match eqn:Ecov; [done|]. bsplit.
    match type of Ej with _ = Some ?j => destruct (parentCode j) as [p|] eqn:Ep end.
    + destruct (decide (p = "")) as [->|Hp].
      * assert (acc ++ [j] = res) as <- by (destruct fuel; simpl in H; congruence).
        exists [j]. split; [done|]. apply chain_root; auto.
      * apply IH in H as (l & -> & Hl); [|done]. exists (j :: l).
        rewrite <- app_assoc. split; [done|]. by eapply chain_up.
    + assert (acc ++ [j] = res) as <- by (destruct fuel; simpl in H; congruence).
      exists [j]. split; [done|]. apply chain_root; auto.
Qed.

(** Conversely, a chain without repetition is found. *)
Lemma ancestry_loop_finds js fuel c l visited acc :
  c <> "" -> chain js c l -> (forall j, j ∈ l -> js !! code j = Some j) ->
  NoDup (visited ++ (code <$> l)) -> (length l <= fuel)%nat ->
  (forall j, js !! c = Some j -> code j = c) ->
  (forall k j, js !! k = Some j -> code j = k) ->
  ancestry_loop js fuel (Some c) visited acc = Covered (acc ++ l).
Proof.
  intros Hc Hch. revert fuel visited acc Hc.
  induction Hch as [c j Hj Hcov Hp|c j p l Hj Hcov Hp Hne Hch IH];
    intros fuel visited acc Hc Hin Hnd Hf Hcode Hall.
  - destruct fuel as [|fuel]; [simpl in Hf; lia|]. simpl.
    assert (JS.truthy c = true) as -> by (by destruct c). simpl.
    assert (includes visited c = false) as ->.
    { apply not_true_iff_false. rewrite includes_spec. intros Hv.
      apply NoDup_app in Hnd as (_ & Hd & _). apply (Hd _ Hv). simpl.
      rewrite (Hcode _ Hj). by left. }
    rewrite Hj, Hcov, bool_decide_eq_true_2 by done. simpl.
    destruct Hp as [->| ->]; by destruct fuel.
  - destruct fuel as [|fuel]; [simpl in Hf; lia|]. simpl.
    assert (JS.truthy c = true) as -> by (by destruct c). simpl.
    assert (includes visited c = false) as ->.
    { apply not_true_iff_false. rewrite includes_spec. intros Hv.
      apply NoDup_app in Hnd as (_ & Hd & _). apply (Hd _ Hv). simpl.
      rewrite (Hcode _ Hj). by left. }
    rewrite Hj, Hcov, bool_decide_eq_true_2, Hp by done. simpl.
    rewrite IH; [by rewrite <- app_assoc|done| | |simpl in Hf; lia| |done].
    + intros j' Hj'. apply Hin. by right.
    + simpl in Hnd. rewrite (Hcode _ Hj) in Hnd.
      by rewrite <- Permutation_middle in Hnd.
    + intros j' Hj'. by eapply Hall.
Qed.

(** ** Freshness lemmas *)

Definition fresh (c : Catalog) (now : Z) (s : PolicySource) (deadline : Z) : Prop :=
  exists r, latest_revision c s = Some r /\ 0 < ps_freshnessObjectiveHours s /\
    deadline = source_deadline s r /\ now < deadline.

Lemma check_source_reasons c now acc s :
  exists extra, (check_source c now acc s).2 = acc.2 ++ extra.
Proof.
  destruct acc as [e rs]. unfold check_source.
  repeat case_match; simpl; eauto using app_nil_r; by exists [].
Qed.

Lemma check_sources_reasons c now l acc :
  exists extra, (fold_left (check_source c now) l acc).2 = acc.2 ++ extra.
Proof.
  revert acc. induction l as [|s l IH]; intros acc; simpl.
  - exists []. by rewrite app_nil_r.
  - destruct (IH (check_source c now acc s)) as [e1 ->].
    destruct (check_source_reasons c now acc s) as [e2 ->].
    exists (e2 ++ e1). by rewrite app_assoc.
Qed.

(** Without a reason, every source is fresh and the deadline returned is the
    earliest of theirs. *)
Lemma check_sources_fresh c now l e rs e' :
  fold_left (check_source c now) l (e, rs) = (e', []) ->
  rs = [] /\ (forall s, s ∈ l -> exists d, fresh c now s d /\ exists m, e' = Some m /\ m <= d) /\
  (forall m, e = Some m -> exists m', e' = Some m' /\ m' <= m) /\
  (forall m', e' = Some m' -> e = Some m' \/ now < m').
Proof.
  revert e rs. induction l as [|s l IH]; intros e rs H; simpl in H.
  - injection H as -> ->. split_and!; [done|by intros ? ?%elem_of_nil|eauto with lia|auto].
  - destruct (latest_revision c s) as [r|] eqn:Er.
    2: { apply IH in H as (Hn & _). by apply app_nil in Hn as [_ ?]. }
    case_match eqn:Eo; [apply IH in H as (Hn & _); by apply app_nil in Hn as [_ ?]|].
    case_match eqn:Ed; [apply IH in H as (Hn & _); by apply app_nil in Hn as [_ ?]|]. bsplit.
    apply IH in H as (-> & Hall & Hle & Hgt). split; [done|].
    assert (Hf : fresh c now s (source_deadline s r)) by (by exists r).
    set (d := source_deadline s r) in *.
    split_and!.
    + intros s' [->|Hs]%elem_of_cons; [|auto]. exists d. split; [done|].
      destruct e as [m|]; [|by apply Hle].
      case_match; [by apply Hle|]. destruct (Hle m eq_refl) as (m' & -> & ?).
      exists m'. split; [done|]. bsplit. lia.
    + intros m ->. case_match; [|by apply Hle].
      destruct (Hle d eq_refl) as (m' & -> & ?). exists m'. split; [done|]. bsplit. lia.
    + intros m' Hm'. destruct (Hgt m' Hm') as [He|]; [|by right].
      destruct e as [m|]; simplify_eq; [|by right; lia].
      case_match; simplify_eq; [right; lia|by left].
Qed.

Lemma validateSourceFreshness_Ok c codes now d :
  validateSourceFreshness c codes now [] = (d, []) ->
  (forall code, code ∈ codes -> exists s, s ∈ c_sources c /\ ps_jurisdictionCode s = code) /\
  (forall s, s ∈ c_sources c -> ps_jurisdictionCode s ∈ codes ->
     exists dl, fresh c now s dl /\ exists m, d = Some m /\ m <= dl) /\
  (forall m, d = Some m -> now < m).
Proof.
  unfold validateSourceFreshness. intros H.
  assert (Hs : forall s, s ∈ sources_of c codes <->
    s ∈ c_sources c /\ ps_jurisdictionCode s ∈ codes).
  { intros s. unfold sources_of. rewrite !list_elem_of_In, filter_In, includes_spec.
    by rewrite list_elem_of_In. }
  assert (Hm : missing_sources c codes = [] ->
    forall code, code ∈ codes -> exists s, s ∈ c_sources c /\ ps_jurisdictionCode s = code).
  { intros Hm code Hc. unfold missing_sources in Hm. apply fmap_nil_inv in Hm.
    destruct (existsb (fun s => String.eqb (ps_jurisdictionCode s) code) (sources_of c codes)) eqn:E.
    - apply existsb_exists in E as (s & Hin & Heq). bsplit. exists s. split; [|done].
      apply Hs. by apply list_elem_of_In.
    - assert (In code []) as []. rewrite <- Hm. apply filter_In. rewrite E. split; [|done].
      by apply list_elem_of_In. }
  case_match eqn:El; simpl in H.
  - simplify_eq. apply Nat.eqb_eq, length_zero_iff_nil in El. split_and!; [auto| |done].
    intros s H1 H2. assert (s ∈ sources_of c codes) as Hx by (by apply Hs).
    rewrite El in Hx. by apply elem_of_nil in Hx.
  - apply check_sources_fresh in H as (Hr & Hall & _ & Hgt). split_and!; [auto| |].
    + intros s H1 H2. apply Hall. by apply Hs.
    + intros m Hd. by destruct (Hgt m Hd).
Qed.

(** ** Candidate lemmas *)

(** The version of an applicability row is released and in effect at the
    instant the row's transition rule selects. *)
Definition applies (c : Catalog) (ctx : PolicyResolutionContext) (a : PolicyApplicability)
    (v : PolicyVersion) : Prop :=
  c_versions c !! pa_policyVersionId a = Some v /\ pv_releaseStatus v = RELEASED /\
  exists t, resolveApplicabilityInstant a ctx = inl t /\ pv_effectiveFrom v <= t /\
    forall to, pv_effectiveTo v = Some to -> t < to.

Record buckets_ok (P : PolicyVersion -> Prop) (m : list (string * list PolicyVersion)) : Prop := {
  bk_nodup : NoDup m.*1;
  bk_elem : forall k vs v, (k, vs) ∈ m -> v ∈ vs -> pv_ruleId v = k /\ P v;
  bk_nonempty : forall k vs, (k, vs) ∈ m -> vs <> [] }.

Lemma add_candidate_keys v m k : k ∈ (add_candidate v m).*1 <-> k ∈ m.*1 \/ k = pv_ruleId v.
Proof.
  induction m as [|[k' vs] m IH]; simpl.
  - rewrite list_elem_of_singleton. set_solver.
  - destruct (String.eqb k' (pv_ruleId v)) eqn:E; bsplit; simpl; set_solver.
Qed.

Lemma add_candidate_elem v m k vs :
  (k, vs) ∈ add_candidate v m ->
  (k, vs) ∈ m \/ (k = pv_ruleId v /\ exists vs0, vs = vs0 ++ [v] /\ (vs0 = [] \/ (k, vs0) ∈ m)).
Proof.
  induction m as [|[k' vs'] m IH]; simpl.
  - rewrite list_elem_of_singleton. intros [= -> ->]. right. split; [done|]. exists []. auto.
  - destruct (String.eqb k' (pv_ruleId v)) eqn:E; bsplit.
    + intros [[= -> ->]|Hin]%elem_of_cons.
      * right. split; [done|]. exists vs'. split; [done|]. right. by left.
      * left. by right.
    + intros [[= -> ->]|Hin]%elem_of_cons; [left; by left|].
      destruct (IH Hin) as [?|(-> & vs0 & -> & [->|?])]; [left; by right| |].
      * right. split; [done|]. exists []. auto.
      * right. split; [done|]. exists vs0. split; [done|]. right. by right.
Qed.

Lemma add_candidate_has v m : exists vs, (pv_ruleId v, vs) ∈ add_candidate v m /\ v ∈ vs.
Proof.
  induction m as [|[k vs] m (vs' & Hin & Hv)]; simpl.
  - exists [v]. split; [by left|by left].
  - destruct (String.eqb k (pv_ruleId v)) eqn:E; bsplit.
    + subst k. exists (vs ++ [v]). split; [by left|]. set_solver.
    + exists vs'. split; [by right|done].
Qed.

Lemma add_candidate_keeps v m k vs w :
  (k, vs) ∈ m -> w ∈ vs -> exists vs', (k, vs') ∈ add_candidate v m /\ w ∈ vs'.
Proof.
  induction m as [|[k' vs'] m IH]; simpl; [by intros ?%elem_of_nil|].
  intros [[= <- <-]|Hin]%elem_of_cons Hw.
  - destruct (String.eqb k (pv_ruleId v)); [exists (vs ++ [v])|exists vs];
      (split; [by left|set_solver]).
  - destruct (IH Hin Hw) as (vs0 & H0 & Hw0).
    destruct (String.eqb k' (pv_ruleId v)); [exists vs|exists vs0]; (split; [by right|done]).
Qed.

Lemma add_candidate_ok (P : PolicyVersion -> Prop) v m :
  buckets_ok P m -> P v -> buckets_ok P (add_candidate v m).
Proof.
  intros [Hnd Hel Hne] Hv. split.
  - clear Hel Hne. induction m as [|[k vs] m IH]; simpl; [apply NoDup_singleton|].
    simpl in Hnd. apply NoDup_cons in Hnd as [Hk Hnd].
    destruct (String.eqb k (pv_ruleId v)) eqn:E; bsplit; simpl; apply NoDup_cons; (split; [|auto]).
    + done.
    + rewrite add_candidate_keys. intros [?|?]; done.
  - intros k vs w Hin Hw. apply add_candidate_elem in Hin as [Hin|(-> & vs0 & -> & Hin)]; [eauto|].
    apply elem_of_app in Hw as [Hw|Hw].
    + destruct Hin as [->|Hin]; [by apply elem_of_nil in Hw|eauto].
    + apply list_elem_of_singleton in Hw as ->. done.
  - intros k vs Hin. apply add_candidate_elem in Hin as [Hin|(-> & vs0 & -> & _)]; [eauto|].
    by destruct vs0.
Qed.

Record search_ok (c : Catalog) (ctx : PolicyResolutionContext) (seen : list PolicyApplicability)
    (st : Search) : Prop := {
  so_buckets : buckets_ok (fun v => exists a, a ∈ seen /\ applies c ctx a v) (candidates st);
  so_complete : forall a v, a ∈ seen -> applies c ctx a v ->
    exists vs, (pv_ruleId v, vs) ∈ candidates st /\ v ∈ vs;
  so_upcoming : forall a v, a ∈ seen -> anchored a = false ->
    c_versions c !! pa_policyVersionId a = Some v -> pv_releaseStatus v = RELEASED ->
    resolveApplicabilityInstant a ctx = inl (asOf ctx) -> asOf ctx < pv_effectiveFrom v ->
    pv_effectiveFrom v ∈ boundaries st;
  so_ending : forall a v to, a ∈ seen -> anchored a = false -> applies c ctx a v ->
    pv_effectiveTo v = Some to -> to ∈ boundaries st;
  so_transitions : reasons st = [] -> forall a v, a ∈ seen ->
    c_versions c !! pa_policyVersionId a = Some v -> pv_releaseStatus v = RELEASED ->
    exists t, resolveApplicabilityInstant a ctx = inl t }.

Lemma buckets_mono (P Q : PolicyVersion -> Prop) m :
  (forall v, P v -> Q v) -> buckets_ok P m -> buckets_ok Q m.
Proof. intros HPQ [? Hel ?]. split; [done| |done]. intros k vs v H1 H2. destruct (Hel _ _ _ H1 H2). auto. Qed.

(** What one row adds to a search that covers the rows before it. *)
Section Consider.
Context (c : Catalog) (ctx : PolicyResolutionContext) (seen : list PolicyApplicability).
Context (a : PolicyApplicability) (st st' : Search).
Context (Hok : search_ok c ctx seen st).
Context (Hbk : buckets_ok (fun v => exists a', a' ∈ seen ++ [a] /\ applies c ctx a' v) (candidates st')).
Context (Hkeep : forall k vs v, (k, vs) ∈ candidates st -> v ∈ vs ->
           exists vs', (k, vs') ∈ candidates st' /\ v ∈ vs').
Context (Hbd : boundaries st ⊆ boundaries st').
Context (Hrs : reasons st' = [] -> reasons st = []).
Context (Hnew : forall v, applies c ctx a v ->
  (exists vs, (pv_ruleId v, vs) ∈ candidates st' /\ v ∈ vs) /\
  (forall to, anchored a = false -> pv_effectiveTo v = Some to -> to ∈ boundaries st')).
Context (Hup : forall v, anchored a = false ->
  c_versions c !! pa_policyVersionId a = Some v -> pv_releaseStatus v = RELEASED ->
  resolveApplicabilityInstant a ctx = inl (asOf ctx) -> asOf ctx < pv_effectiveFrom v ->
  pv_effectiveFrom v ∈ boundaries st').
Context (Htr : reasons st' = [] -> forall v,
  c_versions c !! pa_policyVersionId a = Some v -> pv_releaseStatus v = RELEASED ->
  exists t, resolveApplicabilityInstant a ctx = inl t).

Lemma search_extend : search_ok c ctx (seen ++ [a]) st'.
Proof using All.
  destruct Hok as [_ Hc Hu He Ht].
  assert (Hcase : forall x, x ∈ seen ++ [a] -> x ∈ seen \/ x = a).
  { intros x. rewrite elem_of_app, list_elem_of_singleton. done. }
  split.
  - done.
  - intros x v [Hx| ->]%Hcase Hv; [|by apply Hnew].
    destruct (Hc x v Hx Hv) as (vs & H1 & H2). eauto.
  - intros x v [Hx| ->]%Hcase; [|apply Hup]. intros. apply Hbd. by eapply Hu.
  - intros x v to [Hx| ->]%Hcase Hn Hv Hto; [apply Hbd; by eapply He|].
    destruct (Hnew v Hv) as [_ H]. auto.
  - intros Hr x v [Hx| ->]%Hcase; [|by apply Htr]. apply Ht; auto.
Qed.
End Consider.

Lemma seen_mono c ctx seen a m :
  buckets_ok (fun v => exists a', a' ∈ seen /\ applies c ctx a' v) m ->
  buckets_ok (fun v => exists a', a' ∈ seen ++ [a] /\ applies c ctx a' v) m.
Proof.
  apply buckets_mono. intros v (a' & Ha & Hv). exists a'. split; [|done]. apply elem_of_app. by left.
Qed.

Lemma consider_ok c ctx seen a st :
  search_ok c ctx seen st -> search_ok c ctx (seen ++ [a]) (consider c ctx st a).
Proof.
  intros Hok. pose proof (seen_mono c ctx seen a _ (so_buckets _ _ _ _ Hok)) as Hb.
  unfold consider. destruct (c_versions c !! pa_policyVersionId a) as [v|] eqn:Ev.
  2: { apply (search_extend c ctx seen a st); eauto; unfold applies; intros; naive_solver congruence. }
  destruct (bool_decide (pv_releaseStatus v = RELEASED)) eqn:Er; bsplit; simpl.
  2: { apply (search_extend c ctx seen a st); eauto; unfold applies; intros; naive_solver congruence. }
  destruct (resolveApplicabilityInstant a ctx) as [t|r] eqn:Et.
  2: { apply (search_extend c ctx seen a st); simpl; eauto.
       - intros Hn. by apply app_nil in Hn as [? _].
       - intros w (_ & _ & t & Ht & _). congruence.
       - congruence.
       - intros Hn. by apply app_nil in Hn as [_ ?]. }
  destruct (t <? pv_effectiveFrom v) eqn:Ef; bsplit.
  { apply (search_extend c ctx seen a st); simpl; eauto.
    - set_solver.
    - intros w (Hw & _ & t' & Ht' & Hle & _). rewrite Et in Ht'. simplify_eq. lia.
    - intros w Hna Hw _ _ _. simplify_eq. rewrite Hna. set_solver. }
  assert (Hin : a ∈ seen ++ [a]) by set_solver.
  destruct (pv_effectiveTo v) as [to|] eqn:Eto.
  - destruct (to <=? t) eqn:El; bsplit.
    { apply (search_extend c ctx seen a st); eauto.
      - intros w (Hw & _ & t' & Ht' & _ & Hto). rewrite Et in Ht'. simplify_eq. specialize (Hto _ Eto). lia.
      - intros w _ Hw _ Ht Hlt. rewrite Et in Ht. simplify_eq. lia. }
    apply (search_extend c ctx seen a st); simpl; eauto using add_candidate_keeps.
    + apply add_candidate_ok; [done|]. exists a. split; [done|]. split_and!; [done|done|].
      exists t. split_and!; [done|lia|]. intros. simplify_eq. lia.
    + set_solver.
    + intros w (Hw & _). simplify_eq. split; [apply add_candidate_has|].
      intros to' Hna Hto'. simplify_eq. rewrite Hna. set_solver.
    + intros w _ Hw _ Ht Hlt. rewrite Et in Ht. simplify_eq. lia.
  - apply (search_extend c ctx seen a st); simpl; eauto using add_candidate_keeps.
    + apply add_candidate_ok; [done|]. exists a. split; [done|]. split_and!; [done|done|].
      exists t. split_and!; [done|lia|]. congruence.
    + intros w (Hw & _). simplify_eq. split; [apply add_candidate_has|].
      intros to' Hna Hto'. congruence.
    + intros w _ Hw _ Ht Hlt. rewrite Et in Ht. simplify_eq. lia.
Qed.

Lemma consider_all_ok c ctx rows seen st :
  search_ok c ctx seen st ->
  search_ok c ctx (seen ++ rows) (fold_left (consider c ctx) rows st).
Proof.
  revert seen st. induction rows as [|a rows IH]; intros seen st Hok; simpl.
  - by rewrite app_nil_r.
  - replace (seen ++ a :: rows) with ((seen ++ [a]) ++ rows) by (by rewrite <- app_assoc).
    by apply IH, consider_ok.
Qed.

Lemma select_Ok pd ctx m acc rs out rs' :
  select pd ctx m acc rs = Ok (out, rs') -> (forall k vs, (k, vs) ∈ m -> vs <> []) ->
  (exists extra, rs' = rs ++ extra) /\
  (rs' = [] -> exists refs, out = acc ++ refs /\
     Forall2 (fun kv ref => exists v rule, kv.2 = [v] /\
       Dsl.parsePolicyRule pd (pv_dsl v) = Ok rule /\ ref = version_ref v rule) m refs).
Proof.
  revert acc rs. induction m as [|[k vs] m IH]; intros acc rs H Hne; simpl in H.
  - simplify_eq. split; [exists []; by rewrite app_nil_r|]. intros _. exists [].
    by rewrite app_nil_r.
  - assert (Hne' : forall k vs, (k, vs) ∈ m -> vs <> []) by (intros ? ? ?; eapply Hne; by right).
    case_match eqn:El.
    + apply IH in H as [[extra ->] _]; [|done]. split; [eexists; by rewrite <- app_assoc|].
      intros Hn. apply app_nil in Hn as [Hn _]. by apply app_nil in Hn as [_ ?].
    + destruct vs as [|v vs]; [by destruct (Hne k []); [by left|]|].
      destruct vs; [|done]. minv. apply IH in H as [Hex Href]; [|done]. split; [done|].
      intros Hn. destruct (Href Hn) as (refs & -> & HF). eexists (_ :: refs).
      split; [by rewrite <- app_assoc|]. constructor; [|done]. by eauto.
Qed.

Lemma applicability_rows_spec c ctx codes a :
  a ∈ applicability_rows c ctx codes <->
  a ∈ c_applicability c /\ pa_jurisdictionCode a ∈ codes /\
  pa_productCode a = productCode ctx /\ pa_lifecycleEvent a = lifecycleEvent ctx.
Proof.
  unfold applicability_rows. rewrite !list_elem_of_In, filter_In, !andb_true_iff, includes_spec.
  rewrite !String.eqb_eq, <- !list_elem_of_In. naive_solver.
Qed.

(** The run of [resolve] when it resolves. *)
Lemma resolve_RESOLVED {S} pd research c now ctx (s : S) res s' :
  resolve pd research c now ctx s = (Ok res, s') -> status res = RESOLVED ->
  s' = s /\ unresolvedReasons res = [] /\
  exists ancestry d st,
    loadCoveredAncestry (c_jurisdictions c) (jurisdictionCode ctx) = Covered ancestry /\
    validateSourceFreshness c (code <$> ancestry) now [] = (d, []) /\
    search_ok c ctx (applicability_rows c ctx (code <$> ancestry)) st /\ reasons st = [] /\
    Forall2 (fun kv ref => exists v rule, kv.2 = [v] /\
       Dsl.parsePolicyRule pd (pv_dsl v) = Ok rule /\ ref = version_ref v rule)
      (candidates st) (versions res) /\
    revalidateAfter res = head (order_by (fun t => t)
      (match d with Some d => [d] | None => [] end ++ boundaries st)).
Proof.
  intros H Hst. unfold resolve in H.
  assert (Hrev : forall rs s0, review research ctx rs s0 = (Ok res, s') -> False).
  { intros rs s0 Hr. unfold review in Hr. by minv. }
  destruct (loadCoveredAncestry _ _) as [ancestry| |] eqn:Ea; [|by destruct (Hrev _ _ H)..].
  destruct (validateSourceFreshness _ _ _ _) as [d rs0] eqn:Ev.
  destruct rs0 as [|r0 rs0]; [|by destruct (Hrev _ _ H)]. simpl in H.
  apply bind_Ok in H as ([vs rs] & s1 & Hs & H). minv.
  pose proof (consider_all_ok c ctx (applicability_rows c ctx (code <$> ancestry)) []
    {| candidates := []; boundaries := []; reasons := [] |}) as Hok.
  simpl in Hok. set (st := fold_left _ _ _) in *.
  assert (search_ok c ctx (applicability_rows c ctx (code <$> ancestry)) st) as Hst'.
  { apply Hok. split; simpl; try (by intros; set_solver).
    split; simpl; [apply NoDup_nil_2|set_solver|set_solver]. }
  match goal with H : select _ _ _ _ _ = Ok _ |- _ =>
    apply select_Ok in H as [[extra Hex] Hsel]; [|apply (bk_nonempty _ _ (so_buckets _ _ _ _ Hst'))] end.
  destruct rs as [|r1 rs]; [|by destruct (Hrev _ _ H)]. simpl in H. minv.
  symmetry in Hex. apply app_nil in Hex as [Hr _].
  destruct (Hsel eq_refl) as (refs & -> & HF). split_and!; [done|done|].
  exists ancestry, d, st. by split_and!.
Qed.

(** ** Properties *)

(** C24: The ancestry walk terminates and is exact.  On a jurisdiction table
    keyed by code, the walk from a non-empty code never exhausts its bound,
    and it yields a list of jurisdictions exactly when that list is the chain
    of covered jurisdictions from the code up to a root, without repetition;
    a cycle, an unknown code or a code that is not COVERED is refused. *)
Theorem ancestry_is_exact js leaf l :
  (forall k j, js !! k = Some j -> code j = k) -> leaf <> "" ->
  loadCoveredAncestry js leaf <> OutOfFuel /\
  (chain js leaf l -> NoDup (code <$> l) -> loadCoveredAncestry js leaf = Covered l) /\
  (loadCoveredAncestry js leaf = Covered l -> chain js leaf l).
Proof.
  intros Hkey Hne. split; [apply loadCoveredAncestry_total|]. split.
  - intros Hch Hnd. apply (ancestry_loop_finds js _ leaf l [] []); eauto.
    + intros j Hj. clear Hnd. induction Hch as [c j0 Hj0 ? ?|c j0 p l Hj0 ? ? ? ? IH].
      * apply list_elem_of_singleton in Hj as ->. by rewrite (Hkey _ _ Hj0).
      * apply elem_of_cons in Hj as [->|Hj]; [by rewrite (Hkey _ _ Hj0)|auto].
    + assert (length (code <$> l) <= size js)%nat as Hlen.
      { apply visited_bound; [done|]. clear Hnd. intros k Hk.
        induction Hch as [c j0 Hj0 ? ?|c j0 p l Hj0 ? ? ? ? IH]; simpl in Hk.
        - apply list_elem_of_singleton in Hk as ->. rewrite (Hkey _ _ Hj0). by eexists.
        - apply elem_of_cons in Hk as [->|Hk]; [rewrite (Hkey _ _ Hj0); by eexists|auto]. }
      rewrite length_fmap in Hlen. lia.
  - intros H. unfold loadCoveredAncestry in H.
    apply ancestry_loop_chain in H as (l' & -> & ?); done.
Qed.

(** C14: A resolution is grounded.  When [resolve] answers RESOLVED for a
    non-empty jurisdiction code: the codes consulted are the covered ancestry
    of the case's jurisdiction; each of them has a registered source, and
    every source of theirs is within its freshness objective; every policy
    version returned is a parsed, released version in effect at the instant
    its transition rule selects; every such version is returned; no rule is
    returned twice; and nothing was requested from research. *)
Theorem resolution_is_grounded {S} pd research c now ctx (s : S) res s' :
  resolve pd research c now ctx s = (Ok res, s') -> status res = RESOLVED ->
  jurisdictionCode ctx <> "" ->
  s' = s /\ exists ancestry,
    chain (c_jurisdictions c) (jurisdictionCode ctx) ancestry /\
    (forall j, j ∈ ancestry -> exists src, src ∈ c_sources c /\ ps_jurisdictionCode src = code j) /\
    (forall src, src ∈ c_sources c -> ps_jurisdictionCode src ∈ code <$> ancestry ->
       exists d, fresh c now src d) /\
    (forall ref, ref ∈ versions res -> exists a v rule,
       a ∈ applicability_rows c ctx (code <$> ancestry) /\ applies c ctx a v /\
       Dsl.parsePolicyRule pd (pv_dsl v) = Ok rule /\ ref = version_ref v rule) /\
    (forall a v, a ∈ applicability_rows c ctx (code <$> ancestry) -> applies c ctx a v ->
       exists ref, ref ∈ versions res /\ rv_policyVersionId ref = pv_id v) /\
    NoDup (rv_ruleId <$> versions res).
Proof.
  intros H Hst Hne. apply resolve_RESOLVED in H
    as (-> & _ & ancestry & d & st & Ha & Hv & Hok & _ & HF & _); [|done].
  split; [done|]. exists ancestry. apply ancestry_loop_chain in Ha as (l & -> & Hch); [|done].
  simpl in *. apply validateSourceFreshness_Ok in Hv as (Hsrc & Hfresh & _).
  destruct (so_buckets _ _ _ _ Hok) as [Hnd Hel _]. split_and!; [done| | | | |].
  - intros j Hj. apply Hsrc. apply list_elem_of_fmap. eauto.
  - intros src H1 H2. destruct (Hfresh src H1 H2) as (dl & ? & _). eauto.
  - intros ref Href. apply list_elem_of_lookup_1 in Href as [n Hn].
    destruct (Forall2_lookup_r _ _ _ _ _ HF Hn) as ([k vs] & Hk & v & rule & Evs & Hp & ->).
    simpl in Evs. subst vs. apply list_elem_of_lookup_2 in Hk.
    destruct (Hel k [v] v Hk ltac:(by left)) as (_ & a & Hain & Hap). eauto 10.
  - intros a v Hain Hap. destruct (so_complete _ _ _ _ Hok a v Hain Hap) as (vs & Hin & Hvs).
    apply list_elem_of_lookup_1 in Hin as [n Hn].
    destruct (Forall2_lookup_l _ _ _ _ _ HF Hn) as (ref & Hk & w & rule & Evs & _ & ->).
    simpl in Evs. subst vs. apply list_elem_of_singleton in Hvs as ->.
    exists (version_ref w rule). split; [by eapply list_elem_of_lookup_2|done].
  - assert (rv_ruleId <$> versions res = (candidates st).*1) as ->; [|done].
    clear -HF Hel. induction HF as [|[k vs] ref m refs (v & rule & Evs & _ & ->) _ IH]; [done|].
    simpl in *. subst vs. f_equal; [|apply IH; intros; eapply Hel; [by right|done]].
    by destruct (Hel k [v] v ltac:(by left) ltac:(by left)).
Qed.

(** The run of [resolve] when it does not resolve. *)
Lemma resolve_REVIEW {S} pd research c now ctx (s : S) res s' :
  resolve pd research c now ctx s = (Ok res, s') -> status res = REVIEW_REQUIRED ->
  versions res = [] /\ unresolvedReasons res <> [] /\
  match research with
  | Some f => f ctx (unresolvedReasons res) s = (Ok tt, s')
  | None => s' = s
  end.
Proof.
  assert (Hrev : forall rs s0, review research ctx rs s0 = (Ok res, s') -> rs <> [] ->
    versions res = [] /\ unresolvedReasons res <> [] /\
    match research with
    | Some f => f ctx (unresolvedReasons res) s0 = (Ok tt, s')
    | None => s' = s0
    end).
  { intros rs s0 Hr Hne. unfold review in Hr. apply bind_Ok in Hr as ([] & s1 & Hr & H). minv.
    split; [done|]. split; [done|]. destruct research; [done|by minv]. }
  intros H Hst. unfold resolve in H.
  destruct (loadCoveredAncestry _ _) as [ancestry|r|] eqn:Ea; [|by apply (Hrev [r])|].
  2: { by destruct (loadCoveredAncestry_total (c_jurisdictions c) (jurisdictionCode ctx)). }
  destruct (validateSourceFreshness _ _ _ _) as [d rs0].
  destruct rs0 as [|r0 rs0]; [|by apply (Hrev (r0 :: rs0))]. simpl in H.
  apply bind_Ok in H as ([vs rs] & s1 & Hs & H). unfold lift in Hs. injection Hs as Hs <-.
  destruct rs as [|r1 rs]; [simpl in H; by minv|by apply (Hrev (r1 :: rs))].
Qed.

(** Everything else goes to a person.  A resolution that is not RESOLVED
    returns no policy version and names at least one reason; those very
    reasons have been handed to policy research when it is configured.  The
    reasons cover every way the code can fail to know: a jurisdiction that is
    unknown, cyclic or not covered, a missing or stale source, a transition
    rule it does not support, overlapping versions. *)
Theorem unresolved_goes_to_review {S} pd research c now ctx (s : S) res s' :
  resolve pd research c now ctx s = (Ok res, s') -> status res = REVIEW_REQUIRED ->
  versions res = [] /\ unresolvedReasons res <> [] /\
  match research with
  | Some f => f ctx (unresolvedReasons res) s = (Ok tt, s')
  | None => s' = s
  end.
Proof. apply resolve_REVIEW. Qed.

(** A resolution is looked at again in time.  The instant a resolution
    asks to be revalidated is no later than the freshness deadline of any
    source consulted, no later than the start of any released version that is
    due to take effect, and no later than the end of any version returned,
    rules anchored to the application's receipt time apart. *)
Theorem revalidation_precedes_change {S} pd research c now ctx (s : S) res s' ancestry :
  resolve pd research c now ctx s = (Ok res, s') -> status res = RESOLVED ->
  loadCoveredAncestry (c_jurisdictions c) (jurisdictionCode ctx) = Covered ancestry ->
  (forall src dl, src ∈ c_sources c -> ps_jurisdictionCode src ∈ code <$> ancestry ->
     fresh c now src dl -> exists t, revalidateAfter res = Some t /\ t <= dl) /\
  (forall a v, a ∈ applicability_rows c ctx (code <$> ancestry) -> anchored a = false ->
     c_versions c !! pa_policyVersionId a = Some v -> pv_releaseStatus v = RELEASED ->
     asOf ctx < pv_effectiveFrom v ->
     exists t, revalidateAfter res = Some t /\ t <= pv_effectiveFrom v) /\
  (forall a v to, a ∈ applicability_rows c ctx (code <$> ancestry) -> anchored a = false ->
     applies c ctx a v -> pv_effectiveTo v = Some to ->
     exists t, revalidateAfter res = Some t /\ t <= to).
Proof.
  intros H Hst Ha. apply resolve_RESOLVED in H
    as (_ & _ & ancestry' & d & st & Ha' & Hv & Hok & Hrs & _ & Hre); [|done].
  assert (ancestry' = ancestry) as -> by congruence.
  assert (Hmin : forall b, b ∈ match d with Some d => [d] | None => [] end ++ boundaries st ->
    exists t, revalidateAfter res = Some t /\ t <= b).
  { intros b Hb. rewrite Hre. set (l := _ ++ boundaries st) in *.
    destruct (head (order_by (fun t => t) l)) as [t|] eqn:Eh.
    - exists t. split; [done|]. by apply (order_by_head_min (fun t => t) l t Eh).
    - apply (elem_order_by (fun t => t)) in Hb. destruct (order_by _ l); [|done].
      by apply elem_of_nil in Hb. }
  apply validateSourceFreshness_Ok in Hv as (_ & Hfresh & _). split_and!.
  - intros src dl H1 H2 Hf. destruct (Hfresh src H1 H2) as (dl' & Hf' & m & -> & Hle).
    destruct (Hmin m) as (t & Ht & ?); [simpl; by left|]. exists t. split; [done|].
    destruct Hf as (r & Er & _ & -> & _), Hf' as (r' & Er' & _ & -> & _). simplify_eq. lia.
  - intros a v Hin Hna Hav Hrel Hlt. apply Hmin, elem_of_app. right.
    eapply (so_upcoming _ _ _ _ Hok); eauto.
    destruct (so_transitions _ _ _ _ Hok Hrs a v Hin Hav Hrel) as (t & Ht).
    rewrite Ht. f_equal. unfold resolveApplicabilityInstant, anchored in *.
    destruct (pa_transitionRule a) as [tr|]; [|congruence].
    rewrite Hna in Ht. repeat case_match; congruence.
  - intros a v to Hin Hna Hap Hto. apply Hmin, elem_of_app. right.
    by eapply (so_ending _ _ _ _ Hok).
Qed.

(** ** A concrete catalog: a state under the federal level, one rule *)

Definition us : Jurisdiction := {| code := "US"; parentCode := None; coverageStatus := COVERED |}.
Definition us_ca : Jurisdiction :=
  {| code := "US-CA"; parentCode := Some "US"; coverageStatus := COVERED |}.
Definition us_nv : Jurisdiction :=
  {| code := "US-NV"; parentCode := Some "US"; coverageStatus := PARTIAL |}.
Definition jurisdictions0 : gmap string Jurisdiction :=
  <["US" := us]> (<["US-CA" := us_ca]> (<["US-NV" := us_nv]> ∅)).

Definition version0 : PolicyVersion :=
  {| pv_id := "v1"; pv_ruleId := "income-variance"; pv_version := "1.0.0";
     pv_dsl := Dsl.print_rule Dsl.income_rule Dsl.VUndefined;
     pv_effectiveFrom := 1000; pv_effectiveTo := Some 90000; pv_releaseStatus := RELEASED |}.
Definition row0 : PolicyApplicability :=
  {| pa_id := "a1"; pa_policyVersionId := "v1"; pa_jurisdictionCode := "US-CA";
     pa_productCode := "CONVENTIONAL_MORTGAGE"; pa_lifecycleEvent := "PRE_DECISION";
     pa_transitionRule := None |}.
Definition source0 (id j : string) : PolicySource :=
  {| ps_id := id; ps_name := id; ps_jurisdictionCode := j; ps_freshnessObjectiveHours := 1 |}.

Definition catalog0 : Catalog :=
  {| c_jurisdictions := jurisdictions0; c_applicability := [row0];
     c_versions := {[ "v1" := version0 ]};
     c_sources := [source0 "federal" "US"; source0 "state" "US-CA"];
     c_revisions := [{| sr_id := "r1"; sr_policySourceId := "federal"; sr_recordedAt := 2000 |};
                     {| sr_id := "r2"; sr_policySourceId := "state"; sr_recordedAt := 3000 |}] |}.

Definition ctx0 (j : string) : PolicyResolutionContext :=
  {| jurisdictionCode := j; productCode := "CONVENTIONAL_MORTGAGE";
     lifecycleEvent := "PRE_DECISION"; asOf := 5000; applicationReceivedAt := None |}.

Definition no_research : option (PolicyResolutionContext -> list Unresolved ->
  M unit (list Dsl.PolicyDslIssue) unit) := None.

Definition resolve0 (j : string) : result (list Dsl.PolicyDslIssue) PolicyResolutionResult :=
  (resolve Dsl.nonempty_date no_research catalog0 5000 (ctx0 j) tt).1.

Lemma chain0 : chain jurisdictions0 "US-CA" [us_ca; us].
Proof.
  apply (chain_up _ "US-CA" us_ca "US"); [reflexivity|reflexivity|reflexivity|discriminate|].
  apply chain_root; [reflexivity|reflexivity|by left].
Qed.

Lemma ancestry_is_exact_witness :
  loadCoveredAncestry jurisdictions0 "US-CA" = Covered [us_ca; us] /\
  loadCoveredAncestry jurisdictions0 "US-NV" = Uncovered (NotCovered "US-NV").
Proof.
  split; [|reflexivity]. apply (ancestry_is_exact jurisdictions0 "US-CA" [us_ca; us]).
  - intros k j. unfold jurisdictions0. rewrite !lookup_insert.
    repeat case_decide; intros; simplify_eq; done.
  - discriminate.
  - apply chain0.
  - apply (bool_decide_unpack _). reflexivity.
Defined.

Lemma resolution_is_grounded_witness :
  exists res ref, resolve0 "US-CA" = Ok res /\ versions res = [ref] /\
    rv_policyVersionId ref = "v1" /\ NoDup (rv_ruleId <$> versions res).
Proof.
  destruct (resolve Dsl.nonempty_date no_research catalog0 5000 (ctx0 "US-CA") tt) as [o s] eqn:E.
  destruct o as [res|e]; [|vm_compute in E; discriminate E].
  destruct (resolution_is_grounded Dsl.nonempty_date no_research catalog0 5000 (ctx0 "US-CA") tt res s E)
    as (_ & ancestry & _ & _ & _ & _ & _ & Hnd).
  - vm_compute in E. injection E as <- _. reflexivity.
  - discriminate.
  - exists res. vm_compute in E. injection E as <- _.
    eexists. split; [vm_compute; reflexivity|]. split; [reflexivity|]. split; [reflexivity|exact Hnd].
Defined.

Lemma unresolved_goes_to_review_witness :
  exists res, resolve0 "US-NV" = Ok res /\ versions res = [] /\
    unresolvedReasons res = [NotCovered "US-NV"].
Proof.
  destruct (resolve Dsl.nonempty_date no_research catalog0 5000 (ctx0 "US-NV") tt) as [o s] eqn:E.
  destruct o as [res|e]; [|vm_compute in E; discriminate E].
  destruct (unresolved_goes_to_review Dsl.nonempty_date no_research catalog0 5000 (ctx0 "US-NV") tt res s E)
    as (Hv & _ & _).
  - vm_compute in E. injection E as <- _. reflexivity.
  - exists res. vm_compute in E. injection E as <- _. split; [reflexivity|]. split; [exact Hv|reflexivity].
Defined.

Lemma revalidation_precedes_change_witness :
  exists res t, resolve0 "US-CA" = Ok res /\ revalidateAfter res = Some t /\ t <= 90000.
Proof.
  destruct (resolve Dsl.nonempty_date no_research catalog0 5000 (ctx0 "US-CA") tt) as [o s] eqn:E.
  destruct o as [res|e]; [|vm_compute in E; discriminate E].
  destruct (proj2 (proj2 (revalidation_precedes_change Dsl.nonempty_date no_research catalog0 5000
    (ctx0 "US-CA") tt res s [us_ca; us] E ltac:(vm_compute in E; injection E as <- _; reflexivity)
    eq_refl)) row0 version0 90000) as (t & Ht & Hle).
  - left.
  - reflexivity.
  - split; [reflexivity|]. split; [reflexivity|]. exists 5000. split; [reflexivity|].
    split; [simpl; lia|]. intros to [= <-]. lia.
  - reflexivity.
  - exists res, t. unfold resolve0. rewrite E. auto.
Defined.

End Resolver.
