(* ===== verification/PolicyEvaluation.v ===== *)
(** * Policy bindings of a case

    policy/policy-evaluation.service.ts: [PolicyEvaluationService.evaluate]
    reuses the policy snapshot a case is bound to while it is still valid,
    and otherwise resolves again and rebinds the case.

    The method is a sequence of small transactions; [env n] is what other
    callers commit before the n-th of them.  The resolver is an interface
    ([PolicyResolver]) with what this service relies on as its laws
    ([ResolverLaws]); the resolver of [PolicyResolver.v] is an instance.
    Dates inside a snapshot are kept as times instead of ISO strings. *)

From Stdlib Require Import Ascii.
From stdpp Require Import gmap strings list sorting.
From S2P Require Import Prelude PolicyDsl PolicyDigest PolicyResolver.

Module Evaluation.
Import Resolver.

(** ** Rows *)

Record CasePolicySnapshot := {
  sn_id : string; sn_tenantId : string; sn_caseId : string;
  sn_contextHash : string; sn_resolverVersion : string;
  sn_resolutionStatus : ResolutionStatus;
  sn_versions : list ResolvedPolicyVersionRef;
  sn_unresolvedReasons : list Unresolved }.

Record CasePolicyBinding := {
  bd_id : string; bd_tenantId : string; bd_caseId : string;
  bd_dependencyDigest : string; bd_contextKey : string;
  bd_observedCatalogGeneration : Z; bd_policySnapshotId : string;
  bd_revalidateAfter : Z; bd_boundAt : Z; bd_invalidatedAt : option Z }.

Record PolicyDb := {
  generation : option Z;
  catalog : Catalog;
  bindings : gmap string CasePolicyBinding;
  snapshots : gmap string CasePolicySnapshot }.

Definition put_binding (b : CasePolicyBinding) (db : PolicyDb) : PolicyDb :=
  {| generation := generation db; catalog := catalog db;
     bindings := <[bd_id b := b]> (bindings db); snapshots := snapshots db |}.
Definition put_snapshot (s : CasePolicySnapshot) (db : PolicyDb) : PolicyDb :=
  {| generation := generation db; catalog := catalog db;
     bindings := bindings db; snapshots := <[sn_id s := s]> (snapshots db) |}.

Inductive Failure :=
| InvalidRule (issues : list Dsl.PolicyDslIssue)
| EntityNotFound
| UniqueViolation.

Definition isUniqueViolation (e : Failure) : bool :=
  match e with UniqueViolation => true | _ => false end.

(** ** The resolver this service depends on *)

Class PolicyResolver := {
  resolve_with : Z -> PolicyResolutionContext -> M PolicyDb Failure PolicyResolutionResult }.

(** What the service relies on: a resolution is one of the two kinds, and
    resolving leaves the policy tables alone. *)
Class ResolverLaws `{PolicyResolver} : Prop := {
  resolver_frame : forall now ctx db,
    bindings (resolve_with now ctx db).2 = bindings db /\
    snapshots (resolve_with now ctx db).2 = snapshots db;
  resolver_catalog : forall now ctx db,
    generation (resolve_with now ctx db).2 = generation db /\
    catalog (resolve_with now ctx db).2 = catalog db;
  resolver_review : forall now ctx db res db',
    resolve_with now ctx db = (Ok res, db') -> status res = REVIEW_REQUIRED ->
    versions res = [] /\ unresolvedReasons res <> [];
  resolver_resolved : forall now ctx db res db',
    resolve_with now ctx db = (Ok res, db') -> status res = RESOLVED ->
    unresolvedReasons res = [] }.

(** ** Pure parts *)

Definition RESOLVER_VERSION : string := "2.0.0".
Definition MAX_VALIDATION_INTERVAL_MS : Z := 60 * 60 * 1000.

(** The clock and the generated keys of one call. *)
Record Call := {
  call_now : Z; call_resolvedAt : Z; call_later : Z; call_boundAt : Z;
  call_snapshotId : string; call_bindingId : string }.

Section Service.
(** [toISOString], the collation of [localeCompare], the hash, and the texts
    of the reasons. *)
Context (iso : Z -> string) (collation : string -> Z).
Context (sha256 : Dsl.value -> string) (reason_text : Unresolved -> string).

Definition snapshotVersions (r : PolicyResolutionResult) : list ResolvedPolicyVersionRef :=
  order_by (fun v => collation (rv_policyVersionId v)) (versions r).

Definition contextKey (ctx : PolicyResolutionContext) : string :=
  jurisdictionCode ctx +:+ "|" +:+ productCode ctx +:+ "|" +:+ lifecycleEvent ctx +:+ "|" +:+
  match applicationReceivedAt ctx with Some t => iso t | None => "UNSPECIFIED" end.

Definition nextRevalidationDeadline (validatedAt : Z) (r : PolicyResolutionResult) : Z :=
  let maximumInterval := validatedAt + MAX_VALIDATION_INTERVAL_MS in
  match revalidateAfter r with
  | Some t => if t <? maximumInterval then t else maximumInterval
  | None => maximumInterval
  end.

Definition reconstructResolution (s : CasePolicySnapshot) : PolicyResolutionResult :=
  {| status := match sn_resolutionStatus s with RESOLVED => RESOLVED | _ => REVIEW_REQUIRED end;
     versions := sn_versions s; unresolvedReasons := sn_unresolvedReasons s;
     revalidateAfter := None |}.

(** The parsed rule as a value. *)
Definition rule_value (d : Dsl.PolicyRuleDocument) : Dsl.value :=
  let a := Dsl.doc_applicability d in
  Dsl.VObject
    [("id", Dsl.VString (Dsl.doc_id d)); ("version", Dsl.VString (Dsl.doc_version d));
     ("applicability", Dsl.VObject
       ([("jurisdictions", Dsl.VArray (Dsl.VString <$> Dsl.jurisdictions a));
         ("product", Dsl.VString (Dsl.product a));
         ("lifecycleEvents", Dsl.VArray (Dsl.VString <$> Dsl.lifecycleEvents a));
         ("effectiveFrom", Dsl.VString (Dsl.effectiveFrom a));
         ("transitionRule", Dsl.print_transition (Dsl.transitionRule a))]));
     ("when", match Dsl.doc_when d with
              | Dsl.difference_percent lf rt g =>
                  Dsl.VObject [("kind", Dsl.VString "difference_percent");
                    ("left", Dsl.VString lf); ("right", Dsl.VString rt);
                    ("greaterThan", Dsl.VNumber g)]
              end);
     ("outcome", Dsl.VObject [("condition", Dsl.VString (Dsl.oc_condition (Dsl.doc_outcome d)));
                              ("route", Dsl.VString (Dsl.oc_route (Dsl.doc_outcome d)))])].

Definition version_value (v : ResolvedPolicyVersionRef) : Dsl.value :=
  Dsl.VObject
    [("policyVersionId", Dsl.VString (rv_policyVersionId v));
     ("ruleId", Dsl.VString (rv_ruleId v)); ("version", Dsl.VString (rv_version v));
     ("rule", rule_value (rv_rule v));
     ("effectiveFrom", Dsl.VString (iso (rv_effectiveFrom v)));
     ("effectiveTo", match rv_effectiveTo v with
                     | Some t => Dsl.VString (iso t) | None => Dsl.VNull end)].

Definition status_text (s : ResolutionStatus) : string :=
  match s with RESOLVED => "RESOLVED" | REVIEW_REQUIRED => "REVIEW_REQUIRED" end.

Definition resolution_digest (r : PolicyResolutionResult) : string :=
  Digest.computeDigest sha256 (Dsl.VObject
    [("status", Dsl.VString (status_text (status r)));
     ("unresolvedReasons",
       Dsl.VArray (Dsl.VString <$> merge_sort String.le (reason_text <$> unresolvedReasons r)));
     ("versions", Dsl.VArray (version_value <$> snapshotVersions r))]).

(** ** Statements *)

Context `{PolicyResolver}.
Context (env : nat -> PolicyDb -> PolicyDb).

Notation run := (M PolicyDb Failure).

(** The n-th transaction, after what others committed before it. *)
Definition tx {A} (n : nat) (m : run A) : run A := _ ← modify (env n); m.

Definition getCurrentGeneration : run Z :=
  g ← gets generation; or_throw g EntityNotFound.

Definition is_active (tenantId caseId : string) (b : CasePolicyBinding) : bool :=
  String.eqb (bd_tenantId b) tenantId && String.eqb (bd_caseId b) caseId &&
  bool_decide (bd_invalidatedAt b = None).

Definition active_binding (tenantId caseId : string) (db : PolicyDb) : option CasePolicyBinding :=
  head (order_by (fun b => - bd_boundAt b) (find_rows (is_active tenantId caseId) (bindings db))).

Definition persistSnapshot (id tenantId caseId : string) (r : PolicyResolutionResult)
    (digest : string) : run CasePolicySnapshot :=
  let s := {| sn_id := id; sn_tenantId := tenantId; sn_caseId := caseId;
              sn_contextHash := digest; sn_resolverVersion := RESOLVER_VERSION;
              sn_resolutionStatus :=
                match status r with RESOLVED => RESOLVED | _ => REVIEW_REQUIRED end;
              sn_versions := snapshotVersions r;
              sn_unresolvedReasons := unresolvedReasons r |} in
  taken ← gets (fun db => snapshots db !! id);
  _ ← guard_throw (bool_decide (is_Some taken)) UniqueViolation;
  _ ← modify (put_snapshot s);
  mret s.

Definition invalidated (at_ : Z) (b : CasePolicyBinding) : CasePolicyBinding :=
  {| bd_id := bd_id b; bd_tenantId := bd_tenantId b; bd_caseId := bd_caseId b;
     bd_dependencyDigest := bd_dependencyDigest b; bd_contextKey := bd_contextKey b;
     bd_observedCatalogGeneration := bd_observedCatalogGeneration b;
     bd_policySnapshotId := bd_policySnapshotId b; bd_revalidateAfter := bd_revalidateAfter b;
     bd_boundAt := bd_boundAt b; bd_invalidatedAt := Some at_ |}.

Definition refreshed (gen after : Z) (b : CasePolicyBinding) : CasePolicyBinding :=
  {| bd_id := bd_id b; bd_tenantId := bd_tenantId b; bd_caseId := bd_caseId b;
     bd_dependencyDigest := bd_dependencyDigest b; bd_contextKey := bd_contextKey b;
     bd_observedCatalogGeneration := gen;
     bd_policySnapshotId := bd_policySnapshotId b; bd_revalidateAfter := after;
     bd_boundAt := bd_boundAt b; bd_invalidatedAt := bd_invalidatedAt b |}.

(** [update({ id }, set)] *)
Definition update_binding (id : string) (set : CasePolicyBinding -> CasePolicyBinding) : run unit :=
  modify (fun db => match bindings db !! id with
                    | Some b => put_binding (set b) db
                    | None => db
                    end).

(** [update({ tenantId, caseId, invalidatedAt: IsNull() }, { invalidatedAt })] *)
Definition invalidateActiveBinding (at_ : Z) (tenantId caseId : string) : run unit :=
  modify (fun db =>
    {| generation := generation db; catalog := catalog db;
       bindings := (fun b => if is_active tenantId caseId b then invalidated at_ b else b)
                     <$> bindings db;
       snapshots := snapshots db |}).

(** The insert, with the partial unique index on the active rows. *)
Definition insert_binding (b : CasePolicyBinding) : run CasePolicyBinding :=
  taken ← gets (fun db => bindings db !! bd_id b);
  dup ← gets (fun db => find_row (is_active (bd_tenantId b) (bd_caseId b)) (bindings db));
  _ ← guard_throw (bool_decide (is_Some taken) || bool_decide (is_Some dup)) UniqueViolation;
  _ ← modify (put_binding b);
  mret b.

(** ** [evaluate] *)

Inductive EvaluationOutcome := REUSED | REFRESHED | NEEDS_REVIEW.

Record PolicyEvaluationResult := {
  outcome : EvaluationOutcome;
  resolution : PolicyResolutionResult;
  res_snapshot : CasePolicySnapshot;
  res_binding : option CasePolicyBinding }.

(** The tests both reuse paths share. *)
Definition comparable (key : string) (existing : option (CasePolicyBinding * CasePolicySnapshot))
  : option (CasePolicyBinding * CasePolicySnapshot) :=
  match existing with
  | Some (b, s) =>
      if String.eqb (sn_resolverVersion s) RESOLVER_VERSION && String.eqb (bd_contextKey b) key
      then Some (b, s) else None
  | None => None
  end.

Definition load_existing (tenantId caseId : string)
  : run (option (CasePolicyBinding * CasePolicySnapshot)) :=
  b ← tx 1 (gets (active_binding tenantId caseId));
  match b with
  | None => mret None
  | Some b =>
      s ← tx 2 (gets (fun db => snapshots db !! bd_policySnapshotId b));
      s ← or_throw s EntityNotFound;
      mret (Some (b, s))
  end.

Definition bind_case (c : Call) (tenantId caseId : string) (gen : Z) (key digest : string)
    (r : PolicyResolutionResult) (s : CasePolicySnapshot) : run PolicyEvaluationResult :=
  catch
    (b ← tx 6 (transaction (insert_binding
       {| bd_id := call_bindingId c; bd_tenantId := tenantId; bd_caseId := caseId;
          bd_dependencyDigest := digest; bd_contextKey := key;
          bd_observedCatalogGeneration := gen; bd_policySnapshotId := sn_id s;
          bd_revalidateAfter := nextRevalidationDeadline (call_now c) r;
          bd_boundAt := call_boundAt c; bd_invalidatedAt := None |}));
     mret {| outcome := REFRESHED; resolution := r; res_snapshot := s; res_binding := Some b |})
    (fun e =>
       if negb (isUniqueViolation e) then throw e else
       w ← tx 7 (gets (fun db => find_row (is_active tenantId caseId) (bindings db)));
       w ← or_throw w EntityNotFound;
       ws ← tx 8 (gets (fun db => snapshots db !! bd_policySnapshotId w));
       ws ← or_throw ws EntityNotFound;
       mret {| outcome := REUSED; resolution := reconstructResolution ws;
               res_snapshot := ws; res_binding := Some w |}).

(** The slow path, after the fast path was refused. *)
Definition evaluate_slow (c : Call) (tenantId caseId : string) (ctx : PolicyResolutionContext)
    (gen : Z) (key : string) (existing : option (CasePolicyBinding * CasePolicySnapshot))
  : run PolicyEvaluationResult :=
  r ← tx 3 (resolve_with (call_resolvedAt c) ctx);
  let digest := resolution_digest r in
  match status r with
  | REVIEW_REQUIRED =>
      s ← tx 4 (persistSnapshot (call_snapshotId c) tenantId caseId r digest);
      _ ← tx 5 (invalidateActiveBinding (call_later c) tenantId caseId);
      mret {| outcome := NEEDS_REVIEW; resolution := r; res_snapshot := s; res_binding := None |}
  | RESOLVED =>
      let rebind :=
        s ← tx 4 (persistSnapshot (call_snapshotId c) tenantId caseId r digest);
        _ ← match existing with
            | Some (b, _) => tx 5 (update_binding (bd_id b) (invalidated (call_now c)))
            | None => mret tt
            end;
        bind_case c tenantId caseId gen key digest r s in
      match comparable key existing with
      | Some (b, s) =>
          if String.eqb (bd_dependencyDigest b) digest then
            let after := nextRevalidationDeadline (call_now c) r in
            _ ← tx 4 (update_binding (bd_id b) (refreshed gen after));
            mret {| outcome := REUSED; resolution := r; res_snapshot := s;
                    res_binding := Some (refreshed gen after b) |}
          else rebind
      | None => rebind
      end
  end.

Definition evaluateInternal (c : Call) (tenantId caseId : string) (ctx : PolicyResolutionContext)
  : run PolicyEvaluationResult :=
  gen ← tx 0 getCurrentGeneration;
  let key := contextKey ctx in
  existing ← load_existing tenantId caseId;
  match comparable key existing with
  | Some (b, s) =>
      if (bd_observedCatalogGeneration b =? gen) && (call_now c <? bd_revalidateAfter b)
      then mret {| outcome := REUSED; resolution := reconstructResolution s;
                   res_snapshot := s; res_binding := Some b |}
      else evaluate_slow c tenantId caseId ctx gen key existing
  | None => evaluate_slow c tenantId caseId ctx gen key existing
  end.

End Service.

(** ** The resolver of the catalog as an instance *)

Section CatalogResolver.
Context (parses_as_date : string -> bool).
Context (research : option (PolicyResolutionContext -> list Unresolved ->
  M PolicyDb (list Dsl.PolicyDslIssue) unit)).

Definition catalog_resolve (now : Z) (ctx : PolicyResolutionContext)
  : M PolicyDb Failure PolicyResolutionResult := fun db =>
  match resolve parses_as_date research (catalog db) now ctx db with
  | (Ok r, db') => (Ok r, db')
  | (Err issues, db') => (Err (InvalidRule issues), db')
  end.

#[local] Instance catalog_resolver : PolicyResolver := {| resolve_with := catalog_resolve |}.

(** Research records its requests elsewhere. *)
Hypothesis research_frame : forall f ctx rs db, research = Some f ->
  (f ctx rs db).2 = db.

Lemma review_frame ctx rs db : (review research ctx rs db).2 = db.
Proof using research_frame.
  unfold review, mbind, M_bind. destruct research as [f|]; [|done].
  pose proof (research_frame f ctx rs db eq_refl) as Hf. by destruct (f ctx rs db) as [[]].
Qed.

Lemma catalog_resolve_frame now ctx db : (catalog_resolve now ctx db).2 = db.
Proof using research_frame.
  unfold catalog_resolve.
  assert ((resolve parses_as_date research (catalog db) now ctx db).2 = db) as Hr.
  { unfold resolve. case_match; [|apply review_frame|apply review_frame].
    case_match. case_match; [apply review_frame|]. unfold mbind, M_bind, lift.
    destruct (select _ _ _ _ _) as [[vs rs]|]; [|done].
    destruct (0 <? length rs)%nat; [apply review_frame|done]. }
  by destruct (resolve _ _ _ _ _ _) as [[]].
Qed.

Lemma catalog_resolver_laws : ResolverLaws.
Proof using research_frame.
  split; simpl.
  - intros now ctx db. by rewrite catalog_resolve_frame.
  - intros now ctx db. by rewrite catalog_resolve_frame.
  - unfold catalog_resolve. intros now ctx db res db' Hr Hs. destruct (resolve _ _ _ _ _ _) as [[r|]] eqn:E; simplify_eq.
    apply resolve_REVIEW in E; [|done]. naive_solver.
  - unfold catalog_resolve. intros now ctx db res db' Hr Hs. destruct (resolve _ _ _ _ _ _) as [[r|]] eqn:E; simplify_eq.
    apply resolve_RESOLVED in E; [|done]. naive_solver.
Qed.
End CatalogResolver.

(** ** The binding invariant *)

Definition active_for (b : CasePolicyBinding) (tenantId caseId : string) : Prop :=
  bd_tenantId b = tenantId /\ bd_caseId b = caseId /\ bd_invalidatedAt b = None.

Record Inv (db : PolicyDb) : Prop := {
  inv_bid : forall k b, bindings db !! k = Some b -> bd_id b = k;
  inv_sid : forall k s, snapshots db !! k = Some s -> sn_id s = k;
  inv_snapshot : forall k b, bindings db !! k = Some b -> exists s,
    snapshots db !! bd_policySnapshotId b = Some s /\
    sn_tenantId s = bd_tenantId b /\ sn_caseId s = bd_caseId b;
  inv_one : forall k1 k2 b1 b2 t c,
    bindings db !! k1 = Some b1 -> bindings db !! k2 = Some b2 ->
    active_for b1 t c -> active_for b2 t c -> k1 = k2 }.

(** What other callers may do between two transactions: they keep the
    invariant, and never change or remove a snapshot. *)
Definition fair (env : nat -> PolicyDb -> PolicyDb) : Prop :=
  forall n db, Inv db -> Inv (env n db) /\ snapshots db ⊆ snapshots (env n db).

Lemma is_active_spec t c b : is_active t c b = true <-> active_for b t c.
Proof.
  unfold is_active, active_for. rewrite !andb_true_iff, !String.eqb_eq, bool_decide_eq_true.
  naive_solver.
Qed.

(** A state change that keeps the invariant and every snapshot. *)
Definition grows (db db' : PolicyDb) : Prop := Inv db -> Inv db' /\ snapshots db ⊆ snapshots db'.

#[export] Instance grows_preorder : PreOrder grows.
Proof.
  split; [by intros db HI|]. intros a b c Hab Hbc HI.
  destruct (Hab HI) as [Hb ?]. destruct (Hbc Hb) as [? ?]. split; [done|]. by etrans.
Qed.

Definition keeps {A} (m : M PolicyDb Failure A) : Prop := forall db, grows db (m db).2.

Lemma bind_keeps {A B} (m : M PolicyDb Failure A) (f : A -> M PolicyDb Failure B) :
  keeps m -> (forall a, keeps (f a)) -> keeps (m ≫= f).
Proof.
  intros Hm Hf db. unfold mbind, M_bind. specialize (Hm db).
  destruct (m db) as [[a|e] db1]; simpl in *; [|done]. etrans; [exact Hm|apply Hf].
Qed.

(** The continuation may use what the first part returned. *)
Lemma grows_bind {A B} (m : M PolicyDb Failure A) (f : A -> M PolicyDb Failure B) db :
  keeps m -> (forall a db1, m db = (Ok a, db1) -> grows db1 (f a db1).2) ->
  grows db ((m ≫= f) db).2.
Proof.
  intros Hm Hf. unfold mbind, M_bind. specialize (Hm db).
  destruct (m db) as [[a|e] db1]; simpl in *; [|done]. etrans; [exact Hm|by apply Hf].
Qed.

Lemma keeps_ret {A} (a : A) : keeps (mret a).
Proof. by intros db. Qed.
Lemma keeps_throw {A} e : keeps (throw (A := A) e).
Proof. by intros db. Qed.
Lemma gets_keep {A} (f : PolicyDb -> A) : keeps (gets f).
Proof. by intros db. Qed.
Lemma keeps_or_throw {A} (o : option A) e : keeps (or_throw o e).
Proof. intros db. by destruct o. Qed.
Lemma keeps_tx {A} env n (m : M PolicyDb Failure A) : fair env -> keeps m -> keeps (tx env n m).
Proof.
  intros Henv Hm. unfold tx. apply bind_keeps; [|done]. intros db HI. by apply Henv.
Qed.
Create HintDb keeps.
#[export] Hint Resolve keeps_ret keeps_throw gets_keep keeps_or_throw bind_keeps keeps_tx : keeps.

(** Rewriting a binding in place, without reviving it. *)
Lemma update_binding_keeps id set :
  (forall b, bd_id (set b) = bd_id b /\ bd_tenantId (set b) = bd_tenantId b /\
     bd_caseId (set b) = bd_caseId b /\ bd_policySnapshotId (set b) = bd_policySnapshotId b /\
     (bd_invalidatedAt (set b) = None -> bd_invalidatedAt b = None)) ->
  keeps (update_binding id set).
Proof.
  intros Hset db HI. unfold update_binding, modify. simpl.
  destruct (bindings db !! id) as [b|] eqn:Eb; [|done]. split; [|done].
  destruct (Hset b) as (Ei & Et & Ec & Es & Ea). pose proof (inv_bid _ HI _ _ Eb) as Hid.
  unfold put_binding. rewrite Ei, Hid. split; simpl.
  - intros k x. rewrite lookup_insert. case_decide; intros; simplify_eq; [congruence|].
    by apply (inv_bid _ HI).
  - apply (inv_sid _ HI).
  - intros k x. rewrite lookup_insert. case_decide; intros; simplify_eq.
    + rewrite Es, Et, Ec. by apply (inv_snapshot _ HI _ _ Eb).
    + by apply (inv_snapshot _ HI k).
  - intros k1 k2 b1 b2 t c. rewrite !lookup_insert. unfold active_for.
    assert (Hact : forall t c, bd_tenantId (set b) = t /\ bd_caseId (set b) = c /\
      bd_invalidatedAt (set b) = None -> active_for b t c).
    { intros t0 c0 (? & ? & ?). unfold active_for. split_and!; [congruence|congruence|auto]. }
    repeat case_decide; intros H1 H2 A1 A2; simplify_eq; try done;
      (eapply (inv_one _ HI); [eassumption|eassumption|..]; [by apply Hact || exact A1
        |by apply Hact || exact A2]).
Qed.

Lemma persistSnapshot_keeps collation id t c r digest :
  keeps (persistSnapshot collation id t c r digest).
Proof.
  intros db HI. unfold persistSnapshot, mbind, M_bind, gets, guard_throw. simpl.
  destruct (snapshots db !! id) as [s0|] eqn:Es; simpl; [done|].
  split; [|by apply insert_subseteq].
  split; simpl.
  - apply (inv_bid _ HI).
  - intros k s. rewrite lookup_insert. case_decide; intros; simplify_eq; [done|].
    by apply (inv_sid _ HI).
  - intros k b Hb. destruct (inv_snapshot _ HI k b Hb) as (s & Hs & ?). exists s.
    rewrite lookup_insert_ne; [done|]. congruence.
  - apply (inv_one _ HI).
Qed.

Lemma invalidateActiveBinding_keeps at_ t c : keeps (invalidateActiveBinding at_ t c).
Proof.
  intros db HI. split; [|done]. unfold invalidateActiveBinding, modify. simpl.
  assert (Hk : forall k b, (fun b => if is_active t c b then invalidated at_ b else b)
      <$> bindings db !! k = Some b -> exists b0, bindings db !! k = Some b0 /\
      bd_id b = bd_id b0 /\ bd_tenantId b = bd_tenantId b0 /\ bd_caseId b = bd_caseId b0 /\
      bd_policySnapshotId b = bd_policySnapshotId b0 /\
      (bd_invalidatedAt b = None -> bd_invalidatedAt b0 = None)).
  { intros k b. destruct (bindings db !! k) as [b0|]; simpl; [|done]. intros [= <-].
    exists b0. split; [done|]. by destruct (is_active t c b0). }
  split; simpl.
  - intros k b. rewrite lookup_fmap. intros (b0 & Hb0 & -> & _)%Hk. by apply (inv_bid _ HI).
  - apply (inv_sid _ HI).
  - intros k b. rewrite lookup_fmap. intros (b0 & Hb0 & _ & -> & -> & -> & _)%Hk.
    by apply (inv_snapshot _ HI k).
  - intros k1 k2 b1 b2 t' c'. rewrite !lookup_fmap. unfold active_for.
    intros (x & Hx & _ & Ht1 & Hc1 & _ & Ha1)%Hk (y & Hy & _ & Ht2 & Hc2 & _ & Ha2)%Hk
      (? & ? & ?) (? & ? & ?).
    apply (inv_one _ HI k1 k2 x y t' c'); [done|done|..];
      unfold active_for; split_and!; congruence || auto.
Qed.

(** The insert needs its snapshot to be there already. *)
Lemma insert_binding_grows b db s :
  snapshots db !! bd_policySnapshotId b = Some s -> sn_tenantId s = bd_tenantId b ->
  sn_caseId s = bd_caseId b -> bd_invalidatedAt b = None ->
  grows db (insert_binding b db).2.
Proof.
  intros Hs Et Ec Ha HI. unfold insert_binding, mbind, M_bind, gets, guard_throw. simpl.
  destruct (bindings db !! bd_id b) as [x|] eqn:Eb; simpl; [done|].
  destruct (find_row _ _) as [y|] eqn:Ef; simpl; [done|]. split; [|done]. split; simpl.
  - intros k x. rewrite lookup_insert. case_decide; intros; simplify_eq; [done|].
    by apply (inv_bid _ HI).
  - apply (inv_sid _ HI).
  - intros k x. rewrite lookup_insert. case_decide; intros; simplify_eq; [by exists s|].
    by apply (inv_snapshot _ HI k).
  - assert (Hno : forall k x t c, bindings db !! k = Some x -> active_for x t c ->
      active_for b t c -> False).
    { intros k x t c Hx (? & ? & ?) (? & ? & ?). subst.
      pose proof (find_row_None _ _ _ _ Ef Hx) as Hn. apply not_true_iff_false in Hn. apply Hn.
      apply is_active_spec. by unfold active_for; split_and!. }
    intros k1 k2 b1 b2 t c. rewrite !lookup_insert.
    repeat case_decide; intros; simplify_eq; try done; try (exfalso; by eapply Hno).
    by eapply (inv_one _ HI).
Qed.

Lemma persistSnapshot_Ok collation id t c r digest db s db' :
  persistSnapshot collation id t c r digest db = (Ok s, db') ->
  snapshots db' !! sn_id s = Some s /\ sn_tenantId s = t /\ sn_caseId s = c /\
  sn_resolverVersion s = RESOLVER_VERSION /\ sn_resolutionStatus s = status r /\
  sn_versions s = snapshotVersions collation r /\ sn_unresolvedReasons s = unresolvedReasons r /\
  bindings db' = bindings db /\ generation db' = generation db.
Proof.
  unfold persistSnapshot. intros H. minv. simpl. rewrite lookup_insert_eq.
  split_and!; try done. by destruct (status r).
Qed.

Lemma tx_Ok {A} env n (m : M PolicyDb Failure A) db a db' :
  tx env n m db = (Ok a, db') -> m (env n db) = (Ok a, db').
Proof. unfold tx. intros H. by minv. Qed.

Section Runs.
Context (iso : Z -> string) (collation : string -> Z).
Context (sha256 : Dsl.value -> string) (reason_text : Unresolved -> string).
Context {RES : PolicyResolver} (Hlaws : ResolverLaws).
Context (env : nat -> PolicyDb -> PolicyDb) (Hfair : fair env).

Lemma bind_case_grows c t k gen key digest r s db :
  snapshots db !! sn_id s = Some s -> sn_tenantId s = t -> sn_caseId s = k ->
  grows db (bind_case env c t k gen key digest r s db).2.
Proof using Hfair.
  intros Hs Et Ek HI. unfold bind_case, catch.
  destruct (Hfair 6%nat db HI) as [HI6 Hsub].
  assert (Hs6 : snapshots (env 6%nat db) !! sn_id s = Some s) by (by eapply lookup_weaken).
  match goal with |- context [insert_binding ?x] => set (b := x) end.
  pose proof (insert_binding_grows b (env 6%nat db) s Hs6 Et Ek eq_refl HI6) as [HI7 Hsub7].
  destruct ((_ ← tx env 6 (transaction (insert_binding b)); mret _) db) as [[x|e] db1] eqn:E.
  - apply bind_Ok in E as (b' & db2 & E & E'). apply tx_Ok in E.
    apply (proj1 (transaction_Ok _ _ _ _)) in E.
    rewrite E in HI7, Hsub7. minv. split; [done|]. by etrans.
  - assert (db1 = env 6%nat db) as ->.
    { apply bind_Err in E as [E|(a & s1 & E & E')]; [|by minv].
      unfold tx in E. apply bind_Err in E as [E|(a & s1 & E & E')]; [by minv|].
      apply transaction_Err in E' as [-> _]. by minv. }
    match goal with |- context [ (if negb _ then throw e else ?m) _ ] =>
      assert (keeps m) as Hk by (eauto 10 with keeps) end.
    destruct (negb _); simpl; [done|]. destruct (Hk _ HI6). split; [done|]. by etrans.
Qed.

Lemma load_existing_keeps t k : keeps (load_existing env t k).
Proof using Hfair.
  unfold load_existing. apply bind_keeps; [auto with keeps|]. intros [b|]; eauto 10 with keeps.
Qed.

Lemma rebind_keeps c t k gen key digest r
    (existing : option (CasePolicyBinding * CasePolicySnapshot)) :
  keeps (s ← tx env 4 (persistSnapshot collation (call_snapshotId c) t k r digest);
         _ ← match existing with
             | Some (b, _) => tx env 5 (update_binding (bd_id b) (invalidated (call_now c)))
             | None => mret tt
             end;
         bind_case env c t k gen key digest r s).
Proof using Hfair.
  intros db. apply grows_bind; [apply keeps_tx; [done|apply persistSnapshot_keeps]|].
  intros s db1 E. apply tx_Ok, persistSnapshot_Ok in E as (Hs & Et & Ek & _).
  assert (Hup : keeps (match existing with
    | Some (b, _) => tx env 5 (update_binding (bd_id b) (invalidated (call_now c)))
    | None => mret tt end)).
  { destruct existing as [[b ?]|]; [|auto with keeps]. apply keeps_tx; [done|].
    apply update_binding_keeps. intros b'. by split_and!. }
  intros HI1. apply grows_bind; [exact Hup| |exact HI1]. intros u db2 Hu.
  apply bind_case_grows; [|done|done].
  destruct (Hup db1 HI1) as [_ Hsub]. rewrite Hu in Hsub. by eapply lookup_weaken.
Qed.

Lemma evaluateInternal_keeps c t k ctx :
  keeps (evaluateInternal iso collation sha256 reason_text env c t k ctx).
Proof using Hfair Hlaws.
  unfold evaluateInternal. apply bind_keeps; [unfold getCurrentGeneration; eauto with keeps|].
  intros gen. apply bind_keeps; [apply load_existing_keeps|]. intros existing.
  assert (Hslow : forall key, keeps (evaluate_slow iso collation sha256 reason_text env c t k ctx gen key existing)).
  { intros key. unfold evaluate_slow. apply bind_keeps.
    - apply keeps_tx; [done|]. intros db HI.
      destruct (resolver_frame (call_resolvedAt c) ctx db) as [Eb Es].
      split; [|by rewrite Es]. split; rewrite ?Eb, ?Es; apply HI.
    - intros r. destruct (status r).
      + destruct (comparable key existing) as [[b s]|]; [|apply rebind_keeps].
        case_match; [|apply rebind_keeps]. apply bind_keeps; [|auto with keeps].
        apply keeps_tx; [done|]. apply update_binding_keeps. intros b'. by split_and!.
      + apply bind_keeps; [apply keeps_tx; [done|apply persistSnapshot_keeps]|]. intros s.
        apply bind_keeps; [apply keeps_tx; [done|apply invalidateActiveBinding_keeps]|].
        auto with keeps. }
  destruct (comparable _ existing) as [[b s]|]; [|apply Hslow].
  case_match; [auto with keeps|apply Hslow].
Qed.
End Runs.

(** ** A call with nobody in between *)

Definition quiet (_ : nat) (db : PolicyDb) : PolicyDb := db.

Lemma quiet_fair : fair quiet.
Proof. by intros n db HI. Qed.

Lemma active_binding_Some t k db b :
  Inv db -> active_binding t k db = Some b ->
  bindings db !! bd_id b = Some b /\ active_for b t k.
Proof.
  intros HI H. unfold active_binding in H. apply order_by_head_min in H as [H _].
  apply elem_find_rows in H as [Ha [i Hb]]. rewrite (inv_bid _ HI _ _ Hb).
  split; [done|]. by apply is_active_spec.
Qed.

Lemma active_binding_None t k db i b :
  active_binding t k db = None -> bindings db !! i = Some b -> ~ active_for b t k.
Proof.
  intros H Hb Ha. unfold active_binding in H.
  assert (b ∈ order_by (fun b => - bd_boundAt b) (find_rows (is_active t k) (bindings db))) as Hin.
  { apply elem_order_by, elem_find_rows. split; [by apply is_active_spec|eauto]. }
  destruct (order_by _ _); [by apply elem_of_nil in Hin|done].
Qed.

Lemma comparable_Some key o b s :
  comparable key o = Some (b, s) ->
  o = Some (b, s) /\ sn_resolverVersion s = RESOLVER_VERSION /\ bd_contextKey b = key.
Proof.
  unfold comparable. destruct o as [[b0 s0]|]; [|done]. case_match; [|done].
  intros [= -> ->]. by bsplit.
Qed.

Lemma nextRevalidationDeadline_le now r :
  nextRevalidationDeadline now r <= now + MAX_VALIDATION_INTERVAL_MS /\
  forall t, revalidateAfter r = Some t -> nextRevalidationDeadline now r <= t.
Proof.
  unfold nextRevalidationDeadline. destruct (revalidateAfter r) as [t|].
  - case_match; bsplit; (split; [lia|]); intros ? [= <-]; lia.
  - split; [lia|done].
Qed.

(** What a result that reuses or refreshes a binding promises. *)
Definition bound (db' : PolicyDb) (t k key : string) (g : Z) (res : PolicyEvaluationResult) : Prop :=
  exists b, res_binding res = Some b /\ bindings db' !! bd_id b = Some b /\ active_for b t k /\
    bd_contextKey b = key /\ bd_observedCatalogGeneration b = g /\
    snapshots db' !! bd_policySnapshotId b = Some (res_snapshot res) /\
    sn_resolverVersion (res_snapshot res) = RESOLVER_VERSION.

Section Quiet.
Context (iso : Z -> string) (collation : string -> Z).
Context (sha256 : Dsl.value -> string) (reason_text : Unresolved -> string).
Context {RES : PolicyResolver} (Hlaws : ResolverLaws).

Lemma load_existing_quiet t k db o db' :
  Inv db -> load_existing quiet t k db = (Ok o, db') ->
  db' = db /\ match o with
  | None => active_binding t k db = None
  | Some (b, s) => bindings db !! bd_id b = Some b /\ active_for b t k /\
      snapshots db !! bd_policySnapshotId b = Some s
  end.
Proof.
  intros HI H. unfold load_existing in H. apply bind_Ok in H as (ob & db1 & E & H).
  apply tx_Ok in E. unfold quiet in E. minv.
  destruct (active_binding t k _) as [b|] eqn:Ea; [|by minv].
  apply bind_Ok in H as (os & db2 & E & H). apply tx_Ok in E. unfold quiet in E. minv.
  apply active_binding_Some in Ea as [? ?]; done.
Qed.

(** Rebinding: the old binding is retired and the new one takes its place. *)
Lemma rebind_quiet c t k gen key digest r existing db res db' :
  Inv db -> bindings db !! call_bindingId c = None ->
  match existing with
  | None => active_binding t k db = None
  | Some (b, _) => bindings db !! bd_id b = Some b /\ active_for b t k
  end ->
  (s ← tx quiet 4 (persistSnapshot collation (call_snapshotId c) t k r digest);
   _ ← match existing : option (CasePolicyBinding * CasePolicySnapshot) with
       | Some (b, _) => tx quiet 5 (update_binding (bd_id b) (invalidated (call_now c)))
       | None => mret tt
       end;
   bind_case quiet c t k gen key digest r s) db = (Ok res, db') ->
  outcome res = REFRESHED /\ resolution res = r /\ bound db' t k key gen res /\
  exists b, res_binding res = Some b /\ bd_revalidateAfter b = nextRevalidationDeadline (call_now c) r.
Proof.
  intros HI Hfresh Hex H. apply bind_Ok in H as (s & db1 & Hs & H). apply tx_Ok in Hs.
  unfold quiet in Hs.
  pose proof (persistSnapshot_keeps collation (call_snapshotId c) t k r digest db HI) as [HI1 _].
  rewrite Hs in HI1. simpl in HI1.
  apply persistSnapshot_Ok in Hs as (Hs & Et & Ek & Hrv & _ & _ & _ & Eb & _).
  apply bind_Ok in H as (u & db2 & Hu & H).
  assert (H2 : snapshots db2 = snapshots db1 /\ bindings db2 !! call_bindingId c = None /\
    find_row (is_active t k) (bindings db2) = None).
  { assert (Hnone : forall m : gmap string CasePolicyBinding,
      (forall i b, m !! i = Some b -> ~ active_for b t k) -> find_row (is_active t k) m = None).
    { intros m Hm. destruct (find_row _ m) as [b|] eqn:E; [|done].
      apply find_row_Some in E as [E [i Hi]]. apply is_active_spec in E. by destruct (Hm i b Hi). }
    destruct existing as [[b ?]|].
    - apply tx_Ok in Hu. unfold quiet, update_binding, modify in Hu. rewrite Eb in Hu.
      destruct Hex as [Hb Ha]. rewrite Hb in Hu. injection Hu as _ <-. simpl. rewrite Eb.
      split; [done|]. split.
      + rewrite lookup_insert_ne; [done|]. intros E. congruence.
      + apply Hnone. intros i b'. rewrite lookup_insert. case_decide as E.
        * intros [= <-] (_ & _ & Hn). done.
        * intros Hb' Ha'. apply E. by eapply (inv_one _ HI).
    - minv. rewrite Eb. split; [done|]. split; [done|]. apply Hnone. intros i b Hb.
      by eapply active_binding_None. }
  destruct H2 as (Es & Ef & Hno). clear Hu Hex.
  unfold bind_case, catch, tx, quiet, transaction, insert_binding, mbind, M_bind, modify, gets in H.
  simpl in H. rewrite Ef, Hno in H. simpl in H. simplify_eq/=.
  split_and!; [done|done| |by eexists].
  eexists. split; [reflexivity|]. simpl. rewrite lookup_insert_eq, Es. by split_and!.
Qed.

(** The slow path: review retires the binding; a resolution rebinds or
    refreshes it. *)
Lemma evaluate_slow_quiet c t k ctx gen existing db res db' :
  Inv db -> bindings db !! call_bindingId c = None ->
  match existing with
  | None => active_binding t k db = None
  | Some (b, s) => bindings db !! bd_id b = Some b /\ active_for b t k /\
      snapshots db !! bd_policySnapshotId b = Some s
  end ->
  evaluate_slow iso collation sha256 reason_text quiet c t k ctx gen (contextKey iso ctx) existing db
    = (Ok res, db') ->
  match outcome res with
  | NEEDS_REVIEW =>
      (forall i b, bindings db' !! i = Some b -> ~ active_for b t k) /\
      snapshots db' !! sn_id (res_snapshot res) = Some (res_snapshot res) /\
      sn_resolutionStatus (res_snapshot res) = REVIEW_REQUIRED /\
      sn_versions (res_snapshot res) = [] /\ sn_unresolvedReasons (res_snapshot res) <> []
  | _ => bound db' t k (contextKey iso ctx) gen res /\
      exists b, res_binding res = Some b /\
        bd_revalidateAfter b = nextRevalidationDeadline (call_now c) (resolution res)
  end.
Proof using Hlaws.
  intros HI Hfresh Hex H. unfold evaluate_slow in H. apply bind_Ok in H as (r & db1 & Hr & H).
  apply tx_Ok in Hr. unfold quiet in Hr.
  destruct (resolver_frame (call_resolvedAt c) ctx db) as [Eb Es]. rewrite Hr in Eb, Es. simpl in Eb, Es.
  assert (HI1 : Inv db1) by (split; rewrite ?Eb, ?Es; apply HI).
  assert (Hact : active_binding t k db1 = active_binding t k db) by (unfold active_binding; by rewrite Eb).
  destruct (status r) eqn:Est.
  - assert (Hre : forall res db', (s ← tx quiet 4 (persistSnapshot collation (call_snapshotId c) t k r (resolution_digest iso collation sha256 reason_text r));
         _ ← match existing with
             | Some (b, _) => tx quiet 5 (update_binding (bd_id b) (invalidated (call_now c)))
             | None => mret tt
             end;
         bind_case quiet c t k gen (contextKey iso ctx) (resolution_digest iso collation sha256 reason_text r) r s) db1 = (Ok res, db') ->
      match outcome res with NEEDS_REVIEW => False | _ => bound db' t k (contextKey iso ctx) gen res /\
        exists b, res_binding res = Some b /\
        bd_revalidateAfter b = nextRevalidationDeadline (call_now c) (resolution res) end).
    { intros res0 db0 Hb. apply rebind_quiet in Hb as (-> & -> & ? & ?); [done|done|by rewrite Eb|].
      rewrite Eb, Hact. destruct existing as [[b ?]|]; naive_solver. }
    destruct (comparable (contextKey iso ctx) existing) as [[b s]|] eqn:Ec.
    2: { apply Hre in H. by destruct (outcome res). }
    destruct (String.eqb (bd_dependencyDigest b) _); [|apply Hre in H; by destruct (outcome res)].
    apply comparable_Some in Ec as (-> & Hv & Hk). destruct Hex as (Hb & Ha & Hs).
    apply bind_Ok in H as (u & db2 & Hu & H). apply tx_Ok in Hu.
    unfold quiet, update_binding, modify in Hu. rewrite Eb, Hb in Hu. injection Hu as _ <-.
    minv. simpl. split; [|by eexists]. eexists. split; [reflexivity|]. simpl.
    rewrite lookup_insert_eq, Es. by split_and!.
  - apply bind_Ok in H as (s & db2 & Hs & H). apply tx_Ok in Hs. unfold quiet in Hs.
    apply persistSnapshot_Ok in Hs as (Hs & Et & Ek & _ & Hst & Hvs & Hrs & Eb2 & _).
    apply bind_Ok in H as (u & db3 & Hu & H). apply tx_Ok in Hu.
    unfold quiet, invalidateActiveBinding, modify in Hu. injection Hu as _ <-. minv. simpl.
    destruct (resolver_review _ _ _ _ _ Hr Est) as [Hn Hne].
    split_and!; [|done|congruence| |congruence].
    + intros i b. rewrite lookup_fmap. destruct (bindings db2 !! i) as [b0|] eqn:E0; [|done].
      simpl. intros [= <-]. destruct (is_active _ _ b0) eqn:Ea; [by intros (_ & _ & ?)|].
      rewrite <- is_active_spec. congruence.
    + rewrite Hvs. unfold snapshotVersions. by rewrite Hn.
Qed.
End Quiet.

(** ** Coherence of results under interference *)

(** A result with a binding of the case carries that binding's snapshot. *)
Definition coherent (t k : string) (res : PolicyEvaluationResult) : Prop :=
  match res_binding res with
  | Some b => bd_tenantId b = t /\ bd_caseId b = k /\
      bd_policySnapshotId b = sn_id (res_snapshot res) /\ outcome res <> NEEDS_REVIEW
  | None => outcome res = NEEDS_REVIEW
  end.

Lemma bind_case_coherent env c t k gen key digest r s db res db' :
  fair env -> Inv db -> bind_case env c t k gen key digest r s db = (Ok res, db') ->
  coherent t k res.
Proof.
  intros Hf HI H. destruct (Hf 6%nat db HI) as [HI6 _]. unfold bind_case, catch in H.
  match type of H with context [insert_binding ?x] => set (b := x) in * end.
  destruct ((_ ← tx env 6 (transaction (insert_binding b)); mret _) db) as [[x|e] db1] eqn:E.
  - injection H as -> <-. apply bind_Ok in E as (b' & db2 & E & E'). apply tx_Ok in E.
    apply (proj1 (transaction_Ok _ _ _ _)) in E. unfold insert_binding in E.
    apply bind_Ok in E as (? & ? & _ & E). apply bind_Ok in E as (? & ? & _ & E).
    apply bind_Ok in E as (? & ? & _ & E). apply bind_Ok in E as (? & ? & _ & E).
    unfold mret, M_ret in E, E'. simplify_eq. done.
  - assert (db1 = env 6%nat db) as ->.
    { apply bind_Err in E as [E|(a & s1 & E & E')]; [|by minv].
      unfold tx in E. apply bind_Err in E as [E|(a & s1 & E & E')]; [by minv|].
      apply transaction_Err in E' as [-> _]. by minv. }
    destruct (negb _); [done|].
    apply bind_Ok in H as (ow & db7 & E7 & H). apply tx_Ok in E7. unfold gets in E7.
    injection E7 as E7 <-. destruct (Hf 7%nat _ HI6) as [HI7 _].
    destruct ow as [w|]; [|by minv].
    apply find_row_Some in E7 as [Ha _]. apply is_active_spec in Ha as (Ht & Hk & _).
    apply bind_Ok in H as (w' & db8 & E8 & H). unfold or_throw, mret, M_ret in E8. injection E8 as <- <-.
    apply bind_Ok in H as (os & db9 & E9 & H). apply tx_Ok in E9. unfold gets in E9.
    injection E9 as E9 <-. destruct (Hf 8%nat _ HI7) as [HI8 _].
    destruct os as [ws|]; [|by minv]. pose proof (inv_sid _ HI8 _ _ E9) as Hsid. minv.
    unfold coherent. simpl. by rewrite Hsid.
Qed.

(** What the first two reads hand on. *)
Definition of_case (t k : string) (existing : option (CasePolicyBinding * CasePolicySnapshot)) : Prop :=
  match existing with
  | Some (b, s) => bd_tenantId b = t /\ bd_caseId b = k /\ bd_policySnapshotId b = sn_id s
  | None => True
  end.

Lemma load_existing_of_case env t k db o db' :
  fair env -> Inv db -> load_existing env t k db = (Ok o, db') -> Inv db' /\ of_case t k o.
Proof.
  intros Hf HI He. split.
  { replace db' with (load_existing env t k db).2 by (by rewrite He). by apply load_existing_keeps. }
  unfold load_existing in He. apply bind_Ok in He as (ob & db3 & E & He). apply tx_Ok in E.
  destruct (Hf 1%nat db HI) as [HI3 _].
  unfold gets in E. injection E as E <-. destruct ob as [b|]; [|by minv].
  apply active_binding_Some in E as (_ & Ht & Hk & _); [|done].
  apply bind_Ok in He as (os & db4 & E & He). apply tx_Ok in E. unfold gets in E.
  injection E as E <-. destruct (Hf 2%nat _ HI3) as [HI4 _].
  destruct os as [s|]; [|by minv]. minv. split_and!; [done|done|].
  by rewrite (inv_sid _ HI4 _ _ E).
Qed.

Lemma rebind_coherent collation env c t k g key dg r existing db res db' :
  fair env -> Inv db ->
  (s ← tx env 4 (persistSnapshot collation (call_snapshotId c) t k r dg);
   _ ← match existing : option (CasePolicyBinding * CasePolicySnapshot) with
       | Some (b, _) => tx env 5 (update_binding (bd_id b) (invalidated (call_now c)))
       | None => mret tt
       end;
   bind_case env c t k g key dg r s) db = (Ok res, db') -> coherent t k res.
Proof.
  intros Hf HI Hb. apply bind_Ok in Hb as (s & db5 & Hs & Hb). apply bind_Ok in Hb as (u & db6 & Hu & Hb).
  eapply bind_case_coherent; [exact Hf| |exact Hb].
  assert (HI5 : Inv db5).
  { replace db5 with (tx env 4 (persistSnapshot collation (call_snapshotId c) t k r dg) db).2
      by (by rewrite Hs). apply keeps_tx; [done|apply persistSnapshot_keeps|done]. }
  destruct existing as [[b s0]|]; [|by minv].
  replace db6 with (tx env 5 (update_binding (bd_id b) (invalidated (call_now c))) db5).2
    by (by rewrite Hu). apply keeps_tx; [done| |done].
  apply update_binding_keeps. intros b'. by split_and!.
Qed.

Lemma evaluate_slow_coherent iso collation sha256 reason_text {RES : PolicyResolver} env c t k ctx g existing db res db' :
  ResolverLaws -> fair env -> Inv db -> of_case t k existing ->
  evaluate_slow iso collation sha256 reason_text env c t k ctx g (contextKey iso ctx) existing db
    = (Ok res, db') -> coherent t k res.
Proof.
  intros HL Hf HI Hex H. unfold evaluate_slow in H. apply bind_Ok in H as (r & db4 & Hr & H).
  assert (HI4 : Inv db4).
  { apply tx_Ok in Hr. destruct (Hf 3%nat _ HI) as [HIe _].
    destruct (resolver_frame (call_resolvedAt c) ctx (env 3%nat db)) as [Eb Es].
    rewrite Hr in Eb, Es. simpl in Eb, Es. split; rewrite ?Eb, ?Es; apply HIe. }
  destruct (status r).
  - destruct (comparable (contextKey iso ctx) existing) as [[b s]|] eqn:Ec;
      [|by eapply rebind_coherent].
    destruct (String.eqb (bd_dependencyDigest b) _); [|by eapply rebind_coherent].
    apply comparable_Some in Ec as (-> & _ & _). destruct Hex as (? & ? & ?).
    apply bind_Ok in H as (u & db5 & _ & H). by minv.
  - apply bind_Ok in H as (s & db5 & _ & H). apply bind_Ok in H as (u & db6 & _ & H). by minv.
Qed.

(** ** Properties *)


(** C20: An evaluation that succeeds undisturbed is current.  A result that
    reuses or refreshes a binding refers to the case's active binding, made
    for this very context, for the catalog generation in force when the call
    began, with a snapshot of the current resolver version; a binding that
    was not on the fast path is due for revalidation within the maximal
    interval and no later than the resolution asks.  A result that needs
    review leaves the case without an active binding and a snapshot that
    names the reasons and no version. *)
Theorem evaluation_is_current iso collation sha256 reason_text {RES : PolicyResolver} c t k ctx db res db' :
  ResolverLaws -> Inv db -> bindings db !! call_bindingId c = None ->
  evaluateInternal iso collation sha256 reason_text quiet c t k ctx db = (Ok res, db') ->
  exists g, generation db = Some g /\
  match outcome res with
  | NEEDS_REVIEW =>
      (forall i b, bindings db' !! i = Some b -> ~ active_for b t k) /\
      snapshots db' !! sn_id (res_snapshot res) = Some (res_snapshot res) /\
      sn_versions (res_snapshot res) = [] /\ sn_unresolvedReasons (res_snapshot res) <> []
  | _ => bound db' t k (contextKey iso ctx) g res /\
      (db' = db \/ exists b, res_binding res = Some b /\
         bd_revalidateAfter b <= call_now c + MAX_VALIDATION_INTERVAL_MS /\
         forall d, revalidateAfter (resolution res) = Some d -> bd_revalidateAfter b <= d)
  end.
Proof.
  intros HL HI Hfresh H. unfold evaluateInternal in H.
  apply bind_Ok in H as (g & db1 & Hg & H). apply tx_Ok in Hg.
  unfold quiet, getCurrentGeneration, mbind, M_bind, gets, or_throw in Hg.
  destruct (generation db) as [g'|]; [|done]. injection Hg as -> <-. exists g. split; [done|].
  apply bind_Ok in H as (existing & db2 & He & H).
  apply load_existing_quiet in He as [-> Hex]; [|done].
  assert (Hslow : evaluate_slow iso collation sha256 reason_text quiet c t k ctx g
      (contextKey iso ctx) existing db = (Ok res, db') ->
    match outcome res with
    | NEEDS_REVIEW =>
      (forall i b, bindings db' !! i = Some b -> ~ active_for b t k) /\
      snapshots db' !! sn_id (res_snapshot res) = Some (res_snapshot res) /\
      sn_versions (res_snapshot res) = [] /\ sn_unresolvedReasons (res_snapshot res) <> []
    | _ => bound db' t k (contextKey iso ctx) g res /\
      (db' = db \/ exists b, res_binding res = Some b /\
         bd_revalidateAfter b <= call_now c + MAX_VALIDATION_INTERVAL_MS /\
         forall d, revalidateAfter (resolution res) = Some d -> bd_revalidateAfter b <= d)
    end).
  { intros Hs. apply evaluate_slow_quiet in Hs; [|done|done|done|done].
    destruct (outcome res); [| |naive_solver]; destruct Hs as (Hb & b & Hrb & Hra);
      (split; [done|]); right; exists b; (split; [done|]); rewrite Hra;
      apply nextRevalidationDeadline_le. }
  destruct (comparable (contextKey iso ctx) existing) as [[b s]|] eqn:Ec; [|by apply Hslow].
  destruct (_ && _) eqn:E; [|by apply Hslow]. bsplit. minv.
  apply comparable_Some in Ec as (-> & Hv & Hk). destruct Hex as (Hb & Ha & Hs).
  split; [|by left]. exists b. by split_and!.
Qed.

(** Losing the race is coherent.  Whatever other callers commit in
    between, a result of [evaluate] that carries a binding carries one of the
    requested case, together with exactly the snapshot that binding points
    to; a case that needs review never carries a binding. *)
Theorem evaluation_is_coherent iso collation sha256 reason_text {RES : PolicyResolver} env c t k ctx db res db' :
  ResolverLaws -> fair env -> Inv db ->
  evaluateInternal iso collation sha256 reason_text env c t k ctx db = (Ok res, db') ->
  match res_binding res with
  | Some b => bd_tenantId b = t /\ bd_caseId b = k /\
      bd_policySnapshotId b = sn_id (res_snapshot res) /\ outcome res <> NEEDS_REVIEW
  | None => outcome res = NEEDS_REVIEW
  end.
Proof.
  intros HL Hf HI H. unfold evaluateInternal in H. fold (coherent t k res).
  apply bind_Ok in H as (g & db1 & Hg & H).
  assert (HI1 : Inv db1).
  { replace db1 with (tx env 0 getCurrentGeneration db).2 by (by rewrite Hg).
    apply keeps_tx; [done| |done]. unfold getCurrentGeneration. eauto with keeps. }
  apply bind_Ok in H as (existing & db2 & He & H).
  apply load_existing_of_case in He as [HI2 Hex]; [|done|done].
  destruct (comparable (contextKey iso ctx) existing) as [[b s]|] eqn:Ec;
    [|by eapply evaluate_slow_coherent; [..|exact H]].
  destruct (_ && _); [|by eapply evaluate_slow_coherent; [..|exact H]]. minv.
  apply comparable_Some in Ec as (-> & _ & _). destruct Hex as (? & ? & ?). by split_and!.
Qed.

(** ** A concrete case: bound by its first evaluation, reused by the second *)

Definition iso0 (_ : Z) : string := "2026-01-01T00:00:00.000Z".
Definition collation0 (s : string) : Z := Z.of_nat (String.length s).
Definition sha0 (v : Dsl.value) : string :=
  match v with Dsl.VObject _ => "digest" | _ => "none" end.
Definition text0 (_ : Unresolved) : string := "reason".
Definition research0 : option (PolicyResolutionContext -> list Unresolved ->
  M PolicyDb (list Dsl.PolicyDslIssue) unit) := None.

#[local] Instance resolver0 : PolicyResolver := catalog_resolver Dsl.nonempty_date research0.

Lemma laws0 : ResolverLaws.
Proof. apply catalog_resolver_laws. intros f ctx rs db [=]. Qed.

Definition case_db : PolicyDb :=
  {| generation := Some 1; catalog := catalog0; bindings := ∅; snapshots := ∅ |}.
Definition call0 (s b : string) : Call :=
  {| call_now := 5000; call_resolvedAt := 5000; call_later := 5001; call_boundAt := 5001;
     call_snapshotId := s; call_bindingId := b |}.

Definition evaluate0 (s b j : string) : M PolicyDb Failure PolicyEvaluationResult :=
  evaluateInternal iso0 collation0 sha0 text0 quiet (call0 s b) "t" "case" (ctx0 j).
Definition bound_db : PolicyDb := (evaluate0 "s1" "b1" "US-CA" case_db).2.

Lemma case_db_Inv : Inv case_db.
Proof. by split. Qed.

Lemma bound_db_Inv : Inv bound_db.
Proof.
  destruct (evaluateInternal_keeps iso0 collation0 sha0 text0 laws0 quiet quiet_fair
    (call0 "s1" "b1") "t" "case" (ctx0 "US-CA") case_db case_db_Inv) as [H _]. exact H.
Qed.


Lemma evaluation_is_current_witness :
  exists res, (evaluate0 "s2" "b2" "US-CA" bound_db).1 = Ok res /\ outcome res = REUSED /\
    exists b, res_binding res = Some b /\ bd_id b = "b1" /\ active_for b "t" "case".
Proof.
  destruct (evaluate0 "s2" "b2" "US-CA" bound_db) as [o db'] eqn:E.
  destruct o as [res|e]; [|vm_compute in E; discriminate E].
  exists res. split; [reflexivity|].
  destruct (evaluation_is_current iso0 collation0 sha0 text0 (call0 "s2" "b2") "t" "case"
    (ctx0 "US-CA") bound_db res db' laws0 bound_db_Inv) as (g & _ & H).
  - vm_compute. reflexivity.
  - exact E.
  - assert (outcome res = REUSED /\ (bd_id <$> res_binding res) = Some "b1") as [Ho Hb].
    { vm_compute in E. injection E as <- _. split; reflexivity. }
    split; [exact Ho|]. rewrite Ho in H. destruct H as [(b & Hb' & _ & Ha & _) _].
    exists b. rewrite Hb' in Hb. simpl in Hb. injection Hb as Hb. auto.
Defined.

(** Another caller binds the case just before the insert. *)
Definition rival : CasePolicyBinding :=
  {| bd_id := "rival"; bd_tenantId := "t"; bd_caseId := "case"; bd_dependencyDigest := "digest";
     bd_contextKey := "other"; bd_observedCatalogGeneration := 1; bd_policySnapshotId := "s1";
     bd_revalidateAfter := 9000; bd_boundAt := 1; bd_invalidatedAt := None |}.
Definition race (n : nat) (db : PolicyDb) : PolicyDb :=
  if (n =? 6)%nat && bool_decide (map_size (bindings db) = 0%nat) && bool_decide (is_Some (snapshots db !! "s1"))
  then match snapshots db !! "s1" with
       | Some s => if String.eqb (sn_tenantId s) "t" && String.eqb (sn_caseId s) "case"
                   then put_binding rival db else db
       | None => db
       end
  else db.

Lemma race_fair : fair race.
Proof.
  intros n db HI. unfold race. case_match eqn:E; [|done].
  destruct (snapshots db !! "s1") as [s|] eqn:Es; [|done]. case_match eqn:E2; [|done]. bsplit.
  split; [|done]. assert (bindings db = ∅) as Eb by (by apply map_size_empty_inv).
  split; simpl; rewrite ?Eb.
  - intros k b. rewrite insert_empty, lookup_singleton_Some. by intros [<- <-].
  - apply (inv_sid _ HI).
  - intros k b. rewrite insert_empty, lookup_singleton_Some. intros [<- <-]. by exists s.
  - intros k1 k2 b1 b2 t c. rewrite insert_empty, !lookup_singleton_Some. by intros [<- _] [<- _].
Qed.

Lemma evaluation_is_coherent_witness :
  exists res b, (evaluateInternal iso0 collation0 sha0 text0 race (call0 "s1" "b1") "t" "case"
      (ctx0 "US-CA") case_db).1 = Ok res /\ res_binding res = Some b /\ bd_id b = "rival" /\
    bd_policySnapshotId b = sn_id (res_snapshot res).
Proof.
  destruct (evaluateInternal iso0 collation0 sha0 text0 race (call0 "s1" "b1") "t" "case"
    (ctx0 "US-CA") case_db) as [o db'] eqn:E.
  destruct o as [res|e]; [|vm_compute in E; discriminate E].
  pose proof (evaluation_is_coherent iso0 collation0 sha0 text0 race (call0 "s1" "b1") "t" "case"
    (ctx0 "US-CA") case_db res db' laws0 race_fair case_db_Inv E) as H.
  assert ((bd_id <$> res_binding res) = Some "rival") as Hb
    by (vm_compute in E; injection E as <- _; reflexivity).
  exists res. destruct (res_binding res) as [b|]; [|discriminate Hb].
  exists b. simpl in Hb. injection Hb as Hb. destruct H as (_ & _ & H & _). auto.
Defined.

End Evaluation.
