(* ===== verification/PolicyActivation.v ===== *)
(** * Releasing and withdrawing policy versions

    policy/policy-transition-approval.service.ts (propose, approve),
    policy/policy-activation.service.ts (activate, withdraw) and
    policy/policy-change-impact.service.ts (the dry run over bound cases).
    The state adds the approvals, the cases, the assessments and the audit
    trail to the policy tables of [PolicyEvaluation.v].  The texts of an
    assessment are not modelled, its classification is. *)

From Stdlib Require Import Ascii.
From stdpp Require Import gmap strings list sorting.
From S2P Require Import Prelude PolicyDsl PolicyResolver PolicyEvaluation.

Module Activation.
Import Resolver Evaluation.

(** ** Rows *)

Record PolicyTransitionApproval := {
  ap_id : string; ap_policyVersionId : string; ap_proposedBy : string; ap_proposedAt : Z;
  ap_approvedBy : option string; ap_approvedAt : option Z; ap_notes : option string }.

Inductive LoanType := CONVENTIONAL | FHA | VA | JUMBO.

Definition loanTypeToProductCode (t : LoanType) : string :=
  match t with
  | CONVENTIONAL => "CONVENTIONAL_MORTGAGE" | FHA => "FHA_MORTGAGE"
  | VA => "VA_MORTGAGE" | JUMBO => "JUMBO_MORTGAGE"
  end.

Record LoanCase := {
  lc_id : string; lc_tenantId : string; lc_jurisdictionCode : string;
  lc_loanType : LoanType; lc_createdAt : Z }.

Inductive PolicyChangeImpactKind := NO_IMPACT | REQUIRES_REEVALUATION | AMBIGUOUS.

Record PolicyChangeImpactAssessment := {
  as_policyVersionId : string; as_tenantId : string; as_caseId : string;
  as_priorPolicyBindingId : string; as_impact : PolicyChangeImpactKind }.

Record AuditEvent := {
  ae_actorId : string; ae_action : string; ae_resourceId : string;
  ae_generation : Z; ae_assessmentCount : nat }.

Record CatalogDb := {
  policy : PolicyDb;
  approvals : gmap string PolicyTransitionApproval;
  loan_cases : list LoanCase;
  assessments : list PolicyChangeImpactAssessment;
  audit_events : list AuditEvent }.

Inductive Failure :=
| PolicyFailure (e : Evaluation.Failure)
| BadRequest (message : string).

Notation run := (M CatalogDb Failure).

Definition with_policy (p : PolicyDb) (db : CatalogDb) : CatalogDb :=
  {| policy := p; approvals := approvals db; loan_cases := loan_cases db;
     assessments := assessments db; audit_events := audit_events db |}.
Definition put_approval (a : PolicyTransitionApproval) (db : CatalogDb) : CatalogDb :=
  {| policy := policy db; approvals := <[ap_id a := a]> (approvals db);
     loan_cases := loan_cases db; assessments := assessments db; audit_events := audit_events db |}.
Definition add_assessment (a : PolicyChangeImpactAssessment) (db : CatalogDb) : CatalogDb :=
  {| policy := policy db; approvals := approvals db; loan_cases := loan_cases db;
     assessments := assessments db ++ [a]; audit_events := audit_events db |}.
Definition add_event (e : AuditEvent) (db : CatalogDb) : CatalogDb :=
  {| policy := policy db; approvals := approvals db; loan_cases := loan_cases db;
     assessments := assessments db; audit_events := audit_events db ++ [e] |}.

(** ** Policy versions *)

Definition find_version (id : string) (db : CatalogDb) : option PolicyVersion :=
  c_versions (catalog (policy db)) !! id.

Definition with_status (st : PolicyReleaseStatus) (v : PolicyVersion) : PolicyVersion :=
  {| pv_id := pv_id v; pv_ruleId := pv_ruleId v; pv_version := pv_version v; pv_dsl := pv_dsl v;
     pv_effectiveFrom := pv_effectiveFrom v; pv_effectiveTo := pv_effectiveTo v;
     pv_releaseStatus := st |}.

(** [update({ id }, { releaseStatus })] *)
Definition set_release_status (id : string) (st : PolicyReleaseStatus) : run unit :=
  modify (fun db =>
    let p := policy db in let c := catalog p in
    with_policy {| generation := generation p;
      catalog := {| c_jurisdictions := c_jurisdictions c; c_applicability := c_applicability c;
                    c_versions := alter (with_status st) id (c_versions c);
                    c_sources := c_sources c; c_revisions := c_revisions c |};
      bindings := bindings p; snapshots := snapshots p |} db).

Definition bumpCatalogGeneration : run Z :=
  _ ← modify (fun db =>
    let p := policy db in
    with_policy {| generation := (fun g => g + 1) <$> generation p; catalog := catalog p;
                   bindings := bindings p; snapshots := snapshots p |} db);
  g ← gets (fun db => generation (policy db));
  or_throw g (PolicyFailure EntityNotFound).

(** ** Proposal and approval *)

Definition propose (newId : string) (now : Z) (policyVersionId proposedBy : string)
    (notes : option string) : run PolicyTransitionApproval :=
  v ← gets (find_version policyVersionId);
  v ← or_throw v (PolicyFailure EntityNotFound);
  _ ← guard_throw (negb (bool_decide (pv_releaseStatus v = DRAFT)))
        (BadRequest "cannot be proposed for release from this status");
  _ ← set_release_status policyVersionId PROPOSED;
  taken ← gets (fun db => approvals db !! newId);
  _ ← guard_throw (bool_decide (is_Some taken)) (PolicyFailure UniqueViolation);
  let a := {| ap_id := newId; ap_policyVersionId := policyVersionId; ap_proposedBy := proposedBy;
              ap_proposedAt := now; ap_approvedBy := None; ap_approvedAt := None;
              ap_notes := notes |} in
  _ ← modify (put_approval a);
  mret a.

Definition approved (a : PolicyTransitionApproval) (by_ : string) (at_ : Z) : PolicyTransitionApproval :=
  {| ap_id := ap_id a; ap_policyVersionId := ap_policyVersionId a;
     ap_proposedBy := ap_proposedBy a; ap_proposedAt := ap_proposedAt a;
     ap_approvedBy := Some by_; ap_approvedAt := Some at_; ap_notes := ap_notes a |}.

(** The newest proposal that satisfies the criteria. *)
Definition latest_approval (p : PolicyTransitionApproval -> bool) (db : CatalogDb)
  : option PolicyTransitionApproval :=
  head (order_by (fun a => - ap_proposedAt a) (find_rows p (approvals db))).

Definition approve (now : Z) (policyVersionId approvedBy : string) : run PolicyTransitionApproval :=
  pending ← gets (latest_approval (fun a =>
    String.eqb (ap_policyVersionId a) policyVersionId && bool_decide (ap_approvedAt a = None)));
  pending ← or_throw pending (BadRequest "has no pending transition proposal to approve");
  _ ← guard_throw (String.eqb (ap_proposedBy pending) approvedBy)
        (BadRequest "self-approval is not permitted: the approver must differ from the proposer");
  let a := approved pending approvedBy now in
  _ ← modify (put_approval a);
  mret a.

Definition hasApprovedTransition (policyVersionId : string) (db : CatalogDb) : bool :=
  match latest_approval (fun a => String.eqb (ap_policyVersionId a) policyVersionId) db with
  | Some a => bool_decide (is_Some (ap_approvedAt a)) && bool_decide (is_Some (ap_approvedBy a))
  | None => false
  end.

(** ** Impact of a change *)

Definition classifyImpact (prior : CasePolicySnapshot) (dryRun : PolicyResolutionResult)
  : PolicyChangeImpactKind :=
  match status dryRun with
  | REVIEW_REQUIRED => AMBIGUOUS
  | RESOLVED =>
      let priorIds := list_to_set (C := gset string) (rv_policyVersionId <$> sn_versions prior) in
      let newIds := list_to_set (C := gset string) (rv_policyVersionId <$> versions dryRun) in
      if (size priorIds =? size newIds)%nat && forallb (fun i => bool_decide (i ∈ newIds)) (elements priorIds)
      then NO_IMPACT else REQUIRES_REEVALUATION
  end.

Definition UNDERWRITING_REVIEW_LIFECYCLE_EVENT : string := "UNDERWRITING_REVIEW".

Section Impact.
Context {RES : PolicyResolver} (now : Z).

(** [resolver.resolve], which works on the policy tables. *)
Definition dry_run (ctx : PolicyResolutionContext) : run PolicyResolutionResult := fun db =>
  match resolve_with now ctx (policy db) with
  | (Ok r, p) => (Ok r, with_policy p db)
  | (Err e, p) => (Err (PolicyFailure e), with_policy p db)
  end.

Definition assessOneCase (c : LoanCase) (policyVersionId j product event : string)
  : run (option PolicyChangeImpactAssessment) :=
  b ← gets (fun db => active_binding (lc_tenantId c) (lc_id c) (policy db));
  match b with
  | None => mret None
  | Some b =>
      s ← gets (fun db => snapshots (policy db) !! bd_policySnapshotId b);
      s ← or_throw s (PolicyFailure EntityNotFound);
      r ← dry_run {| jurisdictionCode := j; productCode := product; lifecycleEvent := event;
                     asOf := now; applicationReceivedAt := Some (lc_createdAt c) |};
      let a := {| as_policyVersionId := policyVersionId; as_tenantId := lc_tenantId c;
                  as_caseId := lc_id c; as_priorPolicyBindingId := bd_id b;
                  as_impact := classifyImpact s r |} in
      _ ← modify (add_assessment a);
      mret (Some a)
  end.

(** The inner loop: every candidate case, one transaction each. *)
Fixpoint assess_cases (cs : list LoanCase) (policyVersionId j product event : string)
  : run (list PolicyChangeImpactAssessment) :=
  match cs with
  | [] => mret []
  | c :: cs' =>
      a ← transaction (assessOneCase c policyVersionId j product event);
      rest ← assess_cases cs' policyVersionId j product event;
      mret (match a with Some a => a :: rest | None => rest end)
  end.

Definition tripleKey (a : PolicyApplicability) : string :=
  pa_jurisdictionCode a +:+ "|" +:+ pa_productCode a +:+ "|" +:+ pa_lifecycleEvent a.

Definition affected (a : PolicyApplicability) (c : LoanCase) : bool :=
  String.eqb (lc_jurisdictionCode c) (pa_jurisdictionCode a) &&
  String.eqb (loanTypeToProductCode (lc_loanType c)) (pa_productCode a).

Fixpoint assess_rows (rows : list PolicyApplicability) (seen : list string) (policyVersionId : string)
  : run (list PolicyChangeImpactAssessment) :=
  match rows with
  | [] => mret []
  | a :: rows' =>
      if includes seen (tripleKey a) then assess_rows rows' seen policyVersionId else
      cs ← gets (fun db => List.filter (affected a) (loan_cases db));
      xs ← assess_cases cs policyVersionId (pa_jurisdictionCode a) (pa_productCode a) (pa_lifecycleEvent a);
      ys ← assess_rows rows' (tripleKey a :: seen) policyVersionId;
      mret (xs ++ ys)
  end.

Definition assessImpact (policyVersionId : string) : run (list PolicyChangeImpactAssessment) :=
  rows ← gets (fun db => List.filter (fun a => String.eqb (pa_policyVersionId a) policyVersionId)
                           (c_applicability (catalog (policy db))));
  assess_rows rows [] policyVersionId.

Definition assessImpactForCase (tenantId caseId policyVersionId : string)
  : run (option PolicyChangeImpactAssessment) :=
  transaction (
    c ← gets (fun db => List.find (fun c => String.eqb (lc_id c) caseId &&
                                     String.eqb (lc_tenantId c) tenantId) (loan_cases db));
    c ← or_throw c (PolicyFailure EntityNotFound);
    assessOneCase c policyVersionId (lc_jurisdictionCode c) (loanTypeToProductCode (lc_loanType c))
      UNDERWRITING_REVIEW_LIFECYCLE_EVENT).

(** ** Activation and withdrawal *)

Record PolicyActivationResult := {
  ar_policyVersionId : string; ar_generation : Z;
  ar_assessments : list PolicyChangeImpactAssessment }.

(** The part both share: the status change and the bump in one transaction,
    then the dry run, then the audit event, which may fail to be written. *)
Definition status_change (policyVersionId : string) (st : PolicyReleaseStatus) : run Z :=
  transaction (_ ← set_release_status policyVersionId st; bumpCatalogGeneration).

Definition report (audited : bool) (action policyVersionId actorId : string) (g : Z)
  : run PolicyActivationResult :=
  xs ← assessImpact policyVersionId;
  _ ← (if audited then modify (add_event
         {| ae_actorId := actorId; ae_action := action; ae_resourceId := policyVersionId;
            ae_generation := g; ae_assessmentCount := length xs |}) else mret tt);
  mret {| ar_policyVersionId := policyVersionId; ar_generation := g; ar_assessments := xs |}.

Definition change_status (audited : bool) (action policyVersionId actorId : string)
    (st : PolicyReleaseStatus) : run PolicyActivationResult :=
  g ← status_change policyVersionId st;
  report audited action policyVersionId actorId g.

Definition activate (audited : bool) (policyVersionId actorId : string) : run PolicyActivationResult :=
  v ← gets (find_version policyVersionId);
  v ← or_throw v (PolicyFailure EntityNotFound);
  _ ← guard_throw (negb (bool_decide (pv_releaseStatus v = DRAFT)) &&
                   negb (bool_decide (pv_releaseStatus v = PROPOSED)))
        (BadRequest "cannot be activated from this status");
  ok ← gets (hasApprovedTransition policyVersionId);
  _ ← guard_throw (negb ok) (BadRequest "has no independently-approved transition proposal");
  change_status audited "POLICY_VERSION_ACTIVATED" policyVersionId actorId RELEASED.

Definition withdraw (audited : bool) (policyVersionId actorId : string) : run PolicyActivationResult :=
  v ← gets (find_version policyVersionId);
  v ← or_throw v (PolicyFailure EntityNotFound);
  _ ← guard_throw (negb (bool_decide (pv_releaseStatus v = RELEASED)))
        (BadRequest "cannot be withdrawn from this status");
  change_status audited "POLICY_VERSION_WITHDRAWN" policyVersionId actorId WITHDRAWN.
End Impact.

(** ** The two-person rule *)

Definition two_people (a : PolicyTransitionApproval) : Prop :=
  exists p, ap_approvedBy a = Some p /\ p <> ap_proposedBy a /\ is_Some (ap_approvedAt a).

Record Inv (db : CatalogDb) : Prop := {
  inv_aid : forall k a, approvals db !! k = Some a -> ap_id a = k;
  inv_independent : forall k a, approvals db !! k = Some a ->
    is_Some (ap_approvedAt a) -> two_people a;
  inv_released : forall id v, find_version id db = Some v -> pv_releaseStatus v = RELEASED ->
    exists k a, approvals db !! k = Some a /\ ap_policyVersionId a = id /\ two_people a }.

(** Steps that leave the approvals and the release statuses alone. *)
Record same_catalog (db db' : CatalogDb) : Prop := {
  sc_approvals : approvals db' = approvals db;
  sc_catalog : catalog (policy db') = catalog (policy db);
  sc_generation : generation (policy db') = generation (policy db);
  sc_bindings : bindings (policy db') = bindings (policy db);
  sc_snapshots : snapshots (policy db') = snapshots (policy db) }.

#[export] Instance same_catalog_preorder : PreOrder same_catalog.
Proof.
  split; [by intros db; split|]. intros a b c [] []. split; congruence.
Qed.

Lemma same_catalog_Inv db db' : same_catalog db db' -> Inv db -> Inv db'.
Proof.
  intros [Ea Ec _ _ _] [H1 H2 H3]. split; unfold find_version; rewrite ?Ea, ?Ec; done.
Qed.

(** [m] leaves them alone on every exit. *)
Definition advisory {A} (m : M CatalogDb Failure A) : Prop := forall db, same_catalog db (m db).2.

Lemma advisory_bind {A B} (m : M CatalogDb Failure A) (f : A -> M CatalogDb Failure B) :
  advisory m -> (forall a, advisory (f a)) -> advisory (m ≫= f).
Proof.
  intros Hm Hf db. unfold mbind, M_bind. specialize (Hm db).
  destruct (m db) as [[a|e] db1]; simpl in *; [|done]. etrans; [exact Hm|apply Hf].
Qed.

Lemma advisory_pure {A} (m : M CatalogDb Failure A) : (forall db, (m db).2 = db) -> advisory m.
Proof. intros Hm db. by rewrite Hm. Qed.

Lemma advisory_transaction {A} (m : M CatalogDb Failure A) : advisory m -> advisory (transaction m).
Proof. intros Hm db. unfold transaction. specialize (Hm db). by destruct (m db) as [[]]. Qed.

Section Advisory.
Context {RES : PolicyResolver} (HL : ResolverLaws) (now : Z).

Lemma dry_run_advisory ctx : advisory (dry_run now ctx).
Proof using HL.
  intros db. unfold dry_run.
  destruct (resolver_frame now ctx (policy db)) as [Eb Es].
  destruct (resolver_catalog now ctx (policy db)) as [Eg Ec].
  destruct (resolve_with now ctx (policy db)) as [[r|e] p]; split; simpl in *; done.
Qed.

Lemma assessOneCase_advisory c v j p e : advisory (assessOneCase now c v j p e).
Proof using HL.
  unfold assessOneCase. apply advisory_bind; [by apply advisory_pure|]. intros [b|]; [|by apply advisory_pure].
  apply advisory_bind; [by apply advisory_pure|]. intros os.
  apply advisory_bind; [apply advisory_pure; by destruct os|]. intros s.
  apply advisory_bind; [apply dry_run_advisory|]. intros r.
  apply advisory_bind; [by intros db; split|]. intros _. by apply advisory_pure.
Qed.

Lemma assess_cases_advisory cs v j p e : advisory (assess_cases now cs v j p e).
Proof using HL.
  induction cs as [|c cs IH]; simpl; [by apply advisory_pure|].
  apply advisory_bind; [apply advisory_transaction, assessOneCase_advisory|]. intros a.
  apply advisory_bind; [done|]. intros rest. by apply advisory_pure.
Qed.

Lemma assessImpact_advisory v : advisory (assessImpact now v).
Proof using HL.
  unfold assessImpact. apply advisory_bind; [by apply advisory_pure|]. intros rows.
  generalize (@nil string) as seen. induction rows as [|a rows IH]; intros seen; simpl.
  { by apply advisory_pure. }
  case_match; [apply IH|]. apply advisory_bind; [by apply advisory_pure|]. intros cs.
  apply advisory_bind; [apply assess_cases_advisory|]. intros xs.
  apply advisory_bind; [apply IH|]. intros ys. by apply advisory_pure.
Qed.

Lemma audit_advisory (b : bool) e : advisory (if b then modify (add_event e) else mret tt).
Proof. intros db. by destruct b. Qed.

Lemma report_advisory audited action id actor g : advisory (report now audited action id actor g).
Proof using HL.
  apply advisory_bind; [apply assessImpact_advisory|]. intros xs.
  apply advisory_bind; [apply audit_advisory|]. intros u. by apply advisory_pure.
Qed.

Lemma status_change_run id st db :
  match generation (policy db) with
  | None => (status_change id st db).2 = db
  | Some g => exists db1, status_change id st db = (Ok (g + 1), db1) /\
      approvals db1 = approvals db /\ generation (policy db1) = Some (g + 1) /\
      c_versions (catalog (policy db1)) = alter (with_status st) id (c_versions (catalog (policy db))) /\
      bindings (policy db1) = bindings (policy db) /\ snapshots (policy db1) = snapshots (policy db)
  end.
Proof.
  unfold status_change, transaction, set_release_status, bumpCatalogGeneration, mbind, M_bind,
    modify, gets, or_throw. simpl.
  destruct (generation (policy db)) as [g|]; simpl; [|done]. eexists. split; [reflexivity|]. done.
Qed.

(** What a status change does to the tables, the dry run and the audit event
    included. *)
Lemma change_status_Ok audited action id actor st db r db' :
  change_status now audited action id actor st db = (Ok r, db') ->
  exists g, generation (policy db) = Some g /\ generation (policy db') = Some (g + 1) /\
    ar_generation r = g + 1 /\ approvals db' = approvals db /\
    c_versions (catalog (policy db')) = alter (with_status st) id (c_versions (catalog (policy db))) /\
    bindings (policy db') = bindings (policy db) /\ snapshots (policy db') = snapshots (policy db).
Proof using HL.
  unfold change_status. intros H. apply bind_Ok in H as (g & db1 & Hg & H).
  pose proof (status_change_run id st db) as Hrun.
  destruct (generation (policy db)) as [g0|] eqn:Eg0.
  2: { unfold status_change, transaction, set_release_status, bumpCatalogGeneration, mbind, M_bind,
         modify, gets, or_throw in Hg. simpl in Hg. by rewrite Eg0 in Hg. }
  destruct Hrun as (db1' & E & Ea & Eg & Ec & Eb & Es). rewrite E in Hg. simplify_eq.
  pose proof (report_advisory audited action id actor (g0 + 1) db1) as [Ra Rc Rg Rb Rs].
  rewrite H in Ra, Rc, Rg, Rb, Rs. simpl in *.
  assert (ar_generation r = g0 + 1) as Hr.
  { unfold report in H. apply bind_Ok in H as (xs & s1 & _ & H).
    apply bind_Ok in H as (u & s2 & _ & H). by minv. }
  exists g0. rewrite Ra, Rc, Rg, Rb, Rs. by split_and!.
Qed.

(** On any exit, the approvals stay and the statuses move at most this way. *)
Lemma change_status_tables audited action id actor st db :
  let db' := (change_status now audited action id actor st db).2 in
  approvals db' = approvals db /\
  (c_versions (catalog (policy db')) = c_versions (catalog (policy db)) \/
   c_versions (catalog (policy db')) = alter (with_status st) id (c_versions (catalog (policy db)))).
Proof using HL.
  simpl. unfold change_status. pose proof (status_change_run id st db) as Hrun.
  unfold mbind, M_bind. destruct (generation (policy db)) as [g|].
  - destruct Hrun as (db1 & -> & Ea & _ & Ec & _).
    destruct (report_advisory audited action id actor (g + 1) db1) as [Ra Rc _ _ _].
    rewrite Ra, Rc, Ea, Ec. auto.
  - destruct (status_change id st db) as [[g|e] db1]; simpl in *; subst db1; [|auto].
    destruct (report_advisory audited action id actor g db) as [Ra Rc _ _ _]. rewrite Ra, Rc. auto.
Qed.
End Advisory.

(** ** Histories of the catalog *)

Inductive step {RES : PolicyResolver} : CatalogDb -> CatalogDb -> Prop :=
| step_propose id now v who notes db : step db (propose id now v who notes db).2
| step_approve now v who db : step db (approve now v who db).2
| step_activate now b v who db : step db (activate now b v who db).2
| step_withdraw now b v who db : step db (withdraw now b v who db).2.

Lemma find_version_status id st (m : gmap string PolicyVersion) id' v :
  alter (with_status st) id m !! id' = Some v -> pv_releaseStatus v = RELEASED ->
  (id' = id /\ st = RELEASED) \/ exists v0, m !! id' = Some v0 /\ pv_releaseStatus v0 = RELEASED.
Proof.
  destruct (decide (id' = id)) as [->|Hne].
  - rewrite lookup_alter_eq. destruct (m !! id) as [v0|]; simpl; [|done]. intros [= <-]. simpl. auto.
  - rewrite lookup_alter_ne by done. eauto.
Qed.

Lemma propose_Inv id now v who notes db : Inv db -> Inv (propose id now v who notes db).2.
Proof.
  intros [H1 H2 H3]. unfold propose, mbind, M_bind, gets, or_throw, guard_throw.
  destruct (find_version v db) as [pv|] eqn:Ev; [|done]. simpl. destruct (negb _); [done|]. simpl.
  set (db1 := with_policy _ db).
  assert (HI1 : Inv db1).
  { split; simpl; [done|done|]. intros id' v' Hv Hr. unfold find_version in Hv. simpl in Hv.
    destruct (find_version_status _ _ _ _ _ Hv Hr) as [[_ ?]|(v0 & Hv0 & Hr0)]; [done|by eapply H3]. }
  destruct (approvals db !! id) as [a0|] eqn:Ea; simpl; [done|].
  destruct HI1 as [G1 G2 G3]. split; simpl.
  - intros k a. rewrite lookup_insert. case_decide; intros; simplify_eq; [done|by apply H1].
  - intros k a. rewrite lookup_insert. case_decide; intros Ha; simplify_eq; [by intros []|by eapply H2].
  - intros id' v' Hv Hr. destruct (G3 id' v' Hv Hr) as (k & a & Hk & Hid & Htwo).
    exists k, a. rewrite lookup_insert_ne; [done|]. simpl in Hk. congruence.
Qed.

Lemma approve_Inv now v who db : Inv db -> Inv (approve now v who db).2.
Proof.
  intros HI. unfold approve, mbind, M_bind, gets, or_throw, guard_throw.
  destruct (latest_approval _ db) as [a|] eqn:Ea; [|done]. simpl.
  destruct (String.eqb (ap_proposedBy a) who) eqn:Ew; [done|]. simpl. bsplit.
  unfold latest_approval in Ea. apply order_by_head_min in Ea as [Ea _].
  apply elem_find_rows in Ea as [_ [k Hk]]. destruct HI as [H1 H2 H3].
  pose proof (H1 _ _ Hk) as Hid. split; simpl; rewrite ?Hid.
  - intros k' a'. rewrite lookup_insert. case_decide; intros; simplify_eq; [done|by apply H1].
  - intros k' a'. rewrite lookup_insert. case_decide; intros Ha; simplify_eq; [|by eapply H2].
    intros _. exists who. simpl. split_and!; [done|congruence|by eexists].
  - intros id' v' Hv Hr. destruct (H3 id' v' Hv Hr) as (k' & a' & Hk' & Hid' & Htwo).
    destruct (decide (k = k')) as [<-|Hne].
    + exists k, (approved a who now). rewrite lookup_insert_eq. simplify_eq.
      split_and!; [done|done|]. exists who. simpl. split_and!; [done|congruence|by eexists].
    + exists k', a'. by rewrite lookup_insert_ne.
Qed.

(** The row the approval gate looked at. *)
Lemma hasApprovedTransition_true v db :
  Inv db -> hasApprovedTransition v db = true ->
  exists k a, approvals db !! k = Some a /\ ap_policyVersionId a = v /\ two_people a.
Proof.
  intros HI H. unfold hasApprovedTransition in H. case_match eqn:E; [|done].
  apply order_by_head_min in E as [E _]. apply elem_find_rows in E as [Hv [k Hk]]. bsplit.
  exists k, p. split_and!; [done|done|]. by eapply inv_independent.
Qed.

Lemma change_status_Inv {RES : PolicyResolver} (HL : ResolverLaws) now audited action id actor st db :
  Inv db ->
  (st = RELEASED -> exists k a, approvals db !! k = Some a /\ ap_policyVersionId a = id /\ two_people a) ->
  Inv (change_status now audited action id actor st db).2.
Proof.
  intros [H1 H2 H3] Hst.
  destruct (change_status_tables HL now audited action id actor st db) as [Ea Hc].
  split; rewrite ?Ea; [done|done|]. intros id' v Hv Hr. unfold find_version in Hv.
  destruct Hc as [Hc|Hc]; rewrite Hc in Hv; [by eapply H3|].
  destruct (find_version_status _ _ _ _ _ Hv Hr) as [[-> Hs]|(v0 & Hv0 & Hr0)]; [auto|by eapply H3].
Qed.

Lemma activate_Inv {RES : PolicyResolver} (HL : ResolverLaws) now b v who db :
  Inv db -> Inv (activate now b v who db).2.
Proof.
  intros HI. unfold activate, mbind, M_bind, gets, or_throw, guard_throw.
  destruct (find_version v db) as [pv|]; [|done]. simpl. destruct (_ && _); [done|]. simpl.
  destruct (hasApprovedTransition v db) eqn:Eh; simpl; [|done].
  apply change_status_Inv; [done|done|]. intros _. by apply hasApprovedTransition_true.
Qed.

Lemma withdraw_Inv {RES : PolicyResolver} (HL : ResolverLaws) now b v who db :
  Inv db -> Inv (withdraw now b v who db).2.
Proof.
  intros HI. unfold withdraw, mbind, M_bind, gets, or_throw, guard_throw.
  destruct (find_version v db) as [pv|]; [|done]. simpl. destruct (negb _); [done|]. simpl.
  by apply change_status_Inv.
Qed.

(** ** Properties *)

(** An empty desk: no proposal yet, nothing released. *)
Definition unreleased (db : CatalogDb) : Prop :=
  approvals db = ∅ /\
  forall id v, find_version id db = Some v -> pv_releaseStatus v <> RELEASED.


(** A release or a withdrawal outdates every binding at once and moves
    nothing else of a case.  After a successful [activate] or [withdraw] the
    catalog generation is one higher, so that no binding made under the
    generations before it can pass the fast path of an evaluation; bindings
    and snapshots are exactly what they were: the impact assessment is
    advisory. *)
Theorem activation_outdates_bindings {RES : PolicyResolver} now audited id actor db r db' g :
  ResolverLaws -> generation (policy db) = Some g ->
  (forall k b, bindings (policy db) !! k = Some b -> bd_observedCatalogGeneration b <= g) ->
  activate now audited id actor db = (Ok r, db') \/ withdraw now audited id actor db = (Ok r, db') ->
  generation (policy db') = Some (g + 1) /\ ar_generation r = g + 1 /\
  bindings (policy db') = bindings (policy db) /\ snapshots (policy db') = snapshots (policy db) /\
  forall k b g', bindings (policy db') !! k = Some b -> generation (policy db') = Some g' ->
    (bd_observedCatalogGeneration b =? g') = false.
Proof.
  intros HL Hg Hle H.
  assert (exists action st, change_status now audited action id actor st db = (Ok r, db'))
    as (action & st & Hc).
  { destruct H as [H|H]; [unfold activate in H|unfold withdraw in H]; minv; eauto. }
  apply change_status_Ok in Hc as (g0 & Eg & Eg' & Er & _ & _ & Eb & Es); [|done]. simplify_eq.
  split_and!; [done|done|done|done|]. intros k b g' Hb Hg'. rewrite Eb in Hb.
  specialize (Hle k b Hb). simplify_eq. lia.
Qed.

(** The impact of a change is what the sets say: NO_IMPACT exactly when
    the dry run resolves and returns the same set of policy versions as the
    case's snapshot, AMBIGUOUS exactly when it does not resolve. *)
Theorem classifyImpact_exact prior dryRun :
  (classifyImpact prior dryRun = NO_IMPACT <-> status dryRun = RESOLVED /\
     forall i, i ∈ rv_policyVersionId <$> sn_versions prior <->
               i ∈ rv_policyVersionId <$> versions dryRun) /\
  (classifyImpact prior dryRun = AMBIGUOUS <-> status dryRun = REVIEW_REQUIRED).
Proof.
  unfold classifyImpact. destruct (status dryRun); [|naive_solver].
  set (A := list_to_set (rv_policyVersionId <$> sn_versions prior) : gset string).
  set (B := list_to_set (rv_policyVersionId <$> versions dryRun) : gset string).
  assert (HAB : A = B <-> forall i, i ∈ rv_policyVersionId <$> sn_versions prior <->
    i ∈ rv_policyVersionId <$> versions dryRun).
  { unfold A, B. rewrite set_eq. setoid_rewrite elem_of_list_to_set. done. }
  rewrite <- HAB. case_match eqn:E; (split; [|naive_solver]); split; try done.
  - intros _. split; [done|]. apply andb_true_iff in E as [Es Ef]. apply Nat.eqb_eq in Es.
    apply set_subseteq_size_eq; [|lia]. intros i Hi. rewrite forallb_forall in Ef.
    specialize (Ef i). rewrite bool_decide_eq_true in Ef. apply Ef, list_elem_of_In.
    by apply elem_of_elements.
  - intros [_ Heq]. rewrite Heq, Nat.eqb_refl in E. simpl in E.
    apply not_true_iff_false in E. destruct E. apply forallb_forall. intros i Hi.
    apply bool_decide_eq_true. by apply elem_of_elements, list_elem_of_In.
Qed.

(** ** A concrete release: a federal rule, a case in a state *)

Definition federal_catalog : Catalog :=
  {| c_jurisdictions := jurisdictions0;
     c_applicability := [{| pa_id := "a1"; pa_policyVersionId := "v1"; pa_jurisdictionCode := "US";
       pa_productCode := "CONVENTIONAL_MORTGAGE"; pa_lifecycleEvent := "PRE_DECISION";
       pa_transitionRule := None |}];
     c_versions := {[ "v1" := with_status DRAFT version0 ]};
     c_sources := c_sources catalog0; c_revisions := c_revisions catalog0 |}.

(** The case was evaluated before the rule existed: bound to no version. *)
Definition before : PolicyDb :=
  (evaluate0 "s1" "b1" "US-CA"
     {| generation := Some 1; catalog := federal_catalog; bindings := ∅; snapshots := ∅ |}).2.

Definition desk : CatalogDb :=
  {| policy := before; approvals := ∅;
     loan_cases := [{| lc_id := "case"; lc_tenantId := "t"; lc_jurisdictionCode := "US-CA";
                       lc_loanType := CONVENTIONAL; lc_createdAt := 4000 |}];
     assessments := []; audit_events := [] |}.

#[local] Instance resolver1 : PolicyResolver := catalog_resolver Dsl.nonempty_date research0.

Definition proposed_db : CatalogDb := (propose "p1" 5000 "v1" "author" None desk).2.
Definition approved_db : CatalogDb := (approve 5001 "v1" "approver" proposed_db).2.
Definition released_db : CatalogDb := (activate 5002 true "v1" "operator" approved_db).2.

Lemma desk_unreleased : unreleased desk.
Proof.
  split; [reflexivity|]. intros id v Hv.
  destruct (decide (id = "v1")) as [->|Hne].
  - vm_compute in Hv. injection Hv as <-. intros Hst. discriminate Hst.
  - unfold find_version in Hv.
    assert (c_versions (catalog (policy desk)) = {[ "v1" := with_status DRAFT version0 ]}) as E
      by (vm_compute; reflexivity).
    rewrite E, lookup_singleton_ne in Hv by congruence. discriminate Hv.
Qed.

Lemma release_history : rtc step desk released_db.
Proof.
  eapply rtc_l; [apply (step_propose "p1" 5000 "v1" "author" None)|].
  eapply rtc_l; [apply (step_approve 5001 "v1" "approver")|].
  eapply rtc_l; [apply (step_activate 5002 true "v1" "operator")|]. apply rtc_refl.
Qed.


Lemma activation_outdates_bindings_witness :
  exists r, (activate 5002 true "v1" "operator" approved_db).1 = Ok r /\ ar_generation r = 2 /\
    bindings (policy released_db) = bindings (policy approved_db).
Proof.
  destruct (activate 5002 true "v1" "operator" approved_db) as [o db'] eqn:E.
  assert (db' = released_db) as -> by (unfold released_db; rewrite E; reflexivity).
  destruct o as [r|e]; [|vm_compute in E; discriminate E].
  destruct (activation_outdates_bindings 5002 true "v1" "operator" approved_db r released_db 1 laws0)
    as (_ & Hr & Hb & _).
  - vm_compute. reflexivity.
  - intros k b Hb.
    assert (bindings (policy approved_db) = bindings before) as Eb by reflexivity. rewrite Eb in Hb.
    destruct (decide (k = "b1")) as [->|Hne].
    + vm_compute in Hb. injection Hb as <-. vm_compute. discriminate.
    + exfalso. destruct (bindings before !! "b1") as [b1|] eqn:E1; [|vm_compute in E1; discriminate E1].
      assert (bindings before = <["b1" := b1]> ∅) as Em.
      { revert E1. vm_compute. intros [= <-]. reflexivity. }
      rewrite Em, lookup_insert_ne in Hb by congruence. rewrite lookup_empty in Hb. discriminate Hb.
  - left. exact E.
  - exists r. auto.
Defined.

(** The dry run misses cases of subordinate jurisdictions.  Here a
    federal rule is released while a case in California is bound to no
    version: the assessment of the release lists no case, yet the next
    evaluation of that case resolves to the new version.  Candidates are
    looked up by the rule's own jurisdiction code, resolution walks the
    ancestry of the case's. *)
Theorem federal_change_misses_state_cases :
  (exists r, (activate 5002 true "v1" "operator" approved_db).1 = Ok r /\ ar_assessments r = []) /\
  (exists res, (evaluate0 "s0" "b0" "US-CA" (policy approved_db)).1 = Ok res /\
     versions (resolution res) = []) /\
  (exists res, (evaluate0 "s2" "b2" "US-CA" (policy released_db)).1 = Ok res /\
     rv_policyVersionId <$> versions (resolution res) = ["v1"]).
Proof.
  split; [|split]; eexists; (split; [vm_compute; reflexivity|vm_compute; reflexivity]).
Qed.

End Activation.
