(* ===== verification/Concurrency.v ===== *)
(** * Concurrent requests

    A request handler is a sequence of database statements and outgoing
    calls; between two of them any other request may run.  [Prog] is such a
    handler, [step] interleaves any number of them over one database, and
    [safe] is a rely-guarantee condition on one handler under which an
    invariant holds in every interleaving ([pool_sound]).

    A handler that has to win a compare-and-swap before it may call out
    holds a claim in between; [pool_sound] also shows that a claim is used
    for at most one call. *)

From stdpp Require Import gmap strings list.
From S2P Require Import Prelude.

Module Threads.

(** ** Handlers *)

Section Programs.
Context {S E Q R : Type}.

(** [Db m k] is one atomic statement or transaction, [Call q k] an outgoing
    request whose answer nobody controls. *)
Inductive Prog (A : Type) : Type :=
| Done (r : result E A)
| Db {B : Type} (m : M S E B) (k : result E B -> Prog A)
| Call (q : Q) (k : R -> Prog A).
Arguments Done {A} r.
Arguments Db {A B} m k.
Arguments Call {A} q k.

Definition atomically {A} (m : M S E A) : Prog A := Db m Done.
Definition call (q : Q) : Prog R := Call q (fun r => Done (Ok r)).
Definition fail {A} (e : E) : Prog A := Done (Err e).

Fixpoint pbind {A B} (p : Prog A) (f : A -> Prog B) : Prog B :=
  match p with
  | Done (Ok a) => f a
  | Done (Err e) => Done (Err e)
  | Db m k => Db m (fun r => pbind (k r) f)
  | Call q k => Call q (fun r => pbind (k r) f)
  end.

(** [try { p } catch (error) { h(error) }] *)
Fixpoint pcatch {A} (p : Prog A) (h : E -> Prog A) : Prog A :=
  match p with
  | Done (Ok a) => Done (Ok a)
  | Done (Err e) => h e
  | Db m k => Db m (fun r => pcatch (k r) h)
  | Call q k => Call q (fun r => pcatch (k r) h)
  end.

(** A run without interference, with a function that answers the calls. *)
Fixpoint exec {A} (answer : Q -> R) (p : Prog A) (s : S) : result E A * S * list Q :=
  match p with
  | Done r => (r, s, [])
  | Db m k => let (r, s') := m s in exec answer (k r) s'
  | Call q k =>
      let '(r, s', qs) := exec answer (k (answer q)) s in (r, s', q :: qs)
  end.

(** [p] can come to [q] through statements that ran in the listed states,
    in that order, whatever happened in between. *)
Inductive reach {A} : Prog A -> list S -> Prog A -> Prop :=
| reach_refl p : reach p [] p
| reach_db {B} (m : M S E B) k s h q :
    reach (k (m s).1) h q -> reach (Db m k) (s :: h) q
| reach_call c k r h q : reach (k r) h q -> reach (Call c k) h q.

(** The next [n] statements, run without interference. *)
Fixpoint advance {A} (n : nat) (p : Prog A) (s : S) : list S * Prog A :=
  match n, p with
  | Datatypes.S n', Db m k =>
      let '(h, q) := advance n' (k (m s).1) (m s).2 in (s :: h, q)
  | _, _ => ([], p)
  end.

Lemma advance_reach {A} n (p : Prog A) s : reach p (advance n p s).1 (advance n p s).2.
Proof.
  revert p s. induction n as [|n IH]; intros p s; [constructor|].
  destruct p as [r|B m k|q k]; simpl; [constructor| |constructor].
  specialize (IH (k (m s).1) (m s).2). destruct (advance n (k (m s).1) (m s).2) as [h q].
  by constructor.
Qed.

(** Every call [p] can make satisfies [P], given the states in which the
    statements before it ran; [Φ] holds of the result. *)
Fixpoint along {A} (P : list S -> Q -> Prop) (Φ : result E A -> list S -> Prop)
    (p : Prog A) (hist : list S) : Prop :=
  match p with
  | Done r => Φ r hist
  | Db m k => forall s, along P Φ (k (m s).1) (hist ++ [s])
  | Call q k => P hist q /\ forall r, along P Φ (k r) hist
  end.

Lemma along_reach {A} P Φ (p p' : Prog A) h hist :
  reach p h p' -> along P Φ p hist -> along P Φ p' (hist ++ h).
Proof.
  intros Hr. revert hist. induction Hr as [p|B m k s h q _ IH|c k r h q _ IH]; intros hist Ha.
  - by rewrite app_nil_r.
  - specialize (IH _ (Ha s)). by rewrite <- app_assoc in IH.
  - destruct Ha as [_ Ha]. apply IH, Ha.
Qed.

Lemma along_mono {A} P (Φ Ψ : result E A -> list S -> Prop) (p : Prog A) hist :
  (forall r h, Φ r h -> Ψ r h) -> along P Φ p hist -> along P Ψ p hist.
Proof.
  intros HΦ. revert hist. induction p as [r|B m k IH|q k IH]; simpl; intros hist.
  - apply HΦ.
  - intros Ha s. by apply IH.
  - intros [? Ha]. split; [done|]. intros r. by apply IH.
Qed.

Lemma along_weaken {A} (P P' : list S -> Q -> Prop) Φ (p : Prog A) hist :
  (forall h q, P h q -> P' h q) -> along P Φ p hist -> along P' Φ p hist.
Proof.
  intros HP. revert hist. induction p as [r|B m k IH|q k IH]; simpl; intros hist; [done| |].
  - intros Ha s. by apply IH.
  - intros [? Ha]. split; [by apply HP|]. intros r. by apply IH.
Qed.

Lemma along_bind {A B} P Φ (p : Prog A) (f : A -> Prog B) hist :
  along P (fun r h => match r with
                      | Ok a => along P Φ (f a) h
                      | Err e => Φ (Err e) h
                      end) p hist ->
  along P Φ (pbind p f) hist.
Proof.
  revert hist. induction p as [[a|e]|C m k IH|q k IH]; simpl; intros hist; [done|done| |].
  - intros Ha s. by apply IH.
  - intros [? Ha]. split; [done|]. intros r. by apply IH.
Qed.

Lemma along_catch {A} P Φ (p : Prog A) (g : E -> Prog A) hist :
  along P (fun r h => match r with
                      | Ok a => Φ (Ok a) h
                      | Err e => along P Φ (g e) h
                      end) p hist ->
  along P Φ (pcatch p g) hist.
Proof.
  revert hist. induction p as [[a|e]|C m k IH|q k IH]; simpl; intros hist; [done|done| |].
  - intros Ha s. by apply IH.
  - intros [? Ha]. split; [done|]. intros r. by apply IH.
Qed.

Lemma along_gets_bind {A B} P Φ (f : S -> A) (g : A -> Prog B) hist :
  (forall s, along P Φ (g (f s)) (hist ++ [s])) -> along P Φ (pbind (atomically (gets f)) g) hist.
Proof. intros H s. apply H. Qed.

Lemma exec_bind {A B} answer (p : Prog A) (f : A -> Prog B) s :
  exec answer (pbind p f) s =
  match exec answer p s with
  | (Ok a, s1, qs) => let '(r, s2, qs') := exec answer (f a) s1 in (r, s2, qs ++ qs')
  | (Err e, s1, qs) => (Err e, s1, qs)
  end.
Proof.
  revert s. induction p as [[a|e]|C m k IH|q k IH]; intros s; simpl; [by destruct (exec _ (f a) s) as [[]]|done| |].
  - destruct (m s) as [r s1]. apply IH.
  - rewrite IH. destruct (exec answer (k (answer q)) s) as [[[a|e] s1] qs]; [|done].
    by destruct (exec answer (f a) s1) as [[]].
Qed.

Lemma exec_catch {A} answer (p : Prog A) (g : E -> Prog A) s :
  exec answer (pcatch p g) s =
  match exec answer p s with
  | (Ok a, s1, qs) => (Ok a, s1, qs)
  | (Err e, s1, qs) => let '(r, s2, qs') := exec answer (g e) s1 in (r, s2, qs ++ qs')
  end.
Proof.
  revert s. induction p as [[a|e]|C m k IH|q k IH]; intros s; simpl; [done|by destruct (exec _ (g e) s) as [[]]| |].
  - destruct (m s) as [r s1]. apply IH.
  - rewrite IH. destruct (exec answer (k (answer q)) s) as [[[a|e] s1] qs]; [done|].
    by destruct (exec answer (g e) s1) as [[]].
Qed.

Lemma exec_atomically {A} answer (m : M S E A) s :
  exec answer (atomically m) s = ((m s).1, (m s).2, []).
Proof. simpl. by destruct (m s). Qed.

Lemma exec_gets {A B} answer (f : S -> A) (g : A -> Prog B) s :
  exec answer (pbind (atomically (gets f)) g) s = exec answer (g (f s)) s.
Proof. done. Qed.

(** A handler without outgoing calls. *)
Fixpoint callfree {A} (p : Prog A) : Prop :=
  match p with
  | Done _ => True
  | Db m k => forall r, callfree (k r)
  | Call _ _ => False
  end.

Lemma callfree_atomically {A} (m : M S E A) : callfree (atomically m).
Proof. done. Qed.

Lemma callfree_bind {A B} (p : Prog A) (f : A -> Prog B) :
  callfree p -> (forall a, callfree (f a)) -> callfree (pbind p f).
Proof. intros Hp Hf. induction p as [[a|e]|C m k IH|q k IH]; simpl in *; auto. Qed.

Lemma callfree_catch {A} (p : Prog A) (g : E -> Prog A) :
  callfree p -> (forall e, callfree (g e)) -> callfree (pcatch p g).
Proof. intros Hp Hg. induction p as [[a|e]|C m k IH|q k IH]; simpl in *; auto. Qed.

Lemma exec_callfree {A} answer (p : Prog A) s : callfree p -> (exec answer p s).2 = [].
Proof.
  revert s. induction p as [r|C m k IH|q k IH]; intros s Hp; simpl in *; [done| |done].
  destruct (m s) as [r s1]. by apply IH.
Qed.

Lemma along_callfree {A} P Φ (p : Prog A) hist :
  callfree p -> (forall r h, hist `prefix_of` h -> Φ r h) -> along P Φ p hist.
Proof.
  revert hist. induction p as [r|C m k IH|q k IH]; simpl; intros hist Hp HΦ; [by apply HΦ| |done].
  intros s. apply IH; [done|]. intros r h Hh. apply HΦ. etrans; [|exact Hh]. by exists [s].
Qed.
End Programs.

Arguments Prog : clear implicits.
Arguments Done {S E Q R A} r.
Arguments Db {S E Q R A B} m k.
Arguments Call {S E Q R A} q k.

#[export] Instance Prog_ret {S E Q R} : MRet (Prog S E Q R) := fun _ a => Done (Ok a).
#[export] Instance Prog_bind {S E Q R} : MBind (Prog S E Q R) := fun _ _ f p => pbind p f.

(** *** Running a handler alone *)

Section Exec.
Context {S E Q R : Type} (answer : Q -> R).
Notation prog := (Prog S E Q R).

Lemma exec_check {A B} (r : result E A) (f : A -> prog B) s :
  exec answer (Done r ≫= f) s =
  match r with Ok a => exec answer (f a) s | Err e => (Err e, s, []) end.
Proof. by destruct r. Qed.

Lemma exec_read {A B} (g : S -> A) (f : A -> prog B) s :
  exec answer (atomically (gets g) ≫= f) s = exec answer (f (g s)) s.
Proof. done. Qed.

Lemma exec_write {A B} (m : M S E A) (f : A -> prog B) s a s1 :
  m s = (Ok a, s1) -> exec answer (atomically m ≫= f) s = exec answer (f a) s1.
Proof. intros Hm. unfold mbind, Prog_bind. simpl. by rewrite Hm. Qed.

Lemma exec_throw {A B} (m : M S E A) (f : A -> prog B) s e s1 :
  m s = (Err e, s1) -> exec answer (atomically m ≫= f) s = (Err e, s1, []).
Proof. intros Hm. unfold mbind, Prog_bind. simpl. by rewrite Hm. Qed.

Lemma exec_then {A B} (p : prog A) (f : A -> prog B) s a s1 :
  exec answer p s = (Ok a, s1, []) -> exec answer (p ≫= f) s = exec answer (f a) s1.
Proof.
  intros Hp. unfold mbind, Prog_bind. rewrite exec_bind, Hp.
  by destruct (exec answer (f a) s1) as [[]].
Qed.

Lemma exec_fails {A B} (p : prog A) (f : A -> prog B) s e s1 :
  exec answer p s = (Err e, s1, []) -> exec answer (p ≫= f) s = (Err e, s1, []).
Proof. intros Hp. unfold mbind, Prog_bind. by rewrite exec_bind, Hp. Qed.

(** The run of a sequence, when the first part makes no calls. *)
Lemma exec_bind_inv {A B} (p : prog A) (f : A -> prog B) s r s' qs :
  callfree p -> exec answer (p ≫= f) s = (r, s', qs) ->
  (exists a s1, exec answer p s = (Ok a, s1, []) /\ exec answer (f a) s1 = (r, s', qs)) \/
  (exists e, exec answer p s = (Err e, s', []) /\ r = Err e /\ qs = []).
Proof.
  intros Hp. unfold mbind, Prog_bind. rewrite exec_bind.
  pose proof (exec_callfree answer p s Hp) as Hq.
  destruct (exec answer p s) as [[[a|e] s1] qs1]; simpl in Hq; subst qs1.
  - destruct (exec answer (f a) s1) as [[r1 s2] qs2] eqn:E1. intros [= <- <- <-].
    left. exists a, s1. done.
  - intros [= <- <- <-]. right. by exists e.
Qed.
End Exec.

(** ** One handler among others *)

Section RelyGuarantee.
Context {S E Q R T : Type} `{EqDecision T}.
(** The invariant, what any statement may do to the state, the claims, and
    what has to hold when a call goes out. *)
Context (Inv : S -> Prop) (evolves : S -> S -> Prop) `{!PreOrder evolves}.
Context (taken : S -> T -> Prop) (token : Q -> T) (permitted : S -> Q -> Prop).
Context (taken_stable : forall s s' t, evolves s s' -> taken s t -> taken s' t).
Context (permitted_stable : forall s s' q, evolves s s' -> permitted s q -> permitted s' q).

Notation prog := (Prog S E Q R).

(** A statement keeps the claim the handler holds, or wins a fresh one. *)
Definition claims (s s' : S) (h h' : option T) : Prop :=
  h' = h \/ h = None /\ exists t, h' = Some t /\ ~ taken s t /\ taken s' t.

Fixpoint safe {A} (Φ : result E A -> option T -> S -> Prop) (h : option T) (p : prog A) (s : S) : Prop :=
  match p with
  | Done r => Φ r h s
  | Db m k => forall s', evolves s s' -> Inv s' ->
      Inv (m s').2 /\ evolves s' (m s').2 /\
      exists h', claims s' (m s').2 h h' /\ safe Φ h' (k (m s').1) (m s').2
  | Call q k => forall s', evolves s s' -> Inv s' ->
      h = Some (token q) /\ permitted s' q /\ forall r, safe Φ None (k r) s'
  end.

Lemma safe_evolves {A} (Φ : result E A -> option T -> S -> Prop) :
  (forall r h s s', evolves s s' -> Φ r h s -> Φ r h s') ->
  forall p h s s', evolves s s' -> safe Φ h p s -> safe Φ h p s'.
Proof using PreOrder0.
  intros HΦ p. destruct p as [r|B m k|q k]; simpl; intros h s s' He Hs.
  - by eapply HΦ.
  - intros s1 He1. apply Hs. by etrans.
  - intros s1 He1. apply Hs. by etrans.
Qed.

Lemma safe_mono {A} (Φ Ψ : result E A -> option T -> S -> Prop) :
  (forall r h s, Φ r h s -> Ψ r h s) ->
  forall p h s, safe Φ h p s -> safe Ψ h p s.
Proof using.
  intros HΦ p. induction p as [r|B m k IH|q k IH]; simpl; intros h s Hs.
  - by apply HΦ.
  - intros s' He HI. destruct (Hs s' He HI) as (? & ? & h' & ? & ?). eauto 8.
  - intros s' He HI. destruct (Hs s' He HI) as (? & ? & ?). eauto.
Qed.

Lemma safe_bind {A B} (p : prog A) (f : A -> prog B) Φ h s :
  safe (fun r h s => match r with
                     | Ok a => safe Φ h (f a) s
                     | Err e => Φ (Err e) h s
                     end) h p s ->
  safe Φ h (p ≫= f) s.
Proof using.
  unfold mbind, Prog_bind. revert h s.
  induction p as [[a|e]|C m k IH|q k IH]; simpl; intros h s Hs; [done|done| |].
  - intros s' He HI. destruct (Hs s' He HI) as (? & ? & h' & ? & ?). eauto 8.
  - intros s' He HI. destruct (Hs s' He HI) as (? & ? & ?). eauto.
Qed.

Lemma safe_catch {A} (p : prog A) (g : E -> prog A) Φ h s :
  safe (fun r h s => match r with
                     | Ok a => Φ (Ok a) h s
                     | Err e => safe Φ h (g e) s
                     end) h p s ->
  safe Φ h (pcatch p g) s.
Proof using.
  revert h s. induction p as [[a|e]|C m k IH|q k IH]; simpl; intros h s Hs; [done|done| |].
  - intros s' He HI. destruct (Hs s' He HI) as (? & ? & h' & ? & ?). eauto 8.
  - intros s' He HI. destruct (Hs s' He HI) as (? & ? & ?). eauto.
Qed.

(** A statement that claims nothing. *)
Definition harmless {A} (m : M S E A) : Prop :=
  forall s, Inv s -> Inv (m s).2 /\ evolves s (m s).2.

Lemma safe_atomically {A} (m : M S E A) Φ h s :
  harmless m ->
  (forall s', evolves s s' -> Inv s' -> Φ (m s').1 h (m s').2) ->
  safe Φ h (atomically m) s.
Proof using.
  intros Hm HΦ s' He HI. destruct (Hm s' HI) as [HI' He']. split_and!; [done..|].
  exists h. split; [by left|]. simpl. by apply HΦ.
Qed.

Lemma harmless_read {A} (m : M S E A) : (forall s, (m s).2 = s) -> harmless m.
Proof using PreOrder0. intros Hm s HI. by rewrite Hm. Qed.

(** A handler that neither claims nor calls. *)
Definition quiet {A} (p : prog A) : Prop :=
  forall h s, safe (fun _ h' s' => h' = h /\ evolves s s') h p s.

Lemma quiet_done {A} (r : result E A) : quiet (Done r).
Proof using PreOrder0. intros h s. simpl. by split. Qed.

Lemma quiet_atomically {A} (m : M S E A) : harmless m -> quiet (atomically m).
Proof using PreOrder0.
  intros Hm h s. apply safe_atomically; [done|]. intros s' He HI. split; [done|].
  destruct (Hm s' HI) as [_ ?]. by etrans.
Qed.

(** After a quiet prefix only the evolution of the state is known. *)
Lemma safe_quiet_bind {A B} (p : prog A) (f : A -> prog B) Φ h s :
  quiet p ->
  (forall a s', evolves s s' -> safe Φ h (f a) s') ->
  (forall e s', evolves s s' -> Φ (Err e) h s') ->
  safe Φ h (p ≫= f) s.
Proof using.
  intros Hp Hok Herr. apply safe_bind. eapply safe_mono; [|apply Hp].
  intros [a|e] h' s' [-> He]; auto.
Qed.

Lemma quiet_bind {A B} (p : prog A) (f : A -> prog B) :
  quiet p -> (forall a, quiet (f a)) -> quiet (p ≫= f).
Proof using PreOrder0.
  intros Hp Hf h s. apply safe_quiet_bind; [done| |done].
  intros a s' He. eapply safe_mono; [|apply (Hf a h s')]. intros r h' s1 [-> ?].
  split; [done|by etrans].
Qed.

Lemma quiet_catch {A} (p : prog A) (g : E -> prog A) :
  quiet p -> (forall e, quiet (g e)) -> quiet (pcatch p g).
Proof using PreOrder0.
  intros Hp Hg h s. apply safe_catch. eapply safe_mono; [|apply Hp].
  intros [a|e] h' s' [-> He]; [done|].
  eapply safe_mono; [|apply (Hg e h s')]. intros r h1 s1 [-> ?]. split; [done|by etrans].
Qed.

(** A read, and what it saw. *)
Lemma safe_gets_bind {A B} (f : S -> A) (g : A -> prog B) Φ h s :
  (forall s', evolves s s' -> Inv s' -> safe Φ h (g (f s')) s') ->
  safe Φ h (atomically (gets f) ≫= g) s.
Proof using PreOrder0.
  intros Hg. apply safe_bind, safe_atomically; [by apply harmless_read|]. intros s' He HI. by apply Hg.
Qed.

(** A check that may throw. *)
Lemma safe_check {A B} (r : result E A) (f : A -> prog B) Φ h s :
  (forall a, r = Ok a -> safe Φ h (f a) s) -> (forall e, Φ (Err e) h s) ->
  safe Φ h (Done r ≫= f) s.
Proof using. intros Hok Herr. destruct r as [a|e]; [by apply Hok|apply Herr]. Qed.

Lemma quiet_check {A B} (r : result E A) (f : A -> prog B) :
  (forall a, r = Ok a -> quiet (f a)) -> quiet (Done r ≫= f).
Proof using PreOrder0. intros Hok h s. apply safe_check; [|by split]. intros a Ha. by apply Hok. Qed.

Lemma quiet_safe {A} (p : prog A) Φ h s :
  quiet p -> (forall r s', evolves s s' -> Φ r h s') -> safe Φ h p s.
Proof using. intros Hp HΦ. eapply safe_mono; [|apply Hp]. intros r h' s' [-> ?]. auto. Qed.

(** ** Any number of handlers *)

Record world := { db : S; calls : list Q; threads : list (prog unit) }.

Context {Op : Type} (handler : Op -> prog unit) (elapse : S -> S -> Prop).

Inductive step : world -> world -> Prop :=
| step_spawn op w :
    step w {| db := db w; calls := calls w; threads := threads w ++ [handler op] |}
| step_db {B} i (m : M S E B) k w :
    threads w !! i = Some (Db m k) ->
    step w {| db := (m (db w)).2; calls := calls w;
              threads := <[i := k (m (db w)).1]> (threads w) |}
| step_call i q k r w :
    threads w !! i = Some (Call q k) ->
    step w {| db := db w; calls := calls w ++ [q]; threads := <[i := k r]> (threads w) |}
| step_crash i p w :
    threads w !! i = Some p ->
    step w {| db := db w; calls := calls w; threads := delete i (threads w) |}
| step_elapse s w :
    elapse (db w) s ->
    step w {| db := s; calls := calls w; threads := threads w |}.

Definition reachable (s0 : S) (w : world) : Prop :=
  rtc step {| db := s0; calls := []; threads := [] |} w.

(** A schedule, to run a given interleaving. *)
Inductive event := Spawn (op : Op) | Statement (i : nat) | Answer (i : nat) (r : R) | Crash (i : nat).

Definition play (e : event) (w : world) : option world :=
  match e with
  | Spawn op => Some {| db := db w; calls := calls w; threads := threads w ++ [handler op] |}
  | Statement i =>
      match threads w !! i with
      | Some (Db m k) => let (r, s) := m (db w) in
          Some {| db := s; calls := calls w; threads := <[i := k r]> (threads w) |}
      | _ => None
      end
  | Answer i r =>
      match threads w !! i with
      | Some (Call q k) =>
          Some {| db := db w; calls := calls w ++ [q]; threads := <[i := k r]> (threads w) |}
      | _ => None
      end
  | Crash i =>
      match threads w !! i with
      | Some _ => Some {| db := db w; calls := calls w; threads := delete i (threads w) |}
      | None => None
      end
  end.

Fixpoint play_all (es : list event) (w : world) : option world :=
  match es with
  | [] => Some w
  | e :: es' => match play e w with Some w' => play_all es' w' | None => None end
  end.

Lemma play_step e w w' : play e w = Some w' -> step w w'.
Proof using.
  destruct e as [op|i|i r|i]; simpl; intros Hp.
  - injection Hp as <-. constructor.
  - destruct (threads w !! i) as [[r|B m k|q k]|] eqn:Hi; try discriminate.
    destruct (m (db w)) as [r s] eqn:Em. injection Hp as <-.
    pose proof (step_db i m k w Hi) as Hs. by rewrite Em in Hs.
  - destruct (threads w !! i) as [[?|B m k|q k]|] eqn:Hi; try discriminate.
    injection Hp as <-. by apply (step_call i q k r w).
  - destruct (threads w !! i) as [p|] eqn:Hi; [|discriminate].
    injection Hp as <-. by apply (step_crash i p w).
Qed.

Lemma play_all_steps es w w' : play_all es w = Some w' -> rtc step w w'.
Proof using.
  revert w. induction es as [|e es IH]; simpl; intros w.
  - intros [= ->]. constructor.
  - destruct (play e w) as [w1|] eqn:E1; [|done]. intros Hes.
    eapply rtc_l; [by apply play_step in E1|by apply IH].
Qed.

Definition calls_for (t : T) (qs : list Q) : nat :=
  length (filter (fun q => token q = t) qs).
Definition holders (t : T) (hs : list (option T)) : nat :=
  length (filter (fun h => h = Some t) hs).

Definition anything {A} : result E A -> option T -> S -> Prop := fun _ _ _ => True.

Record PoolInv (hs : list (option T)) (w : world) : Prop := {
  pool_inv : Inv (db w);
  pool_threads : Forall2 (fun p h => safe anything h p (db w)) (threads w) hs;
  pool_claims : forall t, (calls_for t (calls w) + holders t hs = 0)%nat \/
    (calls_for t (calls w) + holders t hs = 1)%nat /\ taken (db w) t;
  pool_permitted : forall q, q ∈ calls w -> permitted (db w) q }.

Lemma holders_app t hs hs' : holders t (hs ++ hs') = (holders t hs + holders t hs')%nat.
Proof using. unfold holders. by rewrite filter_app, length_app. Qed.

Lemma calls_for_app t qs qs' : calls_for t (qs ++ qs') = (calls_for t qs + calls_for t qs')%nat.
Proof using. unfold calls_for. by rewrite filter_app, length_app. Qed.

Lemma holders_one t h : holders t [h] = if decide (h = Some t) then 1%nat else 0%nat.
Proof using. unfold holders. rewrite filter_cons, filter_nil. by case_decide. Qed.

Lemma calls_for_one t q : calls_for t [q] = if decide (token q = t) then 1%nat else 0%nat.
Proof using. unfold calls_for. rewrite filter_cons, filter_nil. by case_decide. Qed.

Lemma holders_split t hs i h : hs !! i = Some h ->
  holders t hs = (holders t [h] + holders t (delete i hs))%nat.
Proof using.
  intros Hi. unfold holders. rewrite <- length_app, <- filter_app.
  apply Permutation_length. f_equiv. by apply delete_Permutation.
Qed.

Lemma delete_insert_same {X} (l : list X) i x : delete i (<[i := x]> l) = delete i l.
Proof using.
  revert i. induction l as [|y l IH]; intros [|i]; simpl; [done..|]. f_equal. apply IH.
Qed.

Lemma holders_insert t hs i h h' : hs !! i = Some h ->
  holders t (<[i := h']> hs) = (holders t [h'] + holders t (delete i hs))%nat.
Proof using.
  intros Hi. rewrite (holders_split t (<[i:=h']> hs) i h').
  - by rewrite delete_insert_same.
  - apply list_lookup_insert_eq. by eapply lookup_lt_Some.
Qed.

Lemma threads_evolve s s' ts hs :
  evolves s s' ->
  Forall2 (fun (p : prog unit) h => safe anything h p s) ts hs ->
  Forall2 (fun (p : prog unit) h => safe anything h p s') ts hs.
Proof using PreOrder0.
  intros He HT. eapply Forall2_impl; [exact HT|]. intros p h. by apply safe_evolves.
Qed.

Section Soundness.
Hypothesis handlers_safe : forall op s, Inv s -> safe anything None (handler op) s.
Hypothesis time_passes : forall s s', elapse s s' -> Inv s -> Inv s' /\ evolves s s'.

Lemma step_sound hs w w' : step w w' -> PoolInv hs w ->
  evolves (db w) (db w') /\ exists hs', PoolInv hs' w'.
Proof using handlers_safe time_passes PreOrder0 taken_stable permitted_stable.
  intros Hstep [HI HT HC HP]. destruct Hstep as [op w|B i m k w Hi|i q k r w Hi|i p w Hi|s w Hel]; simpl in *.
  - split; [done|]. exists (hs ++ [None]). split; simpl; [done| | |done].
    + apply Forall2_app; [done|]. constructor; [by apply handlers_safe|done].
    + intros t. rewrite holders_app, holders_one, Nat.add_0_r. apply HC.
  - destruct (Forall2_lookup_l _ _ _ _ _ HT Hi) as (h & Hh & Hs).
    destruct (Hs (db w) ltac:(done) HI) as (HI' & He & h' & Hcl & Hs').
    split; [done|]. exists (<[i := h']> hs). split; simpl; [done| | |].
    + apply Forall2_insert; [by eapply threads_evolve|done].
    + intros t. rewrite (holders_insert t hs i h h' Hh). specialize (HC t).
      rewrite (holders_split t hs i h Hh) in HC.
      destruct Hcl as [->|(-> & t' & -> & Hno & Hyes)].
      * destruct HC as [?|[? ?]]; [by left|right; eauto].
      * rewrite !holders_one in *. case_decide; [done|].
        destruct (decide (t' = t)) as [->|Hne]; [|rewrite decide_False by congruence].
        -- rewrite decide_True by done. destruct HC as [HC|[_ ?]]; [|done].
           right. split; [lia|done].
        -- destruct HC as [?|[? ?]]; [left; lia|right; eauto].
    + intros q Hq. eapply permitted_stable; [exact He|by apply HP].
  - destruct (Forall2_lookup_l _ _ _ _ _ HT Hi) as (h & Hh & Hs).
    destruct (Hs (db w) ltac:(done) HI) as (-> & Hperm & Hs').
    split; [done|]. exists (<[i := None]> hs). split; simpl; [done| | |].
    + apply Forall2_insert; [done|apply Hs'].
    + intros t. rewrite (holders_insert t hs i _ None Hh), calls_for_app, holders_one, calls_for_one.
      specialize (HC t). rewrite (holders_split t hs i _ Hh), holders_one in HC.
      rewrite (decide_False (P := None = Some t)) by done.
      destruct (decide (token q = t)) as [<-|Hne].
      * rewrite decide_True in HC by done. destruct HC as [?|[? ?]]; [lia|right; split; [lia|done]].
      * rewrite decide_False in HC by congruence.
        destruct HC as [?|[? ?]]; [left; lia|right; split; [lia|done]].
    + intros q' [Hq'|Hq']%elem_of_app; [by apply HP|]. apply list_elem_of_singleton in Hq' as ->. done.
  - destruct (Forall2_lookup_l _ _ _ _ _ HT Hi) as (h & Hh & _).
    split; [done|]. exists (delete i hs). split; simpl; [done|by apply Forall2_delete| |done].
    intros t. specialize (HC t). rewrite (holders_split t hs i h Hh), holders_one in HC.
    case_decide; destruct HC as [?|[? ?]]; (left; lia) || (right; split; [lia|done]).
  - destruct (time_passes _ _ Hel HI) as [HI' He]. split; [done|].
    exists hs. split; simpl; [done| | |].
    + by eapply threads_evolve.
    + intros t. destruct (HC t) as [?|[? ?]]; [by left|right; eauto].
    + intros q Hq. eapply permitted_stable; [exact He|by apply HP].
Qed.

Lemma pool_reachable s0 w : Inv s0 -> reachable s0 w -> exists hs, PoolInv hs w.
Proof using handlers_safe time_passes PreOrder0 taken_stable permitted_stable.
  intros H0 Hr. unfold reachable in Hr.
  remember {| db := s0; calls := []; threads := [] |} as w0 eqn:Ew0.
  assert (exists hs, PoolInv hs w0) as Hw0.
  { exists []. subst w0. split; simpl; [done|done| |].
    - intros t. by left.
    - intros q Hq. by apply elem_of_nil in Hq. }
  clear Ew0 H0. induction Hr as [w|w1 w2 w3 Hst Hr IH]; [done|].
  apply IH. destruct Hw0 as [hs Hhs]. by destruct (step_sound _ _ _ Hst Hhs) as [_ ?].
Qed.

(** From any point on, the database only evolves. *)
Lemma pool_evolves s0 w w' :
  Inv s0 -> reachable s0 w -> rtc step w w' -> evolves (db w) (db w').
Proof using EqDecision0 handlers_safe time_passes PreOrder0 taken_stable permitted_stable.
  intros H0 Hr. destruct (pool_reachable s0 w H0 Hr) as [hs Hhs]. clear Hr H0. intros Hr.
  revert hs Hhs. induction Hr as [w|w1 w2 w3 Hst Hr IH]; intros hs Hhs; [done|].
  destruct (step_sound _ _ _ Hst Hhs) as [He [hs' Hhs']]. etrans; [exact He|by eapply IH].
Qed.

(** In every interleaving: the invariant holds, every call was permitted,
    and no claim was used for two calls. *)
Lemma pool_sound s0 w :
  Inv s0 -> reachable s0 w ->
  Inv (db w) /\ (forall q, q ∈ calls w -> permitted (db w) q) /\
  (forall t, (calls_for t (calls w) <= 1)%nat) /\
  (forall q, q ∈ calls w -> taken (db w) (token q)).
Proof using handlers_safe time_passes PreOrder0 taken_stable permitted_stable.
  intros H0 Hr. destruct (pool_reachable s0 w H0 Hr) as [hs [HI _ HC HP]].
  split_and!; [done|done| |].
  - intros t. destruct (HC t) as [?|[? _]]; lia.
  - intros q Hq. destruct (HC (token q)) as [Hz|[_ ?]]; [|done].
    assert (q ∈ filter (fun q' => token q' = token q) (calls w)) as Hf
      by (by apply list_elem_of_filter).
    unfold calls_for in Hz. destruct (filter _ (calls w)); [by apply elem_of_nil in Hf|simpl in Hz; lia].
Qed.
End Soundness.
End RelyGuarantee.

(** ** Invariants of statements

    A handler keeps [I] when each of its statements does, whatever ran before
    it, provided [I] held then; what a statement returned may be used for the
    later ones.  No claim is needed for a call. *)

Section StatementInvariants.
Context {S E Q R : Type} (I : S -> Prop).
Notation prog := (Prog S E Q R).

Fixpoint keeps {A} (Φ : result E A -> Prop) (p : prog A) : Prop :=
  match p with
  | Done r => Φ r
  | Db m k => forall s, I s -> I (m s).2 /\ keeps Φ (k (m s).1)
  | Call q k => forall r, keeps Φ (k r)
  end.

Lemma keeps_bind {A B} (p : prog A) (f : A -> prog B) Φ :
  keeps (fun r => match r with Ok a => keeps Φ (f a) | Err e => Φ (Err e) end) p ->
  keeps Φ (p ≫= f).
Proof.
  unfold mbind, Prog_bind. induction p as [[a|e]|C m k IH|q k IH]; cbn [keeps pbind]; [done|done| |].
  - intros H s Hs. destruct (H s Hs) as [? Hk]. split; [done|]. by apply IH.
  - intros H r. by apply IH.
Qed.

Lemma keeps_mono {A} (p : prog A) (Φ Ψ : result E A -> Prop) :
  (forall r, Φ r -> Ψ r) -> keeps Φ p -> keeps Ψ p.
Proof.
  intros HΦ. induction p as [r|C m k IH|q k IH]; cbn [keeps]; [auto| |].
  - intros H s Hs. destruct (H s Hs). auto.
  - intros H r. auto.
Qed.

Lemma keeps_atomically {A} (m : M S E A) Φ :
  (forall s, I s -> I (m s).2 /\ Φ (m s).1) -> keeps Φ (atomically m).
Proof. intros H s Hs. by apply H. Qed.

Lemma keeps_gets {A B} (f : S -> A) (g : A -> prog B) Φ :
  (forall s, I s -> keeps Φ (g (f s))) -> keeps Φ (atomically (gets f) ≫= g).
Proof. intros H. apply keeps_bind, keeps_atomically. intros s Hs. split; [done|]. by apply H. Qed.

Context {Op : Type} (handler : Op -> prog unit) (elapse : S -> S -> Prop).

(** The invariant in every interleaving. *)
Lemma pool_keeps s0 w :
  (forall op, keeps (fun _ => True) (handler op)) ->
  (forall s s', elapse s s' -> I s -> I s') ->
  I s0 -> reachable handler elapse s0 w -> I (db w).
Proof.
  intros Hh He H0 Hr. unfold reachable in Hr.
  remember {| db := s0; calls := []; threads := [] |} as w0 eqn:E0.
  assert (I (db w0) /\ Forall (keeps (fun _ => True)) (threads w0)) as Hw by (subst; split; done).
  clear E0 H0. induction Hr as [w|w1 w2 w3 Hst _ IH]; [by destruct Hw|]. apply IH. clear IH.
  destruct Hw as [HI HT]. destruct Hst as [op w|B i m k w Hi|i q k r w Hi|i p w Hi|s w Hel]; cbn in *.
  - split; [done|]. apply Forall_app_2; [done|]. by repeat constructor.
  - pose proof (proj1 (Forall_lookup _ _) HT i _ Hi) as Hk. destruct (Hk (db w) HI) as [? ?].
    split; [done|]. by apply Forall_insert.
  - pose proof (proj1 (Forall_lookup _ _) HT i _ Hi) as Hk. split; [done|]. apply Forall_insert; [done|]. apply Hk.
  - split; [done|]. by apply Forall_delete.
  - split; [by eapply He|done].
Qed.
End StatementInvariants.

(** *** What a handler asks the outside world, whatever happens to the state *)

Section Asking.
Context {S E Q R : Type} (answer : Q -> R).
Notation prog := (Prog S E Q R).

(** A run to some point, each statement in an arbitrary state, the calls
    answered by [answer]; the list is the calls made. *)
Inductive asked {A} : prog A -> list Q -> Prop :=
| asked_stop p : asked p []
| asked_db {B} (m : M S E B) k s qs : asked (k (m s).1) qs -> asked (Db m k) qs
| asked_call q k qs : asked (k (answer q)) qs -> asked (Call q k) (q :: qs).

Fixpoint asks {A} (P : Q -> Prop) (Φ : result E A -> Prop) (p : prog A) : Prop :=
  match p with
  | Done r => Φ r
  | Db m k => forall s, asks P Φ (k (m s).1)
  | Call q k => P q /\ asks P Φ (k (answer q))
  end.

Lemma asks_bind {A B} P (p : prog A) (f : A -> prog B) Φ :
  asks P (fun r => match r with Ok a => asks P Φ (f a) | Err e => Φ (Err e) end) p ->
  asks P Φ (p ≫= f).
Proof.
  unfold mbind, Prog_bind. induction p as [[a|e]|C m k IH|q k IH]; cbn [asks pbind]; [done|done| |].
  - intros H s. by apply IH.
  - intros [? H]. split; [done|]. by apply IH.
Qed.

Lemma asks_gets {A B} P (f : S -> A) (g : A -> prog B) Φ :
  (forall s, asks P Φ (g (f s))) -> asks P Φ (atomically (gets f) ≫= g).
Proof. intros H. apply asks_bind. intros s. apply H. Qed.

Lemma asks_asked {A} P Φ (p : prog A) qs : asks P Φ p -> asked p qs -> Forall P qs.
Proof.
  intros Hp Hr. induction Hr as [p|B m k s qs _ IH|q k qs _ IH]; [done|apply IH, Hp|].
  destruct Hp. constructor; auto.
Qed.

Lemma exec_asked {A} (p : prog A) s : asked p (exec answer p s).2.
Proof.
  revert s. induction p as [r|B m k IH|q k IH]; intros s; cbn; [constructor| |].
  - destruct (m s) as [r s1] eqn:Em. apply asked_db with (s := s). rewrite Em. apply IH.
  - specialize (IH (answer q) s). destruct (exec answer (k (answer q)) s) as [[r s1] qs]. by constructor.
Qed.
End Asking.

(** ** Rely and guarantee without claims

    Each statement keeps the invariant and lets the state evolve; what a
    handler saw may be used later as far as it survives that evolution.  The
    calls need no claim, but each is permitted in the state it goes out in,
    and stays so. *)

Section Rely.
Context {S E Q R : Type}.
Context (Inv : S -> Prop) (evolves : S -> S -> Prop) `{!PreOrder evolves}.
Context (permitted : S -> Q -> Prop).
Notation prog := (Prog S E Q R).

Fixpoint relies {A} (Φ : result E A -> S -> Prop) (p : prog A) (s : S) : Prop :=
  match p with
  | Done r => Φ r s
  | Db m k => forall s', evolves s s' -> Inv s' ->
      Inv (m s').2 /\ evolves s' (m s').2 /\ relies Φ (k (m s').1) (m s').2
  | Call q k => forall s', evolves s s' -> Inv s' -> permitted s' q /\ forall r, relies Φ (k r) s'
  end.

Lemma relies_evolves {A} (Φ : result E A -> S -> Prop) p s s' :
  (forall r, Φ r s -> Φ r s') -> evolves s s' -> relies Φ p s -> relies Φ p s'.
Proof using PreOrder0.
  intros HΦ He. destruct p as [r|B m k|q k]; cbn; [apply HΦ| |];
    intros Hp s1 H1; apply Hp; by etrans.
Qed.

Lemma relies_mono {A} (Φ Ψ : result E A -> S -> Prop) p s :
  (forall r s', Φ r s' -> Ψ r s') -> relies Φ p s -> relies Ψ p s.
Proof using.
  intros HΦ. revert s. induction p as [r|B m k IH|q k IH]; cbn; intros s Hp; [auto| |].
  - intros s' He HI. destruct (Hp s' He HI) as (? & ? & ?). auto.
  - intros s' He HI. destruct (Hp s' He HI). auto.
Qed.

Lemma relies_bind {A B} (p : prog A) (f : A -> prog B) Φ s :
  relies (fun r s => match r with Ok a => relies Φ (f a) s | Err e => Φ (Err e) s end) p s ->
  relies Φ (p ≫= f) s.
Proof using.
  unfold mbind, Prog_bind. revert s. induction p as [[a|e]|C m k IH|q k IH]; cbn; intros s Hp; [done|done| |].
  - intros s' He HI. destruct (Hp s' He HI) as (? & ? & ?). auto.
  - intros s' He HI. destruct (Hp s' He HI). auto.
Qed.

Lemma relies_gets {A B} (f : S -> A) (g : A -> prog B) Φ s :
  (forall s', evolves s s' -> Inv s' -> relies Φ (g (f s')) s') ->
  relies Φ (atomically (gets f) ≫= g) s.
Proof using PreOrder0. intros H. apply relies_bind. intros s' He HI. split_and!; [done..|]. by apply H. Qed.

Lemma relies_call {B} q (g : R -> prog B) Φ s :
  (forall s', evolves s s' -> Inv s' -> permitted s' q /\ forall r, relies Φ (g r) s') ->
  relies Φ (call q ≫= g) s.
Proof using. done. Qed.

Lemma relies_catch {A} (p : prog A) (h : E -> prog A) Φ s :
  relies (fun r s => match r with Ok a => Φ (Ok a) s | Err e => relies Φ (h e) s end) p s ->
  relies Φ (pcatch p h) s.
Proof using.
  revert s. induction p as [[a|e]|C m k IH|q k IH]; cbn; intros s Hp; [done|done| |].
  - intros s' He HI. destruct (Hp s' He HI) as (? & ? & ?). auto.
  - intros s' He HI. destruct (Hp s' He HI). auto.
Qed.

(** What is known survives a handler. *)
Lemma relies_frame {A} (p : prog A) (Φ : result E A -> S -> Prop) (J : S -> Prop) s :
  (forall s s', evolves s s' -> J s -> J s') -> J s -> relies Φ p s -> relies (fun r s => J s /\ Φ r s) p s.
Proof using.
  intros HJ. revert s. induction p as [r|C m k IH|q k IH]; cbn; intros s Hs Hp; [done| |].
  - intros s' He HI. destruct (Hp s' He HI) as (? & He' & ?). split_and!; [done..|]. apply IH; [|done]. eauto.
  - intros s' He HI. destruct (Hp s' He HI) as [? Hk]. split; [done|]. intros r. apply IH; [|done]. eauto.
Qed.

Context {Op : Type} (handler : Op -> prog unit) (elapse : S -> S -> Prop).
Context (permitted_stable : forall s s' q, evolves s s' -> permitted s q -> permitted s' q).
Context (handlers_rely : forall op s, relies (fun _ _ => True) (handler op) s).
Context (elapse_ok : forall s s', elapse s s' -> Inv s -> Inv s' /\ evolves s s').

Definition relies_all (w : world) : Prop :=
  Inv (db w) /\ Forall (fun p => relies (fun _ _ => True) p (db w)) (threads w) /\
  Forall (permitted (db w)) (calls w).

Lemma relies_all_evolves s s' ts qs :
  evolves s s' -> Forall (fun p => relies (fun _ _ => True) p s) ts -> Forall (permitted s) qs ->
  Forall (fun p : prog unit => relies (fun _ _ => True) p s') ts /\ Forall (permitted s') qs.
Proof using PreOrder0 permitted_stable.
  intros He Ht Hq. split.
  - eapply Forall_impl; [exact Ht|]. intros p. by apply relies_evolves.
  - eapply Forall_impl; [exact Hq|]. intros q. by apply permitted_stable.
Qed.

Lemma relies_step w w' : relies_all w -> step handler elapse w w' -> relies_all w'.
Proof using PreOrder0 permitted_stable handlers_rely elapse_ok.
  intros (HI & HT & HQ) Hst. destruct Hst as [op w|B i m k w Hi|i q k r w Hi|i p w Hi|s w Hel]; unfold relies_all; cbn in *.
  - split_and!; [done| |done]. apply Forall_app_2; [done|]. by repeat constructor.
  - pose proof (proj1 (Forall_lookup _ _) HT i _ Hi) as Hk.
    destruct (Hk (db w) (reflexivity _) HI) as (HI' & He & Hr).
    destruct (relies_all_evolves _ _ _ _ He HT HQ) as [HT' HQ'].
    split_and!; [done| |done]. by apply Forall_insert.
  - pose proof (proj1 (Forall_lookup _ _) HT i _ Hi) as Hk.
    destruct (Hk (db w) (reflexivity _) HI) as [Hp Hr].
    split_and!; [done|apply Forall_insert; [done|apply Hr]|]. apply Forall_app_2; [done|]. by repeat constructor.
  - split_and!; [done|by apply Forall_delete|done].
  - destruct (elapse_ok _ _ Hel HI) as [HI' He].
    destruct (relies_all_evolves _ _ _ _ He HT HQ). by split_and!.
Qed.

(** The invariant, and that every call was permitted, in every interleaving. *)
Lemma relies_sound s0 w :
  Inv s0 -> reachable handler elapse s0 w -> Inv (db w) /\ Forall (permitted (db w)) (calls w).
Proof using PreOrder0 permitted_stable handlers_rely elapse_ok.
  intros H0 Hr. assert (relies_all w) as (? & _ & ?); [|done].
  unfold reachable in Hr. remember {| db := s0; calls := []; threads := [] |} as w0 eqn:E0.
  assert (relies_all w0) as Hw by (subst; by split_and!). clear E0.
  induction Hr as [w|w1 w2 w3 Hst _ IH]; [done|]. apply IH. by eapply relies_step.
Qed.
End Rely.

(** The invariant together with how far the state has come. *)
Lemma relies_from {S E Q R A} (Inv : S -> Prop) (evolves : S -> S -> Prop) `{!PreOrder evolves}
    (permitted : S -> Q -> Prop) (Φ : result E A -> S -> Prop) (p : Prog S E Q R A) s0 s :
  relies Inv evolves permitted Φ p s -> relies (fun s => Inv s /\ evolves s0 s) evolves permitted Φ p s.
Proof.
  revert s. induction p as [r|C m k IH|q k IH]; cbn; intros s Hp; [done| |].
  - intros s' He [HI H0]. destruct (Hp s' He HI) as (H1 & H2 & H3). split_and!; [done|by etrans|done|by apply IH].
  - intros s' He [HI H0]. destruct (Hp s' He HI) as [H1 H2]. split; [done|]. intros r. by apply IH.
Qed.

Lemma relies_reached {S E Q R Op} (Inv : S -> Prop) (evolves : S -> S -> Prop) `{!PreOrder evolves}
    (permitted : S -> Q -> Prop) (handler : Op -> Prog S E Q R unit) (elapse : S -> S -> Prop) s0 w :
  (forall s s' q, evolves s s' -> permitted s q -> permitted s' q) ->
  (forall op s, relies Inv evolves permitted (fun _ _ => True) (handler op) s) ->
  (forall s s', elapse s s' -> Inv s -> Inv s' /\ evolves s s') ->
  Inv s0 -> reachable handler elapse s0 w ->
  Inv (db w) /\ evolves s0 (db w) /\ Forall (permitted (db w)) (calls w).
Proof.
  intros Hp Hh He H0 Hr.
  apply (relies_sound (fun s => Inv s /\ evolves s0 s) evolves permitted handler elapse) in Hr as [[H1 H2] H3]; [done|done| | |done].
  - intros op s. by apply relies_from.
  - intros s s' Hs [HI H]. destruct (He _ _ Hs HI) as [H1 H2]. split_and!; [done|by etrans|done].
Qed.

(** ** A service inside a larger system

    [embed] runs a handler on a part of a larger state, its failures and
    calls renamed. *)

Section Embedding.
Context {S E Q R W E' Q' R' : Type}.
Context (get : W -> S) (put : S -> W -> W) (err : E -> E') (ask : Q -> Q') (reply : R' -> R).

Definition zoom {A} (m : M S E A) : M W E' A := fun w =>
  match m (get w) with
  | (Ok a, s) => (Ok a, put s w)
  | (Err e, s) => (Err (err e), put s w)
  end.

Definition rename {A} (r : result E A) : result E' A :=
  match r with Ok a => Ok a | Err e => Err (err e) end.

Fixpoint embed {A} (p : Prog S E Q R A) : Prog W E' Q' R' A :=
  match p with
  | Done r => Done (rename r)
  | Db m k => Db (fun w => let (r, s) := m (get w) in (Ok r, put s w))
                 (fun r => match r with Ok r => embed (k r) | Err e => Done (Err e) end)
  | Call q k => Call (ask q) (fun r => embed (k (reply r)))
  end.

Lemma zoom_state {A} (m : M S E A) w : (zoom m w).2 = put (m (get w)).2 w.
Proof. unfold zoom. by destruct (m (get w)) as [[a|e] s]. Qed.

Lemma zoom_result {A} (m : M S E A) w : (zoom m w).1 = rename (m (get w)).1.
Proof. unfold zoom. by destruct (m (get w)) as [[a|e] s]. Qed.
End Embedding.

(** ** Statements under a rely, each keeping a guarantee

    [during] is about one handler: [rely] is what others may do between its
    statements, [guar] what each of its own statements does, [may] which
    calls it makes. *)

Section During.
Context {S E Q R : Type} (rely guar : S -> S -> Prop) (may : Q -> Prop).
Notation prog := (Prog S E Q R).

Fixpoint during {A} (Φ : result E A -> S -> Prop) (p : prog A) (s : S) : Prop :=
  match p with
  | Done r => Φ r s
  | Db m k => forall s', rely s s' -> guar s' (m s').2 /\ during Φ (k (m s').1) (m s').2
  | Call q k => may q /\ forall s' r, rely s s' -> during Φ (k r) s'
  end.

Lemma during_mono {A} (Φ Ψ : result E A -> S -> Prop) p s :
  (forall r s', Φ r s' -> Ψ r s') -> during Φ p s -> during Ψ p s.
Proof.
  intros HΦ. revert s. induction p as [r|B m k IH|q k IH]; cbn; intros s Hp; [auto| |].
  - intros s' Hs. destruct (Hp s' Hs). auto.
  - destruct Hp. auto.
Qed.

Lemma during_bind {A B} (p : prog A) (f : A -> prog B) Φ s :
  during (fun r s => match r with Ok a => during Φ (f a) s | Err e => Φ (Err e) s end) p s ->
  during Φ (p ≫= f) s.
Proof.
  unfold mbind, Prog_bind. revert s. induction p as [[a|e]|C m k IH|q k IH]; cbn; intros s Hp; [done|done| |].
  - intros s' Hs. destruct (Hp s' Hs). auto.
  - destruct Hp. auto.
Qed.

Lemma during_catch {A} (p : prog A) (h : E -> prog A) Φ s :
  during (fun r s => match r with Ok a => Φ (Ok a) s | Err e => during Φ (h e) s end) p s ->
  during Φ (pcatch p h) s.
Proof.
  revert s. induction p as [[a|e]|C m k IH|q k IH]; cbn; intros s Hp; [done|done| |].
  - intros s' Hs. destruct (Hp s' Hs). auto.
  - destruct Hp. auto.
Qed.

Lemma during_gets {A B} (f : S -> A) (g : A -> prog B) Φ s :
  (forall s, guar s s) -> (forall s', rely s s' -> during Φ (g (f s')) s') ->
  during Φ (atomically (gets f) ≫= g) s.
Proof. intros Hg H s' Hs. split; [apply Hg|]. by apply H. Qed.

Lemma during_atomically {A} (m : M S E A) Φ s :
  (forall s', rely s s' -> guar s' (m s').2 /\ Φ (m s').1 (m s').2) -> during Φ (atomically m) s.
Proof. intros H s' Hs. by apply H. Qed.
End During.

(** ** What a handler can do at all

    Each statement of the handler, in whatever state it runs, is a [G] step,
    and each call is one of [may]. *)

Section Every.
Context {S E Q R : Type} (G : S -> S -> Prop) (may : Q -> Prop).
Notation prog := (Prog S E Q R).

Fixpoint every {A} (p : prog A) : Prop :=
  match p with
  | Done _ => True
  | Db m k => forall s, G s (m s).2 /\ every (k (m s).1)
  | Call q k => may q /\ forall r, every (k r)
  end.

Lemma every_done {A} (r : result E A) : every (Done r).
Proof. done. Qed.

Lemma every_ret {A} (a : A) : every (mret a).
Proof. done. Qed.

Lemma every_fail {A} (e : E) : every (fail (A := A) e).
Proof. done. Qed.

Lemma every_atomically {A} (m : M S E A) : (forall s, G s (m s).2) -> every (atomically m).
Proof. intros H s. by split. Qed.

Lemma every_gets `{!Reflexive G} {A} (f : S -> A) : every (atomically (gets f)).
Proof. by apply every_atomically. Qed.

Lemma every_call (q : Q) : may q -> every (call q).
Proof. intros H. by split. Qed.

Lemma every_bind {A B} (p : prog A) (f : A -> prog B) :
  every p -> (forall a, every (f a)) -> every (p ≫= f).
Proof.
  intros Hp Hf. unfold mbind, Prog_bind. induction p as [[a|e]|C m k IH|q k IH]; cbn in *; [done|done| |].
  - intros s. destruct (Hp s). auto.
  - destruct Hp. auto.
Qed.

Lemma every_catch {A} (p : prog A) (h : E -> prog A) :
  every p -> (forall e, every (h e)) -> every (pcatch p h).
Proof.
  intros Hp Hh. induction p as [[a|e]|C m k IH|q k IH]; cbn in *; [done|done| |].
  - intros s. destruct (Hp s). auto.
  - destruct Hp. auto.
Qed.

Lemma every_keeps {A} (I : S -> Prop) (p : prog A) :
  (forall s s', G s s' -> I s -> I s') -> every p -> keeps I (fun _ => True) p.
Proof.
  intros HI Hp. induction p as [r|C m k IH|q k IH]; cbn in *; [done| |].
  - intros s Hs. destruct (Hp s). eauto.
  - intros r. destruct Hp as [_ Hp]. apply IH, Hp.
Qed.
End Every.

Lemma every_mono {S E Q R A} (G G' : S -> S -> Prop) (may may' : Q -> Prop) (p : Prog S E Q R A) :
  (forall s s', G s s' -> G' s s') -> (forall q, may q -> may' q) -> every G may p -> every G' may' p.
Proof.
  intros HG Hm Hp. induction p as [r|C m k IH|q k IH]; cbn in *; [done| |].
  - intros s. destruct (Hp s). eauto.
  - destruct Hp. eauto.
Qed.

(** A handler of a part only changes that part. *)
Lemma every_embed {S E Q R W E' Q' R' A} (get : W -> S) (put : S -> W -> W) (err : E -> E') (ask : Q -> Q')
    (reply : R' -> R) (G : W -> W -> Prop) (may : Q' -> Prop) (p : Prog S E Q R A) :
  (forall s w, G w (put s w)) -> (forall q, may (ask q)) -> every G may (embed get put err ask reply p).
Proof.
  intros HG Hm. induction p as [r|C m k IH|q k IH]; cbn [embed every]; [done| |].
  - intros w. destruct (m (get w)) as [r s]. split; [apply HG|apply IH].
  - split; [apply Hm|]. intros r. apply IH.
Qed.

Lemma every_embed_callfree {S E Q R W E' Q' R' A} (get : W -> S) (put : S -> W -> W) (err : E -> E')
    (ask : Q -> Q') (reply : R' -> R) (G : W -> W -> Prop) (may : Q' -> Prop) (p : Prog S E Q R A) :
  (forall s w, G w (put s w)) -> callfree p -> every G may (embed get put err ask reply p).
Proof.
  intros HG. induction p as [r|C m k IH|q k IH]; cbn [embed every callfree]; [done| |done].
  intros Hk w. destruct (m (get w)) as [r s]. split; [apply HG|apply IH, Hk].
Qed.

(** What each statement of a handler does, and nobody else undoes, holds when
    it is finished. *)
Lemma during_every {S E Q R A} (rely G : S -> S -> Prop) (may : Q -> Prop) (J : S -> Prop) (p : Prog S E Q R A) s :
  (forall s s', rely s s' -> J s -> J s') -> (forall s s', G s s' -> J s -> J s') ->
  every G may p -> J s -> during rely G may (fun _ s => J s) p s.
Proof.
  intros Hr HG. revert s. induction p as [r|C m k IH|q k IH]; cbn; intros s Hp Hs; [done| |].
  - intros s' Hs'. destruct (Hp s') as [H1 H2]. split; [done|]. apply IH; [done|]. eauto.
  - destruct Hp as [H1 H2]. split; [done|]. intros s' r Hs'. apply IH; eauto.
Qed.

(** A call is permitted by a fact that survives, whatever a handler does whose
    statements are harmless. *)
Lemma relies_every {S E Q R A} (Inv : S -> Prop) (evolves : S -> S -> Prop) (permitted : S -> Q -> Prop)
    (G : S -> S -> Prop) (may : Q -> Prop) (J : S -> Prop) (p : Prog S E Q R A) s :
  (forall s s', evolves s s' -> J s -> J s') -> (forall s q, Inv s -> J s -> may q -> permitted s q) ->
  (forall s s', G s s' -> Inv s -> Inv s' /\ evolves s s') ->
  every G may p -> J s -> relies Inv evolves permitted (fun _ s => J s) p s.
Proof.
  intros HJ Hm HG. revert s. induction p as [r|B m k IH|q k IH]; cbn; intros s Hp Hs; [done| |].
  - intros s' He HI. destruct (Hp s') as [H1 H2]. destruct (HG _ _ H1 HI). split_and!; [done..|].
    apply IH; [done|]. eauto.
  - destruct Hp as [H1 H2]. intros s' He HI. split; [apply Hm; eauto|]. intros r. apply IH; eauto.
Qed.

(** A handler of a part, seen from the whole. *)
Lemma during_embed {S E Q R W E' Q' R' A} (get : W -> S) (put : S -> W -> W) (err : E -> E') (ask : Q -> Q')
    (reply : R' -> R) (rely G : S -> S -> Prop) (may : Q -> Prop) (rely' G' : W -> W -> Prop) (may' : Q' -> Prop)
    (Φ : result E A -> S -> Prop) (p : Prog S E Q R A) w :
  (forall s w, get (put s w) = s) -> (forall w w', rely' w w' -> rely (get w) (get w')) ->
  (forall s w, G (get w) s -> G' w (put s w)) -> (forall q, may q -> may' (ask q)) ->
  during rely G may Φ p (get w) ->
  during rely' G' may' (fun r w => exists r0, r = rename err r0 /\ Φ r0 (get w)) (embed get put err ask reply p) w.
Proof.
  intros Hget Hr HG Hm. revert w. induction p as [r|C m k IH|q k IH]; cbn [embed during]; intros w Hp.
  - by exists r.
  - intros w' Hw'. destruct (Hp (get w') (Hr _ _ Hw')) as [H1 H2]. destruct (m (get w')) as [r s]; cbn in *.
    split; [by apply HG|]. apply IH. by rewrite Hget.
  - destruct Hp as [H1 H2]. split; [by apply Hm|]. intros w' r Hw'. apply IH, H2. by apply Hr.
Qed.

Create HintDb every.
#[export] Hint Resolve every_done every_ret every_fail every_gets every_bind every_catch : every.
(** ** Coarse schedules

    A handler starts, makes at most [n] steps with the calls answered by one
    function, or is lost; or time passes. *)

Section Schedules.
Context {S E Q R Op : Type} (handler : Op -> Prog S E Q R unit) (elapse : S -> S -> Prop) (answer : Q -> R).
Notation World := (world (S := S) (E := E) (Q := Q) (R := R)).

Inductive Move := Begin (op : Op) | Go (i n : nat) | Lose (i : nat) | Pass (f : S -> S).

Fixpoint go (n i : nat) (w : World) : World :=
  match n with
  | O => w
  | Datatypes.S n =>
      match threads w !! i with
      | Some (Db m k) =>
          let (r, s) := m (db w) in
          go n i {| db := s; calls := calls w; threads := <[i := k r]> (threads w) |}
      | Some (Call q k) =>
          go n i {| db := db w; calls := calls w ++ [q]; threads := <[i := k (answer q)]> (threads w) |}
      | _ => w
      end
  end.

Definition move (w : World) (m : Move) : World :=
  match m with
  | Begin op => {| db := db w; calls := calls w; threads := threads w ++ [handler op] |}
  | Go i n => go n i w
  | Lose i =>
      match threads w !! i with
      | Some _ => {| db := db w; calls := calls w; threads := delete i (threads w) |}
      | None => w
      end
  | Pass f => {| db := f (db w); calls := calls w; threads := threads w |}
  end.
Definition moves_from (ms : list Move) (w : World) : World := fold_left move ms w.
Definition moves (ms : list Move) (s : S) : World := moves_from ms {| db := s; calls := []; threads := [] |}.

Definition lawful (m : Move) : Prop := match m with Pass f => forall s, elapse s (f s) | _ => True end.

Lemma go_steps n i w : rtc (step handler elapse) w (go n i w).
Proof.
  revert w. induction n as [|n IH]; intros w; cbn [go]; [constructor|].
  destruct (threads w !! i) as [[r|B m k|q k]|] eqn:Hi; [constructor| | |constructor].
  - destruct (m (db w)) as [r s] eqn:Em. eapply rtc_l; [|apply IH].
    pose proof (step_db handler elapse i m k w Hi) as Hs. by rewrite Em in Hs.
  - eapply rtc_l; [|apply IH]. by apply step_call.
Qed.

Lemma moves_steps ms w : Forall lawful ms -> rtc (step handler elapse) w (moves_from ms w).
Proof.
  unfold moves_from. revert w. induction ms as [|m ms IH]; intros w Hms; cbn [fold_left]; [constructor|].
  inversion Hms as [|? ? Hm Hms']; subst. etrans; [|by apply IH]. destruct m as [op|i n|i|f]; cbn [move].
  - apply rtc_once. constructor.
  - apply go_steps.
  - destruct (threads w !! i) as [p|] eqn:Hi; [apply rtc_once; by eapply step_crash|constructor].
  - apply rtc_once. constructor. apply Hm.
Qed.

Lemma moves_reachable ms s : Forall lawful ms -> reachable handler elapse s (moves ms s).
Proof. apply moves_steps. Qed.
End Schedules.
End Threads.
