(* ===== verification/ProviderTables.v ===== *)
(** * Tables of the provider platform

    The rows of database/entities that the provider platform, the consent
    service and the data-disposition service share, the database [Db] they
    form, and the failures of those services.  Rows are stored under their
    primary key; the two tables with a unique constraint on the tuple
    (provider, capability, mode) are stored under that tuple.  A time is in
    milliseconds; [clock] is the time [Date.now()] returns. *)

From Stdlib Require Import Ascii.
From stdpp Require Import gmap strings list countable.
From S2P Require Import Prelude PolicyDsl.

Module Tables.

(** ** Enumerations *)

Inductive ProviderCapability := INCOME | ASSET | CREDIT | IDENTITY | DOCUMENT.
Inductive ProviderMode := SIMULATOR | AUTHORIZED_SANDBOX | PRODUCTION_BYOC.
Inductive ProviderEffectClass :=
| READ_ONLY | REUSABLE_LOOKUP | COST_BEARING_ORDER | CONSUMER_IMPACTING | IRREVERSIBLE.
Inductive ProviderOperationIntentStatus :=
| PREPARED | DISPATCHED | SUCCEEDED | FAILED_FINAL | OUTCOME_UNKNOWN | RECONCILING | CANCELLED.
Inductive ProviderAdapterState := ADAPTER_ACTIVE | ADAPTER_DISABLED.
Inductive ProviderCertificationDecision := PASSED | FAILED | CERTIFICATION_REVOKED.
Inductive ProviderApprovalDecision := APPROVED | REJECTED | APPROVAL_REVOKED.
Inductive ProviderActivationState := ACTIVE | DEACTIVATED.
Inductive PermissiblePurposeDecisionStatus := AUTHORIZED | DENIED.
Inductive LegalHoldStatus := HOLD_ACTIVE | HOLD_RELEASED.
Inductive DataDispositionTaskType := RETENTION_REVIEW | DELETION | ANONYMIZATION | LEGAL_HOLD.
Inductive DataDispositionTaskStatus := PENDING | IN_PROGRESS | COMPLETED | VERIFIED.
Inductive DataDispositionResolutionOutcome := DELETED | ANONYMIZED | RETAINED_UNDER_HOLD.

#[export] Instance ProviderCapability_eq : EqDecision ProviderCapability.
Proof. solve_decision. Defined.
#[export] Instance ProviderMode_eq : EqDecision ProviderMode.
Proof. solve_decision. Defined.
#[export] Instance ProviderEffectClass_eq : EqDecision ProviderEffectClass.
Proof. solve_decision. Defined.
#[export] Instance ProviderOperationIntentStatus_eq : EqDecision ProviderOperationIntentStatus.
Proof. solve_decision. Defined.
#[export] Instance ProviderAdapterState_eq : EqDecision ProviderAdapterState.
Proof. solve_decision. Defined.
#[export] Instance ProviderCertificationDecision_eq : EqDecision ProviderCertificationDecision.
Proof. solve_decision. Defined.
#[export] Instance ProviderApprovalDecision_eq : EqDecision ProviderApprovalDecision.
Proof. solve_decision. Defined.
#[export] Instance ProviderActivationState_eq : EqDecision ProviderActivationState.
Proof. solve_decision. Defined.
#[export] Instance PermissiblePurposeDecisionStatus_eq : EqDecision PermissiblePurposeDecisionStatus.
Proof. solve_decision. Defined.
#[export] Instance LegalHoldStatus_eq : EqDecision LegalHoldStatus.
Proof. solve_decision. Defined.
#[export] Instance DataDispositionTaskStatus_eq : EqDecision DataDispositionTaskStatus.
Proof. solve_decision. Defined.

Definition capability_text (c : ProviderCapability) : string :=
  match c with
  | INCOME => "INCOME" | ASSET => "ASSET" | CREDIT => "CREDIT"
  | IDENTITY => "IDENTITY" | DOCUMENT => "DOCUMENT"
  end.

#[export] Instance ProviderCapability_countable : Countable ProviderCapability.
Proof.
  refine (inj_countable' (fun c => match c with
      | INCOME => 0 | ASSET => 1 | CREDIT => 2 | IDENTITY => 3 | DOCUMENT => 4 end%nat)
    (fun n => match n with
      | 0 => INCOME | 1 => ASSET | 2 => CREDIT | 3 => IDENTITY | _ => DOCUMENT end%nat) _).
  by intros [].
Defined.
#[export] Instance ProviderMode_countable : Countable ProviderMode.
Proof.
  refine (inj_countable' (fun c => match c with
      | SIMULATOR => 0 | AUTHORIZED_SANDBOX => 1 | PRODUCTION_BYOC => 2 end%nat)
    (fun n => match n with
      | 0 => SIMULATOR | 1 => AUTHORIZED_SANDBOX | _ => PRODUCTION_BYOC end%nat) _).
  by intros [].
Defined.

(** (providerId, capability, mode) *)
Definition Tuple : Type := string * ProviderCapability * ProviderMode.

(** ** Rows *)

Record ProviderAdapterStatus := {
  ps_id : string; ps_state : ProviderAdapterState;
  ps_reason : option string; ps_updatedBy : string; ps_updatedAt : Z }.

Record ProviderPromotionManifest := {
  mf_id : string; mf_providerId : string; mf_capability : ProviderCapability;
  mf_mode : ProviderMode; mf_version : Z; mf_adapterVersion : string;
  mf_endpointAllowlist : list string; mf_dataClassifications : list string;
  mf_contentHash : string; mf_proposedBy : string; mf_proposedAt : Z;
  mf_validFrom : Z; mf_validUntil : option Z; mf_declaredCommandClass : option string }.

Definition mf_tuple (m : ProviderPromotionManifest) : Tuple :=
  (mf_providerId m, mf_capability m, mf_mode m).

Record ProviderCertificationRecord := {
  ce_id : string; ce_manifestId : string; ce_environment : string; ce_certifiedBy : string;
  ce_decision : ProviderCertificationDecision; ce_evidenceRef : string;
  ce_decidedAt : Z; ce_expiresAt : option Z }.

Record ProviderApprovalRecord := {
  pr_id : string; pr_manifestId : string; pr_approvalRole : string; pr_approvedBy : string;
  pr_decision : ProviderApprovalDecision; pr_decidedAt : Z; pr_expiresAt : option Z }.

Record ProviderActivation := {
  ac_id : string; ac_manifestId : string; ac_manifestVersion : Z;
  ac_state : ProviderActivationState; ac_activatedBy : string; ac_activatedAt : Z }.

Record ConsentRecord := {
  cr_id : string; cr_tenantId : string; cr_caseId : string; cr_purpose : string;
  cr_scope : string; cr_permittedPurposes : list string; cr_permittedDataClasses : list string;
  cr_grantedAt : Z; cr_expiresAt : option Z; cr_revokedAt : option Z;
  cr_revocationReason : option string; cr_createdAt : Z }.

Record PermissiblePurposeDecision := {
  pd_id : string; pd_tenantId : string; pd_caseId : string; pd_borrowerSubjectId : string;
  pd_capability : ProviderCapability; pd_purposeCode : string;
  pd_permittedDataClasses : list string; pd_decision : PermissiblePurposeDecisionStatus;
  pd_basisCode : string; pd_decidedBy : string; pd_syntheticOnly : bool;
  pd_decidedAt : Z; pd_expiresAt : Z; pd_revokedAt : option Z }.

Record ProviderAuthorizationGrant := {
  gr_id : string; gr_tenantId : string; gr_caseId : string; gr_borrowerSubjectId : string;
  gr_providerId : string; gr_capability : ProviderCapability; gr_purposeCode : string;
  gr_permittedDataClasses : list string; gr_permittedFields : option (list string);
  gr_consentRecordIds : list string; gr_permissiblePurposeDecisionId : option string;
  gr_issuedAt : Z; gr_expiresAt : Z; gr_revokedAt : option Z }.

(** The two payload columns hold what the cipher produced. *)
Record ProviderOperationIntent := {
  it_id : string; it_tenantId : string; it_caseId : string; it_providerId : string;
  it_capability : ProviderCapability; it_effectClass : ProviderEffectClass;
  it_requestFingerprint : string; it_idempotencyKey : string; it_logicalOperationKey : string;
  it_authorizationGrantId : string; it_providerReceipt : option Dsl.value;
  it_normalizedFinding : option Dsl.value; it_state : ProviderOperationIntentStatus;
  it_resolvedBy : option string; it_resolutionNote : option string;
  it_createdAt : Z; it_updatedAt : Z }.

(** [update(..., { state, ... })] of one row. *)
Definition it_update (state : ProviderOperationIntentStatus) (grantId : string)
    (receipt finding : option Dsl.value) (resolvedBy note : option string) (now : Z)
    (i : ProviderOperationIntent) : ProviderOperationIntent :=
  {| it_id := it_id i; it_tenantId := it_tenantId i; it_caseId := it_caseId i;
     it_providerId := it_providerId i; it_capability := it_capability i;
     it_effectClass := it_effectClass i; it_requestFingerprint := it_requestFingerprint i;
     it_idempotencyKey := it_idempotencyKey i;
     it_logicalOperationKey := it_logicalOperationKey i; it_authorizationGrantId := grantId;
     it_providerReceipt := receipt; it_normalizedFinding := finding; it_state := state;
     it_resolvedBy := resolvedBy; it_resolutionNote := note;
     it_createdAt := it_createdAt i; it_updatedAt := now |}.

Record EvidenceFact := {
  ev_id : string; ev_tenantId : string; ev_caseId : string; ev_factType : string;
  ev_sourceKind : string; ev_sourceIdentifier : string; ev_value : Dsl.value; ev_observedAt : Z;
  ev_validThrough : option Z; ev_version : Z; ev_createdAt : Z }.

Record LegalHold := {
  lh_id : string; lh_tenantId : string; lh_caseId : string; lh_reason : string;
  lh_ownerId : string; lh_status : LegalHoldStatus; lh_placedAt : Z; lh_releasedAt : option Z;
  lh_releasedBy : option string }.

(** The text of [reason] is left out. *)
Record DataDispositionTask := {
  dt_id : string; dt_tenantId : string; dt_caseId : string;
  dt_taskType : DataDispositionTaskType; dt_status : DataDispositionTaskStatus;
  dt_triggeringConsentRecordId : option string;
  dt_affectedEvidenceFactIds : list string; dt_affectedProviderIntentIds : list string;
  dt_createdAt : Z; dt_resolvedAt : option Z; dt_resolutionOutcome : option DataDispositionResolutionOutcome;
  dt_backupExpiryDueAt : option Z; dt_backupExpiryVerifiedAt : option Z;
  dt_backupVerificationReference : option string; dt_resolvedBy : option string }.

Record AuditEvent := {
  ae_tenantId : string; ae_actorId : string; ae_action : string; ae_resourceId : string }.

(** ** The database *)

Record Db := {
  clock : Z;
  statuses : gmap Tuple ProviderAdapterStatus;
  manifests : gmap string ProviderPromotionManifest;
  certifications : gmap string ProviderCertificationRecord;
  approvals : gmap string ProviderApprovalRecord;
  activations : gmap Tuple ProviderActivation;
  consents : gmap string ConsentRecord;
  decisions : gmap string PermissiblePurposeDecision;
  grants : gmap string ProviderAuthorizationGrant;
  intents : gmap string ProviderOperationIntent;
  evidence : gmap string EvidenceFact;
  holds : gmap string LegalHold;
  tasks : gmap string DataDispositionTask;
  audit_events : list AuditEvent }.

Definition with_clock (x : Z) (db : Db) : Db :=
  {| clock := x; statuses := statuses db; manifests := manifests db;
     certifications := certifications db; approvals := approvals db;
     activations := activations db; consents := consents db; decisions := decisions db;
     grants := grants db; intents := intents db; evidence := evidence db; holds := holds db;
     tasks := tasks db; audit_events := audit_events db |}.
Definition with_statuses (x : gmap Tuple ProviderAdapterStatus) (db : Db) : Db :=
  {| clock := clock db; statuses := x; manifests := manifests db;
     certifications := certifications db; approvals := approvals db;
     activations := activations db; consents := consents db; decisions := decisions db;
     grants := grants db; intents := intents db; evidence := evidence db; holds := holds db;
     tasks := tasks db; audit_events := audit_events db |}.
Definition with_manifests (x : gmap string ProviderPromotionManifest) (db : Db) : Db :=
  {| clock := clock db; statuses := statuses db; manifests := x;
     certifications := certifications db; approvals := approvals db;
     activations := activations db; consents := consents db; decisions := decisions db;
     grants := grants db; intents := intents db; evidence := evidence db; holds := holds db;
     tasks := tasks db; audit_events := audit_events db |}.
Definition with_certifications (x : gmap string ProviderCertificationRecord) (db : Db) : Db :=
  {| clock := clock db; statuses := statuses db; manifests := manifests db; certifications := x;
     approvals := approvals db; activations := activations db; consents := consents db;
     decisions := decisions db; grants := grants db; intents := intents db;
     evidence := evidence db; holds := holds db; tasks := tasks db;
     audit_events := audit_events db |}.
Definition with_approvals (x : gmap string ProviderApprovalRecord) (db : Db) : Db :=
  {| clock := clock db; statuses := statuses db; manifests := manifests db;
     certifications := certifications db; approvals := x; activations := activations db;
     consents := consents db; decisions := decisions db; grants := grants db;
     intents := intents db; evidence := evidence db; holds := holds db; tasks := tasks db;
     audit_events := audit_events db |}.
Definition with_activations (x : gmap Tuple ProviderActivation) (db : Db) : Db :=
  {| clock := clock db; statuses := statuses db; manifests := manifests db;
     certifications := certifications db; approvals := approvals db; activations := x;
     consents := consents db; decisions := decisions db; grants := grants db;
     intents := intents db; evidence := evidence db; holds := holds db; tasks := tasks db;
     audit_events := audit_events db |}.
Definition with_consents (x : gmap string ConsentRecord) (db : Db) : Db :=
  {| clock := clock db; statuses := statuses db; manifests := manifests db;
     certifications := certifications db; approvals := approvals db;
     activations := activations db; consents := x; decisions := decisions db; grants := grants db;
     intents := intents db; evidence := evidence db; holds := holds db; tasks := tasks db;
     audit_events := audit_events db |}.
Definition with_decisions (x : gmap string PermissiblePurposeDecision) (db : Db) : Db :=
  {| clock := clock db; statuses := statuses db; manifests := manifests db;
     certifications := certifications db; approvals := approvals db;
     activations := activations db; consents := consents db; decisions := x; grants := grants db;
     intents := intents db; evidence := evidence db; holds := holds db; tasks := tasks db;
     audit_events := audit_events db |}.
Definition with_grants (x : gmap string ProviderAuthorizationGrant) (db : Db) : Db :=
  {| clock := clock db; statuses := statuses db; manifests := manifests db;
     certifications := certifications db; approvals := approvals db;
     activations := activations db; consents := consents db; decisions := decisions db;
     grants := x; intents := intents db; evidence := evidence db; holds := holds db;
     tasks := tasks db; audit_events := audit_events db |}.
Definition with_intents (x : gmap string ProviderOperationIntent) (db : Db) : Db :=
  {| clock := clock db; statuses := statuses db; manifests := manifests db;
     certifications := certifications db; approvals := approvals db;
     activations := activations db; consents := consents db; decisions := decisions db;
     grants := grants db; intents := x; evidence := evidence db; holds := holds db;
     tasks := tasks db; audit_events := audit_events db |}.
Definition with_evidence (x : gmap string EvidenceFact) (db : Db) : Db :=
  {| clock := clock db; statuses := statuses db; manifests := manifests db;
     certifications := certifications db; approvals := approvals db;
     activations := activations db; consents := consents db; decisions := decisions db;
     grants := grants db; intents := intents db; evidence := x; holds := holds db;
     tasks := tasks db; audit_events := audit_events db |}.
Definition with_holds (x : gmap string LegalHold) (db : Db) : Db :=
  {| clock := clock db; statuses := statuses db; manifests := manifests db;
     certifications := certifications db; approvals := approvals db;
     activations := activations db; consents := consents db; decisions := decisions db;
     grants := grants db; intents := intents db; evidence := evidence db; holds := x;
     tasks := tasks db; audit_events := audit_events db |}.
Definition with_tasks (x : gmap string DataDispositionTask) (db : Db) : Db :=
  {| clock := clock db; statuses := statuses db; manifests := manifests db;
     certifications := certifications db; approvals := approvals db;
     activations := activations db; consents := consents db; decisions := decisions db;
     grants := grants db; intents := intents db; evidence := evidence db; holds := holds db;
     tasks := x; audit_events := audit_events db |}.
Definition with_audit_events (x : list AuditEvent) (db : Db) : Db :=
  {| clock := clock db; statuses := statuses db; manifests := manifests db;
     certifications := certifications db; approvals := approvals db;
     activations := activations db; consents := consents db; decisions := decisions db;
     grants := grants db; intents := intents db; evidence := evidence db; holds := holds db;
     tasks := tasks db; audit_events := x |}.

(** The empty database at time [t]. *)
Definition empty_db (t : Z) : Db :=
  {| clock := t; statuses := ∅; manifests := ∅; certifications := ∅; approvals := ∅;
     activations := ∅; consents := ∅; decisions := ∅; grants := ∅; intents := ∅;
     evidence := ∅; holds := ∅; tasks := ∅; audit_events := [] |}.

(** ** Failures *)

Inductive Failure :=
| EntityNotFound
| UniqueViolation
| TransactionAborted
| BadRequest (message : string)
| NotFound (message : string)
| StructurallyExcluded (commandClass : string)
| AlreadyRegistered
| NoAdapterRegistered
| SyntheticDecisionMisuse
| ProviderDisabled
| ProviderNotActivated
| ProviderConsentScope
| PermissiblePurpose (reason : string)
| ProviderIntentConflict
| ProviderIntentTransition (current : option ProviderOperationIntentStatus)
    (target : ProviderOperationIntentStatus)
| ProviderIntentReplayBlocked (current : ProviderOperationIntentStatus)
| ProviderRevalidation (reason : string)
| ProviderRejection
| ProviderUnavailable (timeout : bool)
| ProviderFindingContract
| SensitiveJsonDecryption.

Definition isUniqueViolation (e : Failure) : bool :=
  match e with UniqueViolation => true | _ => false end.

(** ** Row-level security

    A statement inside [runInTenantContext] sees the rows of one tenant. *)
Definition visible {A} (tenant_of : A -> string) (tenantId : string) (o : option A) : option A :=
  match o with
  | Some a => if String.eqb (tenant_of a) tenantId then Some a else None
  | None => None
  end.

Lemma visible_Some {A} (tenant_of : A -> string) tenantId o a :
  visible tenant_of tenantId o = Some a <-> o = Some a /\ tenant_of a = tenantId.
Proof.
  destruct o as [b|]; simpl; [|naive_solver].
  destruct (String.eqb_spec (tenant_of b) tenantId); naive_solver.
Qed.

(** [Date | null]: passed at [t]?  The services use both comparisons. *)
Definition expired_le (now : Z) (expiresAt : option Z) : bool :=
  match expiresAt with Some t => t <=? now | None => false end.
Definition expired_lt (now : Z) (expiresAt : option Z) : bool :=
  match expiresAt with Some t => t <? now | None => false end.

(** [auditEventService.record(...)]: its failure is swallowed. *)
Definition audit (written : bool) (e : AuditEvent) : M Db Failure unit :=
  if written then modify (fun db => with_audit_events (audit_events db ++ [e]) db) else mret tt.

(** [repo.save(repo.create(...))] of a new row under a generated key. *)
Definition save_new {A} (table : Db -> gmap string A) (write : gmap string A -> Db -> Db)
    (id : string) (row : A) : M Db Failure A :=
  taken ← gets (fun db => table db !! id);
  _ ← guard_throw (bool_decide (is_Some taken)) UniqueViolation;
  _ ← modify (fun db => write (<[id := row]> (table db)) db);
  mret row.

Lemma save_new_Ok {A} table write id (row r : A) db db' :
  save_new table write id row db = (Ok r, db') <->
  table db !! id = None /\ r = row /\ db' = write (<[id := row]> (table db)) db.
Proof.
  unfold save_new, mbind, M_bind, gets, guard_throw, modify, mret, M_ret, throw.
  destruct (table db !! id); simpl; naive_solver.
Qed.

Lemma save_new_Err {A} table write id (row : A) db e db' :
  save_new table write id row db = (Err e, db') -> e = UniqueViolation /\ db' = db.
Proof.
  unfold save_new, mbind, M_bind, gets, guard_throw, modify, mret, M_ret, throw.
  destruct (table db !! id); simpl; naive_solver.
Qed.

(** The newest row: [findOne] with [order: { c: 'DESC' }]. *)
Definition newest {A} (key : A -> Z) (l : list A) : option A :=
  head (order_by (fun a => - key a) l).

Lemma newest_Some {A} (key : A -> Z) l a :
  newest key l = Some a -> a ∈ l /\ forall b, b ∈ l -> key b <= key a.
Proof.
  intros H. apply order_by_head_min in H as [Ha Hmin]. split; [done|].
  intros b Hb. specialize (Hmin b Hb). simpl in Hmin. lia.
Qed.

Lemma newest_None {A} (key : A -> Z) (l : list A) : newest key l = None -> l = [].
Proof.
  unfold newest. intros H. destruct (order_by _ l) as [|b l'] eqn:E; [|done].
  apply Permutation_nil_r. transitivity (order_by (fun a => - key a) l);
    [symmetry; apply order_by_Permutation|by rewrite E].
Qed.

End Tables.
