(* ===== verification/Consent.v ===== *)
(** * Consent, legal holds and data disposition

    consent/consent.service.ts, data-disposition/legal-hold.service.ts and
    data-disposition/data-disposition.service.ts.  Each method is a
    [Threads.Prog]: one [atomically] per statement whose result others can
    influence; the writes of a transaction become visible together, in its
    last step.  Generated keys are arguments. *)

From Stdlib Require Import Ascii.
From stdpp Require Import gmap strings list.
From S2P Require Import Prelude PolicyDsl Concurrency ProviderTables.

Module Consent.
Import Threads Tables.

Section Services.
Context {Q R : Type}.
Notation prog := (Prog Db Failure Q R).

(** ** Consent *)

Definition DEFAULT_PROVIDER_PURPOSE : string := "UNDERWRITING_EVIDENCE".
Definition DEFAULT_PROVIDER_DATA_CLASSES : list string :=
  ["INCOME"; "CREDIT"; "DOCUMENT"; "ASSET"; "IDENTITY"].
Definition DEFAULT_SCOPE : string := String.concat "," DEFAULT_PROVIDER_DATA_CLASSES.

Definition scope_classes (scope : string) : list string :=
  if String.eqb scope DEFAULT_SCOPE then DEFAULT_PROVIDER_DATA_CLASSES
  else List.filter JS.truthy (List.map JS.trim (JS.split_on ","%char scope)).

Definition grantForCase (newId tenantId caseId purpose scope : string) : prog ConsentRecord :=
  atomically (
    now ← gets clock;
    save_new consents with_consents newId
      {| cr_id := newId; cr_tenantId := tenantId; cr_caseId := caseId; cr_purpose := purpose;
         cr_scope := scope; cr_permittedPurposes := [purpose];
         cr_permittedDataClasses := scope_classes scope; cr_grantedAt := now;
         cr_expiresAt := None; cr_revokedAt := None; cr_revocationReason := None;
         cr_createdAt := now |}).

Definition of_case (tenantId caseId : string) (c : ConsentRecord) : bool :=
  String.eqb (cr_tenantId c) tenantId && String.eqb (cr_caseId c) caseId.

Definition mostRecentRecord (tenantId caseId : string) (db : Db) : option ConsentRecord :=
  newest cr_grantedAt (find_rows (of_case tenantId caseId) (consents db)).

Inductive ConsentStatus := VALID | MISSING | EXPIRED | REVOKED.

Definition getStatus (tenantId caseId : string) (db : Db) : ConsentStatus :=
  match mostRecentRecord tenantId caseId db with
  | None => MISSING
  | Some r => if bool_decide (is_Some (cr_revokedAt r)) then REVOKED
              else if expired_le (clock db) (cr_expiresAt r) then EXPIRED else VALID
  end.

Definition activeRecordId (tenantId caseId : string) (db : Db) : option string :=
  cr_id <$> mostRecentRecord tenantId caseId db.

(** Granted and unrevoked at this moment. *)
Definition live (now : Z) (c : ConsentRecord) : bool :=
  bool_decide (cr_revokedAt c = None) && negb (expired_le now (cr_expiresAt c)).

Definition covers (purpose : string) (dataClasses : list string) (c : ConsentRecord) : bool :=
  includes (cr_permittedPurposes c) purpose &&
  all_included dataClasses (cr_permittedDataClasses c).

Definition activeRecordForPurpose (tenantId caseId purpose : string) (dataClasses : list string)
    (db : Db) : option ConsentRecord :=
  match mostRecentRecord tenantId caseId db with
  | None => None
  | Some r => if live (clock db) r && covers purpose dataClasses r then Some r else None
  end.

(** Without tenant scoping, as in [runWithRlsBypass]. *)
Definition isRecordValid (recordId : string)
    (expected : option (string * string * string * list string)) (db : Db) : bool :=
  match consents db !! recordId with
  | None => false
  | Some r =>
      live (clock db) r &&
      match expected with
      | None => true
      | Some (tenantId, caseId, purpose, dataClasses) =>
          of_case tenantId caseId r && covers purpose dataClasses r
      end
  end.

(** ** Opening a review *)

Definition affected_evidence (tenantId caseId : string) (db : Db) : list string :=
  ev_id <$> find_rows (fun e => String.eqb (ev_tenantId e) tenantId &&
                                String.eqb (ev_caseId e) caseId) (evidence db).

Definition affected_intents (tenantId caseId : string) (db : Db) : list string :=
  it_id <$> find_rows (fun i => String.eqb (it_tenantId i) tenantId &&
                                String.eqb (it_caseId i) caseId) (intents db).

(** The row [openRetentionReviewForRevokedConsent] inserts. *)
Definition retention_review (newId tenantId caseId consentRecordId : string)
    (evidenceIds intentIds : list string) (now : Z) : DataDispositionTask :=
  {| dt_id := newId; dt_tenantId := tenantId; dt_caseId := caseId;
     dt_taskType := RETENTION_REVIEW; dt_status := PENDING;
     dt_triggeringConsentRecordId := Some consentRecordId;
     dt_affectedEvidenceFactIds := evidenceIds; dt_affectedProviderIntentIds := intentIds;
     dt_createdAt := now; dt_resolvedAt := None; dt_resolutionOutcome := None; dt_backupExpiryDueAt := None;
     dt_backupExpiryVerifiedAt := None; dt_backupVerificationReference := None;
     dt_resolvedBy := None |}.

Definition cr_revoked (now : Z) (reason : option string) (c : ConsentRecord) : ConsentRecord :=
  {| cr_id := cr_id c; cr_tenantId := cr_tenantId c; cr_caseId := cr_caseId c;
     cr_purpose := cr_purpose c; cr_scope := cr_scope c;
     cr_permittedPurposes := cr_permittedPurposes c;
     cr_permittedDataClasses := cr_permittedDataClasses c; cr_grantedAt := cr_grantedAt c;
     cr_expiresAt := cr_expiresAt c; cr_revokedAt := Some now; cr_revocationReason := reason;
     cr_createdAt := cr_createdAt c |}.

(** The writes of [revoke], which commit together. *)
Definition revoke_commit (newTaskId tenantId caseId : string) (reason : option string)
    (activeId : string) (evidenceIds intentIds : list string) : M Db Failure ConsentRecord :=
  transaction (
    now ← gets clock;
    _ ← modify (fun db => with_consents (alter (cr_revoked now reason) activeId (consents db)) db);
    _ ← save_new tasks with_tasks newTaskId
          (retention_review newTaskId tenantId caseId activeId evidenceIds intentIds now);
    c ← gets (fun db => consents db !! activeId);
    or_throw c EntityNotFound).

Definition revoke (newTaskId tenantId caseId : string) (reason : option string) : prog ConsentRecord :=
  active ← atomically (gets (fun db => newest cr_grantedAt (find_rows (fun c =>
    of_case tenantId caseId c && bool_decide (cr_revokedAt c = None)) (consents db))));
  match active with
  | None => fail (NotFound "No active consent record")
  | Some active =>
      evidenceIds ← atomically (gets (affected_evidence tenantId caseId));
      intentIds ← atomically (gets (affected_intents tenantId caseId));
      atomically (revoke_commit newTaskId tenantId caseId reason (cr_id active) evidenceIds intentIds)
  end.

(** ** Legal holds *)

Definition active_hold (tenantId caseId : string) (h : LegalHold) : bool :=
  String.eqb (lh_tenantId h) tenantId && String.eqb (lh_caseId h) caseId &&
  bool_decide (lh_status h = HOLD_ACTIVE).

Definition hasActiveHold (tenantId caseId : string) (db : Db) : bool :=
  bool_decide (is_Some (find_row (active_hold tenantId caseId) (holds db))).

Definition place (audited : bool) (newId tenantId caseId reason ownerId : string) : prog LegalHold :=
  existing ← atomically (gets (hasActiveHold tenantId caseId));
  if existing : bool then fail (BadRequest "already has an active legal hold") else
  hold ← atomically (
    now ← gets clock;
    save_new holds with_holds newId
    {| lh_id := newId; lh_tenantId := tenantId; lh_caseId := caseId; lh_reason := reason;
       lh_ownerId := ownerId; lh_status := HOLD_ACTIVE; lh_placedAt := now; lh_releasedAt := None;
       lh_releasedBy := None |});
  _ ← atomically (audit audited {| ae_tenantId := tenantId; ae_actorId := ownerId;
        ae_action := "LEGAL_HOLD_PLACED"; ae_resourceId := newId |});
  mret hold.

Definition lh_release (now : Z) (by_ : string) (h : LegalHold) : LegalHold :=
  {| lh_id := lh_id h; lh_tenantId := lh_tenantId h; lh_caseId := lh_caseId h;
     lh_reason := lh_reason h; lh_ownerId := lh_ownerId h; lh_status := HOLD_RELEASED;
     lh_placedAt := lh_placedAt h;
     lh_releasedAt := Some now; lh_releasedBy := Some by_ |}.

Definition releaseHold (audited : bool) (tenantId legalHoldId releasedBy : string) : prog LegalHold :=
  existing ← atomically (gets (fun db => visible lh_tenantId tenantId (holds db !! legalHoldId)));
  match existing with
  | None => fail (BadRequest "legal hold not found")
  | Some h =>
      if bool_decide (lh_status h = HOLD_RELEASED) then fail (BadRequest "is already released") else
      hold ← atomically (
        now ← gets clock;
        _ ← modify (fun db => with_holds (alter (lh_release now releasedBy) legalHoldId (holds db)) db);
        h ← gets (fun db => holds db !! legalHoldId);
        or_throw h EntityNotFound);
      _ ← atomically (audit audited {| ae_tenantId := tenantId; ae_actorId := releasedBy;
            ae_action := "LEGAL_HOLD_RELEASED"; ae_resourceId := legalHoldId |});
      mret hold
  end.

(** ** Resolving a review *)

Inductive DataDispositionResolutionAction := DELETE | ANONYMIZE | RETAIN.
#[export] Instance action_eq : EqDecision DataDispositionResolutionAction.
Proof using. solve_decision. Defined.

Definition find_task (tenantId taskId : string) (db : Db) : option DataDispositionTask :=
  visible dt_tenantId tenantId (tasks db !! taskId).

(** The snapshotted intents that still exist, locked. *)
Definition locked_intents (tenantId : string) (ids : list string) (db : Db)
  : list ProviderOperationIntent :=
  find_rows (fun i => String.eqb (it_tenantId i) tenantId && includes ids (it_id i)) (intents db).

Definition unsettled (i : ProviderOperationIntent) : bool :=
  bool_decide (it_state i = DISPATCHED) || bool_decide (it_state i = OUTCOME_UNKNOWN) ||
  bool_decide (it_state i = RECONCILING).

(** Cancels what was never dispatched, then drops both payloads. *)
Definition cancel_prepared (now : Z) (actorId : string) (i : ProviderOperationIntent)
  : ProviderOperationIntent :=
  if bool_decide (it_state i = PREPARED) then
    it_update CANCELLED (it_authorizationGrantId i) (it_providerReceipt i) (it_normalizedFinding i)
      (Some actorId)
      (Some "Cancelled before dispatch during consent-revocation data disposition.") now i
  else i.

Definition drop_payload (now : Z) (i : ProviderOperationIntent) : ProviderOperationIntent :=
  it_update (it_state i) (it_authorizationGrantId i) None None (it_resolvedBy i)
    (it_resolutionNote i) now i.

Definition dispose_intent (now : Z) (tenantId actorId : string) (ids : list string)
    (i : ProviderOperationIntent) : ProviderOperationIntent :=
  if String.eqb (it_tenantId i) tenantId && includes ids (it_id i)
  then drop_payload now (cancel_prepared now actorId i) else i.

Definition ev_anonymized (e : EvidenceFact) : EvidenceFact :=
  {| ev_id := ev_id e; ev_tenantId := ev_tenantId e; ev_caseId := ev_caseId e;
     ev_factType := ev_factType e; ev_sourceKind := ev_sourceKind e;
     ev_sourceIdentifier := ev_sourceIdentifier e; ev_value := Dsl.VObject [];
     ev_observedAt := ev_observedAt e; ev_validThrough := ev_validThrough e;
     ev_version := ev_version e; ev_createdAt := ev_createdAt e |}.

Definition dispose_evidence (action : DataDispositionResolutionAction) (tenantId : string)
    (ids : list string) (es : gmap string EvidenceFact) : gmap string EvidenceFact :=
  let hit (e : EvidenceFact) := String.eqb (ev_tenantId e) tenantId && includes ids (ev_id e) in
  match action with
  | DELETE => filter (fun '(_, e) => hit e = false) es
  | ANONYMIZE => (fun e => if hit e then ev_anonymized e else e) <$> es
  | RETAIN => es
  end.

Definition outcome_of (action : DataDispositionResolutionAction) : DataDispositionResolutionOutcome :=
  match action with
  | DELETE => DELETED | ANONYMIZE => ANONYMIZED | RETAIN => RETAINED_UNDER_HOLD
  end.

Definition dt_resolve (now : Z) (st : DataDispositionTaskStatus)
    (o : DataDispositionResolutionOutcome) (by_ : string) (due : option Z)
    (t : DataDispositionTask) : DataDispositionTask :=
  {| dt_id := dt_id t; dt_tenantId := dt_tenantId t; dt_caseId := dt_caseId t;
     dt_taskType := dt_taskType t; dt_status := st;
     dt_triggeringConsentRecordId := dt_triggeringConsentRecordId t;
     dt_affectedEvidenceFactIds := dt_affectedEvidenceFactIds t;
     dt_affectedProviderIntentIds := dt_affectedProviderIntentIds t;
     dt_createdAt := dt_createdAt t; dt_resolvedAt := Some now; dt_resolutionOutcome := Some o; dt_backupExpiryDueAt := due;
     dt_backupExpiryVerifiedAt := dt_backupExpiryVerifiedAt t;
     dt_backupVerificationReference := dt_backupVerificationReference t;
     dt_resolvedBy := Some by_ |}.

(** [process.env.BACKUP_RETENTION_HOURS ?? '24'] *)
Context (retentionHours : Z).

Definition resolve_commit (tenantId actorId : string) (action : DataDispositionResolutionAction)
    (task : DataDispositionTask) : M Db Failure DataDispositionTask :=
  transaction (
    now ← gets clock;
    locked ← gets (locked_intents tenantId (dt_affectedProviderIntentIds task));
    _ ← guard_throw (negb (bool_decide (action = RETAIN)) && existsb unsettled locked)
          (BadRequest "provider operation(s) still require outcome reconciliation");
    _ ← (if bool_decide (action = RETAIN) then mret tt else
         modify (fun db =>
           with_intents (dispose_intent now tenantId actorId (dt_affectedProviderIntentIds task)
                           <$> intents db)
             (with_evidence (dispose_evidence action tenantId (dt_affectedEvidenceFactIds task)
                               (evidence db)) db)));
    _ ← modify (fun db => with_tasks (alter
          (dt_resolve now
             (if bool_decide (action = RETAIN) then VERIFIED else COMPLETED)
             (outcome_of action) actorId
             (if bool_decide (action = RETAIN) then None
              else Some (now + retentionHours * 60 * 60 * 1000)))
          (dt_id task) (tasks db)) db);
    t ← gets (fun db => tasks db !! dt_id task);
    or_throw t EntityNotFound).

Definition resolve (audited : bool) (tenantId taskId : string)
    (action : DataDispositionResolutionAction) (actorId : string) : prog DataDispositionTask :=
  task ← atomically (gets (find_task tenantId taskId));
  match task with
  | None => fail (BadRequest "data disposition task not found")
  | Some task =>
      if negb (bool_decide (dt_status task = PENDING)) then fail (BadRequest "is already resolved") else
      hasHold ← atomically (gets (hasActiveHold tenantId (dt_caseId task)));
      if bool_decide (action = RETAIN) && negb hasHold
      then fail (BadRequest "cannot RETAIN: no active legal hold") else
      if negb (bool_decide (action = RETAIN)) && hasHold
      then fail (BadRequest "has an active legal hold") else
      resolved ← atomically (resolve_commit tenantId actorId action task);
      _ ← atomically (audit audited {| ae_tenantId := tenantId; ae_actorId := actorId;
            ae_action := "DATA_DISPOSITION_TASK_RESOLVED"; ae_resourceId := taskId |});
      mret resolved
  end.

Definition dt_verify (now : Z) (reference : string) (t : DataDispositionTask) : DataDispositionTask :=
  {| dt_id := dt_id t; dt_tenantId := dt_tenantId t; dt_caseId := dt_caseId t;
     dt_taskType := dt_taskType t; dt_status := VERIFIED;
     dt_triggeringConsentRecordId := dt_triggeringConsentRecordId t;
     dt_affectedEvidenceFactIds := dt_affectedEvidenceFactIds t;
     dt_affectedProviderIntentIds := dt_affectedProviderIntentIds t;
     dt_createdAt := dt_createdAt t; dt_resolvedAt := dt_resolvedAt t; dt_resolutionOutcome := dt_resolutionOutcome t;
     dt_backupExpiryDueAt := dt_backupExpiryDueAt t; dt_backupExpiryVerifiedAt := Some now;
     dt_backupVerificationReference := Some reference; dt_resolvedBy := dt_resolvedBy t |}.

Definition verifyBackupExpiry (audited : bool) (tenantId taskId actorId reference : string) (now : Z)
  : prog DataDispositionTask :=
  if negb (JS.nonblank reference) then fail (BadRequest "backup verification reference is required") else
  task ← atomically (gets (find_task tenantId taskId));
  match task with
  | None => fail (BadRequest "is not awaiting backup expiry")
  | Some task =>
      if negb (bool_decide (dt_status task = COMPLETED))
      then fail (BadRequest "is not awaiting backup expiry") else
      if match dt_backupExpiryDueAt task with Some due => now <? due | None => true end
      then fail (BadRequest "backup retention window has not expired") else
      hasHold ← atomically (gets (hasActiveHold tenantId (dt_caseId task)));
      if hasHold : bool then fail (BadRequest "cannot verify while a legal hold is active") else
      verified ← atomically (
        _ ← modify (fun db => with_tasks (alter
              (fun t => if bool_decide (dt_status t = COMPLETED) then dt_verify now reference t else t)
              taskId (tasks db)) db);
        t ← gets (fun db => tasks db !! taskId);
        or_throw t EntityNotFound);
      _ ← atomically (audit audited {| ae_tenantId := tenantId; ae_actorId := actorId;
            ae_action := "DATA_DISPOSITION_BACKUP_EXPIRY_VERIFIED"; ae_resourceId := taskId |});
      mret verified
  end.
End Services.
End Consent.
