(* ===== verification/ConsentTheorems.v ===== *)
(** * Revocation and disposition, undisturbed

    What one call of the consent and data-disposition services does when no
    other request interferes: revoking consent stops dispatch and opens a
    review that lists everything collected; resolving the review removes
    exactly that, or is refused. *)

From Stdlib Require Import Ascii.
From stdpp Require Import gmap strings list.
From S2P Require Import Prelude PolicyDsl Concurrency ProviderTables Consent.

Module ConsentTheorems.
Import Threads Tables Consent.

(** Rows are stored under their own primary key. *)
Record keyed (db : Db) : Prop := {
  key_consent : forall k c, consents db !! k = Some c -> cr_id c = k;
  key_evidence : forall k e, evidence db !! k = Some e -> ev_id e = k;
  key_intent : forall k i, intents db !! k = Some i -> it_id i = k;
  key_task : forall k t, tasks db !! k = Some t -> dt_id t = k }.

Section Sequential.
Context {Q R : Type} (answer : Q -> R).

Lemma elem_affected_evidence db t c k :
  keyed db -> k ∈ affected_evidence t c db <->
  exists e, evidence db !! k = Some e /\ ev_tenantId e = t /\ ev_caseId e = c.
Proof using.
  intros HK. unfold affected_evidence. rewrite list_elem_of_fmap. split.
  - intros (e & -> & He). apply elem_find_rows in He as [Hp [k' Hk]]. bsplit.
    exists e. by rewrite (key_evidence _ HK _ _ Hk).
  - intros (e & Hk & <- & <-). exists e. split; [by rewrite (key_evidence _ HK _ _ Hk)|].
    apply elem_find_rows. rewrite !String.eqb_refl. eauto.
Qed.

Lemma elem_affected_intents db t c k :
  keyed db -> k ∈ affected_intents t c db <->
  exists i, intents db !! k = Some i /\ it_tenantId i = t /\ it_caseId i = c.
Proof using.
  intros HK. unfold affected_intents. rewrite list_elem_of_fmap. split.
  - intros (e & -> & He). apply elem_find_rows in He as [Hp [k' Hk]]. bsplit.
    exists e. by rewrite (key_intent _ HK _ _ Hk).
  - intros (e & Hk & <- & <-). exists e. split; [by rewrite (key_intent _ HK _ _ Hk)|].
    apply elem_find_rows. rewrite !String.eqb_refl. eauto.
Qed.

(** No two consents of the case were granted in the same millisecond. *)
Definition distinct_grants (db : Db) (t c : string) : Prop :=
  forall k k' r r', consents db !! k = Some r -> consents db !! k' = Some r' ->
    of_case t c r = true -> of_case t c r' = true -> cr_grantedAt r = cr_grantedAt r' -> k = k'.

Definition unrevoked (t c : string) (r : ConsentRecord) : bool :=
  of_case t c r && bool_decide (cr_revokedAt r = None).

(** Once the newest unrevoked record is revoked, the newest record of the
    case is a revoked one. *)
Lemma newest_is_revoked db t c k r now reason :
  keyed db -> distinct_grants db t c -> consents db !! k = Some r ->
  newest cr_grantedAt (find_rows (unrevoked t c) (consents db)) = Some r ->
  exists r', mostRecentRecord t c
    (with_consents (alter (cr_revoked now reason) k (consents db)) db) = Some r' /\
    is_Some (cr_revokedAt r').
Proof using.
  intros HK Hd Hk Hn. apply newest_Some in Hn as [Hr Hmax].
  apply elem_find_rows in Hr as [Hu _]. unfold unrevoked in Hu. bsplit.
  unfold mostRecentRecord. set (m := alter (cr_revoked now reason) k (consents db)).
  assert (m !! k = Some (cr_revoked now reason r)) as Hmk by (unfold m; by rewrite lookup_alter_eq, Hk).
  destruct (newest cr_grantedAt (find_rows (of_case t c) m)) as [r'|] eqn:Hn'.
  2: { apply newest_None in Hn'. exfalso.
       assert (cr_revoked now reason r ∈ find_rows (of_case t c) m) as Hin
         by (apply elem_find_rows; eauto). rewrite Hn' in Hin. by apply elem_of_nil in Hin. }
  exists r'. split; [done|]. apply newest_Some in Hn' as [Hin Hmax'].
  apply elem_find_rows in Hin as [Hc' [k' Hk']].
  destruct (decide (k' = k)) as [->|Hne]; [rewrite Hmk in Hk'; simplify_eq; simpl; eauto|].
  unfold m in Hk'. rewrite lookup_alter_ne in Hk' by done.
  destruct (cr_revokedAt r') as [x|] eqn:Hrev; [eauto|]. exfalso. apply Hne.
  apply (Hd k' k r' r); [done..|]. apply Z.le_antisymm.
  - apply Hmax. apply elem_find_rows. split; [|eauto]. unfold unrevoked. by rewrite Hc', Hrev.
  - apply (Hmax' (cr_revoked now reason r)). apply elem_find_rows. split; [done|]. exists k. done.
Qed.


(** When a pending task may be resolved this way. *)
Definition resolvable (db : Db) (t : string) (task : DataDispositionTask)
    (action : DataDispositionResolutionAction) : Prop :=
  match action with
  | RETAIN => hasActiveHold t (dt_caseId task) db = true
  | _ => hasActiveHold t (dt_caseId task) db = false /\
      forall k i, intents db !! k = Some i -> it_tenantId i = t ->
        k ∈ dt_affectedProviderIntentIds task -> unsettled i = false
  end.

(** What is left of the task's evidence and provider results. *)
Record disposed (db db' : Db) (t : string) (task : DataDispositionTask)
    (action : DataDispositionResolutionAction) : Prop := {
  di_evidence : forall k e, evidence db' !! k = Some e -> ev_tenantId e = t ->
    k ∈ dt_affectedEvidenceFactIds task ->
    match action with DELETE => False | ANONYMIZE => ev_value e = Dsl.VObject [] | RETAIN => True end;
  di_intent : forall k i, intents db' !! k = Some i -> it_tenantId i = t ->
    k ∈ dt_affectedProviderIntentIds task -> action <> RETAIN ->
    it_providerReceipt i = None /\ it_normalizedFinding i = None /\
    (it_state i = SUCCEEDED \/ it_state i = FAILED_FINAL \/ it_state i = CANCELLED);
  di_frame_evidence : forall k, action = RETAIN \/ k ∉ dt_affectedEvidenceFactIds task ->
    evidence db' !! k = evidence db !! k;
  di_frame_intent : forall k, action = RETAIN \/ k ∉ dt_affectedProviderIntentIds task ->
    intents db' !! k = intents db !! k }.

Definition after_disposal (hours : Z) (t actor : string) (action : DataDispositionResolutionAction)
    (task : DataDispositionTask) (db : Db) : Db :=
  let db1 := if bool_decide (action = RETAIN) then db else
    with_intents (dispose_intent (clock db) t actor (dt_affectedProviderIntentIds task) <$> intents db)
      (with_evidence (dispose_evidence action t (dt_affectedEvidenceFactIds task) (evidence db)) db) in
  with_tasks (alter (dt_resolve (clock db) (if bool_decide (action = RETAIN) then VERIFIED else COMPLETED)
    (outcome_of action) actor
    (if bool_decide (action = RETAIN) then None else Some (clock db + hours * 60 * 60 * 1000)))
    (dt_id task) (tasks db)) db1.

Lemma existsb_unsettled db t task :
  keyed db ->
  existsb unsettled (locked_intents t (dt_affectedProviderIntentIds task) db) = false <->
  (forall k i, intents db !! k = Some i -> it_tenantId i = t ->
     k ∈ dt_affectedProviderIntentIds task -> unsettled i = false).
Proof using.
  intros HK. split.
  - intros He k i Hk Ht Hin. destruct (unsettled i) eqn:Hu; [|done].
    assert (existsb unsettled (locked_intents t (dt_affectedProviderIntentIds task) db) = true) as Hx; [|congruence].
    apply existsb_exists. exists i. split; [|done]. apply list_elem_of_In, elem_find_rows.
    split; [|eauto]. rewrite Ht, String.eqb_refl. simpl. apply includes_spec.
    by rewrite (key_intent _ HK _ _ Hk).
  - intros Hall. destruct (existsb _ _) eqn:Hx; [|done].
    apply existsb_exists in Hx as (i & Hin & Hu). apply list_elem_of_In, elem_find_rows in Hin as [Hp [k Hk]].
    bsplit. apply includes_spec in Hp. rewrite (key_intent _ HK _ _ Hk) in Hp.
    by rewrite (Hall k i Hk) in Hu.
Qed.

Lemma dispose_intent_clean now t actor ids i :
  it_tenantId (dispose_intent now t actor ids i) = t -> includes ids (it_id i) = true ->
  unsettled i = false ->
  it_providerReceipt (dispose_intent now t actor ids i) = None /\
  it_normalizedFinding (dispose_intent now t actor ids i) = None /\
  (it_state (dispose_intent now t actor ids i) = SUCCEEDED \/
   it_state (dispose_intent now t actor ids i) = FAILED_FINAL \/
   it_state (dispose_intent now t actor ids i) = CANCELLED).
Proof using.
  unfold dispose_intent. destruct (String.eqb_spec (it_tenantId i) t) as [Heq|Hne]; [|done].
  intros _ ->. simpl. intros Hu. split_and!; [done|done|]. unfold cancel_prepared, unsettled in *.
  destruct (it_state i) eqn:Hst; simpl in *; try done; rewrite ?Hst; auto.
Qed.

Lemma after_disposal_disposed hours t actor action task db :
  keyed db -> resolvable db t task action ->
  disposed db (after_disposal hours t actor action task db) t task action.
Proof using.
  intros HK Hr. unfold after_disposal. split; simpl.
  - intros k e Hk Ht Hin. destruct action; simpl in Hk; [| |done].
    + apply map_lookup_filter_Some in Hk as [Hk Hf].
      rewrite Ht, String.eqb_refl, (key_evidence _ HK _ _ Hk) in Hf. simpl in Hf.
      by rewrite (proj2 (includes_spec _ _) Hin) in Hf.
    + apply lookup_fmap_Some in Hk as (e0 & <- & Hk). rewrite (key_evidence _ HK _ _ Hk) in Ht |- *.
      destruct (String.eqb_spec (ev_tenantId e0) t) as [Heq|Hne]; simpl in *.
      * by rewrite (proj2 (includes_spec _ _) Hin).
      * done.
  - intros k i Hk Ht Hin Hne. rewrite bool_decide_eq_false_2 in Hk by done. simpl in Hk.
    apply lookup_fmap_Some in Hk as (i0 & <- & Hk). apply dispose_intent_clean; [done| |].
    + apply includes_spec. by rewrite (key_intent _ HK _ _ Hk).
    + assert (it_tenantId i0 = t) as Ht0.
      { unfold dispose_intent in Ht. destruct (_ && _) eqn:Hb; [|done]. by bsplit. }
      destruct action; simpl in Hr; [destruct Hr as [_ Hr]..|done]; eauto.
  - intros k Hk. case_bool_decide as Ha; [done|]. simpl. destruct Hk as [?|Hk]; [done|].
    destruct action; simpl; [| |done].
    + destruct (evidence db !! k) as [e|] eqn:He.
      * apply map_lookup_filter_Some. split; [done|]. rewrite (key_evidence _ HK _ _ He).
        destruct (includes _ k) eqn:Hi; [by apply includes_spec in Hi|]. by rewrite andb_false_r.
      * apply map_lookup_filter_None. by left.
    + rewrite lookup_fmap. destruct (evidence db !! k) as [e|] eqn:He; [|done]. simpl.
      rewrite (key_evidence _ HK _ _ He).
      destruct (includes _ k) eqn:Hi; [by apply includes_spec in Hi|]. by rewrite andb_false_r.
  - intros k Hk. case_bool_decide as Ha; [done|]. simpl. destruct Hk as [?|Hk]; [done|].
    rewrite lookup_fmap. destruct (intents db !! k) as [i|] eqn:Hi; [|done]. simpl.
    unfold dispose_intent. rewrite (key_intent _ HK _ _ Hi).
    destruct (includes _ k) eqn:Hc; [by apply includes_spec in Hc|]. by rewrite andb_false_r.
Qed.

Lemma resolve_commit_run hours t actor action task db :
  tasks db !! dt_id task = Some task ->
  (action <> RETAIN -> existsb unsettled (locked_intents t (dt_affectedProviderIntentIds task) db) = false) ->
  resolve_commit hours t actor action task db =
  (Ok (dt_resolve (clock db) (if bool_decide (action = RETAIN) then VERIFIED else COMPLETED)
         (outcome_of action) actor
         (if bool_decide (action = RETAIN) then None else Some (clock db + hours * 60 * 60 * 1000)) task),
   after_disposal hours t actor action task db).
Proof using.
  intros Htask Hex. unfold resolve_commit, transaction, after_disposal.
  unfold mbind, M_bind, gets, modify, guard_throw, or_throw, mret, M_ret. simpl.
  case_bool_decide as Ha; simpl.
  - by rewrite lookup_alter_eq, Htask.
  - rewrite (Hex Ha). simpl. by rewrite lookup_alter_eq, Htask.
Qed.

Lemma resolve_commit_refused hours t actor action task db :
  action <> RETAIN -> existsb unsettled (locked_intents t (dt_affectedProviderIntentIds task) db) = true ->
  resolve_commit hours t actor action task db =
  (Err (BadRequest "provider operation(s) still require outcome reconciliation"), db).
Proof using.
  intros Ha Hex. unfold resolve_commit, transaction.
  unfold mbind, M_bind, gets, modify, guard_throw, or_throw, mret, M_ret. simpl.
  by rewrite bool_decide_eq_false_2, Hex.
Qed.

(** A pending review can be resolved exactly when its action is allowed:
    RETAIN needs an active legal hold, DELETE and ANONYMIZE need none and no
    listed provider operation whose outcome is still open.  Then the listed
    evidence is gone or emptied, every listed provider result is erased and
    its operation final, nothing else changes, and deletion stays COMPLETED
    with its backup deadline; otherwise nothing changes. *)
Theorem resolve_decides hours audited db t taskId task action actor :
  keyed db -> tasks db !! taskId = Some task -> dt_tenantId task = t -> dt_status task = PENDING ->
  (resolvable db t task action -> exists task' db',
     exec answer (resolve (Q := Q) (R := R) hours audited t taskId action actor) db = (Ok task', db', []) /\
     tasks db' !! taskId = Some task' /\ dt_resolvedBy task' = Some actor /\
     dt_resolutionOutcome task' = Some (outcome_of action) /\
     dt_status task' = (if bool_decide (action = RETAIN) then VERIFIED else COMPLETED) /\
     dt_backupExpiryDueAt task' = (if bool_decide (action = RETAIN) then None
                                   else Some (clock db + hours * 60 * 60 * 1000)) /\
     disposed db db' t task action) /\
  (~ resolvable db t task action -> exists e,
     exec answer (resolve (Q := Q) (R := R) hours audited t taskId action actor) db = (Err e, db, [])).
Proof using.
  intros HK Htask Ht Hst. pose proof (key_task _ HK _ _ Htask) as Hid.
  unfold resolve. rewrite exec_read. unfold find_task.
  rewrite (proj2 (visible_Some dt_tenantId t _ task)) by done.
  rewrite bool_decide_eq_true_2 by done. cbn [negb]. rewrite exec_read.
  pose proof (after_disposal_disposed hours t actor action task db HK) as Hdisp.
  pose proof (existsb_unsettled db t task HK) as Hex. split.
  - intros Hr. specialize (Hdisp Hr).
    set (db1 := after_disposal hours t actor action task db).
    exists (dt_resolve (clock db) (if bool_decide (action = RETAIN) then VERIFIED else COMPLETED)
      (outcome_of action) actor
      (if bool_decide (action = RETAIN) then None else Some (clock db + hours * 60 * 60 * 1000)) task),
      (audit audited {| ae_tenantId := t; ae_actorId := actor;
            ae_action := "DATA_DISPOSITION_TASK_RESOLVED"; ae_resourceId := taskId |} db1).2.
    split_and!; [| |done..|].
    + assert ((bool_decide (action = RETAIN) && negb (hasActiveHold t (dt_caseId task) db)) = false /\
        (negb (bool_decide (action = RETAIN)) && hasActiveHold t (dt_caseId task) db) = false) as [-> ->].
      { destruct action; simpl in Hr |- *; [destruct Hr as [-> _]..|rewrite Hr]; done. }
      rewrite (exec_write _ _ _ _ _ _ (resolve_commit_run hours t actor action task db
        ltac:(by rewrite Hid) ltac:(destruct action; simpl in Hr; tauto))). by destruct audited.
    + assert (tasks db1 !! taskId = Some (dt_resolve (clock db)
        (if bool_decide (action = RETAIN) then VERIFIED else COMPLETED) (outcome_of action) actor
        (if bool_decide (action = RETAIN) then None else Some (clock db + hours * 60 * 60 * 1000)) task)) as Hr'.
      { simpl. by rewrite <- Hid, lookup_alter_eq, Hid, Htask. }
      by destruct audited.
    + destruct audited; [|done]. by destruct Hdisp; split.
  - intros Hno.
    destruct (bool_decide (action = RETAIN) && negb (hasActiveHold t (dt_caseId task) db)) eqn:H1; [by eexists|].
    destruct (negb (bool_decide (action = RETAIN)) && hasActiveHold t (dt_caseId task) db) eqn:H2; [by eexists|].
    assert (action <> RETAIN /\ hasActiveHold t (dt_caseId task) db = false) as [Ha Hh].
    { destruct (hasActiveHold t (dt_caseId task) db) eqn:Hh; destruct action; simpl in *; try done;
        by destruct Hno. }
    assert (existsb unsettled (locked_intents t (dt_affectedProviderIntentIds task) db) = true) as Hx.
    { destruct (existsb _ _) eqn:Hx; [done|]. destruct Hno. destruct action; simpl; tauto. }
    rewrite (exec_throw _ _ _ _ _ _ (resolve_commit_refused hours t actor action task db Ha Hx)).
    by eexists.
Qed.
End Sequential.

(** ** Witnesses *)

Definition consent1 : ConsentRecord :=
  {| cr_id := "k"; cr_tenantId := "t"; cr_caseId := "c"; cr_purpose := DEFAULT_PROVIDER_PURPOSE;
     cr_scope := DEFAULT_SCOPE; cr_permittedPurposes := [DEFAULT_PROVIDER_PURPOSE];
     cr_permittedDataClasses := DEFAULT_PROVIDER_DATA_CLASSES; cr_grantedAt := 500;
     cr_expiresAt := None; cr_revokedAt := None; cr_revocationReason := None; cr_createdAt := 500 |}.
Definition fact1 : EvidenceFact :=
  {| ev_id := "e"; ev_tenantId := "t"; ev_caseId := "c"; ev_factType := "INCOME";
     ev_sourceKind := "PROVIDER"; ev_sourceIdentifier := "sim"; ev_value := Dsl.VString "salary";
     ev_observedAt := 600; ev_validThrough := None; ev_version := 1; ev_createdAt := 600 |}.
Definition task1 : DataDispositionTask := retention_review "task" "t" "c" "k" ["e"] [] 900.

Definition db1 : Db :=
  with_evidence {[ "e" := fact1 ]} (with_consents {[ "k" := consent1 ]} (empty_db 1000)).
Definition db2 : Db := with_tasks {[ "task" := task1 ]} db1.

Lemma keyed_db2 : keyed db2 /\ keyed db1.
Proof.
  split; (split; simpl; intros k x H;
    [by apply lookup_singleton_Some in H as [<- <-]|by apply lookup_singleton_Some in H as [<- <-]|
     by apply lookup_empty_Some in H|
     by (apply lookup_singleton_Some in H as [<- <-]) || by apply lookup_empty_Some in H]).
Qed.

Lemma distinct_db1 : distinct_grants db1 "t" "c".
Proof.
  intros k k' r r' H H' _ _ _. simpl in H, H'.
  apply lookup_singleton_Some in H as [<- _]. by apply lookup_singleton_Some in H' as [<- _].
Qed.


Lemma resolve_decides_witness :
  exists task' db',
    exec (fun _ : unit => tt) (resolve 24 true "t" "task" DELETE "reviewer") db2 = (Ok task', db', []) /\
    evidence db' !! "e" = None.
Proof.
  destruct (proj1 (resolve_decides (fun _ : unit => tt) 24 true db2 "t" "task" task1 DELETE "reviewer"
    (proj1 keyed_db2) eq_refl eq_refl eq_refl)) as (task' & db' & He & _ & _ & _ & _ & _ & Hd).
  { split; [reflexivity|]. intros k i Hi. assert (intents db2 = ∅) as E by reflexivity.
    rewrite E in Hi. by apply lookup_empty_Some in Hi. }
  exists task', db'. split; [exact He|].
  destruct (evidence db' !! "e") as [e|] eqn:Hev; [|reflexivity]. exfalso.
  assert (exec (fun _ : unit => tt) (resolve 24 true "t" "task" DELETE "reviewer") db2 =
    (Ok task', db', [])) as Hx by exact He.
  vm_compute in Hx. injection Hx as _ <-. vm_compute in Hev. discriminate Hev.
Defined.
End ConsentTheorems.
