(* ===== verification/ProviderPlatform.v ===== *)
(** * Gates of the provider platform

    The services dispatch consults before it reaches a provider:
    common/structural-exclusions.ts, provider-platform/
    provider-registry.service.ts, provider-kill-switch.service.ts,
    provider-promotion.service.ts, permissible-purpose.service.ts and
    provider-authorization.service.ts.  Methods are [Threads.Prog]s, one
    [atomically] per statement; generated keys are arguments. *)

From Stdlib Require Import Ascii.
From stdpp Require Import gmap strings list.
From S2P Require Import Prelude PolicyDsl PolicyDigest Concurrency ProviderTables Consent.

Module Platform.
Import Threads Tables Consent.

(** ** The permanent product boundary *)

Definition STRUCTURALLY_EXCLUDED_COMMAND_CLASSES : list string :=
  ["FUNDS_MOVEMENT"; "RATE_LOCK"; "LEGAL_DISCLOSURE"; "FORMAL_DECISION"; "CLEAR_TO_CLOSE";
   "SETTLEMENT"; "FUNDING"; "SERVICING_PAYMENT"; "CAPITAL_DELIVERY"].

Definition excluded (declaredCommandClass : option string) : bool :=
  match declaredCommandClass with
  | Some c => JS.truthy c && includes STRUCTURALLY_EXCLUDED_COMMAND_CLASSES c
  | None => false
  end.

Definition assertNotStructurallyExcluded (declaredCommandClass : option string)
  : result Failure unit :=
  if excluded declaredCommandClass
  then Err (StructurallyExcluded (default "" declaredCommandClass)) else Ok tt.

(** ** The registry *)

Record ProviderAdapter := {
  ad_providerId : string; ad_capability : ProviderCapability; ad_mode : ProviderMode;
  ad_effectClass : ProviderEffectClass;
  ad_structurallyExcludedCommandClass : option string;
  ad_normalize : Dsl.value -> result Failure Dsl.value }.

Definition Registry : Type := gmap (ProviderCapability * ProviderMode) ProviderAdapter.

Definition register (a : ProviderAdapter) (r : Registry) : result Failure Registry :=
  match r !! (ad_capability a, ad_mode a) with
  | Some _ => Err AlreadyRegistered
  | None =>
      _ ← assertNotStructurallyExcluded (ad_structurallyExcludedCommandClass a);
      mret (<[(ad_capability a, ad_mode a) := a]> r)
  end.

Definition resolveAdapter (r : Registry) (c : ProviderCapability) (m : ProviderMode)
  : result Failure ProviderAdapter :=
  match r !! (c, m) with Some a => Ok a | None => Err NoAdapterRegistered end.

Section Services.
Context {Q R : Type}.
Notation prog := (Prog Db Failure Q R).

(** [throw] of a pure check inside a handler. *)
Definition pure {A} (r : result Failure A) : prog A := Done r.

(** ** The kill switch *)

(** No row means active. *)
Definition isActive (t : Tuple) (db : Db) : bool :=
  match statuses db !! t with
  | None => true
  | Some row => bool_decide (ps_state row = ADAPTER_ACTIVE)
  end.

(** [repo.save(repo.create({ ...existing, ... }))]: an update of the row that
    was found, or an insert under the unique constraint. *)
Definition upsert (newId : string) (t : Tuple) (state : ProviderAdapterState)
    (reason : option string) (actorId : string) : prog unit :=
  existing ← atomically (gets (fun db => statuses db !! t));
  atomically (
    taken ← gets (fun db => statuses db !! t);
    _ ← guard_throw (bool_decide (existing = None) && bool_decide (is_Some taken)) UniqueViolation;
    now ← gets clock;
    modify (fun db => with_statuses (<[t :=
      {| ps_id := match existing with Some e => ps_id e | None => newId end;
         ps_state := state; ps_reason := reason; ps_updatedBy := actorId; ps_updatedAt := now |}]> (statuses db)) db)).

Definition disable (newId : string) (t : Tuple) (reason actorId : string) : prog unit :=
  upsert newId t ADAPTER_DISABLED (Some reason) actorId.
Definition enable (newId : string) (t : Tuple) (actorId : string) : prog unit :=
  upsert newId t ADAPTER_ACTIVE None actorId.

(** ** Promotion: propose, certify, approve, activate *)

Definition PLATFORM_AUDIT_TENANT_ID : string := "00000000-0000-0000-0000-000000000000".

Definition platform_audit (audited : bool) (actorId action resourceId : string) : prog unit :=
  atomically (audit audited {| ae_tenantId := PLATFORM_AUDIT_TENANT_ID; ae_actorId := actorId;
                               ae_action := action; ae_resourceId := resourceId |}).

Record ProposeManifestInput := {
  pi_tuple : Tuple; pi_adapterVersion : string; pi_endpointAllowlist : list string;
  pi_dataClassifications : list string; pi_proposedBy : string; pi_validFrom : option Z;
  pi_validUntil : option Z; pi_declaredCommandClass : option string }.

Context (sha256 : Dsl.value -> string).

Definition mode_text (m : ProviderMode) : string :=
  match m with
  | SIMULATOR => "SIMULATOR" | AUTHORIZED_SANDBOX => "AUTHORIZED_SANDBOX"
  | PRODUCTION_BYOC => "PRODUCTION_BYOC"
  end.

Definition content_hash (i : ProposeManifestInput) : string :=
  let '(p, c, m) := pi_tuple i in
  Digest.computeDigest sha256 (Dsl.VObject
    [("providerId", Dsl.VString p); ("capability", Dsl.VString (capability_text c));
     ("mode", Dsl.VString (mode_text m)); ("adapterVersion", Dsl.VString (pi_adapterVersion i));
     ("endpointAllowlist", Dsl.VArray (Dsl.VString <$> pi_endpointAllowlist i));
     ("dataClassifications", Dsl.VArray (Dsl.VString <$> pi_dataClassifications i))]).

Definition latest_manifest (t : Tuple) (db : Db) : option ProviderPromotionManifest :=
  newest mf_version (find_rows (fun m => bool_decide (mf_tuple m = t)) (manifests db)).

Definition proposeManifest (audited : bool) (newId : string) (i : ProposeManifestInput)
  : prog ProviderPromotionManifest :=
  _ ← pure (assertNotStructurallyExcluded (pi_declaredCommandClass i));
  latest ← atomically (gets (latest_manifest (pi_tuple i)));
  m ← atomically (
    now ← gets clock;
    save_new manifests with_manifests newId
      {| mf_id := newId; mf_providerId := (pi_tuple i).1.1; mf_capability := (pi_tuple i).1.2;
         mf_mode := (pi_tuple i).2;
         mf_version := match latest with Some m => mf_version m | None => 0 end + 1;
         mf_adapterVersion := pi_adapterVersion i;
         mf_endpointAllowlist := pi_endpointAllowlist i;
         mf_dataClassifications := pi_dataClassifications i; mf_contentHash := content_hash i;
         mf_proposedBy := pi_proposedBy i; mf_proposedAt := now;
         mf_validFrom := match pi_validFrom i with Some t => t | None => now end;
         mf_validUntil := pi_validUntil i;
         mf_declaredCommandClass := pi_declaredCommandClass i |});
  _ ← platform_audit audited (pi_proposedBy i) "PROVIDER_MANIFEST_PROPOSED" newId;
  mret m.

Definition find_manifest (id : string) : prog ProviderPromotionManifest :=
  atomically (m ← gets (fun db => manifests db !! id); or_throw m EntityNotFound).

Definition certify (audited : bool) (newId manifestId environment certifiedBy : string)
    (decision : ProviderCertificationDecision) (evidenceRef : string) (expiresAt : option Z)
  : prog ProviderCertificationRecord :=
  _ ← find_manifest manifestId;
  r ← atomically (
    now ← gets clock;
    save_new certifications with_certifications newId
      {| ce_id := newId; ce_manifestId := manifestId; ce_environment := environment;
         ce_certifiedBy := certifiedBy; ce_decision := decision; ce_evidenceRef := evidenceRef;
         ce_decidedAt := now; ce_expiresAt := expiresAt |});
  _ ← platform_audit audited certifiedBy "PROVIDER_MANIFEST_CERTIFIED" manifestId;
  mret r.

Definition approveManifest (audited : bool) (newId manifestId approvalRole approvedBy : string)
    (decision : ProviderApprovalDecision) (expiresAt : option Z) : prog ProviderApprovalRecord :=
  manifest ← find_manifest manifestId;
  if bool_decide (decision = APPROVED) && String.eqb (mf_proposedBy manifest) approvedBy
  then fail (BadRequest "self-approval is not permitted: the approver must differ from the proposer")
  else
  r ← atomically (
    now ← gets clock;
    save_new approvals with_approvals newId
      {| pr_id := newId; pr_manifestId := manifestId; pr_approvalRole := approvalRole;
         pr_approvedBy := approvedBy; pr_decision := decision; pr_decidedAt := now;
         pr_expiresAt := expiresAt |});
  _ ← platform_audit audited approvedBy "PROVIDER_MANIFEST_APPROVAL_RECORDED" manifestId;
  mret r.

Definition latest_certification (manifestId environment : string) (db : Db)
  : option ProviderCertificationRecord :=
  newest ce_decidedAt (find_rows (fun c => String.eqb (ce_manifestId c) manifestId &&
                                           String.eqb (ce_environment c) environment) (certifications db)).

Definition latest_approval (manifestId : string) (db : Db) : option ProviderApprovalRecord :=
  newest pr_decidedAt (find_rows (fun a => String.eqb (pr_manifestId a) manifestId) (approvals db)).

(** The latest decision, when it allows activation at this moment. *)
Definition current_certification (manifestId environment : string) (db : Db)
  : option ProviderCertificationRecord :=
  match latest_certification manifestId environment db with
  | Some c => if negb (bool_decide (ce_decision c = PASSED)) || expired_lt (clock db) (ce_expiresAt c)
              then None else Some c
  | None => None
  end.
Definition current_approval (manifestId : string) (db : Db) : option ProviderApprovalRecord :=
  match latest_approval manifestId db with
  | Some a => if negb (bool_decide (pr_decision a = APPROVED)) || expired_lt (clock db) (pr_expiresAt a)
              then None else Some a
  | None => None
  end.

Definition save_activation (newId : string) (existing : option ProviderActivation)
    (m : ProviderPromotionManifest) (activatedBy : string) : M Db Failure ProviderActivation :=
  taken ← gets (fun db => activations db !! mf_tuple m);
  _ ← guard_throw (bool_decide (is_Some taken) && negb (bool_decide (is_Some existing))) UniqueViolation;
  now ← gets clock;
  let row := {| ac_id := match existing with Some e => ac_id e | None => newId end;
                ac_manifestId := mf_id m; ac_manifestVersion := mf_version m;
                ac_state := ACTIVE; ac_activatedBy := activatedBy; ac_activatedAt := now |} in
  _ ← modify (fun db => with_activations (<[mf_tuple m := row]> (activations db)) db);
  mret row.

Definition activateManifest (audited : bool) (newId manifestId environment activatedBy : string)
    (expectedCurrentManifestVersion : option Z) : prog ProviderActivation :=
  manifest ← find_manifest manifestId;
  certified ← atomically (gets (current_certification manifestId environment));
  match certified with
  | None => fail (BadRequest "has no current PASSED, unexpired certification")
  | Some _ =>
  approved ← atomically (gets (current_approval manifestId));
  match approved with
  | None => fail (BadRequest "has no current APPROVED, unexpired approval")
  | Some _ =>
  existing ← atomically (gets (fun db => activations db !! mf_tuple manifest));
  if negb (bool_decide (expectedCurrentManifestVersion = ac_manifestVersion <$> existing))
  then fail (BadRequest "activation has moved: reload and retry") else
  activation ← atomically (save_activation newId existing manifest activatedBy);
  _ ← platform_audit audited activatedBy "PROVIDER_ACTIVATED" (ac_id activation);
  mret activation
  end end.

Definition ac_deactivated (now : Z) (actorId : string) (a : ProviderActivation) : ProviderActivation :=
  {| ac_id := ac_id a; ac_manifestId := ac_manifestId a; ac_manifestVersion := ac_manifestVersion a;
     ac_state := DEACTIVATED; ac_activatedBy := actorId; ac_activatedAt := now |}.

Definition deactivate (audited : bool) (t : Tuple) (actorId : string) : prog ProviderActivation :=
  existing ← atomically (a ← gets (fun db => activations db !! t); or_throw a EntityNotFound);
  _ ← atomically (
    now ← gets clock;
    modify (fun db => with_activations (alter (ac_deactivated now actorId) t (activations db)) db));
  activation ← atomically (a ← gets (fun db => activations db !! t); or_throw a EntityNotFound);
  _ ← platform_audit audited actorId "PROVIDER_DEACTIVATED" (ac_id (activation : ProviderActivation));
  mret activation.

(** No row means not activated. *)
Definition isActivated (t : Tuple) (db : Db) : bool :=
  match activations db !! t with
  | Some a => bool_decide (ac_state a = ACTIVE)
  | None => false
  end.

(** ** Permissible purpose *)

Record PermissiblePurposeContext := {
  pc_tenantId : string; pc_caseId : string; pc_borrowerSubjectId : string;
  pc_capability : ProviderCapability; pc_purposeCode : string;
  pc_permittedDataClasses : list string; pc_mode : ProviderMode }.

Definition issueSynthetic (newId : string) (c : PermissiblePurposeContext) : prog string :=
  if negb (bool_decide (pc_mode c = SIMULATOR)) || negb (bool_decide (pc_capability c = CREDIT))
  then fail SyntheticDecisionMisuse else
  d ← atomically (
    now ← gets clock;
    save_new decisions with_decisions newId
      {| pd_id := newId; pd_tenantId := pc_tenantId c; pd_caseId := pc_caseId c;
         pd_borrowerSubjectId := pc_borrowerSubjectId c; pd_capability := pc_capability c;
         pd_purposeCode := pc_purposeCode c; pd_permittedDataClasses := pc_permittedDataClasses c;
         pd_decision := AUTHORIZED; pd_basisCode := "SYNTHETIC_MORTGAGE_APPLICATION";
         pd_decidedBy := "simulator-purpose-policy"; pd_syntheticOnly := true;
         pd_decidedAt := now; pd_expiresAt := now + 5 * 60000; pd_revokedAt := None |});
  mret (pd_id d).

(** The reason a decision does not authorise the request, if any. *)
Definition validatePurpose (decisionId : string) (c : PermissiblePurposeContext) (db : Db)
  : option string :=
  match visible pd_tenantId (pc_tenantId c) (decisions db !! decisionId) with
  | None => Some "decision not found"
  | Some d =>
      if negb (String.eqb (pd_tenantId d) (pc_tenantId c)) ||
         negb (String.eqb (pd_caseId d) (pc_caseId c)) ||
         negb (String.eqb (pd_borrowerSubjectId d) (pc_borrowerSubjectId c)) ||
         negb (bool_decide (pd_capability d = pc_capability c)) ||
         negb (String.eqb (pd_purposeCode d) (pc_purposeCode c)) ||
         negb (all_included (pc_permittedDataClasses c) (pd_permittedDataClasses d))
      then Some "decision scope does not match this request" else
      if negb (bool_decide (pd_decision d = AUTHORIZED)) then Some "decision is not authorized" else
      if bool_decide (is_Some (pd_revokedAt d)) || (pd_expiresAt d <=? clock db)
      then Some "decision is revoked or expired" else
      if pd_syntheticOnly d && negb (bool_decide (pc_mode c = SIMULATOR))
      then Some "synthetic decision cannot authorize a live provider mode" else None
  end.

(** ** Authorization grants *)

Definition DEFAULT_GRANT_TTL_MS : Z := 5 * 60 * 1000.

Record IssueGrantInput := {
  ig_tenantId : string; ig_caseId : string; ig_borrowerSubjectId : string;
  ig_providerId : string; ig_capability : ProviderCapability; ig_purposeCode : string;
  ig_permittedDataClasses : list string; ig_permittedFields : option (list string);
  ig_ttlMs : option Z; ig_consentRecordIds : list string;
  ig_permissiblePurposeDecisionId : option string }.

Definition issue (newId : string) (i : IssueGrantInput) : prog ProviderAuthorizationGrant :=
  atomically (
    now ← gets clock;
    save_new grants with_grants newId
      {| gr_id := newId; gr_tenantId := ig_tenantId i; gr_caseId := ig_caseId i;
         gr_borrowerSubjectId := ig_borrowerSubjectId i; gr_providerId := ig_providerId i;
         gr_capability := ig_capability i; gr_purposeCode := ig_purposeCode i;
         gr_permittedDataClasses := ig_permittedDataClasses i;
         gr_permittedFields := ig_permittedFields i;
         gr_consentRecordIds := ig_consentRecordIds i;
         gr_permissiblePurposeDecisionId := ig_permissiblePurposeDecisionId i;
         gr_issuedAt := now;
         gr_expiresAt := now + default DEFAULT_GRANT_TTL_MS (ig_ttlMs i);
         gr_revokedAt := None |}).

Record Expected := {
  ex_tenantId : string; ex_caseId : string; ex_providerId : string;
  ex_capability : ProviderCapability }.

(** The checks on the grant row itself. *)
Definition check_grant (g : ProviderAuthorizationGrant) (e : Expected) (now : Z) : option string :=
  if negb (String.eqb (gr_tenantId g) (ex_tenantId e)) ||
     negb (String.eqb (gr_caseId g) (ex_caseId e)) ||
     negb (String.eqb (gr_providerId g) (ex_providerId e)) ||
     negb (bool_decide (gr_capability g = ex_capability e))
  then Some "does not match this request's tenant/case/provider/capability" else
  if bool_decide (is_Some (gr_revokedAt g)) then Some "was revoked" else
  if gr_expiresAt g <=? now then Some "expired" else
  if bool_decide (gr_consentRecordIds g = []) then Some "has no purpose-bound consent record" else None.

(** The loop over the referenced consent records, one query each. *)
Fixpoint check_consents (g : ProviderAuthorizationGrant) (ids : list string) : prog (option string) :=
  match ids with
  | [] => mret None
  | id :: ids' =>
      ok ← atomically (gets (isRecordValid id
             (Some (gr_tenantId g, gr_caseId g, gr_purposeCode g, gr_permittedDataClasses g))));
      if ok : bool then check_consents g ids'
      else mret (Some "references a consent record which is no longer granted and unrevoked")
  end.

Inductive RevalidateResult :=
| Valid (grant : ProviderAuthorizationGrant)
| Invalid (reason : string).

Definition revalidate (grantId : string) (e : Expected) : prog RevalidateResult :=
  found ← atomically (gets (fun db =>
    (visible gr_tenantId (ex_tenantId e) (grants db !! grantId), clock db)));
  match found with
  | (None, _) => mret (Invalid "authorization grant not found")
  | (Some g, now) =>
      match check_grant g e now with
      | Some reason => mret (Invalid reason)
      | None =>
          bad ← check_consents g (gr_consentRecordIds g);
          mret (match bad with Some reason => Invalid reason | None => Valid g end)
      end
  end.

Definition revokeGrant (tenantId grantId : string) : prog unit :=
  atomically (
    now ← gets clock;
    modify (fun db => with_grants (alter (fun g =>
      if String.eqb (gr_tenantId g) tenantId then
        {| gr_id := gr_id g; gr_tenantId := gr_tenantId g; gr_caseId := gr_caseId g;
           gr_borrowerSubjectId := gr_borrowerSubjectId g; gr_providerId := gr_providerId g;
           gr_capability := gr_capability g; gr_purposeCode := gr_purposeCode g;
           gr_permittedDataClasses := gr_permittedDataClasses g;
           gr_permittedFields := gr_permittedFields g;
           gr_consentRecordIds := gr_consentRecordIds g;
           gr_permissiblePurposeDecisionId := gr_permissiblePurposeDecisionId g;
           gr_issuedAt := gr_issuedAt g; gr_expiresAt := gr_expiresAt g;
           gr_revokedAt := Some now |}
      else g) grantId (grants db)) db)).
End Services.
End Platform.
