(* ===== verification/ProviderDispatch.v ===== *)
(** * Dispatching a provider request

    provider-platform/provider-operation-intent.service.ts,
    dispatch-provider-request.ts, provider-finding-contract.ts and
    provider-reconciliation.service.ts.  The outgoing request is a [Call] of
    the handler; everything else is a statement on the tables.  The cipher,
    the hash, date parsing and the schemas of the findings are parameters. *)

From Stdlib Require Import Ascii.
From stdpp Require Import gmap strings list.
From S2P Require Import Prelude PolicyDsl PolicyDigest Concurrency ProviderTables Consent ProviderPlatform.

Module Dispatch.
Import Threads Tables Consent Platform.

(** ** What crosses the boundary *)

(** [SynchronousProviderReceipt], or what [submit] threw; a timeout is a
    [SyntheticProviderTimeoutError]. *)
Inductive ProviderAnswer :=
| Receipt (payload : Dsl.value) (observedAt : string)
| SyntheticProviderRejectionError
| OtherError (timeout : bool).

(** [toIntentValue]: the row with its payloads in the clear. *)
Record IntentValue := {
  iv_row : ProviderOperationIntent;
  iv_providerReceipt : option Dsl.value;
  iv_normalizedFinding : option Dsl.value }.

Record Submission := {
  su_mode : ProviderMode; su_request : Dsl.value; su_intent : IntentValue;
  su_grant : ProviderAuthorizationGrant; su_tenantId : string; su_caseId : string }.

Notation prog := (Prog Db Failure Submission ProviderAnswer).

Definition receipt_value (payload : Dsl.value) (observedAt : string) : Dsl.value :=
  Dsl.VObject [("status", Dsl.VString "COMPLETE"); ("payload", payload);
               ("observedAt", Dsl.VString observedAt)].

Section Service.
(** AES-GCM under the key ring: [encrypt iv aad v] and [decrypt aad v]. *)
Context (encrypt : string -> string -> Dsl.value -> Dsl.value).
Context (decrypt : string -> Dsl.value -> option Dsl.value).
Context (isEnvelope : Dsl.value -> bool).
(** The hash of a request's canonical JSON, [new Date(text)], and the
    schema of each capability. *)
Context (sha256 : Dsl.value -> string).
Context (parse_date : string -> option Z).
Context (safeParse : ProviderCapability -> Dsl.value -> option Dsl.value).

(** ** Intents *)

Definition aad (i : ProviderOperationIntent) (column : string) : string :=
  it_tenantId i +:+ ":" +:+ it_id i +:+ ":" +:+ column.

Definition decrypt_column (i : ProviderOperationIntent) (column : string) (v : option Dsl.value)
  : result Failure (option Dsl.value) :=
  match v with
  | None => Ok None
  | Some v => match decrypt (aad i column) v with
              | Some plain => Ok (Some plain)
              | None => Err SensitiveJsonDecryption
              end
  end.

Definition toIntentValue (i : ProviderOperationIntent) : result Failure IntentValue :=
  receipt ← decrypt_column i "receipt" (it_providerReceipt i);
  finding ← decrypt_column i "finding" (it_normalizedFinding i);
  mret {| iv_row := i; iv_providerReceipt := receipt; iv_normalizedFinding := finding |}.

(** The canonical form of a request, whose text is hashed. *)
Definition canonicalJson (v : Dsl.value) : Dsl.value := Digest.canonicalize v.

Record PrepareIntentInput := {
  pp_tenantId : string; pp_caseId : string; pp_providerId : string;
  pp_capability : ProviderCapability; pp_effectClass : ProviderEffectClass;
  pp_authorizationGrantId : string; pp_logicalOperationKey : string;
  pp_requestPayloadForFingerprint : Dsl.value }.

Definition Effect : Type := string * string * ProviderCapability * string.

(** The columns of UQ_provider_operation_intents_logical_effect. *)
Definition effect_of (i : ProviderOperationIntent) : Effect :=
  (it_tenantId i, it_providerId i, it_capability i, it_logicalOperationKey i).
Definition effect_of_input (p : PrepareIntentInput) : Effect :=
  (pp_tenantId p, pp_providerId p, pp_capability p, pp_logicalOperationKey p).

Definition find_effect (e : Effect) (db : Db) : option ProviderOperationIntent :=
  find_row (fun i => bool_decide (effect_of i = e)) (intents db).

Definition new_intent (newId key fingerprint : string) (p : PrepareIntentInput) (now : Z)
  : ProviderOperationIntent :=
  {| it_id := newId; it_tenantId := pp_tenantId p; it_caseId := pp_caseId p;
     it_providerId := pp_providerId p; it_capability := pp_capability p;
     it_effectClass := pp_effectClass p; it_requestFingerprint := fingerprint;
     it_idempotencyKey := key; it_logicalOperationKey := pp_logicalOperationKey p;
     it_authorizationGrantId := pp_authorizationGrantId p; it_providerReceipt := None;
     it_normalizedFinding := None; it_state := PREPARED; it_resolvedBy := None;
     it_resolutionNote := None; it_createdAt := now; it_updatedAt := now |}.

(** The insert, under the primary key and the unique index. *)
Definition insert_intent (newId key fingerprint : string) (p : PrepareIntentInput)
  : M Db Failure ProviderOperationIntent :=
  dup ← gets (find_effect (effect_of_input p));
  _ ← guard_throw (bool_decide (is_Some dup)) UniqueViolation;
  now ← gets clock;
  save_new intents with_intents newId (new_intent newId key fingerprint p now).

Definition regrant (grantId : string) (now : Z) (i : ProviderOperationIntent) : ProviderOperationIntent :=
  it_update (it_state i) grantId (it_providerReceipt i) (it_normalizedFinding i)
    (it_resolvedBy i) (it_resolutionNote i) now i.

(** [update({ id, state: PREPARED }, { authorizationGrantId })] *)
Definition update_grant (id grantId : string) : M Db Failure unit :=
  now ← gets clock;
  modify (fun db => with_intents (alter (fun i =>
    if bool_decide (it_state i = PREPARED) then regrant grantId now i else i) id (intents db)) db).

Definition with_grant_id (grantId : string) (i : ProviderOperationIntent) : ProviderOperationIntent :=
  regrant grantId (it_updatedAt i) i.

(** A lost insert leaves the transaction aborted: the reload inside it fails. *)
Definition prepare_row (newId key : string) (p : PrepareIntentInput) : prog ProviderOperationIntent :=
  let fingerprint := sha256 (canonicalJson (pp_requestPayloadForFingerprint p)) in
  existing ← atomically (gets (find_effect (effect_of_input p)));
  match existing with
  | None =>
      pcatch (atomically (insert_intent newId key fingerprint p))
        (fun e => if isUniqueViolation e then fail TransactionAborted else fail e)
  | Some i =>
      if negb (String.eqb (it_caseId i) (pp_caseId p)) ||
         negb (String.eqb (it_requestFingerprint i) fingerprint) ||
         negb (bool_decide (it_effectClass i = pp_effectClass p))
      then fail ProviderIntentConflict else
      if bool_decide (it_state i = PREPARED) then
        _ ← atomically (update_grant (it_id i) (pp_authorizationGrantId p));
        mret (with_grant_id (pp_authorizationGrantId p) i)
      else mret i
  end.

Definition prepare (newId key : string) (p : PrepareIntentInput) : prog IntentValue :=
  i ← prepare_row newId key p;
  pure (toIntentValue i).

Definition state_in (from : list ProviderOperationIntentStatus) (st : ProviderOperationIntentStatus)
  : bool := bool_decide (st ∈ from).

(** The compare-and-swap every state change goes through. *)
Definition cas (tenantId id : string) (from : list ProviderOperationIntentStatus)
    (target : ProviderOperationIntentStatus) (set : Z -> ProviderOperationIntent -> ProviderOperationIntent)
  : M Db Failure unit :=
  now ← gets clock;
  row ← gets (fun db => visible it_tenantId tenantId (intents db !! id));
  match row with
  | Some i =>
      if state_in from (it_state i)
      then modify (fun db => with_intents (<[id := set now i]> (intents db)) db)
      else throw (ProviderIntentTransition (Some (it_state i)) target)
  | None => throw (ProviderIntentTransition None target)
  end.

Definition set_state (state : ProviderOperationIntentStatus) (now : Z) (i : ProviderOperationIntent)
  : ProviderOperationIntent :=
  it_update state (it_authorizationGrantId i) (it_providerReceipt i) (it_normalizedFinding i)
    (it_resolvedBy i) (it_resolutionNote i) now i.

Definition transition (tenantId id : string) (from : list ProviderOperationIntentStatus)
    (target : ProviderOperationIntentStatus) : prog unit :=
  atomically (cas tenantId id from target (set_state target)).

Definition markDispatched (tenantId id : string) : prog unit :=
  transition tenantId id [PREPARED] DISPATCHED.

Definition set_succeeded (iv1 iv2 : string) (receipt finding : Dsl.value) (now : Z)
    (i : ProviderOperationIntent) : ProviderOperationIntent :=
  it_update SUCCEEDED (it_authorizationGrantId i) (Some (encrypt iv1 (aad i "receipt") receipt))
    (Some (encrypt iv2 (aad i "finding") finding)) (it_resolvedBy i) (it_resolutionNote i) now i.

Definition markSucceeded (iv1 iv2 tenantId id : string) (receipt finding : Dsl.value) : prog unit :=
  atomically (cas tenantId id [DISPATCHED] SUCCEEDED (set_succeeded iv1 iv2 receipt finding)).

Definition set_failed (iv : string) (receipt : option Dsl.value) (now : Z)
    (i : ProviderOperationIntent) : ProviderOperationIntent :=
  it_update FAILED_FINAL (it_authorizationGrantId i)
    match receipt with
    | Some r => Some (encrypt iv (aad i "receipt") r)
    | None => it_providerReceipt i
    end (it_normalizedFinding i) (it_resolvedBy i) (it_resolutionNote i) now i.

Definition markFailedFinal (iv tenantId id : string) (receipt : option Dsl.value) : prog unit :=
  atomically (cas tenantId id [PREPARED; DISPATCHED] FAILED_FINAL (set_failed iv receipt)).

Definition markOutcomeUnknown (tenantId id : string) : prog unit :=
  transition tenantId id [DISPATCHED] OUTCOME_UNKNOWN.
Definition markReconciling (tenantId id : string) : prog unit :=
  transition tenantId id [OUTCOME_UNKNOWN] RECONCILING.

Inductive ManualOutcome := Manual_SUCCEEDED | Manual_FAILED_FINAL | Manual_CANCELLED.
Definition manual_state (o : ManualOutcome) : ProviderOperationIntentStatus :=
  match o with
  | Manual_SUCCEEDED => SUCCEEDED | Manual_FAILED_FINAL => FAILED_FINAL | Manual_CANCELLED => CANCELLED
  end.

Definition set_manual (o : ManualOutcome) (by_ note : string) (now : Z) (i : ProviderOperationIntent)
  : ProviderOperationIntent :=
  it_update (manual_state o) (it_authorizationGrantId i) (it_providerReceipt i)
    (it_normalizedFinding i) (Some by_) (Some note) now i.

Definition resolveManually (tenantId id : string) (outcome : ManualOutcome) (resolvedBy note : string)
  : prog ProviderOperationIntent :=
  atomically (
    _ ← cas tenantId id [OUTCOME_UNKNOWN; RECONCILING] (manual_state outcome)
          (set_manual outcome resolvedBy note);
    i ← gets (fun db => intents db !! id);
    or_throw i EntityNotFound).

Definition needs_reconciliation (tenantId : string) (i : ProviderOperationIntent) : bool :=
  String.eqb (it_tenantId i) tenantId && state_in [OUTCOME_UNKNOWN; RECONCILING] (it_state i).

Definition bounded (limit : Z) : nat := Z.to_nat (Z.min (Z.max limit 1) 100).

Definition listNeedingReconciliation (tenantId : string) (limit : Z) (db : Db)
  : list ProviderOperationIntent :=
  take (bounded limit)
    (order_by it_createdAt (find_rows (needs_reconciliation tenantId) (intents db))).

Definition get (tenantId id : string) : prog (option IntentValue) :=
  row ← atomically (gets (fun db => visible it_tenantId tenantId (intents db !! id)));
  match row with
  | None => mret None
  | Some i => v ← pure (toIntentValue i); mret (Some v)
  end.

(** ** Key rotation *)

Definition rotate_column (iv : string) (i : ProviderOperationIntent) (column : string)
    (v : option Dsl.value) : result Failure (option Dsl.value) :=
  match v with
  | None => Ok None
  | Some v =>
      plain ← (if isEnvelope v
               then match decrypt (aad i column) v with
                    | Some p => Ok p | None => Err SensitiveJsonDecryption end
               else Ok v);
      mret (Some (encrypt iv (aad i column) plain))
  end.

(** The columns the update of one row writes, computed from the row as it
    was read. *)
Definition rotate_row (iv1 iv2 : string) (i : ProviderOperationIntent)
  : result Failure (option (Z -> ProviderOperationIntent -> ProviderOperationIntent)) :=
  receipt ← rotate_column iv1 i "receipt" (it_providerReceipt i);
  finding ← rotate_column iv2 i "finding" (it_normalizedFinding i);
  mret (if bool_decide (is_Some receipt) || bool_decide (is_Some finding)
        then Some (fun now j => it_update (it_state j) (it_authorizationGrantId j)
                     (if receipt is Some r then Some r else it_providerReceipt j)
                     (if finding is Some f then Some f else it_normalizedFinding j)
                     (it_resolvedBy j) (it_resolutionNote j) now j)
        else None).

Fixpoint rotate_rows (iv1 iv2 : string) (rows : list ProviderOperationIntent) : M Db Failure nat :=
  match rows with
  | [] => mret 0%nat
  | i :: rows' =>
      now ← gets clock;
      set ← lift (rotate_row iv1 iv2 i);
      n ← (match set with
           | Some set => _ ← modify (fun db => with_intents (alter (set now) (it_id i) (intents db)) db);
                         mret 1%nat
           | None => mret 0%nat
           end);
      m ← rotate_rows iv1 iv2 rows';
      mret (n + m)%nat
  end.

(** One transaction: the read of all rows, then the updates. *)
Definition rotateSensitivePayloadEncryption (iv1 iv2 : string) : prog (nat * nat) :=
  rows ← atomically (gets (fun db => rows (intents db)));
  rewritten ← atomically (transaction (rotate_rows iv1 iv2 rows));
  mret (length rows, rewritten).

(** ** Reconciliation *)

Definition RECONCILIATION_BATCH_SIZE : nat := 100.

Definition stale (threshold : Z) (i : ProviderOperationIntent) : bool :=
  bool_decide (it_state i = OUTCOME_UNKNOWN) && (it_updatedAt i <=? threshold).

Fixpoint reconcile_rows (rows : list ProviderOperationIntent) : prog nat :=
  match rows with
  | [] => mret 0%nat
  | i :: rows' =>
      n ← pcatch (_ ← markReconciling (it_tenantId i) (it_id i); mret 1%nat) (fun _ => mret 0%nat);
      m ← reconcile_rows rows';
      mret (n + m)%nat
  end.

Definition reconcilePendingIntents (staleAfterMs : Z) (now : option Z) : prog (nat * nat) :=
  rows ← atomically (gets (fun db =>
    take RECONCILIATION_BATCH_SIZE (order_by it_updatedAt
      (find_rows (stale (default (clock db) now - staleAfterMs)) (intents db)))));
  moved ← reconcile_rows rows;
  mret (length rows, moved).

(** ** The canonical finding *)

Definition validateProviderFinding (capability : ProviderCapability) (finding : Dsl.value)
    (observedAt : string) (now : Z) : result Failure Dsl.value :=
  match parse_date observedAt with
  | None => Err ProviderFindingContract
  | Some t =>
      if (now + 30000 <? t) || (5 * 60000 <? now - t) then Err ProviderFindingContract else
      match safeParse capability finding with
      | Some f => Ok f
      | None => Err ProviderFindingContract
      end
  end.

Definition filterToPermittedFields (finding : Dsl.value) (permittedFields : option (list string))
  : Dsl.value :=
  match permittedFields, finding with
  | Some allowed, Dsl.VObject props =>
      Dsl.VObject (List.filter (fun kv => includes allowed kv.1) props)
  | _, _ => finding
  end.

(** ** Dispatch *)

Record DispatchProviderRequestParams := {
  dp_tenantId : string; dp_caseId : string; dp_borrowerSubjectId : string;
  dp_capability : ProviderCapability; dp_mode : option ProviderMode; dp_request : Dsl.value;
  dp_purposeCode : string; dp_permittedDataClasses : list string;
  dp_logicalOperationKey : option string; dp_permittedFields : option (list string);
  dp_permissiblePurposeDecisionId : option string }.

(** Generated keys and initialisation vectors of one dispatch. *)
Record DispatchIds := {
  di_decisionId : string; di_grantId : string; di_intentId : string;
  di_idempotencyKey : string; di_iv1 : string; di_iv2 : string }.

Definition mode_of (p : DispatchProviderRequestParams) : ProviderMode :=
  default SIMULATOR (dp_mode p).

Definition purpose_context (p : DispatchProviderRequestParams) : PermissiblePurposeContext :=
  {| pc_tenantId := dp_tenantId p; pc_caseId := dp_caseId p;
     pc_borrowerSubjectId := dp_borrowerSubjectId p; pc_capability := dp_capability p;
     pc_purposeCode := dp_purposeCode p; pc_permittedDataClasses := dp_permittedDataClasses p;
     pc_mode := mode_of p |}.

(** [if (id)]: an empty id counts as absent. *)
Definition truthy_id (o : option string) : option string :=
  match o with Some s => if JS.truthy s then Some s else None | None => None end.

(** The permissible-purpose gate before the grant is issued. *)
Definition purpose_gate (newId : string) (p : DispatchProviderRequestParams) : prog (option string) :=
  if negb (bool_decide (dp_capability p = CREDIT)) then mret (dp_permissiblePurposeDecisionId p) else
  id ← (match truthy_id (dp_permissiblePurposeDecisionId p) with
        | Some id => mret (Some id)
        | None => if bool_decide (mode_of p = SIMULATOR)
                  then id ← issueSynthetic newId (purpose_context p); mret (truthy_id (Some id))
                  else mret None
        end);
  match id with
  | None => fail (PermissiblePurpose
      "consumer-report dispatch requires a transaction-specific permissible-purpose decision")
  | Some id =>
      bad ← atomically (gets (validatePurpose id (purpose_context p)));
      match bad with
      | Some reason => fail (PermissiblePurpose reason)
      | None => mret (Some id)
      end
  end.

(** After the receipt arrived. *)
Definition record_receipt (ids : DispatchIds) (p : DispatchProviderRequestParams)
    (a : ProviderAdapter) (i : ProviderOperationIntent) (g : ProviderAuthorizationGrant)
    (payload : Dsl.value) (observedAt : string) : prog Dsl.value :=
  pcatch
    (raw ← pure (ad_normalize a payload);
     now ← atomically (gets clock);
     finding ← pure (validateProviderFinding (dp_capability p) raw observedAt now);
     let filtered := filterToPermittedFields finding (gr_permittedFields g) in
     _ ← markSucceeded (di_iv1 ids) (di_iv2 ids) (it_tenantId i) (it_id i)
           (receipt_value payload observedAt) filtered;
     mret filtered)
    (fun e =>
       _ ← markFailedFinal (di_iv1 ids) (it_tenantId i) (it_id i)
             (match e with ProviderRejection => None
              | _ => Some (receipt_value payload observedAt) end);
       fail e).

Definition submit (ids : DispatchIds) (p : DispatchProviderRequestParams) (a : ProviderAdapter)
    (intent : IntentValue) (g : ProviderAuthorizationGrant) : prog Dsl.value :=
  let i := iv_row intent in
  answer ← call {| su_mode := mode_of p; su_request := dp_request p; su_intent := intent;
                   su_grant := g; su_tenantId := dp_tenantId p; su_caseId := dp_caseId p |};
  match answer with
  | Receipt payload observedAt => record_receipt ids p a i g payload observedAt
  | SyntheticProviderRejectionError =>
      _ ← markFailedFinal (di_iv1 ids) (it_tenantId i) (it_id i) None; fail ProviderRejection
  | OtherError timeout =>
      _ ← markOutcomeUnknown (it_tenantId i) (it_id i); fail (ProviderUnavailable timeout)
  end.

(** From a prepared intent to the provider: both authorities are checked
    again, then the intent is claimed. *)
Definition submit_prepared (ids : DispatchIds) (p : DispatchProviderRequestParams)
    (a : ProviderAdapter) (grantId : string) (decisionId : option string) (intent : IntentValue)
  : prog Dsl.value :=
  let i := iv_row intent in
  revalidation ← revalidate grantId
    {| ex_tenantId := dp_tenantId p; ex_caseId := dp_caseId p;
       ex_providerId := ad_providerId a; ex_capability := dp_capability p |};
  match revalidation with
  | Invalid reason =>
      _ ← markFailedFinal (di_iv1 ids) (it_tenantId i) (it_id i) None;
      fail (ProviderRevalidation reason)
  | Valid g =>
      bad ← (match truthy_id decisionId with
             | Some d => atomically (gets (validatePurpose d (purpose_context p)))
             | None => mret None
             end);
      match bad with
      | Some reason =>
          _ ← markFailedFinal (di_iv1 ids) (it_tenantId i) (it_id i) None;
          fail (PermissiblePurpose reason)
      | None =>
          _ ← markDispatched (it_tenantId i) (it_id i);
          submit ids p a intent g
      end
  end.

Definition logical_key (p : DispatchProviderRequestParams) : string :=
  default (dp_caseId p +:+ ":" +:+ capability_text (dp_capability p) +:+ ":" +:+ dp_purposeCode p)
    (dp_logicalOperationKey p).

(** From the consent on: purpose, grant, intent, then replay or submission. *)
Definition dispatch_authorized (ids : DispatchIds) (p : DispatchProviderRequestParams)
    (a : ProviderAdapter) (consent : ConsentRecord) : prog Dsl.value :=
  decisionId ← purpose_gate (di_decisionId ids) p;
  grant ← issue (di_grantId ids)
    {| ig_tenantId := dp_tenantId p; ig_caseId := dp_caseId p;
       ig_borrowerSubjectId := dp_borrowerSubjectId p; ig_providerId := ad_providerId a;
       ig_capability := dp_capability p; ig_purposeCode := dp_purposeCode p;
       ig_permittedDataClasses := dp_permittedDataClasses p;
       ig_permittedFields := dp_permittedFields p; ig_ttlMs := None;
       ig_consentRecordIds := [cr_id consent]; ig_permissiblePurposeDecisionId := decisionId |};
  intent ← prepare (di_intentId ids) (di_idempotencyKey ids)
    {| pp_tenantId := dp_tenantId p; pp_caseId := dp_caseId p;
       pp_providerId := ad_providerId a; pp_capability := dp_capability p;
       pp_effectClass := ad_effectClass a; pp_authorizationGrantId := gr_id grant;
       pp_logicalOperationKey := logical_key p;
       pp_requestPayloadForFingerprint := dp_request p |};
  match it_state (iv_row intent) with
  | SUCCEEDED =>
      match iv_normalizedFinding intent with
      | Some finding => mret finding
      | None => fail (ProviderIntentReplayBlocked SUCCEEDED)
      end
  | PREPARED => submit_prepared ids p a (gr_id grant) decisionId intent
  | st => fail (ProviderIntentReplayBlocked st)
  end.

Definition dispatchProviderRequest (registry : Registry) (ids : DispatchIds)
    (p : DispatchProviderRequestParams) : prog Dsl.value :=
  a ← pure (resolveAdapter registry (dp_capability p) (mode_of p));
  _ ← pure (assertNotStructurallyExcluded (ad_structurallyExcludedCommandClass a));
  let t : Tuple := (ad_providerId a, dp_capability p, mode_of p) in
  active ← atomically (gets (isActive t));
  if negb active then fail ProviderDisabled else
  activated ← (if bool_decide (mode_of p = SIMULATOR) then mret true
               else atomically (gets (isActivated t)));
  if negb activated then fail ProviderNotActivated else
  consent ← atomically (gets (activeRecordForPurpose (dp_tenantId p) (dp_caseId p)
              (dp_purposeCode p) (dp_permittedDataClasses p)));
  match consent with
  | None => fail ProviderConsentScope
  | Some consent => dispatch_authorized ids p a consent
  end.

End Service.
End Dispatch.
