(* ===== verification/ProviderTheorems.v ===== *)
(** * What the provider platform guarantees under concurrency

    Any number of dispatches, reconciliations, manual resolutions, key
    rotations, consent changes, disposition reviews and promotions run
    interleaved, statement by statement ([Threads.step]); handlers may crash
    at any point.  The first part shows that every statement keeps the
    invariant [Inv] and moves the database along [evolves]; the second that
    every handler is safe; the theorems follow. *)

From Stdlib Require Import Ascii.
From stdpp Require Import gmap strings list.
From S2P Require Import Prelude PolicyDsl PolicyDigest Concurrency ProviderTables Consent ProviderPlatform ProviderDispatch.

Module ProviderTheorems.
Import Threads Tables Consent Platform Dispatch.

(** ** How the database may change *)

Definition rank (st : ProviderOperationIntentStatus) : Z :=
  match st with
  | PREPARED => 0 | DISPATCHED => 1 | OUTCOME_UNKNOWN => 2 | RECONCILING => 3
  | SUCCEEDED | FAILED_FINAL | CANCELLED => 4
  end.

(** A state is kept or left for a later one; the last three are final. *)
Definition may_become (a b : ProviderOperationIntentStatus) : Prop := a = b \/ rank a < rank b.

Record same_intent (i j : ProviderOperationIntent) : Prop := {
  si_id : it_id j = it_id i;
  si_tenant : it_tenantId j = it_tenantId i;
  si_effect : effect_of j = effect_of i;
  si_case : it_caseId j = it_caseId i;
  si_class : it_effectClass j = it_effectClass i;
  si_fingerprint : it_requestFingerprint j = it_requestFingerprint i;
  si_key : it_idempotencyKey j = it_idempotencyKey i;
  si_state : may_become (it_state i) (it_state j);
  si_grant : it_state i <> PREPARED -> it_authorizationGrantId j = it_authorizationGrantId i }.

Record same_consent (c d : ConsentRecord) : Prop := {
  sc_tenant : cr_tenantId d = cr_tenantId c;
  sc_case : cr_caseId d = cr_caseId c;
  sc_purposes : cr_permittedPurposes d = cr_permittedPurposes c;
  sc_classes : cr_permittedDataClasses d = cr_permittedDataClasses c;
  sc_granted : cr_grantedAt d = cr_grantedAt c;
  sc_expires : cr_expiresAt d = cr_expiresAt c;
  sc_revoked : is_Some (cr_revokedAt c) -> is_Some (cr_revokedAt d) }.

Record evolves (s s' : Db) : Prop := {
  ev_clock : clock s <= clock s';
  ev_manifests : manifests s ⊆ manifests s';
  ev_certifications : certifications s ⊆ certifications s';
  ev_approvals : approvals s ⊆ approvals s';
  ev_intents : forall k i, intents s !! k = Some i ->
    exists j, intents s' !! k = Some j /\ same_intent i j;
  ev_consents : forall k c, consents s !! k = Some c ->
    exists d, consents s' !! k = Some d /\ same_consent c d }.

Lemma may_become_trans a b c : may_become a b -> may_become b c -> may_become a c.
Proof. unfold may_become. intros [->|?] [->|?]; auto. right. lia. Qed.

#[export] Instance same_intent_preorder : PreOrder same_intent.
Proof.
  split; [intros i; split; auto; by left|].
  intros i j l H1 H2. destruct H1, H2. split; try congruence.
  - by eapply may_become_trans.
  - intros Hi. rewrite si_grant1; [auto|]. intros Hj. rewrite Hj in si_state0.
    destruct si_state0 as [?|Hr]; [congruence|]. destruct (it_state i); simpl in Hr; lia.
Qed.

#[export] Instance same_consent_preorder : PreOrder same_consent.
Proof.
  split; [by intros c; split|]. intros c d e [] []. split; try congruence. auto.
Qed.

#[export] Instance evolves_preorder : PreOrder evolves.
Proof.
  split; [intros s; split; try done; intros k i Hi; by exists i|].
  intros s1 s2 s3 [] []. split; try (by etrans).
  - intros k i Hi. destruct (ev_intents0 k i Hi) as (j & Hj & ?).
    destruct (ev_intents1 k j Hj) as (l & Hl & ?). exists l. split; [done|by etrans].
  - intros k i Hi. destruct (ev_consents0 k i Hi) as (j & Hj & ?).
    destruct (ev_consents1 k j Hj) as (l & Hl & ?). exists l. split; [done|by etrans].
Qed.

(** ** The invariant *)

(** [t] went through the whole promotion chain with manifest [m]. *)
Definition governed_by (db : Db) (t : Tuple) (m : ProviderPromotionManifest) : Prop :=
  manifests db !! mf_id m = Some m /\ mf_tuple m = t /\
  excluded (mf_declaredCommandClass m) = false /\
  (exists k c, certifications db !! k = Some c /\ ce_manifestId c = mf_id m /\
     ce_decision c = PASSED) /\
  (exists k a, approvals db !! k = Some a /\ pr_manifestId a = mf_id m /\
     pr_decision a = APPROVED /\ pr_approvedBy a <> mf_proposedBy m).

Definition governed (db : Db) (t : Tuple) : Prop := exists m, governed_by db t m.

Record Inv (db : Db) : Prop := {
  inv_intent : forall k i, intents db !! k = Some i -> it_id i = k;
  inv_effect : forall k1 k2 i j, intents db !! k1 = Some i -> intents db !! k2 = Some j ->
    effect_of i = effect_of j -> k1 = k2;
  inv_manifest : forall k m, manifests db !! k = Some m ->
    mf_id m = k /\ excluded (mf_declaredCommandClass m) = false;
  inv_approval : forall k a m, approvals db !! k = Some a -> pr_decision a = APPROVED ->
    manifests db !! pr_manifestId a = Some m -> pr_approvedBy a <> mf_proposedBy m;
  inv_approved : forall k a, approvals db !! k = Some a ->
    is_Some (manifests db !! pr_manifestId a);
  inv_activation : forall t a, activations db !! t = Some a -> exists m,
    governed_by db t m /\ ac_manifestId a = mf_id m /\ ac_manifestVersion a = mf_version m }.

Lemma governed_by_evolves s s' t m : evolves s s' -> governed_by s t m -> governed_by s' t m.
Proof.
  intros [] (Hm & Ht & Hx & (k & c & Hc & ?) & k' & a & Ha & ?). split_and!; [|done|done| |].
  - by eapply lookup_weaken.
  - exists k, c. split; [by eapply lookup_weaken|done].
  - exists k', a. split; [by eapply lookup_weaken|done].
Qed.

Lemma governed_evolves s s' t : evolves s s' -> governed s t -> governed s' t.
Proof. intros He [m Hm]. exists m. by eapply governed_by_evolves. Qed.

(** *** Statements that leave the tracked tables alone *)

Record same_core (s s' : Db) : Prop := {
  co_clock : clock s' = clock s; co_manifests : manifests s' = manifests s;
  co_certifications : certifications s' = certifications s;
  co_approvals : approvals s' = approvals s; co_activations : activations s' = activations s;
  co_intents : intents s' = intents s; co_consents : consents s' = consents s }.

Notation harmless := (harmless (E := Failure) Inv evolves).

Lemma same_core_evolves s s' : same_core s s' -> evolves s s'.
Proof.
  intros []. split; rewrite ?co_clock0, ?co_manifests0, ?co_certifications0, ?co_approvals0,
    ?co_intents0, ?co_consents0; try done; intros k i Hi; by exists i.
Qed.

Lemma same_core_Inv s s' : same_core s s' -> Inv s -> Inv s'.
Proof.
  intros [] []. split; rewrite ?co_manifests0, ?co_approvals0, ?co_activations0, ?co_intents0;
    unfold governed_by; rewrite ?co_manifests0, ?co_certifications0, ?co_approvals0; done.
Qed.

Lemma harmless_core {A} (m : M Db Failure A) : (forall s, same_core s (m s).2) -> harmless m.
Proof. intros Hm s HI. split; [by eapply same_core_Inv|by apply same_core_evolves]. Qed.

Lemma harmless_gets {A} (f : Db -> A) : harmless (gets f).
Proof. by apply harmless_core. Qed.

Lemma harmless_find {A} (f : Db -> option A) e : harmless (x ← gets f; or_throw x e).
Proof.
  apply harmless_core. intros s. unfold mbind, M_bind, gets, or_throw. by destruct (f s).
Qed.

Lemma harmless_audit b e : harmless (audit b e).
Proof. apply harmless_core. intros s. unfold audit. by destruct b. Qed.

(** A new row in a table that is not tracked. *)
Lemma harmless_save_untracked {A} table write id (row : Z -> A) :
  (forall x s, same_core s (write x s)) ->
  harmless (now ← gets clock; save_new table write id (row now)).
Proof.
  intros Hw. apply harmless_core. intros s. unfold mbind at 1, M_bind at 1, gets at 1. simpl.
  destruct (save_new table write id (row (clock s)) s) as [[a|e] s'] eqn:E1; simpl.
  - apply save_new_Ok in E1 as (_ & _ & ->). apply Hw.
  - by apply save_new_Err in E1 as [_ ->].
Qed.

(** *** Updates of the intents *)

Definition intents_evolve (m m' : gmap string ProviderOperationIntent) : Prop := forall k,
  match m !! k, m' !! k with
  | Some i, Some j => same_intent i j
  | None, None => True
  | _, _ => False
  end.

Lemma intents_evolve_inv m m' k j :
  intents_evolve m m' -> m' !! k = Some j -> exists i, m !! k = Some i /\ same_intent i j.
Proof. intros H Hk. specialize (H k). rewrite Hk in H. destruct (m !! k); naive_solver. Qed.

#[export] Instance intents_evolve_preorder : PreOrder intents_evolve.
Proof.
  split.
  - intros m k. by destruct (m !! k).
  - intros m1 m2 m3 H1 H2 k. specialize (H1 k). specialize (H2 k).
    destruct (m1 !! k), (m2 !! k), (m3 !! k); try done. by etrans.
Qed.

Lemma intents_fmap f m : (forall i, same_intent i (f i)) -> intents_evolve m (f <$> m).
Proof. intros Hf k. rewrite lookup_fmap. destruct (m !! k); simpl; done. Qed.

Lemma intents_alter f id m :
  (forall i, m !! id = Some i -> same_intent i (f i)) -> intents_evolve m (alter f id m).
Proof.
  intros Hf k. destruct (decide (k = id)) as [->|Hne].
  - rewrite lookup_alter_eq. destruct (m !! id) eqn:Hk; simpl; auto.
  - rewrite lookup_alter_ne by done. by destruct (m !! k).
Qed.

Lemma intents_insert id i j m :
  m !! id = Some i -> same_intent i j -> intents_evolve m (<[id := j]> m).
Proof.
  intros Hi Hs k. destruct (decide (k = id)) as [->|Hne].
  - by rewrite Hi, lookup_insert_eq.
  - rewrite lookup_insert_ne by done. by destruct (m !! k).
Qed.

(** The rest of the tracked tables are as before. *)
Definition intents_only (s s' : Db) : Prop :=
  clock s' = clock s /\ manifests s' = manifests s /\ certifications s' = certifications s /\
  approvals s' = approvals s /\ activations s' = activations s /\ consents s' = consents s /\
  intents_evolve (intents s) (intents s').

Lemma intents_only_ok s s' : intents_only s s' -> Inv s -> Inv s' /\ evolves s s'.
Proof.
  intros (Ec & Em & Ecert & Ea & Eact & Econ & Hi) []. split.
  - split; unfold governed_by; rewrite ?Em, ?Ecert, ?Ea, ?Eact; try done.
    + intros k j Hj. destruct (intents_evolve_inv _ _ _ _ Hi Hj) as (i & Hk & Hs).
      rewrite (si_id _ _ Hs). eauto.
    + intros k1 k2 i j H1 H2 Hef.
      destruct (intents_evolve_inv _ _ _ _ Hi H1) as (i0 & Hk1 & Hs1).
      destruct (intents_evolve_inv _ _ _ _ Hi H2) as (j0 & Hk2 & Hs2).
      rewrite (si_effect _ _ Hs1), (si_effect _ _ Hs2) in Hef. eauto.
  - split; rewrite ?Ec, ?Em, ?Ecert, ?Ea, ?Econ; try done; [|intros k c Hc; by exists c].
    intros k i Hk. specialize (Hi k). rewrite Hk in Hi. destruct (intents s' !! k); naive_solver.
Qed.

Lemma harmless_intents {A} (m : M Db Failure A) :
  (forall s, Inv s -> intents_only s (m s).2) -> harmless m.
Proof. intros Hm s HI. apply intents_only_ok; auto. Qed.

Lemma intents_only_refl s : intents_only s s.
Proof. repeat split; done. Qed.

Lemma intents_only_with s m : intents_evolve (intents s) m -> intents_only s (with_intents m s).
Proof. intros Hm. repeat split; done. Qed.

Lemma it_update_same st g r f by_ note now i :
  may_become (it_state i) st -> (it_state i <> PREPARED -> g = it_authorizationGrantId i) ->
  same_intent i (it_update st g r f by_ note now i).
Proof. by split. Qed.

(** Runs a statement symbolically. *)
Ltac run_statement :=
  unfold mbind, M_bind, gets, modify, mret, M_ret, or_throw, guard_throw, throw, lift; simpl.

Lemma cas_intents t id from target set :
  (forall now i, state_in from (it_state i) = true -> same_intent i (set now i)) ->
  forall s, intents_only s (cas t id from target set s).2.
Proof.
  intros Hset s. unfold cas. run_statement.
  destruct (visible it_tenantId t (intents s !! id)) as [i|] eqn:Hi; [|apply intents_only_refl].
  destruct (state_in from (it_state i)) eqn:Hst; [|apply intents_only_refl].
  apply visible_Some in Hi as [Hi _]. apply intents_only_with. by eapply intents_insert; auto.
Qed.

Lemma harmless_cas t id from target set :
  (forall now i, state_in from (it_state i) = true -> same_intent i (set now i)) ->
  harmless (cas t id from target set).
Proof. intros Hset. apply harmless_intents. intros s _. by apply cas_intents. Qed.

(** Moving to a state of higher rank, from the states a CAS allows. *)
Lemma state_in_rank from i st : state_in from (it_state i) = true ->
  Forall (fun a => rank a < rank st) from -> may_become (it_state i) st.
Proof.
  intros Hin Hall. apply bool_decide_eq_true in Hin. rewrite Forall_forall in Hall.
  right. by apply Hall.
Qed.

Lemma set_state_same from st now i :
  Forall (fun a => rank a < rank st) from -> state_in from (it_state i) = true ->
  same_intent i (set_state st now i).
Proof. intros. apply it_update_same; [by eapply state_in_rank|done]. Qed.

Lemma harmless_transition t id from st :
  Forall (fun a => rank a < rank st) from ->
  harmless (cas t id from st (set_state st)).
Proof. intros. apply harmless_cas. intros. by eapply set_state_same. Qed.

Lemma harmless_failed enc iv t id r :
  harmless (cas t id [PREPARED; DISPATCHED] FAILED_FINAL (set_failed enc iv r)).
Proof.
  apply harmless_cas. intros now i Hi. apply it_update_same; [|done].
  eapply state_in_rank; [exact Hi|]. repeat constructor.
Qed.

Lemma harmless_succeeded enc iv1 iv2 t id r f :
  harmless (cas t id [DISPATCHED] SUCCEEDED (set_succeeded enc iv1 iv2 r f)).
Proof.
  apply harmless_cas. intros now i Hi. apply it_update_same; [|done].
  eapply state_in_rank; [exact Hi|]. repeat constructor.
Qed.

Lemma harmless_manual t id o by_ note :
  harmless (_ ← cas t id [OUTCOME_UNKNOWN; RECONCILING] (manual_state o) (set_manual o by_ note);
            i ← gets (fun db => intents db !! id); or_throw i EntityNotFound).
Proof.
  apply harmless_intents. intros s _.
  assert (intents_only s (cas t id [OUTCOME_UNKNOWN; RECONCILING] (manual_state o)
    (set_manual o by_ note) s).2) as Hc.
  { apply cas_intents. intros now i Hi. apply it_update_same; [|done].
    eapply state_in_rank; [exact Hi|]. destruct o; repeat constructor. }
  unfold mbind at 1, M_bind at 1. destruct (cas _ _ _ _ _ s) as [[u|e] s1]; simpl in *; [|done].
  run_statement. by destruct (intents s1 !! id).
Qed.

Lemma harmless_update_grant id g : harmless (update_grant id g).
Proof.
  apply harmless_intents. intros s _. apply intents_only_with, intents_alter. intros i _.
  case_bool_decide; [|done]. apply it_update_same; [by left|congruence].
Qed.

Lemma harmless_insert_intent newId key fp p : harmless (insert_intent newId key fp p).
Proof.
  intros s HI. unfold insert_intent. run_statement.
  destruct (find_effect (effect_of_input p) s) as [d|] eqn:Hd; simpl; [by split|].
  destruct (save_new intents with_intents newId (new_intent newId key fp p (clock s)) s)
    as [[a|e] s'] eqn:E1; simpl; [|by apply save_new_Err in E1 as [_ ->]].
  apply save_new_Ok in E1 as (Hnew & _ & ->).
  assert (forall k i, intents s !! k = Some i -> effect_of i <> effect_of_input p) as Hfresh.
  { intros k i Hi. pose proof (find_row_None _ _ _ _ Hd Hi) as Hb. by apply bool_decide_eq_false in Hb. }
  split.
  - destruct HI. split; try done; simpl.
    + intros k i [[<- <-]|[? ?]]%lookup_insert_Some; [done|eauto].
    + intros k1 k2 i j [[<- <-]|[? ?]]%lookup_insert_Some [[<- <-]|[? ?]]%lookup_insert_Some He;
        [done| | |eauto].
      * destruct (Hfresh k2 j); [done|]. by rewrite <- He.
      * by destruct (Hfresh k1 i).
  - split; try done; simpl; [|intros k c Hc; by exists c].
    intros k i Hi. exists i. split; [|done]. rewrite lookup_insert_ne; [done|]. intros ->. congruence.
Qed.

Lemma rotate_rows_intents enc dec isE iv1 iv2 rows s :
  intents_only s (rotate_rows enc dec isE iv1 iv2 rows s).2.
Proof.
  revert s. induction rows as [|i rows IH]; intros s; simpl; [apply intents_only_refl|].
  run_statement. destruct (rotate_row enc dec isE iv1 iv2 i) as [[f|]|e] eqn:Er; simpl;
    [| |apply intents_only_refl].
  - set (s1 := with_intents (alter (f (clock s)) (it_id i) (intents s)) s).
    assert (intents_only s s1) as H1.
    { apply intents_only_with, intents_alter. intros j _. unfold rotate_row in Er.
      apply rbind_Ok in Er as (r & _ & Er). apply rbind_Ok in Er as (g & _ & Er).
      unfold mret, result_ret in Er. injection Er as Er. case_match; simplify_eq.
      apply it_update_same; [by left|done]. }
    specialize (IH s1). destruct (rotate_rows enc dec isE iv1 iv2 rows s1) as [[n|e] s2];
      simpl in *; destruct H1 as (?&?&?&?&?&?&?), IH as (?&?&?&?&?&?&?);
      repeat split; try congruence; by etrans.
  - specialize (IH s). destruct (rotate_rows enc dec isE iv1 iv2 rows s) as [[n|e] s2]; done.
Qed.

Lemma harmless_rotate enc dec isE iv1 iv2 rows :
  harmless (transaction (rotate_rows enc dec isE iv1 iv2 rows)).
Proof.
  apply harmless_intents. intros s _. unfold transaction.
  pose proof (rotate_rows_intents enc dec isE iv1 iv2 rows s) as H.
  destruct (rotate_rows _ _ _ _ _ _ s) as [[n|e] s']; [done|apply intents_only_refl].
Qed.

Lemma dispose_intent_same now t actor ids i :
  same_intent i (dispose_intent now t actor ids i).
Proof.
  unfold dispose_intent, drop_payload, cancel_prepared.
  destruct (String.eqb _ _ && _); [|done]. case_bool_decide as Hp.
  - etrans; [|apply it_update_same; [by left|done]].
    apply it_update_same; [right; rewrite Hp; simpl; lia|done].
  - apply it_update_same; [by left|done].
Qed.

Lemma harmless_resolve_commit hours t actor action task :
  harmless (resolve_commit hours t actor action task).
Proof.
  apply harmless_intents. intros s _. unfold resolve_commit, transaction. run_statement.
  destruct (negb _ && existsb _ _); simpl; [apply intents_only_refl|].
  case_bool_decide; simpl; (destruct (alter _ _ _ !! _); simpl; [|apply intents_only_refl]).
  - repeat split; simpl; try done; reflexivity.
  - repeat split; try done; simpl. apply intents_fmap. intros i. apply dispose_intent_same.
Qed.

(** *** Consent *)

Definition consents_only (s s' : Db) : Prop :=
  clock s' = clock s /\ manifests s' = manifests s /\ certifications s' = certifications s /\
  approvals s' = approvals s /\ activations s' = activations s /\ intents s' = intents s /\
  forall k c, consents s !! k = Some c -> exists d, consents s' !! k = Some d /\ same_consent c d.

Lemma consents_only_ok s s' : consents_only s s' -> Inv s -> Inv s' /\ evolves s s'.
Proof.
  intros (Ec & Em & Ecert & Ea & Eact & Ei & Hc) []. split.
  - split; unfold governed_by; rewrite ?Em, ?Ecert, ?Ea, ?Eact, ?Ei; done.
  - split; rewrite ?Ec, ?Em, ?Ecert, ?Ea, ?Ei; try done. intros k i Hi. by exists i.
Qed.

Lemma harmless_grant newId t c purpose scope :
  harmless (now ← gets clock;
    save_new consents with_consents newId
      {| cr_id := newId; cr_tenantId := t; cr_caseId := c; cr_purpose := purpose;
         cr_scope := scope; cr_permittedPurposes := [purpose];
         cr_permittedDataClasses := scope_classes scope; cr_grantedAt := now;
         cr_expiresAt := None; cr_revokedAt := None; cr_revocationReason := None;
         cr_createdAt := now |}).
Proof.
  intros s HI. unfold mbind, M_bind, gets. simpl.
  destruct (save_new _ _ _ _ s) as [[a|e] s'] eqn:E1; simpl; [|by apply save_new_Err in E1 as [_ ->]].
  apply save_new_Ok in E1 as (Hnew & _ & ->). apply consents_only_ok; [|done].
  repeat split; try done. simpl. intros k d Hd. exists d. split; [|done].
  rewrite lookup_insert_ne; [done|]. intros ->. congruence.
Qed.

Lemma harmless_revoke_commit newId t c reason active evs its :
  harmless (revoke_commit newId t c reason active evs its).
Proof.
  intros s HI. unfold revoke_commit, transaction. run_statement.
  destruct (save_new tasks with_tasks newId _ _) as [[a|e] s'] eqn:E1; simpl; [|by split].
  apply save_new_Ok in E1 as (_ & _ & ->). simpl.
  destruct (alter _ _ _ !! _); simpl; [|by split]. apply consents_only_ok; [|done].
  repeat split; try done. simpl. intros k d Hd. destruct (decide (k = active)) as [->|Hne].
  - rewrite lookup_alter_eq, Hd. simpl. eexists. split; [done|]. by split.
  - rewrite lookup_alter_ne by done. by exists d.
Qed.

(** *** Promotion *)

Lemma harmless_save_manifest newId (row : Z -> ProviderPromotionManifest) :
  (forall now, mf_id (row now) = newId) ->
  (forall now, excluded (mf_declaredCommandClass (row now)) = false) ->
  harmless (now ← gets clock; save_new manifests with_manifests newId (row now)).
Proof.
  intros Hid Hx s HI. unfold mbind, M_bind, gets. simpl.
  destruct (save_new _ _ _ _ s) as [[a|e] s'] eqn:E1; simpl; [|by apply save_new_Err in E1 as [_ ->]].
  apply save_new_Ok in E1 as (Hnew & _ & ->).
  assert (evolves s (with_manifests (<[newId := row (clock s)]> (manifests s)) s)) as He.
  { split; simpl; try done; [by apply insert_subseteq| |]; intros k i Hi; by exists i. }
  split; [|done]. pose proof HI as []. split; try done; simpl.
  - intros k m [[<- <-]|[? ?]]%lookup_insert_Some; [by split|eauto].
  - intros k a0 m Ha Hd [[Hk <-]|[? ?]]%lookup_insert_Some; [|eauto].
    destruct (inv_approved0 k a0 Ha) as [m' Hm']. rewrite <- Hk in Hm'. congruence.
  - intros k a0 Ha. destruct (inv_approved0 k a0 Ha) as [m' Hm'].
    exists m'. rewrite lookup_insert_ne; [done|]. intros ->. congruence.
  - intros t a0 Ha. destruct (inv_activation0 t a0 Ha) as (m & Hg & ?). exists m.
    split; [by eapply governed_by_evolves|done].
Qed.

Lemma harmless_save_certification newId (row : Z -> ProviderCertificationRecord) :
  harmless (now ← gets clock; save_new certifications with_certifications newId (row now)).
Proof.
  intros s HI. unfold mbind, M_bind, gets. simpl.
  destruct (save_new _ _ _ _ s) as [[a|e] s'] eqn:E1; simpl; [|by apply save_new_Err in E1 as [_ ->]].
  apply save_new_Ok in E1 as (Hnew & _ & ->).
  assert (evolves s (with_certifications (<[newId := row (clock s)]> (certifications s)) s)) as He.
  { split; simpl; try done; [by apply insert_subseteq| |]; intros k i Hi; by exists i. }
  split; [|done]. pose proof HI as []. split; try done; simpl.
  intros t a0 Ha. destruct (inv_activation0 t a0 Ha) as (m & Hg & ?). exists m.
  split; [by eapply governed_by_evolves|done].
Qed.

(** The two conditions [approveManifest] checked when it read the manifest,
    which never changes. *)
Lemma save_approval_ok newId (row : Z -> ProviderApprovalRecord) m s :
  Inv s -> (forall now, pr_manifestId (row now) = mf_id m) -> manifests s !! mf_id m = Some m ->
  (forall now, pr_decision (row now) = APPROVED -> pr_approvedBy (row now) <> mf_proposedBy m) ->
  let s' := ((now ← gets clock; save_new approvals with_approvals newId (row now)) s).2 in
  Inv s' /\ evolves s s'.
Proof.
  intros HI Hid Hm Happ. unfold mbind, M_bind, gets. simpl.
  destruct (save_new _ _ _ _ s) as [[a|e] s'] eqn:E1; simpl; [|by apply save_new_Err in E1 as [_ ->]].
  apply save_new_Ok in E1 as (Hnew & _ & ->).
  assert (evolves s (with_approvals (<[newId := row (clock s)]> (approvals s)) s)) as He.
  { split; simpl; try done; [by apply insert_subseteq| |]; intros k i Hi; by exists i. }
  split; [|done]. pose proof HI as []. split; try done; simpl.
  - intros k a0 m0 [[<- <-]|[? ?]]%lookup_insert_Some Hd Hm0; [|eauto].
    rewrite Hid in Hm0. replace m0 with m by congruence. auto.
  - intros k a0 [[<- <-]|[? ?]]%lookup_insert_Some; [rewrite Hid|]; eauto.
  - intros t a0 Ha. destruct (inv_activation0 t a0 Ha) as (m0 & Hg & ?). exists m0.
    split; [by eapply governed_by_evolves|done].
Qed.

(** Writing an activation row for a governed manifest. *)
Lemma activations_ok s t row m :
  Inv s -> governed_by s t m -> ac_manifestId row = mf_id m -> ac_manifestVersion row = mf_version m ->
  let s' := with_activations (<[t := row]> (activations s)) s in Inv s' /\ evolves s s'.
Proof.
  intros HI Hg Hid Hv. assert (evolves s (with_activations (<[t := row]> (activations s)) s)) as He.
  { split; simpl; try done; intros k i Hi; by exists i. }
  split; [|done]. pose proof HI as []. split; try done; simpl.
  intros t0 a0 [[<- <-]|[? Ha]]%lookup_insert_Some.
  - exists m. split; [by eapply governed_by_evolves|done].
  - destruct (inv_activation0 t0 a0 Ha) as (m0 & Hg0 & ?). exists m0.
    split; [by eapply governed_by_evolves|done].
Qed.

Lemma save_activation_ok newId existing m by_ s :
  Inv s -> governed_by s (mf_tuple m) m ->
  Inv (save_activation newId existing m by_ s).2 /\
  evolves s (save_activation newId existing m by_ s).2.
Proof.
  intros HI Hg. unfold save_activation. run_statement.
  destruct (_ && _); simpl; [by split|]. by eapply activations_ok.
Qed.

Lemma harmless_deactivate t actor :
  harmless (now ← gets clock;
    modify (fun db => with_activations (alter (ac_deactivated now actor) t (activations db)) db)).
Proof.
  intros s HI. run_statement. destruct (activations s !! t) as [a|] eqn:Ha.
  - replace (alter (ac_deactivated (clock s) actor) t (activations s))
      with (<[t := ac_deactivated (clock s) actor a]> (activations s)).
    + destruct (inv_activation _ HI t a Ha) as (m & Hg & Hi & Hv). by eapply activations_ok.
    + apply map_eq. intros k. destruct (decide (k = t)) as [->|Hne].
      * by rewrite lookup_insert_eq, lookup_alter_eq, Ha.
      * by rewrite lookup_insert_ne, lookup_alter_ne.
  - replace (alter (ac_deactivated (clock s) actor) t (activations s)) with (activations s).
    + split; [by eapply same_core_Inv; [|done]|by apply same_core_evolves].
    + apply map_eq. intros k. destruct (decide (k = t)) as [->|Hne].
      * by rewrite lookup_alter_eq, Ha.
      * by rewrite lookup_alter_ne.
Qed.

(** *** Tables that are not tracked *)

Lemma harmless_modify_untracked (f : Db -> Db -> Db) :
  (forall s, same_core s (f s s)) -> harmless (modify (fun s => f s s)).
Proof. intros Hf. apply harmless_core. intros s. apply Hf. Qed.

Lemma harmless_upsert (existing : option ProviderAdapterStatus) t (row : Z -> ProviderAdapterStatus) :
  harmless (taken ← gets (fun db => statuses db !! t);
    _ ← guard_throw (bool_decide (existing = None) && bool_decide (is_Some taken)) UniqueViolation;
    now ← gets clock;
    modify (fun db => with_statuses (<[t := row now]> (statuses db)) db)).
Proof. apply harmless_core. intros s. run_statement. by destruct (_ && _). Qed.

Lemma harmless_release_hold id by_ :
  harmless (now ← gets clock;
    _ ← modify (fun db => with_holds (alter (lh_release now by_) id (holds db)) db);
    h ← gets (fun db => holds db !! id); or_throw h EntityNotFound).
Proof. apply harmless_core. intros s. run_statement. by destruct (alter _ _ _ !! _). Qed.

Lemma harmless_place id (row : Z -> LegalHold) :
  harmless (now ← gets clock; save_new holds with_holds id (row now)).
Proof. by apply harmless_save_untracked. Qed.

Lemma harmless_verify id f :
  harmless (_ ← modify (fun db => with_tasks (alter f id (tasks db)) db);
    t ← gets (fun db => tasks db !! id); or_throw t EntityNotFound).
Proof. apply harmless_core. intros s. run_statement. by destruct (alter _ _ _ !! _). Qed.

Lemma harmless_revoke_grant id f :
  harmless (now ← gets clock;
    modify (fun db => with_grants (alter (f now) id (grants db)) db)).
Proof. by apply harmless_core. Qed.

(** ** Handlers *)

Definition taken (s : Db) (t : string) : Prop :=
  exists i, intents s !! t = Some i /\ it_state i <> PREPARED.

Definition token (q : Submission) : string := it_id (iv_row (su_intent q)).

(** A submission is for an intent on record, under a grant for the same
    tenant, case, provider and capability, and outside the simulator for a
    provider that was promoted. *)
Definition permitted (s : Db) (q : Submission) : Prop :=
  let row := iv_row (su_intent q) in let g := su_grant q in
  (exists i, intents s !! token q = Some i /\ same_intent row i) /\
  gr_tenantId g = it_tenantId row /\ gr_caseId g = it_caseId row /\
  gr_providerId g = it_providerId row /\ gr_capability g = it_capability row /\
  (su_mode q <> SIMULATOR -> governed s (it_providerId row, it_capability row, su_mode q)).

Lemma taken_stable s s' t : evolves s s' -> taken s t -> taken s' t.
Proof.
  intros He (i & Hi & Hst). destruct (ev_intents _ _ He t i Hi) as (j & Hj & Hs).
  exists j. split; [done|]. intros Hp. pose proof (si_state _ _ Hs) as [E1|Hr]; [congruence|].
  rewrite Hp in Hr. destruct (it_state i); simpl in Hr; lia.
Qed.

Lemma permitted_stable s s' q : evolves s s' -> permitted s q -> permitted s' q.
Proof.
  intros He ((i & Hi & Hs) & ? & ? & ? & ? & Hg). split_and!; try done.
  - destruct (ev_intents _ _ He _ i Hi) as (j & Hj & Hs'). exists j. split; [done|by etrans].
  - intros Hm. eapply governed_evolves; eauto.
Qed.

Notation safe := (safe (E := Failure) (R := ProviderAnswer) Inv evolves taken token permitted).
Notation quiet := (quiet (E := Failure) (R := ProviderAnswer) Inv evolves taken token permitted).

Create HintDb harmless.
#[export] Hint Resolve harmless_gets harmless_find harmless_audit harmless_failed
  harmless_succeeded harmless_manual harmless_update_grant harmless_insert_intent
  harmless_rotate harmless_resolve_commit harmless_grant harmless_revoke_commit
  harmless_deactivate harmless_upsert harmless_release_hold harmless_place harmless_verify
  harmless_revoke_grant harmless_save_certification : harmless.

Notation q_bind := (quiet_bind Inv evolves taken token permitted).
Notation q_catch := (quiet_catch Inv evolves taken token permitted).
Notation q_atomically := (quiet_atomically Inv evolves taken token permitted).
Notation q_check := (quiet_check Inv evolves taken token permitted).
Notation q_done := (quiet_done Inv evolves taken token permitted).

(** Walks through a handler that neither claims nor calls. *)
Ltac quiet_steps :=
  repeat first
    [ apply q_bind; [|intros ?]
    | apply q_catch; [|intros ?]
    | apply q_atomically; [auto with harmless]
    | apply q_done
    | match goal with
      | |- context [if ?b then _ else _] => destruct b
      | |- context [match ?x with _ => _ end] => destruct x
      end ].

Section Handlers.
Context (encrypt : string -> string -> Dsl.value -> Dsl.value).
Context (decrypt : string -> Dsl.value -> option Dsl.value).
Context (isEnvelope : Dsl.value -> bool) (sha256 : Dsl.value -> string).
Context (parse_date : string -> option Z).
Context (safeParse : ProviderCapability -> Dsl.value -> option Dsl.value).
Context (registry : Registry) (retentionHours : Z).

Lemma markFailedFinal_quiet iv t id r : quiet (markFailedFinal encrypt iv t id r).
Proof using. unfold markFailedFinal. quiet_steps. Qed.

Lemma markOutcomeUnknown_quiet t id : quiet (markOutcomeUnknown t id).
Proof using. apply q_atomically, harmless_transition. repeat constructor. Qed.

Lemma markReconciling_quiet t id : quiet (markReconciling t id).
Proof using. apply q_atomically, harmless_transition. repeat constructor. Qed.

Lemma reconcile_quiet ms now : quiet (reconcilePendingIntents ms now).
Proof using.
  unfold reconcilePendingIntents. apply q_bind; [quiet_steps|]. intros rows.
  apply q_bind; [|intros ?; apply q_done].
  induction rows as [|i rows IH]; cbn [reconcile_rows]; [apply q_done|].
  apply q_bind; [|intros n; apply q_bind; [done|intros ?; apply q_done]].
  apply q_catch; [|intros ?; apply q_done].
  apply q_bind; [apply markReconciling_quiet|intros ?; apply q_done].
Qed.

Lemma rotate_quiet iv1 iv2 : quiet (rotateSensitivePayloadEncryption encrypt decrypt isEnvelope iv1 iv2).
Proof using. unfold rotateSensitivePayloadEncryption. quiet_steps. Qed.

Lemma revoke_quiet id t c r : quiet (revoke id t c r).
Proof using. unfold revoke. quiet_steps. Qed.

Lemma place_quiet b id t c r o : quiet (place b id t c r o).
Proof using. unfold place. quiet_steps. Qed.

Lemma releaseHold_quiet b t id by_ : quiet (releaseHold b t id by_).
Proof using. unfold releaseHold. quiet_steps. Qed.

Lemma resolve_quiet b t id a by_ : quiet (resolve retentionHours b t id a by_).
Proof using. unfold resolve. quiet_steps. Qed.

Lemma verify_quiet b t id by_ r now : quiet (verifyBackupExpiry b t id by_ r now).
Proof using. unfold verifyBackupExpiry. quiet_steps. Qed.

Lemma upsert_quiet id t st r by_ : quiet (upsert id t st r by_).
Proof using. unfold upsert. quiet_steps. Qed.

Lemma propose_quiet b id i : quiet (proposeManifest sha256 b id i).
Proof using.
  unfold proposeManifest, pure, assertNotStructurallyExcluded.
  apply q_check. intros u Hok. destruct (excluded (pi_declaredCommandClass i)) eqn:Hx; [done|].
  apply q_bind; [quiet_steps|]. intros latest.
  apply q_bind; [|intros m; unfold platform_audit; quiet_steps].
  apply q_atomically. by apply harmless_save_manifest.
Qed.

Lemma certify_quiet b id m e by_ d ref x : quiet (certify b id m e by_ d ref x).
Proof using. unfold certify, find_manifest, platform_audit. quiet_steps. Qed.

Lemma deactivate_quiet b t by_ : quiet (deactivate b t by_).
Proof using. unfold deactivate, platform_audit. quiet_steps. Qed.

(** The row that was read is still there when the next statement runs. *)
Lemma find_manifest_safe id h s :
  safe (fun r h' s' => h' = h /\ forall m, r = Ok m -> manifests s' !! mf_id m = Some m /\ mf_id m = id)
    h (find_manifest id) s.
Proof using.
  apply safe_atomically; [apply harmless_find|]. intros s' He HI. split; [done|].
  run_statement. destruct (manifests s' !! id) as [m|] eqn:Hm; simpl; intros m' Hm'; simplify_eq.
  destruct (inv_manifest _ HI id m' Hm) as [<- _]. done.
Qed.

Lemma approve_safe b id m role by_ d x s :
  safe anything None (approveManifest b id m role by_ d x) s.
Proof using.
  apply safe_bind. eapply safe_mono; [|apply find_manifest_safe].
  intros [mf|e] h s1 [-> Hm]; [|done]. destruct (Hm mf eq_refl) as [Hm1 <-].
  destruct (bool_decide (d = APPROVED) && String.eqb (mf_proposedBy mf) by_) eqn:Hself; [done|].
  apply safe_bind. intros s2 He2 HI2.
  assert (manifests s2 !! mf_id mf = Some mf) as Hm2 by (eapply lookup_weaken; [done|apply He2]).
  edestruct (save_approval_ok id (fun now =>
    {| pr_id := id; pr_manifestId := mf_id mf; pr_approvalRole := role; pr_approvedBy := by_;
       pr_decision := d; pr_decidedAt := now; pr_expiresAt := x |}) mf s2) as [HI3 He3]; [done..| |].
  { simpl. intros _ ->. rewrite bool_decide_eq_true_2 in Hself by done. simpl in Hself.
    apply String.eqb_neq in Hself. auto. }
  split; [exact HI3|]. split; [exact He3|]. exists None. split; [by left|].
  cbn [safe]. case_match; [|done]. eapply quiet_safe; [|done]. unfold platform_audit. quiet_steps.
Qed.

Lemma current_certification_Some mid env s c :
  current_certification mid env s = Some c ->
  exists k, certifications s !! k = Some c /\ ce_manifestId c = mid /\ ce_decision c = PASSED /\
    expired_lt (clock s) (ce_expiresAt c) = false.
Proof using.
  unfold current_certification. destruct (latest_certification mid env s) as [c'|] eqn:El; [|done].
  destruct (_ || _) eqn:Ho; [done|]. intros [= ->].
  apply newest_Some in El as [Hin _]. apply elem_find_rows in Hin as [Hp [k Hk]].
  bsplit. exists k. split_and!; try done.
Qed.

Lemma current_approval_Some mid s a :
  current_approval mid s = Some a ->
  exists k, approvals s !! k = Some a /\ pr_manifestId a = mid /\ pr_decision a = APPROVED /\
    expired_lt (clock s) (pr_expiresAt a) = false.
Proof using.
  unfold current_approval. destruct (latest_approval mid s) as [a'|] eqn:El; [|done].
  destruct (_ || _) eqn:Ho; [done|]. intros [= ->].
  apply newest_Some in El as [Hin _]. apply elem_find_rows in Hin as [Hp [k Hk]].
  bsplit. exists k. split_and!; try done.
Qed.

Lemma activate_safe b id m env by_ v s :
  safe anything None (activateManifest b id m env by_ v) s.
Proof using.
  apply safe_bind. eapply safe_mono; [|apply find_manifest_safe].
  intros [mf|e] h s1 [-> Hm]; [|done]. destruct (Hm mf eq_refl) as [Hm1 <-]. clear Hm.
  apply (safe_gets_bind _ _ _ _ _). intros s2 He2 HI2.
  destruct (current_certification (mf_id mf) env s2) as [c|] eqn:Hc; [|done].
  apply current_certification_Some in Hc as (kc & Hkc & Hcm & Hcd & _).
  apply (safe_gets_bind _ _ _ _ _). intros s3 He3 HI3.
  destruct (current_approval (mf_id mf) s3) as [a|] eqn:Ha; [|done].
  apply current_approval_Some in Ha as (ka & Hka & Ham & Had & _).
  apply (safe_gets_bind _ _ _ _ _). intros s4 He4 HI4.
  destruct (negb _); [done|]. apply safe_bind. intros s5 He5 HI5.
  assert (governed_by s5 (mf_tuple mf) mf) as Hg.
  { apply (governed_by_evolves s3); [by etrans|].
    assert (manifests s3 !! mf_id mf = Some mf) as Hm3.
    { eapply lookup_weaken; [exact Hm1|]. apply (ev_manifests s1 s3). by etrans. }
    split_and!; [done|done|exact (proj2 (inv_manifest _ HI3 _ _ Hm3))| |].
    - exists kc, c. split; [|done]. eapply lookup_weaken; [exact Hkc|apply He3].
    - exists ka, a. split_and!; try done. by apply (inv_approval _ HI3 ka a mf); [| |rewrite Ham]. }
  destruct (save_activation_ok id (activations s4 !! mf_tuple mf) mf by_ s5 HI5 Hg) as [HI6 He6].
  split; [exact HI6|]. split; [exact He6|]. exists None. split; [by left|].
  cbn [safe]. case_match; [|done]. eapply quiet_safe; [|done]. unfold platform_audit. quiet_steps.
Qed.

(** *** Dispatch *)

Definition on_record (i : ProviderOperationIntent) (s : Db) : Prop :=
  exists j, intents s !! it_id i = Some j /\ same_intent i j.

Lemma on_record_evolves i s s' : evolves s s' -> on_record i s -> on_record i s'.
Proof using.
  intros He (j & Hj & Hs). destruct (ev_intents _ _ He _ j Hj) as (l & Hl & ?).
  exists l. split; [done|by etrans].
Qed.

Lemma prepare_row_safe id key p h s :
  safe (fun r h' s' => h' = h /\ evolves s s' /\ forall i, r = Ok i ->
          on_record i s' /\ effect_of i = effect_of_input p /\ it_caseId i = pp_caseId p)
    h (prepare_row sha256 id key p) s.
Proof using.
  unfold prepare_row. apply safe_gets_bind; [exact _|]. intros s1 He1 HI1.
  destruct (find_effect (effect_of_input p) s1) as [i|] eqn:Hf.
  - apply find_row_Some in Hf as [He [k Hk]]. apply bool_decide_eq_true in He.
    pose proof (inv_intent _ HI1 k i Hk) as <-.
    destruct (_ || _) eqn:Hsame; [by split_and!|]. bsplit.
    destruct (bool_decide (it_state i = PREPARED)) eqn:Hp; simpl in Hp; apply bool_decide_eq_true in Hp ||
      apply bool_decide_eq_false in Hp.
    + apply safe_quiet_bind.
      * apply q_atomically, harmless_update_grant.
      * intros _ s2 He2. simpl. split_and!; [done|by etrans|]. intros i' [= <-]. split_and!; [|done|done].
        destruct (ev_intents _ _ He2 _ i Hk) as (j & Hj & []). exists j. split; [done|].
        by split.
      * intros e s2 He2. split_and!; [done|by etrans|done].
    + split_and!; [done..|]. intros i' [= <-]. split_and!; [by exists i|done|done].
  - apply safe_catch, safe_atomically; [apply harmless_insert_intent|].
    intros s2 He2 HI2. unfold insert_intent. run_statement.
    destruct (find_effect (effect_of_input p) s2); simpl; [split_and!; [done|by etrans|done]|].
    destruct (save_new _ _ _ _ s2) as [[a|e] s3] eqn:E1; simpl.
    + apply save_new_Ok in E1 as (Hnew & -> & ->). split_and!; [done| |].
      * etrans; [exact He1|]. etrans; [exact He2|]. split; simpl; try done; [|intros k c Hc; by exists c].
        intros k i Hi. exists i. split; [|done]. rewrite lookup_insert_ne; [done|]. intros ->. congruence.
      * intros i [= <-]. split_and!; [|done|done]. eexists. split; [apply lookup_insert_eq|done].
    + apply save_new_Err in E1 as [-> ->]. simpl. split_and!; [done|by etrans|done].
Qed.

Lemma check_consents_quiet g ids : quiet (check_consents g ids).
Proof using.
  induction ids as [|id ids IH]; cbn [check_consents]; [apply q_done|].
  apply q_bind; [quiet_steps|]. intros []; [done|apply q_done].
Qed.

Definition matches (g : ProviderAuthorizationGrant) (e : Expected) : Prop :=
  gr_tenantId g = ex_tenantId e /\ gr_caseId g = ex_caseId e /\
  gr_providerId g = ex_providerId e /\ gr_capability g = ex_capability e.

Lemma check_grant_matches g e now : check_grant g e now = None -> matches g e.
Proof using.
  unfold check_grant. destruct (_ || _) eqn:Hm; [done|]. intros _. by bsplit.
Qed.

Lemma revalidate_safe id e h s :
  safe (fun r h' s' => h' = h /\ evolves s s' /\ forall g, r = Ok (Valid g) -> matches g e)
    h (revalidate id e) s.
Proof using.
  apply safe_gets_bind; [exact _|]. intros s1 He1 HI1.
  destruct (visible gr_tenantId (ex_tenantId e) (grants s1 !! id)) as [g|]; [|by split_and!].
  destruct (check_grant g e (clock s1)) eqn:Hc; [by split_and!|].
  apply safe_quiet_bind; [apply check_consents_quiet| |].
  - intros [bad|] s2 He2; simpl; split_and!; try done; try (by etrans).
    intros g' [= <-]. by eapply check_grant_matches.
  - intros er s2 He2. split_and!; [done|by etrans|done].
Qed.

(** Winning the compare-and-swap is what claims the intent. *)
Lemma markDispatched_safe t id s :
  safe (fun r h s' => evolves s s' /\ match r with Ok _ => h = Some id | Err _ => h = None end)
    None (markDispatched t id) s.
Proof using.
  intros s1 He1 HI1.
  destruct (harmless_transition t id [PREPARED] DISPATCHED ltac:(repeat constructor) s1 HI1) as [HI2 He2].
  split; [exact HI2|]. split; [exact He2|].
  destruct (cas t id [PREPARED] DISPATCHED (set_state DISPATCHED) s1) as [[u|e] s2] eqn:Ec;
    simpl in He2 |- *.
  - exists (Some id). split; [|split; [by etrans|done]]. right. split; [done|]. exists id. split; [done|].
    unfold cas in Ec. revert Ec. run_statement.
    destruct (visible it_tenantId t (intents s1 !! id)) as [i|] eqn:Hi; [|done].
    apply visible_Some in Hi as [Hi _].
    destruct (state_in [PREPARED] (it_state i)) eqn:Hst; [|done]. intros [= <- <-].
    apply bool_decide_eq_true, list_elem_of_singleton in Hst. split.
    + intros (i' & Hi' & Hne). congruence.
    + eexists. simpl. rewrite lookup_insert_eq. split; [done|]. done.
  - exists None. split; [by left|]. split; [by etrans|done].
Qed.

Lemma record_receipt_quiet ids p a i g payload at_ :
  quiet (record_receipt encrypt parse_date safeParse ids p a i g payload at_).
Proof using. unfold record_receipt, markSucceeded. quiet_steps. Qed.

Lemma submit_safe ids p a v g s :
  permitted s {| su_mode := mode_of p; su_request := dp_request p; su_intent := v; su_grant := g;
                 su_tenantId := dp_tenantId p; su_caseId := dp_caseId p |} ->
  safe anything (Some (it_id (iv_row v))) (submit encrypt parse_date safeParse ids p a v g) s.
Proof using.
  intros Hp. unfold submit. apply safe_bind. intros s1 He1 HI1.
  split; [done|]. split; [by eapply permitted_stable|]. intros [payload at_| |]; cbn [Threads.safe].
  - eapply quiet_safe; [apply record_receipt_quiet|done].
  - eapply quiet_safe; [|done]. unfold markFailedFinal. quiet_steps.
  - eapply quiet_safe; [|done]. apply q_bind; [apply markOutcomeUnknown_quiet|]. intros ?. apply q_done.
Qed.

(** What the earlier steps of a dispatch know about its intent. *)
Definition ready (p : DispatchProviderRequestParams) (a : ProviderAdapter) (v : IntentValue) (s : Db) : Prop :=
  let i := iv_row v in
  on_record i s /\ it_tenantId i = dp_tenantId p /\ it_caseId i = dp_caseId p /\
  it_providerId i = ad_providerId a /\ it_capability i = dp_capability p /\
  (mode_of p <> SIMULATOR -> governed s (ad_providerId a, dp_capability p, mode_of p)).

Lemma ready_evolves p a v s s' : evolves s s' -> ready p a v s -> ready p a v s'.
Proof using.
  intros He (H1 & ? & ? & ? & ? & Hg). split_and!; try done; [by eapply on_record_evolves|].
  intros Hm. eapply governed_evolves; eauto.
Qed.

Lemma submit_prepared_safe ids p a gid d v s :
  ready p a v s ->
  safe anything None (submit_prepared encrypt parse_date safeParse ids p a gid d v) s.
Proof using.
  intros Hr. unfold submit_prepared. apply safe_bind. eapply safe_mono; [|apply revalidate_safe].
  intros [[g|reason]|e] h s1 (-> & He1 & Hg); [| |done].
  - specialize (Hg g eq_refl). apply safe_quiet_bind; [|intros bad s2 He2|done].
    { destruct (truthy_id d); [quiet_steps|apply q_done]. }
    destruct bad as [reason|].
    + eapply quiet_safe; [|done]. unfold markFailedFinal. quiet_steps.
    + apply safe_bind. eapply safe_mono; [|apply markDispatched_safe].
      intros [u|e] h s3 [He3 ->]; [|done]. apply submit_safe.
      assert (ready p a v s3) as (Hon & Et & Ec & Ep & Ecap & Hgov).
      { eapply ready_evolves; [|exact Hr]. etrans; [exact He1|by etrans]. }
      destruct Hg as (? & ? & ? & ?). simpl in *.
      split_and!; simpl; try congruence; [exact Hon|]. by rewrite Ep, Ecap.
  - eapply quiet_safe; [|done]. unfold markFailedFinal. quiet_steps.
Qed.

Lemma purpose_gate_quiet id p : quiet (purpose_gate id p).
Proof using.
  unfold purpose_gate, issueSynthetic.
  destruct (negb (bool_decide (dp_capability p = CREDIT))); [apply q_done|].
  apply q_bind.
  - destruct (truthy_id _); [apply q_done|]. case_bool_decide; [|apply q_done].
    apply q_bind; [|intros ?; apply q_done]. destruct (_ || _); [apply q_done|].
    apply q_bind; [|intros ?; apply q_done]. apply q_atomically.
    apply (harmless_save_untracked decisions with_decisions id (fun now => _)). by split.
  - intros [i|]; [|apply q_done]. quiet_steps.
Qed.

Lemma issue_quiet id i : quiet (issue id i).
Proof using.
  apply q_atomically. apply (harmless_save_untracked grants with_grants id (fun now => _)). by split.
Qed.

Lemma dispatch_authorized_safe ids p a c s :
  (mode_of p <> SIMULATOR -> governed s (ad_providerId a, dp_capability p, mode_of p)) ->
  safe anything None (dispatch_authorized encrypt decrypt sha256 parse_date safeParse ids p a c) s.
Proof using.
  intros Hg. unfold dispatch_authorized.
  apply safe_quiet_bind; [apply purpose_gate_quiet| |done]. intros d s1 He1.
  apply safe_quiet_bind; [apply issue_quiet| |done]. intros gr s2 He2.
  unfold prepare. apply safe_bind, safe_bind. eapply safe_mono; [|apply prepare_row_safe].
  intros [i|e] h s3 (-> & He3 & Hi); [|done]. destruct (Hi i eq_refl) as (Hon & Heff & Hcase).
  unfold pure. cbn [Threads.safe]. destruct (toIntentValue decrypt i) as [v|e] eqn:Hv; [|done].
  assert (iv_row v = i) as Hrow.
  { unfold toIntentValue in Hv. apply rbind_Ok in Hv as (? & _ & Hv).
    apply rbind_Ok in Hv as (? & _ & Hv). unfold mret, result_ret in Hv. by injection Hv as <-. }
  assert (ready p a v s3) as Hready.
  { unfold ready. rewrite Hrow. unfold effect_of, effect_of_input in Heff. simpl in Heff, Hcase.
    injection Heff as ? ? ? ?. split_and!; try done.
    intros Hm. eapply governed_evolves; [|by apply Hg]. etrans; [exact He1|by etrans]. }
  destruct (it_state (iv_row v)); try done.
  - by apply submit_prepared_safe.
  - by destruct (iv_normalizedFinding v).
Qed.

Lemma isActivated_governed t s : Inv s -> isActivated t s = true -> governed s t.
Proof using.
  intros HI. unfold isActivated. destruct (activations s !! t) as [a|] eqn:Ha; [|done].
  intros _. destruct (inv_activation _ HI t a Ha) as (m & Hm & _). by exists m.
Qed.

Lemma dispatch_safe ids p s :
  safe anything None
    (dispatchProviderRequest encrypt decrypt sha256 parse_date safeParse registry ids p) s.
Proof using.
  unfold dispatchProviderRequest, pure. apply safe_check; [|done]. intros a _.
  apply safe_check; [|done]. intros _ _.
  apply safe_gets_bind; [exact _|]. intros s1 He1 HI1. destruct (isActive _ s1); [|done].
  apply safe_bind. eapply (safe_mono _ _ _ _ _
    (fun r h s' => h = None /\ (r = Ok true -> mode_of p <> SIMULATOR ->
       governed s' (ad_providerId a, dp_capability p, mode_of p)))).
  - intros [[]|e] h s2 [-> Hg]; [|done..]. cbn [negb].
    apply safe_gets_bind; [exact _|]. intros s3 He3 HI3.
    destruct (activeRecordForPurpose _ _ _ _ s3) as [c|]; [|done].
    apply dispatch_authorized_safe. intros Hm. eapply governed_evolves; [exact He3|auto].
  - case_bool_decide as Hm; [by split|]. apply safe_atomically; [apply harmless_gets|].
    intros s2 He2 HI2. split; [done|]. intros Hok _. simpl in Hok. injection Hok as Hok.
    by apply isActivated_governed.
Qed.

(** ** All requests of the platform *)

Inductive Op :=
| OpDispatch (ids : DispatchIds) (p : DispatchProviderRequestParams)
| OpReconcile (staleAfterMs : Z) (now : option Z)
| OpResolveManually (tenantId id : string) (o : ManualOutcome) (by_ note : string)
| OpRotate (iv1 iv2 : string)
| OpGrant (newId tenantId caseId purpose scope : string)
| OpRevoke (newId tenantId caseId : string) (reason : option string)
| OpPlaceHold (audited : bool) (newId tenantId caseId reason ownerId : string)
| OpReleaseHold (audited : bool) (tenantId holdId by_ : string)
| OpResolveTask (audited : bool) (tenantId taskId : string)
    (action : DataDispositionResolutionAction) (by_ : string)
| OpVerifyBackup (audited : bool) (tenantId taskId by_ reference : string) (now : Z)
| OpDisable (newId : string) (t : Tuple) (reason by_ : string)
| OpEnable (newId : string) (t : Tuple) (by_ : string)
| OpPropose (audited : bool) (newId : string) (i : ProposeManifestInput)
| OpCertify (audited : bool) (newId manifestId environment by_ : string)
    (d : ProviderCertificationDecision) (evidenceRef : string) (expiresAt : option Z)
| OpApprove (audited : bool) (newId manifestId role by_ : string)
    (d : ProviderApprovalDecision) (expiresAt : option Z)
| OpActivate (audited : bool) (newId manifestId environment by_ : string) (expected : option Z)
| OpDeactivate (audited : bool) (t : Tuple) (by_ : string)
| OpRevokeGrant (tenantId grantId : string).

(** The reply of a request is dropped. *)
Definition ignore {A} (p : prog A) : prog unit := p ≫= fun _ => mret tt.

Definition handler (op : Op) : prog unit :=
  match op with
  | OpDispatch ids p =>
      ignore (dispatchProviderRequest encrypt decrypt sha256 parse_date safeParse registry ids p)
  | OpReconcile ms now => ignore (reconcilePendingIntents ms now)
  | OpResolveManually t id o b n => ignore (resolveManually t id o b n)
  | OpRotate iv1 iv2 => ignore (rotateSensitivePayloadEncryption encrypt decrypt isEnvelope iv1 iv2)
  | OpGrant id t c p sc => ignore (grantForCase id t c p sc)
  | OpRevoke id t c r => ignore (revoke id t c r)
  | OpPlaceHold a id t c r o => ignore (place a id t c r o)
  | OpReleaseHold a t id b => ignore (releaseHold a t id b)
  | OpResolveTask a t id act b => ignore (resolve retentionHours a t id act b)
  | OpVerifyBackup a t id b r now => ignore (verifyBackupExpiry a t id b r now)
  | OpDisable id t r b => disable id t r b
  | OpEnable id t b => enable id t b
  | OpPropose a id i => ignore (proposeManifest sha256 a id i)
  | OpCertify a id m e b d r x => ignore (certify a id m e b d r x)
  | OpApprove a id m r b d x => ignore (approveManifest a id m r b d x)
  | OpActivate a id m e b v => ignore (activateManifest a id m e b v)
  | OpDeactivate a t b => ignore (deactivate a t b)
  | OpRevokeGrant t id => revokeGrant t id
  end.

(** Time passes; evidence is written by other components. *)
Definition elapse (s s' : Db) : Prop :=
  exists t es, clock s <= t /\ s' = with_evidence es (with_clock t s).

Lemma ignore_quiet {A} (p : prog A) : quiet p -> quiet (ignore p).
Proof using. intros Hp. apply q_bind; [done|]. intros ?. apply q_done. Qed.

Lemma ignore_safe {A} (p : prog A) s : safe anything None p s -> safe anything None (ignore p) s.
Proof using. intros Hp. apply safe_bind. eapply safe_mono; [|exact Hp]. by intros [] h s' _. Qed.

Lemma handlers_safe op s : Inv s -> safe anything None (handler op) s.
Proof using.
  intros _. destruct op; cbn [handler];
    try (apply ignore_safe; (apply dispatch_safe || apply approve_safe || apply activate_safe));
    (eapply quiet_safe; [|done]); try apply ignore_quiet.
  - apply reconcile_quiet.
  - apply q_atomically, harmless_manual.
  - apply rotate_quiet.
  - apply q_atomically, harmless_grant.
  - apply revoke_quiet.
  - apply place_quiet.
  - apply releaseHold_quiet.
  - apply resolve_quiet.
  - apply verify_quiet.
  - apply upsert_quiet.
  - apply upsert_quiet.
  - apply propose_quiet.
  - apply certify_quiet.
  - apply deactivate_quiet.
  - apply q_atomically. apply (harmless_revoke_grant grantId (fun now g => _)).
Qed.

Lemma time_passes s s' : elapse s s' -> Inv s -> Inv s' /\ evolves s s'.
Proof using.
  intros (t & es & Ht & ->) []. split; [by split|].
  split; simpl; try done; intros k i Hi; by exists i.
Qed.

Definition reachable := (reachable handler elapse).
Definition steps := rtc (step handler elapse).

Lemma filter_le {A} (P P' : A -> Prop) `{forall x, Decision (P x)} `{forall x, Decision (P' x)} l :
  (forall x, x ∈ l -> P x -> P' x) -> (length (filter P l) <= length (filter P' l))%nat.
Proof using.
  induction l as [|x l IH]; intros HP; [done|]. rewrite !filter_cons.
  assert (length (filter P l) <= length (filter P' l))%nat as Hl.
  { apply IH. intros y Hy. apply HP. by right. }
  case_decide as H1; case_decide as H2; simpl; try lia. destruct H2. apply HP; [by left|done].
Qed.

(** ** The theorems *)

(** C7: In every interleaving of every number of requests, crashes
    included, a logical provider effect (tenant, provider, capability,
    logical operation key) is submitted to the provider at most once, and
    whatever was submitted belongs to an intent that is on record, claimed,
    and carries the idempotency key and the fingerprint that were sent. *)
Theorem one_submission_per_effect s0 w :
  Inv s0 -> reachable s0 w ->
  (forall e, (length (filter (fun q => effect_of (iv_row (su_intent q)) = e) (calls w)) <= 1)%nat) /\
  (forall q, q ∈ calls w -> exists i, intents (db w) !! token q = Some i /\
     it_state i <> PREPARED /\ same_intent (iv_row (su_intent q)) i).
Proof using.
  intros H0 Hr.
  destruct (pool_sound Inv evolves taken token permitted taken_stable permitted_stable
    handler elapse handlers_safe time_passes s0 w H0 Hr) as (HI & HP & HC & HT).
  split.
  - intros e. destruct (filter _ (calls w)) as [|q0 qs] eqn:Hf; [simpl; lia|]. rewrite <- Hf.
    assert (q0 ∈ filter (fun q => effect_of (iv_row (su_intent q)) = e) (calls w)) as H1
      by (rewrite Hf; left).
    apply list_elem_of_filter in H1 as [He0 Hin0].
    etrans; [|apply (HC (token q0))]. apply filter_le. intros q Hin He.
    destruct (HP q Hin) as ((i & Hi & Hs) & _). destruct (HP q0 Hin0) as ((i0 & Hi0 & Hs0) & _).
    eapply (inv_effect _ HI); [exact Hi|exact Hi0|].
    rewrite (si_effect _ _ Hs), (si_effect _ _ Hs0). congruence.
  - intros q Hq. destruct (HP q Hq) as ((i & Hi & Hs) & _). destruct (HT q Hq) as (i' & Hi' & Hst).
    exists i. split; [done|]. split; [|done]. congruence.
Qed.

(** C15: In every interleaving, a provider mode other than the simulator is
    reached only after the whole promotion chain: there is a manifest for
    exactly that provider, capability and mode, without an excluded command
    class, with a PASSED certification, and with an APPROVED approval by
    someone other than its proposer.  The same holds of every tuple the
    dispatch gate reports as activated. *)
Theorem live_calls_are_promoted s0 w :
  Inv s0 -> reachable s0 w ->
  (forall q, q ∈ calls w -> su_mode q <> SIMULATOR -> exists m,
     governed_by (db w) (it_providerId (iv_row (su_intent q)),
       it_capability (iv_row (su_intent q)), su_mode q) m) /\
  (forall t, isActivated t (db w) = true -> exists m, governed_by (db w) t m).
Proof using.
  intros H0 Hr.
  destruct (pool_sound Inv evolves taken token permitted taken_stable permitted_stable
    handler elapse handlers_safe time_passes s0 w H0 Hr) as (HI & HP & _ & _).
  split.
  - intros q Hq Hm. destruct (HP q Hq) as (_ & _ & _ & _ & _ & Hg). by apply Hg.
  - intros t Ht. by apply isActivated_governed.
Qed.

(** Provider history is durable.  From any reachable point on, whatever
    runs, an intent keeps its identity, case, fingerprint, idempotency key
    and, once dispatched, its grant; its state only moves forward and a
    SUCCEEDED, FAILED_FINAL or CANCELLED state is never left; manifests,
    certifications and approvals are never changed or removed; a revoked
    consent stays revoked. *)
Theorem provider_history_is_durable s0 w w' :
  Inv s0 -> reachable s0 w -> steps w w' ->
  (forall k i, intents (db w) !! k = Some i -> exists j, intents (db w') !! k = Some j /\
     same_intent i j /\ (rank (it_state i) = 4 -> it_state j = it_state i)) /\
  manifests (db w) ⊆ manifests (db w') /\ certifications (db w) ⊆ certifications (db w') /\
  approvals (db w) ⊆ approvals (db w') /\
  (forall k c, consents (db w) !! k = Some c -> is_Some (cr_revokedAt c) ->
     exists d, consents (db w') !! k = Some d /\ is_Some (cr_revokedAt d)).
Proof using.
  intros H0 Hr Hs.
  pose proof (pool_evolves Inv evolves taken token permitted taken_stable permitted_stable
    handler elapse handlers_safe time_passes s0 w w' H0 Hr Hs) as He.
  destruct He. split_and!; try done.
  - intros k i Hi. destruct (ev_intents0 k i Hi) as (j & Hj & Hsi). exists j. split_and!; try done.
    intros Hk. destruct (si_state _ _ Hsi) as [?|Hr4]; [done|]. destruct (it_state j); simpl in Hr4; lia.
  - intros k c Hc Hrev. destruct (ev_consents0 k c Hc) as (d & Hd & Hsc). exists d.
    split; [done|]. by apply (sc_revoked _ _ Hsc).
Qed.

(** *** Authority at the moment of the call *)

Definition seen (P : Db -> Prop) (hist : list Db) : Prop := Exists P hist.

Lemma seen_prefix P h h' : h `prefix_of` h' -> seen P h -> seen P h'.
Proof using. intros [l ->] H. apply Exists_app. by left. Qed.

Lemma seen_last (P : Db -> Prop) h s : P s -> seen P (h ++ [s]).
Proof using. intros H. apply Exists_app. right. by constructor. Qed.

(** The grant of a submission was checked, and every consent it cites. *)
Record authorized (p : DispatchProviderRequestParams) (a : ProviderAdapter)
    (g : ProviderAuthorizationGrant) (hist : list Db) : Prop := {
  au_grant : seen (fun s => check_grant g
      {| ex_tenantId := dp_tenantId p; ex_caseId := dp_caseId p;
         ex_providerId := ad_providerId a; ex_capability := dp_capability p |} (clock s) = None) hist;
  au_consents : forall id, id ∈ gr_consentRecordIds g -> seen (fun s =>
      isRecordValid id (Some (gr_tenantId g, gr_caseId g, gr_purposeCode g,
        gr_permittedDataClasses g)) s = true) hist }.

Lemma authorized_prefix p a g h h' : h `prefix_of` h' -> authorized p a g h -> authorized p a g h'.
Proof using. intros Hp []. split; eauto using seen_prefix. Qed.

Lemma check_consents_along P g ids hist :
  along (Q := Submission) (R := ProviderAnswer) P (fun r h => hist `prefix_of` h /\
    (r = Ok None -> forall id, id ∈ ids -> seen (fun s =>
      isRecordValid id (Some (gr_tenantId g, gr_caseId g, gr_purposeCode g,
        gr_permittedDataClasses g)) s = true) h)) (check_consents g ids) hist.
Proof using.
  revert hist. induction ids as [|id ids IH]; intros hist; cbn [check_consents].
  - split; [done|]. intros _ id Hid. by apply elem_of_nil in Hid.
  - apply along_gets_bind. intros s.
    destruct (isRecordValid id _ s) eqn:Hv.
    + eapply along_mono; [|apply IH]. intros r h [Hp Hall]. split.
      * etrans; [|exact Hp]. by exists [s].
      * intros Hr id' [->|Hin]%elem_of_cons; [|by apply Hall].
        eapply seen_prefix; [exact Hp|]. by apply seen_last.
    + split; [by exists [s]|done].
Qed.

Lemma revalidate_along P gid p a hist :
  along (Q := Submission) (R := ProviderAnswer) P (fun r h => hist `prefix_of` h /\
      forall g, r = Ok (Valid g) -> authorized p a g h)
    (revalidate gid {| ex_tenantId := dp_tenantId p; ex_caseId := dp_caseId p;
       ex_providerId := ad_providerId a; ex_capability := dp_capability p |}) hist.
Proof using.
  unfold revalidate. apply along_gets_bind. intros s.
  destruct (visible _ _ (grants s !! gid)) as [g|]; [|by split; [exists [s]|]].
  destruct (check_grant g _ (clock s)) eqn:Hc; [by split; [exists [s]|]|].
  apply along_bind. eapply along_mono; [|apply check_consents_along].
  intros [[bad|]|e] h [Hp Hall]; (split; [etrans; [by exists [s]|exact Hp]|]); try done.
  intros g' [= <-]. split; [|by apply Hall]. eapply seen_prefix; [exact Hp|]. by apply seen_last.
Qed.

(** What the platform knows when it calls a provider. *)
Definition call_authority (p : DispatchProviderRequestParams) (a : ProviderAdapter)
    (hist : list Db) (q : Submission) : Prop :=
  let t : Tuple := (ad_providerId a, dp_capability p, mode_of p) in
  seen (fun s => isActive t s = true) hist /\
  (mode_of p <> SIMULATOR -> seen (fun s => isActivated t s = true) hist) /\
  seen (fun s => is_Some (activeRecordForPurpose (dp_tenantId p) (dp_caseId p) (dp_purposeCode p)
          (dp_permittedDataClasses p) s)) hist /\
  authorized p a (su_grant q) hist /\ gr_consentRecordIds (su_grant q) <> [] /\
  (dp_capability p = CREDIT -> exists d,
     seen (fun s => validatePurpose d (purpose_context p) s = None) hist) /\
  su_mode q = mode_of p /\ su_request q = dp_request p.

Lemma purpose_gate_along P id p hist :
  along (Q := Submission) (R := ProviderAnswer) P (fun r h => hist `prefix_of` h /\
      forall d, r = Ok d -> dp_capability p = CREDIT -> exists d', truthy_id d = Some d')
    (purpose_gate id p) hist.
Proof using.
  unfold purpose_gate.
  destruct (negb (bool_decide (dp_capability p = CREDIT))) eqn:Hc.
  { split; [done|]. intros d _ Hcr. by rewrite bool_decide_eq_true_2 in Hc. }
  apply along_bind. apply along_mono with (Φ := fun r h => hist `prefix_of` h /\
    forall d, r = Ok (Some d) -> truthy_id (Some d) = Some d).
  - intros [[d|]|e] h [Hp Hd]; try (by split). apply along_gets_bind. intros s.
    destruct (validatePurpose d _ s); (split; [etrans; [exact Hp|by exists [s]]|]); [done|].
    intros d' [= <-] _. exists d. by apply Hd.
  - destruct (truthy_id (dp_permissiblePurposeDecisionId p)) as [d|] eqn:Ht.
    { split; [done|]. intros d' [= <-]. unfold truthy_id in Ht |- *.
      destruct (dp_permissiblePurposeDecisionId p) as [x|]; [|done].
      destruct (JS.truthy x) eqn:Hx; [|done]. injection Ht as <-. by rewrite Hx. }
    destruct (bool_decide (mode_of p = SIMULATOR)); [|by split]. apply along_bind.
    apply along_callfree.
    + unfold issueSynthetic. destruct (_ || _); [done|]. apply callfree_bind; done.
    + intros [d|e] h Hp; (split; [done|]); [|done]. intros d' Hd'. injection Hd' as Hd'.
      unfold truthy_id in Hd' |- *. destruct (JS.truthy d) eqn:Hx; [|done].
      injection Hd' as <-. by rewrite Hx.
Qed.

Lemma check_consents_callfree g ids :
  callfree (check_consents (Q := Submission) (R := ProviderAnswer) g ids).
Proof using.
  induction ids as [|x l IH]; cbn [check_consents]; [done|]. apply callfree_bind; [done|]. by intros [].
Qed.

Ltac callfree_steps :=
  repeat first
    [ exact I
    | apply check_consents_callfree
    | apply callfree_atomically
    | apply callfree_bind; [|intros ?]
    | apply callfree_catch; [|intros ?]
    | match goal with
      | |- context [if ?b then _ else _] => destruct b
      | |- context [match ?x with _ => _ end] => destruct x
      end ].

Lemma submit_along P ids p a v g hist :
  P hist {| su_mode := mode_of p; su_request := dp_request p; su_intent := v; su_grant := g;
            su_tenantId := dp_tenantId p; su_caseId := dp_caseId p |} ->
  along P (fun _ _ => True) (submit encrypt parse_date safeParse ids p a v g) hist.
Proof using.
  intros HP. split; [done|]. intros r. apply along_callfree; [|done].
  destruct r as [payload at_| |]; cbn [pbind];
    unfold record_receipt, markFailedFinal, markSucceeded, markOutcomeUnknown, transition, pure; callfree_steps.
Qed.

(** The facts of [call_authority] that do not concern the grant. *)
Definition gates (p : DispatchProviderRequestParams) (a : ProviderAdapter) (hist : list Db) : Prop :=
  let t : Tuple := (ad_providerId a, dp_capability p, mode_of p) in
  seen (fun s => isActive t s = true) hist /\
  (mode_of p <> SIMULATOR -> seen (fun s => isActivated t s = true) hist) /\
  seen (fun s => is_Some (activeRecordForPurpose (dp_tenantId p) (dp_caseId p) (dp_purposeCode p)
          (dp_permittedDataClasses p) s)) hist.

Lemma gates_prefix p a h h' : h `prefix_of` h' -> gates p a h -> gates p a h'.
Proof using. intros Hp (? & ? & ?). split_and!; eauto using seen_prefix. Qed.

Lemma check_grant_consents g e now : check_grant g e now = None -> gr_consentRecordIds g <> [].
Proof using.
  unfold check_grant. destruct (_ || _); [done|]. case_bool_decide; [done|].
  destruct (_ <=? _); [done|]. case_bool_decide; done.
Qed.

Lemma submit_prepared_along ids p a gid d v hist :
  gates p a hist -> (dp_capability p = CREDIT -> exists d', truthy_id d = Some d') ->
  along (call_authority p a) (fun _ _ => True)
    (submit_prepared encrypt parse_date safeParse ids p a gid d v) hist.
Proof using.
  intros Hg Hd. unfold submit_prepared. apply along_bind.
  eapply along_mono; [|apply revalidate_along].
  intros [[g|reason]|e] h [Hp Hau]; [| |done].
  - specialize (Hau g eq_refl). apply along_bind. apply along_mono with (Φ := fun r h' =>
      h `prefix_of` h' /\ (r = Ok None -> dp_capability p = CREDIT -> exists d',
        seen (fun s => validatePurpose d' (purpose_context p) s = None) h')).
    + intros [[bad|]|e] h1 [Hp1 Hv]; [| |done].
      { apply along_callfree; [|done]. unfold markFailedFinal. callfree_steps. }
      apply along_bind, along_callfree; [done|]. intros [u|e] h2 Hp2; [|done].
      assert (h `prefix_of` h2) as Hp12 by (by etrans).
      apply submit_along. assert (hist `prefix_of` h2) as Hp02 by (by etrans).
      destruct (gates_prefix p a _ _ Hp02 Hg) as (G1 & G2 & G3).
      split_and!; [done|done|done|exact (authorized_prefix _ _ _ _ _ Hp12 Hau)| | |done|done].
      * destruct Hau as [Hs _]. apply Exists_exists in Hs as (s & _ & Hs).
        by apply check_grant_consents in Hs.
      * intros Hc. destruct (Hv eq_refl Hc) as [d' Hd']. exists d'. exact (seen_prefix _ _ _ Hp2 Hd').
    + destruct (truthy_id d) as [d'|] eqn:Ht.
      * intros s. split; [by exists [s]|]. intros Hr _. exists d'. apply seen_last.
        by injection Hr.
      * split; [done|]. intros _ Hc. destruct (Hd Hc) as [d' Hd']. done.
  - apply along_callfree; [|done]. unfold markFailedFinal. callfree_steps.
Qed.

Lemma dispatch_along ids p hist :
  along (fun h q => exists a, resolveAdapter registry (dp_capability p) (mode_of p) = Ok a /\
      excluded (ad_structurallyExcludedCommandClass a) = false /\ call_authority p a h q)
    (fun _ _ => True)
    (dispatchProviderRequest encrypt decrypt sha256 parse_date safeParse registry ids p) hist.
Proof using.
  unfold dispatchProviderRequest, pure. apply along_bind. cbn [along].
  destruct (resolveAdapter registry (dp_capability p) (mode_of p)) as [a|] eqn:Ha; [|done].
  apply along_bind. cbn [along]. unfold assertNotStructurallyExcluded.
  destruct (excluded _) eqn:Hx; [done|]. apply along_gets_bind. intros s1.
  destruct (isActive _ s1) eqn:Hact; [|done]. cbn [negb].
  apply along_bind. apply along_mono with (Φ := fun r h => (hist ++ [s1]) `prefix_of` h /\
    (r = Ok true -> mode_of p <> SIMULATOR -> seen (fun s =>
      isActivated (ad_providerId a, dp_capability p, mode_of p) s = true) h)).
  - intros [[]|e] h [Hp Hac]; [|done..]. cbn [negb]. apply along_gets_bind. intros s2.
    destruct (activeRecordForPurpose _ _ _ _ s2) as [c|] eqn:Hcons; [|done].
    assert (gates p a (h ++ [s2])) as Hg.
    { split_and!.
      - eapply seen_prefix; [etrans; [exact Hp|by exists [s2]]|]. by apply seen_last.
      - intros Hm. eapply seen_prefix; [by exists [s2]|]. by apply Hac.
      - apply seen_last. rewrite Hcons. done. }
    unfold dispatch_authorized. apply along_bind. eapply along_mono; [|apply purpose_gate_along].
    intros [d|e] h1 [Hp1 Hd]; [|done]. apply along_bind, along_callfree; [done|].
    intros [gr|e] h2 Hp2; [|done]. apply along_bind, along_callfree.
    { unfold prepare, prepare_row, pure. callfree_steps. }
    intros [v|e] h3 Hp3; [|done].
    assert ((h ++ [s2]) `prefix_of` h3) as Hpre by (etrans; [exact Hp1|by etrans]).
    destruct (it_state (iv_row v)); try done; [|by destruct (iv_normalizedFinding v)].
    apply (along_weaken (call_authority p a)); [intros h4 q Hq; by exists a|].
    apply submit_prepared_along; [exact (gates_prefix _ _ _ _ Hpre Hg)|]. intros Hc. by apply Hd.
  - destruct (bool_decide (mode_of p = SIMULATOR)) eqn:Hm.
    { split; [done|]. intros _ Hne. by apply bool_decide_eq_true in Hm. }
    intros s. split; [by exists [s]|]. intros Hr _. apply seen_last. by injection Hr.
Qed.

(** C9: However other requests interleave, a dispatch that reaches the
    provider has, in the states its own statements ran in, found the kill
    switch off, the promotion active (outside the simulator), a live consent
    for its purpose and data classes, a grant for this tenant, case, provider
    and capability that was neither revoked nor expired, every consent record
    cited by that grant (at least one) live and covering the grant's purpose
    and data classes, and for a credit report a valid permissible-purpose
    decision; the adapter carries no excluded command class. *)
Theorem dispatch_needs_authority ids p hist q k :
  reach (dispatchProviderRequest encrypt decrypt sha256 parse_date safeParse registry ids p)
    hist (Call q k) ->
  exists a, resolveAdapter registry (dp_capability p) (mode_of p) = Ok a /\
    excluded (ad_structurallyExcludedCommandClass a) = false /\ call_authority p a hist q.
Proof using.
  intros Hr. apply (along_reach _ _ _ _ _ [] Hr (dispatch_along ids p [])).
Qed.

(** *** Undisturbed dispatches *)

(** Every gate before the intent is open in [s]; [d] is the purpose
    decision and [s1] the state after it. *)
Record admitted (ids : DispatchIds) (p : DispatchProviderRequestParams) (a : ProviderAdapter)
    (c : ConsentRecord) (d : option string) (s s1 : Db) : Prop := {
  ad_adapter : resolveAdapter registry (dp_capability p) (mode_of p) = Ok a;
  ad_clean : excluded (ad_structurallyExcludedCommandClass a) = false;
  ad_switch : isActive (ad_providerId a, dp_capability p, mode_of p) s = true;
  ad_promoted : mode_of p <> SIMULATOR ->
    isActivated (ad_providerId a, dp_capability p, mode_of p) s = true;
  ad_consent : activeRecordForPurpose (dp_tenantId p) (dp_caseId p) (dp_purposeCode p)
    (dp_permittedDataClasses p) s = Some c;
  ad_purpose : forall answer, exec answer (purpose_gate (di_decisionId ids) p) s = (Ok d, s1, []);
  ad_fresh : grants s1 !! di_grantId ids = None }.

Lemma admitted_exec answer ids p a c d s s1 :
  admitted ids p a c d s s1 ->
  exec answer (dispatchProviderRequest encrypt decrypt sha256 parse_date safeParse registry ids p) s =
  exec answer (dispatch_authorized encrypt decrypt sha256 parse_date safeParse ids p a c) s.
Proof using.
  intros []. unfold dispatchProviderRequest, pure. rewrite exec_check, ad_adapter0, exec_check.
  unfold assertNotStructurallyExcluded. rewrite ad_clean0, exec_read, ad_switch0. cbn [negb].
  destruct (bool_decide (mode_of p = SIMULATOR)) eqn:Hm.
  - unfold mret, Prog_ret. rewrite exec_check. cbn [negb]. by rewrite exec_read, ad_consent0.
  - apply bool_decide_eq_false in Hm. rewrite exec_read, (ad_promoted0 Hm). cbn [negb].
    by rewrite exec_read, ad_consent0.
Qed.

(** The purpose gate writes nothing but decisions. *)
Lemma purpose_gate_frame answer id p s r s1 qs :
  exec answer (purpose_gate id p) s = (r, s1, qs) ->
  exists m, s1 = with_decisions m s.
Proof using.
  assert (s = with_decisions (decisions s) s) as Hs by (by destruct s).
  unfold purpose_gate. destruct (negb _); [intros [= <- <- <-]; eauto|].
  intros H. apply exec_bind_inv in H as [(o & s2 & H1 & H2)|(e & H1 & -> & ->)].
  - assert (exists m, s2 = with_decisions m s) as [m ->].
    { clear H2. destruct (truthy_id (dp_permissiblePurposeDecisionId p)); [injection H1 as <- <-; eauto|].
      destruct (bool_decide (mode_of p = SIMULATOR)); [|injection H1 as <- <-; eauto].
      apply exec_bind_inv in H1 as [(i & s3 & H1 & [= <- <-])|(? & ? & ? & ?)]; [|done|].
      2: { unfold issueSynthetic. destruct (_ || _); [done|]. by apply callfree_bind. }
      unfold issueSynthetic in H1. destruct (_ || _); [done|].
      apply exec_bind_inv in H1 as [(x & s4 & H1 & [= <- <-])|(? & ? & ? & ?)]; [|done|done].
      rewrite exec_atomically in H1. unfold mbind, M_bind, gets in H1. simpl in H1.
      destruct (save_new _ _ _ _ s) as [[row|e] s5] eqn:E5; simplify_eq/=.
      apply save_new_Ok in E5 as (_ & _ & ->). eauto. }
    destruct o as [d|]; [|injection H2 as <- <- <-; eauto]. rewrite exec_read in H2.
    destruct (validatePurpose _ _ _); injection H2 as <- <- <-; eauto.
  - destruct (truthy_id (dp_permissiblePurposeDecisionId p)); [done|].
    destruct (bool_decide (mode_of p = SIMULATOR)); [|done].
    apply exec_bind_inv in H1 as [(i & s3 & H1 & [= <- <-])|(e' & H1 & ? & ?)].
    + unfold issueSynthetic in H1. destruct (_ || _); [injection H1 as <- <-; eauto|].
      apply exec_bind_inv in H1 as [(x & s4 & H1 & ?)|(e2 & H1 & ? & ?)]; [done| |done].
      rewrite exec_atomically in H1. unfold mbind, M_bind, gets in H1. simpl in H1.
      destruct (save_new _ _ _ _ s) as [[row|e3] s5] eqn:E5; simplify_eq/=.
      apply save_new_Err in E5 as [_ ->]. eauto.
    + unfold issueSynthetic. destruct (_ || _); [done|]. by apply callfree_bind.
  - destruct (truthy_id _); [done|]. destruct (bool_decide _); [|done].
    unfold issueSynthetic. apply callfree_bind; [|done]. destruct (_ || _); [done|]. by apply callfree_bind.
Qed.

Definition effect_of_params (p : DispatchProviderRequestParams) (a : ProviderAdapter) : Effect :=
  (dp_tenantId p, ad_providerId a, dp_capability p, logical_key p).

(** The intent on record is for this very request. *)
Record same_request (p : DispatchProviderRequestParams) (a : ProviderAdapter)
    (i : ProviderOperationIntent) : Prop := {
  sr_effect : effect_of i = effect_of_params p a;
  sr_case : it_caseId i = dp_caseId p;
  sr_fingerprint : it_requestFingerprint i = sha256 (canonicalJson (dp_request p));
  sr_class : it_effectClass i = ad_effectClass a }.

Lemma find_effect_on_record s k i :
  Inv s -> intents s !! k = Some i -> find_effect (effect_of i) s = Some i.
Proof using.
  intros HI Hk. destruct (find_effect (effect_of i) s) as [j|] eqn:Hf.
  - apply find_row_Some in Hf as [He [k' Hk']]. apply bool_decide_eq_true in He.
    rewrite (inv_effect _ HI k' k j i Hk' Hk He) in Hk'. congruence.
  - pose proof (find_row_None _ _ _ _ Hf Hk) as Hb. by apply bool_decide_eq_false in Hb.
Qed.

Lemma issue_exec answer id i s :
  grants s !! id = None -> exists g, gr_id g = id /\
  exec answer (issue (Q := Submission) (R := ProviderAnswer) id i) s =
    (Ok g, with_grants (<[id := g]> (grants s)) s, []) .
Proof using.
  intros Hf. unfold issue. rewrite exec_atomically. unfold mbind, M_bind, gets. simpl.
  eexists. split; [|unfold save_new, mbind, M_bind, gets, guard_throw, modify, mret, M_ret; simpl;
    rewrite Hf; simpl; reflexivity]. done.
Qed.

(** A retry of a request whose intent has left PREPARED calls nobody and
    changes no intent: it returns the finding on record when the intent
    SUCCEEDED with one, and otherwise reports that a second submission is
    blocked. *)
Theorem retry_never_resubmits answer ids p a c d s s1 k i v :
  Inv s -> admitted ids p a c d s s1 ->
  intents s !! k = Some i -> same_request p a i -> it_state i <> PREPARED ->
  toIntentValue decrypt i = Ok v ->
  exists s2, intents s2 = intents s /\
    exec answer (dispatchProviderRequest encrypt decrypt sha256 parse_date safeParse registry ids p) s =
    (match it_state i, iv_normalizedFinding v with
     | SUCCEEDED, Some f => Ok f
     | st, _ => Err (ProviderIntentReplayBlocked st)
     end, s2, []).
Proof using.
  intros HI Had Hk [] Hst Hv. rewrite (admitted_exec _ _ _ _ _ _ _ _ Had). destruct Had.
  destruct (purpose_gate_frame _ _ _ _ _ _ _ (ad_purpose0 answer)) as [dm ->].
  unfold dispatch_authorized. rewrite (exec_then _ _ _ _ _ _ (ad_purpose0 answer)).
  edestruct (issue_exec answer) as (g & Hg & Hexec); [exact ad_fresh0|].
  rewrite (exec_then _ _ _ _ _ _ Hexec).
  set (s2 := with_grants _ _). exists s2. split; [done|].
  assert (find_effect (effect_of_params p a) s2 = Some i) as Hf.
  { rewrite <- sr_effect0. eapply (find_effect_on_record s); done. }
  unfold prepare. unfold mbind at 1, Prog_bind at 1. rewrite exec_bind.
  rewrite (exec_then _ _ _ _ i s2).
  2: { unfold prepare_row. rewrite exec_read. unfold effect_of_input. simpl pp_tenantId.
       cbn [pp_providerId pp_capability pp_logicalOperationKey]. fold (effect_of_params p a).
       rewrite Hf. cbn [pp_caseId pp_effectClass pp_requestPayloadForFingerprint].
       rewrite sr_case0, sr_fingerprint0, sr_class0, !String.eqb_refl, bool_decide_eq_true_2 by done.
       cbn [negb orb]. by rewrite bool_decide_eq_false_2. }
  unfold pure. rewrite Hv. cbn [exec].
  assert (iv_row v = i) as ->.
  { unfold toIntentValue in Hv. apply rbind_Ok in Hv as (? & _ & Hv).
    apply rbind_Ok in Hv as (? & _ & Hv). unfold mret, result_ret in Hv. by injection Hv as <-. }
  destruct (it_state i); try done. by destruct (iv_normalizedFinding v).
Qed.

Lemma cas_run t id from target set s i :
  intents s !! id = Some i -> it_tenantId i = t -> state_in from (it_state i) = true ->
  cas t id from target set s = (Ok tt, with_intents (<[id := set (clock s) i]> (intents s)) s).
Proof using.
  intros Hi Ht Hst. unfold cas. run_statement.
  rewrite (proj2 (visible_Some it_tenantId t _ i)) by done. by rewrite Hst.
Qed.

Lemma cas_Ok t id from target set s s' :
  cas t id from target set s = (Ok tt, s') -> exists i,
    intents s !! id = Some i /\ it_tenantId i = t /\ state_in from (it_state i) = true /\
    s' = with_intents (<[id := set (clock s) i]> (intents s)) s.
Proof using.
  unfold cas. run_statement.
  destruct (visible it_tenantId t (intents s !! id)) as [i|] eqn:Hi; [|done].
  apply visible_Some in Hi as [Hi Ht]. destruct (state_in from (it_state i)) eqn:Hst; [|done].
  intros [= <-]. exists i. done.
Qed.

(** How the answer of the provider ends up on the intent. *)
Definition recorded (ids : DispatchIds) (ans : ProviderAnswer) (r : result Failure Dsl.value)
    (i : ProviderOperationIntent) : Prop :=
  match ans with
  | SyntheticProviderRejectionError => r = Err ProviderRejection /\ it_state i = FAILED_FINAL
  | OtherError t => r = Err (ProviderUnavailable t) /\ it_state i = OUTCOME_UNKNOWN
  | Receipt payload at_ =>
      (exists f, r = Ok f /\ it_state i = SUCCEEDED /\
         it_providerReceipt i = Some (encrypt (di_iv1 ids) (aad i "receipt") (receipt_value payload at_)) /\
         it_normalizedFinding i = Some (encrypt (di_iv2 ids) (aad i "finding") f)) \/
      (exists e, r = Err e /\ it_state i = FAILED_FINAL)
  end.

Lemma mark_step {B} answer (f : unit -> prog B) t id from target set s i :
  intents s !! id = Some i -> it_tenantId i = t -> state_in from (it_state i) = true ->
  exec answer (atomically (cas t id from target set) ≫= f) s =
  exec answer (f tt) (with_intents (<[id := set (clock s) i]> (intents s)) s).
Proof using. intros. apply exec_write. by apply cas_run. Qed.

Lemma record_receipt_recorded answer ids p a i j g payload at_ s r s' qs :
  intents s !! it_id i = Some j -> it_tenantId j = it_tenantId i -> it_state j = DISPATCHED ->
  exec answer (record_receipt encrypt parse_date safeParse ids p a i g payload at_) s = (r, s', qs) ->
  exists l, intents s' !! it_id i = Some l /\ recorded ids (Receipt payload at_) r l.
Proof using.
  intros Hj Ht Hst. unfold record_receipt. rewrite exec_catch.
  assert (forall e, exists l, intents (exec answer (
      _ ← markFailedFinal encrypt (di_iv1 ids) (it_tenantId i) (it_id i)
        (match e with ProviderRejection => None | _ => Some (receipt_value payload at_) end);
      fail (A := Dsl.value) e) s).1.2 !! it_id i = Some l /\
    (exec answer (_ ← markFailedFinal encrypt (di_iv1 ids) (it_tenantId i) (it_id i)
        (match e with ProviderRejection => None | _ => Some (receipt_value payload at_) end);
      fail (A := Dsl.value) e) s).1.1 = Err e /\ it_state l = FAILED_FINAL) as Hfail.
  { intros e. unfold markFailedFinal.
    rewrite (mark_step _ _ _ _ _ _ _ _ j Hj Ht) by (by rewrite Hst).
    simpl. rewrite lookup_insert_eq. eexists. split; [done|]. done. }
  unfold pure. rewrite exec_check. destruct (ad_normalize a payload) as [raw|e].
  2: { destruct (Hfail e) as (l & Hl & Hr & Hs). destruct (exec answer _ s) as [[r1 s1] q1].
       intros [= <- <- <-]. exists l. split; [done|]. right. by exists e. }
  rewrite exec_read, exec_check. destruct (validateProviderFinding _ _ _ _ _ _) as [f|e].
  2: { destruct (Hfail e) as (l & Hl & Hr & Hs). destruct (exec answer _ s) as [[r1 s1] q1].
       intros [= <- <- <-]. exists l. split; [done|]. right. by exists e. }
  unfold markSucceeded. rewrite (mark_step _ _ _ _ _ _ _ _ j Hj Ht) by (by rewrite Hst).
  intros [= <- <- <-]. simpl. rewrite lookup_insert_eq. eexists. split; [done|].
  left. eexists. split_and!; done.
Qed.

Lemma submit_recorded answer ids p a v g j s r s' qs :
  intents s !! it_id (iv_row v) = Some j -> it_tenantId j = it_tenantId (iv_row v) ->
  it_state j = DISPATCHED ->
  exec answer (submit encrypt parse_date safeParse ids p a v g) s = (r, s', qs) ->
  exists q l, qs = [q] /\ token q = it_id (iv_row v) /\ intents s' !! token q = Some l /\
    recorded ids (answer q) r l.
Proof using.
  intros Hj Ht Hst. unfold submit. unfold mbind at 1, Prog_bind at 1. rewrite exec_bind.
  set (q := {| su_mode := _ |}). cbn [exec call]. destruct (answer q) as [payload at_| |] eqn:Hans.
  - destruct (exec answer (record_receipt _ _ _ _ _ _ _ _ _ _) s) as [[r1 s1] q1] eqn:E1.
    pose proof (exec_callfree answer (record_receipt encrypt parse_date safeParse ids p a (iv_row v) g payload at_) s
      ltac:(unfold record_receipt, markFailedFinal, markSucceeded, pure; callfree_steps)) as Hq.
    rewrite E1 in Hq. simpl in Hq. subst q1.
    destruct (record_receipt_recorded _ _ _ _ _ _ _ _ _ _ _ _ _ Hj Ht Hst E1) as (l & Hl & Hr).
    intros [= <- <- <-]. exists q, l. by rewrite Hans.
  - unfold markFailedFinal. rewrite (mark_step _ _ _ _ _ _ _ _ j Hj Ht) by (by rewrite Hst).
    intros [= <- <- <-]. exists q. eexists. rewrite Hans. simpl. unfold token. simpl.
    rewrite lookup_insert_eq. done.
  - unfold markOutcomeUnknown, transition.
    rewrite (mark_step _ _ _ _ _ _ _ _ j Hj Ht) by (by rewrite Hst).
    intros [= <- <- <-]. exists q. eexists. rewrite Hans. simpl. unfold token. simpl.
    rewrite lookup_insert_eq. done.
Qed.

Lemma submit_prepared_recorded answer ids p a gid d v s r s' q qs :
  exec answer (submit_prepared encrypt parse_date safeParse ids p a gid d v) s = (r, s', q :: qs) ->
  exists l, qs = [] /\ intents s' !! token q = Some l /\ recorded ids (answer q) r l.
Proof using.
  intros H. unfold submit_prepared in H.
  apply exec_bind_inv in H as [(rv & s1 & _ & H)|(e & _ & _ & ?)]; [|done|].
  2: { unfold revalidate. callfree_steps. }
  assert (forall e s0, exec answer (_ ← markFailedFinal encrypt (di_iv1 ids) (it_tenantId (iv_row v))
      (it_id (iv_row v)) None; fail (A := Dsl.value) e) s0 <> (r, s', q :: qs)) as Hno.
  { intros e s0 Hx. assert (q :: qs = []) as Hc; [|done].
    rewrite <- (exec_callfree answer (_ ← markFailedFinal encrypt (di_iv1 ids) (it_tenantId (iv_row v))
      (it_id (iv_row v)) None; fail (A := Dsl.value) e) s0); [by rewrite Hx|].
    unfold markFailedFinal. callfree_steps. }
  destruct rv as [g|reason]; [|by destruct (Hno _ _ H)].
  apply exec_bind_inv in H as [(bad & s2 & _ & H)|(e & _ & _ & ?)]; [|done|by destruct (truthy_id d)].
  destruct bad as [reason|]; [by destruct (Hno _ _ H)|].
  apply exec_bind_inv in H as [([] & s3 & Hd & H)|(e & _ & _ & ?)]; [|done|done].
  unfold markDispatched, transition in Hd. rewrite exec_atomically in Hd.
  destruct (cas _ _ _ _ _ s2) as [[[]|e] s4] eqn:Hc; [|done]. injection Hd as <-.
  apply cas_Ok in Hc as (i & Hi & Ht & _ & ->).
  apply (submit_recorded answer ids p a v g (set_state DISPATCHED (clock s2) i)) in H
    as (q' & l & Hq & Htok & Hl & Hr); [|simpl; by rewrite lookup_insert_eq|done|done].
  injection Hq as -> ->. exists l. done.
Qed.

(** An undisturbed dispatch that called the provider called it once, and
    the answer is on the intent when it returns: SUCCEEDED with the finding
    it returned and the receipt, both encrypted for that row and column;
    FAILED_FINAL after a rejection or a receipt that could not be used;
    OUTCOME_UNKNOWN after any other failure. *)
Theorem dispatch_outcome_is_recorded answer ids p s r s' q qs :
  exec answer (dispatchProviderRequest encrypt decrypt sha256 parse_date safeParse registry ids p) s =
    (r, s', q :: qs) ->
  exists l, qs = [] /\ intents s' !! token q = Some l /\ recorded ids (answer q) r l.
Proof using.
  unfold dispatchProviderRequest, pure. rewrite exec_check.
  destruct (resolveAdapter registry _ _) as [a|]; [|done]. rewrite exec_check.
  destruct (assertNotStructurallyExcluded _); [|done]. rewrite exec_read.
  destruct (isActive _ s); [|done]. cbn [negb]. intros H.
  apply exec_bind_inv in H as [(b & s1 & _ & H)|(e & _ & _ & ?)]; [|done|by destruct (bool_decide _)].
  destruct b; [|done]. cbn [negb] in H. rewrite exec_read in H.
  destruct (activeRecordForPurpose _ _ _ _ s1) as [c|]; [|done]. unfold dispatch_authorized in H.
  apply exec_bind_inv in H as [(d & s2 & _ & H)|(e & _ & _ & ?)]; [|done|].
  2: { unfold purpose_gate, issueSynthetic. callfree_steps. }
  apply exec_bind_inv in H as [(g & s3 & _ & H)|(e & _ & _ & ?)]; [|done|done].
  apply exec_bind_inv in H as [(v & s4 & _ & H)|(e & _ & _ & ?)]; [|done|].
  2: { unfold prepare, prepare_row, pure. callfree_steps. }
  destruct (it_state (iv_row v)); try discriminate; [by apply submit_prepared_recorded in H|].
  by destruct (iv_normalizedFinding v).
Qed.

(** *** Activation *)

(** Both gates are open and nobody moved the activation. *)
Definition activatable (s : Db) (m : ProviderPromotionManifest) (env : string) (expected : option Z) : Prop :=
  is_Some (current_certification (mf_id m) env s) /\ is_Some (current_approval (mf_id m) s) /\
  expected = ac_manifestVersion <$> activations s !! mf_tuple m.

(** Undisturbed, activation succeeds exactly when the latest
    certification for the environment is PASSED and unexpired, the latest
    approval is APPROVED and unexpired, and the expected version is the
    active one; it then opens exactly that provider, capability and mode at
    the manifest's version, and otherwise changes nothing. *)
Theorem activate_decides answer audited newId env by_ expected s m :
  manifests s !! mf_id m = Some m ->
  (activatable s m env expected -> exists a s',
     exec answer (activateManifest (Q := Submission) (R := ProviderAnswer)
       audited newId (mf_id m) env by_ expected) s = (Ok a, s', []) /\
     activations s' = <[mf_tuple m := a]> (activations s) /\ ac_state a = ACTIVE /\
     ac_manifestId a = mf_id m /\ ac_manifestVersion a = mf_version m /\
     isActivated (mf_tuple m) s' = true) /\
  (~ activatable s m env expected -> exists msg,
     exec answer (activateManifest (Q := Submission) (R := ProviderAnswer)
       audited newId (mf_id m) env by_ expected) s = (Err (BadRequest msg), s, [])).
Proof using.
  intros Hm. unfold activateManifest, find_manifest.
  rewrite (exec_write _ _ _ _ m s) by (run_statement; by rewrite Hm).
  rewrite exec_read. unfold activatable.
  destruct (current_certification (mf_id m) env s) as [c|] eqn:Hc.
  2: { split; [intros ([? ?] & _); done|]. intros _. by eexists. }
  rewrite exec_read. destruct (current_approval (mf_id m) s) as [a|] eqn:Ha.
  2: { split; [intros (_ & [? ?] & _); done|]. intros _. by eexists. }
  rewrite exec_read.
  destruct (decide (expected = ac_manifestVersion <$> activations s !! mf_tuple m)) as [He|He].
  2: { rewrite bool_decide_eq_false_2 by done. split; [intros (_ & _ & ?); done|]. intros _. by eexists. }
  rewrite bool_decide_eq_true_2 by done. cbn [negb]. split; [|intros Hno; destruct Hno; eauto].
  intros _. set (row := {| ac_id := match activations s !! mf_tuple m with Some e => ac_id e | None => newId end;
    ac_manifestId := mf_id m; ac_manifestVersion := mf_version m; ac_state := ACTIVE;
    ac_activatedBy := by_; ac_activatedAt := clock s |}).
  assert (save_activation newId (activations s !! mf_tuple m) m by_ s =
    (Ok row, with_activations (<[mf_tuple m := row]> (activations s)) s)) as Hsave.
  { unfold save_activation. run_statement. by destruct (activations s !! mf_tuple m). }
  rewrite (exec_write _ _ _ _ _ _ Hsave).
  destruct audited; (eexists row, _; split; [reflexivity|]); (split_and!; [done..|]);
    unfold isActivated; simpl; by rewrite lookup_insert_eq.
Qed.
End Handlers.

(** ** A small platform *)

Definition toy_encrypt (iv aad : string) (v : Dsl.value) : Dsl.value :=
  Dsl.VObject [("iv", Dsl.VString iv); ("aad", Dsl.VString aad); ("ciphertext", v)].
Definition toy_decrypt (aad : string) (v : Dsl.value) : option Dsl.value :=
  match v with
  | Dsl.VObject [_; (_, Dsl.VString a); (_, x)] => if String.eqb a aad then Some x else None
  | _ => None
  end.
Definition toy_isEnvelope (v : Dsl.value) : bool :=
  match v with Dsl.VObject [_; _; _] => true | _ => false end.
Definition toy_sha256 (v : Dsl.value) : string :=
  match v with Dsl.VString s => s | _ => "hash" end.
Definition toy_date (s : string) : option Z := if String.eqb s "" then None else Some 1000.
Definition toy_parse (_ : ProviderCapability) (v : Dsl.value) : option Dsl.value := Some v.

Definition sim_adapter : ProviderAdapter :=
  {| ad_providerId := "sim"; ad_capability := INCOME; ad_mode := SIMULATOR;
     ad_effectClass := READ_ONLY; ad_structurallyExcludedCommandClass := None;
     ad_normalize := fun v => Ok v |}.
Definition plaid_adapter : ProviderAdapter :=
  {| ad_providerId := "plaid"; ad_capability := INCOME; ad_mode := AUTHORIZED_SANDBOX;
     ad_effectClass := READ_ONLY; ad_structurallyExcludedCommandClass := None;
     ad_normalize := fun v => Ok v |}.
Definition toy_registry : Registry :=
  {[ (INCOME, SIMULATOR) := sim_adapter; (INCOME, AUTHORIZED_SANDBOX) := plaid_adapter ]}.

Definition toy_handler : Op -> prog unit :=
  handler toy_encrypt toy_decrypt toy_isEnvelope toy_sha256 toy_date toy_parse toy_registry 24.

Definition request (mode : option ProviderMode) : DispatchProviderRequestParams :=
  {| dp_tenantId := "t"; dp_caseId := "c"; dp_borrowerSubjectId := "b"; dp_capability := INCOME;
     dp_mode := mode; dp_request := Dsl.VString "r"; dp_purposeCode := "UNDERWRITING_EVIDENCE";
     dp_permittedDataClasses := ["INCOME"]; dp_logicalOperationKey := None;
     dp_permittedFields := None; dp_permissiblePurposeDecisionId := None |}.

Definition ids (n : string) : DispatchIds :=
  {| di_decisionId := "d" +:+ n; di_grantId := "g" +:+ n; di_intentId := "i" +:+ n;
     di_idempotencyKey := "key" +:+ n; di_iv1 := "iv" +:+ n; di_iv2 := "jv" +:+ n |}.

Definition consent1 : ConsentRecord :=
  {| cr_id := "consent"; cr_tenantId := "t"; cr_caseId := "c"; cr_purpose := "UNDERWRITING_EVIDENCE";
     cr_scope := DEFAULT_SCOPE; cr_permittedPurposes := ["UNDERWRITING_EVIDENCE"];
     cr_permittedDataClasses := DEFAULT_PROVIDER_DATA_CLASSES; cr_grantedAt := 500;
     cr_expiresAt := None; cr_revokedAt := None; cr_revocationReason := None; cr_createdAt := 500 |}.

Definition db0 : Db := with_consents {[ "consent" := consent1 ]} (empty_db 1000).
Notation world := (@world Db Failure Submission ProviderAnswer).
Notation event := (@event ProviderAnswer Op).
Definition world0 (s : Db) : world := {| db := s; calls := []; threads := [] |}.

Definition answer1 : ProviderAnswer := Receipt (Dsl.VString "income") "now".

(** [n] statements of handler [i]. *)
Definition run (i n : nat) : list event := repeat (Statement i) n.

Definition final (es : list event) (s : Db) : option world := play_all toy_handler es (world0 s).

Definition outcomes (w : world) : list (option (result Failure unit)) :=
  (fun p : prog unit => match p with Done r => Some r | _ => None end) <$> threads w.

Definition plaid : Tuple := ("plaid", INCOME, AUTHORIZED_SANDBOX).

Definition manifest_input : ProposeManifestInput :=
  {| pi_tuple := plaid; pi_adapterVersion := "1"; pi_endpointAllowlist := [];
     pi_dataClassifications := []; pi_proposedBy := "alice"; pi_validFrom := None;
     pi_validUntil := None; pi_declaredCommandClass := None |}.

(** Proposes, certifies and approves manifest [m], handlers [i] to [i + 2]. *)
Definition promote (i : nat) (m : string) : list event :=
  [Spawn (OpPropose false m manifest_input)] ++ run i 3 ++
  [Spawn (OpCertify false ("c" +:+ m) m "sandbox" "carol" PASSED "evidence" None)] ++ run (i + 1) 3 ++
  [Spawn (OpApprove false ("a" +:+ m) m "compliance" "bob" APPROVED None)] ++ run (i + 2) 3.

(** ** Witnesses *)

(** Two dispatches of one effect, the second starting while the first is in
    flight. *)
Definition two_dispatches : list event :=
  [Spawn (OpDispatch (ids "1") (request None)); Spawn (OpDispatch (ids "2") (request None))] ++
  run 0 5 ++ run 1 5 ++ run 0 3 ++ [Answer 0 answer1] ++ run 0 2 ++ run 1 3.

(** A promotion, then a dispatch to the promoted sandbox. *)
Definition live_dispatch : list event :=
  promote 0 "m1" ++ [Spawn (OpActivate false "act" "m1" "sandbox" "op" None)] ++ run 3 6 ++
  [Spawn (OpDispatch (ids "1") (request (Some AUTHORIZED_SANDBOX)))] ++ run 4 9 ++ [Answer 4 answer1].

Lemma Inv_unpromoted s :
  manifests s = ∅ -> approvals s = ∅ -> activations s = ∅ ->
  (forall k i, intents s !! k = Some i -> it_id i = k) ->
  (forall k1 k2 i j, intents s !! k1 = Some i -> intents s !! k2 = Some j -> k1 = k2) -> Inv s.
Proof.
  intros Em Ea Ec H1 H2. split; [exact H1|eauto| | | |]; rewrite ?Em, ?Ea, ?Ec; intros;
    match goal with H : _ !! _ = Some _ |- _ => by apply lookup_empty_Some in H end.
Qed.

Lemma Inv_db0 : Inv db0.
Proof.
  assert (intents db0 = ∅) as Ei by reflexivity.
  apply Inv_unpromoted; try reflexivity; rewrite Ei; intros;
  match goal with H : _ !! _ = Some _ |- _ => by apply lookup_empty_Some in H end.
Qed.

Lemma final_reachable es s w : final es s = Some w ->
  reachable toy_encrypt toy_decrypt toy_isEnvelope toy_sha256 toy_date toy_parse toy_registry 24 s w.
Proof. apply play_all_steps. Qed.

Lemma one_submission_per_effect_witness :
  exists w, reachable toy_encrypt toy_decrypt toy_isEnvelope toy_sha256 toy_date toy_parse
      toy_registry 24 db0 w /\ length (calls w) = 1%nat /\
    forall e, (length (filter (fun q => effect_of (iv_row (su_intent q)) = e) (calls w)) <= 1)%nat.
Proof.
  assert ((fun w => length (calls w)) <$> final two_dispatches db0 = Some 1%nat) as Hc
    by (vm_compute; reflexivity).
  destruct (final two_dispatches db0) as [w|] eqn:E; [|discriminate Hc].
  injection Hc as Hc. apply final_reachable in E. exists w. split; [exact E|]. split; [exact Hc|].
  exact (proj1 (one_submission_per_effect _ _ _ _ _ _ _ _ db0 w Inv_db0 E)).
Defined.

Lemma live_calls_are_promoted_witness :
  exists w, reachable toy_encrypt toy_decrypt toy_isEnvelope toy_sha256 toy_date toy_parse
      toy_registry 24 db0 w /\ su_mode <$> calls w = [AUTHORIZED_SANDBOX] /\
    exists m, governed_by (db w) plaid m.
Proof.
  assert ((fun w => (su_mode <$> calls w, isActivated plaid (db w))) <$> final live_dispatch db0 =
    Some ([AUTHORIZED_SANDBOX], true)) as Hc by (vm_compute; reflexivity).
  destruct (final live_dispatch db0) as [w|] eqn:E; [|discriminate Hc].
  injection Hc as Hc Ha. apply final_reachable in E. exists w. split; [exact E|]. split; [exact Hc|].
  exact (proj2 (live_calls_are_promoted _ _ _ _ _ _ _ _ db0 w Inv_db0 E) plaid Ha).
Defined.

Lemma provider_history_is_durable_witness :
  exists w, reachable toy_encrypt toy_decrypt toy_isEnvelope toy_sha256 toy_date toy_parse
      toy_registry 24 db0 w /\ (it_state <$> intents (db w) !! "i1") = Some SUCCEEDED /\
    (forall w', steps toy_encrypt toy_decrypt toy_isEnvelope toy_sha256 toy_date toy_parse
       toy_registry 24 w w' -> (it_state <$> intents (db w') !! "i1") = Some SUCCEEDED).
Proof.
  assert ((fun w => it_state <$> intents (db w) !! "i1") <$> final two_dispatches db0 =
    Some (Some SUCCEEDED)) as Hc by (vm_compute; reflexivity).
  destruct (final two_dispatches db0) as [w|] eqn:E; [|discriminate Hc].
  injection Hc as Hc. apply final_reachable in E. exists w. split; [exact E|]. split; [exact Hc|].
  intros w' Hs. destruct (intents (db w) !! "i1") as [i|] eqn:Hi; [|discriminate Hc].
  injection Hc as Hc.
  destruct (proj1 (provider_history_is_durable _ _ _ _ _ _ _ _ db0 w w' Inv_db0 E Hs) _ _ Hi)
    as (j & Hj & _ & Hf).
  rewrite Hj. simpl. rewrite Hf; [by rewrite Hc|by rewrite Hc].
Defined.

Definition toy_dispatch (n : string) (mode : option ProviderMode) : prog Dsl.value :=
  dispatchProviderRequest toy_encrypt toy_decrypt toy_sha256 toy_date toy_parse toy_registry
    (ids n) (request mode).

Lemma dispatch_needs_authority_witness :
  exists hist q k, reach (toy_dispatch "1" None) hist (Call q k) /\ length hist = 8%nat /\
    gr_consentRecordIds (su_grant q) = ["consent"] /\ call_authority (request None) sim_adapter hist q.
Proof.
  pose proof (advance_reach 8 (toy_dispatch "1" None) db0) as Hr.
  assert (match advance 8 (toy_dispatch "1" None) db0 with
          | (h, Call q _) => Some (length h, gr_consentRecordIds (su_grant q)) | _ => None end =
    Some (8%nat, ["consent"])) as Hc by (vm_compute; reflexivity).
  destruct (advance 8 (toy_dispatch "1" None) db0) as [h [r|B m k|q k]]; try discriminate Hc.
  injection Hc as Hl Hg. exists h, q, k. split; [exact Hr|]. split; [exact Hl|]. split; [exact Hg|].
  destruct (dispatch_needs_authority _ _ _ _ _ _ _ _ _ _ _ Hr) as (a & Ha & _ & Hau).
  assert (a = sim_adapter) as -> by (vm_compute in Ha; injection Ha as <-; reflexivity). exact Hau.
Defined.

(** The intent of a dispatch that succeeded. *)
Definition intent1 : ProviderOperationIntent :=
  {| it_id := "i1"; it_tenantId := "t"; it_caseId := "c"; it_providerId := "sim";
     it_capability := INCOME; it_effectClass := READ_ONLY; it_requestFingerprint := "r";
     it_idempotencyKey := "key1"; it_logicalOperationKey := "c:INCOME:UNDERWRITING_EVIDENCE";
     it_authorizationGrantId := "g1";
     it_providerReceipt := Some (toy_encrypt "iv1" "t:i1:receipt" (receipt_value (Dsl.VString "income") "now"));
     it_normalizedFinding := Some (toy_encrypt "jv1" "t:i1:finding" (Dsl.VString "income"));
     it_state := SUCCEEDED; it_resolvedBy := None; it_resolutionNote := None;
     it_createdAt := 900; it_updatedAt := 900 |}.

Definition db1 : Db := with_intents {[ "i1" := intent1 ]} db0.

Lemma Inv_db1 : Inv db1.
Proof.
  assert (intents db1 = {[ "i1" := intent1 ]}) as Ei by reflexivity.
  apply Inv_unpromoted; try reflexivity; rewrite Ei.
  - by intros k i [<- <-]%lookup_singleton_Some.
  - by intros k1 k2 i j [<- _]%lookup_singleton_Some [<- _]%lookup_singleton_Some.
Qed.

Lemma retry_never_resubmits_witness :
  exists s2, intents s2 = intents db1 /\
    exec (fun _ => OtherError true) (toy_dispatch "2" None) db1 = (Ok (Dsl.VString "income"), s2, []).
Proof.
  destruct (retry_never_resubmits toy_encrypt toy_decrypt toy_sha256 toy_date toy_parse toy_registry
    (fun _ => OtherError true) (ids "2") (request None) sim_adapter consent1 None db1 db1 "i1" intent1
    {| iv_row := intent1;
       iv_providerReceipt := Some (receipt_value (Dsl.VString "income") "now");
       iv_normalizedFinding := Some (Dsl.VString "income") |}) as (s2 & Hs & He).
  - exact Inv_db1.
  - split; try (vm_compute; reflexivity).
    + intros H. destruct H. vm_compute. reflexivity.
  - vm_compute. reflexivity.
  - split; vm_compute; reflexivity.
  - discriminate.
  - vm_compute. reflexivity.
  - exists s2. split; [exact Hs|]. unfold toy_dispatch. rewrite He. reflexivity.
Defined.

Lemma dispatch_outcome_is_recorded_witness :
  exists r s' q l, exec (fun _ => OtherError true) (toy_dispatch "1" None) db0 = (r, s', [q]) /\
    intents s' !! token q = Some l /\ r = Err (ProviderUnavailable true) /\ it_state l = OUTCOME_UNKNOWN.
Proof.
  destruct (exec (fun _ => OtherError true) (toy_dispatch "1" None) db0) as [[r s'] qs] eqn:E.
  destruct qs as [|q qs]; [vm_compute in E; discriminate E|].
  destruct (dispatch_outcome_is_recorded toy_encrypt toy_decrypt toy_sha256 toy_date toy_parse
    toy_registry _ (ids "1") (request None) db0 r s' q qs E) as (l & -> & Hl & Hr & Hs).
  exists r, s', q, l. split; [reflexivity|]. split; [exact Hl|]. split; [exact Hr|exact Hs].
Defined.

Definition manifest1 : ProviderPromotionManifest :=
  {| mf_id := "m1"; mf_providerId := "plaid"; mf_capability := INCOME; mf_mode := AUTHORIZED_SANDBOX;
     mf_version := 1; mf_adapterVersion := "1"; mf_endpointAllowlist := []; mf_dataClassifications := [];
     mf_contentHash := "h"; mf_proposedBy := "alice"; mf_proposedAt := 100; mf_validFrom := 100;
     mf_validUntil := None; mf_declaredCommandClass := None |}.

Definition db_promoted : Db :=
  with_manifests {[ "m1" := manifest1 ]}
    (with_certifications {[ "c1" :=
       {| ce_id := "c1"; ce_manifestId := "m1"; ce_environment := "sandbox"; ce_certifiedBy := "carol";
          ce_decision := PASSED; ce_evidenceRef := "e"; ce_decidedAt := 200; ce_expiresAt := Some 1000 |} ]}
    (with_approvals {[ "a1" :=
       {| pr_id := "a1"; pr_manifestId := "m1"; pr_approvalRole := "r"; pr_approvedBy := "bob";
          pr_decision := APPROVED; pr_decidedAt := 300; pr_expiresAt := None |} ]} db0)).

Lemma activate_decides_witness :
  activatable db_promoted manifest1 "sandbox" None /\
  exists a s', exec (fun _ : Submission => OtherError true)
      (activateManifest false "act" "m1" "sandbox" "op" None) db_promoted = (Ok a, s', []) /\ isActivated plaid s' = true.
Proof.
  assert (activatable db_promoted manifest1 "sandbox" None) as Ha.
  { split_and!; [vm_compute; eexists; reflexivity|vm_compute; eexists; reflexivity|reflexivity]. }
  split; [exact Ha|].
  destruct (proj1 (activate_decides (fun _ => OtherError true) false "act" "sandbox" "op" None db_promoted
    manifest1 ltac:(reflexivity)) Ha) as (a & s' & He & _ & _ & _ & _ & Hact).
  exists a, s'. split; [exact He|exact Hact].
Defined.
End ProviderTheorems.
