(* ===== verification/ProviderRaces.v ===== *)
(** * Interleavings of the provider platform, run

    Concrete schedules of the handlers of [ProviderTheorems.v]: the witnesses
    of its theorems, and the interleavings in which the services do not do
    what they are documented to do.  The cipher, the hash and the schemas are
    instantiated by small functions. *)

From Stdlib Require Import Ascii.
From stdpp Require Import gmap strings list.
From S2P Require Import Prelude PolicyDsl PolicyDigest Concurrency ProviderTables Consent ConsentTheorems ProviderPlatform ProviderDispatch ProviderTheorems.

Module ProviderRaces.
Import Threads Tables Consent Platform Dispatch ProviderTheorems.

Definition intent_view (k : string) (w : world) :=
  (fun i => (it_state i, it_providerReceipt i, it_normalizedFinding i)) <$> intents (db w) !! k.

Definition dispatch1 : Op := OpDispatch (ids "1") (request None).
Definition dispatch2 : Op := OpDispatch (ids "2") (request None).
Definition revoke1 : Op := OpRevoke "task" "t" "c" None.

(** ** Two first attempts at one effect *)

Definition prepare_race : list event :=
  [Spawn dispatch1; Spawn dispatch2] ++ run 0 4 ++ run 1 4 ++ run 0 1 ++ run 1 1.

(** The unique index lets one of two concurrent first attempts insert
    the intent, but the other does not reuse it: its transaction is aborted
    by the failed insert, the reload inside the same transaction fails too,
    and the request ends with a database error. *)
Theorem lost_prepare_race_fails :
  exists w, final prepare_race db0 = Some w /\
    outcomes w = [None; Some (Err TransactionAborted)] /\
    intent_view "i1" w = Some (PREPARED, None, None).
Proof. eexists. split; [vm_compute; reflexivity|]. split; vm_compute; reflexivity. Qed.

(** ** A late revalidation failure *)

Definition late_failure : list event :=
  [Spawn dispatch1; Spawn dispatch2; Spawn revoke1] ++ run 0 5 ++ run 1 5 ++ run 0 3 ++
  [Answer 0 answer1] ++ run 2 4 ++ run 1 3 ++ run 0 3.

(** A second attempt that prepared the same intent and then fails its
    revalidation marks the intent FAILED_FINAL even though the first attempt
    has dispatched it meanwhile; the first attempt's successful answer is
    then dropped, and a completed provider operation is on record as a final
    failure without its receipt. *)
Theorem late_failure_drops_a_success :
  exists w, final late_failure db0 = Some w /\
    length (calls w) = 1%nat /\ intent_view "i1" w = Some (FAILED_FINAL, None, None) /\
    outcomes w = [Some (Err (ProviderIntentTransition (Some FAILED_FINAL) FAILED_FINAL));
                  Some (Err (ProviderRevalidation
                    "references a consent record which is no longer granted and unrevoked"));
                  Some (Ok tt)].
Proof. eexists. split; [vm_compute; reflexivity|]. split_and!; vm_compute; reflexivity. Qed.

(** ** A revocation and a dispatch *)

Definition review_race : list event :=
  [Spawn revoke1; Spawn dispatch1] ++ run 0 3 ++ run 1 8 ++ [Answer 1 answer1] ++ run 1 2 ++ run 0 1.

(** A dispatch that runs between the revocation's read of the case's
    intents and its commit obtains a provider result after that read: consent
    is revoked and the review is open, but the review does not list the
    result. *)
Theorem review_misses_inflight_result :
  exists w, final review_race db0 = Some w /\ outcomes w = [Some (Ok tt); Some (Ok tt)] /\
    getStatus "t" "c" (db w) = REVOKED /\
    (dt_affectedProviderIntentIds <$> tasks (db w) !! "task") = Some [] /\
    intent_view "i1" w = Some (SUCCEEDED,
      Some (toy_encrypt "iv1" "t:i1:receipt" (receipt_value (Dsl.VString "income") "now")),
      Some (toy_encrypt "jv1" "t:i1:finding" (Dsl.VString "income"))).
Proof. eexists. split; [vm_compute; reflexivity|]. split_and!; vm_compute; reflexivity. Qed.

(** ** A deletion and a key rotation *)

Definition rotation_race : list event :=
  [Spawn dispatch1] ++ run 0 8 ++ [Answer 0 answer1] ++ run 0 2 ++
  [Spawn revoke1] ++ run 1 4 ++ [Spawn (OpRotate "riv" "rjv")] ++ run 2 1 ++
  [Spawn (OpResolveTask false "t" "task" DELETE "reviewer")] ++ run 3 4 ++ run 2 1.

(** A key rotation writes back what it read: when a deletion commits in
    between, the task is COMPLETED as DELETED and yet the erased provider
    result is on record again. *)
Theorem rotation_restores_deleted_payload :
  exists w, final rotation_race db0 = Some w /\
    ((fun t => (dt_status t, dt_resolutionOutcome t)) <$> tasks (db w) !! "task") =
      Some (COMPLETED, Some DELETED) /\
    intent_view "i1" w = Some (SUCCEEDED,
      Some (toy_encrypt "riv" "t:i1:receipt" (receipt_value (Dsl.VString "income") "now")),
      Some (toy_encrypt "rjv" "t:i1:finding" (Dsl.VString "income"))).
Proof. eexists. split; [vm_compute; reflexivity|]. split_and!; vm_compute; reflexivity. Qed.

(** ** Two activations *)

Definition promoted3 : list event :=
  promote 0 "m1" ++ promote 3 "m2" ++ promote 6 "m3" ++
  [Spawn (OpActivate false "act" "m1" "sandbox" "op" None)] ++ run 9 6 ++
  [Spawn (OpActivate false "x" "m2" "sandbox" "op2" (Some 1));
   Spawn (OpActivate false "y" "m3" "sandbox" "op3" (Some 1))].

Definition activation_view (w : world) :=
  ((fun a => (ac_manifestVersion a, ac_activatedBy a)) <$> activations (db w) !! plaid,
   drop 10 (outcomes w)).

(** The expected manifest version is compared before the row is written,
    not with it: two operators who both expect version 1 both activate, and
    the second silently replaces the first; the same two requests one after
    the other end with the second refused. *)
Theorem activation_lock_is_not_atomic :
  (activation_view <$> final (promoted3 ++ run 10 4 ++ run 11 4 ++ run 10 2 ++ run 11 2) db0) =
    Some (Some (3, "op3"), [Some (Ok tt); Some (Ok tt)]) /\
  (activation_view <$> final (promoted3 ++ run 10 6 ++ run 11 4) db0) =
    Some (Some (2, "op2"), [Some (Ok tt);
      Some (Err (BadRequest "activation has moved: reload and retry"))]).
Proof. split; vm_compute; reflexivity. Qed.
End ProviderRaces.
