(* ===== verification/WebhookGuard.v ===== *)
(** * The webhook target guard

    webhooks/webhook-url-guard.ts decides which addresses the worker may post
    a webhook to.  Addresses are text; [isIPv4] and [isIPv6] of node:net are
    written out as parsers, which also give the reference meaning of an
    address.  [new URL] and the DNS resolver are parameters.

    The theorems say that the guard's bit manipulations decide exactly
    membership in the special-purpose address blocks, for every spelling of an
    address, and what the guard lets through. *)

From Stdlib Require Import Ascii.
From stdpp Require Import strings list pretty.
From S2P Require Import Prelude.

Module Guard.
Local Open Scope Z_scope.

(** ** Text and numbers *)

Definition is_digit (c : ascii) : bool :=
  let n := nat_of_ascii c in ((48 <=? n) && (n <=? 57))%nat.

(** The value of a hexadecimal digit. *)
Definition hex_digit (c : ascii) : option Z :=
  let n := Z.of_nat (nat_of_ascii c) in
  if (48 <=? n) && (n <=? 57) then Some (n - 48)
  else if (97 <=? n) && (n <=? 102) then Some (n - 87)
  else if (65 <=? n) && (n <=? 70) then Some (n - 55)
  else None.

Definition all_chars (p : ascii -> bool) (s : string) : bool :=
  forallb p (String.list_ascii_of_string s).

(** [Number(s)] of a string of decimal digits. *)
Definition decimal (s : string) : Z :=
  foldl (fun acc c => acc * 10 + (Z.of_nat (nat_of_ascii c) - 48)) 0
    (String.list_ascii_of_string s).

(** The longest prefix of hexadecimal digits, read as a number. *)
Fixpoint hex_prefix (acc : option Z) (s : string) : option Z :=
  match s with
  | String c s' =>
      match hex_digit c with
      | Some d => hex_prefix (Some (default 0 acc * 16 + d)) s'
      | None => acc
      end
  | EmptyString => acc
  end.

Fixpoint skip_space (s : string) : string :=
  match s with
  | String c s' => if JS.is_space c then skip_space s' else s
  | EmptyString => s
  end.

(** [parseInt(s, 16)]; [None] is [NaN]. *)
Definition parseInt16 (s : string) : option Z :=
  let unsigned s :=
    match s with
    | String "0" (String "x" s') | String "0" (String "X" s') => hex_prefix None s'
    | _ => hex_prefix None s
    end in
  match skip_space s with
  | String "-" s' => Z.opp <$> unsigned s'
  | String "+" s' => unsigned s'
  | s' => unsigned s'
  end%char.

(** The first occurrence of [::], with what stands before and after it. *)
Fixpoint cut (s : string) : option (string * string) :=
  match s with
  | String c s' =>
      match s' with
      | String d s'' =>
          if Ascii.eqb c ":" && Ascii.eqb d ":" then Some (EmptyString, s'')
          else (fun '(h, t) => (String c h, t)) <$> cut s'
      | EmptyString => None
      end
  | EmptyString => None
  end.

(** ** Addresses, as node:net reads them *)

(** A decimal octet without leading zeros. *)
Definition octet (s : string) : option Z :=
  let n := String.length s in
  if ((1 <=? n) && (n <=? 3))%nat && all_chars is_digit s &&
     ((n =? 1)%nat || negb (String.prefix "0" s)) && (decimal s <=? 255)
  then Some (decimal s) else None.

Definition parse_ipv4 (s : string) : option (list Z) :=
  match JS.split_on "." s with
  | [a; b; c; d] =>
      a ← octet a; b ← octet b; c ← octet c; d ← octet d; Some [a; b; c; d]
  | _ => None
  end.

Definition isIPv4 (s : string) : bool := bool_decide (is_Some (parse_ipv4 s)).

(** One to four hexadecimal digits. *)
Definition segment (s : string) : option Z :=
  let n := String.length s in
  if ((1 <=? n) && (n <=? 4))%nat &&
     all_chars (fun c => bool_decide (is_Some (hex_digit c))) s
  then hex_prefix None s else None.

(** Groups between colons; the last may be an IPv4 address, which is two. *)
Fixpoint parse_groups (ps : list string) : option (list Z) :=
  match ps with
  | [] => Some []
  | p :: ps' =>
      match ps', parse_ipv4 p with
      | [], Some [a; b; c; d] => Some [a * 256 + b; c * 256 + d]
      | _, _ => g ← segment p; gs ← parse_groups ps'; Some (g :: gs)
      end
  end.

Definition plain_groups (ps : list string) : option (list Z) := mapM segment ps.

Definition pieces (s : string) : list string :=
  if JS.truthy s then JS.split_on ":" s else [].

Definition parse_ipv6 (s : string) : option (list Z) :=
  match cut s with
  | None =>
      gs ← parse_groups (JS.split_on ":" s);
      if (length gs =? 8)%nat then Some gs else None
  | Some (h, t) =>
      hs ← plain_groups (pieces h);
      ts ← parse_groups (pieces t);
      if (length hs + length ts <=? 7)%nat
      then Some (hs ++ replicate (8 - (length hs + length ts)) 0 ++ ts) else None
  end.

(** The part before a zone identifier, which has to be a non-empty word. *)
Fixpoint before_zone (s : string) : string * option string :=
  match s with
  | EmptyString => (EmptyString, None)
  | String c s' =>
      if Ascii.eqb c "%" then (EmptyString, Some s')
      else let '(a, z) := before_zone s' in (String c a, z)
  end.

Definition zone_char (c : ascii) : bool :=
  let n := nat_of_ascii c in
  (is_digit c || ((97 <=? n) && (n <=? 122)) || ((65 <=? n) && (n <=? 90)) ||
   (n =? 45) || (n =? 46) || (n =? 58))%nat.

Definition isIPv6 (s : string) : bool :=
  let '(a, z) := before_zone s in
  bool_decide (is_Some (parse_ipv6 a)) &&
  match z with
  | None => true
  | Some z => JS.truthy z && all_chars zone_char z
  end.

Definition no_zone (s : string) : bool := all_chars (fun c => negb (Ascii.eqb c "%")) s.

(** ** IPv4 *)

Record Ipv4Range := { base : Z; prefixLength : Z }.

Definition ipv4ToInt (address : string) : Z :=
  foldl (fun acc o => JS.shl acc 8 + decimal o) 0 (JS.split_on "." address).

Definition range (cidr : string) : Ipv4Range :=
  match JS.split_on "/" cidr with
  | b :: p :: _ => {| base := ipv4ToInt b; prefixLength := decimal p |}
  | _ => {| base := ipv4ToInt cidr; prefixLength := 0 |}
  end.

Definition BLOCKED_IPV4_RANGES : list Ipv4Range :=
  range <$> ["0.0.0.0/8"; "10.0.0.0/8"; "100.64.0.0/10"; "127.0.0.0/8"; "169.254.0.0/16";
             "172.16.0.0/12"; "192.0.0.0/24"; "192.0.2.0/24"; "192.168.0.0/16"; "198.18.0.0/15";
             "198.51.100.0/24"; "203.0.113.0/24"; "224.0.0.0/4"; "240.0.0.0/4"].

Definition matches (value : Z) (r : Ipv4Range) : bool :=
  JS.ushr value (32 - prefixLength r) =? JS.ushr (base r) (32 - prefixLength r).

Definition isBlockedIpv4 (address : string) : bool :=
  existsb (matches (ipv4ToInt address)) BLOCKED_IPV4_RANGES.

(** ** IPv6 *)

(** The leftmost match of [/(\d+\.\d+\.\d+\.\d+)$/] with what precedes it. *)
Definition dotted (s : string) : bool :=
  match JS.split_on "." s with
  | [a; b; c; d] => forallb (fun p => JS.truthy p && all_chars is_digit p) [a; b; c; d]
  | _ => false
  end.

Fixpoint ipv4Tail (s : string) : option (string * string) :=
  if dotted s then Some (EmptyString, s) else
  match s with
  | EmptyString => None
  | String c s' => (fun '(p, t) => (String c p, t)) <$> ipv4Tail s'
  end.

Definition hex_char (d : Z) : ascii :=
  ascii_of_nat (Z.to_nat (if d <? 10 then 48 + d else 87 + d)).

(** [n.toString(16)] *)
Fixpoint hex_digits (fuel : nat) (n : Z) : string :=
  match fuel with
  | O => EmptyString
  | S fuel' =>
      (if n <? 16 then EmptyString else hex_digits fuel' (n / 16)) +:+
      String (hex_char (n mod 16)) EmptyString
  end.
Definition toString16 (n : Z) : string := hex_digits (S (Z.to_nat (Z.log2 n))) n.

(** [o.toString(16).padStart(2, '0')] *)
Definition hex2 (o : Z) : string :=
  let s := toString16 o in if (String.length s <? 2)%nat then "0" +:+ s else s.

Definition normalize (address : string) : string :=
  match ipv4Tail address with
  | None => address
  | Some (p, t) =>
      match decimal <$> JS.split_on "." t with
      | [a; b; c; d] => p +:+ hex2 a +:+ hex2 b +:+ ":" +:+ hex2 c +:+ hex2 d
      | _ => address
      end
  end.

(** [s.split(':').filter(Boolean)] *)
Definition nonempty_pieces (s : string) : list string :=
  List.filter JS.truthy (JS.split_on ":" s).

(** The groups of the text, the gap of [::] filled with zeros. *)
Definition groups (address : string) : list string :=
  let normalized := normalize address in
  let '(head, tail) :=
    match cut normalized with
    | Some (h, t) => (h, Some (match cut t with Some (t', _) => t' | None => t end))
    | None => (normalized, None)
    end in
  let headGroups := if JS.truthy head then nonempty_pieces head else [] in
  let tailGroups := match tail with Some t => nonempty_pieces t | None => [] end in
  let missing := 8 - Z.of_nat (length headGroups) - Z.of_nat (length tailGroups) in
  headGroups ++ replicate (Z.to_nat (Z.max missing 0)) "0" ++ tailGroups.

(** [None] when [BigInt(NaN)] throws. *)
Definition ipv6ToBigInt (address : string) : option Z :=
  foldl (fun acc group =>
    acc ← acc; g ← parseInt16 (if JS.truthy group then group else "0");
    Some (Z.shiftl acc 16 + g)) (Some 0) (groups address).

(** The dotted form of the low 32 bits. *)
Definition embedded_ipv4 (value : Z) : string :=
  let embedded := Z.land value 0xffffffff in
  let o n := pretty (Z.to_N (Z.land (Z.shiftr embedded n) 0xff)) in
  o 24 +:+ "." +:+ o 16 +:+ "." +:+ o 8 +:+ "." +:+ o 0.

Definition isBlockedIpv6 (address : string) : option bool :=
  value ← ipv6ToBigInt address;
  Some (
    let firstGroup := Z.shiftr value 112 in
    if value =? 0 then true else
    if value =? 1 then true else
    if (0xfc00 <=? firstGroup) && (firstGroup <=? 0xfdff) then true else
    if (0xfe80 <=? firstGroup) && (firstGroup <=? 0xfebf) then true else
    if (0xff00 <=? firstGroup) && (firstGroup <=? 0xffff) then true else
    if Z.shiftr value 32 =? 0xffff then isBlockedIpv4 (embedded_ipv4 value)
    else false).

Definition isBlockedAddress (address : string) : option bool :=
  if isIPv4 address then Some (isBlockedIpv4 address) else
  if isIPv6 address then isBlockedIpv6 address else Some true.

Definition LOOPBACK_IPV4 : Ipv4Range := range "127.0.0.0/8".

(** [isLoopback] calls itself on the embedded address, which is an IPv4
    address, so a second level is the last. *)
Definition isLoopback_with (again : string -> option bool) (address : string) : option bool :=
  if isIPv4 address then Some (matches (ipv4ToInt address) LOOPBACK_IPV4) else
  if isIPv6 address then
    value ← ipv6ToBigInt address;
    if value =? 1 then Some true else
    if Z.shiftr value 32 =? 0xffff then again (embedded_ipv4 value) else Some false
  else Some false.

Definition isLoopback : string -> option bool :=
  isLoopback_with (isLoopback_with (fun _ => Some false)).

Inductive NodeEnvironment := Development | Production | Staging | Test.

Definition isSandboxEnvironment (nodeEnv : NodeEnvironment) : bool :=
  match nodeEnv with Development | Test => true | _ => false end.

(** ** The guard *)

Inductive GuardError :=
| InvalidUrl (targetUrl : string)
| BadProtocol (protocol : string)
| Unresolvable (hostname : string)
| NoAddress (hostname : string)
| Reserved (hostname : string) (addresses : list string)
| RangeError.

Record Url := { protocol : string; hostname : string }.

Fixpoint filterM (p : string -> option bool) (l : list string) : option (list string) :=
  match l with
  | [] => Some []
  | x :: l' => b ← p x; rest ← filterM p l'; Some (if b : bool then x :: rest else rest)
  end.

(** [hostname.slice(1, -1)] when it is bracketed. *)
Definition bare (h : string) : string :=
  match h with
  | String "[" r =>
      if String.eqb (String.substring (String.length h - 1) 1 h) "]"
      then String.substring 1 (String.length h - 2) h else h
  | _ => h
  end%char.

Section Target.
Context (parse_url : string -> option Url).
Context (resolveHostname : string -> option (list string)).

(** The addresses the guard looks at: the literal, or what DNS returns. *)
Definition target_addresses (h : string) : option (list string) :=
  if isIPv4 (bare h) || isIPv6 (bare h) then Some [bare h] else resolveHostname h.

Definition assertPublicWebhookTarget (allowLoopbackForSandbox : bool) (targetUrl : string)
  : result GuardError unit :=
  match parse_url targetUrl with
  | None => Err (InvalidUrl targetUrl)
  | Some u =>
      if negb (String.eqb (protocol u) "http:") && negb (String.eqb (protocol u) "https:")
      then Err (BadProtocol (protocol u)) else
      match target_addresses (hostname u) with
      | None => Err (Unresolvable (hostname u))
      | Some [] => Err (NoAddress (hostname u))
      | Some addresses =>
          let blocked :=
            bl ← filterM isBlockedAddress addresses;
            filterM (fun a => if allowLoopbackForSandbox then negb <$> isLoopback a else Some true) bl in
          match blocked with
          | None => Err RangeError
          | Some [] => Ok tt
          | Some bl => Err (Reserved (hostname u) bl)
          end
      end
  end.
End Target.

(** ** The reference: special-purpose blocks by their first and last address *)

Definition addr4 (os : list Z) : Z := foldl (fun acc o => acc * 256 + o) 0 os.

Definition special_blocks : list (list Z * list Z) :=
  [([0; 0; 0; 0], [0; 255; 255; 255]); ([10; 0; 0; 0], [10; 255; 255; 255]);
   ([100; 64; 0; 0], [100; 127; 255; 255]); ([127; 0; 0; 0], [127; 255; 255; 255]);
   ([169; 254; 0; 0], [169; 254; 255; 255]); ([172; 16; 0; 0], [172; 31; 255; 255]);
   ([192; 0; 0; 0], [192; 0; 0; 255]); ([192; 0; 2; 0], [192; 0; 2; 255]);
   ([192; 168; 0; 0], [192; 168; 255; 255]); ([198; 18; 0; 0], [198; 19; 255; 255]);
   ([198; 51; 100; 0], [198; 51; 100; 255]); ([203; 0; 113; 0], [203; 0; 113; 255]);
   ([224; 0; 0; 0], [239; 255; 255; 255]); ([240; 0; 0; 0], [255; 255; 255; 255])].

Definition special4 (v : Z) : bool :=
  existsb (fun '(lo, hi) => (addr4 lo <=? v) && (v <=? addr4 hi)) special_blocks.
Definition loop4 (v : Z) : bool :=
  (addr4 [127; 0; 0; 0] <=? v) && (v <=? addr4 [127; 255; 255; 255]).

(** An IPv6 address as a number, and its IPv4-mapped address if it is one. *)
Definition addr6 (gs : list Z) : Z := foldl (fun acc g => acc * 65536 + g) 0 gs.
Definition mapped (gs : list Z) : option Z :=
  match gs with
  | [0; 0; 0; 0; 0; 65535; h; l] => Some (h * 65536 + l)
  | _ => None
  end.

(** Unspecified, loopback, unique local, link-local, multicast, or the mapping
    of a special IPv4 address. *)
Definition special6 (gs : list Z) : bool :=
  (addr6 gs <=? 1) ||
  match gs with
  | g :: _ => ((64512 <=? g) && (g <=? 65023)) || ((65152 <=? g) && (g <=? 65215)) || (65280 <=? g)
  | [] => false
  end ||
  match mapped gs with Some v => special4 v | None => false end.

Definition special (address : string) : bool :=
  match parse_ipv4 address, parse_ipv6 address with
  | Some os, _ => special4 (addr4 os)
  | None, Some gs => special6 gs
  | None, None => true
  end.

Definition loopback (address : string) : bool :=
  match parse_ipv4 address, parse_ipv6 address with
  | Some os, _ => loop4 (addr4 os)
  | None, Some gs => (addr6 gs =? 1) || match mapped gs with Some v => loop4 v | None => false end
  | None, None => false
  end.

(** ** IPv4 text *)

Definition byte (z : Z) : Prop := 0 <= z < 256.

Lemma decimal_nonneg_aux cs acc :
  forallb is_digit cs = true -> 0 <= acc ->
  0 <= foldl (fun acc c => acc * 10 + (Z.of_nat (nat_of_ascii c) - 48)) acc cs.
Proof.
  revert acc. induction cs as [|c cs IH]; intros acc Hd Hacc; simpl; [done|].
  simpl in Hd. apply andb_true_iff in Hd as [Hc Hd]. apply IH; [done|].
  unfold is_digit in Hc. apply andb_true_iff in Hc as [Hlo _].
  apply Nat.leb_le in Hlo. lia.
Qed.

Lemma octet_Some s z : octet s = Some z -> z = decimal s /\ byte z /\ all_chars is_digit s = true /\ JS.truthy s = true.
Proof.
  unfold octet. destruct (_ && _) eqn:E; [|done]. intros [= <-].
  apply andb_true_iff in E as [E Hle]. apply andb_true_iff in E as [E _].
  apply andb_true_iff in E as [E Hd]. apply Z.leb_le in Hle.
  split; [done|]. split; [split; [|lia]|].
  - by apply decimal_nonneg_aux.
  - split; [done|]. by destruct s.
Qed.

Lemma parse_ipv4_Some s os :
  parse_ipv4 s = Some os ->
  exists ps, JS.split_on "." s = ps /\ length ps = 4%nat /\ os = decimal <$> ps /\ Forall byte os /\ dotted s = true.
Proof.
  unfold parse_ipv4, dotted.
  destruct (JS.split_on "." s) as [|a [|b [|c [|d [|]]]]] eqn:E; try done.
  intros H. simplify_option_eq.
  repeat match goal with H : octet _ = Some _ |- _ => apply octet_Some in H as (-> & ? & ? & ?) end.
  exists [a; b; c; d]. split; [reflexivity|]. split; [reflexivity|]. split; [reflexivity|]. split; [repeat (apply Forall_cons; split; [done|]); by apply Forall_nil|].
  simpl. repeat match goal with H : _ = true |- _ => rewrite H end. done.
Qed.

(** ToUint32 of the running value is the value itself, whatever the sign of
    the signed intermediate. *)
Lemma uint_step acc o : JS.toUint32 (JS.shl acc 8 + o) = (JS.toUint32 acc * 256 + o) mod 2 ^ 32.
Proof.
  unfold JS.shl. rewrite (Z.mod_small 8 32) by lia. rewrite Z.shiftl_mul_pow2 by lia.
  rewrite <- (Z.mod_mod (_ + o)) by lia. unfold JS.toUint32 at 1.
  rewrite Zplus_mod. fold (JS.toUint32 (JS.toInt32 (JS.toInt32 acc * 2 ^ 8))).
  rewrite JS.toUint32_toInt32. unfold JS.toUint32 at 1. rewrite Zmult_mod.
  fold (JS.toUint32 (JS.toInt32 acc)). rewrite JS.toUint32_toInt32.
  change (2 ^ 8) with 256. rewrite (Z.mod_small 256) by lia.
  rewrite !Z.mod_mod by lia. by rewrite <- Zplus_mod.
Qed.

Lemma ipv4ToInt_value s os : parse_ipv4 s = Some os -> JS.toUint32 (ipv4ToInt s) = addr4 os /\ 0 <= addr4 os < 2 ^ 32.
Proof.
  intros (ps & Hs & Hlen & -> & Hb & _)%parse_ipv4_Some.
  unfold ipv4ToInt. rewrite Hs.
  destruct ps as [|a [|b [|c [|d [|]]]]]; simplify_eq/=. unfold addr4. simpl.
  repeat match goal with H : Forall _ (_ :: _) |- _ => apply Forall_cons in H as [? H] end.
  unfold byte in *. rewrite !uint_step.
  change (JS.toUint32 0) with 0.
  rewrite (Z.mod_small (_ + decimal a)), (Z.mod_small (_ + decimal b)),
    (Z.mod_small (_ + decimal c)), (Z.mod_small (_ + decimal d)) by lia. lia.
Qed.

Lemma matches_interval v r : matches v r = (JS.toUint32 v / 2 ^ ((32 - prefixLength r) mod 32) =? JS.toUint32 (base r) / 2 ^ ((32 - prefixLength r) mod 32)).
Proof.
  unfold matches, JS.ushr. rewrite !Z.shiftr_div_pow2; [done| |]; apply Z.mod_pos_bound; lia.
Qed.

Lemma existsb_map_eq {A B} (f : A -> bool) (g : B -> bool) (l : list A) (l' : list B) :
  Forall2 (fun a b => f a = g b) l l' -> existsb f l = existsb g l'.
Proof. induction 1; simpl; congruence. Qed.

Lemma div_interval v c k : 0 < k -> (v / k =? c) = ((c * k <=? v) && (v <=? c * k + k - 1)).
Proof.
  intros Hk. apply eq_true_iff_eq. rewrite andb_true_iff, Z.eqb_eq, !Z.leb_le.
  pose proof (Z.div_mod v k ltac:(lia)). pose proof (Z.mod_pos_bound v k Hk).
  split; [intros <-; nia|]. intros [??]. symmetry. apply (Z.div_unique v k c (v - c * k)); lia.
Qed.

Lemma blocked_special v :
  existsb (matches v) BLOCKED_IPV4_RANGES = special4 (JS.toUint32 v).
Proof.
  unfold special4. apply existsb_map_eq. unfold BLOCKED_IPV4_RANGES. cbn [fmap list_fmap].
  repeat (apply List.Forall2_cons; [|]); try apply List.Forall2_nil;
  rewrite matches_interval;
  match goal with |- context [range ?s] =>
    let r := eval vm_compute in (range s) in change (range s) with r end;
  cbn [prefixLength base];
  match goal with |- (_ / ?d =? ?x) = _ =>
    let x' := eval vm_compute in x in let d' := eval vm_compute in d in
    change x with x'; change d with d' end;
  rewrite div_interval by lia; f_equal.
Qed.

Lemma isBlockedIpv4_special s os : parse_ipv4 s = Some os -> isBlockedIpv4 s = special4 (addr4 os).
Proof. intros H. unfold isBlockedIpv4. rewrite blocked_special. by rewrite (proj1 (ipv4ToInt_value s os H)). Qed.

(** ** Splitting *)

Lemma all_chars_app p a b : all_chars p (a +:+ b) = all_chars p a && all_chars p b.
Proof.
  induction a as [|c a IH]; [done|]. unfold all_chars in *. simpl. by rewrite IH, andb_assoc.
Qed.

Lemma split_on_cons sep c s :
  JS.split_on sep (String c s) =
  if Ascii.eqb c sep then EmptyString :: JS.split_on sep s
  else match JS.split_on sep s with
       | p :: ps => String c p :: ps
       | [] => [String c EmptyString]
       end.
Proof. done. Qed.

Lemma split_on_not_nil sep s : JS.split_on sep s <> [].
Proof. destruct s; simpl; [done|]. destruct (Ascii.eqb _ _); [done|]. by destruct (JS.split_on _ _). Qed.

Lemma split_on_app sep a b :
  JS.split_on sep (a +:+ String sep b) = JS.split_on sep a ++ JS.split_on sep b.
Proof.
  induction a as [|c a IH].
  - change (EmptyString +:+ String sep b) with (String sep b). by rewrite split_on_cons, Ascii.eqb_refl.
  - change (String c a +:+ String sep b) with (String c (a +:+ String sep b)).
    rewrite !split_on_cons, IH.
    destruct (Ascii.eqb c sep); [done|].
    destruct (JS.split_on sep a) eqn:E; [by apply split_on_not_nil in E|done].
Qed.

Lemma split_on_last sep s ps p :
  JS.split_on sep s = ps ++ [p] -> ps <> [] ->
  exists a, s = a +:+ String sep p /\ JS.split_on sep a = ps.
Proof.
  revert ps. induction s as [|c s IH]; intros ps E Hne.
  - destruct ps as [|? [|]]; simplify_eq/=.
  - rewrite split_on_cons in E. destruct (Ascii.eqb_spec c sep) as [->|Hc].
    + destruct ps as [|q ps]; [done|]. injection E as <- E.
      destruct ps as [|q' ps].
      * exists EmptyString. split; [|done]. change (EmptyString +:+ String sep p) with (String sep p). f_equal.
        clear IH Hne. revert p E. induction s as [|d s IHs]; intros p E; [by simplify_eq/=|].
        rewrite split_on_cons in E. destruct (Ascii.eqb d sep); [by destruct (JS.split_on sep s) eqn:Es; simplify_eq/=; apply split_on_not_nil in Es|].
        destruct (JS.split_on sep s) as [|r [|]] eqn:Es; simplify_eq/=; [by apply split_on_not_nil in Es|].
        f_equal. by apply IHs.
      * destruct (IH (q' :: ps) E ltac:(done)) as (a & -> & Ha).
        exists (String sep a). split; [done|]. by rewrite split_on_cons, Ascii.eqb_refl, Ha.
    + destruct (JS.split_on sep s) as [|r rs] eqn:Es; [by apply split_on_not_nil in Es|].
      destruct ps as [|q ps]; [done|]. injection E as <- E.
      assert (r :: rs = (r :: ps) ++ [p]) as E' by (simpl; congruence).
      destruct (IH (r :: ps) E' ltac:(done)) as (a & -> & Ha).
      exists (String c a). split; [done|]. rewrite split_on_cons.
      destruct (Ascii.eqb_spec c sep); [done|]. by rewrite Ha.
Qed.

Lemma all_chars_split p sep s :
  p sep = true -> Forall (fun x => all_chars p x = true) (JS.split_on sep s) -> all_chars p s = true.
Proof.
  intros Hs. induction s as [|c s IH]; [done|]. rewrite split_on_cons.
  destruct (Ascii.eqb_spec c sep) as [->|_].
  - intros [_ H]%Forall_cons. unfold all_chars in *. cbn. by rewrite Hs, IH.
  - destruct (JS.split_on sep s) as [|r rs] eqn:Es; [by apply split_on_not_nil in Es|].
    intros [Hr H]%Forall_cons. unfold all_chars in Hr. cbn in Hr. apply andb_true_iff in Hr as [Hc Hr].
    unfold all_chars. cbn. rewrite Hc. apply IH. by apply Forall_cons.
Qed.

(** ** [::] *)

Lemma cut_cons c d s :
  cut (String c (String d s)) =
  if Ascii.eqb c ":" && Ascii.eqb d ":" then Some (EmptyString, s)
  else (fun '(h, t) => (String c h, t)) <$> cut (String d s).
Proof. done. Qed.

Lemma cut_Some s h t :
  cut s = Some (h, t) ->
  s = h +:+ "::" +:+ t /\ forall t', cut (h +:+ "::" +:+ t') = Some (h, t').
Proof.
  revert h. induction s as [|c s IH]; intros h; [done|].
  destruct s as [|d s]; [done|]. rewrite cut_cons.
  destruct (Ascii.eqb c ":" && Ascii.eqb d ":") eqn:E.
  - intros [= <- <-]. apply andb_true_iff in E as [->%Ascii.eqb_eq ->%Ascii.eqb_eq]. done.
  - intros H. destruct (cut (String d s)) as [[h0 t0]|]; simplify_eq/=.
    destruct (IH h0 eq_refl) as [Hs Hr]. split; [by rewrite Hs|].
    intros t'. specialize (Hr t'). destruct h0 as [|d' h0]; injection Hs as Hs Hs'; subst d.
    + change (cut (String c (String ":" (String ":" t'))) = Some (String c EmptyString, t')).
      rewrite cut_cons. by destruct (Ascii.eqb c ":").
    + change (cut (String c (String d' (h0 +:+ "::" +:+ t'))) = Some (String c (String d' h0), t')).
      rewrite cut_cons, E.
      change (cut (String d' (h0 +:+ "::" +:+ t')) = Some (String d' h0, t')) in Hr. by rewrite Hr.
Qed.

Lemma split_on_colon_cons s : JS.split_on ":" (String ":" s) = EmptyString :: JS.split_on ":" s.
Proof. done. Qed.

Lemma nonempty_no_cut s : Forall (fun p => JS.truthy p = true) (JS.split_on ":" s) -> cut s = None.
Proof.
  intros H. destruct (cut s) as [[h t]|] eqn:E; [|done]. apply cut_Some in E as [-> _].
  change (h +:+ "::" +:+ t) with (h +:+ String ":" (String ":" t)) in H.
  rewrite split_on_app, split_on_colon_cons in H.
  apply Forall_app in H as [_ [H _]%Forall_cons]. done.
Qed.

(** ** Groups as numbers *)

Lemma hex_prefix_bound s acc v :
  all_chars (fun c => bool_decide (is_Some (hex_digit c))) s = true ->
  hex_prefix (Some acc) s = Some v ->
  acc * 16 ^ Z.of_nat (String.length s) <= v < (acc + 1) * 16 ^ Z.of_nat (String.length s).
Proof.
  revert acc. induction s as [|c s IH]; intros acc Ha; [|].
  { intros [= <-]. change (16 ^ Z.of_nat (String.length EmptyString)) with 1. lia. }
  unfold all_chars in Ha. cbn in Ha. apply andb_true_iff in Ha as [Hc Ha].
  cbn [hex_prefix]. apply bool_decide_eq_true in Hc as [d Hd]. rewrite Hd. intros Hv.
  apply IH in Hv; [|done]. cbn [String.length default] in *.
  assert (0 <= d < 16).
  { unfold hex_digit in Hd. pose proof (nat_ascii_bounded c).
    repeat case_match; simplify_eq/=; bsplit; lia. }
  rewrite Nat2Z.inj_succ, Z.pow_succ_r by lia.
  set (k := 16 ^ Z.of_nat (String.length s)) in *.
  assert (0 < k) by (apply Z.pow_pos_nonneg; lia).
  assert (0 <= d * k /\ (d + 1) * k <= 16 * k) by nia. unfold id in Hv. lia.
Qed.

Lemma hex_prefix_total s acc :
  all_chars (fun c => bool_decide (is_Some (hex_digit c))) s = true ->
  JS.truthy s = true \/ is_Some acc -> is_Some (hex_prefix acc s).
Proof.
  revert acc. induction s as [|c s IH]; intros acc Ha H; [by destruct H|].
  unfold all_chars in Ha. cbn in Ha. apply andb_true_iff in Ha as [Hc Ha].
  apply bool_decide_eq_true in Hc as [d Hd]. cbn [hex_prefix]. rewrite Hd. apply IH; eauto.
Qed.

Definition is_hex (c : ascii) : bool := bool_decide (is_Some (hex_digit c)).

(** On digits alone [parseInt] reads the number. *)
Lemma parseInt16_hex s : all_chars is_hex s = true -> parseInt16 s = hex_prefix None s.
Proof.
  destruct s as [|c s]; [done|]. intros H. unfold all_chars in H. cbn in H.
  apply andb_true_iff in H as [Hc H].
  assert (JS.is_space c = false /\ c <> "-"%char /\ c <> "+"%char) as (Hs & Hm & Hp).
  { destruct c as [[] [] [] [] [] [] [] []]; vm_compute in Hc; try discriminate Hc; vm_compute; done. }
  unfold parseInt16. cbn [skip_space]. rewrite Hs.
  assert (forall d r, s = String d r -> d <> "x"%char /\ d <> "X"%char) as Hx.
  { intros d r ->. cbn in H. apply andb_true_iff in H as [H _].
    destruct d as [[] [] [] [] [] [] [] []]; vm_compute in H; try discriminate H; done. }
  clear Hs H.
  destruct c as [[] [] [] [] [] [] [] []]; vm_compute in Hc; try discriminate Hc; try reflexivity.
  destruct s as [|d r]; [done|]. destruct (Hx d r eq_refl) as [? ?].
  destruct d as [[] [] [] [] [] [] [] []]; try reflexivity; done.
Qed.

Lemma segment_Some p g :
  segment p = Some g ->
  parseInt16 p = Some g /\ 0 <= g < 65536 /\ JS.truthy p = true /\ all_chars is_hex p = true.
Proof.
  unfold segment. destruct (_ && _) eqn:E; [|done]. intros Hg.
  apply andb_true_iff in E as [E Hh]. apply andb_true_iff in E as [Hlo%Nat.leb_le Hhi%Nat.leb_le].
  split; [by rewrite parseInt16_hex|]. split; [|split; [by destruct p|done]].
  destruct p as [|c p]; [done|]. cbn [hex_prefix] in Hg.
  assert (hex_prefix (Some 0) (String c p) = Some g) as Hg'
    by (cbn [hex_prefix]; destruct (hex_digit c); [exact Hg|discriminate Hg]).
  apply hex_prefix_bound in Hg'; [|done].
  assert (16 ^ Z.of_nat (String.length (String c p)) <= 16 ^ 4) by (apply Z.pow_le_mono_r; lia). lia.
Qed.

(** ** The IPv4 tail *)

Definition hex_pair (a b : Z) : string := hex2 a +:+ hex2 b.

Lemma hex2_ok o : byte o ->
  all_chars is_hex (hex2 o) = true /\ String.length (hex2 o) = 2%nat /\
  hex_prefix None (hex2 o) = Some o.
Proof.
  intros Ho.
  assert (forallb (fun n => let o := Z.of_nat n in
    all_chars is_hex (hex2 o) && (String.length (hex2 o) =? 2)%nat &&
    bool_decide (hex_prefix None (hex2 o) = Some o)) (seq 0 256) = true) as H by (vm_compute; reflexivity).
  rewrite forallb_forall in H. specialize (H (Z.to_nat o)).
  rewrite Z2Nat.id in H by (unfold byte in Ho; lia).
  assert (In (Z.to_nat o) (seq 0 256)) as Hin by (apply in_seq; unfold byte in Ho; lia).
  apply H in Hin. apply andb_true_iff in Hin as [Hin ?%bool_decide_eq_true].
  apply andb_true_iff in Hin as [? ?%Nat.eqb_eq]. done.
Qed.

Lemma hex_prefix_app acc a b :
  all_chars is_hex a = true -> hex_prefix acc (a +:+ b) = hex_prefix (hex_prefix acc a) b.
Proof.
  revert acc. induction a as [|c a IH]; intros acc H; [done|].
  unfold all_chars in H. cbn in H. apply andb_true_iff in H as [Hc H].
  change (String c a +:+ b) with (String c (a +:+ b)). cbn [hex_prefix].
  apply bool_decide_eq_true in Hc as [d ->]. by apply IH.
Qed.

Lemma hex_prefix_shift acc s v :
  all_chars is_hex s = true -> hex_prefix None s = Some v -> JS.truthy s = true ->
  hex_prefix (Some acc) s = Some (acc * 16 ^ Z.of_nat (String.length s) + v).
Proof.
  assert (forall s x y, all_chars is_hex s = true ->
    forall v, hex_prefix (Some x) s = Some v -> hex_prefix (Some (y + x)) s =
      Some (y * 16 ^ Z.of_nat (String.length s) + v)) as Hgen.
  { clear. induction s as [|c s IH]; intros x y H v.
    - cbn [hex_prefix String.length]. intros [= ->]. f_equal. change (16 ^ Z.of_nat 0) with 1. lia.
    - unfold all_chars in H. cbn in H. apply andb_true_iff in H as [Hc H].
      cbn [hex_prefix]. apply bool_decide_eq_true in Hc as [d Hd]. rewrite Hd. cbn [default].
      unfold id. intros Hv. replace ((y + x) * 16 + d) with (y * 16 + (x * 16 + d)) by lia.
      rewrite (IH _ _ H _ Hv). f_equal. cbn [String.length].
      rewrite Nat2Z.inj_succ, Z.pow_succ_r by lia. lia. }
  intros H Hv Ht. rewrite <- (Z.add_0_r acc) at 1. apply Hgen; [done|].
  destruct s as [|c s]; [done|]. cbn [hex_prefix] in *. by destruct (hex_digit c).
Qed.

Lemma hex_pair_ok a b : byte a -> byte b ->
  parseInt16 (hex_pair a b) = Some (a * 256 + b) /\ JS.truthy (hex_pair a b) = true /\
  all_chars is_hex (hex_pair a b) = true.
Proof.
  intros (Ha & La & Va)%hex2_ok (Hb & Lb & Vb)%hex2_ok. unfold hex_pair.
  assert (all_chars is_hex (hex2 a +:+ hex2 b) = true) as H by (by rewrite all_chars_app, Ha, Hb).
  split; [|split; [|done]].
  - rewrite parseInt16_hex, hex_prefix_app, Va by done.
    rewrite (hex_prefix_shift a _ b); [by rewrite Lb|done|done|by destruct (hex2 b)].
  - by destruct (hex2 a).
Qed.

Definition not_char (d : ascii) (c : ascii) : bool := negb (Ascii.eqb c d).

Lemma all_chars_impl (p q : ascii -> bool) s :
  (forall c, p c = true -> q c = true) -> all_chars p s = true -> all_chars q s = true.
Proof. intros H. unfold all_chars. rewrite !forallb_forall. eauto. Qed.

Lemma hex_not_char d c : is_hex d = false -> is_hex c = true -> not_char d c = true.
Proof. intros Hd Hc. unfold not_char. destruct (Ascii.eqb_spec c d) as [->|]; [congruence|done]. Qed.

Lemma no_sep_split sep s : all_chars (not_char sep) s = true -> JS.split_on sep s = [s].
Proof.
  induction s as [|c s IH]; [done|]. intros H. unfold all_chars in H. cbn in H.
  apply andb_true_iff in H as [Hc H]. rewrite split_on_cons. apply negb_true_iff in Hc.
  by rewrite Hc, IH.
Qed.

Lemma dotted_chars s : dotted s = true -> all_chars (fun c => is_digit c || Ascii.eqb c ".") s = true.
Proof.
  unfold dotted. intros H. apply (all_chars_split _ "."); [done|].
  destruct (JS.split_on "." s) as [|a [|b [|c [|d [|]]]]]; try done.
  rewrite forallb_forall in H. apply Forall_forall. intros x Hx.
  apply list_elem_of_In, H, andb_true_iff in Hx as [_ Hx]. eapply all_chars_impl; [|exact Hx].
  intros e ->. done.
Qed.

Lemma ipv4Tail_none s : all_chars (not_char ".") s = true -> ipv4Tail s = None.
Proof.
  induction s as [|c s IH]; intros H; [done|].
  assert (dotted (String c s) = false) as Hd by (unfold dotted; by rewrite no_sep_split).
  unfold all_chars in H. cbn in H. apply andb_true_iff in H as [_ H].
  change (ipv4Tail (String c s)) with (if dotted (String c s) then Some (EmptyString, String c s)
    else (fun '(p, t) => (String c p, t)) <$> ipv4Tail s). by rewrite Hd, IH.
Qed.

Lemma ipv4Tail_app a p : dotted p = true -> ipv4Tail (a +:+ String ":" p) = Some (a +:+ ":", p).
Proof.
  intros Hp. assert (forall b, dotted (b +:+ String ":" p) = false) as Hno.
  { intros b. destruct (dotted (b +:+ String ":" p)) eqn:E; [|done]. apply dotted_chars in E.
    rewrite all_chars_app in E. apply andb_true_iff in E as [_ E]. done. }
  assert (forall c s, ipv4Tail (String c s) = if dotted (String c s) then Some (EmptyString, String c s)
    else (fun '(p, t) => (String c p, t)) <$> ipv4Tail s) as Hstep by done.
  induction a as [|c a IH].
  - change (EmptyString +:+ String ":" p) with (String ":" p) in *.
    rewrite Hstep. pose proof (Hno EmptyString) as H0.
    change (EmptyString +:+ String ":" p) with (String ":" p) in H0. rewrite H0.
    destruct p as [|d p]; [done|]. by rewrite Hstep, Hp.
  - change (String c a +:+ String ":" p) with (String c (a +:+ String ":" p)).
    rewrite Hstep. pose proof (Hno (String c a)) as H0.
    change (String c a +:+ String ":" p) with (String c (a +:+ String ":" p)) in H0.
    by rewrite H0, IH.
Qed.

Lemma sapp_assoc (a b c : string) : (a +:+ b) +:+ c = a +:+ (b +:+ c).
Proof. induction a as [|x a IH]; [done|]. change (String x ((a +:+ b) +:+ c) = String x (a +:+ (b +:+ c))). by rewrite IH. Qed.

Definition group (p : string) (g : Z) : Prop :=
  parseInt16 p = Some g /\ 0 <= g < 65536 /\ JS.truthy p = true /\ all_chars is_hex p = true.

Lemma hex_pair_group a b : byte a -> byte b -> group (hex_pair a b) (a * 256 + b).
Proof. intros Ha Hb. destruct (hex_pair_ok a b Ha Hb) as (? & ? & ?). unfold byte in *. split_and!; try done; lia. Qed.

(** What a list of pieces means: groups, the last possibly dotted. *)
Lemma parse_groups_Some ps gs :
  parse_groups ps = Some gs ->
  Forall2 group ps gs \/
  exists qs hs p a b c d, ps = qs ++ [p] /\ parse_ipv4 p = Some [a; b; c; d] /\
    Forall byte [a; b; c; d] /\ Forall2 group qs hs /\ gs = hs ++ [a * 256 + b; c * 256 + d].
Proof.
  revert gs. induction ps as [|p ps IH]; intros gs; [intros [= <-]; left; constructor|].
  assert (forall gs, (g ← segment p; gs ← parse_groups ps; Some (g :: gs)) = Some gs ->
    Forall2 group (p :: ps) gs \/
    exists qs hs q a b c d, p :: ps = qs ++ [q] /\ parse_ipv4 q = Some [a; b; c; d] /\
      Forall byte [a; b; c; d] /\ Forall2 group qs hs /\ gs = hs ++ [a * 256 + b; c * 256 + d]) as Hcons.
  { intros gs' H. simplify_option_eq. match goal with H : segment p = Some ?g |- _ =>
      apply segment_Some in H end.
    destruct (IH _ eq_refl) as [Hall|(qs & hs & q & a & b & c & d & -> & Hq & Hb & Hqs & ->)];
      [left|right].
    - by constructor.
    - eexists (p :: qs), (_ :: hs), q, a, b, c, d. split_and!; try done. by constructor. }
  destruct ps as [|p' ps]; [|apply Hcons].
  cbn [parse_groups] in *. destruct (parse_ipv4 p) as [os|] eqn:Ep; [|apply Hcons].
  destruct os as [|a [|b [|c [|d [|]]]]]; try apply Hcons.
  intros [= <-]. right. exists [], [], p, a, b, c, d. split_and!; try done.
  by apply parse_ipv4_Some in Ep as (? & _ & _ & _ & ? & _).
Qed.

Lemma plain_groups_Some ps gs : plain_groups ps = Some gs -> Forall2 group ps gs.
Proof.
  intros H. apply mapM_Some in H. eapply Forall2_impl; [exact H|]. intros p g. apply segment_Some.
Qed.

Lemma group_truthy ps gs : Forall2 group ps gs -> Forall (fun p => JS.truthy p = true) ps.
Proof. induction 1 as [|????(?&?&?&?)]; constructor; done. Qed.

Lemma group_no_dot ps gs :
  Forall2 group ps gs -> Forall (fun p => all_chars (not_char ".") p = true) ps.
Proof.
  induction 1 as [|????(?&?&?&Hx)]; constructor; [|done].
  eapply all_chars_impl; [|exact Hx]. intros c. by apply hex_not_char.
Qed.

Lemma normalize_plain s : all_chars (not_char ".") s = true -> normalize s = s.
Proof. intros H. unfold normalize. by rewrite ipv4Tail_none. Qed.

Lemma normalize_dotted a p w x y z :
  parse_ipv4 p = Some [w; x; y; z] ->
  normalize (a +:+ String ":" p) =
  a +:+ String ":" (hex_pair w x +:+ String ":" (hex_pair y z)).
Proof.
  intros Hp. pose proof (parse_ipv4_Some p _ Hp) as (ps & Hs & _ & Hd & _ & Ht).
  unfold normalize. rewrite ipv4Tail_app by done. rewrite Hs, <- Hd.
  unfold hex_pair. rewrite !sapp_assoc. done.
Qed.

Lemma nonempty_pieces_all s :
  Forall (fun p => JS.truthy p = true) (JS.split_on ":" s) -> nonempty_pieces s = JS.split_on ":" s.
Proof.
  unfold nonempty_pieces. induction 1 as [|p ps Hp _ IH]; [done|]. cbn. by rewrite Hp, IH.
Qed.

Lemma pair_pieces a b : Forall byte a -> Forall byte b ->
  match a, b with
  | [w; x], [y; z] => JS.split_on ":" (hex_pair w x +:+ String ":" (hex_pair y z)) = [hex_pair w x; hex_pair y z]
  | _, _ => True
  end.
Proof.
  destruct a as [|w [|x [|]]]; try done. destruct b as [|y [|z [|]]]; try done.
  intros Ha Hb. apply Forall_cons in Ha as [Hw Ha]. apply Forall_cons in Ha as [Hx _].
  apply Forall_cons in Hb as [Hy Hb]. apply Forall_cons in Hb as [Hz _].
  destruct (hex_pair_ok w x Hw Hx) as (_ & _ & H1). destruct (hex_pair_ok y z Hy Hz) as (_ & _ & H2).
  rewrite split_on_app, !no_sep_split; [done| |];
    (eapply all_chars_impl; [|eassumption]); intros c; by apply hex_not_char.
Qed.

(** The text whose pieces are groups, once the dotted tail is spelt out. *)
Lemma dotted_pieces t qs hs p a b c d :
  JS.split_on ":" t = qs ++ [p] -> parse_ipv4 p = Some [a; b; c; d] ->
  Forall byte [a; b; c; d] -> Forall2 group qs hs ->
  exists t', Forall2 group (JS.split_on ":" t') (hs ++ [a * 256 + b; c * 256 + d]) /\
    (qs <> [] -> normalize t = t') /\ forall pre, normalize (pre +:+ String ":" t) = pre +:+ String ":" t'.
Proof.
  intros Ht Hp Hb Hqs. set (q := hex_pair a b +:+ String ":" (hex_pair c d)).
  assert (JS.split_on ":" q = [hex_pair a b; hex_pair c d] /\
    Forall2 group [hex_pair a b; hex_pair c d] [a * 256 + b; c * 256 + d]) as [Hq Hg].
  { repeat match goal with H : Forall _ (_ :: _) |- _ => apply Forall_cons in H as [? H] end. split.
    - apply (pair_pieces [a; b] [c; d]); repeat (apply Forall_cons; split; [done|]); by apply Forall_nil.
    - repeat apply List.Forall2_cons; try apply List.Forall2_nil; by apply hex_pair_group. }
  destruct (decide (qs = [])) as [->|Hne].
  - exists q. simplify_eq/=. inversion Hqs; subst. rewrite Hq. split_and!; [done|done|].
    intros pre. assert (t = p) as ->.
    { clear -Ht. revert p Ht. induction t as [|x t IH]; intros p; [by intros [= <-]|].
      rewrite split_on_cons. destruct (Ascii.eqb x ":").
      - intros [= _ H]. by apply split_on_not_nil in H.
      - destruct (JS.split_on ":" t) as [|r [|]] eqn:E; intros [= <-]; [by apply split_on_not_nil in E|].
        f_equal. by apply IH. }
    by apply normalize_dotted.
  - destruct (split_on_last _ _ _ _ Ht Hne) as (u & -> & Hu).
    exists (u +:+ String ":" q). rewrite split_on_app, Hu, Hq. split_and!.
    + by apply Forall2_app.
    + intros _. by apply normalize_dotted.
    + intros pre. change (pre +:+ String ":" (u +:+ String ":" p)) with (pre +:+ (String ":" u +:+ String ":" p)).
      rewrite <- sapp_assoc, (normalize_dotted _ _ a b c d Hp), sapp_assoc. done.
Qed.

Lemma read_groups strs gs acc :
  Forall2 group strs gs ->
  foldl (fun acc group =>
    acc ← acc; g ← parseInt16 (if JS.truthy group then group else "0");
    Some (Z.shiftl acc 16 + g)) (Some acc) strs = Some (foldl (fun acc g => acc * 65536 + g) acc gs).
Proof.
  intros H. revert acc. induction H as [|p g ps gs (Hp & _ & Ht & _) _ IH]; intros acc; [done|].
  cbn [foldl]. rewrite Ht, Hp. cbn. rewrite IH. by rewrite Z.shiftl_mul_pow2 by lia.
Qed.

Lemma zero_groups n : Forall2 group (replicate n "0") (replicate n 0).
Proof. apply Forall2_replicate. split_and!; done || lia. Qed.

Definition u16 (g : Z) : Prop := 0 <= g < 65536.

Lemma groups_u16 ps gs : Forall2 group ps gs -> Forall u16 gs.
Proof. induction 1 as [|????(?&?&?&?)]; constructor; done. Qed.

Lemma groups_full s n gs :
  normalize s = n -> Forall2 group (JS.split_on ":" n) gs -> length gs = 8%nat ->
  ipv6ToBigInt s = Some (addr6 gs).
Proof.
  intros Hn Hg Hlen. pose proof (group_truthy _ _ Hg) as Ht.
  assert (JS.truthy n = true) as Hn1 by (destruct n; [by apply Forall_cons in Ht as [? _]|done]).
  unfold ipv6ToBigInt, groups. rewrite Hn, nonempty_no_cut by done. cbn iota beta. rewrite Hn1.
  rewrite nonempty_pieces_all by done. rewrite (Forall2_length _ _ _ Hg), Hlen. cbn [length].
  change (replicate _ "0") with (@nil string). rewrite !app_nil_r. by apply read_groups.
Qed.

Lemma pieces_spec t : JS.truthy t = false /\ t = EmptyString /\ pieces t = [] \/ pieces t = JS.split_on ":" t.
Proof. unfold pieces. destruct t; [by left|by right]. Qed.

Lemma groups_gap s h t t' hs ts :
  cut s = Some (h, t) -> normalize s = h +:+ "::" +:+ t' ->
  Forall2 group (pieces h) hs -> Forall2 group (pieces t') ts -> (length hs + length ts <= 7)%nat ->
  ipv6ToBigInt s = Some (addr6 (hs ++ replicate (8 - (length hs + length ts)) 0 ++ ts)).
Proof.
  intros Hc Hn Hh Ht Hlen. apply cut_Some in Hc as [_ Hc].
  assert (cut t' = None) as Hc'.
  { destruct (pieces_spec t') as [(_ & -> & _)|E]; [done|]. rewrite E in Ht.
    eapply nonempty_no_cut, group_truthy, Ht. }
  assert (forall u us, Forall2 group (pieces u) us -> nonempty_pieces u = pieces u) as Hp.
  { intros u us Hu. destruct (pieces_spec u) as [(_ & -> & _)|E]; [done|].
    rewrite E in *. by eapply nonempty_pieces_all, group_truthy. }
  assert ((if JS.truthy h then nonempty_pieces h else []) = pieces h) as Hh'.
  { rewrite (Hp h hs Hh). unfold pieces. by destruct (JS.truthy h). }
  unfold ipv6ToBigInt, groups. rewrite Hn, Hc. cbn iota beta. rewrite Hc', Hh', (Hp t' ts Ht).
  rewrite (Forall2_length _ _ _ Hh), (Forall2_length _ _ _ Ht).
  replace (Z.to_nat _) with (8 - (length hs + length ts))%nat by lia.
  apply read_groups. repeat apply Forall2_app; auto using zero_groups.
Qed.

(** The routine computes the number of every spelling of an address. *)
Lemma ipv6_value s gs :
  parse_ipv6 s = Some gs ->
  ipv6ToBigInt s = Some (addr6 gs) /\ length gs = 8%nat /\ Forall u16 gs.
Proof.
  unfold parse_ipv6. destruct (cut s) as [[h t]|] eqn:Hc.
  - destruct (plain_groups (pieces h)) as [hs|] eqn:Hh; [|done].
    destruct (parse_groups (pieces t)) as [ts|] eqn:Ht; [|done]. cbn.
    destruct (_ <=? _)%nat eqn:Hle; [|done]. apply Nat.leb_le in Hle. intros [= <-].
    apply plain_groups_Some in Hh.
    assert (exists t', Forall2 group (pieces t') ts /\ normalize s = h +:+ "::" +:+ t') as (t' & Ht' & Hn).
    { apply cut_Some in Hc as [Hs _]. destruct (parse_groups_Some _ _ Ht) as [Hg|(qs & us & p & a & b & c & d & E & Hp & Hb & Hq & ->)].
      - exists t. split; [done|]. rewrite Hs. apply normalize_plain. rewrite !all_chars_app.
        assert (forall u us, Forall2 group (pieces u) us -> all_chars (not_char ".") u = true) as Hnd.
        { intros u us Hu. destruct (pieces_spec u) as [(_ & -> & _)|E]; [done|]. rewrite E in Hu.
          eapply (all_chars_split _ ":"); [done|]. by eapply group_no_dot. }
        by rewrite (Hnd h hs Hh), (Hnd t ts Hg).
      - destruct (pieces_spec t) as [(_ & _ & E0)|E1]; [rewrite E0 in E; by destruct qs|].
        rewrite E1 in E. destruct (dotted_pieces t qs us p a b c d E Hp Hb Hq) as (t' & Hg & _ & Hpre).
        exists t'. split.
        + destruct (pieces_spec t') as [(_ & -> & _)|E2]; [|by rewrite E2].
          apply Forall2_length in Hg. rewrite length_app in Hg. cbn in Hg. lia.
        + rewrite Hs. change (h +:+ "::" +:+ t) with (h +:+ (":" +:+ String ":" t)).
          rewrite <- sapp_assoc, Hpre, sapp_assoc. done. }
    split; [by eapply groups_gap|]. split.
    + rewrite !length_app, length_replicate. lia.
    + repeat apply Forall_app_2; [by eapply groups_u16|eapply groups_u16, zero_groups|by eapply groups_u16].
  - destruct (parse_groups _) as [ts|] eqn:Ht; [|done]. cbn.
    destruct (_ =? 8)%nat eqn:Hle; [|done]. apply Nat.eqb_eq in Hle. intros [= <-].
    assert (exists n, normalize s = n /\ Forall2 group (JS.split_on ":" n) ts) as (n & Hn & Hg).
    { destruct (parse_groups_Some _ _ Ht) as [Hg|(qs & us & p & a & b & c & d & E & Hp & Hb & Hq & ->)].
      - exists s. split; [|done]. apply normalize_plain. eapply (all_chars_split _ ":"); [done|]. by eapply group_no_dot.
      - destruct (dotted_pieces s qs us p a b c d E Hp Hb Hq) as (t' & Hg & Hne & _). exists t'.
        split; [|done]. apply Hne. intros ->. inversion Hq; subst. done. }
    split; [by eapply groups_full|]. split; [done|]. by eapply groups_u16.
Qed.

(** ** The embedded IPv4 address *)

Lemma pretty_byte o : byte o ->
  octet (pretty (Z.to_N o)) = Some o /\ all_chars (not_char ".") (pretty (Z.to_N o)) = true.
Proof.
  intros Ho.
  assert (forallb (fun n => let o := Z.of_nat n in
    bool_decide (octet (pretty (Z.to_N o)) = Some o) && all_chars (not_char ".") (pretty (Z.to_N o)))
    (seq 0 256) = true) as H by (vm_compute; reflexivity).
  rewrite forallb_forall in H. specialize (H (Z.to_nat o)).
  rewrite Z2Nat.id in H by (unfold byte in Ho; lia).
  assert (In (Z.to_nat o) (seq 0 256)) as Hin by (apply in_seq; unfold byte in Ho; lia).
  apply H, andb_true_iff in Hin as [?%bool_decide_eq_true ?]. done.
Qed.

Lemma embedded_parse v :
  exists os, parse_ipv4 (embedded_ipv4 v) = Some os /\ addr4 os = v mod 2 ^ 32.
Proof.
  unfold embedded_ipv4.
  assert (forall x n, 0 <= n -> Z.land (Z.shiftr x n) 255 = x / 2 ^ n mod 256) as Hb.
  { intros x n Hn. change 255 with (Z.ones 8). by rewrite Z.land_ones, Z.shiftr_div_pow2 by lia. }
  change 4294967295 with (Z.ones 32). rewrite Z.land_ones by lia.
  set (e := v mod 2 ^ 32). rewrite !Hb by lia.
  assert (0 <= e < 2 ^ 32) as He by (apply Z.mod_pos_bound; lia).
  assert (forall n, byte (e / 2 ^ n mod 256)) as Hby by (intros; apply Z.mod_pos_bound; lia).
  eexists. split.
  - unfold parse_ipv4.
    assert (forall a b, JS.split_on "." (a +:+ "." +:+ b) = JS.split_on "." a ++ JS.split_on "." b)
      as Hd by (intros; apply split_on_app).
    rewrite !Hd, !no_sep_split by apply pretty_byte, Hby. cbn [app].
    rewrite !(fun n => proj1 (pretty_byte _ (Hby n))). reflexivity.
  - unfold addr4. cbn [foldl]. change (2 ^ 0) with 1. rewrite Z.div_1_r.
    change (2 ^ 24) with 16777216. change (2 ^ 16) with 65536. change (2 ^ 8) with 256.
    change (2 ^ 32) with 4294967296 in He. Z.to_euclidean_division_equations. lia.
Qed.

Lemma embedded_value v : JS.toUint32 (ipv4ToInt (embedded_ipv4 v)) = v mod 2 ^ 32 /\ isIPv4 (embedded_ipv4 v) = true.
Proof.
  destruct (embedded_parse v) as (os & Hp & Ha). split.
  - by rewrite (proj1 (ipv4ToInt_value _ _ Hp)).
  - unfold isIPv4. rewrite Hp. by apply bool_decide_eq_true.
Qed.

(** Destructs the eight groups of an address. *)
Lemma addr6_cases gs :
  length gs = 8%nat -> Forall u16 gs ->
  exists g r, gs = g :: r /\ u16 g /\
    Z.shiftr (addr6 gs) 112 = g /\
    match mapped gs with
    | Some v => Z.shiftr (addr6 gs) 32 = 0xffff /\ addr6 gs mod 2 ^ 32 = v
    | None => Z.shiftr (addr6 gs) 32 <> 0xffff
    end /\ 0 <= addr6 gs.
Proof.
  intros Hl Hu. destruct gs as [|a [|b [|c [|d [|e [|f [|g [|h [|]]]]]]]]]; try done.
  repeat match goal with H : Forall _ (_ :: _) |- _ => apply Forall_cons in H as [? H] end.
  exists a, [b; c; d; e; f; g; h]. split; [done|]. split; [done|].
  unfold u16 in *. unfold addr6. cbn [foldl]. rewrite !Z.shiftr_div_pow2 by lia.
  change (2 ^ 112) with 5192296858534827628530496329220096. change (2 ^ 32) with 4294967296.
  set (hi := ((((a * 65536 + b) * 65536 + c) * 65536 + d) * 65536 + e) * 65536 + f).
  replace (_ * 65536 + h) with (hi * 4294967296 + (g * 65536 + h)) by (unfold hi; lia).
  split.
  { symmetry. apply (Z.div_unique _ _ _
      (((((b * 65536 + c) * 65536 + d) * 65536 + e) * 65536 + f) * 4294967296 + (g * 65536 + h)));
      unfold hi; lia. }
  assert ((hi * 4294967296 + (g * 65536 + h)) / 4294967296 = hi) as ->
    by (symmetry; apply (Z.div_unique _ _ _ (g * 65536 + h)); lia).
  unfold hi.
  split; [|lia].
  destruct (decide (a = 0 /\ b = 0 /\ c = 0 /\ d = 0 /\ e = 0 /\ f = 65535)) as [(-> & -> & -> & -> & -> & ->)|Hn].
  - cbn [mapped]. split; [lia|]. symmetry. apply (Z.mod_unique _ _ 65535); lia.
  - assert (mapped [a; b; c; d; e; f; g; h] = None) as ->; [|lia].
    unfold mapped. destruct a; try done. destruct b; try done. destruct c; try done. destruct d; try done. destruct e; try done.
    destruct f as [|p|]; try done. do 16 (destruct p as [p|p|]; try done). exfalso. apply Hn. done.
Qed.

Lemma isBlockedIpv6_special s gs : parse_ipv6 s = Some gs -> isBlockedIpv6 s = Some (special6 gs).
Proof.
  intros (Hv & Hl & Hu)%ipv6_value. unfold isBlockedIpv6. rewrite Hv. cbn [mbind option_bind]. f_equal.
  destruct (addr6_cases gs Hl Hu) as (g & r & -> & Hg & -> & Hm & Hnn). unfold special6.
  set (v := addr6 (g :: r)) in *. unfold u16 in Hg.
  replace (v <=? 1) with ((v =? 0) || (v =? 1)) by (apply eq_true_iff_eq; rewrite orb_true_iff, !Z.eqb_eq, Z.leb_le; lia).
  destruct (v =? 0); [done|]. destruct (v =? 1); [done|]. cbn [orb].
  destruct (_ && (g <=? 65023)); [done|]. destruct (_ && (g <=? 65215)); [done|]. cbn [orb].
  replace ((65280 <=? g) && (g <=? 65535)) with (65280 <=? g)
    by (apply eq_true_iff_eq; rewrite andb_true_iff, !Z.leb_le; lia).
  destruct (65280 <=? g); [done|]. cbn [orb].
  destruct (mapped _) as [w|].
  - destruct Hm as [-> <-]. change (65535 =? 65535) with true. cbn iota. unfold isBlockedIpv4. by rewrite blocked_special, (proj1 (embedded_value v)).
  - apply Z.eqb_neq in Hm. by rewrite Hm.
Qed.

Lemma before_zone_none s : no_zone s = true -> before_zone s = (s, None).
Proof.
  induction s as [|c s IH]; [done|]. unfold no_zone, all_chars. cbn. intros [Hc Hs]%andb_true_iff.
  apply negb_true_iff in Hc. rewrite Hc. unfold no_zone, all_chars in IH. by rewrite IH.
Qed.

Lemma isIPv6_spec s : no_zone s = true -> isIPv6 s = bool_decide (is_Some (parse_ipv6 s)).
Proof. intros H. unfold isIPv6. rewrite before_zone_none by done. by rewrite andb_true_r. Qed.

Lemma isBlockedAddress_special s : no_zone s = true -> isBlockedAddress s = Some (special s).
Proof.
  intros Hz. unfold isBlockedAddress, special, isIPv4. rewrite isIPv6_spec by done.
  destruct (parse_ipv4 s) as [os|] eqn:E4.
  - rewrite bool_decide_true by done. by rewrite (isBlockedIpv4_special s os).
  - rewrite bool_decide_false by (by intros []).
    destruct (parse_ipv6 s) as [gs|] eqn:E6; [|done]. rewrite bool_decide_true by done. by apply isBlockedIpv6_special.
Qed.

Lemma loop4_matches v : matches v LOOPBACK_IPV4 = loop4 (JS.toUint32 v).
Proof.
  rewrite matches_interval.
  let r := eval vm_compute in LOOPBACK_IPV4 in change LOOPBACK_IPV4 with r. cbn [prefixLength base].
  change (2 ^ ((32 - 8) mod 32)) with 16777216.
  change (JS.toUint32 2130706432 / 16777216) with 127. rewrite div_interval by lia. done.
Qed.

Lemma isLoopback_loopback s : no_zone s = true -> isLoopback s = Some (loopback s).
Proof.
  intros Hz. unfold isLoopback. unfold isLoopback_with at 1. unfold loopback, isIPv4.
  rewrite isIPv6_spec by done.
  destruct (parse_ipv4 s) as [os|] eqn:E4.
  - rewrite bool_decide_true by done. by rewrite loop4_matches, (proj1 (ipv4ToInt_value s os E4)).
  - rewrite bool_decide_false by (by intros []).
    destruct (parse_ipv6 s) as [gs|] eqn:E6; [|done]. rewrite bool_decide_true by done.
    destruct (ipv6_value s gs E6) as (-> & Hl & Hu). cbn [mbind option_bind].
    destruct (addr6_cases gs Hl Hu) as (g & r & _ & _ & _ & Hm & _).
    destruct (addr6 gs =? 1); [done|]. cbn [orb]. destruct (mapped gs) as [w|].
    + destruct Hm as [-> <-]. change (65535 =? 65535) with true. cbn iota. unfold isLoopback_with.
      destruct (embedded_value (addr6 gs)) as [Hv ->]. by rewrite loop4_matches, Hv.
    + apply Z.eqb_neq in Hm. by rewrite Hm.
Qed.

Lemma filterM_pure (p : string -> option bool) (q : string -> bool) l :
  Forall (fun x => p x = Some (q x)) l -> filterM p l = Some (List.filter q l).
Proof. induction 1 as [|x l Hx _ IH]; [done|]. cbn. by rewrite Hx, IH. Qed.

(** Nothing is left of the two filters exactly when every address is admitted. *)
Lemma admitted_nil (p q : string -> bool) l :
  List.filter q (List.filter p l) = [] <-> Forall (fun a => p a = false \/ q a = false) l.
Proof.
  induction l as [|a l IH]; [done|]. rewrite Forall_cons, <- IH. cbn.
  destruct (p a); cbn; [destruct (q a)|]; naive_solver.
Qed.

(** For every spelling of an address that node:net accepts, IPv4 in dotted
    form and IPv6 with or without [::] and with or without a dotted tail, the
    guard's shifts and masks decide exactly whether the address lies in one of
    the special-purpose blocks, given by their first and last addresses, and
    whether it is a loopback address; text that is no address is blocked. *)
Theorem guard_equals_reference (address : string) :
  no_zone address = true ->
  isBlockedAddress address = Some (special address) /\
  isLoopback address = Some (loopback address).
Proof. intros Hz. split; [by apply isBlockedAddress_special|by apply isLoopback_loopback]. Qed.

Lemma guard_equals_reference_witness :
  isBlockedAddress "::ffff:169.254.169.254" = Some true /\
  isLoopback "::FFFF:7f00:1" = Some true /\ isBlockedAddress "2606:4700::1111" = Some false.
Proof.
  split; [rewrite (proj1 (guard_equals_reference "::ffff:169.254.169.254" eq_refl)); vm_compute; reflexivity|].
  split; [rewrite (proj2 (guard_equals_reference "::FFFF:7f00:1" eq_refl)); vm_compute; reflexivity|].
  rewrite (proj1 (guard_equals_reference "2606:4700::1111" eq_refl)). vm_compute. reflexivity.
Defined.

(** A target passes the guard exactly when it is a well-formed http or https
    URL whose host is an address, or resolves to at least one, and every one of
    them is public, or is a loopback address while the sandbox exception is on.
    Resolved addresses and literals carry no zone identifier, as dns.lookup
    and the URL standard guarantee. *)
Lemma guard_admits_only_public parse_url resolveHostname allow targetUrl :
  (forall h l, resolveHostname h = Some l -> Forall (fun a => no_zone a = true) l) ->
  (forall u, parse_url targetUrl = Some u -> no_zone (bare (hostname u)) = true) ->
  assertPublicWebhookTarget parse_url resolveHostname allow targetUrl = Ok tt <->
  exists u l, parse_url targetUrl = Some u /\ protocol u ∈ ["http:"; "https:"] /\
    target_addresses resolveHostname (hostname u) = Some l /\ l <> [] /\
    Forall (fun a => special a = false \/ allow = true /\ loopback a = true) l.
Proof.
  intros Hdns Hurl. unfold assertPublicWebhookTarget.
  destruct (parse_url targetUrl) as [u|]; [|split; [done|by intros (? & ? & ? & _)]].
  specialize (Hurl u eq_refl).
  assert (protocol u ∈ ["http:"; "https:"] <->
    negb (String.eqb (protocol u) "http:") && negb (String.eqb (protocol u) "https:") = false) as Hproto.
  { rewrite andb_false_iff, !negb_false_iff, !String.eqb_eq, list_elem_of_In. cbn. naive_solver. }
  destruct (negb _ && negb _).
  { split; [done|]. intros (? & ? & [= <-] & Hp & _). by apply Hproto in Hp. }
  destruct (target_addresses resolveHostname (hostname u)) as [l|] eqn:Hl;
    [|split; [done|intros (? & ? & [= <-] & _ & Hl' & _); congruence]].
  assert (Forall (fun a => no_zone a = true) l) as Hz.
  { unfold target_addresses in Hl. destruct (_ || _); [|by eapply Hdns]. by simplify_eq; constructor. }
  rewrite (filterM_pure _ special)
    by (eapply Forall_impl; [exact Hz|]; intros a; apply isBlockedAddress_special).
  cbn [mbind option_bind].
  rewrite (filterM_pure _ (fun a => if allow then negb (loopback a) else true)).
  2: { apply Forall_forall. intros a Ha. apply list_elem_of_In, List.filter_In in Ha as [Ha _].
       destruct allow; [|done]. rewrite isLoopback_loopback; [done|].
       rewrite Forall_forall in Hz. by apply Hz, list_elem_of_In. }
  assert (Forall (fun a => special a = false \/ allow = true /\ loopback a = true) l <->
    List.filter (fun a => if allow then negb (loopback a) else true) (List.filter special l) = []) as Hbl.
  { rewrite admitted_nil. apply Forall_proper; [|done]. intros a.
    destruct allow; rewrite ?negb_false_iff; naive_solver. }
  destruct l as [|a l].
  - split; [done|]. intros (? & ? & [= <-] & _ & Hl' & Hne & _). congruence.
  - destruct (List.filter _ _) as [|b bl].
    + split; [|done]. intros _. exists u, (a :: l). split_and!; try done; [by apply Hproto|by apply Hbl].
    + split; [done|]. intros (? & l' & [= <-] & _ & Hl' & _ & H).
      assert (l' = a :: l) as -> by congruence. by apply Hbl in H.
Qed.
End Guard.
