(* ===== verification/Outbox.v ===== *)
(** * The transactional outbox and webhook signatures

    database/outbox (outbox-signer.ts, outbox-writer.ts, outbox-event-types.ts)
    and webhooks/webhook-signer.ts.  HMAC-SHA256, JSON.stringify and
    Date.parse are parameters; [Buffer.from(s, 'hex')] is written out. *)

From Stdlib Require Import Ascii.
From stdpp Require Import gmap strings list.
From S2P Require Import Prelude PolicyDsl PolicyDigest WebhookGuard.

Module Outbox.
Import Dsl.

Record OutboxEvent := {
  oe_id : string;
  oe_tenantId : string;
  oe_caseId : string;
  oe_eventType : string;
  oe_payload : value;
  oe_signature : string;
  oe_createdAt : Z;
  oe_publishedAt : option Z }.

Definition LoanCaseCreated : string := "loan_case.created".
Definition WorkflowRunStarted : string := "workflow_run.started".
Definition WorkflowRunWaitingForReview : string := "workflow_run.waiting_for_review".
Definition WorkflowRunCompleted : string := "workflow_run.completed".
Definition WorkflowRunFailed : string := "workflow_run.failed".
Definition WorkflowRunCancelled : string := "workflow_run.cancelled".
Definition WorkflowRunRecoveryStarted : string := "workflow_run.recovery_started".
Definition EvidenceUpdated : string := "evidence.updated".
Definition ConditionOpened : string := "condition.opened".
Definition ConditionSatisfied : string := "condition.satisfied".
Definition ConditionWaived : string := "condition.waived".
Definition EvaluationInterrupted : string := "evaluation.interrupted".
Definition CaseEscalated : string := "case.escalated".
Definition CommunicationDelivered : string := "communication.delivered".

(** [Buffer.from(s, 'hex')]: pairs of digits, up to the first that is not one. *)
Fixpoint from_hex (s : string) : list Z :=
  match s with
  | String a (String b s') =>
      match Guard.hex_digit a, Guard.hex_digit b with
      | Some x, Some y => (x * 16 + y) :: from_hex s'
      | _, _ => []
      end
  | _ => []
  end.

(** Equal lengths and [timingSafeEqual]. *)
Definition same_bytes (expected actual : string) : bool :=
  bool_decide (length (from_hex expected) = length (from_hex actual)) &&
  bool_decide (from_hex expected = from_hex actual).

Section Signing.
Context (hmac : string -> string -> string) (json : value -> string).

Definition signOutboxPayload (payload : value) (secret : string) : string :=
  hmac secret (json (Digest.canonicalize payload)).

Definition verifyOutboxSignature (payload : value) (signature secret : string) : bool :=
  same_bytes (signOutboxPayload payload secret) signature.

(** The row [writeOutboxEvent] saves with the manager of the caller's
    transaction. *)
Definition outbox_row (secret newId : string) (now : Z) (tenantId caseId eventType : string)
    (payload : value) : OutboxEvent :=
  {| oe_id := newId; oe_tenantId := tenantId; oe_caseId := caseId; oe_eventType := eventType;
     oe_payload := payload; oe_signature := signOutboxPayload payload secret;
     oe_createdAt := now; oe_publishedAt := None |}.

(** ** Webhook signatures *)

Definition signWebhookDelivery (deliveryId timestampIso rawBody secret : string) : string :=
  hmac secret (deliveryId +:+ "." +:+ timestampIso +:+ "." +:+ rawBody).

Inductive VerifyWebhookSignatureResult := SignatureValid | SignatureInvalid (reason : string).

Definition DEFAULT_MAX_AGE_MS : Z := 5 * 60 * 1000.

Definition verifyWebhookSignature (date_parse : string -> option Z)
    (deliveryId timestampIso rawBody signature secret : string) (maxAgeMs : option Z) (now : Z)
  : VerifyWebhookSignatureResult :=
  match date_parse timestampIso with
  | None => SignatureInvalid "timestamp is not a valid ISO 8601 date"
  | Some timestampMs =>
      if default DEFAULT_MAX_AGE_MS maxAgeMs <? Z.abs (now - timestampMs)
      then SignatureInvalid "possible replay"
      else if same_bytes (signWebhookDelivery deliveryId timestampIso rawBody secret) signature
      then SignatureValid else SignatureInvalid "signature does not match"
  end.

Lemma same_bytes_refl s : same_bytes s s = true.
Proof. unfold same_bytes. by rewrite !bool_decide_true. Qed.

(** A signed event still verifies after PostgreSQL has reordered the keys of
    its payload, and a webhook verifies exactly within the age limit on either
    side of its timestamp. *)
Lemma outbox_signature_survives (payload stored : value) secret :
  Digest.same_content payload stored ->
  verifyOutboxSignature stored (signOutboxPayload payload secret) secret = true.
Proof.
  intros H. unfold verifyOutboxSignature, signOutboxPayload.
  rewrite (Digest.canonicalize_proper _ _ H). apply same_bytes_refl.
Qed.

Lemma webhook_signature_window date_parse id ts body secret maxAge now t :
  date_parse ts = Some t ->
  verifyWebhookSignature date_parse id ts body (signWebhookDelivery id ts body secret) secret maxAge now
    = SignatureValid <->
  Z.abs (now - t) <= default DEFAULT_MAX_AGE_MS maxAge.
Proof.
  intros Ht. unfold verifyWebhookSignature. rewrite Ht, same_bytes_refl.
  destruct (_ <? _) eqn:E; bsplit; split; (done || lia).
Qed.
End Signing.
End Outbox.
