(* ===== verification/WebhookDelivery.v ===== *)
(** * Webhook endpoints and deliveries

    webhooks/webhook-endpoint.service.ts and webhooks/webhook-dispatch.service.ts.
    Methods are [Threads.Prog]s over the three tables they use, one
    [atomically] per statement whose result others can influence.  The DNS
    lookup of the guard and the POST itself are calls of the handler; the
    worker starts a poll every few seconds whether or not the previous one has
    ended, so polls interleave.  Generated keys are arguments; [newId e p] is
    the key of the delivery of event [e] to endpoint [p]. *)

From Stdlib Require Import Ascii.
From stdpp Require Import gmap strings list.
From S2P Require Import Prelude PolicyDsl PolicyDigest WebhookGuard Outbox Concurrency.

Module Hooks.
Import Threads Outbox Dsl.

Inductive WebhookEndpointStatus := ENDPOINT_ACTIVE | ENDPOINT_DISABLED.
Inductive WebhookDeliveryStatus := PENDING | SUCCEEDED | FAILED_FINAL.
#[export] Instance WebhookEndpointStatus_eq : EqDecision WebhookEndpointStatus.
Proof. solve_decision. Defined.
#[export] Instance WebhookDeliveryStatus_eq : EqDecision WebhookDeliveryStatus.
Proof. solve_decision. Defined.

Record WebhookEndpoint := {
  we_id : string;
  we_tenantId : string;
  we_targetUrl : string;
  we_secret : string;
  we_eventTypes : list string;
  we_status : WebhookEndpointStatus;
  we_outboundRateLimitPerMinute : Z;
  we_rateWindowStartedAt : option Z;
  we_rateWindowAttempts : Z }.

Record WebhookDeliveryAttempt := {
  at_attemptNumber : Z;
  at_attemptedAt : Z;
  at_httpStatusCode : option Z;
  at_succeeded : bool }.

Record WebhookDelivery := {
  wd_id : string;
  wd_tenantId : string;
  wd_webhookEndpointId : string;
  wd_outboxEventId : string;
  wd_eventType : string;
  wd_status : WebhookDeliveryStatus;
  wd_attempts : list WebhookDeliveryAttempt;
  wd_nextAttemptAt : option Z }.

Record Db := {
  endpoints : gmap string WebhookEndpoint;
  events : gmap string OutboxEvent;
  deliveries : gmap string WebhookDelivery }.

Definition with_endpoints (m : gmap string WebhookEndpoint) (db : Db) : Db :=
  {| endpoints := m; events := events db; deliveries := deliveries db |}.
Definition with_events (m : gmap string OutboxEvent) (db : Db) : Db :=
  {| endpoints := endpoints db; events := m; deliveries := deliveries db |}.
Definition with_deliveries (m : gmap string WebhookDelivery) (db : Db) : Db :=
  {| endpoints := endpoints db; events := events db; deliveries := m |}.

Inductive Failure :=
| NotFound (message : string)
| BadRequest (error : Guard.GuardError)
| EntityNotFound
| UniqueViolation.

(** What the worker asks the outside world. *)
Inductive Request :=
| Lookup (hostname : string)
| Post (targetUrl deliveryId timestampIso signature body : string).
Inductive Reply :=
| Addresses (found : option (list string))
| Response (httpStatusCode : option Z).

Notation prog := (Prog Db Failure Request Reply).

Definition EVENT_BATCH_SIZE : nat := 50.
Definition DELIVERY_BATCH_SIZE : nat := 50.
Definition MAX_ATTEMPTS : Z := 5.

(** [Math.min(1000 * 2 ** attemptNumber, 60_000)] *)
Definition backoffMs (attemptNumber : Z) : Z := Z.min (1000 * 2 ^ attemptNumber) 60000.

Section Service.
Context (parse_url : string -> option Guard.Url) (nodeEnv : option Guard.NodeEnvironment).
Context (hmac : string -> string -> string) (json : value -> string) (toISOString : Z -> string).

(** ** Endpoints *)

(** The guard, with the live resolver's answer for the host of the URL. *)
Definition assertPublic (targetUrl : string) : prog (result Guard.GuardError unit) :=
  let sandbox := Guard.isSandboxEnvironment (default Guard.Development nodeEnv) in
  let check resolve := Guard.assertPublicWebhookTarget parse_url resolve sandbox targetUrl in
  match parse_url targetUrl with
  | Some u =>
      if Guard.isIPv4 (Guard.bare (Guard.hostname u)) || Guard.isIPv6 (Guard.bare (Guard.hostname u))
      then mret (check (fun _ => None))
      else
        r ← call (Lookup (Guard.hostname u));
        mret (check (fun _ => match r with Addresses l => l | Response _ => None end))
  | None => mret (check (fun _ => None))
  end.

Definition assertSafeTarget (targetUrl : string) : prog unit :=
  r ← assertPublic targetUrl;
  match r with Ok _ => mret tt | Err e => fail (BadRequest e) end.

Definition save_endpoint (e : WebhookEndpoint) : M Db Failure WebhookEndpoint :=
  _ ← modify (fun db => with_endpoints (<[we_id e := e]> (endpoints db)) db);
  mret e.

Definition create (newId secret tenantId targetUrl : string) (eventTypes : list string)
  : prog WebhookEndpoint :=
  _ ← assertSafeTarget targetUrl;
  atomically (
    taken ← gets (fun db => endpoints db !! newId);
    _ ← guard_throw (bool_decide (is_Some taken)) UniqueViolation;
    save_endpoint {| we_id := newId; we_tenantId := tenantId; we_targetUrl := targetUrl;
                     we_secret := secret; we_eventTypes := eventTypes; we_status := ENDPOINT_ACTIVE;
                     we_outboundRateLimitPerMinute := 60; we_rateWindowStartedAt := None;
                     we_rateWindowAttempts := 0 |}).

Definition findByIdOrFail (tenantId id : string) (db : Db) : result Failure WebhookEndpoint :=
  match endpoints db !! id with
  | Some e => if String.eqb (we_tenantId e) tenantId then Ok e else Err (NotFound "Webhook endpoint not found")
  | None => Err (NotFound "Webhook endpoint not found")
  end.

Definition findActiveForTenantAndEventType (tenantId eventType : string) (db : Db)
  : list WebhookEndpoint :=
  List.filter (fun e => includes (we_eventTypes e) eventType)
    (find_rows (fun e => String.eqb (we_tenantId e) tenantId &&
                         bool_decide (we_status e = ENDPOINT_ACTIVE)) (endpoints db)).

Definition edited (targetUrl : option string) (eventTypes : option (list string)) (limit : option Z)
    (e : WebhookEndpoint) : WebhookEndpoint :=
  {| we_id := we_id e; we_tenantId := we_tenantId e; we_targetUrl := default (we_targetUrl e) targetUrl;
     we_secret := we_secret e; we_eventTypes := default (we_eventTypes e) eventTypes;
     we_status := we_status e;
     we_outboundRateLimitPerMinute := default (we_outboundRateLimitPerMinute e) limit;
     we_rateWindowStartedAt := we_rateWindowStartedAt e;
     we_rateWindowAttempts := we_rateWindowAttempts e |}.

Definition disabled (e : WebhookEndpoint) : WebhookEndpoint :=
  {| we_id := we_id e; we_tenantId := we_tenantId e; we_targetUrl := we_targetUrl e;
     we_secret := we_secret e; we_eventTypes := we_eventTypes e; we_status := ENDPOINT_DISABLED;
     we_outboundRateLimitPerMinute := we_outboundRateLimitPerMinute e;
     we_rateWindowStartedAt := we_rateWindowStartedAt e;
     we_rateWindowAttempts := we_rateWindowAttempts e |}.

(** [repo.save(entity)] writes the columns that differ from the loaded ones,
    which is the loaded row with the edit applied. *)
Definition edit_endpoint (tenantId id : string) (f : WebhookEndpoint -> WebhookEndpoint)
  : M Db Failure WebhookEndpoint :=
  found ← gets (findByIdOrFail tenantId id);
  e ← lift found;
  save_endpoint (f e).

Definition update (tenantId id : string) (targetUrl : option string)
    (eventTypes : option (list string)) (limit : option Z) : prog WebhookEndpoint :=
  _ ← match targetUrl with Some u => assertSafeTarget u | None => mret tt end;
  atomically (edit_endpoint tenantId id (edited targetUrl eventTypes limit)).

Definition disable (tenantId id : string) : prog WebhookEndpoint :=
  atomically (edit_endpoint tenantId id disabled).

(** The start of the UTC minute of a time. *)
Definition window_of (now : Z) : Z := now / 60000 * 60000.

Definition fresh_window (windowStart : Z) (e : WebhookEndpoint) : bool :=
  match we_rateWindowStartedAt e with None => true | Some w => w <? windowStart end.

Definition counted (windowStart : Z) (e : WebhookEndpoint) : WebhookEndpoint :=
  {| we_id := we_id e; we_tenantId := we_tenantId e; we_targetUrl := we_targetUrl e;
     we_secret := we_secret e; we_eventTypes := we_eventTypes e; we_status := we_status e;
     we_outboundRateLimitPerMinute := we_outboundRateLimitPerMinute e;
     we_rateWindowStartedAt := Some windowStart;
     we_rateWindowAttempts := if fresh_window windowStart e then 1 else we_rateWindowAttempts e + 1 |}.

(** [WebhookDeliveryService.findByIdOrFail] *)
Definition findDeliveryByIdOrFail (tenantId id : string) (db : Db) : result Failure WebhookDelivery :=
  match deliveries db !! id with
  | Some d => if String.eqb (wd_tenantId d) tenantId then Ok d else Err (NotFound "Webhook delivery not found")
  | None => Err (NotFound "Webhook delivery not found")
  end.

(** The conditional UPDATE; returns whether it matched a row. *)
Definition reserveOutboundAttempt (tenantId endpointId : string) (now : Z) : M Db Failure bool :=
  row ← gets (fun db => endpoints db !! endpointId);
  match row with
  | Some e =>
      if String.eqb (we_tenantId e) tenantId &&
         (fresh_window (window_of now) e ||
          (we_rateWindowAttempts e <? we_outboundRateLimitPerMinute e))
      then
        _ ← modify (fun db => with_endpoints
              (<[endpointId := counted (window_of now) e]> (endpoints db)) db);
        mret true
      else mret false
  | None => mret false
  end.

(** ** Dispatch *)

Definition unpublished (db : Db) : list OutboxEvent :=
  firstn EVENT_BATCH_SIZE
    (order_by oe_createdAt (find_rows (fun e => bool_decide (oe_publishedAt e = None)) (events db))).

Definition has_delivery (eventId endpointId : string) (db : Db) : bool :=
  bool_decide (is_Some (find_row (fun d => String.eqb (wd_outboxEventId d) eventId &&
    String.eqb (wd_webhookEndpointId d) endpointId) (deliveries db))).

Definition new_delivery (id : string) (event : OutboxEvent) (endpointId : string) : WebhookDelivery :=
  {| wd_id := id; wd_tenantId := oe_tenantId event; wd_webhookEndpointId := endpointId;
     wd_outboxEventId := oe_id event; wd_eventType := oe_eventType event; wd_status := PENDING;
     wd_attempts := []; wd_nextAttemptAt := None |}.

(** The endpoints of the event without a delivery yet, one query each. *)
Fixpoint missing_deliveries (event : OutboxEvent) (es : list WebhookEndpoint) : prog (list string) :=
  match es with
  | [] => mret []
  | e :: es' =>
      existing ← atomically (gets (has_delivery (oe_id event) (we_id e)));
      rest ← missing_deliveries event es';
      mret (if existing : bool then rest else we_id e :: rest)
  end.

(** The inserts, which become visible when the transaction commits. *)
Fixpoint insert_deliveries (newId : string -> string -> string) (event : OutboxEvent)
    (ids : list string) : M Db Failure unit :=
  match ids with
  | [] => mret tt
  | p :: ids' =>
      taken ← gets (fun db => deliveries db !! newId (oe_id event) p);
      _ ← guard_throw (bool_decide (is_Some taken)) UniqueViolation;
      _ ← modify (fun db => with_deliveries
            (<[newId (oe_id event) p := new_delivery (newId (oe_id event) p) event p]> (deliveries db)) db);
      insert_deliveries newId event ids'
  end.

Definition published (now : Z) (e : OutboxEvent) : OutboxEvent :=
  {| oe_id := oe_id e; oe_tenantId := oe_tenantId e; oe_caseId := oe_caseId e;
     oe_eventType := oe_eventType e; oe_payload := oe_payload e; oe_signature := oe_signature e;
     oe_createdAt := oe_createdAt e; oe_publishedAt := Some now |}.

Definition mark_published (now : Z) (event : OutboxEvent) : M Db Failure unit :=
  modify (fun db => with_events (alter (published now) (oe_id event) (events db)) db).

Definition fan_out (newId : string -> string -> string) (now : Z) (event : OutboxEvent) : prog unit :=
  es ← atomically (gets (findActiveForTenantAndEventType (oe_tenantId event) (oe_eventType event)));
  ids ← missing_deliveries event es;
  _ ← atomically (transaction (insert_deliveries newId event ids));
  atomically (mark_published now event).

Fixpoint fan_out_all (newId : string -> string -> string) (now : Z) (es : list OutboxEvent) : prog unit :=
  match es with
  | [] => mret tt
  | e :: es' => _ ← fan_out newId now e; fan_out_all newId now es'
  end.

Definition is_due (now : Z) (d : WebhookDelivery) : bool :=
  bool_decide (wd_status d = PENDING) &&
  match wd_nextAttemptAt d with None => true | Some t => t <=? now end.

Definition due (now : Z) (db : Db) : list WebhookDelivery :=
  firstn DELIVERY_BATCH_SIZE (find_rows (is_due now) (deliveries db)).

Definition wd_set (status : WebhookDeliveryStatus) (attempts : list WebhookDeliveryAttempt)
    (next : option Z) (d : WebhookDelivery) : WebhookDelivery :=
  {| wd_id := wd_id d; wd_tenantId := wd_tenantId d; wd_webhookEndpointId := wd_webhookEndpointId d;
     wd_outboxEventId := wd_outboxEventId d; wd_eventType := wd_eventType d; wd_status := status;
     wd_attempts := attempts; wd_nextAttemptAt := next |}.

(** [update({ id, status: PENDING }, { nextAttemptAt })] *)
Definition defer_delivery (id : string) (next : Z) : M Db Failure unit :=
  modify (fun db => with_deliveries (alter (fun d =>
    if bool_decide (wd_status d = PENDING) then wd_set PENDING (wd_attempts d) (Some next) d else d)
    id (deliveries db)) db).

(** [update({ id }, { attempts, status, nextAttemptAt })] *)
Definition record_attempt (id : string) (status : WebhookDeliveryStatus)
    (attempts : list WebhookDeliveryAttempt) (next : option Z) : M Db Failure unit :=
  modify (fun db => with_deliveries (alter (wd_set status attempts next) id (deliveries db)) db).

(** The body, the signature and the POST; [None] when no response came. *)
Definition post (delivery : WebhookDelivery) (endpoint : WebhookEndpoint) (event : OutboxEvent)
    (now : Z) : prog (option Z) :=
  let timestampIso := toISOString now in
  let rawBody := json (VObject [("id", VString (wd_id delivery)); ("type", VString (wd_eventType delivery));
                                ("timestamp", VString timestampIso); ("data", oe_payload event)]) in
  let signature := signWebhookDelivery hmac (wd_id delivery) timestampIso rawBody (we_secret endpoint) in
  ok ← assertPublic (we_targetUrl endpoint);
  match ok with
  | Err _ => mret None
  | Ok _ =>
      r ← call (Post (we_targetUrl endpoint) (wd_id delivery) timestampIso signature rawBody);
      mret (match r with Response c => c | Addresses _ => None end)
  end.

(** [response.ok] *)
Definition accepted (httpStatusCode : option Z) : bool :=
  match httpStatusCode with Some c => (200 <=? c) && (c <=? 299) | None => false end.

(** The state of the delivery after an attempt. *)
Definition after_attempt (now attemptNumber : Z) (succeeded : bool) : WebhookDeliveryStatus * option Z :=
  if succeeded then (SUCCEEDED, None)
  else if MAX_ATTEMPTS <=? attemptNumber then (FAILED_FINAL, None)
  else (PENDING, Some (now + backoffMs attemptNumber)).

Definition attemptDelivery (delivery : WebhookDelivery) (now : Z) : prog unit :=
  found ← atomically (gets (findByIdOrFail (wd_tenantId delivery) (wd_webhookEndpointId delivery)));
  endpoint ← Done found;
  reserved ← atomically (reserveOutboundAttempt (wd_tenantId delivery) (we_id endpoint) now);
  if negb reserved
  then atomically (defer_delivery (wd_id delivery) (window_of now + 60000))
  else
    event ← atomically (gets (fun db => events db !! wd_outboxEventId delivery));
    match event with
    | None => fail EntityNotFound
    | Some event =>
        let attemptNumber := Z.of_nat (length (wd_attempts delivery)) + 1 in
        code ← post delivery endpoint event now;
        let succeeded := accepted code in
        let attempt := {| at_attemptNumber := attemptNumber; at_attemptedAt := now;
                          at_httpStatusCode := code; at_succeeded := succeeded |} in
        let '(status, next) := after_attempt now attemptNumber succeeded in
        atomically (record_attempt (wd_id delivery) status (wd_attempts delivery ++ [attempt]) next)
    end.

Fixpoint attempt_all (ds : list WebhookDelivery) (now : Z) : prog unit :=
  match ds with
  | [] => mret tt
  | d :: ds' => _ ← attemptDelivery d now; attempt_all ds' now
  end.

Definition dispatchPendingEvents (newId : string -> string -> string) (now : Z) : prog (nat * nat) :=
  es ← atomically (gets unpublished);
  _ ← fan_out_all newId now es;
  ds ← atomically (gets (due now));
  _ ← attempt_all ds now;
  mret (length es, length ds).

(** ** The handlers of the service *)

Inductive Op :=
| OpCreate (newId secret tenantId targetUrl : string) (eventTypes : list string)
| OpUpdate (tenantId id : string) (targetUrl : option string) (eventTypes : option (list string))
    (limit : option Z)
| OpDisable (tenantId id : string)
| OpDispatch (newId : string -> string -> string) (now : Z).

Definition handler (op : Op) : prog unit :=
  match op with
  | OpCreate newId secret t u es => _ ← create newId secret t u es; mret tt
  | OpUpdate t id u es l => _ ← update t id u es l; mret tt
  | OpDisable t id => _ ← disable t id; mret tt
  | OpDispatch newId now => _ ← dispatchPendingEvents newId now; mret tt
  end.
End Service.
End Hooks.
