(* ===== verification/WebhookTheorems.v ===== *)
(** * What webhook delivery guarantees

    The first part holds in every interleaving of polls and endpoint edits; the
    second is about one poll, attempt or fan-out that runs undisturbed; the
    third is the rate limit, and the interleavings in which deliveries are
    repeated or the limit is exceeded. *)

From Stdlib Require Import Ascii.
From stdpp Require Import gmap strings list pretty.
From S2P Require Import Prelude PolicyDsl PolicyDigest WebhookGuard Outbox Concurrency WebhookDelivery.

Module WebhookTheorems.
Import Threads Outbox Hooks.

(** ** Delivery records *)

Definition failed (a : WebhookDeliveryAttempt) : Prop := at_succeeded a = false.

Record wf_delivery (d : WebhookDelivery) : Prop := {
  wf_numbers : at_attemptNumber <$> wd_attempts d = Z.of_nat <$> seq 1 (length (wd_attempts d));
  wf_codes : Forall (fun a => at_succeeded a = accepted (at_httpStatusCode a)) (wd_attempts d);
  wf_status : match wd_status d with
    | PENDING => (length (wd_attempts d) < 5)%nat /\ Forall failed (wd_attempts d)
    | SUCCEEDED => wd_nextAttemptAt d = None /\ (length (wd_attempts d) <= 5)%nat /\
        exists l a, wd_attempts d = l ++ [a] /\ Forall failed l /\ at_succeeded a = true
    | FAILED_FINAL => wd_nextAttemptAt d = None /\ length (wd_attempts d) = 5%nat /\
        Forall failed (wd_attempts d)
    end }.

Definition Inv (db : Db) : Prop :=
  forall k d, deliveries db !! k = Some d -> wd_id d = k /\ wf_delivery d.

Lemma Inv_deliveries db m :
  (forall k d, m !! k = Some d -> wd_id d = k /\ wf_delivery d) -> Inv (with_deliveries m db).
Proof. done. Qed.

Lemma Inv_alter f id db :
  Inv db -> (forall d, wf_delivery d -> deliveries db !! id = Some d -> wf_delivery (f d) /\ wd_id (f d) = wd_id d) ->
  Inv (with_deliveries (alter f id (deliveries db)) db).
Proof.
  intros HI Hf k d. cbn. destruct (decide (k = id)) as [->|Hne].
  - rewrite lookup_alter_eq. intros (d0 & Hd & ->)%fmap_Some. destruct (HI _ _ Hd) as [<- Hw].
    destruct (Hf d0 Hw Hd) as [? ->]. done.
  - rewrite lookup_alter_ne by done. apply HI.
Qed.

(** The record an attempt writes, from the one the poll read. *)
Lemma after_attempt_wf d x now code status next :
  wf_delivery d -> wd_status d = PENDING ->
  after_attempt now (Z.of_nat (length (wd_attempts d)) + 1) (accepted code) = (status, next) ->
  wf_delivery (wd_set status (wd_attempts d ++
    [{| at_attemptNumber := Z.of_nat (length (wd_attempts d)) + 1; at_attemptedAt := now;
        at_httpStatusCode := code; at_succeeded := accepted code |}]) next x).
Proof.
  intros [Hn Hc Hs] Hp Ha. rewrite Hp in Hs. destruct Hs as [Hlt Hfail]. split; cbn.
  - rewrite fmap_app, Hn, length_app, seq_app, fmap_app. cbn. do 3 f_equal. lia.
  - apply Forall_app_2; [done|]. by repeat constructor.
  - unfold after_attempt in Ha. destruct (accepted code) eqn:E.
    + injection Ha as <- <-. split; [done|]. rewrite length_app. cbn. split; [lia|]. eauto 10.
    + destruct (MAX_ATTEMPTS <=? _) eqn:E5; injection Ha as <- <-; bsplit;
        unfold MAX_ATTEMPTS in *; rewrite length_app; cbn.
      * split; [done|]. split; [lia|]. apply Forall_app_2; [done|]. by repeat constructor.
      * split; [lia|]. apply Forall_app_2; [done|]. by repeat constructor.
Qed.

(** Other services add outbox events at any time. *)
Definition events_arrive (s s' : Db) : Prop := exists m, s' = with_events m s.

Section Interleaving.
Context (parse_url : string -> option Guard.Url) (nodeEnv : option Guard.NodeEnvironment).
Context (hmac : string -> string -> string) (json : Dsl.value -> string) (toISOString : Z -> string).

Notation keeps := (keeps (E := Failure) (Q := Request) (R := Reply) Inv).

Lemma keeps_guard u Φ :
  (forall r, Φ (Ok r)) -> keeps Φ (assertPublic parse_url nodeEnv u).
Proof.
  intros H. unfold assertPublic. destruct (parse_url u); [|apply H].
  destruct (_ || _); [apply H|]. intros r. apply H.
Qed.

Lemma keeps_safe_target u Φ : (forall r, Φ r) -> keeps Φ (assertSafeTarget parse_url nodeEnv u).
Proof.
  intros H. apply keeps_bind, keeps_guard. intros r. destruct r; apply H.
Qed.

(** A statement that leaves the deliveries alone. *)
Lemma keeps_endpoint_statement {A} (m : M Db Failure A) Φ :
  (forall db, deliveries (m db).2 = deliveries db) -> (forall r, Φ r) -> keeps Φ (atomically m).
Proof.
  intros Hm H. apply keeps_atomically. intros s Hs. split; [|apply H].
  intros k d. rewrite Hm. apply Hs.
Qed.

Lemma edit_endpoint_frame t id f db : deliveries (edit_endpoint t id f db).2 = deliveries db.
Proof.
  unfold edit_endpoint, mbind, M_bind, gets, lift. by destruct (findByIdOrFail t id db).
Qed.

Lemma reserve_frame t id now db : deliveries (reserveOutboundAttempt t id now db).2 = deliveries db.
Proof.
  unfold reserveOutboundAttempt, mbind, M_bind, gets. destruct (endpoints db !! id) as [e|]; [|done].
  by destruct (_ && _).
Qed.

Lemma insert_deliveries_Inv newId e ids : preserves Inv (insert_deliveries newId e ids).
Proof.
  induction ids as [|p ids IH]; [apply preserves_ret|]. cbn [insert_deliveries].
  apply preserves_bind; [apply preserves_gets|]. intros taken.
  apply preserves_bind; [apply preserves_guard|]. intros _.
  apply preserves_bind; [|done]. apply preserves_modify. intros db HI k d. cbn.
  rewrite lookup_insert_Some. intros [[<- <-]|[_ Hd]]; [|by apply HI]. split; [done|].
  by split; cbn; repeat constructor.
Qed.

Lemma missing_keeps e es Φ : (forall r, Φ r) -> keeps Φ (missing_deliveries e es).
Proof.
  intros H. revert Φ H. induction es as [|p es IH]; intros Φ H; [apply H|]. cbn [missing_deliveries].
  apply keeps_gets. intros s Hs. apply keeps_bind, IH. intros [r|]; apply H.
Qed.

Lemma fan_out_keeps newId now e Φ : (forall r, Φ r) -> keeps Φ (fan_out newId now e).
Proof.
  intros H. unfold fan_out. apply keeps_gets. intros s Hs. apply keeps_bind, missing_keeps.
  intros [ids|]; [|apply H]. apply keeps_bind, keeps_atomically. intros db HI.
  split.
  { apply (preserves_transaction Inv); [|done]. intros s0 a s1 H0 Hr.
    pose proof (insert_deliveries_Inv newId e ids s0 H0) as H1. by rewrite Hr in H1. }
  destruct (transaction _ db).1; [|apply H]. by apply keeps_endpoint_statement.
Qed.

Lemma fan_out_all_keeps newId now es Φ : (forall r, Φ r) -> keeps Φ (fan_out_all newId now es).
Proof.
  intros H. induction es as [|e es IH]; [apply H|]. apply keeps_bind, fan_out_keeps. intros [[]|]; [done|apply H].
Qed.

Lemma attempt_keeps d now Φ :
  wf_delivery d -> wd_status d = PENDING -> (forall r, Φ r) ->
  keeps Φ (attemptDelivery parse_url nodeEnv hmac json toISOString d now).
Proof.
  intros Hw Hp H. unfold attemptDelivery. apply keeps_gets. intros s _.
  apply keeps_bind. cbn [Threads.keeps]. destruct (findByIdOrFail _ _ s) as [endpoint|]; [|apply H].
  apply keeps_bind, keeps_endpoint_statement; [intros; apply reserve_frame|].
  intros [[]|]; [|apply keeps_atomically|apply H].
  - apply keeps_gets. intros s' _. destruct (events s' !! _) as [event|]; [|apply H].
    apply keeps_bind. unfold post. apply keeps_bind, keeps_guard. intros ok.
    assert (forall code, keeps Φ
      (let '(status, next) := after_attempt now (Z.of_nat (length (wd_attempts d)) + 1) (accepted code) in
       atomically (record_attempt (wd_id d) status (wd_attempts d ++
         [{| at_attemptNumber := Z.of_nat (length (wd_attempts d)) + 1; at_attemptedAt := now;
             at_httpStatusCode := code; at_succeeded := accepted code |}]) next))) as Hrec.
    { intros code. destruct (after_attempt _ _ _) as [status next] eqn:Ea.
      apply keeps_atomically. intros db HI. split; [|apply H]. apply Inv_alter; [done|]. intros x _ _.
      split; [by eapply after_attempt_wf|done]. }
    destruct ok; [|apply Hrec]. intros r. apply Hrec.
  - intros db HI. split; [|apply H]. apply Inv_alter; [done|]. intros x [Hn Hc Hs] _.
    destruct (bool_decide _) eqn:E; [|done]. bsplit. rewrite E in Hs. by split.
Qed.

Lemma attempt_all_keeps ds now Φ :
  Forall (fun d => wf_delivery d /\ wd_status d = PENDING) ds -> (forall r, Φ r) ->
  keeps Φ (attempt_all parse_url nodeEnv hmac json toISOString ds now).
Proof.
  intros Hd H. induction Hd as [|d ds [Hw Hp] _ IH]; [apply H|].
  apply keeps_bind, attempt_keeps; [done|done|]. intros [[]|]; [done|apply H].
Qed.

Lemma due_pending now db : Inv db -> Forall (fun d => wf_delivery d /\ wd_status d = PENDING) (due now db).
Proof.
  intros HI. apply Forall_take, Forall_forall. intros d Hd.
  apply elem_find_rows in Hd as [Hp [k Hk]]. unfold is_due in Hp. bsplit.
  split; [by eapply HI|done].
Qed.

Lemma handlers_keep op :
  keeps (fun _ => True) (handler parse_url nodeEnv hmac json toISOString op).
Proof.
  destruct op as [newId secret t u es|t id u es l|t id|newId now]; cbn [handler]; apply keeps_bind.
  - apply keeps_bind, keeps_safe_target. intros [[]|]; [|done].
    apply keeps_endpoint_statement; [|by intros []]. intros db.
    unfold mbind, M_bind, gets, guard_throw. by destruct (bool_decide _).
  - apply keeps_bind. assert (forall Φ, (forall r, Φ r) ->
      keeps Φ (match u with Some u => assertSafeTarget parse_url nodeEnv u | None => mret tt end)) as Hu.
    { intros Φ H. destruct u; [by apply keeps_safe_target|apply H]. }
    apply Hu. intros [[]|]; [|done]. apply keeps_endpoint_statement; [|by intros []].
    intros; apply edit_endpoint_frame.
  - apply keeps_endpoint_statement; [|by intros []]. intros; apply edit_endpoint_frame.
  - apply keeps_gets. intros s Hs. apply keeps_bind, fan_out_all_keeps. intros [[]|]; [|done].
    apply keeps_gets. intros s' Hs'. apply keeps_bind, attempt_all_keeps; [by apply due_pending|].
    intros [|]; done.
Qed.

(** In every interleaving of polls and endpoint changes, crashes included,
    a delivery's attempts are numbered from 1 without gaps, there are at most
    five, each is marked successful exactly on a 2xx response, and the status
    says what happened: PENDING with fewer than five failures, FAILED_FINAL
    after exactly five, SUCCEEDED with a successful last attempt after
    failures only; only a PENDING delivery is scheduled again. *)
Theorem delivery_history_is_wellformed db0 w id d :
  deliveries db0 = ∅ ->
  reachable (handler parse_url nodeEnv hmac json toISOString) events_arrive db0 w ->
  deliveries (db w) !! id = Some d -> wd_id d = id /\ wf_delivery d.
Proof.
  intros H0 Hr. apply (pool_keeps Inv _ events_arrive) in Hr; [apply Hr|apply handlers_keep| |].
  - intros s s' [m ->]. done.
  - intros k x Hx. by rewrite H0, lookup_empty in Hx.
Qed.

(** ** What a poll posts *)

Section Posts.
Context (answer : Request -> Reply).

(** What DNS answers, in this run. *)
Definition dns (h : string) : option (list string) :=
  match answer (Lookup h) with Addresses l => l | Response _ => None end.

(** Every address of the target is public, or loopback in a sandbox. *)
Definition public_target (url : string) : Prop :=
  exists u l, parse_url url = Some u /\ Guard.protocol u ∈ ["http:"; "https:"] /\
    Guard.target_addresses dns (Guard.hostname u) = Some l /\ l <> [] /\
    Forall (fun a => Guard.special a = false \/
      Guard.isSandboxEnvironment (default Guard.Development nodeEnv) = true /\ Guard.loopback a = true) l.

Definition public_post (q : Request) : Prop :=
  match q with Post url _ _ _ _ => public_target url | Lookup _ => True end.

Hypothesis dns_numeric : forall h l, dns h = Some l -> Forall (fun a => Guard.no_zone a = true) l.
Hypothesis url_literals : forall s u, parse_url s = Some u -> Guard.no_zone (Guard.bare (Guard.hostname u)) = true.

Notation asks := (asks (S := Db) (E := Failure) answer).

(** The guard of a URL only looks at the answer for its own host. *)
Lemma guard_dns url f u :
  parse_url url = Some u -> f (Guard.hostname u) = dns (Guard.hostname u) \/
  Guard.isIPv4 (Guard.bare (Guard.hostname u)) || Guard.isIPv6 (Guard.bare (Guard.hostname u)) = true ->
  forall b, Guard.assertPublicWebhookTarget parse_url f b url = Guard.assertPublicWebhookTarget parse_url dns b url.
Proof.
  intros Hu Hf b. unfold Guard.assertPublicWebhookTarget, Guard.target_addresses. rewrite Hu.
  destruct Hf as [->| ->]; done.
Qed.

Lemma asks_guard url Φ :
  (forall r, (r = Ok tt -> public_target url) -> Φ (Ok r)) ->
  asks public_post Φ (assertPublic parse_url nodeEnv url).
Proof.
  intros H. unfold assertPublic.
  set (b := Guard.isSandboxEnvironment (default Guard.Development nodeEnv)).
  assert (Guard.assertPublicWebhookTarget parse_url dns b url = Ok tt -> public_target url) as Hok.
  { intros Hr. apply Guard.guard_admits_only_public in Hr as (u & l & Hr); [by exists u, l|done|].
    intros u Hu. by eapply url_literals. }
  destruct (parse_url url) as [u|] eqn:Hu.
  - destruct (_ || _) eqn:Hip.
    + apply H. intros Hr. apply Hok. rewrite <- Hr. symmetry. by apply (guard_dns url _ u Hu); right.
    + split; [done|]. apply H. intros Hr. apply Hok. rewrite <- Hr. symmetry.
      apply (guard_dns url _ u Hu). by left.
  - apply H. unfold Guard.assertPublicWebhookTarget. by rewrite Hu.
Qed.

Lemma asks_nothing {A} (p : Prog Db Failure Request Reply A) Φ :
  callfree p -> (forall r, Φ r) -> asks public_post Φ p.
Proof.
  intros Hp H. induction p as [r|C m k IH|q k IH]; cbn in *; [done| |done]. intros s. by apply IH.
Qed.

Lemma missing_callfree e es : callfree (missing_deliveries e es).
Proof.
  induction es as [|p es IH]; [done|]. cbn [missing_deliveries]. apply callfree_bind; [done|]. intros b.
  apply (callfree_bind (missing_deliveries e es)); [done|]. by intros.
Qed.

Lemma fan_out_all_callfree newId now es : callfree (fan_out_all newId now es).
Proof.
  induction es as [|e es IH]; [done|]. apply callfree_bind; [|done].
  apply callfree_bind; [done|]. intros ps. apply callfree_bind; [apply missing_callfree|].
  intros ids. by apply callfree_bind.
Qed.

Lemma asks_attempt d now Φ :
  (forall r, Φ r) -> asks public_post Φ (attemptDelivery parse_url nodeEnv hmac json toISOString d now).
Proof using dns_numeric url_literals.
  intros H. unfold attemptDelivery. apply asks_gets. intros s. apply asks_bind. cbn [Threads.asks].
  destruct (findByIdOrFail _ _ s) as [endpoint|]; [|apply H].
  apply asks_bind. intros s1. cbn [Threads.asks].
  destruct (reserveOutboundAttempt _ _ _ s1).1 as [[]|]; [|by apply asks_nothing|apply H].
  apply asks_gets. intros s2. destruct (events s2 !! _) as [event|]; [|apply H].
  apply asks_bind. unfold post. apply asks_bind, asks_guard. intros ok Hok.
  assert (forall code, asks public_post Φ
      (let '(status, next) := after_attempt now (Z.of_nat (length (wd_attempts d)) + 1) (accepted code) in
       atomically (record_attempt (wd_id d) status (wd_attempts d ++
         [{| at_attemptNumber := Z.of_nat (length (wd_attempts d)) + 1; at_attemptedAt := now;
             at_httpStatusCode := code; at_succeeded := accepted code |}]) next))) as Hrec.
  { intros code. destruct (after_attempt _ _ _). by apply asks_nothing. }
  destruct ok as [[]|]; [|apply Hrec]. split; [by apply Hok|]. apply Hrec.
Qed.

End Posts.
End Interleaving.

(** ** The rate limit *)

(** Reservations at the given times, one after the other. *)
Fixpoint reserve_all (tenantId endpointId : string) (ts : list Z) : M Db Failure (list bool) :=
  match ts with
  | [] => mret []
  | t :: ts' =>
      b ← reserveOutboundAttempt tenantId endpointId t;
      bs ← reserve_all tenantId endpointId ts';
      mret (b :: bs)
  end.

Lemma reserve_all_cons tenantId id t ts db b db1 :
  reserveOutboundAttempt tenantId id t db = (Ok b, db1) ->
  (reserve_all tenantId id (t :: ts) db).1 =
  match (reserve_all tenantId id ts db1).1 with Ok bs => Ok (b :: bs) | Err e => Err e end.
Proof.
  intros Hr. cbn [reserve_all]. unfold mbind, M_bind. rewrite Hr.
  by destruct (reserve_all tenantId id ts db1) as [[bs|e] db2].
Qed.

Definition uses (w : Z) (seen : list Z) : Z := Z.of_nat (length (List.filter (Z.eqb w) (map window_of seen))).

(** What a limit per UTC minute means: a request is granted when fewer than
    [limit] came before it in the same minute. *)
Fixpoint per_minute (limit : Z) (seen ts : list Z) : list bool :=
  match ts with
  | [] => []
  | t :: ts' => (uses (window_of t) seen <? limit) :: per_minute limit (t :: seen) ts'
  end.

(** The row after the requests of [seen], the latest first. *)
Definition accounts (limit : Z) (seen : list Z) (e : WebhookEndpoint) : Prop :=
  we_outboundRateLimitPerMinute e = limit /\
  match seen with
  | [] => we_rateWindowStartedAt e = None
  | t :: _ => we_rateWindowStartedAt e = Some (window_of t) /\
      Forall (fun x => window_of x <= window_of t) seen /\
      we_rateWindowAttempts e = Z.min limit (uses (window_of t) seen)
  end.

Lemma window_mono a b : a <= b -> window_of a <= window_of b.
Proof. unfold window_of. intros. apply Z.mul_le_mono_nonneg_r; [lia|]. apply Z.div_le_mono; lia. Qed.

Lemma uses_cons w t seen : uses w (t :: seen) = uses w seen + (if w =? window_of t then 1 else 0).
Proof. unfold uses. cbn. destruct (w =? window_of t); cbn; lia. Qed.

Lemma uses_later w seen : Forall (fun x => window_of x < w) seen -> uses w seen = 0.
Proof.
  induction 1 as [|x seen Hx _ IH]; [done|]. rewrite uses_cons, IH. case_match eqn:E; bsplit; lia.
Qed.

(** One request. *)
Lemma reserve_accounts tenantId id limit seen t e db :
  1 <= limit -> endpoints db !! id = Some e -> we_tenantId e = tenantId -> accounts limit seen e ->
  Forall (fun x => x <= t) seen ->
  exists e', reserveOutboundAttempt tenantId id t db =
      (Ok (uses (window_of t) seen <? limit), with_endpoints (<[id := e']> (endpoints db)) db) /\
    we_tenantId e' = tenantId /\ accounts limit (t :: seen) e'.
Proof.
  intros Hl He Ht [Hlim Hacc] Hle. unfold reserveOutboundAttempt, mbind, M_bind, gets. rewrite He.
  rewrite Ht, String.eqb_refl. cbn [andb]. unfold fresh_window.
  destruct seen as [|t0 seen].
  - rewrite Hacc. exists (counted (window_of t) e). cbn [orb]. split.
    { unfold modify, mret, M_ret. do 2 f_equal. symmetry. apply Z.ltb_lt. change (uses _ []) with 0. lia. }
    split; [done|]. split; [done|]. cbn. split; [done|]. split; [by repeat constructor|].
    unfold fresh_window. rewrite Hacc, uses_cons, Z.eqb_refl. change (uses _ []) with 0. lia.
  - destruct Hacc as (Hw & Hs & Ha). rewrite Hw.
    pose proof (window_mono t0 t) as Hmono. apply Forall_cons in Hle as [H0 Hle]. specialize (Hmono H0).
    destruct (window_of t0 <? window_of t) eqn:Elt; cbn [orb]; bsplit.
    + assert (uses (window_of t) (t0 :: seen) = 0) as H0'.
      { apply uses_later. eapply Forall_impl; [exact Hs|]. cbn. lia. }
      exists (counted (window_of t) e). split.
      { unfold modify, mret, M_ret. do 2 f_equal. symmetry. apply Z.ltb_lt. lia. }
      split; [done|]. split; [done|]. cbn. split; [done|]. split.
      { constructor; [lia|]. eapply Forall_impl; [exact Hs|]. cbn. lia. }
      unfold fresh_window. rewrite Hw, (proj2 (Z.ltb_lt _ _) Elt), uses_cons, H0', Z.eqb_refl. lia.
    + assert (window_of t = window_of t0) as Ewin by lia. rewrite Ha, Hlim, Ewin.
      destruct (Z.min limit _ <? limit) eqn:Eg; bsplit.
      * exists (counted (window_of t0) e). split.
        { unfold modify, mret, M_ret. do 2 f_equal. symmetry. apply Z.ltb_lt. lia. }
        split; [done|]. split; [done|]. cbn. rewrite <- Ewin. split; [done|]. split.
        { constructor; [lia|]. eapply Forall_impl; [exact Hs|]. cbn. lia. }
        unfold fresh_window. rewrite Hw, Ewin, Z.ltb_irrefl, (uses_cons _ t), Ewin, Z.eqb_refl, Ha. lia.
      * exists e. split.
        { rewrite insert_id by done. unfold mret, M_ret. f_equal; [f_equal|by destruct db].
          symmetry. apply Z.ltb_ge. lia. }
        split; [done|]. split; [done|]. cbn. rewrite Ewin. split; [done|]. split.
        { constructor; [lia|]. done. }
        rewrite (uses_cons _ t), Ewin, Z.eqb_refl, Ha. lia.
Qed.

Lemma reserve_all_per_minute tenantId id limit ts seen e db :
  1 <= limit -> endpoints db !! id = Some e -> we_tenantId e = tenantId -> accounts limit seen e ->
  Sorted.StronglySorted Z.le ts -> Forall (fun t => Forall (fun x => x <= t) seen) ts ->
  (reserve_all tenantId id ts db).1 = Ok (per_minute limit seen ts).
Proof.
  intros Hl. revert seen e db. induction ts as [|t ts IH]; intros seen e db He Ht Hacc Hsort Hle; [done|].
  apply Sorted.StronglySorted_inv in Hsort as [Hsort Hmin]. apply Forall_cons in Hle as [Hle1 Hle].
  destruct (reserve_accounts tenantId id limit seen t e db Hl He Ht Hacc Hle1) as (e' & Hr & Ht' & Hacc').
  rewrite (reserve_all_cons _ _ _ _ _ _ _ Hr). cbn [per_minute].
  rewrite (IH (t :: seen) e'); [done| |done..|].
  - cbn. by rewrite lookup_insert_eq.
  - rewrite Forall_forall in Hle |- *. intros x Hx. constructor; [|by apply Hle].
    rewrite Forall_forall in Hmin. by apply Hmin.
Qed.

(** C21: For requests that reach the database in the order of their times, the
    conditional UPDATE is exactly a limit per UTC minute: a request is granted
    if and only if fewer than the limit came before it in the same minute. *)
Theorem rate_limit_equals_reference tenantId id ts e db :
  endpoints db !! id = Some e -> we_tenantId e = tenantId -> we_rateWindowStartedAt e = None ->
  1 <= we_outboundRateLimitPerMinute e -> Sorted.StronglySorted Z.le ts ->
  (reserve_all tenantId id ts db).1 = Ok (per_minute (we_outboundRateLimitPerMinute e) [] ts).
Proof.
  intros He Ht Hw Hl Hs. apply (reserve_all_per_minute _ _ _ _ _ e); [done|done|done|done|done|].
  by apply Forall_forall.
Qed.

(** ** Polls that overlap

    One tenant with one endpoint and one outbox event; the hash, the JSON
    text and the URL parser are small functions. *)

Definition parse_url0 (s : string) : option Guard.Url :=
  if String.eqb s "https://hooks.example/in"
  then Some {| Guard.protocol := "https:"; Guard.hostname := "hooks.example" |}
  else if String.eqb s "http://127.0.0.1/in"
  then Some {| Guard.protocol := "http:"; Guard.hostname := "127.0.0.1" |}
  else None.
Definition hmac0 (secret text : string) : string := secret +:+ "|" +:+ text.
Definition json0 (v : Dsl.value) : string := match v with Dsl.VString s => s | _ => "{}" end.
Definition iso0 (t : Z) : string := pretty t.
Definition newId0 (event endpoint : string) : string := event +:+ "/" +:+ endpoint.

Definition endpoint0 (url : string) : WebhookEndpoint :=
  {| we_id := "p"; we_tenantId := "t"; we_targetUrl := url; we_secret := "s";
     we_eventTypes := [LoanCaseCreated]; we_status := ENDPOINT_ACTIVE;
     we_outboundRateLimitPerMinute := 60; we_rateWindowStartedAt := None; we_rateWindowAttempts := 0 |}.
Definition event0 : OutboxEvent :=
  {| oe_id := "e"; oe_tenantId := "t"; oe_caseId := "c"; oe_eventType := LoanCaseCreated;
     oe_payload := Dsl.VObject []; oe_signature := "x"; oe_createdAt := 1; oe_publishedAt := None |}.
Definition db0 (url : string) : Db :=
  {| endpoints := {["p" := endpoint0 url]}; events := {["e" := event0]}; deliveries := ∅ |}.

Definition answer0 (q : Request) : Reply :=
  match q with
  | Lookup h => Addresses (if String.eqb h "hooks.example" then Some ["93.184.216.34"; "2606:2800:220:1::1"] else None)
  | Post _ _ _ _ _ => Response (Some 200)
  end.

Definition poll0 (now : Z) := dispatchPendingEvents parse_url0 (Some Guard.Production) hmac0 json0 iso0 newId0 now.


Lemma rate_limit_equals_reference_witness :
  (reserve_all "t" "p" [5; 10; 59999; 60000; 61000]
     (db0 "https://hooks.example/in")).1 = Ok (per_minute 60 [] [5; 10; 59999; 60000; 61000]).
Proof.
  apply (rate_limit_equals_reference "t" "p" _ (endpoint0 "https://hooks.example/in"));
    [reflexivity|reflexivity|reflexivity|cbn; lia|repeat constructor; lia].
Defined.

Definition handler0 := handler parse_url0 (Some Guard.Development) hmac0 json0 iso0.
Definition start (url : string) : world (S := Db) (E := Failure) (Q := Request) (R := Reply) := {| db := db0 url; calls := []; threads := [] |}.
Definition statements (i n : nat) : list (event (R := Reply) (Op := Op)) := repeat (Statement i) n.

(** One poll posts the delivery and is answered 200. *)
Definition one_poll : list event :=
  [Spawn (OpDispatch newId0 100000)] ++ statements 0 9 ++ [Answer 0 (Response (Some 200))] ++ statements 0 1.

Lemma delivery_history_is_wellformed_witness :
  exists w d, play_all handler0 one_poll (start "http://127.0.0.1/in") = Some w /\
    deliveries (db w) !! "e/p" = Some d /\ wd_status d = SUCCEEDED /\
    (wd_id d = "e/p" /\ wf_delivery d).
Proof.
  eexists _, _. split; [vm_compute; reflexivity|]. split; [vm_compute; reflexivity|].
  split; [vm_compute; reflexivity|].
  eapply (delivery_history_is_wellformed parse_url0 (Some Guard.Development) hmac0 json0 iso0
    (db0 "http://127.0.0.1/in")); [reflexivity| |].
  - apply (play_all_steps _ _ one_poll). vm_compute. reflexivity.
  - vm_compute. reflexivity.
Defined.

(** Both polls read the delivery as due before either has recorded its
    attempt; the second one's receiver answers 500. *)
Definition overlap : list event :=
  [Spawn (OpDispatch newId0 100000)] ++ statements 0 9 ++ [Spawn (OpDispatch newId0 105000)] ++
  statements 1 5 ++ [Answer 0 (Response (Some 200))] ++ statements 0 1 ++
  [Answer 1 (Response (Some 500))] ++ statements 1 1.

Definition posted (w : world (S := Db) (E := Failure) (Q := Request) (R := Reply)) : list (string * string) :=
  omap (fun q => match q with Post url id _ _ _ => Some (url, id) | Lookup _ => None end) (calls w).

(** Nothing stops a second poll from attempting a delivery the first one
    is still posting, and the attempt that is recorded last overwrites the
    other: a delivery the receiver acknowledged is PENDING again, with one
    failed attempt on record, and is sent again. *)
Theorem acknowledged_delivery_is_resent :
  exists w d, play_all handler0 overlap (start "http://127.0.0.1/in") = Some w /\
    posted w = [("http://127.0.0.1/in", "e/p"); ("http://127.0.0.1/in", "e/p")] /\
    deliveries (db w) !! "e/p" = Some d /\ wd_status d = PENDING /\
    at_httpStatusCode <$> wd_attempts d = [Some 500] /\ is_due 200000 d = true.
Proof.
  eexists _, _. split; [vm_compute; reflexivity|]. split_and!; vm_compute; reflexivity.
Qed.

(** An endpoint is moved, or disabled, while its delivery waits for a retry. *)
Definition moved (op : Op) : list event :=
  [Spawn (OpDispatch newId0 100000)] ++ statements 0 9 ++ [Answer 0 (Response (Some 500))] ++ statements 0 1 ++
  [Spawn op] ++ [Statement 1] ++ [Spawn (OpDispatch newId0 105000)] ++ statements 2 5 ++
  [Answer 2 (Response (Some 200))] ++ statements 2 1.

Definition posts_after (op : Op) : option (list (string * string)) :=
  posted <$> play_all handler0 (moved op) (start "http://127.0.0.1/in").

(** An edit or a revocation does not only affect future fan-out: a
    delivery that waits for its retry goes out after the endpoint has been
    disabled. *)
Theorem disabled_endpoint_still_receives_retries :
  posts_after (OpDisable "t" "p") =
    Some [("http://127.0.0.1/in", "e/p"); ("http://127.0.0.1/in", "e/p")].
Proof. vm_compute. reflexivity. Qed.

(** ** The rate limit and polls that overlap *)

Definition alternating (n : nat) : list Z := concat (repeat [60000; 59999] n).

Lemma window_60000 : window_of 60000 = 60000 /\ window_of 59999 = 0.
Proof. done. Qed.

(** The UPDATE of a poll that started before the minute turned moves the
    window back, and the next request of the current minute counts from one
    again: with requests of two such polls alternating, every request is
    granted, however small the limit (from two on) and however many there
    are. *)
Theorem rate_limit_bypass tenantId id n e db :
  endpoints db !! id = Some e -> we_tenantId e = tenantId -> we_rateWindowStartedAt e = None ->
  2 <= we_outboundRateLimitPerMinute e ->
  (reserve_all tenantId id (alternating n) db).1 = Ok (repeat true (2 * n)).
Proof.
  intros He Ht Hw Hl.
  assert (fresh_window 60000 e = true) as Hf by (unfold fresh_window; by rewrite Hw). clear Hw.
  revert e db He Ht Hf Hl. induction n as [|n IH]; intros e db He Ht Hf Hl; [done|].
  set (e1 := counted 60000 e). set (e2 := counted 0 e1).
  set (db1 := with_endpoints (<[id := e1]> (endpoints db)) db).
  set (db2 := with_endpoints (<[id := e2]> (endpoints db1)) db1).
  assert (reserveOutboundAttempt tenantId id 60000 db = (Ok true, db1)) as H1.
  { unfold reserveOutboundAttempt, mbind, M_bind, gets. rewrite He, Ht, String.eqb_refl.
    rewrite (proj1 window_60000), Hf. done. }
  assert (reserveOutboundAttempt tenantId id 59999 db1 = (Ok true, db2)) as H2.
  { unfold reserveOutboundAttempt, mbind, M_bind, gets. cbn [endpoints db1 with_endpoints].
    rewrite lookup_insert_eq. cbn [we_tenantId e1 counted]. rewrite Ht, String.eqb_refl.
    rewrite (proj2 window_60000). cbn. rewrite Hf, (proj2 (Z.ltb_lt 1 _)) by lia. done. }
  change (alternating (S n)) with (60000 :: 59999 :: alternating n).
  replace (2 * S n)%nat with (S (S (2 * n))) by lia. cbn [repeat].
  rewrite (reserve_all_cons _ _ _ _ _ _ _ H1), (reserve_all_cons _ _ _ _ _ _ _ H2).
  rewrite (IH e2 db2); [done|cbn; by rewrite lookup_insert_eq|done|done|done].
Qed.

Lemma rate_limit_bypass_witness :
  (reserve_all "t" "p" (alternating 100) (db0 "https://hooks.example/in")).1 = Ok (repeat true 200) /\
  we_outboundRateLimitPerMinute (endpoint0 "https://hooks.example/in") = 60.
Proof.
  split; [|reflexivity].
  apply (rate_limit_bypass "t" "p" 100 (endpoint0 "https://hooks.example/in"));
    [reflexivity|reflexivity|reflexivity|cbn; lia].
Defined.
End WebhookTheorems.
