(* ===== verification/Communications.v ===== *)
(** * Communications with borrowers

    src/communications: template rendering (communication-render.ts), the
    classifier (communication-classifier.ts), drafting
    (communication-message.service.ts), approval
    (communication-approval.service.ts), delivery
    (communication-delivery.service.ts) over the simulated channel
    (communication-delivery-simulator.ts), and the operator script that seeds
    an approved template (seed-communication-template.ts).

    Methods are [Threads.Prog]s; handing the message to the channel is a call.
    Object keys are listed in the order [Object.keys] gives them.  SHA-256,
    HMAC and JSON.stringify are parameters. *)

From Stdlib Require Import Ascii.
From stdpp Require Import gmap strings list.
From S2P Require Import Prelude PolicyDsl PolicyDigest WebhookGuard Outbox Concurrency.

Module Comms.
Import Threads Outbox Dsl.

Inductive CommunicationClassification := PROTECTED | ROUTINE.
Inductive CommunicationTemplateStatus := DRAFT | TEMPLATE_APPROVED | RETIRED.
Inductive CommunicationMessageStatus := DRAFTED | AWAITING_APPROVAL | APPROVED | SENT.
#[export] Instance CommunicationClassification_eq : EqDecision CommunicationClassification.
Proof. solve_decision. Defined.
#[export] Instance CommunicationTemplateStatus_eq : EqDecision CommunicationTemplateStatus.
Proof. solve_decision. Defined.
#[export] Instance CommunicationMessageStatus_eq : EqDecision CommunicationMessageStatus.
Proof. solve_decision. Defined.

Definition template_status_text (s : CommunicationTemplateStatus) : string :=
  match s with DRAFT => "DRAFT" | TEMPLATE_APPROVED => "APPROVED" | RETIRED => "RETIRED" end.
Definition classification_text (c : CommunicationClassification) : string :=
  match c with PROTECTED => "PROTECTED" | ROUTINE => "ROUTINE" end.

Record CommunicationTemplate := {
  ct_id : string;
  ct_tenantId : string;
  ct_templateKey : string;
  ct_version : string;
  ct_channel : string;
  ct_locale : string;
  ct_recipientRelationship : string;
  ct_bodyTemplate : string;
  ct_allowedVariables : list string;
  ct_attachmentsAllowed : bool;
  ct_status : CommunicationTemplateStatus;
  ct_approvedBy : option string }.

Record CommunicationMessage := {
  cm_id : string;
  cm_tenantId : string;
  cm_caseId : string;
  cm_classification : CommunicationClassification;
  cm_classificationReasons : list string;
  cm_templateId : option string;
  cm_recipientRelationship : string;
  cm_channel : string;
  cm_locale : string;
  cm_renderedContent : string;
  cm_renderedContentHash : string;
  cm_variables : list (string * string);
  cm_status : CommunicationMessageStatus;
  cm_deliveryReference : option string;
  cm_sentAt : option Z }.

Record CommunicationApproval := {
  ca_communicationMessageId : string;
  ca_actorId : string;
  ca_approvedRenderedContentHash : string;
  ca_reason : option string }.

(** ** Rendering *)

(** The characters of [\w]. *)
Definition is_word (c : ascii) : bool :=
  let n := nat_of_ascii c in
  (((48 <=? n) && (n <=? 57)) || ((65 <=? n) && (n <=? 90)) || (n =? 95) || ((97 <=? n) && (n <=? 122)))%nat.

Fixpoint span_word (s : string) : string * string :=
  match s with
  | String c s' => if is_word c then let '(w, r) := span_word s' in (String c w, r) else (EmptyString, s)
  | EmptyString => (EmptyString, EmptyString)
  end.

(** A match of [\{\{(\w+)\}\}] at the start of the text, and what follows. *)
Definition placeholder (s : string) : option (string * string) :=
  match s with
  | String "{" (String "{" s') =>
      match span_word s' with
      | (EmptyString, _) => None
      | (key, String "}" (String "}" rest)) => Some (key, rest)
      | _ => None
      end
  | _ => None
  end.

Inductive token := Literal (c : ascii) | Placeholder (key : string).

(** The matches of the global pattern from left to right, with the characters
    between them; the fuel is the length of the text. *)
Fixpoint scan (fuel : nat) (s : string) : list token :=
  match fuel with
  | O => []
  | S fuel' =>
      match placeholder s, s with
      | Some (key, rest), _ => Placeholder key :: scan fuel' rest
      | None, String c s' => Literal c :: scan fuel' s'
      | None, EmptyString => []
      end
  end.
Definition tokens (s : string) : list token := scan (String.length s) s.

(** The properties every object inherits, and their text. *)
Definition native_methods : list string :=
  ["hasOwnProperty"; "isPrototypeOf"; "propertyIsEnumerable"; "toString"; "valueOf"; "toLocaleString";
   "__defineGetter__"; "__defineSetter__"; "__lookupGetter__"; "__lookupSetter__"].
Definition inherited (key : string) : option string :=
  if includes native_methods key then Some ("function " +:+ key +:+ "() { [native code] }")
  else if String.eqb key "constructor" then Some "function Object() { [native code] }"
  else if String.eqb key "__proto__" then Some "[object Object]"
  else None.

(** [variables[key]] when [key in variables]. *)
Definition property (variables : list (string * string)) (key : string) : option string :=
  match List.find (fun kv => String.eqb kv.1 key) variables with
  | Some kv => Some kv.2
  | None => inherited key
  end.

Record RenderResult := {
  content : string;
  missingVariables : list string;
  unknownVariables : list string }.

Definition show (variables : list (string * string)) (t : token) : string :=
  match t with
  | Literal c => String c EmptyString
  | Placeholder key =>
      match property variables key with Some v => v | None => "{{" +:+ key +:+ "}}" end
  end.

Definition missing (variables : list (string * string)) (t : token) : option string :=
  match t with
  | Placeholder key => match property variables key with Some _ => None | None => Some key end
  | Literal _ => None
  end.

Definition renderTemplate (bodyTemplate : string) (allowedVariables : list string)
    (variables : list (string * string)) : RenderResult :=
  {| content := String.concat "" (map (show variables) (tokens bodyTemplate));
     missingVariables := omap (missing variables) (tokens bodyTemplate);
     unknownVariables := List.filter (fun key => negb (includes allowedVariables key)) variables.*1 |}.

(** ** Classification *)

Record DraftCommunicationInput := {
  di_recipientRelationship : string;
  di_channel : string;
  di_locale : string;
  di_templateKey : option string;
  di_templateVersion : option string;
  di_variables : list (string * string);
  di_freeformContent : option string;
  di_hasAttachments : bool }.

Record ClassificationOutcome := {
  co_classification : CommunicationClassification;
  co_reasons : list string;
  co_renderedContent : string;
  co_templateId : option string }.

Definition NEGATIVE_IMPLICATION_KEYWORDS : list string :=
  ["denied"; "denial"; "reject"; "ineligible"; "ineligibility"; "adverse"; "not approved";
   "unable to approve"; "disqualif"; "cannot proceed"; "terminated"; "cancel"].

(** [toLowerCase] on the code units 0-255. *)
Definition lower (c : ascii) : ascii :=
  let n := nat_of_ascii c in
  if (((65 <=? n) && (n <=? 90)) || ((192 <=? n) && (n <=? 222) && negb (n =? 215)))%nat
  then ascii_of_nat (n + 32) else c.
Fixpoint toLowerCase (s : string) : string :=
  match s with String c s' => String (lower c) (toLowerCase s') | EmptyString => EmptyString end.

(** [s.includes(keyword)] *)
Fixpoint contains (keyword s : string) : bool :=
  String.prefix keyword s || match s with String _ s' => contains keyword s' | EmptyString => false end.

Definition negative (value : string) : bool :=
  existsb (fun keyword => contains keyword (toLowerCase value)) NEGATIVE_IMPLICATION_KEYWORDS.

Definition findNegativeImplication (variables : list (string * string)) : option string :=
  fst <$> List.find (fun kv => negative kv.2) variables.

(** [if (condition) reasons.push(reason)] *)
Definition reason_if (condition : bool) (reason : string) : list string :=
  if condition then [reason] else [].

Inductive Failure :=
| NotFound (message : string)
| BadRequest (message : string)
| InvalidInput (message : string)
| UniqueViolation
| Usage.

(** A text in double quotes. *)
Definition quote (s : string) : string :=
  String (ascii_of_nat 34) (s +:+ String (ascii_of_nat 34) EmptyString).

Definition truthy_option (o : option string) : bool :=
  match o with Some s => JS.truthy s | None => false end.

Definition template_reasons (input : DraftCommunicationInput) (template : CommunicationTemplate)
    (rendered : RenderResult) : list string :=
  let name := quote (default "" (di_templateKey input)) +:+ "@" +:+ default "" (di_templateVersion input) in
  reason_if (negb (bool_decide (ct_status template = TEMPLATE_APPROVED)))
    ("template " +:+ name +:+ " is not APPROVED (status: " +:+ template_status_text (ct_status template) +:+ ")") ++
  reason_if (negb (String.eqb (ct_channel template) (di_channel input)))
    ("channel " +:+ quote (di_channel input) +:+ " does not match the approved template's channel " +:+
     quote (ct_channel template)) ++
  reason_if (negb (String.eqb (ct_locale template) (di_locale input)))
    ("locale " +:+ quote (di_locale input) +:+ " is not supported by this template (approved for " +:+
     quote (ct_locale template) +:+ ")") ++
  reason_if (negb (String.eqb (ct_recipientRelationship template) (di_recipientRelationship input)))
    ("recipient relationship " +:+ quote (di_recipientRelationship input) +:+
     " does not match the approved template's " +:+ quote (ct_recipientRelationship template)) ++
  reason_if (di_hasAttachments input && negb (ct_attachmentsAllowed template))
    "attachments are not allowed by this template" ++
  reason_if (negb (bool_decide (missingVariables rendered = [])))
    ("failed variable validation: missing value(s) for " +:+ String.concat ", " (missingVariables rendered)) ++
  reason_if (negb (bool_decide (unknownVariables rendered = [])))
    ("failed variable validation: unexpected variable(s) " +:+
     String.concat ", " (unknownVariables rendered) +:+ " not declared by this template") ++
  reason_if (truthy_option (findNegativeImplication (di_variables input)))
    ("negative or ambiguous implication detected in variable " +:+
     quote (default "" (findNegativeImplication (di_variables input)))).

Definition classifyCommunication (input : DraftCommunicationInput)
    (template : option CommunicationTemplate) : result Failure ClassificationOutcome :=
  match di_freeformContent input with
  | Some text =>
      Ok {| co_classification := PROTECTED; co_reasons := ["free-form material text"];
            co_renderedContent := text; co_templateId := None |}
  | None =>
      if negb (truthy_option (di_templateKey input)) || negb (truthy_option (di_templateVersion input))
      then Err (InvalidInput
        "classifyCommunication requires either freeformContent or a templateKey and templateVersion")
      else
        match template with
        | None =>
            Ok {| co_classification := PROTECTED;
                  co_reasons := ["referenced template " +:+ quote (default "" (di_templateKey input)) +:+ "@" +:+
                                 default "" (di_templateVersion input) +:+ " not found"];
                  co_renderedContent := ""; co_templateId := None |}
        | Some template =>
            let rendered := renderTemplate (ct_bodyTemplate template) (ct_allowedVariables template)
                              (di_variables input) in
            let reasons := template_reasons input template rendered in
            Ok {| co_classification := if bool_decide (reasons = []) then ROUTINE else PROTECTED;
                  co_reasons := reasons; co_renderedContent := content rendered;
                  co_templateId := Some (ct_id template) |}
        end
  end.

(** ** The tables *)

Record AuditEvent := {
  ae_tenantId : string;
  ae_actorId : string;
  ae_action : string;
  ae_resourceId : string;
  ae_reason : option string }.

Record Db := {
  templates : gmap string CommunicationTemplate;
  messages : gmap string CommunicationMessage;
  approvals : list CommunicationApproval;
  outbox : gmap string OutboxEvent;
  audits : list AuditEvent }.

Definition with_templates m (db : Db) : Db :=
  {| templates := m; messages := messages db; approvals := approvals db; outbox := outbox db;
     audits := audits db |}.
Definition with_messages m (db : Db) : Db :=
  {| templates := templates db; messages := m; approvals := approvals db; outbox := outbox db;
     audits := audits db |}.
Definition with_approvals l (db : Db) : Db :=
  {| templates := templates db; messages := messages db; approvals := l; outbox := outbox db;
     audits := audits db |}.
Definition with_outbox m (db : Db) : Db :=
  {| templates := templates db; messages := messages db; approvals := approvals db; outbox := m;
     audits := audits db |}.
Definition with_audits l (db : Db) : Db :=
  {| templates := templates db; messages := messages db; approvals := approvals db; outbox := outbox db;
     audits := l |}.

(** What is handed to the channel. *)
Record Send := { sd_messageId : string; sd_contentHash : string; sd_channel : string }.

Notation prog := (Prog Db Failure Send unit).

Section Services.
Context (sha256 : value -> string) (sha256_hex : string -> string).
Context (hmac : string -> string -> string) (json : value -> string) (outboxSigningSecret : string).

(** ** Drafting *)

Definition find_template (tenantId key version : string) (db : Db) : option CommunicationTemplate :=
  find_row (fun t => String.eqb (ct_tenantId t) tenantId && String.eqb (ct_templateKey t) key &&
                     String.eqb (ct_version t) version) (templates db).

Definition template_for (tenantId : string) (input : DraftCommunicationInput) (db : Db)
  : option CommunicationTemplate :=
  if truthy_option (di_templateKey input) && truthy_option (di_templateVersion input)
  then find_template tenantId (default "" (di_templateKey input)) (default "" (di_templateVersion input)) db
  else None.

Definition drafted (newId tenantId caseId : string) (input : DraftCommunicationInput)
    (outcome : ClassificationOutcome) : CommunicationMessage :=
  {| cm_id := newId; cm_tenantId := tenantId; cm_caseId := caseId;
     cm_classification := co_classification outcome;
     cm_classificationReasons := co_reasons outcome; cm_templateId := co_templateId outcome;
     cm_recipientRelationship := di_recipientRelationship input; cm_channel := di_channel input;
     cm_locale := di_locale input; cm_renderedContent := co_renderedContent outcome;
     cm_renderedContentHash := Digest.computeDigest sha256 (VString (co_renderedContent outcome));
     cm_variables := di_variables input;
     cm_status := match co_classification outcome with
                  | PROTECTED => AWAITING_APPROVAL | ROUTINE => DRAFTED end;
     cm_deliveryReference := None; cm_sentAt := None |}.

Definition insert_message (m : CommunicationMessage) : M Db Failure CommunicationMessage :=
  taken ← gets (fun db => messages db !! cm_id m);
  _ ← guard_throw (bool_decide (is_Some taken)) UniqueViolation;
  _ ← modify (fun db => with_messages (<[cm_id m := m]> (messages db)) db);
  mret m.

Definition draft (newId tenantId caseId : string) (input : DraftCommunicationInput)
  : prog CommunicationMessage :=
  template ← atomically (gets (template_for tenantId input));
  outcome ← Done (classifyCommunication input template);
  atomically (insert_message (drafted newId tenantId caseId input outcome)).

(** ** Approval *)

Definition find_message (tenantId id : string) (db : Db) : option CommunicationMessage :=
  match messages db !! id with
  | Some m => if String.eqb (cm_tenantId m) tenantId then Some m else None
  | None => None
  end.

Definition set_status (status : CommunicationMessageStatus) (m : CommunicationMessage) : CommunicationMessage :=
  {| cm_id := cm_id m; cm_tenantId := cm_tenantId m; cm_caseId := cm_caseId m;
     cm_classification := cm_classification m; cm_classificationReasons := cm_classificationReasons m;
     cm_templateId := cm_templateId m; cm_recipientRelationship := cm_recipientRelationship m;
     cm_channel := cm_channel m; cm_locale := cm_locale m; cm_renderedContent := cm_renderedContent m;
     cm_renderedContentHash := cm_renderedContentHash m; cm_variables := cm_variables m;
     cm_status := status; cm_deliveryReference := cm_deliveryReference m; cm_sentAt := cm_sentAt m |}.

Definition message_is (id text : string) : string := "communication message " +:+ id +:+ text.

(** The guards of [approve] on the message it read. *)
Definition approvable (id : string) (found : option CommunicationMessage) : result Failure CommunicationMessage :=
  match found with
  | None => Err (NotFound (message_is id " not found"))
  | Some m =>
      if negb (bool_decide (cm_classification m = PROTECTED))
      then Err (BadRequest (message_is id " is not PROTECTED"))
      else if bool_decide (cm_status m = APPROVED)
      then Err (BadRequest (message_is id " is already approved"))
      else Ok m
  end.

Definition save_approval (a : CommunicationApproval) : M Db Failure unit :=
  modify (fun db => with_messages
    (alter (set_status APPROVED) (ca_communicationMessageId a) (messages db))
    (with_approvals (approvals db ++ [a]) db)).

Definition approve (tenantId id actorId : string) (reason : option string) : prog CommunicationApproval :=
  found ← atomically (gets (find_message tenantId id));
  message ← Done (approvable id found);
  let approval := {| ca_communicationMessageId := id; ca_actorId := actorId;
                     ca_approvedRenderedContentHash := cm_renderedContentHash message;
                     ca_reason := reason |} in
  _ ← atomically (save_approval approval);
  _ ← atomically (modify (fun db => with_audits (audits db ++
        [{| ae_tenantId := tenantId; ae_actorId := actorId; ae_action := "COMMUNICATION_APPROVED";
            ae_resourceId := id; ae_reason := reason |}]) db));
  mret approval.

(** ** Delivery *)

(** [simulator.send]: the reference depends on the message and its content. *)
Definition simulator_reference (id contentHash : string) : string :=
  "sim-" +:+ String.substring 0 24 (sha256_hex (id +:+ ":" +:+ contentHash)).

Definition ready (m : CommunicationMessage) : bool :=
  bool_decide (cm_classification m = ROUTINE) && bool_decide (cm_status m = DRAFTED) ||
  bool_decide (cm_classification m = PROTECTED) && bool_decide (cm_status m = APPROVED).

Definition sent_message (reference : string) (sentAt : Z) (m : CommunicationMessage) : CommunicationMessage :=
  {| cm_id := cm_id m; cm_tenantId := cm_tenantId m; cm_caseId := cm_caseId m;
     cm_classification := cm_classification m; cm_classificationReasons := cm_classificationReasons m;
     cm_templateId := cm_templateId m; cm_recipientRelationship := cm_recipientRelationship m;
     cm_channel := cm_channel m; cm_locale := cm_locale m; cm_renderedContent := cm_renderedContent m;
     cm_renderedContentHash := cm_renderedContentHash m; cm_variables := cm_variables m;
     cm_status := SENT; cm_deliveryReference := Some reference; cm_sentAt := Some sentAt |}.

Inductive DeliverCommunicationResult :=
| DELIVERED (deliveryReference : string) (sentAt : Z)
| NOT_READY (reason : string).

Definition delivered_payload (m : CommunicationMessage) (id reference : string) : value :=
  VObject [("caseId", VString (cm_caseId m)); ("communicationMessageId", VString id);
           ("classification", VString (classification_text (cm_classification m)));
           ("channel", VString (cm_channel m)); ("deliveryReference", VString reference)].

(** The update of the message and its outbox event commit together. *)
Definition record_delivery (eventId : string) (m : CommunicationMessage) (id reference : string) (sentAt : Z)
  : M Db Failure unit :=
  modify (fun db => with_messages (alter (sent_message reference sentAt) id (messages db))
    (with_outbox (<[eventId := outbox_row hmac json outboxSigningSecret eventId sentAt (cm_tenantId m) (cm_caseId m)
       CommunicationDelivered (delivered_payload m id reference)]> (outbox db)) db)).

Definition status_text (s : CommunicationMessageStatus) : string :=
  match s with
  | DRAFTED => "DRAFTED" | AWAITING_APPROVAL => "AWAITING_APPROVAL" | APPROVED => "APPROVED" | SENT => "SENT"
  end.

Definition deliver (eventId tenantId id : string) (now : Z) : prog DeliverCommunicationResult :=
  found ← atomically (gets (find_message tenantId id));
  match found with
  | None => fail (NotFound (message_is id " not found"))
  | Some m =>
      if negb (ready m)
      then mret (NOT_READY (message_is id (" is " +:+ classification_text (cm_classification m) +:+ "/" +:+
             status_text (cm_status m) +:+ ", not ready to send")))
      else
        _ ← call {| sd_messageId := cm_id m; sd_contentHash := cm_renderedContentHash m;
                    sd_channel := cm_channel m |};
        let reference := simulator_reference (cm_id m) (cm_renderedContentHash m) in
        _ ← atomically (record_delivery eventId m id reference now);
        mret (DELIVERED reference now)
  end.

(** ** Seeding a template *)

Definition placeholders (bodyTemplate : string) : list string :=
  omap (fun t => match t with Placeholder key => Some key | Literal _ => None end) (tokens bodyTemplate).

(** [[...new Set(xs)]]: the first occurrence of each. *)
Fixpoint dedupe (seen xs : list string) : list string :=
  match xs with
  | [] => []
  | x :: xs' => if includes seen x then dedupe seen xs' else x :: dedupe (seen ++ [x]) xs'
  end.

Definition seeded (newId tenantId templateKey version channel locale recipientRelationship approvedBy
    bodyTemplate : string) : CommunicationTemplate :=
  {| ct_id := newId; ct_tenantId := tenantId; ct_templateKey := templateKey; ct_version := version;
     ct_channel := channel; ct_locale := locale; ct_recipientRelationship := recipientRelationship;
     ct_bodyTemplate := bodyTemplate; ct_allowedVariables := dedupe [] (placeholders bodyTemplate);
     ct_attachmentsAllowed := false; ct_status := TEMPLATE_APPROVED; ct_approvedBy := Some approvedBy |}.

Definition seed (newId tenantId templateKey version channel locale recipientRelationship approvedBy
    bodyTemplate : string) : prog CommunicationTemplate :=
  if negb (forallb JS.truthy [tenantId; templateKey; version; channel; locale; recipientRelationship;
                              approvedBy; bodyTemplate])
  then fail Usage
  else
    existing ← atomically (gets (find_template tenantId templateKey version));
    match existing with
    | Some _ => fail Usage
    | None =>
        let t := seeded newId tenantId templateKey version channel locale recipientRelationship approvedBy
                   bodyTemplate in
        atomically (
          taken ← gets (fun db => (templates db !! newId, find_template tenantId templateKey version db));
          _ ← guard_throw (bool_decide (is_Some taken.1) || bool_decide (is_Some taken.2)) UniqueViolation;
          _ ← modify (fun db => with_templates (<[newId := t]> (templates db)) db);
          mret t)
    end.

Inductive Op :=
| OpDraft (newId tenantId caseId : string) (input : DraftCommunicationInput)
| OpApprove (tenantId id actorId : string) (reason : option string)
| OpDeliver (eventId tenantId id : string) (now : Z)
| OpSeed (newId tenantId templateKey version channel locale recipientRelationship approvedBy bodyTemplate : string).

Definition handler (op : Op) : prog unit :=
  match op with
  | OpDraft n t c i => _ ← draft n t c i; mret tt
  | OpApprove t id a r => _ ← approve t id a r; mret tt
  | OpDeliver e t id now => _ ← deliver e t id now; mret tt
  | OpSeed n t k v c l r a b => _ ← seed n t k v c l r a b; mret tt
  end.
End Services.
End Comms.
