(* ===== verification/CommunicationTheorems.v ===== *)
(** * What communications guarantee

    When a message counts as routine, what its text is made of, and that in
    every interleaving of drafting, approval and delivery nothing leaves the
    platform that is neither routine nor approved by a human. *)

From Stdlib Require Import Ascii.
From stdpp Require Import gmap strings list.
From S2P Require Import Prelude PolicyDsl PolicyDigest WebhookGuard Outbox Concurrency Communications.

Module CommsTheorems.
Import Threads Comms.

(** ** Rendering *)

(** The template text a token stands for. *)
Definition source (t : token) : string :=
  match t with Literal c => String c EmptyString | Placeholder key => "{{" +:+ key +:+ "}}" end.

Lemma span_word_app s w r : span_word s = (w, r) -> s = w +:+ r.
Proof.
  revert w. induction s as [|c s IH]; cbn; intros w; [by intros [= <- <-]|].
  destruct (is_word c); [|by intros [= <- <-]].
  destruct (span_word s) as [w' r']. intros [= <- <-]. by rewrite (IH _ eq_refl).
Qed.

Lemma placeholder_Some s key rest :
  placeholder s = Some (key, rest) -> s = source (Placeholder key) +:+ rest.
Proof.
  unfold placeholder. intros H. repeat (case_match; try discriminate). simplify_eq.
  match goal with H : span_word _ = _ |- _ => apply span_word_app in H as -> end.
  cbn [source]. by rewrite !Guard.sapp_assoc.
Qed.

Lemma slength_app (a b : string) : String.length (a +:+ b) = (String.length a + String.length b)%nat.
Proof. induction a as [|c a IH]; [done|]. change (S (String.length (a +:+ b)) = S (String.length a + String.length b)). by rewrite IH. Qed.

Lemma scan_source n s : (String.length s <= n)%nat -> String.concat "" (map source (scan n s)) = s.
Proof.
  revert s. induction n as [|n IH]; intros s Hn; [by destruct s; cbn in Hn; [|lia]|].
  cbn [scan]. destruct (placeholder s) as [[key rest]|] eqn:Ep.
  - apply placeholder_Some in Ep as ->. cbn [map]. rewrite concat_cons. f_equal. apply IH.
    cbn [source] in Hn. rewrite !slength_app in Hn. cbn in Hn. lia.
  - destruct s as [|c s]; [done|]. cbn [map]. rewrite concat_cons, IH; [done|]. cbn in Hn. lia.
Qed.

(** Scanning loses nothing. *)
Lemma tokens_source s : String.concat "" (map source (tokens s)) = s.
Proof. apply scan_source. done. Qed.

Lemma missing_nil variables ts :
  omap (missing variables) ts = [] <->
  forall key, Placeholder key ∈ ts -> is_Some (property variables key).
Proof.
  induction ts as [|t ts IH]; cbn.
  - split; [|done]. intros _ key Hk. by apply elem_of_nil in Hk.
  - destruct t as [c|key]; cbn.
    + rewrite IH. split; intros H k Hk; apply H; [|by constructor].
      apply elem_of_cons in Hk as [?|?]; done.
    + destruct (property variables key) eqn:E; [|split; [done|]].
      * rewrite IH. split; intros H k Hk; [|apply H; by constructor].
        apply elem_of_cons in Hk as [[= ->]|?]; [by eauto|by apply H].
      * intros H. destruct (H key) as [? Hs]; [by constructor|congruence].
Qed.

Lemma reason_if_nil b r : reason_if b r = [] <-> b = false.
Proof. by destruct b. Qed.

(** The conditions under which a message may go out without approval. *)
Record routine (input : DraftCommunicationInput) (t : CommunicationTemplate) : Prop := {
  rt_freeform : di_freeformContent input = None;
  rt_status : ct_status t = TEMPLATE_APPROVED;
  rt_channel : ct_channel t = di_channel input;
  rt_locale : ct_locale t = di_locale input;
  rt_recipient : ct_recipientRelationship t = di_recipientRelationship input;
  rt_attachments : di_hasAttachments input = true -> ct_attachmentsAllowed t = true;
  rt_complete : forall key, Placeholder key ∈ tokens (ct_bodyTemplate t) ->
    is_Some (property (di_variables input) key);
  rt_declared : forall key, key ∈ (di_variables input).*1 -> key ∈ ct_allowedVariables t;
  rt_negative : truthy_option (findNegativeImplication (di_variables input)) = false }.

Lemma unknown_nil allowed (keys : list string) :
  List.filter (fun key => negb (includes allowed key)) keys = [] <-> forall key, key ∈ keys -> key ∈ allowed.
Proof.
  induction keys as [|k keys IH]; cbn.
  - split; [|done]. intros _ key Hk. by apply elem_of_nil in Hk.
  - destruct (includes allowed k) eqn:E; cbn.
    + apply includes_spec in E. rewrite IH. split; intros H x Hx; [|apply H; by constructor].
      apply elem_of_cons in Hx as [->|?]; auto.
    + split; [done|]. intros H. specialize (H k ltac:(by constructor)). apply includes_spec in H. congruence.
Qed.

Lemma template_reasons_nil input t :
  di_freeformContent input = None ->
  template_reasons input t (renderTemplate (ct_bodyTemplate t) (ct_allowedVariables t) (di_variables input)) = [] <->
  routine input t.
Proof.
  intros Hf. unfold template_reasons. rewrite !app_nil, !reason_if_nil, !negb_false_iff, !bool_decide_eq_true,
    !String.eqb_eq. cbn [missingVariables unknownVariables renderTemplate]. rewrite missing_nil, unknown_nil.
  rewrite andb_false_iff, negb_false_iff. split.
  - intros (? & ? & ? & ? & Ha & ? & ? & ?). split; try done. intros Hat. destruct Ha; congruence.
  - intros []. split_and!; try done. destruct (di_hasAttachments input); auto.
Qed.

(** The classifier calls a message routine exactly when it has no free
    text and names an approved template whose channel, locale and recipient
    are the message's, attachments are allowed if there are any, every
    placeholder has a value, every variable is declared, and no value carries
    one of the negative keywords (under a named variable).  The text is then
    the template's with its placeholders replaced, and nothing else. *)
Theorem routine_exactly input template outcome :
  classifyCommunication input template = Ok outcome ->
  (co_classification outcome = ROUTINE <-> exists t, template = Some t /\ routine input t) /\
  (forall t, template = Some t -> di_freeformContent input = None ->
    ct_bodyTemplate t = String.concat "" (map source (tokens (ct_bodyTemplate t))) /\
    co_renderedContent outcome =
      String.concat "" (map (show (di_variables input)) (tokens (ct_bodyTemplate t)))).
Proof.
  unfold classifyCommunication. destruct (di_freeformContent input) as [text|] eqn:Ef.
  { intros [= <-]. split; [|done]. split; [done|]. intros (t & _ & Hr). apply rt_freeform in Hr. congruence. }
  destruct (negb _ || negb _); [done|]. destruct template as [t|]; intros [= <-]; cbn.
  2:{ split; [|done]. split; [done|]. by intros (t & Ht & _). }
  split; [|intros t' [= <-] _; by rewrite tokens_source].
  destruct (bool_decide _) eqn:E; bsplit.
  - split; [intros _|done]. exists t. split; [done|]. by apply template_reasons_nil.
  - split; [done|]. intros (t' & [= <-] & Hr). exfalso. apply E. by apply template_reasons_nil.
Qed.

Definition template0 : CommunicationTemplate :=
  seeded "tpl" "t" "NOTICE" "1" "EMAIL" "en" "BORROWER" "ops" "Dear {{name}}, {{{x}} your {{item}} arrived.".
Definition input0 (item : string) : DraftCommunicationInput :=
  {| di_recipientRelationship := "BORROWER"; di_channel := "EMAIL"; di_locale := "en";
     di_templateKey := Some "NOTICE"; di_templateVersion := Some "1";
     di_variables := [("name", "Ann"); ("x", "X"); ("item", item)]; di_freeformContent := None;
     di_hasAttachments := false |}.

Lemma routine_exactly_witness :
  exists o1 o2,
    classifyCommunication (input0 "form") (Some template0) = Ok o1 /\
    co_renderedContent o1 = "Dear Ann, {X your form arrived." /\
    classifyCommunication (input0 "Denial letter") (Some template0) = Ok o2 /\
    routine (input0 "form") template0 /\ ~ routine (input0 "Denial letter") template0.
Proof.
  eexists _, _. split; [vm_compute; reflexivity|]. split; [reflexivity|].
  split; [vm_compute; reflexivity|]. split.
  - pose proof (routine_exactly (input0 "form") (Some template0) _ eq_refl) as [[H _] _].
    destruct H as (t & [= <-] & H); [vm_compute; reflexivity|exact H].
  - intros Hr. pose proof (routine_exactly (input0 "Denial letter") (Some template0) _ eq_refl) as [[_ H] _].
    discriminate H. by exists template0.
Defined.

(** ** Delivery *)

Section Delivery.
Context (sha256 : Dsl.value -> string) (sha256_hex : string -> string).
Context (hmac : string -> string -> string) (json : Dsl.value -> string) (secret : string).

Notation handler := (handler sha256 sha256_hex hmac json secret).

Definition approved_for (db : Db) (id hash : string) : Prop :=
  exists a, a ∈ approvals db /\ ca_communicationMessageId a = id /\ ca_approvedRenderedContentHash a = hash.

Definition wf_message (db : Db) (m : CommunicationMessage) : Prop :=
  cm_renderedContentHash m = Digest.computeDigest sha256 (Dsl.VString (cm_renderedContent m)) /\
  match cm_classification m, cm_status m with
  | ROUTINE, (DRAFTED | SENT) | PROTECTED, AWAITING_APPROVAL => True
  | PROTECTED, (APPROVED | SENT) => approved_for db (cm_id m) (cm_renderedContentHash m)
  | _, _ => False
  end.

Definition CommInv (db : Db) : Prop :=
  forall k m, messages db !! k = Some m -> cm_id m = k /\ wf_message db m.

(** Everything of a message but its progress. *)
Definition core (m : CommunicationMessage) : CommunicationMessage := sent_message "" 0 m.

Definition comm_evolves (s s' : Db) : Prop :=
  (forall k m, messages s !! k = Some m -> exists m', messages s' !! k = Some m' /\ core m' = core m) /\
  (forall a, a ∈ approvals s -> a ∈ approvals s').

#[local] Instance comm_evolves_preorder : PreOrder comm_evolves.
Proof.
  split.
  - intros s. split; [|done]. eauto.
  - intros s1 s2 s3 [H1 A1] [H2 A2]. split; [|auto].
    intros k m Hm. destruct (H1 k m Hm) as (m2 & Hm2 & E2). destruct (H2 k m2 Hm2) as (m3 & Hm3 & E3).
    exists m3. split; [done|congruence].
Qed.

(** What may be handed to the channel: the approved text of a message. *)
Definition authorised (db : Db) (q : Send) : Prop :=
  exists m, messages db !! sd_messageId q = Some m /\ cm_id m = sd_messageId q /\
    sd_channel q = cm_channel m /\ sd_contentHash q = cm_renderedContentHash m /\
    sd_contentHash q = Digest.computeDigest sha256 (Dsl.VString (cm_renderedContent m)) /\
    (cm_classification m = ROUTINE \/ approved_for db (sd_messageId q) (sd_contentHash q)).

Lemma core_eq m m' : core m' = core m ->
  cm_id m' = cm_id m /\ cm_classification m' = cm_classification m /\ cm_channel m' = cm_channel m /\
  cm_renderedContent m' = cm_renderedContent m /\ cm_renderedContentHash m' = cm_renderedContentHash m.
Proof. unfold core, sent_message. intros [=]. by split_and!. Qed.

Lemma approved_for_evolves s s' id hash : comm_evolves s s' -> approved_for s id hash -> approved_for s' id hash.
Proof. intros [_ Ha] (a & Hin & ?). exists a. eauto. Qed.

Lemma authorised_evolves s s' q : comm_evolves s s' -> authorised s q -> authorised s' q.
Proof.
  intros He (m & Hm & Hid & Hch & Hh & Hd & Hor). destruct He as [Hs Ha] eqn:E. clear E.
  destruct (Hs _ _ Hm) as (m' & Hm' & Hcore). apply core_eq in Hcore as (Ei & Ec & Ech & Ecn & Eh).
  exists m'. split_and!; [done|congruence..|]. destruct Hor as [?|Hap]; [left; congruence|right].
  by apply (approved_for_evolves s).
Qed.

Lemma wf_evolves s s' m : comm_evolves s s' -> wf_message s m -> wf_message s' m.
Proof.
  intros He [Hh Hs]. split; [done|]. destruct (cm_classification m), (cm_status m); try done;
    by apply (approved_for_evolves s).
Qed.

(** A statement that changes the message [id] only, and only its progress. *)
Lemma progress_ok f id db db' :
  CommInv db -> messages db' = alter f id (messages db) -> (forall a, a ∈ approvals db -> a ∈ approvals db') ->
  (forall m, core (f m) = core m) ->
  (forall m, messages db !! id = Some m -> wf_message db' m -> wf_message db' (f m)) ->
  CommInv db' /\ comm_evolves db db'.
Proof.
  intros HI Hm Ha Hc Hw. assert (comm_evolves db db') as He.
  { split; [|done]. intros k m Hk. rewrite Hm. destruct (decide (k = id)) as [->|Hne].
    - exists (f m). rewrite lookup_alter_eq, Hk. done.
    - exists m. by rewrite lookup_alter_ne. }
  split; [|done]. intros k m. rewrite Hm. destruct (decide (k = id)) as [->|Hne].
  - rewrite lookup_alter_eq. intros (m0 & Hm0 & ->)%fmap_Some. destruct (HI _ _ Hm0) as [Hid Hwf].
    destruct (core_eq m0 (f m0) (Hc m0)) as [-> _]. split; [done|]. apply Hw; [done|]. by apply (wf_evolves db).
  - rewrite lookup_alter_ne by done. intros Hk. destruct (HI _ _ Hk). split; [done|]. by apply (wf_evolves db).
Qed.

Notation relies := (relies (E := Failure) (Q := Send) (R := unit) CommInv comm_evolves authorised).

Lemma same_tables db db' :
  CommInv db -> messages db' = messages db -> approvals db' = approvals db ->
  CommInv db' /\ comm_evolves db db'.
Proof.
  intros HI Hm Ha. assert (comm_evolves db db') as He by (split; [rewrite Hm; eauto|by rewrite Ha]).
  split; [|done]. intros k m. rewrite Hm. intros Hk. destruct (HI _ _ Hk). split; [done|]. by apply (wf_evolves db).
Qed.

Lemma draft_relies newId t c input s : relies (fun _ _ => True) (draft sha256 newId t c input) s.
Proof.
  apply relies_gets; [apply _|]. intros s1 _ _. destruct (classifyCommunication _ _) as [o|]; [|done].
  intros s2 _ HI. unfold insert_message, mbind, M_bind, gets, guard_throw.
  destruct (messages s2 !! _) as [m0|] eqn:E0; cbn; [by split_and!|].
  set (m := drafted sha256 newId t c input o). change (messages s2 !! newId = None) in E0.
  assert (comm_evolves s2 (with_messages (<[newId := m]> (messages s2)) s2)) as He.
  { split; [|done]. intros k x Hk. exists x. cbn. rewrite lookup_insert_ne; [done|congruence]. }
  split_and!; [|done|done]. intros k x. cbn. rewrite lookup_insert_Some.
  intros [[<- <-]|[_ Hk]].
  - split; [done|]. split; [done|]. cbn. by destruct (co_classification o).
  - destruct (HI _ _ Hk). split; [done|]. by apply (wf_evolves s2).
Qed.

Lemma find_message_Some t id db m : find_message t id db = Some m -> messages db !! id = Some m.
Proof. unfold find_message. intros H. repeat (case_match; try discriminate). by simplify_eq. Qed.

Lemma approve_relies t id actor reason s : relies (fun _ _ => True) (approve t id actor reason) s.
Proof.
  apply relies_gets; [apply _|]. intros s1 _ HI1. apply relies_bind. cbn [Threads.relies].
  destruct (approvable id (find_message t id s1)) as [m|] eqn:Ea; [|done].
  assert (messages s1 !! id = Some m /\ cm_classification m = PROTECTED) as [Hm Hc].
  { unfold approvable in Ea. destruct (find_message t id s1) as [m'|] eqn:Ef; [|done].
    apply find_message_Some in Ef. repeat (case_match; try discriminate). simplify_eq. bsplit. done. }
  apply relies_bind. intros s2 He HI2. cbn [Threads.relies].
  set (a := {| ca_communicationMessageId := id; ca_actorId := actor;
               ca_approvedRenderedContentHash := cm_renderedContentHash m; ca_reason := reason |}).
  assert (CommInv (save_approval a s2).2 /\ comm_evolves s2 (save_approval a s2).2) as [HI3 He3].
  { apply (progress_ok (set_status APPROVED) id); [done|done| |done|].
    - intros x Hx. apply elem_of_app. by left.
    - intros x Hx [Hh _]. split; [done|]. destruct He as [He _]. destruct (He _ _ Hm) as (y & Hy & Hcore).
      cbn in *. rewrite Hx in Hy. injection Hy as <-. apply core_eq in Hcore as (Ei & Ec & _ & _ & Eh).
      rewrite Ec, Hc. exists a. cbn. split; [apply elem_of_app; right; by constructor|].
      destruct (HI1 _ _ Hm). split; congruence. }
  split_and!; [done|done|]. intros s4 He4 HI4. cbn.
  destruct (same_tables s4 (with_audits (audits s4 ++ [{| ae_tenantId := t; ae_actorId := actor;
    ae_action := "COMMUNICATION_APPROVED"; ae_resourceId := id; ae_reason := reason |}]) s4)) as [? ?]; [done..|by split_and!].
Qed.

Lemma ready_authorised t id s m :
  CommInv s -> find_message t id s = Some m -> ready m = true ->
  authorised s {| sd_messageId := cm_id m; sd_contentHash := cm_renderedContentHash m; sd_channel := cm_channel m |}.
Proof.
  intros HI Hm%find_message_Some Hr. destruct (HI _ _ Hm) as [Hid [Hh Hw]]. exists m. cbn. rewrite Hid at 1.
  split_and!; try done. unfold ready in Hr. apply orb_true_iff in Hr as [Hr|Hr]; bsplit; [by left|].
  right. destruct (cm_classification m), (cm_status m); done.
Qed.

Lemma deliver_relies eid t id now s :
  relies (fun _ _ => True) (deliver sha256_hex hmac json secret eid t id now) s.
Proof.
  apply relies_gets; [apply _|]. intros s1 _ HI1. destruct (find_message t id s1) as [m|] eqn:Hm; [|done].
  destruct (ready m) eqn:Hr; [|done]. apply relies_call. intros s2 He HI2.
  pose proof (ready_authorised t id s1 m HI1 Hm Hr) as Hauth.
  split; [by apply (authorised_evolves s1)|]. intros _. apply relies_bind. intros s3 He3 HI3.
  set (r := simulator_reference sha256_hex (cm_id m) (cm_renderedContentHash m)).
  destruct (progress_ok (sent_message r now) id s3 (record_delivery hmac json secret eid m id r now s3).2)
    as [HI4 He4]; [done|done|done|done| |by split_and!].
  intros x Hx [Hh Hw]. split; [done|]. cbn in *.
  apply find_message_Some in Hm. destruct (HI1 _ _ Hm) as [Hid _]. rewrite <- Hid in Hx.
  destruct (authorised_evolves s1 s3 _ ltac:(by etrans) Hauth) as (y & Hy & Hyid & _ & Hyh & _ & Hor).
  cbn in *. rewrite Hx in Hy. injection Hy as <-. destruct (cm_classification x); [|done].
  destruct Hor as [?|Hap]; [done|]. by rewrite Hyid, <- Hyh.
Qed.

Lemma seed_relies n t k v c l r a b s : relies (fun _ _ => True) (seed n t k v c l r a b) s.
Proof.
  unfold seed. destruct (negb _); [done|]. apply relies_gets; [apply _|]. intros s1 _ _.
  destruct (find_template t k v s1); [done|]. intros s2 _ HI.
  unfold mbind, M_bind, gets, guard_throw. destruct (_ || _); cbn; [by split_and!|].
  destruct (same_tables s2 (with_templates (<[n := seeded n t k v c l r a b]> (templates s2)) s2)) as [? ?]; [done..|by split_and!].
Qed.

Lemma handlers_rely op s : relies (fun _ _ => True) (handler op) s.
Proof.
  destruct op; cbn [Comms.handler]; apply relies_bind.
  - eapply relies_mono; [|apply draft_relies]. by intros [].
  - eapply relies_mono; [|apply approve_relies]. by intros [].
  - eapply relies_mono; [|apply deliver_relies]. by intros [].
  - eapply relies_mono; [|apply seed_relies]. by intros [].
Qed.

(** Templates and outbox rows change by other means as well. *)
Definition others (s s' : Db) : Prop := messages s' = messages s /\ approvals s' = approvals s.

(** C11: In every interleaving of drafting, approval, delivery and template
    changes, whatever is handed to the channel is the stored text of a
    message, by its digest, and the message is routine or that very text has
    been approved. *)
Theorem deliveries_are_authorised db0 w q :
  messages db0 = ∅ -> reachable handler others db0 w -> q ∈ calls w -> authorised (db w) q.
Proof.
  intros H0 Hr Hq.
  apply (relies_sound CommInv comm_evolves authorised) in Hr as [_ Hc].
  - rewrite Forall_forall in Hc. by apply Hc.
  - apply authorised_evolves.
  - apply handlers_rely.
  - intros s s' [Hm Ha] HI. by apply same_tables.
  - intros k m. by rewrite H0, lookup_empty.
Qed.
End Delivery.

(** ** Messages that go out twice *)

Definition hash0 (v : Dsl.value) : string := match v with Dsl.VString s => "#" +:+ s | _ => "#" end.
Definition handler0 := handler hash0 (fun s => s) (fun k s => k +:+ s) hash0 "secret".
Definition empty_db : Db :=
  {| templates := {["tpl" := template0]}; messages := ∅; approvals := []; outbox := ∅; audits := [] |}.
Definition start : world (S := Db) (E := Failure) (Q := Send) (R := unit) :=
  {| db := empty_db; calls := []; threads := [] |}.

Definition free_text : DraftCommunicationInput :=
  {| di_recipientRelationship := "BORROWER"; di_channel := "EMAIL"; di_locale := "en";
     di_templateKey := None; di_templateVersion := None; di_variables := [];
     di_freeformContent := Some "Your loan is denied."; di_hasAttachments := false |}.

Definition statements (i n : nat) : list (event (R := unit) (Op := Op)) := repeat (Statement i) n.
Definition approval (i : nat) : list event := [Spawn (OpApprove "t" "m" "reviewer" None)] ++ statements i 3.
Definition delivery (i : nat) : list event :=
  [Spawn (OpDeliver "e" "t" "m" 5)] ++ statements i 1 ++ [Answer i tt] ++ statements i 1.
Definition drafting (input : DraftCommunicationInput) : list event :=
  [Spawn (OpDraft "m" "t" "c" input)] ++ statements 0 2.

Definition reapproval : list event :=
  drafting free_text ++ approval 1 ++ delivery 2 ++ approval 3 ++ delivery 4.

Definition send0 (content : string) : Send :=
  {| sd_messageId := "m"; sd_contentHash := "#" +:+ content; sd_channel := "EMAIL" |}.

Lemma deliveries_are_authorised_witness :
  exists w, play_all handler0 (drafting free_text ++ approval 1 ++ delivery 2) start = Some w /\
    calls w = [send0 "Your loan is denied."] /\ authorised hash0 (db w) (send0 "Your loan is denied.").
Proof.
  eexists. split; [vm_compute; reflexivity|]. split; [vm_compute; reflexivity|].
  eapply (deliveries_are_authorised hash0 (fun s => s) (fun k s => k +:+ s) hash0 "secret" empty_db).
  - reflexivity.
  - apply (play_all_steps _ _ (drafting free_text ++ approval 1 ++ delivery 2)). vm_compute. reflexivity.
  - vm_compute. constructor.
Defined.

(** A message that has been sent can be approved again, and then it is
    sent again, although a SENT message is documented never to be
    delivered. *)
Theorem sent_message_is_approved_and_sent_again :
  exists w, play_all handler0 reapproval start = Some w /\
    calls w = [send0 "Your loan is denied."; send0 "Your loan is denied."].
Proof. eexists. split; vm_compute; reflexivity. Qed.

(** Delivery reads the status without a lock and writes it without a
    guard, so two requests for one routine message both send it. *)
Theorem concurrent_deliveries_send_twice :
  exists w, play_all handler0 (drafting (input0 "form") ++
      [Spawn (OpDeliver "e1" "t" "m" 5); Spawn (OpDeliver "e2" "t" "m" 6)] ++
      [Statement 1; Statement 2; Answer 1 tt; Answer 2 tt; Statement 1; Statement 2]) start = Some w /\
    calls w = [send0 "Dear Ann, {X your form arrived."; send0 "Dear Ann, {X your form arrived."] /\
    size (outbox (db w)) = 2%nat.
Proof. eexists. split; [vm_compute; reflexivity|]. split; vm_compute; reflexivity. Qed.

(** A placeholder named like a property every object inherits counts as
    supplied: the message is routine and carries the engine's text for it. *)
Theorem inherited_name_is_not_missing :
  classifyCommunication
    {| di_recipientRelationship := "BORROWER"; di_channel := "EMAIL"; di_locale := "en";
       di_templateKey := Some "K"; di_templateVersion := Some "1"; di_variables := [];
       di_freeformContent := None; di_hasAttachments := false |}
    (Some (seeded "tpl" "t" "K" "1" "EMAIL" "en" "BORROWER" "ops" "By {{constructor}}")) =
  Ok {| co_classification := ROUTINE; co_reasons := [];
        co_renderedContent := "By function Object() { [native code] }"; co_templateId := Some "tpl" |}.
Proof. vm_compute. reflexivity. Qed.
End CommsTheorems.
