(* ===== verification/AgentTables.v ===== *)
(** * The state of the case platform

    The rows of database/entities that the agent runtime and the case workflow
    share ([LoanCase], [LoanCondition], [ConditionTransition],
    [EvaluationInputManifest], [AgentModelInvocation], [AgentRun],
    [ToolAttempt]), and the [World] they form with the tables of the budget
    ledger, the policy engine, the provider platform and the communications.
    Handlers are [Threads.Prog]s over it; the services of the other files are
    embedded.

    Generated keys are taken from a supply; two clocks are kept, the
    database's and the process's ([Date.now]). *)

From Stdlib Require Import Ascii SpecFloat.
From stdpp Require Import gmap strings list pretty.
From S2P Require Import Prelude BudgetLedger PolicyDsl PolicyDigest PolicyResolver PolicyEvaluation PolicyActivation Concurrency ProviderTables Consent ProviderPlatform ProviderDispatch WebhookGuard Outbox Communications.

Module Agent.
Import Threads.

(** ** Rows *)

Inductive CaseStatus :=
| DRAFT | COLLECTING_EVIDENCE | CONDITIONS_OPEN | WAITING_FOR_INFORMATION | WAITING_FOR_REVIEW
| READY_FOR_UNDERWRITING | MANUAL_REVIEW | CLOSED.
#[export] Instance CaseStatus_eq : EqDecision CaseStatus.
Proof. solve_decision. Defined.

Definition case_status_text (s : CaseStatus) : string :=
  match s with
  | DRAFT => "DRAFT" | COLLECTING_EVIDENCE => "COLLECTING_EVIDENCE" | CONDITIONS_OPEN => "CONDITIONS_OPEN"
  | WAITING_FOR_INFORMATION => "WAITING_FOR_INFORMATION" | WAITING_FOR_REVIEW => "WAITING_FOR_REVIEW"
  | READY_FOR_UNDERWRITING => "READY_FOR_UNDERWRITING" | MANUAL_REVIEW => "MANUAL_REVIEW"
  | CLOSED => "CLOSED"
  end.

(** The two decimal columns hold the text PostgreSQL returns. *)
Record LoanCase := {
  lc_id : string;
  lc_tenantId : string;
  lc_idempotencyKey : string;
  lc_borrowerId : string;
  lc_requestedAmount : string;
  lc_loanType : Activation.LoanType;
  lc_statedMonthlyIncome : string;
  lc_jurisdictionCode : string;
  lc_status : CaseStatus;
  lc_version : Z;
  lc_createdAt : Z;
  lc_updatedAt : Z }.

Inductive ConditionStatus := OPEN | IN_PROGRESS | WAITING_FOR_EVIDENCE | SATISFIED | WAIVED | ESCALATED.
#[export] Instance ConditionStatus_eq : EqDecision ConditionStatus.
Proof. solve_decision. Defined.

Record LoanCondition := {
  cn_id : string;
  cn_tenantId : string;
  cn_caseId : string;
  cn_code : string;
  cn_description : string;
  cn_status : ConditionStatus;
  cn_policySnapshotId : option string;
  cn_evaluationManifestId : option string;
  cn_version : Z;
  cn_createdAt : Z }.

Record ConditionTransition := {
  tr_conditionId : string;
  tr_fromStatus : ConditionStatus;
  tr_toStatus : ConditionStatus;
  tr_actorId : option string;
  tr_reason : option string }.

Record EvaluationManifestEvidenceRef := {
  er_evidenceId : string;
  er_version : Z;
  er_contentHash : string;
  er_validThrough : option Z }.

(** The columns that are always empty are left out. *)
Record EvaluationInputManifest := {
  em_id : string;
  em_tenantId : string;
  em_caseId : string;
  em_caseVersion : Z;
  em_evidenceRefs : list EvaluationManifestEvidenceRef;
  em_policyBindingId : string;
  em_observedPolicyDependencyDigest : string;
  em_evaluatorVersion : string;
  em_modelAndPromptManifestId : option string;
  em_manifestHash : string }.

Inductive AgentPlannerAction := EVALUATE_POLICY | REQUEST_HUMAN_REVIEW.
Inductive PlannerReason := POLICY_EVALUATION_REQUIRED | HUMAN_REVIEW_REQUIRED.
#[export] Instance AgentPlannerAction_eq : EqDecision AgentPlannerAction.
Proof. solve_decision. Defined.
#[export] Instance PlannerReason_eq : EqDecision PlannerReason.
Proof. solve_decision. Defined.

Record AgentModelInvocation := {
  mi_id : string;
  mi_tenantId : string;
  mi_caseId : string;
  mi_caseVersion : Z;
  mi_workflowRunId : string;
  mi_modelVersion : string;
  mi_promptVersion : string;
  mi_nextAction : AgentPlannerAction;
  mi_reasonCode : PlannerReason;
  mi_confidenceBasisPoints : Z;
  mi_accountedTokenUnits : Z;
  mi_requestDigest : string;
  mi_responseDigest : string }.

Inductive AgentRunRoute :=
| PROPOSED_ACTION | AWAITING_INFORMATION | INTERRUPTED_FOR_REVIEW | ROUTED_TO_MANUAL_REVIEW.
#[export] Instance AgentRunRoute_eq : EqDecision AgentRunRoute.
Proof. solve_decision. Defined.

Inductive MandatoryReviewCategory :=
| CONSENT_INVALID | BUDGET_OR_DEADLINE_EXHAUSTED | POLICY_AMBIGUITY | TOOL_EXECUTION_FAILURE
| MODEL_OUTPUT_INVALID | MODEL_UNCERTAINTY.
#[export] Instance MandatoryReviewCategory_eq : EqDecision MandatoryReviewCategory.
Proof. solve_decision. Defined.

Inductive ToolOutcome := SUCCESS | FAILURE.
#[export] Instance ToolOutcome_eq : EqDecision ToolOutcome.
Proof. solve_decision. Defined.

Record ToolAttemptSummary := {
  ta_toolName : string;
  ta_attemptedAt : Z;
  ta_outcome : ToolOutcome;
  ta_detail : option string }.

(** The arguments of the one action that is ever proposed. *)
Record AgentAction := {
  aa_tool : string;
  aa_conditionId : string;
  aa_code : string;
  aa_communicationMessageId : string }.

(** A row of agent_runs with its tool_attempts. *)
Record AgentRun := {
  ar_tenantId : string;
  ar_caseId : string;
  ar_workflowRunId : string;
  ar_route : AgentRunRoute;
  ar_proposedAction : option AgentAction;
  ar_reviewRequested : bool;
  ar_reviewReason : option string;
  ar_reviewCategory : option MandatoryReviewCategory;
  ar_modelInvocationId : option string;
  ar_modelVersion : option string;
  ar_promptVersion : option string;
  ar_startedAt : Z;
  ar_completedAt : Z;
  ar_attempts : list ToolAttemptSummary }.

(** ** The world *)

Record World := {
  w_dbclock : Z;
  w_supply : nat;
  w_tables : Tables.Db;
  w_budget : Ledger.DB;
  w_policy : Evaluation.PolicyDb;
  w_comms : Comms.Db;
  w_cases : gmap string LoanCase;
  w_conditions : gmap string LoanCondition;
  w_transitions : list ConditionTransition;
  w_manifests : gmap string EvaluationInputManifest;
  w_invocations : gmap string AgentModelInvocation;
  w_runs : list AgentRun }.

Definition put_supply x (w : World) : World :=
  {| w_dbclock := w_dbclock w; w_supply := x; w_tables := w_tables w; w_budget := w_budget w;
     w_policy := w_policy w; w_comms := w_comms w; w_cases := w_cases w; w_conditions := w_conditions w;
     w_transitions := w_transitions w; w_manifests := w_manifests w; w_invocations := w_invocations w;
     w_runs := w_runs w |}.
Definition put_tables x (w : World) : World :=
  {| w_dbclock := w_dbclock w; w_supply := w_supply w; w_tables := x; w_budget := w_budget w;
     w_policy := w_policy w; w_comms := w_comms w; w_cases := w_cases w; w_conditions := w_conditions w;
     w_transitions := w_transitions w; w_manifests := w_manifests w; w_invocations := w_invocations w;
     w_runs := w_runs w |}.
Definition put_budget x (w : World) : World :=
  {| w_dbclock := w_dbclock w; w_supply := w_supply w; w_tables := w_tables w; w_budget := x;
     w_policy := w_policy w; w_comms := w_comms w; w_cases := w_cases w; w_conditions := w_conditions w;
     w_transitions := w_transitions w; w_manifests := w_manifests w; w_invocations := w_invocations w;
     w_runs := w_runs w |}.
Definition put_policy x (w : World) : World :=
  {| w_dbclock := w_dbclock w; w_supply := w_supply w; w_tables := w_tables w; w_budget := w_budget w;
     w_policy := x; w_comms := w_comms w; w_cases := w_cases w; w_conditions := w_conditions w;
     w_transitions := w_transitions w; w_manifests := w_manifests w; w_invocations := w_invocations w;
     w_runs := w_runs w |}.
Definition put_comms x (w : World) : World :=
  {| w_dbclock := w_dbclock w; w_supply := w_supply w; w_tables := w_tables w; w_budget := w_budget w;
     w_policy := w_policy w; w_comms := x; w_cases := w_cases w; w_conditions := w_conditions w;
     w_transitions := w_transitions w; w_manifests := w_manifests w; w_invocations := w_invocations w;
     w_runs := w_runs w |}.
Definition put_cases x (w : World) : World :=
  {| w_dbclock := w_dbclock w; w_supply := w_supply w; w_tables := w_tables w; w_budget := w_budget w;
     w_policy := w_policy w; w_comms := w_comms w; w_cases := x; w_conditions := w_conditions w;
     w_transitions := w_transitions w; w_manifests := w_manifests w; w_invocations := w_invocations w;
     w_runs := w_runs w |}.
Definition put_conditions x (w : World) : World :=
  {| w_dbclock := w_dbclock w; w_supply := w_supply w; w_tables := w_tables w; w_budget := w_budget w;
     w_policy := w_policy w; w_comms := w_comms w; w_cases := w_cases w; w_conditions := x;
     w_transitions := w_transitions w; w_manifests := w_manifests w; w_invocations := w_invocations w;
     w_runs := w_runs w |}.
Definition put_transitions x (w : World) : World :=
  {| w_dbclock := w_dbclock w; w_supply := w_supply w; w_tables := w_tables w; w_budget := w_budget w;
     w_policy := w_policy w; w_comms := w_comms w; w_cases := w_cases w; w_conditions := w_conditions w;
     w_transitions := x; w_manifests := w_manifests w; w_invocations := w_invocations w;
     w_runs := w_runs w |}.
Definition put_manifests x (w : World) : World :=
  {| w_dbclock := w_dbclock w; w_supply := w_supply w; w_tables := w_tables w; w_budget := w_budget w;
     w_policy := w_policy w; w_comms := w_comms w; w_cases := w_cases w; w_conditions := w_conditions w;
     w_transitions := w_transitions w; w_manifests := x; w_invocations := w_invocations w;
     w_runs := w_runs w |}.
Definition put_invocations x (w : World) : World :=
  {| w_dbclock := w_dbclock w; w_supply := w_supply w; w_tables := w_tables w; w_budget := w_budget w;
     w_policy := w_policy w; w_comms := w_comms w; w_cases := w_cases w; w_conditions := w_conditions w;
     w_transitions := w_transitions w; w_manifests := w_manifests w; w_invocations := x;
     w_runs := w_runs w |}.
Definition put_runs x (w : World) : World :=
  {| w_dbclock := w_dbclock w; w_supply := w_supply w; w_tables := w_tables w; w_budget := w_budget w;
     w_policy := w_policy w; w_comms := w_comms w; w_cases := w_cases w; w_conditions := w_conditions w;
     w_transitions := w_transitions w; w_manifests := w_manifests w; w_invocations := w_invocations w;
     w_runs := x |}.

(** [Date.now()], and both clocks as the ledger reads them. *)
Definition date_now (w : World) : Z := Tables.clock (w_tables w).
Definition clocks (w : World) : Ledger.Clock := {| Ledger.b_now := w_dbclock w; Ledger.b_date := date_now w |}.

(** ** Failures and calls *)

Inductive AgentPlannerErrorCode := UNAVAILABLE | TIMEOUT | PROVIDER_ERROR | MALFORMED_OUTPUT.
#[export] Instance AgentPlannerErrorCode_eq : EqDecision AgentPlannerErrorCode.
Proof. solve_decision. Defined.

Inductive Failure :=
| BudgetFailure (e : Ledger.Failure)
| PolicyFailure (e : Evaluation.Failure)
| CommsFailure (e : Comms.Failure)
| ProviderFailure (e : Tables.Failure)
| PlannerFailure (code : AgentPlannerErrorCode)
| EntityNotFound
| UniqueViolation
| StaleCaseVersion (caseId : string) (expectedVersion : Z)
| DuplicateTool (name : string)
| InvalidToolBudget (name dimension : string)
| ApplicationFailure (nonRetryable : bool) (type message : string)
| OtherError (message : string).

(** The parsed answer of the model, or how the request failed. *)
Inductive ModelReply :=
| ModelUnavailable
| ModelTimedOut
| ModelHttpError
| ModelNotJson
| ModelAnswer (content : Dsl.value).

Inductive Request :=
| AskModel
| HandOver (message : Comms.Send)
| AskProvider (submission : Dispatch.Submission).
Inductive Reply :=
| ModelSaid (r : ModelReply)
| HandedOver
| ProviderSaid (a : Dispatch.ProviderAnswer).

Notation prog := (Prog World Failure Request Reply).

(** ** Statements *)

Section Statements.
Context (fresh : nat -> string).

(** A generated primary key. *)
Definition new_id : M World Failure string := fun w =>
  (Ok (fresh (w_supply w)), put_supply (S (w_supply w)) w).

Definition on_budget {A} (m : Ledger.Clock -> string -> M Ledger.DB Ledger.Failure A) : M World Failure A :=
  fun w => zoom w_budget put_budget BudgetFailure (m (clocks w) (fresh (w_supply w)))
             (put_supply (S (w_supply w)) w).

Definition on_comms {A} (p : Prog Comms.Db Comms.Failure Comms.Send unit A) : prog A :=
  embed w_comms put_comms CommsFailure HandOver (fun _ => tt) p.

(** [findOneByOrFail({ id, tenantId })] *)
Definition find_case (tenantId caseId : string) (w : World) : option LoanCase :=
  Tables.visible lc_tenantId tenantId (w_cases w !! caseId).

Definition load_case (tenantId caseId : string) : M World Failure LoanCase :=
  row ← gets (find_case tenantId caseId);
  or_throw row EntityNotFound.

Definition set_case_status (status : CaseStatus) (now : Z) (c : LoanCase) : LoanCase :=
  {| lc_id := lc_id c; lc_tenantId := lc_tenantId c; lc_idempotencyKey := lc_idempotencyKey c;
     lc_borrowerId := lc_borrowerId c; lc_requestedAmount := lc_requestedAmount c;
     lc_loanType := lc_loanType c; lc_statedMonthlyIncome := lc_statedMonthlyIncome c;
     lc_jurisdictionCode := lc_jurisdictionCode c; lc_status := status; lc_version := lc_version c + 1;
     lc_createdAt := lc_createdAt c; lc_updatedAt := now |}.

(** [update({ id, tenantId, ...criteria }, { status })]: TypeORM also counts
    the version up.  The result is the number of rows changed. *)
Definition update_case (tenantId caseId : string) (criteria : LoanCase -> bool) (status : CaseStatus)
  : M World Failure nat :=
  row ← gets (find_case tenantId caseId);
  match row with
  | Some c =>
      if criteria c then
        _ ← modify (fun w => put_cases (<[caseId := set_case_status status (w_dbclock w) c]> (w_cases w)) w);
        mret 1%nat
      else mret 0%nat
  | None => mret 0%nat
  end.

Definition any_case (c : LoanCase) : bool := true.
Definition at_version (v : Z) (c : LoanCase) : bool := lc_version c =? v.

Context (hmac : string -> string -> string) (json : Dsl.value -> string) (outboxSigningSecret : string).

(** [writeOutboxEvent(manager, ...)] *)
Definition writeOutboxEvent (tenantId caseId eventType : string) (payload : Dsl.value) : M World Failure unit :=
  id ← new_id;
  modify (fun w => put_comms (Comms.with_outbox
    (<[id := Outbox.outbox_row hmac json outboxSigningSecret id (w_dbclock w) tenantId caseId eventType payload]>
       (Comms.outbox (w_comms w))) (w_comms w)) w).
End Statements.
End Agent.
