(* ===== verification/AgentTools.v ===== *)
(** * The tools of the agent

    src/agent-runtime: the tool contract and registry (agent-tool.types.ts),
    the tools (tools/), the mandatory review triggers
    (mandatory-review-triggers.ts), the bounded planner (agent-planner.ts),
    and policy/evaluation-manifest.service.ts, which records what an
    evaluation read.

    A tool is type-erased in the source; here its arguments and results are
    sums over the tools.  Hashes, the texts of error messages and of rule
    evaluations, and number parsing are parameters. *)

From Stdlib Require Import Ascii SpecFloat.
From stdpp Require Import gmap strings list pretty.
From S2P Require Import Prelude BudgetLedger PolicyDsl PolicyDigest PolicyResolver PolicyEvaluation PolicyActivation Concurrency ProviderTables Consent ProviderPlatform ProviderDispatch WebhookGuard Outbox Communications AgentTables.

Module Tools.
Import Threads Agent.

(** ** Mandatory review *)

Inductive MandatoryReviewRoute := INTERRUPT_FOR_REVIEW | ROUTE_TO_MANUAL_REVIEW.

Definition CATEGORY_ROUTES (c : MandatoryReviewCategory) : MandatoryReviewRoute :=
  match c with
  | POLICY_AMBIGUITY | MODEL_UNCERTAINTY => INTERRUPT_FOR_REVIEW
  | CONSENT_INVALID | BUDGET_OR_DEADLINE_EXHAUSTED | TOOL_EXECUTION_FAILURE | MODEL_OUTPUT_INVALID =>
      ROUTE_TO_MANUAL_REVIEW
  end.

Definition category_text (c : MandatoryReviewCategory) : string :=
  match c with
  | CONSENT_INVALID => "CONSENT_INVALID" | BUDGET_OR_DEADLINE_EXHAUSTED => "BUDGET_OR_DEADLINE_EXHAUSTED"
  | POLICY_AMBIGUITY => "POLICY_AMBIGUITY" | TOOL_EXECUTION_FAILURE => "TOOL_EXECUTION_FAILURE"
  | MODEL_OUTPUT_INVALID => "MODEL_OUTPUT_INVALID" | MODEL_UNCERTAINTY => "MODEL_UNCERTAINTY"
  end.

Record MandatoryReviewTrigger := {
  tg_category : MandatoryReviewCategory;
  tg_route : MandatoryReviewRoute;
  tg_reason : string }.

Definition classifyMandatoryReviewTrigger (category : MandatoryReviewCategory) (detail : string)
  : MandatoryReviewTrigger :=
  {| tg_category := category; tg_route := CATEGORY_ROUTES category;
     tg_reason := "[" +:+ category_text category +:+ "] " +:+ detail |}.

(** ** The tool contract *)

Inductive ToolSideEffect :=
| NONE | DOCUMENT_PROCESSING | PROVIDER_SUBMISSION | VERSIONED_CALCULATION | CASE_MUTATION
| CREATES_ASSESSMENT | WORKFLOW_TRANSITION | EXTERNAL_COMMUNICATION.
#[export] Instance ToolSideEffect_eq : EqDecision ToolSideEffect.
Proof. solve_decision. Defined.

Record AgentToolContext := { tc_tenantId : string; tc_caseId : string; tc_budgetReservationId : option string }.
Record AgentToolBudget := { tb_tokenUnits : Z; tb_providerCallUnits : Z; tb_costMinorUnits : Z }.

Record EvaluatePolicyArgs := {
  ea_jurisdictionCode : string;
  ea_productCode : string;
  ea_lifecycleEvent : string;
  ea_applicationReceivedAt : Z }.

Record CreateConditionArgs := {
  ka_code : string;
  ka_description : string;
  ka_policyVersionId : string;
  ka_ruleId : string;
  ka_policySnapshotId : string;
  ka_expectedCaseVersion : Z;
  ka_evaluationManifestId : option string }.

Inductive ToolArgs :=
| CheckCaseCompletenessArgs
| EvaluatePolicy (args : EvaluatePolicyArgs)
| CreateCondition (args : CreateConditionArgs)
| DraftInformationRequest (args : Comms.DraftCommunicationInput)
| SendInformationRequest (communicationMessageId : string)
| EscalateToReviewer (reason : string) (expectedCaseVersion : Z).

Record MatchedVersion := {
  mv_policyVersionId : string;
  mv_ruleId : string;
  mv_version : string;
  mv_rule : Dsl.PolicyRuleDocument }.

Record EvaluatePolicyResult := {
  er_outcome : Evaluation.EvaluationOutcome;
  er_status : Resolver.ResolutionStatus;
  er_policySnapshotId : string;
  er_policyBindingId : option string;
  er_observedPolicyDependencyDigest : option string;
  er_matchedVersions : list MatchedVersion;
  er_unresolvedReasons : list Resolver.Unresolved }.

Inductive CreateConditionResult := CREATED (conditionId : string) | STALE_CASE_VERSION.
Inductive EscalateToReviewerResult :=
| CASE_ESCALATED | ESCALATION_STALE | INVALID_STATUS (currentStatus : CaseStatus).

Inductive ToolResult :=
| CompletenessResult (complete : bool) (missingFactTypes : list string)
| PolicyResult (r : EvaluatePolicyResult)
| ConditionResult (r : CreateConditionResult)
| DraftResult (communicationMessageId : string) (classification : Comms.CommunicationClassification)
    (classificationReasons : list string)
| SendResult (r : Comms.DeliverCommunicationResult)
| EscalateResult (r : EscalateToReviewerResult).

Record AgentTool := {
  tl_name : string;
  tl_sideEffect : ToolSideEffect;
  tl_budget : AgentToolBudget;
  tl_structurallyExcludedCommandClass : option string;
  tl_execute : AgentToolContext -> ToolArgs -> prog ToolResult }.

Record ToolInvocationResult := {
  tv_toolName : string;
  tv_outcome : ToolOutcome;
  tv_result : option ToolResult;
  tv_error : option string }.

Definition AgentToolRegistry : Type := gmap string AgentTool.

(** [Number.isSafeInteger(value) && value >= 0], per dimension. *)
Definition invalid_budget (b : AgentToolBudget) : option string :=
  let bad z := negb (JS.isSafeInteger z) || (z <? 0) in
  if bad (tb_tokenUnits b) then Some "tokenUnits"
  else if bad (tb_providerCallUnits b) then Some "providerCallUnits"
  else if bad (tb_costMinorUnits b) then Some "costMinorUnits"
  else None.

Fixpoint register_all (tools : list AgentTool) (registry : AgentToolRegistry)
  : result Failure AgentToolRegistry :=
  match tools with
  | [] => Ok registry
  | tool :: tools' =>
      if bool_decide (is_Some (registry !! tl_name tool)) then Err (DuplicateTool (tl_name tool))
      else match Platform.assertNotStructurallyExcluded (tl_structurallyExcludedCommandClass tool) with
           | Err e => Err (ProviderFailure e)
           | Ok _ =>
               match invalid_budget (tl_budget tool) with
               | Some dimension => Err (InvalidToolBudget (tl_name tool) dimension)
               | None => register_all tools' (<[tl_name tool := tool]> registry)
               end
           end
  end.
Definition buildToolRegistry (tools : list AgentTool) : result Failure AgentToolRegistry := register_all tools ∅.

Section Tools.
(** Texts of errors, of rule evaluations and of unresolved policy; hashes. *)
Context (message_of : Failure -> string) (sha256 : Dsl.value -> string) (sha256_hex : string -> string).
Context (iso : Z -> string) (collation : string -> Z) (reason_text : Resolver.Unresolved -> string).
Context (fresh : nat -> string) (hmac : string -> string -> string) (json : Dsl.value -> string)
  (outboxSigningSecret : string).
(** The policy engine: its resolver, what other callers commit between the
    statements of an evaluation, and its clock readings and keys. *)
Context {RES : Evaluation.PolicyResolver} (policy_env : nat -> Evaluation.PolicyDb -> Evaluation.PolicyDb)
  (evaluation_call : World -> Evaluation.Call).

Definition invokeTool (tools : AgentToolRegistry) (toolName : string) (context : AgentToolContext)
    (args : ToolArgs) : prog ToolInvocationResult :=
  match tools !! toolName with
  | None =>
      mret {| tv_toolName := toolName; tv_outcome := FAILURE; tv_result := None;
              tv_error := Some ("unregistered tool " +:+ Comms.quote toolName) |}
  | Some tool =>
      pcatch
        (r ← tl_execute tool context args;
         mret {| tv_toolName := toolName; tv_outcome := SUCCESS; tv_result := Some r; tv_error := None |})
        (fun e => mret {| tv_toolName := toolName; tv_outcome := FAILURE; tv_result := None;
                          tv_error := Some (message_of e) |})
  end.

Definition no_budget : AgentToolBudget :=
  {| tb_tokenUnits := 0; tb_providerCallUnits := 0; tb_costMinorUnits := 0 |}.

(** The erased types do not match. *)
Definition wrong_arguments {A} : prog A := fail (OtherError "invalid tool arguments").

(** ** check_case_completeness *)

Definition REQUIRED_FACT_TYPES : list string := ["INCOME"; "CREDIT"; "DOCUMENT"].

Definition case_facts (tenantId caseId : string) (w : World) : list Tables.EvidenceFact :=
  find_rows (fun f => String.eqb (Tables.ev_tenantId f) tenantId && String.eqb (Tables.ev_caseId f) caseId)
    (Tables.evidence (w_tables w)).

Definition checkCaseCompleteness (context : AgentToolContext) : prog ToolResult :=
  facts ← atomically (gets (case_facts (tc_tenantId context) (tc_caseId context)));
  let missing := List.filter (fun type => negb (includes (map Tables.ev_factType facts) type)) REQUIRED_FACT_TYPES in
  mret (CompletenessResult (bool_decide (missing = [])) missing).

Definition checkCaseCompletenessTool : AgentTool :=
  {| tl_name := "check_case_completeness"; tl_sideEffect := NONE; tl_budget := no_budget;
     tl_structurallyExcludedCommandClass := None;
     tl_execute := fun context args =>
       match args with CheckCaseCompletenessArgs => checkCaseCompleteness context | _ => wrong_arguments end |}.

(** ** evaluate_policy *)

Definition matched_version (v : Resolver.ResolvedPolicyVersionRef) : MatchedVersion :=
  {| mv_policyVersionId := Resolver.rv_policyVersionId v; mv_ruleId := Resolver.rv_ruleId v;
     mv_version := Resolver.rv_version v; mv_rule := Resolver.rv_rule v |}.

Definition policy_result (e : Evaluation.PolicyEvaluationResult) : EvaluatePolicyResult :=
  {| er_outcome := Evaluation.outcome e; er_status := Resolver.status (Evaluation.resolution e);
     er_policySnapshotId := Evaluation.sn_id (Evaluation.res_snapshot e);
     er_policyBindingId := Evaluation.bd_id <$> Evaluation.res_binding e;
     er_observedPolicyDependencyDigest := Evaluation.bd_dependencyDigest <$> Evaluation.res_binding e;
     er_matchedVersions := map matched_version (Resolver.versions (Evaluation.resolution e));
     er_unresolvedReasons := Resolver.unresolvedReasons (Evaluation.resolution e) |}.

Definition evaluate_statement (tenantId caseId : string) (args : EvaluatePolicyArgs)
  : M World Failure Evaluation.PolicyEvaluationResult := fun w =>
  zoom w_policy put_policy PolicyFailure
    (Evaluation.evaluateInternal iso collation sha256 reason_text policy_env (evaluation_call w) tenantId caseId
       {| Resolver.jurisdictionCode := ea_jurisdictionCode args; Resolver.productCode := ea_productCode args;
          Resolver.lifecycleEvent := ea_lifecycleEvent args; Resolver.asOf := date_now w;
          Resolver.applicationReceivedAt := Some (ea_applicationReceivedAt args) |}) w.

Definition evaluatePolicyTool : AgentTool :=
  {| tl_name := "evaluate_policy"; tl_sideEffect := CREATES_ASSESSMENT; tl_budget := no_budget;
     tl_structurallyExcludedCommandClass := None;
     tl_execute := fun context args =>
       match args with
       | EvaluatePolicy a =>
           e ← atomically (evaluate_statement (tc_tenantId context) (tc_caseId context) a);
           mret (PolicyResult (policy_result e))
       | _ => wrong_arguments
       end |}.

(** ** create_condition *)

Definition insert_condition (id tenantId caseId : string) (args : CreateConditionArgs) : M World Failure unit :=
  taken ← gets (fun w => w_conditions w !! id);
  _ ← guard_throw (bool_decide (is_Some taken)) UniqueViolation;
  modify (fun w => put_conditions (<[id :=
    {| cn_id := id; cn_tenantId := tenantId; cn_caseId := caseId; cn_code := ka_code args;
       cn_description := ka_description args; cn_status := OPEN;
       cn_policySnapshotId := Some (ka_policySnapshotId args);
       cn_evaluationManifestId := ka_evaluationManifestId args; cn_version := 1;
       cn_createdAt := w_dbclock w |}]> (w_conditions w)) w).

(** The writes of the transaction, after the version was read. *)
Definition write_condition (tenantId caseId : string) (args : CreateConditionArgs)
  : M World Failure CreateConditionResult :=
  transaction (
    id ← new_id fresh;
    _ ← insert_condition id tenantId caseId args;
    affected ← update_case tenantId caseId (at_version (ka_expectedCaseVersion args)) CONDITIONS_OPEN;
    _ ← guard_throw (bool_decide (affected = 0%nat)) (StaleCaseVersion caseId (ka_expectedCaseVersion args));
    _ ← writeOutboxEvent fresh hmac json outboxSigningSecret tenantId caseId Outbox.ConditionOpened
          (Dsl.VObject [("caseId", Dsl.VString caseId); ("conditionId", Dsl.VString id);
             ("code", Dsl.VString (ka_code args)); ("policyVersionId", Dsl.VString (ka_policyVersionId args));
             ("ruleId", Dsl.VString (ka_ruleId args));
             ("policySnapshotId", Dsl.VString (ka_policySnapshotId args))]);
    _ ← writeOutboxEvent fresh hmac json outboxSigningSecret tenantId caseId Outbox.WorkflowRunWaitingForReview
          (Dsl.VObject [("caseId", Dsl.VString caseId); ("conditionId", Dsl.VString id)]);
    mret (CREATED id)).

Definition createCondition (context : AgentToolContext) (args : CreateConditionArgs) : prog CreateConditionResult :=
  currentCase ← atomically (load_case (tc_tenantId context) (tc_caseId context));
  if negb (lc_version currentCase =? ka_expectedCaseVersion args) then mret STALE_CASE_VERSION
  else atomically (write_condition (tc_tenantId context) (tc_caseId context) args).

Definition createConditionTool : AgentTool :=
  {| tl_name := "create_condition"; tl_sideEffect := CASE_MUTATION; tl_budget := no_budget;
     tl_structurallyExcludedCommandClass := None;
     tl_execute := fun context args =>
       match args with
       | CreateCondition a => r ← createCondition context a; mret (ConditionResult r)
       | _ => wrong_arguments
       end |}.

(** ** draft_information_request and send_information_request *)

Definition draftInformationRequestTool : AgentTool :=
  {| tl_name := "draft_information_request"; tl_sideEffect := CASE_MUTATION; tl_budget := no_budget;
     tl_structurallyExcludedCommandClass := None;
     tl_execute := fun context args =>
       match args with
       | DraftInformationRequest input =>
           id ← atomically (new_id fresh);
           m ← on_comms (Comms.draft sha256 id (tc_tenantId context) (tc_caseId context) input);
           mret (DraftResult (Comms.cm_id m) (Comms.cm_classification m) (Comms.cm_classificationReasons m))
       | _ => wrong_arguments
       end |}.

Definition sendInformationRequestTool : AgentTool :=
  {| tl_name := "send_information_request"; tl_sideEffect := EXTERNAL_COMMUNICATION; tl_budget := no_budget;
     tl_structurallyExcludedCommandClass := None;
     tl_execute := fun context args =>
       match args with
       | SendInformationRequest messageId =>
           id ← atomically (new_id fresh);
           now ← atomically (gets date_now);
           r ← on_comms (Comms.deliver sha256_hex hmac json outboxSigningSecret id (tc_tenantId context) messageId now);
           mret (SendResult r)
       | _ => wrong_arguments
       end |}.

(** ** escalate_to_reviewer *)

Definition ESCALATABLE_STATUSES : list CaseStatus :=
  [DRAFT; COLLECTING_EVIDENCE; CONDITIONS_OPEN; WAITING_FOR_INFORMATION].

Definition escalate (context : AgentToolContext) (reason : string) (expectedCaseVersion : Z)
  : prog EscalateToReviewerResult :=
  affected ← atomically (transaction (
    n ← update_case (tc_tenantId context) (tc_caseId context)
          (fun c => at_version expectedCaseVersion c && bool_decide (lc_status c ∈ ESCALATABLE_STATUSES))
          WAITING_FOR_REVIEW;
    _ ← (if bool_decide (n = 0%nat) then mret tt
         else writeOutboxEvent fresh hmac json outboxSigningSecret (tc_tenantId context) (tc_caseId context)
                Outbox.CaseEscalated
                (Dsl.VObject [("caseId", Dsl.VString (tc_caseId context)); ("reason", Dsl.VString reason)]));
    mret n));
  if bool_decide (affected = 0%nat) then
    current ← atomically (gets (find_case (tc_tenantId context) (tc_caseId context)));
    match current with
    | None => fail (OtherError ("case " +:+ tc_caseId context +:+ " not found"))
    | Some c =>
        if negb (lc_version c =? expectedCaseVersion) then mret ESCALATION_STALE
        else mret (INVALID_STATUS (lc_status c))
    end
  else mret CASE_ESCALATED.

Definition escalateToReviewerTool : AgentTool :=
  {| tl_name := "escalate_to_reviewer"; tl_sideEffect := WORKFLOW_TRANSITION; tl_budget := no_budget;
     tl_structurallyExcludedCommandClass := None;
     tl_execute := fun context args =>
       match args with
       | EscalateToReviewer reason v => r ← escalate context reason v; mret (EscalateResult r)
       | _ => wrong_arguments
       end |}.

(** ** Evaluation manifests *)

Record AssembleManifestInput := {
  as_tenantId : string;
  as_caseId : string;
  as_caseVersion : Z;
  as_policyBindingId : string;
  as_observedPolicyDependencyDigest : string;
  as_evaluatorVersion : string;
  as_evidence : list Tables.EvidenceFact;
  as_modelAndPromptManifestId : option string }.

Definition evidence_ref (f : Tables.EvidenceFact) : EvaluationManifestEvidenceRef :=
  {| er_evidenceId := Tables.ev_id f; er_version := Tables.ev_version f;
     er_contentHash := Digest.computeDigest sha256 (Tables.ev_value f);
     er_validThrough := Tables.ev_validThrough f |}.

Definition int_value (z : Z) : Dsl.value := Dsl.VNumber (Dsl.f64_of_Z z).
Definition null_or (o : option string) : Dsl.value := match o with Some s => Dsl.VString s | None => Dsl.VNull end.

Definition ref_value (r : EvaluationManifestEvidenceRef) : Dsl.value :=
  Dsl.VObject [("evidenceId", Dsl.VString (er_evidenceId r)); ("version", int_value (er_version r));
    ("contentHash", Dsl.VString (er_contentHash r)); ("validThrough", null_or (iso <$> er_validThrough r))].

Definition manifest_content (i : AssembleManifestInput) : Dsl.value :=
  Dsl.VObject [("tenantId", Dsl.VString (as_tenantId i)); ("caseId", Dsl.VString (as_caseId i));
    ("caseVersion", int_value (as_caseVersion i)); ("authorizationDecisionId", Dsl.VNull);
    ("consentVersionRefs", Dsl.VArray []);
    ("evidenceRefs", Dsl.VArray (map (fun f => ref_value (evidence_ref f)) (as_evidence i)));
    ("calculationRefs", Dsl.VArray []); ("policyBindingId", Dsl.VString (as_policyBindingId i));
    ("observedPolicyDependencyDigest", Dsl.VString (as_observedPolicyDependencyDigest i));
    ("evaluatorVersion", Dsl.VString (as_evaluatorVersion i));
    ("modelAndPromptManifestId", null_or (as_modelAndPromptManifestId i))].

Definition manifest_row (id : string) (i : AssembleManifestInput) : EvaluationInputManifest :=
  {| em_id := id; em_tenantId := as_tenantId i; em_caseId := as_caseId i; em_caseVersion := as_caseVersion i;
     em_evidenceRefs := map evidence_ref (as_evidence i); em_policyBindingId := as_policyBindingId i;
     em_observedPolicyDependencyDigest := as_observedPolicyDependencyDigest i;
     em_evaluatorVersion := as_evaluatorVersion i;
     em_modelAndPromptManifestId := as_modelAndPromptManifestId i;
     em_manifestHash := Digest.computeDigest sha256 (manifest_content i) |}.

Definition assemble (i : AssembleManifestInput) : M World Failure EvaluationInputManifest :=
  transaction (
    id ← new_id fresh;
    taken ← gets (fun w => w_manifests w !! id);
    _ ← guard_throw (bool_decide (is_Some taken)) UniqueViolation;
    _ ← modify (fun w => put_manifests (<[id := manifest_row id i]> (w_manifests w)) w);
    mret (manifest_row id i)).
End Tools.
End Tools.
