(* ===== verification/AgentPlanner.v ===== *)
(** * The bounded planner

    src/agent-runtime/agent-planner.ts: a local model chooses one of two graph
    edges.  Its answer is a JSON value checked against a strict schema; the
    request itself is a call.  Confidences are binary64 numbers, stored in basis
    points. *)

From Stdlib Require Import Ascii SpecFloat.
From stdpp Require Import gmap strings list.
From S2P Require Import Prelude BudgetLedger PolicyDsl PolicyDigest PolicyResolver PolicyEvaluation PolicyActivation Concurrency ProviderTables Consent ProviderPlatform ProviderDispatch WebhookGuard Outbox Communications AgentTables.

Module Planner.
Import Threads Agent.

Definition AGENT_PLANNER_PROMPT_VERSION : string := "lending-operations-planner-v1".

Record AgentPlannerPort := {
  pl_tokenBudgetUnits : Z;
  pl_minimumConfidenceBasisPoints : Z;
  pl_modelVersion : string }.

Record AgentPlannerResult := {
  pn_nextAction : AgentPlannerAction;
  pn_reasonCode : PlannerReason;
  pn_confidence : spec_float;
  pn_modelVersion : string;
  pn_promptVersion : string;
  pn_requestDigest : string;
  pn_responseDigest : string;
  pn_accountedTokenUnits : Z }.

Definition action_text (a : AgentPlannerAction) : string :=
  match a with EVALUATE_POLICY => "EVALUATE_POLICY" | REQUEST_HUMAN_REVIEW => "REQUEST_HUMAN_REVIEW" end.
Definition reason_code_text (r : PlannerReason) : string :=
  match r with
  | POLICY_EVALUATION_REQUIRED => "POLICY_EVALUATION_REQUIRED"
  | HUMAN_REVIEW_REQUIRED => "HUMAN_REVIEW_REQUIRED"
  end.

Definition expected_reason (a : AgentPlannerAction) : PlannerReason :=
  match a with EVALUATE_POLICY => POLICY_EVALUATION_REQUIRED | REQUEST_HUMAN_REVIEW => HUMAN_REVIEW_REQUIRED end.

(** [z.enum([...])] *)
Definition parse_action (v : Dsl.value) : option AgentPlannerAction :=
  match v with
  | Dsl.VString s => if String.eqb s "EVALUATE_POLICY" then Some EVALUATE_POLICY
                     else if String.eqb s "REQUEST_HUMAN_REVIEW" then Some REQUEST_HUMAN_REVIEW else None
  | _ => None
  end.
Definition parse_reason (v : Dsl.value) : option PlannerReason :=
  match v with
  | Dsl.VString s => if String.eqb s "POLICY_EVALUATION_REQUIRED" then Some POLICY_EVALUATION_REQUIRED
                     else if String.eqb s "HUMAN_REVIEW_REQUIRED" then Some HUMAN_REVIEW_REQUIRED else None
  | _ => None
  end.

Definition zero : spec_float := Dsl.f64_of_Z 0.
Definition one : spec_float := Dsl.f64_of_Z 1.

(** [z.number().min(0).max(1)] *)
Definition parse_confidence (v : Dsl.value) : option spec_float :=
  match v with Dsl.VNumber x => if SFleb zero x && SFleb x one then Some x else None | _ => None end.

(** [plannerResponseSchema.safeParse]: a strict object whose reason matches
    its action. *)
Definition parse_response (v : Dsl.value) : option (AgentPlannerAction * PlannerReason * spec_float) :=
  match v with
  | Dsl.VObject props =>
      if forallb (includes ["nextAction"; "reasonCode"; "confidence"]) props.*1 then
        match parse_action (Dsl.get props "nextAction"), parse_reason (Dsl.get props "reasonCode"),
              parse_confidence (Dsl.get props "confidence") with
        | Some a, Some r, Some c => if bool_decide (r = expected_reason a) then Some (a, r, c) else None
        | _, _, _ => None
        end
      else None
  | _ => None
  end.

(** [Math.round(x)]: the nearest integer, halves upwards. *)
Definition math_round (x : spec_float) : Z :=
  match x with
  | S754_finite s m e =>
      let v := if s : bool then Zneg m else Zpos m in
      if 0 <=? e then v * 2 ^ e else (2 * v + 2 ^ (- e)) / 2 ^ (1 - e)
  | _ => 0
  end.

Definition to_basis_points (confidence : spec_float) : Z :=
  math_round (Dsl.f64_mul confidence (Dsl.f64_of_Z 10000)).
Definition of_basis_points (n : Z) : spec_float := Dsl.f64_div (Dsl.f64_of_Z n) (Dsl.f64_of_Z 10000).

Section Plan.
(** [createHash('sha256').update(JSON.stringify(value)).digest('hex')] *)
Context (digest : Dsl.value -> string).

Definition control_state : Dsl.value :=
  Dsl.VObject [("consentValid", Dsl.VBool true); ("evidenceComplete", Dsl.VBool true);
    ("availableActions", Dsl.VArray [Dsl.VString "EVALUATE_POLICY"; Dsl.VString "REQUEST_HUMAN_REVIEW"])].

Definition plan (p : AgentPlannerPort) : prog AgentPlannerResult :=
  reply ← call AskModel;
  match reply with
  | ModelSaid ModelTimedOut => fail (PlannerFailure TIMEOUT)
  | ModelSaid ModelUnavailable => fail (PlannerFailure UNAVAILABLE)
  | ModelSaid ModelHttpError => fail (PlannerFailure PROVIDER_ERROR)
  | ModelSaid ModelNotJson => fail (PlannerFailure MALFORMED_OUTPUT)
  | ModelSaid (ModelAnswer content) =>
      match parse_response content with
      | None => fail (PlannerFailure MALFORMED_OUTPUT)
      | Some (a, r, c) =>
          mret {| pn_nextAction := a; pn_reasonCode := r; pn_confidence := c;
                  pn_modelVersion := pl_modelVersion p; pn_promptVersion := AGENT_PLANNER_PROMPT_VERSION;
                  pn_requestDigest := digest (Dsl.VObject
                    [("promptVersion", Dsl.VString AGENT_PLANNER_PROMPT_VERSION); ("controlState", control_state)]);
                  pn_responseDigest := digest (Dsl.VObject
                    [("nextAction", Dsl.VString (action_text a)); ("reasonCode", Dsl.VString (reason_code_text r));
                     ("confidence", Dsl.VNumber c)]);
                  pn_accountedTokenUnits := pl_tokenBudgetUnits p |}
      end
  | _ => fail (PlannerFailure UNAVAILABLE)
  end.
End Plan.

End Planner.
