(* ===== verification/AgentRuntime.v ===== *)
(** * The agent runtime

    src/agent-runtime/langgraph/lending-operations-agent-runtime.ts: one
    bounded run of the agent on a case.  Its five nodes run in sequence until
    one of them sets a route; every tool call is budgeted through the ledger
    ([invokeBudgetedTool]).

    The run is a [Threads.Prog] over the [World]: anything may happen between
    two of its statements.  [gap] is what others commit inside the ledger's own
    reservation transaction. *)

From Stdlib Require Import Ascii SpecFloat.
From stdpp Require Import gmap strings list pretty.
From S2P Require Import Prelude BudgetLedger PolicyDsl PolicyDigest PolicyResolver PolicyEvaluation PolicyActivation Concurrency ProviderTables Consent ProviderPlatform ProviderDispatch WebhookGuard Outbox Communications AgentTables AgentTools AgentPlanner.

Module Runtime.
Import Threads Agent Tools Planner.
#[local] Existing Instance Ledger.AgentBudgetReservationStatus_eq_dec.

(** ** The state of a run *)

Record HumanReviewState := { rv_requested : bool; rv_reason : option string; rv_category : option MandatoryReviewCategory }.

(** The summaries that no code fills or reads are left out. *)
Record LendingOperationsAgentState := {
  ag_tenantId : string;
  ag_caseId : string;
  ag_caseVersion : Z;
  ag_workflowRunId : string;
  ag_consentStatus : Consent.ConsentStatus;
  ag_attemptedTools : list ToolAttemptSummary;
  ag_policyBindingId : option string;
  ag_modelVersion : option string;
  ag_promptVersion : option string;
  ag_modelAndPromptManifestId : option string;
  ag_remainingStepBudget : Z;
  ag_remainingDurationBudgetMs : Z;
  ag_remainingTokenBudget : Z;
  ag_remainingProviderCallBudget : Z;
  ag_remainingCostBudgetMinorUnits : Z;
  ag_budgetCurrency : string;
  ag_budgetLedgerId : option string;
  ag_budgetLedgerVersion : Z;
  ag_runStartedAt : Z;
  ag_runDeadlineAt : Z;
  ag_proposedAction : option AgentAction;
  ag_reviewState : option HumanReviewState }.

Record AgentRunBudget := {
  bg_stepBudget : Z;
  bg_tokenBudget : Z;
  bg_providerCallBudget : Z;
  bg_costBudgetMinorUnits : Z;
  bg_currency : string }.

Record AgentRunInput := {
  ip_initialState : LendingOperationsAgentState;
  ip_allowedTools : list string;
  ip_budget : AgentRunBudget;
  ip_runDeadlineAt : Z }.

Record AgentRunResult := { rr_finalState : LendingOperationsAgentState; rr_route : AgentRunRoute }.

(** [{ ...state, attemptedTools }] and the like. *)
Definition with_attempts (l : list ToolAttemptSummary) (s : LendingOperationsAgentState) : LendingOperationsAgentState :=
  {| ag_tenantId := ag_tenantId s; ag_caseId := ag_caseId s; ag_caseVersion := ag_caseVersion s;
     ag_workflowRunId := ag_workflowRunId s; ag_consentStatus := ag_consentStatus s; ag_attemptedTools := l;
     ag_policyBindingId := ag_policyBindingId s; ag_modelVersion := ag_modelVersion s;
     ag_promptVersion := ag_promptVersion s; ag_modelAndPromptManifestId := ag_modelAndPromptManifestId s;
     ag_remainingStepBudget := ag_remainingStepBudget s; ag_remainingDurationBudgetMs := ag_remainingDurationBudgetMs s;
     ag_remainingTokenBudget := ag_remainingTokenBudget s;
     ag_remainingProviderCallBudget := ag_remainingProviderCallBudget s;
     ag_remainingCostBudgetMinorUnits := ag_remainingCostBudgetMinorUnits s;
     ag_budgetCurrency := ag_budgetCurrency s; ag_budgetLedgerId := ag_budgetLedgerId s;
     ag_budgetLedgerVersion := ag_budgetLedgerVersion s; ag_runStartedAt := ag_runStartedAt s;
     ag_runDeadlineAt := ag_runDeadlineAt s; ag_proposedAction := ag_proposedAction s;
     ag_reviewState := ag_reviewState s |}.

Definition applyBudgetSnapshot (s : LendingOperationsAgentState) (b : Ledger.AgentBudgetSnapshot)
  : LendingOperationsAgentState :=
  {| ag_tenantId := ag_tenantId s; ag_caseId := ag_caseId s; ag_caseVersion := ag_caseVersion s;
     ag_workflowRunId := ag_workflowRunId s; ag_consentStatus := ag_consentStatus s;
     ag_attemptedTools := ag_attemptedTools s;
     ag_policyBindingId := ag_policyBindingId s; ag_modelVersion := ag_modelVersion s;
     ag_promptVersion := ag_promptVersion s; ag_modelAndPromptManifestId := ag_modelAndPromptManifestId s;
     ag_remainingStepBudget := Ledger.remainingSteps b;
     ag_remainingDurationBudgetMs := Ledger.remainingDurationMs b;
     ag_remainingTokenBudget := Ledger.remainingTokens b;
     ag_remainingProviderCallBudget := Ledger.remainingProviderCalls b;
     ag_remainingCostBudgetMinorUnits := Ledger.remainingCostMinorUnits b;
     ag_budgetCurrency := Ledger.sn_currency b; ag_budgetLedgerId := Some (Ledger.sn_ledgerId b);
     ag_budgetLedgerVersion := Ledger.sn_version b; ag_runStartedAt := Ledger.sn_startedAt b;
     ag_runDeadlineAt := Ledger.sn_deadlineAt b; ag_proposedAction := ag_proposedAction s;
     ag_reviewState := ag_reviewState s |}.

(** The other fields a node sets. *)
Definition with_outcome (binding modelVersion promptVersion manifest : option string)
    (action : option AgentAction) (review : option HumanReviewState) (s : LendingOperationsAgentState)
  : LendingOperationsAgentState :=
  {| ag_tenantId := ag_tenantId s; ag_caseId := ag_caseId s; ag_caseVersion := ag_caseVersion s;
     ag_workflowRunId := ag_workflowRunId s; ag_consentStatus := ag_consentStatus s;
     ag_attemptedTools := ag_attemptedTools s;
     ag_policyBindingId := binding; ag_modelVersion := modelVersion;
     ag_promptVersion := promptVersion; ag_modelAndPromptManifestId := manifest;
     ag_remainingStepBudget := ag_remainingStepBudget s; ag_remainingDurationBudgetMs := ag_remainingDurationBudgetMs s;
     ag_remainingTokenBudget := ag_remainingTokenBudget s;
     ag_remainingProviderCallBudget := ag_remainingProviderCallBudget s;
     ag_remainingCostBudgetMinorUnits := ag_remainingCostBudgetMinorUnits s;
     ag_budgetCurrency := ag_budgetCurrency s; ag_budgetLedgerId := ag_budgetLedgerId s;
     ag_budgetLedgerVersion := ag_budgetLedgerVersion s; ag_runStartedAt := ag_runStartedAt s;
     ag_runDeadlineAt := ag_runDeadlineAt s; ag_proposedAction := action; ag_reviewState := review |}.

Definition with_binding (b : option string) (s : LendingOperationsAgentState) :=
  with_outcome b (ag_modelVersion s) (ag_promptVersion s) (ag_modelAndPromptManifestId s) (ag_proposedAction s)
    (ag_reviewState s) s.
Definition with_model (version prompt manifest : string) (s : LendingOperationsAgentState) :=
  with_outcome (ag_policyBindingId s) (Some version) (Some prompt) (Some manifest) (ag_proposedAction s)
    (ag_reviewState s) s.
Definition with_action (a : AgentAction) (s : LendingOperationsAgentState) :=
  with_outcome (ag_policyBindingId s) (ag_modelVersion s) (ag_promptVersion s) (ag_modelAndPromptManifestId s)
    (Some a) (ag_reviewState s) s.
Definition with_review (r : HumanReviewState) (s : LendingOperationsAgentState) :=
  with_outcome (ag_policyBindingId s) (ag_modelVersion s) (ag_promptVersion s) (ag_modelAndPromptManifestId s)
    (ag_proposedAction s) (Some r) s.

Record RuntimeState := {
  st_agentState : LendingOperationsAgentState;
  st_route : option AgentRunRoute;
  st_policyEvaluation : option EvaluatePolicyResult }.

Definition continue_with (s : LendingOperationsAgentState) (state : RuntimeState) : RuntimeState :=
  {| st_agentState := s; st_route := st_route state; st_policyEvaluation := st_policyEvaluation state |}.
Definition finish (s : LendingOperationsAgentState) (route : AgentRunRoute) (state : RuntimeState) : RuntimeState :=
  {| st_agentState := s; st_route := Some route; st_policyEvaluation := st_policyEvaluation state |}.

Definition routeMandatoryReview (s : LendingOperationsAgentState) (trigger : MandatoryReviewTrigger)
    (state : RuntimeState) : RuntimeState :=
  finish (with_review {| rv_requested := true; rv_reason := Some (tg_reason trigger);
                         rv_category := Some (tg_category trigger) |} s)
    (match tg_route trigger with
     | INTERRUPT_FOR_REVIEW => INTERRUPTED_FOR_REVIEW
     | ROUTE_TO_MANUAL_REVIEW => ROUTED_TO_MANUAL_REVIEW
     end) state.

Definition join_key (parts : list string) : string := String.concat ":" parts.

Definition budget_code_text (c : Ledger.AgentBudgetFailureCode) : string :=
  match c with
  | Ledger.BUDGET_EXHAUSTED => "BUDGET_EXHAUSTED" | Ledger.DEADLINE_EXCEEDED => "DEADLINE_EXCEEDED"
  | Ledger.LEDGER_VERSION_CONFLICT => "LEDGER_VERSION_CONFLICT" | Ledger.LEDGER_CLOSED => "LEDGER_CLOSED"
  | Ledger.RESERVATION_CONFLICT => "RESERVATION_CONFLICT"
  end.

Definition reservation_text (s : Ledger.AgentBudgetReservationStatus) : string :=
  match s with
  | Ledger.Reserved => "RESERVED" | Ledger.Committed => "COMMITTED" | Ledger.Released => "RELEASED"
  | Ledger.Unknown => "UNKNOWN"
  end.

(** [catch (error) { if (!(error instanceof AgentBudgetError)) throw error; ... }] *)
Definition on_budget_error {A} (h : Ledger.AgentBudgetFailureCode -> string -> prog A) (e : Failure) : prog A :=
  match e with
  | BudgetFailure (Ledger.AgentBudgetError code message) => h code message
  | _ => fail e
  end.

Definition budget_trigger (code : Ledger.AgentBudgetFailureCode) (message : string) : MandatoryReviewTrigger :=
  classifyMandatoryReviewTrigger BUDGET_OR_DEADLINE_EXHAUSTED (budget_code_text code +:+ ": " +:+ message).

Definition consent_text (c : Consent.ConsentStatus) : string :=
  match c with
  | Consent.VALID => "VALID" | Consent.MISSING => "MISSING" | Consent.EXPIRED => "EXPIRED"
  | Consent.REVOKED => "REVOKED"
  end.

Section Run.
Context (message_of : Failure -> string) (sha256 : Dsl.value -> string) (digest : Dsl.value -> string).
Context (iso : Z -> string) (collation : string -> Z) (reason_text : Resolver.Unresolved -> string).
Context (rule_text : Dsl.Reason -> string) (number : string -> spec_float).
Context (fresh : nat -> string) (hmac : string -> string -> string) (json : Dsl.value -> string)
  (outboxSigningSecret : string).
Context {RES : Evaluation.PolicyResolver} (policy_env : nat -> Evaluation.PolicyDb -> Evaluation.PolicyDb)
  (evaluation_call : World -> Evaluation.Call) (gap : Ledger.DB -> Ledger.DB).
Context (agentPlanner : option AgentPlannerPort).

Definition allTools : list AgentTool :=
  [checkCaseCompletenessTool;
   evaluatePolicyTool sha256 iso collation reason_text policy_env evaluation_call;
   createConditionTool fresh hmac json outboxSigningSecret;
   draftInformationRequestTool sha256 fresh].

Definition reserve (i : Ledger.ReserveInput) : prog Ledger.Receipt :=
  atomically (on_budget fresh (fun clk id => Ledger.reserve clk gap id i)).
Definition commit (tenantId reservationId : string) (actual : option Z) : prog Ledger.Receipt :=
  atomically (on_budget fresh (fun clk _ => Ledger.commit clk
    {| Ledger.ci_tenantId := tenantId; Ledger.ci_reservationId := reservationId;
       Ledger.ci_actualCostMinorUnits := actual; Ledger.ci_requireUnknown := false;
       Ledger.ci_resolvedBy := None; Ledger.ci_resolutionNote := None |})).
Definition markUnknown (tenantId reservationId : string) : prog Ledger.Receipt :=
  atomically (on_budget fresh (fun clk _ => Ledger.markUnknown clk tenantId reservationId)).
Definition release (tenantId reservationId : string) : prog Ledger.Receipt :=
  atomically (on_budget fresh (fun clk _ => Ledger.release clk tenantId reservationId None)).

(** [recordAttempt]; reads the clock. *)
Definition recordAttempt (s : LendingOperationsAgentState) (toolName : string) (outcome : ToolOutcome)
    (detail : option string) : prog LendingOperationsAgentState :=
  now ← atomically (gets date_now);
  mret (with_attempts (ag_attemptedTools s ++
    [{| ta_toolName := toolName; ta_attemptedAt := now; ta_outcome := outcome; ta_detail := detail |}]) s).

Definition exceeded_at (now : Z) (s : LendingOperationsAgentState) : option MandatoryReviewTrigger :=
  if ag_remainingStepBudget s <=? 0
  then Some (classifyMandatoryReviewTrigger BUDGET_OR_DEADLINE_EXHAUSTED "remainingStepBudget exhausted")
  else if (ag_remainingDurationBudgetMs s <=? 0) || (ag_runDeadlineAt s <=? now)
  then Some (classifyMandatoryReviewTrigger BUDGET_OR_DEADLINE_EXHAUSTED
               ("runDeadlineAt (" +:+ iso (ag_runDeadlineAt s) +:+ ") exceeded"))
  else None.

Definition budgetExceeded (s : LendingOperationsAgentState) : prog (option MandatoryReviewTrigger) :=
  now ← atomically (gets date_now);
  mret (exceeded_at now s).

Definition consentInvalid (s : LendingOperationsAgentState) : option MandatoryReviewTrigger :=
  match ag_consentStatus s with
  | Consent.VALID => None
  | c => Some (classifyMandatoryReviewTrigger CONSENT_INVALID
                 ("consentStatus is " +:+ Comms.quote (consent_text c) +:+ ", not VALID"))
  end.

(** ** One run *)

Section WithInput.
Context (input : AgentRunInput) (registry : AgentToolRegistry).

Definition toolContext (reservationId : option string) : AgentToolContext :=
  {| tc_tenantId := ag_tenantId (ip_initialState input); tc_caseId := ag_caseId (ip_initialState input);
     tc_budgetReservationId := reservationId |}.

Inductive BudgetedToolResult :=
| Invoked (agentState : LendingOperationsAgentState) (invocation : ToolInvocationResult)
| NotInvoked (agentState : LendingOperationsAgentState) (trigger : MandatoryReviewTrigger).

Definition tool_key (s : LendingOperationsAgentState) (toolName : string) : string :=
  join_key [ag_workflowRunId s; pretty (ag_caseVersion s); toolName; pretty (length (ag_attemptedTools s))].

Definition tool_units (usage : AgentToolBudget) : Ledger.AgentBudgetUnits :=
  {| Ledger.stepUnits := 1; Ledger.tokenUnits := tb_tokenUnits usage;
     Ledger.providerCallUnits := tb_providerCallUnits usage; Ledger.costMinorUnits := tb_costMinorUnits usage |}.

Definition find_tool (toolName : string) : option AgentTool :=
  List.find (fun t => String.eqb (tl_name t) toolName) allTools.

(** [definition?.sideEffect !== 'NONE'] *)
Definition has_side_effect (definition : option AgentTool) : bool :=
  match definition with Some t => negb (bool_decide (tl_sideEffect t = NONE)) | None => true end.

Definition replay_trigger (toolName : string) (status : Ledger.AgentBudgetReservationStatus) : MandatoryReviewTrigger :=
  classifyMandatoryReviewTrigger TOOL_EXECUTION_FAILURE
    (toolName +:+ " has a replayed " +:+ reservation_text status +:+
     " side-effect reservation requiring reconciliation").

Definition budgeted_call (s : LendingOperationsAgentState) (toolName : string) (args : ToolArgs)
  : prog BudgetedToolResult :=
  let definition := find_tool toolName in
  let usage := match definition with Some t => tl_budget t | None => no_budget end in
  reservation ← reserve
    {| Ledger.ri_tenantId := ag_tenantId s; Ledger.ri_ledgerId := default "" (ag_budgetLedgerId s);
       Ledger.ri_idempotencyKey := tool_key s toolName; Ledger.ri_expectedVersion := ag_budgetLedgerVersion s;
       Ledger.ri_units := tool_units usage |};
  let reservedState := applyBudgetSnapshot s (Ledger.rc_ledger reservation) in
  if Ledger.rc_replayed reservation && has_side_effect definition then
    reservedState ←
      (if bool_decide (Ledger.rc_status reservation = Ledger.Reserved) then
         unknown ← markUnknown (ag_tenantId s) (Ledger.rc_reservationId reservation);
         mret (applyBudgetSnapshot reservedState (Ledger.rc_ledger unknown))
       else mret reservedState);
    mret (NotInvoked reservedState (replay_trigger toolName (Ledger.rc_status reservation)))
  else
    invocation ← invokeTool message_of registry toolName
      (toolContext (Some (Ledger.rc_reservationId reservation))) args;
    committed ← commit (ag_tenantId s) (Ledger.rc_reservationId reservation) (Some (tb_costMinorUnits usage));
    mret (Invoked (applyBudgetSnapshot reservedState (Ledger.rc_ledger committed)) invocation).

Definition invokeBudgetedTool (s : LendingOperationsAgentState) (toolName : string) (args : ToolArgs)
  : prog BudgetedToolResult :=
  exceeded ← budgetExceeded s;
  match exceeded with
  | Some trigger => mret (NotInvoked s trigger)
  | None => pcatch (budgeted_call s toolName args)
              (on_budget_error (fun code message => mret (NotInvoked s (budget_trigger code message))))
  end.

Inductive BudgetedStep :=
| Stepped (agentState : LendingOperationsAgentState)
| NotStepped (agentState : LendingOperationsAgentState) (trigger : MandatoryReviewTrigger).

Definition consumeBudgetedRuntimeStep (s : LendingOperationsAgentState) (stepName : string) : prog BudgetedStep :=
  exceeded ← budgetExceeded s;
  match exceeded with
  | Some trigger => mret (NotStepped s trigger)
  | None =>
      pcatch
        (reservation ← reserve
           {| Ledger.ri_tenantId := ag_tenantId s; Ledger.ri_ledgerId := default "" (ag_budgetLedgerId s);
              Ledger.ri_idempotencyKey := tool_key s ("runtime-" +:+ stepName);
              Ledger.ri_expectedVersion := ag_budgetLedgerVersion s; Ledger.ri_units := tool_units no_budget |};
         committed ← commit (ag_tenantId s) (Ledger.rc_reservationId reservation) None;
         mret (Stepped (applyBudgetSnapshot s (Ledger.rc_ledger committed))))
        (on_budget_error (fun code message => mret (NotStepped s (budget_trigger code message))))
  end.

(** *** Nodes *)

Definition verifyConsentNode (state : RuntimeState) : prog RuntimeState :=
  mret (match consentInvalid (st_agentState state) with
        | Some trigger => routeMandatoryReview (st_agentState state) trigger state
        | None => state
        end).

Definition tool_failed (text : string) (invocation : ToolInvocationResult) : MandatoryReviewTrigger :=
  classifyMandatoryReviewTrigger TOOL_EXECUTION_FAILURE (text +:+ default "undefined" (tv_error invocation)).

Definition checkCompletenessNode (state : RuntimeState) : prog RuntimeState :=
  budgeted ← invokeBudgetedTool (st_agentState state) "check_case_completeness" CheckCaseCompletenessArgs;
  match budgeted with
  | NotInvoked s trigger => mret (routeMandatoryReview s trigger state)
  | Invoked s invocation =>
      nextState ← recordAttempt s "check_case_completeness" (tv_outcome invocation) (tv_error invocation);
      match tv_outcome invocation, tv_result invocation with
      | SUCCESS, Some (CompletenessResult complete _) =>
          if negb complete then mret (finish nextState AWAITING_INFORMATION state)
          else mret (continue_with nextState state)
      | _, _ => mret (routeMandatoryReview nextState
                       (tool_failed "check_case_completeness unavailable: " invocation) state)
      end
  end.

(** *** The planner node *)

Definition plannerResultFromRecord (r : AgentModelInvocation) : AgentPlannerResult :=
  {| pn_nextAction := mi_nextAction r; pn_reasonCode := mi_reasonCode r;
     pn_confidence := of_basis_points (mi_confidenceBasisPoints r); pn_modelVersion := mi_modelVersion r;
     pn_promptVersion := mi_promptVersion r; pn_requestDigest := mi_requestDigest r;
     pn_responseDigest := mi_responseDigest r; pn_accountedTokenUnits := mi_accountedTokenUnits r |}.

(** [/^[0-9a-f]{64}$/] *)
Definition is_hex_char (c : ascii) : bool :=
  let n := nat_of_ascii c in (((48 <=? n) && (n <=? 57)) || ((97 <=? n) && (n <=? 102)))%nat.
Definition is_digest (s : string) : bool :=
  (String.length s =? 64)%nat && forallb is_hex_char (String.list_ascii_of_string s).

Definition matches_reservation (p : AgentPlannerPort) (r : AgentPlannerResult) : bool :=
  String.eqb (pn_modelVersion r) (pl_modelVersion p) &&
  String.eqb (pn_promptVersion r) AGENT_PLANNER_PROMPT_VERSION &&
  (pn_accountedTokenUnits r =? pl_tokenBudgetUnits p) &&
  bool_decide (pn_reasonCode r = expected_reason (pn_nextAction r)) &&
  Dsl.isFinite (pn_confidence r) && SFleb zero (pn_confidence r) && SFleb (pn_confidence r) one &&
  is_digest (pn_requestDigest r) && is_digest (pn_responseDigest r).

Definition assertPlannerResultMatchesReservation (p : AgentPlannerPort) (r : AgentPlannerResult) : result Failure unit :=
  if matches_reservation p r then Ok tt else Err (PlannerFailure MALFORMED_OUTPUT).

Definition invocation_key (tenantId workflowRunId : string) (caseVersion : Z) (modelVersion promptVersion : string)
    (r : AgentModelInvocation) : bool :=
  String.eqb (mi_tenantId r) tenantId && String.eqb (mi_workflowRunId r) workflowRunId &&
  (mi_caseVersion r =? caseVersion) && String.eqb (mi_modelVersion r) modelVersion &&
  String.eqb (mi_promptVersion r) promptVersion.

Definition findPlannerInvocation (p : AgentPlannerPort) (w : World) : option AgentModelInvocation :=
  let s := ip_initialState input in
  find_row (invocation_key (ag_tenantId s) (ag_workflowRunId s) (ag_caseVersion s) (pl_modelVersion p)
              AGENT_PLANNER_PROMPT_VERSION) (w_invocations w).

(** The CHECK constraints of agent_model_invocations. *)
Definition invocation_checks (r : AgentModelInvocation) : bool :=
  bool_decide (mi_reasonCode r = expected_reason (mi_nextAction r)) &&
  (0 <=? mi_confidenceBasisPoints r) && (mi_confidenceBasisPoints r <=? 10000) && (0 <? mi_accountedTokenUnits r).

Definition insert_invocation (result : AgentPlannerResult) : M World Failure AgentModelInvocation :=
  let s := ip_initialState input in
  transaction (
    id ← new_id fresh;
    let r := {| mi_id := id; mi_tenantId := ag_tenantId s; mi_caseId := ag_caseId s; mi_caseVersion := ag_caseVersion s;
                mi_workflowRunId := ag_workflowRunId s; mi_modelVersion := pn_modelVersion result;
                mi_promptVersion := pn_promptVersion result; mi_nextAction := pn_nextAction result;
                mi_reasonCode := pn_reasonCode result;
                mi_confidenceBasisPoints := to_basis_points (pn_confidence result);
                mi_accountedTokenUnits := pn_accountedTokenUnits result;
                mi_requestDigest := pn_requestDigest result; mi_responseDigest := pn_responseDigest result |} in
    taken ← gets (fun w => (w_invocations w !! id,
      find_row (invocation_key (mi_tenantId r) (mi_workflowRunId r) (mi_caseVersion r) (mi_modelVersion r)
                  (mi_promptVersion r)) (w_invocations w)));
    _ ← guard_throw (bool_decide (is_Some taken.1) || bool_decide (is_Some taken.2)) UniqueViolation;
    _ ← guard_throw (negb (invocation_checks r)) (OtherError "check constraint violated");
    _ ← modify (fun w => put_invocations (<[id := r]> (w_invocations w)) w);
    mret r).

Definition persistPlannerInvocation (p : AgentPlannerPort) (result : AgentPlannerResult) : prog AgentModelInvocation :=
  pcatch (atomically (insert_invocation result))
    (fun e => match e with
              | UniqueViolation =>
                  winner ← atomically (gets (findPlannerInvocation p));
                  match winner with Some r => mret r | None => fail e end
              | _ => fail e
              end).

Definition planner_code_text (c : AgentPlannerErrorCode) : string :=
  match c with
  | UNAVAILABLE => "UNAVAILABLE" | TIMEOUT => "TIMEOUT" | PROVIDER_ERROR => "PROVIDER_ERROR"
  | MALFORMED_OUTPUT => "MALFORMED_OUTPUT"
  end.

Definition planner_key (p : AgentPlannerPort) (s : LendingOperationsAgentState) : string :=
  join_key [ag_workflowRunId s; pretty (ag_caseVersion s); "agent-planner"; pl_modelVersion p;
            AGENT_PLANNER_PROMPT_VERSION].

(** The model is asked only when no answer of this run is on record. *)
Definition obtain_plan (p : AgentPlannerPort) (record : option AgentModelInvocation)
  : prog (AgentModelInvocation * AgentPlannerResult) :=
  match record with
  | Some r => mret (r, plannerResultFromRecord r)
  | None =>
      result ← plan digest p;
      _ ← Done (assertPlannerResultMatchesReservation p result);
      r ← persistPlannerInvocation p result;
      mret (r, plannerResultFromRecord r)
  end.

Definition planned (p : AgentPlannerPort) (reservation : Ledger.Receipt) (record : option AgentModelInvocation)
    (state : RuntimeState) : prog RuntimeState :=
  x ← obtain_plan p record;
  let '(r, result) := x in
  committed ← (if bool_decide (Ledger.rc_status reservation = Ledger.Committed) then mret reservation
               else commit (ag_tenantId (st_agentState state)) (Ledger.rc_reservationId reservation) None);
  plannedState ← recordAttempt (applyBudgetSnapshot (st_agentState state) (Ledger.rc_ledger committed))
    "agent_planner" SUCCESS
    (Some (action_text (pn_nextAction result) +:+ ":" +:+ reason_code_text (pn_reasonCode result)));
  let withManifest := with_model (pn_modelVersion result) (pn_promptVersion result) (mi_id r) plannedState in
  let confidenceBasisPoints := to_basis_points (pn_confidence result) in
  if bool_decide (pn_nextAction result = REQUEST_HUMAN_REVIEW)
  then mret (routeMandatoryReview withManifest (classifyMandatoryReviewTrigger MODEL_UNCERTAINTY
               ("bounded planner requested review (" +:+ reason_code_text (pn_reasonCode result) +:+ ")")) state)
  else if confidenceBasisPoints <? pl_minimumConfidenceBasisPoints p
  then mret (routeMandatoryReview withManifest (classifyMandatoryReviewTrigger MODEL_UNCERTAINTY
               ("bounded planner confidence " +:+ pretty confidenceBasisPoints +:+ "bp is below " +:+
                pretty (pl_minimumConfidenceBasisPoints p) +:+ "bp")) state)
  else mret (continue_with withManifest state).

Definition planner_failed (reservation : Ledger.Receipt) (state : RuntimeState) (e : Failure) : prog RuntimeState :=
  _ ← (if bool_decide (Ledger.rc_status reservation = Ledger.Reserved)
       then _ ← release (ag_tenantId (st_agentState state)) (Ledger.rc_reservationId reservation); mret tt
       else mret tt);
  let code := match e with PlannerFailure c => planner_code_text c | _ => "PLANNER_RUNTIME_FAILURE" end in
  failedState ← recordAttempt (st_agentState state) "agent_planner" FAILURE (Some code);
  mret (routeMandatoryReview failedState
    (classifyMandatoryReviewTrigger
       (match e with PlannerFailure MALFORMED_OUTPUT => MODEL_OUTPUT_INVALID | _ => TOOL_EXECUTION_FAILURE end)
       ("bounded planner failed (" +:+ code +:+ ")")) state).

Definition planNextActionNode (state : RuntimeState) : prog RuntimeState :=
  match agentPlanner with
  | None => mret state
  | Some p =>
      let s := st_agentState state in
      reserved ← pcatch
        (r ← reserve {| Ledger.ri_tenantId := ag_tenantId s; Ledger.ri_ledgerId := default "" (ag_budgetLedgerId s);
                        Ledger.ri_idempotencyKey := planner_key p s;
                        Ledger.ri_expectedVersion := ag_budgetLedgerVersion s;
                        Ledger.ri_units := {| Ledger.stepUnits := 1; Ledger.tokenUnits := pl_tokenBudgetUnits p;
                                              Ledger.providerCallUnits := 0; Ledger.costMinorUnits := 0 |} |};
         mret (inl r))
        (on_budget_error (fun code message => mret (inr (budget_trigger code message))));
      match reserved with
      | inr trigger => mret (routeMandatoryReview s trigger state)
      | inl reservation =>
          record ← atomically (gets (findPlannerInvocation p));
          pcatch (planned p reservation record state) (planner_failed reservation state)
      end
  end.

(** *** Policy evaluation *)

Definition evaluatePolicyNode (state : RuntimeState) : prog RuntimeState :=
  exceeded ← budgetExceeded (st_agentState state);
  match exceeded with
  | Some trigger => mret (routeMandatoryReview (st_agentState state) trigger state)
  | None =>
      loanCase ← atomically (load_case (tc_tenantId (toolContext None)) (tc_caseId (toolContext None)));
      budgeted ← invokeBudgetedTool (st_agentState state) "evaluate_policy"
        (EvaluatePolicy {| ea_jurisdictionCode := lc_jurisdictionCode loanCase;
                           ea_productCode := Activation.loanTypeToProductCode (lc_loanType loanCase);
                           ea_lifecycleEvent := Activation.UNDERWRITING_REVIEW_LIFECYCLE_EVENT;
                           ea_applicationReceivedAt := lc_createdAt loanCase |});
      match budgeted with
      | NotInvoked s trigger => mret (routeMandatoryReview s trigger state)
      | Invoked s invocation =>
          nextState ← recordAttempt s "evaluate_policy" (tv_outcome invocation) (tv_error invocation);
          match tv_outcome invocation, tv_result invocation with
          | SUCCESS, Some (PolicyResult result) =>
              match er_status result with
              | Resolver.REVIEW_REQUIRED =>
                  let text := String.concat "; " (map reason_text (er_unresolvedReasons result)) in
                  mret (routeMandatoryReview nextState (classifyMandatoryReviewTrigger POLICY_AMBIGUITY
                          (if JS.truthy text then text else "policy review required")) state)
              | Resolver.RESOLVED =>
                  mret {| st_agentState := with_binding (er_policyBindingId result) nextState;
                          st_route := st_route state; st_policyEvaluation := Some result |}
              end
          | _, _ => mret (routeMandatoryReview nextState (tool_failed "evaluate_policy unavailable: " invocation) state)
          end
      end
  end.

(** *** The outcome *)

(** The newest income fact: [order: { observedAt: 'DESC' }]. *)
Definition latest_income (tenantId caseId : string) (w : World) : option Tables.EvidenceFact :=
  Tables.newest Tables.ev_observedAt
    (List.filter (fun f => String.eqb (Tables.ev_factType f) "INCOME") (case_facts tenantId caseId w)).

(** [(value as { monthlyIncome?: number } | undefined)?.monthlyIncome] *)
Definition monthly_income (fact : option Tables.EvidenceFact) : Dsl.value :=
  match fact with
  | Some f => match Tables.ev_value f with Dsl.VObject props => Dsl.get props "monthlyIncome" | _ => Dsl.VUndefined end
  | None => Dsl.VUndefined
  end.

Definition fact_context (c : LoanCase) (fact : option Tables.EvidenceFact) : Dsl.PolicyFactContext :=
  {| Dsl.application := [("monthly_income", Dsl.VNumber (number (lc_statedMonthlyIncome c)))];
     Dsl.evidence := [("verified_monthly_income", monthly_income fact)] |}.

Definition first_match (versions : list MatchedVersion) (facts : Dsl.PolicyFactContext)
  : option (MatchedVersion * Dsl.PolicyEvaluationOutcome) :=
  List.find (fun x => Dsl.ev_matched x.2) (map (fun v => (v, Dsl.evaluatePolicyRule (mv_rule v) facts)) versions).

Definition manifest_input (s : LendingOperationsAgentState) (evaluation : EvaluatePolicyResult)
    (evidence : list Tables.EvidenceFact) : AssembleManifestInput :=
  {| as_tenantId := ag_tenantId (ip_initialState input); as_caseId := ag_caseId (ip_initialState input);
     as_caseVersion := ag_caseVersion s; as_policyBindingId := default "" (ag_policyBindingId s);
     as_observedPolicyDependencyDigest := default "" (er_observedPolicyDependencyDigest evaluation);
     as_evaluatorVersion := Evaluation.RESOLVER_VERSION; as_evidence := evidence;
     as_modelAndPromptManifestId := ag_modelAndPromptManifestId s |}.

Definition condition_args (s : LendingOperationsAgentState) (evaluation : EvaluatePolicyResult)
    (version : MatchedVersion) (result : Dsl.PolicyEvaluationOutcome) (manifestId : string) : CreateConditionArgs :=
  {| ka_code := Dsl.oc_condition (Dsl.doc_outcome (mv_rule version));
     ka_description := rule_text (Dsl.ev_reason result); ka_policyVersionId := mv_policyVersionId version;
     ka_ruleId := mv_ruleId version; ka_policySnapshotId := er_policySnapshotId evaluation;
     ka_expectedCaseVersion := ag_caseVersion s; ka_evaluationManifestId := Some manifestId |}.

Definition remediation (version : MatchedVersion) (result : Dsl.PolicyEvaluationOutcome) : Comms.DraftCommunicationInput :=
  {| Comms.di_recipientRelationship := "BORROWER"; Comms.di_channel := "EMAIL"; Comms.di_locale := "en-US";
     Comms.di_templateKey := None; Comms.di_templateVersion := None; Comms.di_variables := [];
     Comms.di_freeformContent := Some ("A condition on your loan application requires attention: " +:+
       Dsl.oc_condition (Dsl.doc_outcome (mv_rule version)) +:+ ". " +:+ rule_text (Dsl.ev_reason result));
     Comms.di_hasAttachments := false |}.

(** After the condition was opened. *)
Definition draft_remediation (s : LendingOperationsAgentState) (version : MatchedVersion)
    (result : Dsl.PolicyEvaluationOutcome) (conditionId : string) (state : RuntimeState) : prog RuntimeState :=
  budgeted ← invokeBudgetedTool s "draft_information_request" (DraftInformationRequest (remediation version result));
  match budgeted with
  | NotInvoked s trigger => mret (routeMandatoryReview s trigger state)
  | Invoked s invocation =>
      withDraftAttempt ← recordAttempt s "draft_information_request" (tv_outcome invocation) (tv_error invocation);
      match tv_outcome invocation, tv_result invocation with
      | SUCCESS, Some (DraftResult messageId _ _) =>
          mret (finish (with_action {| aa_tool := "create_condition"; aa_conditionId := conditionId;
                                       aa_code := Dsl.oc_condition (Dsl.doc_outcome (mv_rule version));
                                       aa_communicationMessageId := messageId |} withDraftAttempt)
                  PROPOSED_ACTION state)
      | _, _ => mret (routeMandatoryReview withDraftAttempt
                       (tool_failed "draft_information_request failed: " invocation) state)
      end
  end.

Definition open_condition (stepped : LendingOperationsAgentState) (evaluation : EvaluatePolicyResult)
    (version : MatchedVersion) (result : Dsl.PolicyEvaluationOutcome) (manifestId : string) (state : RuntimeState)
  : prog RuntimeState :=
  budgeted ← invokeBudgetedTool stepped "create_condition"
    (CreateCondition (condition_args (st_agentState state) evaluation version result manifestId));
  match budgeted with
  | NotInvoked s trigger => mret (routeMandatoryReview s trigger state)
  | Invoked s invocation =>
      nextState ← recordAttempt s "create_condition" (tv_outcome invocation) (tv_error invocation);
      match tv_outcome invocation, tv_result invocation with
      | SUCCESS, Some (ConditionResult (CREATED conditionId)) =>
          draft_remediation nextState version result conditionId state
      | SUCCESS, Some (ConditionResult STALE_CASE_VERSION) =>
          fail (StaleCaseVersion (ag_caseId (ip_initialState input)) (ag_caseVersion (st_agentState state)))
      | _, _ => mret (routeMandatoryReview nextState (tool_failed "create_condition failed: " invocation) state)
      end
  end.

Definition read_facts (w : World) : option LoanCase * option Tables.EvidenceFact :=
  (find_case (ag_tenantId (ip_initialState input)) (ag_caseId (ip_initialState input)) w,
   latest_income (ag_tenantId (ip_initialState input)) (ag_caseId (ip_initialState input)) w).

Definition resolveOutcomeNode (state : RuntimeState) : prog RuntimeState :=
  budgetedStep ← consumeBudgetedRuntimeStep (st_agentState state) "resolve-outcome";
  match budgetedStep, st_policyEvaluation state with
  | NotStepped s trigger, _ => mret (routeMandatoryReview s trigger state)
  | Stepped _, None => fail (OtherError "Cannot read properties of undefined")
  | Stepped stepped, Some evaluation =>
      match er_matchedVersions evaluation with
      | [] =>
          _ ← atomically (assemble sha256 iso fresh (manifest_input (st_agentState state) evaluation []));
          mret (finish stepped PROPOSED_ACTION state)
      | versions =>
          read ← atomically (gets read_facts);
          loanCase ← Done (match read.1 with Some c => Ok c | None => Err EntityNotFound end);
          manifest ← atomically (assemble sha256 iso fresh (manifest_input (st_agentState state) evaluation
            (match read.2 with Some f => [f] | None => [] end)));
          match first_match versions (fact_context loanCase read.2) with
          | None => mret (finish stepped PROPOSED_ACTION state)
          | Some (version, result) => open_condition stepped evaluation version result (em_id manifest) state
          end
      end
  end.

(** [route ? END : next] *)
Definition unless_routed (next : RuntimeState -> prog RuntimeState) (state : RuntimeState) : prog RuntimeState :=
  match st_route state with Some _ => mret state | None => next state end.

Definition graph (state : RuntimeState) : prog RuntimeState :=
  s1 ← verifyConsentNode state;
  s2 ← unless_routed checkCompletenessNode s1;
  s3 ← unless_routed planNextActionNode s2;
  s4 ← unless_routed evaluatePolicyNode s3;
  unless_routed resolveOutcomeNode s4.
End WithInput.

Definition persistAgentRun (startedAt : Z) (result : AgentRunResult) : M World Failure unit :=
  let s := rr_finalState result in
  modify (fun w => put_runs (w_runs w ++
    [{| ar_tenantId := ag_tenantId s; ar_caseId := ag_caseId s; ar_workflowRunId := ag_workflowRunId s;
        ar_route := rr_route result; ar_proposedAction := ag_proposedAction s;
        ar_reviewRequested := match ag_reviewState s with Some r => rv_requested r | None => false end;
        ar_reviewReason := match ag_reviewState s with Some r => rv_reason r | None => None end;
        ar_reviewCategory := match ag_reviewState s with Some r => rv_category r | None => None end;
        ar_modelInvocationId := ag_modelAndPromptManifestId s; ar_modelVersion := ag_modelVersion s;
        ar_promptVersion := ag_promptVersion s; ar_startedAt := startedAt; ar_completedAt := w_dbclock w;
        ar_attempts := ag_attemptedTools s |}]) w).

Definition ledger_input (input : AgentRunInput) : Ledger.AgentBudgetLedgerInput :=
  let s := ip_initialState input in
  {| Ledger.in_tenantId := ag_tenantId s; Ledger.in_caseId := ag_caseId s;
     Ledger.in_workflowRunId := ag_workflowRunId s; Ledger.in_stepLimit := bg_stepBudget (ip_budget input);
     Ledger.in_tokenLimit := bg_tokenBudget (ip_budget input);
     Ledger.in_providerCallLimit := bg_providerCallBudget (ip_budget input);
     Ledger.in_costLimitMinorUnits := bg_costBudgetMinorUnits (ip_budget input);
     Ledger.in_currency := bg_currency (ip_budget input); Ledger.in_startedAt := ag_runStartedAt s;
     Ledger.in_deadlineAt := ip_runDeadlineAt input |}.

Definition run (input : AgentRunInput) : prog AgentRunResult :=
  startedAt ← atomically (gets date_now);
  initialBudget ← atomically (on_budget fresh (fun clk id => Ledger.createOrLoad clk id (ledger_input input)));
  registry ← Done (buildToolRegistry
    (List.filter (fun t => includes (ip_allowedTools input) (tl_name t)) allTools));
  final ← graph input registry
    {| st_agentState := applyBudgetSnapshot (ip_initialState input) initialBudget; st_route := None;
       st_policyEvaluation := None |};
  let result := {| rr_finalState := st_agentState final;
                   rr_route := default ROUTED_TO_MANUAL_REVIEW (st_route final) |} in
  _ ← atomically (persistAgentRun startedAt result);
  mret result.
End Run.
End Runtime.
