(* ===== verification/AgentExamples.v ===== *)
(** * A small world for the agent

    One case with its evidence, a resolved policy and an empty ledger: the
    concrete inputs at which the theorems on the agent and on the case workflow
    are evaluated. *)

From Stdlib Require Import Ascii SpecFloat.
From stdpp Require Import gmap strings list pretty.
From S2P Require Import Prelude BudgetLedger BudgetTheorems PolicyDsl PolicyDigest PolicyResolver PolicyEvaluation PolicyActivation Concurrency ProviderTables Consent ProviderPlatform ProviderDispatch WebhookGuard Outbox Communications AgentTables AgentTools AgentPlanner AgentRuntime.
Module AgentExamples.
Import Threads Agent Tools Planner Runtime.

Definition rule0 : Dsl.PolicyRuleDocument :=
  {| Dsl.doc_id := "income-variance"; Dsl.doc_version := "1.0.0";
     Dsl.doc_applicability := Dsl.doc_applicability Dsl.income_rule;
     Dsl.doc_when := Dsl.difference_percent "application.monthly_income" "evidence.verified_monthly_income"
                   (Dsl.f64_of_Z 10);
     Dsl.doc_outcome := {| Dsl.oc_condition := "INCOME_VARIANCE"; Dsl.oc_route := "UNDERWRITER_REVIEW" |} |}.
Definition iso0 (_ : Z) : string := "2026".
Definition fresh0 (n : nat) : string := "id" +:+ pretty n.
Definition case0 : LoanCase :=
  {| lc_id := "c"; lc_tenantId := "t"; lc_idempotencyKey := "k"; lc_borrowerId := "b"; lc_requestedAmount := "1";
     lc_loanType := Activation.CONVENTIONAL; lc_statedMonthlyIncome := "8000"; lc_jurisdictionCode := "US-CA";
     lc_status := COLLECTING_EVIDENCE; lc_version := 3; lc_createdAt := 10; lc_updatedAt := 10 |}.
Definition snapshot0 : Evaluation.CasePolicySnapshot :=
  {| Evaluation.sn_id := "s"; Evaluation.sn_tenantId := "t"; Evaluation.sn_caseId := "c";
     Evaluation.sn_contextHash := "d"; Evaluation.sn_resolverVersion := Evaluation.RESOLVER_VERSION;
     Evaluation.sn_resolutionStatus := Resolver.RESOLVED;
     Evaluation.sn_versions := [{| Resolver.rv_policyVersionId := "pv"; Resolver.rv_ruleId := "r"; Resolver.rv_version := "1";
        Resolver.rv_rule := rule0; Resolver.rv_effectiveFrom := 0; Resolver.rv_effectiveTo := None |}];
     Evaluation.sn_unresolvedReasons := [] |}.
Definition binding0 : Evaluation.CasePolicyBinding :=
  {| Evaluation.bd_id := "b"; Evaluation.bd_tenantId := "t"; Evaluation.bd_caseId := "c";
     Evaluation.bd_dependencyDigest := "d"; Evaluation.bd_contextKey := "US-CA|CONVENTIONAL_MORTGAGE|UNDERWRITING_REVIEW|2026";
     Evaluation.bd_observedCatalogGeneration := 1; Evaluation.bd_policySnapshotId := "s";
     Evaluation.bd_revalidateAfter := 900000; Evaluation.bd_boundAt := 1; Evaluation.bd_invalidatedAt := None |}.
Definition policy0 : Evaluation.PolicyDb :=
  {| Evaluation.generation := Some 1; Evaluation.catalog := Resolver.catalog0;
     Evaluation.bindings := {["b" := binding0]}; Evaluation.snapshots := {["s" := snapshot0]} |}.
Definition fact0 (id ty : string) (v : Dsl.value) : Tables.EvidenceFact :=
  {| Tables.ev_id := id; Tables.ev_tenantId := "t"; Tables.ev_caseId := "c"; Tables.ev_factType := ty;
     Tables.ev_sourceKind := "SIMULATOR"; Tables.ev_sourceIdentifier := "x"; Tables.ev_value := v;
     Tables.ev_observedAt := 5; Tables.ev_validThrough := None; Tables.ev_version := 1; Tables.ev_createdAt := 5 |}.
Definition tables0 : Tables.Db :=
  Tables.with_evidence {["f1" := fact0 "f1" "INCOME" (Dsl.VObject [("monthlyIncome", Dsl.VNumber (Dsl.f64_of_Z 6000))]);
    "f2" := fact0 "f2" "CREDIT" Dsl.VNull; "f3" := fact0 "f3" "DOCUMENT" Dsl.VNull ]} (Tables.empty_db 1000).
Definition world0 : World :=
  {| w_dbclock := 1000; w_supply := 0; w_tables := tables0; w_budget := BudgetTheorems.initial ∅; w_policy := policy0;
     w_comms := {| Comms.templates := ∅; Comms.messages := ∅; Comms.approvals := []; Comms.outbox := ∅; Comms.audits := [] |};
     w_cases := {["c" := case0]}; w_conditions := ∅; w_transitions := []; w_manifests := ∅; w_invocations := ∅; w_runs := [] |}.
Definition call0 (w : World) : Evaluation.Call :=
  {| Evaluation.call_now := 1000; Evaluation.call_resolvedAt := 1000; Evaluation.call_later := 1000; Evaluation.call_boundAt := 1000;
     Evaluation.call_snapshotId := "ns"; Evaluation.call_bindingId := "nb" |}.
Definition state0 (c : Consent.ConsentStatus) : LendingOperationsAgentState :=
  {| ag_tenantId := "t"; ag_caseId := "c"; ag_caseVersion := 3; ag_workflowRunId := "wf"; ag_consentStatus := c;
     ag_attemptedTools := []; ag_policyBindingId := None; ag_modelVersion := None; ag_promptVersion := None;
     ag_modelAndPromptManifestId := None; ag_remainingStepBudget := 10; ag_remainingDurationBudgetMs := 75000;
     ag_remainingTokenBudget := 0; ag_remainingProviderCallBudget := 0; ag_remainingCostBudgetMinorUnits := 0;
     ag_budgetCurrency := "USD"; ag_budgetLedgerId := None; ag_budgetLedgerVersion := 1; ag_runStartedAt := 1000;
     ag_runDeadlineAt := 76000; ag_proposedAction := None; ag_reviewState := None |}.
Definition input0 (c : Consent.ConsentStatus) : AgentRunInput :=
  {| ip_initialState := state0 c; ip_allowedTools := ["check_case_completeness"; "evaluate_policy"; "create_condition"; "draft_information_request"];
     ip_budget := {| bg_stepBudget := 10; bg_tokenBudget := 0; bg_providerCallBudget := 0; bg_costBudgetMinorUnits := 0; bg_currency := "USD" |};
     ip_runDeadlineAt := 76000 |}.
#[local] Existing Instance Evaluation.resolver0.
Definition number0 (s : string) : spec_float := if String.eqb s "8000" then Dsl.f64_of_Z 8000 else Dsl.f64_of_Z 0.
Definition run0 := run (fun _ => "error") (fun _ => "digest") (fun _ => "digest") iso0 (fun _ => 0) (fun _ => "unresolved")
  (fun _ => "differs") number0 fresh0 (fun k s => k) (fun _ => "json") "secret" (fun _ db => db) call0 (fun db => db) None.

(** Any number of runs over [world0]. *)
Definition handler0 (i : AgentRunInput) : prog unit := _ ← run0 i; mret tt.
Definition start0 : world (S := World) (E := Failure) (Q := Request) (R := Reply) :=
  {| db := world0; calls := []; threads := [] |}.

(** Two runs of one workflow run, statement by statement; the second one finds
    the reservations of the first. *)
Definition race0 : list (event (R := Reply) (Op := AgentRunInput)) :=
  [Spawn (input0 Consent.VALID); Spawn (input0 Consent.VALID)] ++
  mjoin (repeat [Statement 0; Statement 1] 13) ++ repeat (Statement 0) 20.

Example race0_plays :
  exists w, play_all handler0 race0 start0 = Some w /\
    map ar_route (w_runs (db w)) = [ROUTED_TO_MANUAL_REVIEW; PROPOSED_ACTION] /\
    size (w_conditions (db w)) = 1%nat.
Proof. eexists. split_and!; vm_compute; reflexivity. Qed.

(** A run in which [env n] happens before the [n]th statement. *)
Fixpoint exec_env {A} (env : nat -> World -> World) (n : nat) (p : prog A) (w : World) : result Failure A * World :=
  match p with
  | Done r => (r, w)
  | Db m k => exec_env env (S n) (k (m (env n w)).1) (m (env n w)).2
  | Call q k => exec_env env n (k HandedOver) w
  end.
End AgentExamples.
