(* ===== verification/AgentTheorems.v ===== *)
(** * What a run of the agent can and cannot do

    Any number of runs interleave with each other and with everything else:
    the budget they share is never overspent, a run without valid consent does
    nothing, a tool that is not allowed is never executed, a side effect whose
    reservation is replayed is not repeated, and a condition that is proposed
    is justified by the evaluation, the evidence and the case version it
    names. *)

From Stdlib Require Import Ascii SpecFloat.
From stdpp Require Import gmap strings list pretty.
From S2P Require Import Prelude BudgetLedger BudgetTheorems PolicyDsl PolicyDigest PolicyResolver PolicyEvaluation PolicyActivation Concurrency ProviderTables Consent ProviderPlatform ProviderDispatch WebhookGuard Outbox Communications AgentTables AgentTools AgentPlanner AgentRuntime AgentExamples.

Module AgentTheorems.
Import Threads Agent Tools Planner Runtime.

(** ** Statements and the parts of the world *)

Lemma on_budget_parts fresh {A} (m : Ledger.Clock -> string -> M Ledger.DB Ledger.Failure A) w :
  (on_budget fresh m w).2 =
  put_budget (m (clocks w) (fresh (w_supply w)) (w_budget w)).2 (put_supply (S (w_supply w)) w).
Proof. unfold on_budget. by rewrite zoom_state. Qed.

(** A predicate that does not depend on the parts a statement writes survives
    it. *)
Section Parts.
Context (I : World -> Prop) (fresh : nat -> string) (hmac : string -> string -> string)
  (json : Dsl.value -> string) (secret : string).
Context (I_supply : forall n w, I w -> I (put_supply n w)).

Lemma preserves_new_id : preserves I (new_id fresh).
Proof using I_supply. intros w. apply I_supply. Qed.
#[local] Hint Resolve preserves_new_id : monad.

Lemma preserves_outbox t c e p :
  (forall m w, I w -> I (put_comms (Comms.with_outbox m (w_comms w)) w)) -> preserves I (writeOutboxEvent fresh hmac json secret t c e p).
Proof using I_supply.
  intros Hc. apply preserves_bind; [auto with monad|]. intros id. apply preserves_modify. auto.
Qed.

Lemma preserves_update_case t c crit st :
  (forall x w, I w -> I (put_cases x w)) -> preserves I (update_case t c crit st).
Proof using.
  intros Hc. apply preserves_bind; [auto with monad|]. intros [x|]; [|auto with monad].
  destruct (crit x); [|auto with monad]. apply preserves_bind; [|auto with monad]. apply preserves_modify. auto.
Qed.

(** A transaction that keeps [I] when it commits. *)
Lemma preserves_tx {A} (m : M World Failure A) : preserves I m -> preserves I (transaction m).
Proof using. intros Hm. apply preserves_transaction. intros s a s' Hs E. pose proof (Hm s Hs) as H. by rewrite E in H. Qed.

Lemma preserves_write_condition t c a :
  (forall m w, I w -> I (put_comms (Comms.with_outbox m (w_comms w)) w)) ->
  (forall x w, I w -> I (put_cases x w)) -> (forall x w, I w -> I (put_conditions x w)) -> preserves I (write_condition fresh hmac json secret t c a).
Proof using I_supply.
  intros Hco Hca Hcn. apply preserves_tx. apply preserves_bind; [auto with monad|]. intros id.
  apply preserves_bind.
  { apply preserves_bind; [auto with monad|]. intros taken. apply preserves_bind; [auto with monad|]. intros _.
    apply preserves_modify. auto. }
  intros _. apply preserves_bind; [by apply preserves_update_case|]. intros n.
  apply preserves_bind; [auto with monad|]. intros _. apply preserves_bind; [by apply preserves_outbox|]. intros _.
  apply preserves_bind; [by apply preserves_outbox|]. auto with monad.
Qed.

Lemma preserves_assemble sha256 iso i :
  (forall x w, I w -> I (put_manifests x w)) -> preserves I (assemble sha256 iso fresh i).
Proof using I_supply.
  intros Hm. apply preserves_tx. apply preserves_bind; [auto with monad|]. intros id.
  apply preserves_bind; [auto with monad|]. intros taken. apply preserves_bind; [auto with monad|]. intros _.
  apply preserves_bind; [|auto with monad]. apply preserves_modify. auto.
Qed.

Lemma preserves_insert_invocation input r :
  (forall x w, I w -> I (put_invocations x w)) -> preserves I (insert_invocation fresh input r).
Proof using I_supply.
  intros Hm. apply preserves_tx. apply preserves_bind; [auto with monad|]. intros id.
  apply preserves_bind; [auto with monad|]. intros taken. apply preserves_bind; [auto with monad|]. intros _.
  apply preserves_bind; [auto with monad|]. intros _.
  apply preserves_bind; [|auto with monad]. apply preserves_modify. auto.
Qed.
End Parts.

Section Run.
Context (message_of : Failure -> string) (sha256 digest : Dsl.value -> string).
Context (iso : Z -> string) (collation : string -> Z) (reason_text : Resolver.Unresolved -> string).
Context (rule_text : Dsl.Reason -> string) (number : string -> spec_float).
Context (fresh : nat -> string) (hmac : string -> string -> string) (json : Dsl.value -> string) (secret : string).
Context {RES : Evaluation.PolicyResolver} (policy_env : nat -> Evaluation.PolicyDb -> Evaluation.PolicyDb).
Context (evaluation_call : World -> Evaluation.Call) (gap : Ledger.DB -> Ledger.DB).
Context (agentPlanner : option AgentPlannerPort).

Notation run := (run message_of sha256 digest iso collation reason_text rule_text number fresh hmac json secret
  policy_env evaluation_call gap agentPlanner).
Notation allTools := (allTools sha256 iso collation reason_text fresh hmac json secret policy_env evaluation_call).
Notation graph := (graph message_of sha256 digest iso collation reason_text rule_text number fresh hmac json secret
  policy_env evaluation_call gap agentPlanner).
Notation invokeBudgetedTool := (invokeBudgetedTool message_of sha256 iso collation reason_text fresh hmac json secret
  policy_env evaluation_call gap).
Notation budgeted_call := (budgeted_call message_of sha256 iso collation reason_text fresh hmac json secret
  policy_env evaluation_call gap).

(** *** The frame of a run

    [G] is a relation that every kind of statement of the runtime satisfies;
    the tools are executed only if they are allowed. *)
Section Frame.
Context (G : World -> World -> Prop) `{!Reflexive G} (may : Request -> Prop).
Context (G_budget : forall A (m : Ledger.Clock -> string -> M Ledger.DB Ledger.Failure A) w,
  (forall clk id, BudgetTheorems.steps (w_budget w) (m clk id (w_budget w)).2) -> G w (on_budget fresh m w).2).
Context (G_manifest : forall i w, G w (assemble sha256 iso fresh i w).2).
Context (G_invocation : forall input r w, G w (insert_invocation fresh input r w).2).
Context (G_run : forall t r w, G w (persistAgentRun t r w).2).
Context (model_allowed : may AskModel).
Context (gap_steps : forall db, BudgetTheorems.steps db (gap db)).

Notation every := (every (S := World) (E := Failure) (Q := Request) (R := Reply) G may).

Lemma one_step db db' : BudgetTheorems.step db db' -> BudgetTheorems.steps db db'.
Proof. intros H. eapply BudgetTheorems.steps_cons; [done|apply BudgetTheorems.steps_refl]. Qed.

(** What others commit is evaluated in the state of the reservation. *)
Lemma reserve_gap clk id i db : Ledger.reserve clk gap id i db = Ledger.reserve clk (fun _ => gap db) id i db.
Proof.
  unfold Ledger.reserve, mbind, M_bind, lift, guard_throw. destruct (Ledger.validateUnits _); [|done].
  destruct (_ || _); [done|]. unfold catch, Ledger.reserve_tx, mbind, M_bind, gets.
  unfold mret, M_ret. by destruct (find_row (Ledger.by_key i) (Ledger.reservations db)).
Qed.

Lemma every_reserve i : every (reserve fresh gap i).
Proof.
  apply every_atomically. intros w. apply G_budget. intros clk id. rewrite reserve_gap.
  apply one_step, BudgetTheorems.step_reserve, gap_steps.
Qed.
Lemma every_commit t id a : every (commit fresh t id a).
Proof. apply every_atomically. intros w. apply G_budget. intros. apply one_step, BudgetTheorems.step_commit. Qed.
Lemma every_markUnknown t id : every (markUnknown fresh t id).
Proof. apply every_atomically. intros w. apply G_budget. intros. apply one_step, BudgetTheorems.step_markUnknown. Qed.
Lemma every_release t id : every (release fresh t id).
Proof. apply every_atomically. intros w. apply G_budget. intros. apply one_step, BudgetTheorems.step_release. Qed.
#[local] Hint Resolve every_reserve every_commit every_markUnknown every_release : every.

Lemma every_on_budget_error {A} (h : Ledger.AgentBudgetFailureCode -> string -> prog A) e :
  (forall c m, every (h c m)) -> every (on_budget_error h e).
Proof. intros H. destruct e as [[]| | | | | | | | | | |]; cbn; auto with every. Qed.
#[local] Hint Resolve every_on_budget_error : every.

Lemma every_recordAttempt s n o d : every (recordAttempt s n o d).
Proof. unfold recordAttempt. auto with every. Qed.
Lemma every_budgetExceeded s : every (budgetExceeded iso s).
Proof. unfold budgetExceeded. auto with every. Qed.
#[local] Hint Resolve every_recordAttempt every_budgetExceeded : every.

(** Walks through the branches of a node. *)
Ltac walk :=
  repeat first
    [ progress intros
    | apply every_ret | apply every_done | apply every_fail
    | apply every_bind | apply every_catch
    | solve [auto with every]
    | progress case_match
    | progress cbn [fst snd] ].

Section Input.
Context (input : AgentRunInput) (registry : AgentToolRegistry).
Context (every_tool : forall name tool ctx args, registry !! name = Some tool -> every (tl_execute tool ctx args)).

Lemma every_invokeTool name ctx args : every (invokeTool message_of registry name ctx args).
Proof.
  unfold invokeTool. destruct (registry !! name) as [tool|] eqn:Ht; [|done].
  apply every_catch; [|done]. apply every_bind; [by eapply every_tool|done].
Qed.
#[local] Hint Resolve every_invokeTool : every.

Lemma every_invokeBudgetedTool s name args : every (invokeBudgetedTool input registry s name args).
Proof. unfold Runtime.invokeBudgetedTool, Runtime.budgeted_call. walk. Qed.
#[local] Hint Resolve every_invokeBudgetedTool : every.

Lemma every_runtime_step s n : every (consumeBudgetedRuntimeStep iso fresh gap s n).
Proof. unfold consumeBudgetedRuntimeStep. walk. Qed.
#[local] Hint Resolve every_runtime_step : every.

Lemma every_planner state : every (planNextActionNode digest fresh gap agentPlanner input state).
Proof.
  unfold planNextActionNode, planned, planner_failed, obtain_plan, plan, persistPlannerInvocation.
  destruct agentPlanner as [p|]; [|done]. walk.
  - apply every_call. done.
  - apply every_atomically. auto.
Qed.

Lemma every_load t c : every (atomically (load_case t c)).
Proof.
  apply every_atomically. intros w. unfold load_case, mbind, M_bind, gets, or_throw.
  by destruct (find_case t c w).
Qed.
Lemma every_assemble i : every (atomically (assemble sha256 iso fresh i)).
Proof. by apply every_atomically. Qed.
#[local] Hint Resolve every_load every_assemble : every.

Lemma every_evaluate state :
  every (evaluatePolicyNode message_of sha256 iso collation reason_text fresh hmac json secret policy_env
    evaluation_call gap input registry state).
Proof. unfold evaluatePolicyNode. walk. Qed.

Lemma every_outcome state :
  every (resolveOutcomeNode message_of sha256 iso collation reason_text rule_text number fresh hmac json secret
    policy_env evaluation_call gap input registry state).
Proof. unfold resolveOutcomeNode, open_condition, draft_remediation. walk. Qed.

Lemma every_completeness state :
  every (checkCompletenessNode message_of sha256 iso collation reason_text fresh hmac json secret policy_env
    evaluation_call gap input registry state).
Proof. unfold checkCompletenessNode. walk. Qed.
#[local] Hint Resolve every_planner every_evaluate every_outcome every_completeness : every.

Lemma every_graph state : every (graph input registry state).
Proof. unfold Runtime.graph, unless_routed, verifyConsentNode. walk. Qed.
End Input.

(** The registry of a run only holds allowed tools of the runtime. *)
Lemma registered tools reg reg' name tool :
  register_all tools reg = Ok reg' -> reg' !! name = Some tool ->
  reg !! name = Some tool \/ tool ∈ tools /\ tl_name tool = name.
Proof.
  revert reg. induction tools as [|t tools IH]; cbn; intros reg; [intros [= ->]; auto|].
  destruct (bool_decide _); [done|]. destruct (Platform.assertNotStructurallyExcluded _); [|done].
  destruct (invalid_budget _); [done|]. intros H1 H2. destruct (IH _ H1 H2) as [H|[H ?]].
  - apply lookup_insert_Some in H as [[? <-]|[_ ?]]; [|by left].
    right. split; [constructor|done].
  - right. split; [by constructor|done].
Qed.

Lemma every_run input :
  (forall tool ctx args, tool ∈ allTools -> tl_name tool ∈ ip_allowedTools input -> every (tl_execute tool ctx args)) ->
  every (run input).
Proof.
  intros Ht. unfold Runtime.run. apply every_bind; [auto with every|]. intros startedAt.
  apply every_bind.
  { apply every_atomically. intros w. apply G_budget. intros. apply one_step, BudgetTheorems.step_createOrLoad. }
  intros b. unfold mbind at 1, Prog_bind at 1. cbn [pbind].
  destruct (buildToolRegistry _) as [registry|] eqn:Er; [|done].
  apply every_bind; [|intros; apply every_bind; [by apply every_atomically|done]].
  apply every_graph. intros name tool ctx args Hin.
  destruct (registered _ _ _ _ _ Er Hin) as [H|[H <-]]; [by apply lookup_empty_Some in H|].
  apply list_elem_of_In, filter_In in H as [H Hal]. apply Ht; [by apply list_elem_of_In|].
  by apply includes_spec.
Qed.
End Frame.

(** *** The tools *)

Lemma draft_callfree hash id t c i : callfree (Comms.draft hash id t c i).
Proof.
  apply callfree_bind; [done|]. intros template. apply callfree_bind; [done|]. by intros.
Qed.

Section ToolFrames.
Context (G : World -> World -> Prop) `{!Reflexive G} (may : Request -> Prop).
Notation every := (every (S := World) (E := Failure) (Q := Request) (R := Reply) G may).

Lemma every_check_tool ctx args : every (tl_execute checkCaseCompletenessTool ctx args).
Proof using Reflexive0. by destruct args. Qed.

Lemma every_policy_tool ctx args :
  (forall x w, G w (put_policy x w)) ->
  every (tl_execute (evaluatePolicyTool sha256 iso collation reason_text policy_env evaluation_call) ctx args).
Proof using.
  intros Hp. destruct args; try done. apply every_bind; [|done]. apply every_atomically. intros w.
  unfold evaluate_statement. rewrite zoom_state. apply Hp.
Qed.

Lemma every_condition_tool ctx args :
  (forall t c a w, G w (write_condition fresh hmac json secret t c a w).2) ->
  every (tl_execute (createConditionTool fresh hmac json secret) ctx args).
Proof using Reflexive0.
  intros Hw. destruct args; try done. apply every_bind; [|done]. unfold createCondition.
  apply every_bind.
  - apply every_atomically. intros w. unfold load_case, mbind, M_bind, gets, or_throw. by destruct (find_case _ _ w).
  - intros c. destruct (negb _); [done|]. by apply every_atomically.
Qed.

Lemma every_draft_tool ctx args :
  (forall n w, G w (put_supply n w)) -> (forall x w, G w (put_comms x w)) ->
  every (tl_execute (draftInformationRequestTool sha256 fresh) ctx args).
Proof using.
  intros Hn Hc. destruct args; try done. apply every_bind; [apply every_atomically; intros w; apply Hn|].
  intros id. apply every_bind; [|done]. apply every_embed_callfree; [auto|apply draft_callfree].
Qed.
End ToolFrames.

Lemma in_allTools tool : tool ∈ allTools ->
  tool = checkCaseCompletenessTool \/
  tool = evaluatePolicyTool sha256 iso collation reason_text policy_env evaluation_call \/
  tool = createConditionTool fresh hmac json secret \/ tool = draftInformationRequestTool sha256 fresh.
Proof using.
  unfold Runtime.allTools. intros H. repeat (apply elem_of_cons in H as [->|H]; [clear number; tauto|]).
  by apply elem_of_nil in H.
Qed.

(** The only one a run asks. *)
Definition only_model (q : Request) : Prop := q = AskModel.

(** A relation between worlds that ignores the bookkeeping of a run. *)
Section Projection.
Context {X : Type} (proj : World -> X).
Definition unchanged (w w' : World) : Prop := proj w' = proj w.

#[export] Instance unchanged_refl : Reflexive unchanged.
Proof. done. Qed.

Context (gap_steps : forall db, BudgetTheorems.steps db (gap db)).
Context (P_supply : forall n w, proj (put_supply n w) = proj w).
Context (P_budget : forall x w, proj (put_budget x w) = proj w).
Context (P_manifests : forall x w, proj (put_manifests x w) = proj w).
Context (P_invocations : forall x w, proj (put_invocations x w) = proj w).
Context (P_runs : forall x w, proj (put_runs x w) = proj w).

Lemma unchanged_run input :
  (forall tool ctx args, tool ∈ allTools -> tl_name tool ∈ ip_allowedTools input ->
     every unchanged only_model (tl_execute tool ctx args)) ->
  every unchanged only_model (run input).
Proof using gap_steps P_supply P_budget P_manifests P_invocations P_runs.
  intros Ht. apply every_run; try done.
  - intros A m w _. unfold unchanged. by rewrite on_budget_parts, P_budget, P_supply.
  - intros i w. apply (preserves_assemble (unchanged w)); unfold unchanged; congruence.
  - intros j r w. apply (preserves_insert_invocation (unchanged w)); unfold unchanged; congruence.
  - intros t r w. apply P_runs.
Qed.
End Projection.

(** ** The shared budget *)

Definition run_handler (input : AgentRunInput) : prog unit := _ ← run input; mret tt.

(** Whatever else happens to the world, the ledger is changed by its own
    service only. *)
Definition ledger_evolves (w w' : World) : Prop := BudgetTheorems.steps (w_budget w) (w_budget w').

#[local] Instance ledger_evolves_refl : Reflexive ledger_evolves.
Proof. intros w. apply BudgetTheorems.steps_refl. Qed.

Lemma ledger_same w w' : w_budget w' = w_budget w -> ledger_evolves w w'.
Proof. unfold ledger_evolves. intros ->. apply BudgetTheorems.steps_refl. Qed.

Lemma run_evolves_ledger input :
  (forall db, BudgetTheorems.steps db (gap db)) -> every ledger_evolves (fun _ => True) (run input).
Proof.
  intros Hgap. apply every_run; try done; try apply _.
  - intros A m w Hm. unfold ledger_evolves. rewrite on_budget_parts. apply Hm.
  - intros i w. apply ledger_same, (preserves_assemble (fun x => w_budget x = w_budget w)); done.
  - intros j r w. apply ledger_same, (preserves_insert_invocation (fun x => w_budget x = w_budget w)); done.
  - intros t r w. by apply ledger_same.
  - intros tool ctx args [->|[->|[->| ->]]]%in_allTools _.
    + by apply every_check_tool, _.
    + apply every_policy_tool. intros. by apply ledger_same.
    + apply every_condition_tool; [apply _|]. intros t c a w.
      apply ledger_same, (preserves_write_condition (fun x => w_budget x = w_budget w)); done.
    + apply every_draft_tool; try done; intros; by apply ledger_same.
Qed.


(** ** Tools that are not allowed *)

(** What the tools write. *)
Definition condition_part (w : World) := (w_cases w, w_conditions w).
Definition message_part (w : World) :=
  (Comms.messages (w_comms w), Comms.approvals (w_comms w), Comms.templates (w_comms w)).

Lemma every_tool_but {X} (proj : World -> X) name tool ctx args :
  tool ∈ allTools -> tl_name tool <> name ->
  (name <> "evaluate_policy" -> forall x w, proj (put_policy x w) = proj w) ->
  (name <> "create_condition" -> forall m x y w,
     proj (put_comms (Comms.with_outbox m (w_comms w)) w) = proj w /\
     proj (put_cases x w) = proj w /\ proj (put_conditions y w) = proj w) ->
  (name <> "draft_information_request" -> forall x w, proj (put_comms x w) = proj w) ->
  (forall n w, proj (put_supply n w) = proj w) ->
  every (unchanged proj) only_model (tl_execute tool ctx args).
Proof.
  intros Hin Hn Hp Hc Hd Hs. apply in_allTools in Hin as [->|[->|[->| ->]]]; cbn in Hn.
  - by apply every_check_tool, _.
  - apply every_policy_tool. by apply Hp.
  - apply every_condition_tool; [apply _|]. intros t c a w.
    specialize (Hc (not_eq_sym Hn)).
    apply (preserves_write_condition (unchanged proj w)); try done; unfold unchanged; intros.
    + by rewrite Hs.
    + by rewrite (proj1 (Hc m ∅ ∅ _)).
    + by rewrite (proj1 (proj2 (Hc ∅ x ∅ _))).
    + by rewrite (proj2 (proj2 (Hc ∅ ∅ x _))).
  - apply every_draft_tool; [done|]. by apply Hd.
Qed.

(** A tool that is not in the allowed list is unreachable: whatever the
    model answers and whatever happens in between, no statement of such a run
    opens a condition or touches the case, evaluates policy, or drafts a
    message, respectively; and a run asks nobody but the model. *)
Theorem unlisted_tools_are_unreachable input :
  (forall db, BudgetTheorems.steps db (gap db)) ->
  ("create_condition" ∉ ip_allowedTools input -> every (unchanged condition_part) only_model (run input)) /\
  ("evaluate_policy" ∉ ip_allowedTools input -> every (unchanged w_policy) only_model (run input)) /\
  ("draft_information_request" ∉ ip_allowedTools input -> every (unchanged message_part) only_model (run input)).
Proof.
  intros Hgap. split_and!; intros Hno; (apply unchanged_run; [done|done..|]); intros tool ctx args Hin Hal.
  - apply (every_tool_but _ "create_condition"); [done|congruence| | | |]; done.
  - apply (every_tool_but _ "evaluate_policy"); [done|congruence| | | |]; done.
  - apply (every_tool_but _ "draft_information_request"); [done|congruence| | | |]; done.
Qed.

(** ** Consent *)

(** Everything but the ledger row of the run and the record of the run. *)
Definition case_part (w : World) :=
  (w_tables w, w_policy w, w_comms w, condition_part w, w_transitions w, w_manifests w, w_invocations w,
   Ledger.reservations (w_budget w)).

Lemma createOrLoad_reservations clk id i d :
  Ledger.reservations (Ledger.createOrLoad clk id i d).2 = Ledger.reservations d.
Proof.
  unfold Ledger.createOrLoad, mbind, M_bind, lift. destruct (Ledger.validateLedgerInput i); [|done].
  assert (Ledger.reservations (transaction (Ledger.insert_or_find_ledger id i) d).2 = Ledger.reservations d) as Hd.
  { apply (preserves_transaction (fun x => Ledger.reservations x = Ledger.reservations d)); [|done].
    intros s l s' Hs E. unfold Ledger.insert_or_find_ledger in E. minv. case_match; minv; done. }
  destruct (transaction (Ledger.insert_or_find_ledger id i) d) as [[l|e] d1]; [|exact Hd].
  by destruct (Ledger.assertSameLedgerConfiguration l i).
Qed.

Lemma graph_without_consent input registry state :
  ag_consentStatus (st_agentState state) <> Consent.VALID ->
  exists detail, graph input registry state =
    Done (Ok (routeMandatoryReview (st_agentState state) (classifyMandatoryReviewTrigger CONSENT_INVALID detail) state)).
Proof.
  intros Hc. unfold Runtime.graph, verifyConsentNode, consentInvalid.
  destruct (ag_consentStatus (st_agentState state)); [done|eexists; reflexivity..].
Qed.

Lemma without_consent_reviewed input h r :
  ag_consentStatus (ip_initialState input) <> Consent.VALID -> reach (run input) h (Done (Ok r)) ->
  rr_route r = ROUTED_TO_MANUAL_REVIEW /\
  exists why, ag_reviewState (rr_finalState r) =
    Some {| rv_requested := true; rv_reason := Some why; rv_category := Some CONSENT_INVALID |}.
Proof.
  intros Hc Hr. apply (along_reach (fun _ _ => True) (fun x _ => match x with Ok r =>
    rr_route r = ROUTED_TO_MANUAL_REVIEW /\ exists why, ag_reviewState (rr_finalState r) =
      Some {| rv_requested := true; rv_reason := Some why; rv_category := Some CONSENT_INVALID |}
    | Err _ => True end) _ _ _ []) in Hr; [exact Hr|].
  unfold Runtime.run. apply along_gets_bind. intros s1. apply along_bind. intros s2.
  cbn [along]. destruct (on_budget _ _ s2).1 as [b|]; [|done].
  apply along_bind. cbn [along]. destruct (buildToolRegistry _) as [registry|]; [|done].
  edestruct (graph_without_consent input registry) as [detail ->]; [exact Hc|].
  apply along_bind. cbn [along]. apply along_bind. intros s3. cbn. split; [done|]. by eexists.
Qed.

(** C16: A run without valid consent does nothing to the case: it reserves no
    budget, reads no evidence, evaluates no policy, asks no model and writes
    nothing but its own record, and it always ends in manual review on that
    ground. *)
Theorem no_consent_no_action input :
  ag_consentStatus (ip_initialState input) <> Consent.VALID ->
  every (unchanged case_part) (fun _ => False) (run input) /\
  forall h r, reach (run input) h (Done (Ok r)) ->
    rr_route r = ROUTED_TO_MANUAL_REVIEW /\
    exists why, ag_reviewState (rr_finalState r) =
      Some {| rv_requested := true; rv_reason := Some why; rv_category := Some CONSENT_INVALID |}.
Proof.
  intros Hc. split.
  - unfold Runtime.run. apply every_bind; [by apply every_gets, _|]. intros t. apply every_bind.
    { apply every_atomically. intros w. rewrite on_budget_parts. unfold unchanged, case_part. cbn.
      by rewrite createOrLoad_reservations. }
    intros b. unfold mbind at 1, Prog_bind at 1. cbn [pbind].
    destruct (buildToolRegistry _) as [registry|]; [|done].
    edestruct (graph_without_consent input registry) as [detail ->]; [exact Hc|].
    apply (every_bind _ _ (Done _)); [done|]. intros final. apply every_bind; [by apply every_atomically|done].
  - intros h r. by apply without_consent_reviewed.
Qed.

(** ** Replayed side effects *)

Definition has_key (d : Ledger.DB) (i : Ledger.ReserveInput) : Prop :=
  exists k r, Ledger.reservations d !! k = Some r /\ Ledger.by_key i r = true.

Lemma has_key_steps d d' i : Ledger.Inv d -> BudgetTheorems.steps d d' -> has_key d i -> has_key d' i.
Proof.
  intros HI Hs (k & r & Hr & Hk). destruct (BudgetTheorems.steps_evolve _ _ Hs HI) as [_ [Hrows _ _]].
  destruct (Hrows _ _ Hr) as (r' & Hr' & Hev). exists k, r'. split; [done|].
  destruct Hev as [->|[[] _]]; [done|]. unfold Ledger.by_key in *.
  by rewrite sc_ledger, sc_tenant, sc_key.
Qed.

Lemma reserve_has_key clk other id i d :
  has_key d i ->
  (Ledger.reserve clk other id i d).2 = d /\
  match (Ledger.reserve clk other id i d).1 with Ok rc => Ledger.rc_replayed rc = true | Err _ => True end.
Proof.
  intros (k & r & Hr & Hk). unfold Ledger.reserve, mbind, M_bind, lift, guard_throw.
  destruct (Ledger.validateUnits _); [|done]. destruct (_ || _); [done|]. unfold mret, M_ret, catch.
  assert (forall r, match Ledger.receiptFor clk r true d with
    | (Ok rc, d') => d' = d /\ Ledger.rc_replayed rc = true | (Err _, d') => d' = d end) as Hrec.
  { intros r'. unfold Ledger.receiptFor, mbind, M_bind, gets, or_throw. by destruct (Ledger.find_ledger _ _ d). }
  unfold Ledger.reserve_tx, mbind, M_bind, gets, lift.
  destruct (find_row (Ledger.by_key i) (Ledger.reservations d)) as [r0|] eqn:Ef.
  2:{ pose proof (find_row_None _ _ _ _ Ef Hr). congruence. }
  assert (forall e, (if negb (Ledger.isUniqueViolation e) then throw e else Ledger.reserve_reload clk i) d =
    (Err e, d) \/ (if negb (Ledger.isUniqueViolation e) then throw e else Ledger.reserve_reload clk i) d =
    Ledger.reserve_reload clk i d) as Hcatch by (intros e; destruct (negb _); auto).
  assert (match Ledger.reserve_reload clk i d with
    | (Ok rc, d') => d' = d /\ Ledger.rc_replayed rc = true | (Err _, d') => d' = d end) as Hre.
  { unfold Ledger.reserve_reload, mbind, M_bind, gets, lift, or_throw. rewrite Ef. unfold mret, M_ret.
    destruct (Ledger.assertSameUnits r0 _); [|done]. apply Hrec. }
  destruct (Ledger.assertSameUnits r0 _) as [u|e].
  - specialize (Hrec r0). destruct (Ledger.receiptFor clk r0 true d) as [[rc|e] d']; [by destruct Hrec|subst].
    destruct (Hcatch e) as [->| ->]; [done|]. destruct (Ledger.reserve_reload clk i d) as [[rc|e'] d']; [by destruct Hre|done].
  - destruct (Hcatch e) as [->| ->]; [done|]. destruct (Ledger.reserve_reload clk i d) as [[rc|e'] d']; [by destruct Hre|done].
Qed.

(** Everything but the ledger and the supply of keys. *)
Definition outside_ledger (w : World) :=
  (w_tables w, w_policy w, w_comms w, condition_part w, w_transitions w, w_manifests w, w_invocations w, w_runs w).

Lemma on_budget_outside {A} (m : Ledger.Clock -> string -> M Ledger.DB Ledger.Failure A) w :
  unchanged outside_ledger w (on_budget fresh m w).2.
Proof. unfold unchanged. by rewrite on_budget_parts. Qed.

Definition tool_claim (s : LendingOperationsAgentState) (name : string) (t : option AgentTool) : Ledger.ReserveInput :=
  {| Ledger.ri_tenantId := ag_tenantId s; Ledger.ri_ledgerId := default "" (ag_budgetLedgerId s);
     Ledger.ri_idempotencyKey := tool_key s name; Ledger.ri_expectedVersion := ag_budgetLedgerVersion s;
     Ledger.ri_units := tool_units (match t with Some t => tl_budget t | None => no_budget end) |}.

Notation find_tool := (find_tool sha256 iso collation reason_text fresh hmac json secret policy_env evaluation_call).

(** When the ledger already holds a reservation for the key of a tool call
    with side effects, whatever its status, the tool is not executed again:
    whatever the ledger's other users do meanwhile, no statement of the call
    touches anything but the ledger, and the call reports that it did not
    invoke the tool. *)
Theorem replayed_side_effect_is_not_repeated input registry s name args w :
  has_side_effect (find_tool name) = true ->
  BudgetTheorems.reachable (w_budget w) -> has_key (w_budget w) (tool_claim s name (find_tool name)) ->
  during ledger_evolves (unchanged outside_ledger) (fun _ => False)
    (fun r _ => match r with Ok (Invoked _ _) => False | _ => True end)
    (invokeBudgetedTool input registry s name args) w.
Proof.
  intros Hse HI%BudgetTheorems.reachable_Inv Hkey. unfold Runtime.invokeBudgetedTool, budgetExceeded.
  apply during_bind, during_gets; [done|]. intros w1 He1. cbn [during mret Prog_ret].
  destruct (exceeded_at iso _ s); [done|]. apply during_catch. unfold Runtime.budgeted_call. rewrite Hse.
  apply during_bind, during_atomically. intros w2 He2. split; [apply on_budget_outside|].
  assert (has_key (w_budget w2) (tool_claim s name (find_tool name))) as Hk2.
  { eapply has_key_steps; [exact HI| |exact Hkey]. by eapply BudgetTheorems.steps_app. }
  unfold on_budget. rewrite zoom_result.
  destruct (reserve_has_key (clocks w2) gap (fresh (w_supply w2)) _ _ Hk2) as [_ Hr].
  unfold tool_claim in Hr. cbn [w_budget put_supply]. cbn zeta.
  destruct (Ledger.reserve _ _ _ _ _).1 as [rc|e]; cbn [rename]; [|by destruct e].
  rewrite Hr. cbn [andb]. apply during_bind. destruct (bool_decide _); [|done].
  apply during_bind, during_atomically. intros w3 He3. split; [apply on_budget_outside|].
  destruct (on_budget _ _ w3).1 as [u|e]; [done|]. cbn. by destruct e as [[]| | | | | | | | | | |].
Qed.
End Run.

(** ** Witnesses *)

Import AgentExamples.
#[local] Existing Instance Evaluation.resolver0.

Lemma no_gap (d : Ledger.DB) : BudgetTheorems.steps d d.
Proof. apply BudgetTheorems.steps_refl. Qed.

Lemma world0_ledger : BudgetTheorems.reachable (w_budget world0).
Proof. exists ∅. split; [by intros tid t d; rewrite lookup_empty|apply no_gap]. Qed.


(** The run without permission to open conditions. *)
Definition restricted_input : AgentRunInput :=
  {| ip_initialState := ip_initialState (input0 Consent.VALID);
     ip_allowedTools := ["check_case_completeness"; "evaluate_policy"]; ip_budget := ip_budget (input0 Consent.VALID);
     ip_runDeadlineAt := ip_runDeadlineAt (input0 Consent.VALID) |}.

Lemma unlisted_tools_are_unreachable_witness :
  every (unchanged condition_part) only_model (run0 restricted_input) /\
  every (unchanged message_part) only_model (run0 restricted_input).
Proof.
  edestruct (unlisted_tools_are_unreachable (fun _ => "error") (fun _ => "digest") (fun _ => "digest") iso0 (fun _ => 0)
    (fun _ => "unresolved") (fun _ => "differs") number0 fresh0 (fun k s => k) (fun _ => "json") "secret"
    (fun _ db => db) call0 (fun db => db) None restricted_input no_gap) as (H1 & _ & H3).
  split; [apply H1|apply H3]; by apply (bool_decide_unpack _); vm_compute.
Defined.

Lemma no_consent_no_action_witness :
  every (unchanged case_part) (fun _ => False) (run0 (input0 Consent.REVOKED)) /\
  exists r w q, exec (fun _ => HandedOver) (run0 (input0 Consent.REVOKED)) world0 = (Ok r, w, q) /\
    rr_route r = ROUTED_TO_MANUAL_REVIEW.
Proof.
  split; [|do 3 eexists; split; vm_compute; reflexivity].
  by apply (no_consent_no_action (fun _ => "error") (fun _ => "digest") (fun _ => "digest") iso0 (fun _ => 0)
    (fun _ => "unresolved") (fun _ => "differs") number0 fresh0 (fun k s => k) (fun _ => "json") "secret"
    (fun _ db => db) call0 (fun db => db) None (input0 Consent.REVOKED)).
Defined.

(** The ledger of a run that was interrupted in its policy evaluation. *)
Definition interrupted_state : LendingOperationsAgentState :=
  with_attempts [{| ta_toolName := "check_case_completeness"; ta_attemptedAt := 1000; ta_outcome := SUCCESS;
                    ta_detail := None |}]
    {| ag_tenantId := "t"; ag_caseId := "c"; ag_caseVersion := 3; ag_workflowRunId := "wf";
       ag_consentStatus := Consent.VALID; ag_attemptedTools := []; ag_policyBindingId := None;
       ag_modelVersion := None; ag_promptVersion := None; ag_modelAndPromptManifestId := None;
       ag_remainingStepBudget := 10; ag_remainingDurationBudgetMs := 75000; ag_remainingTokenBudget := 0;
       ag_remainingProviderCallBudget := 0; ag_remainingCostBudgetMinorUnits := 0; ag_budgetCurrency := "USD";
       ag_budgetLedgerId := Some "L"; ag_budgetLedgerVersion := 1; ag_runStartedAt := 1000;
       ag_runDeadlineAt := 76000; ag_proposedAction := None; ag_reviewState := None |}.
Definition policy_tool : AgentTool :=
  evaluatePolicyTool (fun _ => "digest") iso0 (fun _ => 0) (fun _ => "unresolved") (fun _ db => db) call0.
Definition interrupted_world : World :=
  let d := (Ledger.createOrLoad (clocks world0) "L" (ledger_input (input0 Consent.VALID)) (w_budget world0)).2 in
  put_budget (Ledger.reserve (clocks world0) (fun _ => d) "R"
    (tool_claim interrupted_state "evaluate_policy" (Some policy_tool)) d).2 world0.

Lemma interrupted_reachable : BudgetTheorems.reachable (w_budget interrupted_world).
Proof.
  destruct world0_ledger as (ts & Hl & Hs). exists ts. split; [done|]. eapply BudgetTheorems.steps_app; [exact Hs|].
  eapply BudgetTheorems.steps_cons; [apply BudgetTheorems.step_createOrLoad|].
  eapply BudgetTheorems.steps_cons; [|apply BudgetTheorems.steps_refl].
  apply BudgetTheorems.step_reserve, BudgetTheorems.steps_refl.
Qed.

Lemma replayed_side_effect_is_not_repeated_witness :
  during ledger_evolves (unchanged outside_ledger) (fun _ => False)
    (fun r _ => match r with Ok (Invoked _ _) => False | _ => True end)
    (Runtime.invokeBudgetedTool (fun _ => "error") (fun _ => "digest") iso0 (fun _ => 0) (fun _ => "unresolved") fresh0
       (fun k s => k) (fun _ => "json") "secret" (fun _ db => db) call0 (fun db => db) (input0 Consent.VALID)
       {["evaluate_policy" := policy_tool]} interrupted_state "evaluate_policy" CheckCaseCompletenessArgs)
    interrupted_world.
Proof.
  apply (replayed_side_effect_is_not_repeated (fun _ => "error") (fun _ => "digest") iso0 (fun _ => 0)
    (fun _ => "unresolved") fresh0 (fun k s => k) (fun _ => "json") "secret" (fun _ db => db) call0 (fun db => db)).
  - vm_compute. reflexivity.
  - apply interrupted_reachable.
  - exists "R". eexists. split; vm_compute; reflexivity.
Defined.
End AgentTheorems.
