(* ===== verification/AgentOutcome.v ===== *)
(** * Why a condition is opened

    A condition that a run proposes is justified by statements of its own
    history: the policy evaluation that resolved, the case and the evidence
    the matching rule was evaluated on, the manifest that records them, and
    the write that was made at the version of the case the run was given. *)

From Stdlib Require Import Ascii SpecFloat.
From stdpp Require Import gmap strings list pretty.
From S2P Require Import Prelude BudgetLedger BudgetTheorems PolicyDsl PolicyDigest PolicyResolver PolicyEvaluation PolicyActivation Concurrency ProviderTables Consent ProviderPlatform ProviderDispatch WebhookGuard Outbox Communications AgentTables AgentTools AgentPlanner AgentRuntime AgentExamples AgentTheorems.

Module AgentOutcome.
Import Threads Agent Tools Planner Runtime.

(** ** Histories *)

Section Histories.
Context {S E Q R : Type}.

Lemma along_any {A} (P : list S -> Q -> Prop) Φ (p : Prog S E Q R A) hist :
  (forall h q, P h q) -> (forall r h, hist `prefix_of` h -> Φ r h) -> along P Φ p hist.
Proof.
  intros HP. revert hist. induction p as [r|X m k IH|q k IH]; cbn; intros hist HΦ.
  - by apply HΦ.
  - intros s. apply IH. intros r h Hh. apply HΦ. etrans; [by eexists|exact Hh].
  - split; [done|]. auto.
Qed.

Lemma along_prefix {A} (P : list S -> Q -> Prop) Φ (p : Prog S E Q R A) hist :
  along P Φ p hist -> along P (fun r h => hist `prefix_of` h /\ Φ r h) p hist.
Proof.
  intros H. cut (forall h0, h0 `prefix_of` hist -> along P (fun r h => h0 `prefix_of` h /\ Φ r h) p hist); [auto|].
  revert hist H. induction p as [r|X m k IH|q k IH]; cbn; intros hist H h0 Hh.
  - done.
  - intros s. apply IH; [done|]. etrans; [exact Hh|by eexists].
  - destruct H as [H1 H2]. split; [done|]. auto.
Qed.

Lemma sublist_snoc (l h h' : list S) w : l `sublist_of` h -> h `prefix_of` h' -> l ++ [w] `sublist_of` h' ++ [w].
Proof. intros Hl [k ->]. apply sublist_app; [by apply sublist_inserts_r|done]. Qed.

Lemma sublist_prefix (l h h' : list S) : l `sublist_of` h -> h `prefix_of` h' -> l `sublist_of` h'.
Proof. intros Hl [k ->]. by apply sublist_inserts_r. Qed.
End Histories.

(** ** The write *)

(** What [write_condition] has done when it reports a new condition. *)
Record condition_written (fresh : nat -> string) (tenantId caseId : string) (args : CreateConditionArgs) (id : string) (w w' : World) : Prop := {
  wr_case : exists c, find_case tenantId caseId w = Some c /\ lc_version c = ka_expectedCaseVersion args /\
    w_cases w' = <[caseId := set_case_status CONDITIONS_OPEN (w_dbclock w) c]> (w_cases w);
  wr_key : id = fresh (w_supply w);
  wr_fresh : w_conditions w !! id = None;
  wr_condition : w_conditions w' = <[id :=
    {| cn_id := id; cn_tenantId := tenantId; cn_caseId := caseId; cn_code := ka_code args;
       cn_description := ka_description args; cn_status := OPEN;
       cn_policySnapshotId := Some (ka_policySnapshotId args);
       cn_evaluationManifestId := ka_evaluationManifestId args; cn_version := 1;
       cn_createdAt := w_dbclock w |}]> (w_conditions w) }.

Lemma write_condition_spec fresh hmac json secret t c a w id :
  (write_condition fresh hmac json secret t c a w).1 = Ok (CREATED id) ->
  condition_written fresh t c a id w (write_condition fresh hmac json secret t c a w).2.
Proof.
  unfold write_condition, transaction, new_id, insert_condition, update_case, writeOutboxEvent.
  unfold mbind, M_bind, gets, modify, guard_throw, mret, M_ret, throw.
  cbn [put_supply w_conditions]. destruct (bool_decide _) eqn:Hf; [done|].
  apply bool_decide_eq_false, eq_None_not_Some in Hf.
  change (find_case t c (put_conditions _ _)) with (find_case t c w).
  destruct (find_case t c w) as [x|] eqn:Hc; [|done]. unfold at_version.
  destruct (Z.eqb_spec (lc_version x) (ka_expectedCaseVersion a)) as [Hv|]; [|done].
  cbn. intros [= <-]. by split; [exists x|..].
Qed.

(** ** What a run keeps *)

(** The fields of the agent's state that only the last two nodes set. *)
Record same_run (s s' : LendingOperationsAgentState) : Prop := {
  sr_version : ag_caseVersion s' = ag_caseVersion s;
  sr_binding : ag_policyBindingId s' = ag_policyBindingId s;
  sr_action : ag_proposedAction s' = ag_proposedAction s }.

#[local] Instance same_run_refl : Reflexive same_run.
Proof. done. Qed.
#[local] Instance same_run_trans : Transitive same_run.
Proof. intros a b c [] []. split; congruence. Qed.

Lemma same_snapshot s b : same_run s (applyBudgetSnapshot s b).
Proof. done. Qed.
Lemma same_attempts s l : same_run s (with_attempts l s).
Proof. done. Qed.
#[local] Hint Resolve same_snapshot same_attempts : core.

Section Run.
Context (message_of : Failure -> string) (sha256 digest : Dsl.value -> string).
Context (iso : Z -> string) (collation : string -> Z) (reason_text : Resolver.Unresolved -> string).
Context (rule_text : Dsl.Reason -> string) (number : string -> spec_float).
Context (fresh : nat -> string) (hmac : string -> string -> string) (json : Dsl.value -> string) (secret : string).
Context {RES : Evaluation.PolicyResolver} (policy_env : nat -> Evaluation.PolicyDb -> Evaluation.PolicyDb).
Context (evaluation_call : World -> Evaluation.Call) (gap : Ledger.DB -> Ledger.DB).
Context (agentPlanner : option AgentPlannerPort).

Notation run := (run message_of sha256 digest iso collation reason_text rule_text number fresh hmac json secret
  policy_env evaluation_call gap agentPlanner).
Notation allTools := (allTools sha256 iso collation reason_text fresh hmac json secret policy_env evaluation_call).
Notation graph := (graph message_of sha256 digest iso collation reason_text rule_text number fresh hmac json secret
  policy_env evaluation_call gap agentPlanner).
Notation invokeBudgetedTool := (invokeBudgetedTool message_of sha256 iso collation reason_text fresh hmac json secret
  policy_env evaluation_call gap).
Notation evaluate_statement := (evaluate_statement sha256 iso collation reason_text policy_env evaluation_call).
Notation along := (along (S := World) (E := Failure) (Q := Request) (R := Reply) (fun _ _ => True)).

Section Input.
Context (input : AgentRunInput) (registry : AgentToolRegistry).
Context (registered : forall name tool, registry !! name = Some tool -> tool ∈ allTools /\ tl_name tool = name).
Notation tenant := (ag_tenantId (ip_initialState input)).
Notation case := (ag_caseId (ip_initialState input)).

Lemma along_recordAttempt s n o d Φ hist :
  (forall s' h, hist `prefix_of` h -> same_run s s' -> Φ (Ok s') h) -> along Φ (recordAttempt s n o d) hist.
Proof. intros HΦ. apply along_gets_bind. intros w. apply HΦ; [by eexists|done]. Qed.

(** A budgeted call is the bare call, or nothing but bookkeeping. *)
Lemma along_budgeted s name args Φ hist :
  (forall s' tr h, hist `prefix_of` h -> same_run s s' -> Φ (Ok (NotInvoked s' tr)) h) ->
  (forall e h, Φ (Err e) h) ->
  (forall rid h, hist `prefix_of` h ->
     along (fun r h1 => forall s' h2, h1 `prefix_of` h2 -> same_run s s' ->
       match r with Ok v => Φ (Ok (Invoked s' v)) h2 | Err _ => True end)
       (invokeTool message_of registry name (toolContext input rid) args) h) ->
  along Φ (invokeBudgetedTool input registry s name args) hist.
Proof.
  intros Hn He Ht. unfold Runtime.invokeBudgetedTool, budgetExceeded. apply along_bind, along_gets_bind. intros w1.
  cbn [Threads.along mret Prog_ret]. assert (hist `prefix_of` hist ++ [w1]) as Hp1 by by eexists.
  destruct (exceeded_at _ _ _); [by apply Hn|].
  assert (forall e h, hist `prefix_of` h -> along Φ (on_budget_error (fun code message => mret
    (NotInvoked s (budget_trigger code message))) e) h) as Hb.
  { intros e h Hh. destruct e as [[]| | | | | | | | | | |]; cbn; auto. by apply Hn. }
  apply along_catch. unfold Runtime.budgeted_call. apply along_bind. intros w2. cbn [Threads.along].
  assert (hist `prefix_of` (hist ++ [w1]) ++ [w2]) as Hp2 by (etrans; [exact Hp1|by eexists]).
  destruct (on_budget _ _ w2).1 as [rc|e]; [|by apply Hb]. destruct (_ && _).
  - apply along_bind. destruct (bool_decide _); [|by apply Hn].
    apply along_bind. intros w3. cbn [Threads.along].
    assert (hist `prefix_of` ((hist ++ [w1]) ++ [w2]) ++ [w3]) as Hp3 by (etrans; [exact Hp2|by eexists]).
    destruct (on_budget _ _ w3).1 as [u|e]; [by apply Hn|by apply Hb].
  - apply along_bind. eapply along_mono; [|apply along_prefix, Ht, Hp2]. intros [v|e] h [Hh Hv].
    + apply along_bind. intros w3. cbn [Threads.along].
      destruct (on_budget _ _ w3).1 as [u|e]; [apply Hv; [by eexists|done]|].
      apply Hb. etrans; [exact Hp2|]. etrans; [exact Hh|by eexists].
    + apply Hb. by etrans.
Qed.

(** The tool behind a name. *)
Lemma along_invoke name args ctx Φ hist :
  (forall o, tv_outcome o = FAILURE -> forall h, hist `prefix_of` h -> Φ (Ok o) h) ->
  (forall tool, tool ∈ allTools -> tl_name tool = name ->
     along (fun r h => match r with
       | Ok x => Φ (Ok {| tv_toolName := name; tv_outcome := SUCCESS; tv_result := Some x; tv_error := None |}) h
       | Err _ => True end) (tl_execute tool ctx args) hist) ->
  along Φ (invokeTool message_of registry name ctx args) hist.
Proof using registered.
  intros Hf Ht. unfold invokeTool. destruct (registry !! name) as [tool|] eqn:E; [|by apply Hf].
  destruct (registered _ _ E) as [Hin Hname]. apply along_catch, along_bind.
  eapply along_mono; [|apply along_prefix, Ht; done]. intros [x|e] h [Hh Hx]; [done|]. by apply Hf.
Qed.

(** ** The evaluation *)

Definition evaluation_args (c : LoanCase) : EvaluatePolicyArgs :=
  {| ea_jurisdictionCode := lc_jurisdictionCode c;
     ea_productCode := Activation.loanTypeToProductCode (lc_loanType c);
     ea_lifecycleEvent := Activation.UNDERWRITING_REVIEW_LIFECYCLE_EVENT;
     ea_applicationReceivedAt := lc_createdAt c |}.

(** The case as it was in [wl] was evaluated in [we], with result [e]. *)
Definition evaluated (wl we : World) (e : Evaluation.PolicyEvaluationResult) : Prop :=
  exists c, find_case tenant case wl = Some c /\
    (evaluate_statement tenant case (evaluation_args c) we).1 = Ok e /\
    Resolver.status (Evaluation.resolution e) = Resolver.RESOLVED.

(** What is known of the state of the graph before the last node. *)
Record before_outcome (state : RuntimeState) (h : list World) : Prop := {
  bo_version : ag_caseVersion (st_agentState state) = ag_caseVersion (ip_initialState input);
  bo_action : ag_proposedAction (st_agentState state) = None;
  bo_route : st_route state <> Some PROPOSED_ACTION;
  bo_evaluation : forall ev, st_policyEvaluation state = Some ev -> exists wl we e,
    [wl; we] `sublist_of` h /\ evaluated wl we e /\ ev = policy_result e /\
    ag_policyBindingId (st_agentState state) = Evaluation.bd_id <$> Evaluation.res_binding e }.

Definition before_ok (r : result Failure RuntimeState) (h : list World) : Prop :=
  match r with Ok state => before_outcome state h | Err _ => True end.

Lemma before_same state state' h h' :
  before_outcome state h -> h `prefix_of` h' -> same_run (st_agentState state) (st_agentState state') ->
  st_policyEvaluation state' = st_policyEvaluation state ->
  (st_route state' = Some PROPOSED_ACTION -> st_route state = Some PROPOSED_ACTION) -> before_outcome state' h'.
Proof.
  intros [H1 H2 H4 H3] Hp [S1 S2 S3] He Hroute. split; [congruence..|by intros Hr%Hroute|]. rewrite He. intros ev Hev.
  destruct (H3 ev Hev) as (wl & we & e & Hs & Hr & -> & Hb). exists wl, we, e. split_and!; try done; [|congruence].
  by eapply sublist_prefix.
Qed.

Lemma same_review s t : same_run s (with_review t s).
Proof. done. Qed.
#[local] Hint Resolve same_review : core.

(** Reviews do not propose. *)
Lemma review_route s t state : st_route (routeMandatoryReview s t state) <> Some PROPOSED_ACTION.
Proof. unfold routeMandatoryReview, finish. cbn. by destruct (tg_route t). Qed.

Ltac review_only :=
  first [ done | let H := fresh in intros H; exfalso; by apply review_route in H ].

(** The state of a node that only did bookkeeping. *)
Ltac bookkeeping HB :=
  cbn; eapply before_same; [exact HB|repeat (eassumption || etrans)| |reflexivity|review_only];
  first [done | etrans; [eassumption|done]].

Lemma completeness_before state hist :
  before_outcome state hist ->
  along before_ok (checkCompletenessNode message_of sha256 iso collation reason_text fresh hmac json secret policy_env
    evaluation_call gap input registry state) hist.
Proof using registered.
  intros HB. apply along_bind, along_budgeted.
  - intros s' tr h Hh Hs. bookkeeping HB.
  - done.
  - intros rid h Hh. apply along_any; [done|]. intros [v|e] h1 Hh1 s' h2 Hh2 Hs; [|done].
    apply along_bind, along_recordAttempt. intros s2 h3 Hh3 Hs2.
    assert (hist `prefix_of` h3) by (repeat (eassumption || etrans)).
    assert (same_run (st_agentState state) s2) by (by etrans).
    repeat case_match; bookkeeping HB.
Qed.

Lemma planner_failed_before state rc e hist h :
  before_outcome state hist -> hist `prefix_of` h -> along before_ok (planner_failed fresh rc state e) h.
Proof.
  intros HB Hh. unfold planner_failed. apply along_bind, along_any; [done|]. intros [[]|] h2 Hh2; [|done].
  apply along_bind, along_recordAttempt. intros s h3 Hh3 Hs.
  assert (hist `prefix_of` h3) by (repeat (eassumption || etrans)). bookkeeping HB.
Qed.

Lemma planner_before state hist :
  before_outcome state hist ->
  along before_ok (planNextActionNode digest fresh gap agentPlanner input state) hist.
Proof.
  intros HB. unfold planNextActionNode. destruct agentPlanner as [p|]; [|done].
  apply along_bind, along_catch, along_bind. intros w1. cbn [Threads.along].
  assert (hist `prefix_of` hist ++ [w1]) as Hp1 by by eexists.
  destruct (on_budget _ _ w1).1 as [rc|e].
  2:{ destruct e as [[]| | | | | | | | | | |]; cbn; try done. bookkeeping HB. }
  cbn. intros w2. cbn [fst gets]. apply along_catch.
  assert (hist `prefix_of` (hist ++ [w1]) ++ [w2]) as Hp2 by (etrans; [exact Hp1|by eexists]).
  unfold planned. apply along_bind, along_any; [done|]. intros [[r res]|e] h Hh.
  - apply along_bind, along_any; [done|]. intros [u|e] h1 Hh1.
    + apply along_bind, along_recordAttempt. intros s h2 Hh2 Hs.
      assert (hist `prefix_of` h2) by (repeat (eassumption || etrans)).
      assert (same_run (st_agentState state) s) by (etrans; [apply same_snapshot|exact Hs]).
      repeat case_match; bookkeeping HB.
    + eapply planner_failed_before; [exact HB|]. repeat (eassumption || etrans).
  - eapply planner_failed_before; [exact HB|]. repeat (eassumption || etrans).
Qed.

Lemma the_tool tool name : tool ∈ allTools -> tl_name tool = name ->
  (name = "evaluate_policy" -> tool = evaluatePolicyTool sha256 iso collation reason_text policy_env evaluation_call) /\
  (name = "create_condition" -> tool = createConditionTool fresh hmac json secret).
Proof.
  intros Hin <-. apply AgentTheorems.in_allTools in Hin as [->|[->|[->| ->]]]; (split; [try discriminate|try discriminate]); done.
Qed.

Lemma evaluation_before state hist :
  before_outcome state hist ->
  along before_ok (evaluatePolicyNode message_of sha256 iso collation reason_text fresh hmac json secret policy_env
    evaluation_call gap input registry state) hist.
Proof using registered.
  intros HB. unfold evaluatePolicyNode, budgetExceeded. apply along_bind, along_gets_bind. intros w0.
  cbn [Threads.along mret Prog_ret]. assert (hist `prefix_of` hist ++ [w0]) as Hp0 by by eexists.
  destruct (exceeded_at _ _ _); [bookkeeping HB|].
  apply along_bind. intros wl. cbn [Threads.along]. unfold load_case, mbind, M_bind, gets, or_throw.
  destruct (find_case _ _ wl) as [c|] eqn:Hc; [|done]. cbn [mret M_ret fst].
  set (h0 := (hist ++ [w0]) ++ [wl]).
  assert (hist `prefix_of` h0) as Hp1 by (unfold h0; etrans; [exact Hp0|by eexists]).
  apply along_bind, along_budgeted.
  - intros s' tr h Hh Hs. bookkeeping HB.
  - done.
  - intros rid h Hh. apply along_invoke.
    + intros v Hv h1 Hh1 s' h2 Hh2 Hs. apply along_bind, along_recordAttempt. intros s2 h3 Hh3 Hs2. rewrite Hv.
      assert (hist `prefix_of` h3) by (repeat (eassumption || etrans)).
      assert (same_run (st_agentState state) s2) by (by etrans). bookkeeping HB.
    + intros tool Hin Hname. destruct (the_tool _ _ Hin Hname) as [-> _]; [|done].
      cbn [tl_execute evaluatePolicyTool]. apply along_bind. intros we. cbn [Threads.along].
      destruct (Tools.evaluate_statement _ _ _ _ _ _ _ _ _ we).1 as [e|] eqn:He; [|done].
      cbn. intros s' h2 Hh2 Hs w3. cbn.
      assert (hist `prefix_of` h2 ++ [w3]) as Hp3.
      { etrans; [exact Hp1|]. etrans; [exact Hh|]. etrans; [by eexists|]. etrans; [exact Hh2|by eexists]. }
      destruct (Resolver.status (Evaluation.resolution e)) eqn:Est; [|bookkeeping HB].
      cbn. destruct HB as [B1 B2 B4 _], Hs as [S1 S2 S3]. split; cbn; [congruence..|]. intros ev [= <-].
      exists wl, we, e. split_and!; [|by exists c|done|done].
      eapply sublist_prefix; [|etrans; [exact Hh2|by eexists]].
      apply (sublist_snoc [wl] h0); [|exact Hh]. unfold h0. by apply sublist_inserts_l.
Qed.

(** ** The outcome *)

(** The manifest of an evaluation [e] on some evidence. *)
Definition recorded_inputs (e : Evaluation.PolicyEvaluationResult) (evidence : list Tables.EvidenceFact)
    (model : option string) : AssembleManifestInput :=
  {| as_tenantId := tenant; as_caseId := case; as_caseVersion := ag_caseVersion (ip_initialState input);
     as_policyBindingId := default "" (Evaluation.bd_id <$> Evaluation.res_binding e);
     as_observedPolicyDependencyDigest := default "" (Evaluation.bd_dependencyDigest <$> Evaluation.res_binding e);
     as_evaluatorVersion := Evaluation.RESOLVER_VERSION; as_evidence := evidence;
     as_modelAndPromptManifestId := model |}.

(** The condition of a matching version. *)
Definition opened_for (e : Evaluation.PolicyEvaluationResult) (version : MatchedVersion)
    (result : Dsl.PolicyEvaluationOutcome) (manifestId : string) : CreateConditionArgs :=
  {| ka_code := Dsl.oc_condition (Dsl.doc_outcome (mv_rule version)); ka_description := rule_text (Dsl.ev_reason result);
     ka_policyVersionId := mv_policyVersionId version; ka_ruleId := mv_ruleId version;
     ka_policySnapshotId := Evaluation.sn_id (Evaluation.res_snapshot e);
     ka_expectedCaseVersion := ag_caseVersion (ip_initialState input); ka_evaluationManifestId := Some manifestId |}.

(** In this order: the case was read in [wl] and evaluated in [we], the facts
    were read in [wf] and recorded in [wm], and the condition was written in
    [ww]. *)
Definition justification (h : list World) (a : AgentAction) : Prop :=
  exists wl we wf wm ww e c version result manifest model,
    [wl; we; wf; wm; ww] `sublist_of` h /\
    evaluated wl we e /\
    find_case tenant case wf = Some c /\
    first_match (map matched_version (Resolver.versions (Evaluation.resolution e)))
      (fact_context number c (latest_income tenant case wf)) = Some (version, result) /\
    (assemble sha256 iso fresh (recorded_inputs e (option_list (latest_income tenant case wf)) model) wm).1 = Ok manifest /\
    condition_written fresh tenant case (opened_for e version result (em_id manifest)) (aa_conditionId a) ww
      (write_condition fresh hmac json secret tenant case (opened_for e version result (em_id manifest)) ww).2 /\
    aa_code a = Dsl.oc_condition (Dsl.doc_outcome (mv_rule version)).

(** The evaluation resolved, and no rule matches: either no version applies,
    or none matches the facts that were read in [wf]. *)
Definition nothing_matches (h : list World) : Prop :=
  exists wl we wm e manifest model, evaluated wl we e /\
    ([wl; we; wm] `sublist_of` h /\ Resolver.versions (Evaluation.resolution e) = [] /\
     (assemble sha256 iso fresh (recorded_inputs e [] model) wm).1 = Ok manifest \/
     exists wf c, [wl; we; wf; wm] `sublist_of` h /\ find_case tenant case wf = Some c /\
       first_match (map matched_version (Resolver.versions (Evaluation.resolution e)))
         (fact_context number c (latest_income tenant case wf)) = None /\
       (assemble sha256 iso fresh (recorded_inputs e (option_list (latest_income tenant case wf)) model) wm).1 =
         Ok manifest).

(** What is proposed is justified, and if nothing is, then for a reason. *)
Definition outcome_ok (r : result Failure RuntimeState) (h : list World) : Prop :=
  match r with
  | Ok state => match ag_proposedAction (st_agentState state) with
                | Some a => st_route state = Some PROPOSED_ACTION /\ justification h a
                | None => st_route state = Some PROPOSED_ACTION -> nothing_matches h
                end
  | Err _ => True
  end.

Lemma justification_prefix h h' a : justification h a -> h `prefix_of` h' -> justification h' a.
Proof.
  intros (wl & we & wf & wm & ww & e & c & v & r & m & p & Hs & H) Hp.
  exists wl, we, wf, wm, ww, e, c, v, r, m, p. split; [|exact H]. by eapply sublist_prefix.
Qed.

Lemma nothing_matches_prefix h h' : nothing_matches h -> h `prefix_of` h' -> nothing_matches h'.
Proof.
  intros (wl & we & wm & e & m & p & He & H) Hp. exists wl, we, wm, e, m, p. split; [done|].
  destruct H as [(H1 & H)|(wf & c & H1 & H)]; [left|right; exists wf, c]; (split; [|exact H]); by eapply sublist_prefix.
Qed.

Lemma nothing_proposed r h : before_ok r h -> outcome_ok r h.
Proof. destruct r as [state|]; [|done]. intros [_ H Hr _]. unfold outcome_ok. by rewrite H. Qed.

(** The bookkeeping of a node that proposes nothing. *)
Ltac nothing := unfold outcome_ok; cbn; repeat match goal with H : same_run _ _ |- _ => destruct H as [_ _ H] end;
  match goal with |- context [ag_proposedAction ?s] => replace (ag_proposedAction s) with (@None AgentAction) by congruence end;
  review_only.

Lemma draft_outcome s version result conditionId state a hist :
  ag_proposedAction s = None ->
  aa_conditionId a = conditionId -> aa_code a = Dsl.oc_condition (Dsl.doc_outcome (mv_rule version)) ->
  justification hist a ->
  along outcome_ok (draft_remediation message_of sha256 iso collation reason_text rule_text fresh hmac json secret
    policy_env evaluation_call gap input registry s version result conditionId state) hist.
Proof.
  intros Hn Hid Hcode HJ. apply along_bind, along_budgeted.
  - intros s' tr h Hh Hs. nothing.
  - done.
  - intros rid h Hh. apply along_any; [done|]. intros [v|e] h1 Hh1 s' h2 Hh2 Hs; [|done].
    apply along_bind, along_recordAttempt. intros s2 h3 Hh3 Hs2.
    destruct (tv_outcome v); [|nothing]. destruct (tv_result v) as [[]|]; try nothing.
    cbn. split; [done|]. assert (hist `prefix_of` h3) as Hp by (repeat (eassumption || etrans)).
    destruct (justification_prefix _ _ _ HJ Hp) as
      (wl & we & wf & wm & ww & e & c & v0 & r & m & p & H1 & H2 & H3 & H4 & H5 & H6 & H7).
    exists wl, we, wf, wm, ww, e, c, v0, r, m, p. rewrite Hid in H6. split_and!; try done. cbn. congruence.
Qed.

(** What is known when the condition is about to be opened. *)
Definition about_to_open (h : list World) (args : CreateConditionArgs) (version : MatchedVersion) : Prop :=
  forall h' ww id action,
    h `prefix_of` h' -> (write_condition fresh hmac json secret tenant case args ww).1 = Ok (CREATED id) ->
    aa_conditionId action = id -> aa_code action = Dsl.oc_condition (Dsl.doc_outcome (mv_rule version)) ->
    justification (h' ++ [ww]) action.

Lemma open_outcome stepped evaluation version result manifestId state hist :
  ag_proposedAction stepped = None ->
  about_to_open hist (condition_args rule_text (st_agentState state) evaluation version result manifestId) version ->
  along outcome_ok (open_condition message_of sha256 iso collation reason_text rule_text fresh hmac json secret
    policy_env evaluation_call gap input registry stepped evaluation version result manifestId state) hist.
Proof using registered.
  intros Hn HO. apply along_bind, along_budgeted.
  - intros s' tr h Hh Hs. nothing.
  - done.
  - intros rid h Hh. apply along_invoke.
    + intros v Hv h1 Hh1 s' h2 Hh2 Hs. apply along_bind, along_recordAttempt. intros s2 h3 Hh3 Hs2. rewrite Hv.
      nothing.
    + intros tool Hin Hname. destruct (the_tool _ _ Hin Hname) as [_ ->]; [|done].
      cbn [tl_execute createConditionTool]. apply along_bind. unfold createCondition. apply along_bind.
      intros w1. cbn [Threads.along]. unfold load_case, mbind, M_bind, gets, or_throw.
      destruct (find_case _ _ w1) as [x|]; [|done]. cbn [mret M_ret fst].
      destruct (negb _); [by cbn; intros s' h2 Hh2 Hs w3|].
      intros ww. cbn [Threads.along]. cbn [tc_tenantId tc_caseId toolContext].
      destruct (write_condition _ _ _ _ _ _ _ ww).1 as [[id|]|] eqn:Ew; [| |done].
      2:{ by cbn; intros s' h2 Hh2 Hs w3. }
      cbn [Threads.along mret Prog_ret]. intros s' h2 Hh2 Hs. apply along_bind, along_recordAttempt. intros s2 h3 Hh3 Hs2.
      cbn [tv_outcome tv_result].
      apply (draft_outcome _ _ _ _ _ {| aa_tool := "create_condition"; aa_conditionId := id;
        aa_code := Dsl.oc_condition (Dsl.doc_outcome (mv_rule version)); aa_communicationMessageId := "" |}); try done.
      * destruct Hs as [_ _ Hs], Hs2 as [_ _ Hs2]. congruence.
      * apply (justification_prefix ((h ++ [w1]) ++ [ww])); [|by etrans].
        apply (HO _ ww id); try done. etrans; [exact Hh|by eexists].
Qed.

Lemma along_step s name Φ hist :
  (forall s' tr h, hist `prefix_of` h -> same_run s s' -> Φ (Ok (NotStepped s' tr)) h) ->
  (forall s' h, hist `prefix_of` h -> same_run s s' -> Φ (Ok (Stepped s')) h) -> (forall e h, Φ (Err e) h) ->
  along Φ (consumeBudgetedRuntimeStep iso fresh gap s name) hist.
Proof.
  intros Hn Hs He. unfold consumeBudgetedRuntimeStep, budgetExceeded. apply along_bind, along_gets_bind. intros w1.
  cbn [Threads.along mret Prog_ret]. assert (hist `prefix_of` hist ++ [w1]) as Hp1 by by eexists.
  destruct (exceeded_at _ _ _); [by apply Hn|].
  assert (forall e h, hist `prefix_of` h -> along Φ (on_budget_error (fun code message => mret
    (NotStepped s (budget_trigger code message))) e) h) as Hb.
  { intros e h Hh. destruct e as [[]| | | | | | | | | | |]; cbn; auto. by apply Hn. }
  apply along_catch, along_bind. intros w2. cbn [Threads.along].
  assert (hist `prefix_of` (hist ++ [w1]) ++ [w2]) as Hp2 by (etrans; [exact Hp1|by eexists]).
  destruct (on_budget _ _ w2).1 as [rc|e]; [|by apply Hb]. apply along_bind. intros w3. cbn [Threads.along].
  assert (hist `prefix_of` ((hist ++ [w1]) ++ [w2]) ++ [w3]) as Hp3 by (etrans; [exact Hp2|by eexists]).
  destruct (on_budget _ _ w3).1 as [u|e]; [|by apply Hb]. by apply Hs.
Qed.

Lemma outcome_outcome state hist :
  before_outcome state hist ->
  along outcome_ok (resolveOutcomeNode message_of sha256 iso collation reason_text rule_text number fresh hmac json
    secret policy_env evaluation_call gap input registry state) hist.
Proof using registered.
  intros [Bv Ba Br Be]. unfold resolveOutcomeNode. apply along_bind, along_step; [|intros stepped h1 Hh1 Hs|done].
  { intros s' tr h Hh Hs. nothing. }
  destruct (st_policyEvaluation state) as [ev|] eqn:Eev; [|done].
  destruct (Be ev eq_refl) as (wl & we & e & Hsub & Hev & -> & Hb).
  assert (ag_proposedAction stepped = None) as Hnone by (destruct Hs as [_ _ Hs]; congruence).
  cbn [er_matchedVersions policy_result].
  destruct (map matched_version (Resolver.versions (Evaluation.resolution e))) as [|v0 vs] eqn:Evs.
  { apply map_eq_nil in Evs. apply along_bind. intros wm. cbn [Threads.along].
    destruct (assemble _ _ _ _ wm).1 as [manifest|] eqn:Em; [|done]. unfold outcome_ok. cbn. rewrite Hnone. intros _.
    exists wl, we, wm, e, manifest, (ag_modelAndPromptManifestId (st_agentState state)). split; [done|]. left.
    split_and!; [|done|].
    - by apply (sublist_snoc [wl; we] hist).
    - rewrite <- Em. unfold manifest_input, recorded_inputs. by rewrite Bv, Hb. }
  assert (forall wf wm, [wl; we; wf; wm] `sublist_of` (h1 ++ [wf]) ++ [wm]) as Hread.
  { intros wf wm. apply (sublist_snoc [wl; we; wf] (h1 ++ [wf])); [|done]. by apply (sublist_snoc [wl; we] hist). }
  rewrite <- Evs. apply along_gets_bind. intros wf. apply along_bind. cbn [Threads.along read_facts fst snd].
  destruct (find_case _ _ wf) as [c|] eqn:Hc; [|done].
  apply along_bind. intros wm. cbn [Threads.along].
  destruct (assemble _ _ _ _ wm).1 as [manifest|] eqn:Em; [|done].
  assert ((assemble sha256 iso fresh (recorded_inputs e (option_list (latest_income tenant case wf))
    (ag_modelAndPromptManifestId (st_agentState state))) wm).1 = Ok manifest) as Em'.
  { rewrite <- Em. unfold manifest_input, recorded_inputs. rewrite Bv, Hb. cbn. by destruct (latest_income _ _ wf). }
  destruct (first_match _ _) as [[version result]|] eqn:Efm.
  2:{ unfold outcome_ok. cbn. rewrite Hnone. intros _.
      exists wl, we, wm, e, manifest, (ag_modelAndPromptManifestId (st_agentState state)). split; [done|]. right.
      by exists wf, c. }
  apply open_outcome; [done|]. intros h' ww id action Hp Ew Hid Hcode.
  exists wl, we, wf, wm, ww, e, c, version, result, manifest, (ag_modelAndPromptManifestId (st_agentState state)).
  split_and!; try done.
  - by apply (sublist_snoc [wl; we; wf; wm] ((h1 ++ [wf]) ++ [wm])).
  - rewrite Hid. unfold condition_args in Ew. rewrite Bv in Ew. by apply write_condition_spec.
Qed.

Lemma graph_outcome state hist :
  before_outcome state hist -> along outcome_ok (graph input registry state) hist.
Proof using registered.
  intros HB. unfold Runtime.graph, unless_routed, verifyConsentNode. apply along_bind. cbn [Threads.along mret Prog_ret].
  assert (before_outcome (match consentInvalid (st_agentState state) with
    | Some trigger => routeMandatoryReview (st_agentState state) trigger state | None => state end) hist) as H1.
  { destruct (consentInvalid _); [|done]. eapply before_same; [exact HB|done..|review_only]. }
  revert H1. generalize (match consentInvalid (st_agentState state) with
    | Some trigger => routeMandatoryReview (st_agentState state) trigger state | None => state end).
  intros s1 H1.
  assert (forall node s h (f : RuntimeState -> prog RuntimeState), before_outcome s h ->
    (forall s h, before_outcome s h -> along before_ok (node s) h) ->
    (forall s h, before_outcome s h -> along outcome_ok (f s) h) ->
    along outcome_ok (match st_route s with Some _ => mret s | None => node s end ≫= f) h) as Hstep.
  { intros node s h f Hs Hnode Hf. apply along_bind. destruct (st_route s); [by apply Hf|].
    eapply along_mono; [|by apply Hnode]. intros [s'|e] h' H'; [by apply Hf|done]. }
  apply Hstep; [done|by apply completeness_before|]. intros s2 h2 H2.
  apply Hstep; [done|by apply planner_before|]. intros s3 h3 H3.
  apply Hstep; [done|by apply evaluation_before|]. intros s4 h4 H4.
  destruct (st_route s4); [|by apply outcome_outcome]. by apply nothing_proposed.
Qed.
End Input.

Lemma run_outcome input h r :
  ag_proposedAction (ip_initialState input) = None -> reach (run input) h (Done (Ok r)) ->
  match ag_proposedAction (rr_finalState r) with
  | Some a => rr_route r = PROPOSED_ACTION /\ justification input h a
  | None => rr_route r = PROPOSED_ACTION -> nothing_matches input h
  end.
Proof.
  intros Hinit Hr. apply (along_reach (fun _ _ => True) (fun x h => match x with Ok r =>
    match ag_proposedAction (rr_finalState r) with
    | Some a => rr_route r = PROPOSED_ACTION /\ justification input h a
    | None => rr_route r = PROPOSED_ACTION -> nothing_matches input h
    end | Err _ => True end) _ _ _ []) in Hr; [exact Hr|].
  unfold Runtime.run. apply along_gets_bind. intros s1. apply along_bind. intros s2. cbn [Threads.along].
  destruct (on_budget _ _ s2).1 as [b|]; [|done].
  apply along_bind. cbn [Threads.along]. destruct (buildToolRegistry _) as [registry|] eqn:Er; [|done].
  apply along_bind. eapply along_mono; [|apply graph_outcome].
  - intros [final|] h1 Hf; [|done]. apply along_bind. intros w. cbn [Threads.along]. cbn. cbn in Hf.
    assert (h1 `prefix_of` h1 ++ [w]) as Hp by by eexists.
    destruct (ag_proposedAction (st_agentState final)) as [a|].
    + destruct Hf as [-> Hj]. split; [done|]. by eapply justification_prefix.
    + destruct (st_route final) as [[]|]; try done. intros _. eapply nothing_matches_prefix; [by apply Hf|done].
  - intros name tool Hin. destruct (AgentTheorems.registered _ _ _ _ _ Er Hin) as [H|[H <-]].
    { by apply lookup_empty_Some in H. }
    apply list_elem_of_In, filter_In in H as [H _]. split; [by apply list_elem_of_In|done].
  - split; [done..|]. by intros ev [=].
Qed.


(** What a run that proposes that nothing is to be done has established. *)
Lemma clean_run input h r :
  ag_proposedAction (ip_initialState input) = None -> reach (run input) h (Done (Ok r)) ->
  rr_route r = PROPOSED_ACTION -> ag_proposedAction (rr_finalState r) = None ->
  ag_consentStatus (ip_initialState input) = Consent.VALID /\ nothing_matches input h.
Proof.
  intros Hi Hr Hroute Hn. split.
  - destruct (ag_consentStatus (ip_initialState input)) eqn:Hc; [done|..];
      (apply AgentTheorems.without_consent_reviewed in Hr as [Hr _]; congruence).
  - pose proof (run_outcome input h r Hi Hr) as H. rewrite Hn in H. auto.
Qed.
End Run.

(** ** Runs *)

Import AgentExamples.
#[local] Existing Instance Evaluation.resolver0.

End AgentOutcome.
