(* ===== verification/CaseActivities.v ===== *)
(** * The activities of the case workflow

    src/workflows/case-conditions.activities.ts: everything the workflow does
    to the world.  Each activity is one [Threads.Prog]; its writes go through
    [runInTenantContext], one transaction with the outbox events it produces.
    The evidence activities go through the provider dispatch of
    [ProviderDispatch], the evaluation through the runtime of [AgentRuntime].

    The console messages are left out. *)

From Stdlib Require Import Ascii SpecFloat.
From stdpp Require Import gmap strings list pretty.
From S2P Require Import Prelude BudgetLedger PolicyDsl PolicyDigest PolicyResolver PolicyEvaluation PolicyActivation Concurrency ProviderTables Consent ProviderPlatform ProviderDispatch WebhookGuard Outbox Communications AgentTables AgentTools AgentPlanner AgentRuntime.

Module Activities.
Import Threads Agent Tools Planner Runtime.
#[local] Existing Instance Comms.CommunicationTemplateStatus_eq.

Inductive EvaluationOutcome := READY | CONDITION_OPENED | REVIEW_REQUIRED | INTERRUPTED.
#[export] Instance EvaluationOutcome_eq : EqDecision EvaluationOutcome.
Proof. solve_decision. Defined.

Record EvaluateConditionsResult := {
  ec_outcome : EvaluationOutcome;
  ec_conditionId : option string;
  ec_reviewReason : option string }.

Inductive ConditionResolutionKind := Resolve_SATISFIED | Resolve_WAIVED.
#[export] Instance ConditionResolutionKind_eq : EqDecision ConditionResolutionKind.
Proof. solve_decision. Defined.

Inductive PrepareWorkflowRecoveryResult :=
| REUSE_OPEN_CONDITION (conditionId : string)
| RESTART_COLLECTION
| RECOVERY_REVIEW_REQUIRED (reviewReason : string).

Definition DEFAULT_AGENT_RUN_STEP_BUDGET : Z := 10.
Definition DEFAULT_AGENT_RUN_DURATION_BUDGET_MS : Z := 75000.

(** The step budget and the duration budget. *)
Definition resolveAgentRunBudget (tenant : Ledger.Tenant) : Z * Z :=
  (default DEFAULT_AGENT_RUN_STEP_BUDGET (Ledger.agentRunStepBudgetOverride tenant),
   default DEFAULT_AGENT_RUN_DURATION_BUDGET_MS (Ledger.agentRunDurationBudgetMsOverride tenant)).

Definition AGENT_ALLOWED_TOOLS : list string :=
  ["check_case_completeness"; "evaluate_policy"; "create_condition"; "draft_information_request"].

Definition READY_FOR_UNDERWRITING_TEMPLATE_KEY : string := "READY_FOR_UNDERWRITING_NOTICE".
Definition READY_FOR_UNDERWRITING_TEMPLATE_VERSION : string := "1".

Section Activities.
Context (message_of : Failure -> string).

(** What [callProviderWithRetryClassification] throws for what it caught. *)
Definition retry_classification (e : Failure) : Failure :=
  let nonRetryable type := ApplicationFailure true type (message_of e) in
  match e with
  | ProviderFailure Tables.ProviderRejection => nonRetryable "TerminalProviderFailure"
  | ProviderFailure (Tables.ProviderUnavailable true) =>
      ApplicationFailure false "TransientProviderFailure" (message_of e)
  | ProviderFailure (Tables.ProviderRevalidation _) | ProviderFailure Tables.ProviderConsentScope
  | ProviderFailure (Tables.PermissiblePurpose _) => nonRetryable "ProviderAuthorizationRevalidationFailed"
  | ProviderFailure Tables.ProviderIntentConflict => nonRetryable "ProviderIntentConflictError"
  | ProviderFailure (Tables.ProviderIntentReplayBlocked _) => nonRetryable "ProviderIntentReplayBlockedError"
  | ProviderFailure Tables.ProviderDisabled => nonRetryable "ProviderDisabled"
  | _ => e
  end.

Definition callProviderWithRetryClassification {A} (fn : prog A) : prog A :=
  pcatch fn (fun e => fail (retry_classification e)).

(** Whether Temporal may run the activity again. *)
Definition retryable (e : Failure) : bool :=
  match e with ApplicationFailure nonRetryable _ _ => negb nonRetryable | _ => true end.

Context (sha256 digest : Dsl.value -> string) (sha256_hex : string -> string).
Context (iso : Z -> string) (collation : string -> Z) (reason_text : Resolver.Unresolved -> string).
Context (rule_text : Dsl.Reason -> string) (number : string -> spec_float).
Context (fresh : nat -> string) (hmac : string -> string -> string) (json : Dsl.value -> string)
  (outboxSigningSecret : string).
Context {RES : Evaluation.PolicyResolver} (policy_env : nat -> Evaluation.PolicyDb -> Evaluation.PolicyDb)
  (evaluation_call : World -> Evaluation.Call) (gap : Ledger.DB -> Ledger.DB).
Context (agentPlanner : option AgentPlannerPort).
(** The encryption of payloads, the parser of dates, the schemas of findings,
    and the adapters that were registered. *)
Context (encrypt : string -> string -> Dsl.value -> Dsl.value) (decrypt : string -> Dsl.value -> option Dsl.value).
Context (parse_date : string -> option Z).
Context (safeParse : Tables.ProviderCapability -> Dsl.value -> option Dsl.value) (registry : Platform.Registry).

(** [runInTenantContext(dataSource, tenantId, work)] *)
Definition in_tenant {A} (work : M World Failure A) : prog A := atomically (transaction work).

Definition outbox_event := writeOutboxEvent fresh hmac json outboxSigningSecret.

Definition null_or_text (o : option string) : Dsl.value :=
  match o with Some s => Dsl.VString s | None => Dsl.VNull end.

(** ** The notification *)

Definition readyNotificationTools : AgentToolRegistry :=
  match buildToolRegistry [draftInformationRequestTool sha256 fresh;
                           sendInformationRequestTool sha256_hex fresh hmac json outboxSigningSecret] with
  | Ok r => r
  | Err _ => ∅
  end.

Definition ready_template (tenantId : string) (w : World) : option Comms.CommunicationTemplate :=
  find_row (fun t => String.eqb (Comms.ct_tenantId t) tenantId &&
                     String.eqb (Comms.ct_templateKey t) READY_FOR_UNDERWRITING_TEMPLATE_KEY &&
                     String.eqb (Comms.ct_version t) READY_FOR_UNDERWRITING_TEMPLATE_VERSION &&
                     bool_decide (Comms.ct_status t = Comms.TEMPLATE_APPROVED)) (Comms.templates (w_comms w)).

Definition ready_notice (caseId : string) : Comms.DraftCommunicationInput :=
  {| Comms.di_recipientRelationship := "BORROWER"; Comms.di_channel := "EMAIL"; Comms.di_locale := "en-US";
     Comms.di_templateKey := Some READY_FOR_UNDERWRITING_TEMPLATE_KEY;
     Comms.di_templateVersion := Some READY_FOR_UNDERWRITING_TEMPLATE_VERSION;
     Comms.di_variables := [("caseId", caseId)]; Comms.di_freeformContent := None;
     Comms.di_hasAttachments := false |}.

(** Every failure ends here. *)
Definition sendReadyForUnderwritingNotification (tenantId caseId : string) : prog unit :=
  let context := {| tc_tenantId := tenantId; tc_caseId := caseId; tc_budgetReservationId := None |} in
  pcatch
    (template ← in_tenant (gets (ready_template tenantId));
     match template with
     | None => mret tt
     | Some _ =>
         drafted ← invokeTool message_of readyNotificationTools "draft_information_request" context
           (DraftInformationRequest (ready_notice caseId));
         match tv_outcome drafted, tv_result drafted with
         | SUCCESS, Some (DraftResult messageId _ _) =>
             _ ← invokeTool message_of readyNotificationTools "send_information_request" context
                   (SendInformationRequest messageId);
             mret tt
         | _, _ => mret tt
         end
     end)
    (fun _ => mret tt).

(** ** Statements of several activities *)

Definition finalizeReadyForUnderwriting (tenantId caseId : string) (expectedCaseVersion : option Z)
  : M World Failure unit :=
  affected ← update_case tenantId caseId
    (match expectedCaseVersion with Some v => at_version v | None => any_case end) READY_FOR_UNDERWRITING;
  _ ← (match expectedCaseVersion with
       | Some v => guard_throw (bool_decide (affected = 0%nat)) (StaleCaseVersion caseId v)
       | None => mret tt
       end);
  outbox_event tenantId caseId Outbox.WorkflowRunCompleted
    (Dsl.VObject [("caseId", Dsl.VString caseId);
       ("finalStatus", Dsl.VString (case_status_text READY_FOR_UNDERWRITING))]).

Definition evidence_row (id tenantId caseId factType sourceIdentifier : string) (value : Dsl.value) (now dbnow : Z)
  : Tables.EvidenceFact :=
  {| Tables.ev_id := id; Tables.ev_tenantId := tenantId; Tables.ev_caseId := caseId; Tables.ev_factType := factType;
     Tables.ev_sourceKind := "SIMULATOR"; Tables.ev_sourceIdentifier := sourceIdentifier; Tables.ev_value := value;
     Tables.ev_observedAt := now; Tables.ev_validThrough := None; Tables.ev_version := 1; Tables.ev_createdAt := dbnow |}.

Definition recordEvidence (tenantId caseId factType sourceIdentifier : string) (value : Dsl.value)
  : M World Failure unit :=
  id ← new_id fresh;
  taken ← gets (fun w => Tables.evidence (w_tables w) !! id);
  _ ← guard_throw (bool_decide (is_Some taken)) UniqueViolation;
  _ ← modify (fun w => put_tables (Tables.with_evidence
        (<[id := evidence_row id tenantId caseId factType sourceIdentifier value (date_now w) (w_dbclock w)]>
           (Tables.evidence (w_tables w))) (w_tables w)) w);
  outbox_event tenantId caseId Outbox.EvidenceUpdated
    (Dsl.VObject [("caseId", Dsl.VString caseId); ("evidenceType", Dsl.VString factType);
       ("sourceIdentifier", Dsl.VString sourceIdentifier)]).

(** Set the status and say so. *)
Definition mark_case (tenantId caseId : string) (status : CaseStatus) (eventType : string) (payload : Dsl.value)
  : M World Failure unit :=
  _ ← update_case tenantId caseId any_case status;
  outbox_event tenantId caseId eventType payload.

Definition case_payload (caseId : string) : Dsl.value := Dsl.VObject [("caseId", Dsl.VString caseId)].
Definition reason_payload (caseId reason : string) : Dsl.value :=
  Dsl.VObject [("caseId", Dsl.VString caseId); ("reason", Dsl.VString reason)].

(** ** The activities *)

Definition markCollectingEvidence (tenantId caseId : string) : prog unit :=
  in_tenant (mark_case tenantId caseId COLLECTING_EVIDENCE Outbox.WorkflowRunStarted (case_payload caseId)).

Definition active_condition (tenantId caseId : string) (c : LoanCondition) : bool :=
  String.eqb (cn_tenantId c) tenantId && String.eqb (cn_caseId c) caseId &&
  bool_decide (cn_status c ∈ [OPEN; IN_PROGRESS; WAITING_FOR_EVIDENCE]).

(** [order: { createdAt: 'ASC' }] *)
Definition active_conditions (tenantId caseId : string) (w : World) : list LoanCondition :=
  order_by cn_createdAt (find_rows (active_condition tenantId caseId) (w_conditions w)).

(** The active conditions are read without a lock: what is written depends on
    what was read, not on what is there at the time. *)
Definition prepareWorkflowRecovery (tenantId caseId recoveryOfRunId : string) : prog PrepareWorkflowRecoveryResult :=
  conditions ← atomically (gets (active_conditions tenantId caseId));
  in_tenant (
    _ ← outbox_event tenantId caseId Outbox.WorkflowRunRecoveryStarted
          (Dsl.VObject [("caseId", Dsl.VString caseId); ("recoveryOfRunId", Dsl.VString recoveryOfRunId);
             ("activeConditionCount", int_value (Z.of_nat (length conditions)))]);
    match conditions with
    | [] => mret RESTART_COLLECTION
    | [c] =>
        _ ← update_case tenantId caseId any_case CONDITIONS_OPEN;
        mret (REUSE_OPEN_CONDITION (cn_id c))
    | _ => mret (RECOVERY_REVIEW_REQUIRED
             "recovery found multiple active conditions; reviewer selection is required")
    end).

(** *** Evidence *)

Definition ask_provider (r : Reply) : Dispatch.ProviderAnswer :=
  match r with ProviderSaid a => a | _ => Dispatch.OtherError false end.

Definition on_tables {A} (p : Prog Tables.Db Tables.Failure Dispatch.Submission Dispatch.ProviderAnswer A) : prog A :=
  embed w_tables put_tables ProviderFailure AskProvider ask_provider p.

Definition dispatch_ids : M World Failure Dispatch.DispatchIds :=
  a ← new_id fresh; b ← new_id fresh; c ← new_id fresh; d ← new_id fresh; e ← new_id fresh; f ← new_id fresh;
  mret {| Dispatch.di_decisionId := a; Dispatch.di_grantId := b; Dispatch.di_intentId := c;
          Dispatch.di_idempotencyKey := d; Dispatch.di_iv1 := e; Dispatch.di_iv2 := f |}.

Definition evidence_request (tenantId caseId borrowerId : string) (capability : Tables.ProviderCapability)
  : Dispatch.DispatchProviderRequestParams :=
  {| Dispatch.dp_tenantId := tenantId; Dispatch.dp_caseId := caseId; Dispatch.dp_borrowerSubjectId := borrowerId;
     Dispatch.dp_capability := capability; Dispatch.dp_mode := None;
     Dispatch.dp_request := Dsl.VObject [("borrowerId", Dsl.VString borrowerId)];
     Dispatch.dp_purposeCode := "UNDERWRITING_EVIDENCE";
     Dispatch.dp_permittedDataClasses := [Tables.capability_text capability];
     Dispatch.dp_logicalOperationKey := None; Dispatch.dp_permittedFields := None;
     Dispatch.dp_permissiblePurposeDecisionId := None |}.

(** The five evidence activities have this body. *)
Definition fetch_evidence (capability : Tables.ProviderCapability) (source tenantId caseId borrowerId : string)
  : prog Dsl.value :=
  ids ← atomically dispatch_ids;
  finding ← callProviderWithRetryClassification
    (on_tables (Dispatch.dispatchProviderRequest encrypt decrypt sha256 parse_date safeParse registry ids
       (evidence_request tenantId caseId borrowerId capability)));
  _ ← in_tenant (recordEvidence tenantId caseId (Tables.capability_text capability) source finding);
  mret finding.

Definition fetchIncomeEvidence := fetch_evidence Tables.INCOME "plaid-simulator".
Definition fetchCreditEvidence := fetch_evidence Tables.CREDIT "credit-bureau-simulator".
Definition fetchDocumentEvidence := fetch_evidence Tables.DOCUMENT "document-verification-simulator".
Definition fetchAssetEvidence := fetch_evidence Tables.ASSET "asset-verification-simulator".
Definition fetchIdentityEvidence := fetch_evidence Tables.IDENTITY "identity-verification-simulator".

(** *** Evaluation *)

Definition initial_state (tenantId caseId workflowRunId : string) (loanCase : LoanCase)
    (consentStatus : Consent.ConsentStatus) (tenant : Ledger.Tenant) (now : Z) : LendingOperationsAgentState :=
  {| ag_tenantId := tenantId; ag_caseId := caseId; ag_caseVersion := lc_version loanCase;
     ag_workflowRunId := workflowRunId; ag_consentStatus := consentStatus; ag_attemptedTools := [];
     ag_policyBindingId := None; ag_modelVersion := None; ag_promptVersion := None;
     ag_modelAndPromptManifestId := None; ag_remainingStepBudget := (resolveAgentRunBudget tenant).1;
     ag_remainingDurationBudgetMs := (resolveAgentRunBudget tenant).2;
     ag_remainingTokenBudget := match agentPlanner with Some p => pl_tokenBudgetUnits p | None => 0 end;
     ag_remainingProviderCallBudget := 0; ag_remainingCostBudgetMinorUnits := 0; ag_budgetCurrency := "USD";
     ag_budgetLedgerId := None; ag_budgetLedgerVersion := 1; ag_runStartedAt := now;
     ag_runDeadlineAt := now + (resolveAgentRunBudget tenant).2; ag_proposedAction := None;
     ag_reviewState := None |}.

Definition run_input (s : LendingOperationsAgentState) : AgentRunInput :=
  {| ip_initialState := s; ip_allowedTools := AGENT_ALLOWED_TOOLS;
     ip_budget := {| bg_stepBudget := ag_remainingStepBudget s; bg_tokenBudget := ag_remainingTokenBudget s;
                     bg_providerCallBudget := 0; bg_costBudgetMinorUnits := 0; bg_currency := "USD" |};
     ip_runDeadlineAt := ag_runDeadlineAt s |}.

Definition review_reason (s : LendingOperationsAgentState) (otherwise : string) : option string :=
  Some (default otherwise (match ag_reviewState s with Some r => rv_reason r | None => None end)).

Definition run_agent :=
  run message_of sha256 digest iso collation reason_text rule_text number fresh hmac json outboxSigningSecret
    policy_env evaluation_call gap agentPlanner.

(** [if (conditionId)]: the empty text is not one. *)
Definition proposed_condition (s : LendingOperationsAgentState) : option string :=
  match ag_proposedAction s with
  | Some a => if JS.truthy (aa_conditionId a) then Some (aa_conditionId a) else None
  | None => None
  end.

(** The tail of [evaluateConditions]. *)
Definition apply_route (tenantId caseId : string) (s0 : LendingOperationsAgentState) (r : AgentRunResult)
  : prog EvaluateConditionsResult :=
  let review outcome text := mret {| ec_outcome := outcome; ec_conditionId := None;
                                     ec_reviewReason := review_reason (rr_finalState r) text |} in
  match rr_route r with
  | PROPOSED_ACTION =>
      match proposed_condition (rr_finalState r) with
      | Some id => mret {| ec_outcome := CONDITION_OPENED; ec_conditionId := Some id; ec_reviewReason := None |}
      | None =>
          _ ← in_tenant (finalizeReadyForUnderwriting tenantId caseId (Some (ag_caseVersion s0)));
          _ ← sendReadyForUnderwritingNotification tenantId caseId;
          mret {| ec_outcome := READY; ec_conditionId := None; ec_reviewReason := None |}
      end
  | ROUTED_TO_MANUAL_REVIEW => review REVIEW_REQUIRED "agent run routed to manual review"
  | INTERRUPTED_FOR_REVIEW => review INTERRUPTED "ambiguity requires review"
  | AWAITING_INFORMATION =>
      mret {| ec_outcome := REVIEW_REQUIRED; ec_conditionId := None;
              ec_reviewReason := Some ("unexpected Agent run route " +:+ Comms.quote "AWAITING_INFORMATION") |}
  end.

Definition evaluateConditions (tenantId caseId workflowRunId : string) : prog EvaluateConditionsResult :=
  loanCase ← atomically (load_case tenantId caseId);
  consentStatus ← atomically (gets (fun w => Consent.getStatus tenantId caseId (w_tables w)));
  tenant ← atomically (row ← gets (fun w => Ledger.tenants (w_budget w) !! tenantId); or_throw row EntityNotFound);
  now ← atomically (gets date_now);
  let s0 := initial_state tenantId caseId workflowRunId loanCase consentStatus tenant now in
  r ← run_agent (run_input s0);
  apply_route tenantId caseId s0 r.

(** *** Resolution and terminal states *)

Definition set_condition_status (status : ConditionStatus) (c : LoanCondition) : LoanCondition :=
  {| cn_id := cn_id c; cn_tenantId := cn_tenantId c; cn_caseId := cn_caseId c; cn_code := cn_code c;
     cn_description := cn_description c; cn_status := status; cn_policySnapshotId := cn_policySnapshotId c;
     cn_evaluationManifestId := cn_evaluationManifestId c; cn_version := cn_version c + 1;
     cn_createdAt := cn_createdAt c |}.

Definition resolved_status (resolution : ConditionResolutionKind) : ConditionStatus :=
  match resolution with Resolve_SATISFIED => SATISFIED | Resolve_WAIVED => WAIVED end.
Definition resolution_text (resolution : ConditionResolutionKind) : string :=
  match resolution with Resolve_SATISFIED => "SATISFIED" | Resolve_WAIVED => "WAIVED" end.

Definition load_condition (tenantId conditionId : string) : M World Failure LoanCondition :=
  row ← gets (fun w => Tables.visible cn_tenantId tenantId (w_conditions w !! conditionId));
  or_throw row EntityNotFound.

(** [update({ id }, { status })] *)
Definition update_condition (tenantId conditionId : string) (status : ConditionStatus) : M World Failure unit :=
  row ← gets (fun w => Tables.visible cn_tenantId tenantId (w_conditions w !! conditionId));
  match row with
  | Some c => modify (fun w => put_conditions (<[conditionId := set_condition_status status c]> (w_conditions w)) w)
  | None => mret tt
  end.

Definition resolution_event (tenantId caseId conditionId actorId : string) (resolution : ConditionResolutionKind)
    (reason : option string) : M World Failure unit :=
  outbox_event tenantId caseId
    (match resolution with Resolve_SATISFIED => Outbox.ConditionSatisfied | Resolve_WAIVED => Outbox.ConditionWaived end)
    (Dsl.VObject [("caseId", Dsl.VString caseId); ("conditionId", Dsl.VString conditionId);
       ("actorId", Dsl.VString actorId); ("resolution", Dsl.VString (resolution_text resolution));
       ("reason", null_or_text reason)]).

(** The status that is recorded as the old one is the one that was read. *)
Definition resolveCondition (tenantId caseId conditionId actorId : string) (resolution : ConditionResolutionKind)
    (reason : option string) : prog unit :=
  condition ← atomically (load_condition tenantId conditionId);
  in_tenant (
    _ ← update_condition tenantId conditionId (resolved_status resolution);
    _ ← modify (fun w => put_transitions (w_transitions w ++
          [{| tr_conditionId := conditionId; tr_fromStatus := cn_status condition;
              tr_toStatus := resolved_status resolution; tr_actorId := Some actorId; tr_reason := reason |}]) w);
    resolution_event tenantId caseId conditionId actorId resolution reason).

Definition markReadyForUnderwriting (tenantId caseId : string) : prog unit :=
  _ ← in_tenant (finalizeReadyForUnderwriting tenantId caseId None);
  sendReadyForUnderwritingNotification tenantId caseId.

Definition markWaitingForReview (tenantId caseId reason : string) : prog unit :=
  in_tenant (mark_case tenantId caseId WAITING_FOR_REVIEW Outbox.EvaluationInterrupted (reason_payload caseId reason)).

Definition markManualReview (tenantId caseId reason : string) : prog unit :=
  in_tenant (mark_case tenantId caseId MANUAL_REVIEW Outbox.WorkflowRunFailed (reason_payload caseId reason)).

Definition cancellation_payload (caseId : string) (status : CaseStatus) : Dsl.value :=
  Dsl.VObject [("caseId", Dsl.VString caseId); ("scope", Dsl.VString "ORCHESTRATION_ONLY");
    ("providerCancellationAsserted", Dsl.VBool false);
    ("caseStatusAtCancellation", Dsl.VString (case_status_text status))].

(** The read takes no lock: the update is a statement of its own and sees what
    was committed in between. *)
Definition markWorkflowCancelled (tenantId caseId : string) : prog unit :=
  loanCase ← atomically (load_case tenantId caseId);
  in_tenant (
    _ ← (if bool_decide (lc_status loanCase ∈ [READY_FOR_UNDERWRITING; CLOSED]) then mret 0%nat
         else update_case tenantId caseId any_case MANUAL_REVIEW);
    outbox_event tenantId caseId Outbox.WorkflowRunCancelled (cancellation_payload caseId (lc_status loanCase))).
End Activities.
End Activities.
