(* ===== verification/CaseWorkflow.v ===== *)
(** * The case workflow

    src/workflows/case-conditions.workflow.ts.  Temporal replays the workflow
    function against its recorded events, so the function is modelled as what
    it is between two awaits: a [Position] with the two signal variables, and
    [on_event], its reaction to one event.  [Positions] below are the awaits of
    the function, in its order.

    [Sys] is the workflow together with the attempts of its activities: an
    attempt is a program of [CaseActivities] that runs statement by statement
    on the shared [World].  Temporal delivers a result at least once: an
    attempt can be lost (a crash of the worker, or its timeout), in which case
    it may still be running while the next one starts. *)

From Stdlib Require Import Ascii SpecFloat.
From stdpp Require Import gmap strings list pretty.
From S2P Require Import Prelude BudgetLedger PolicyDsl PolicyDigest PolicyResolver PolicyEvaluation PolicyActivation Concurrency ProviderTables Consent ProviderPlatform ProviderDispatch WebhookGuard Outbox Communications AgentTables AgentTools AgentPlanner AgentRuntime CaseActivities.

Module Workflow.
Import Threads Agent Planner Activities.
#[local] Existing Instance Tables.ProviderCapability_eq.

(** ** The interface *)

Record ResolveConditionSignalPayload := {
  rs_actorId : string;
  rs_resolution : ConditionResolutionKind;
  rs_reason : option string }.

(** The note is never read. *)
Record ResumeInterruptedEvaluationSignalPayload := { ri_actorId : string; ri_note : option string }.

Record CaseConditionsWorkflowInput := {
  wi_tenantId : string;
  wi_caseId : string;
  wi_borrowerId : string;
  wi_recoveryOfRunId : option string }.

Record CaseConditionsWorkflowResult := { wr_finalStatus : CaseStatus; wr_conditionId : option string }.

Inductive Activity :=
| MarkCollectingEvidence
| PrepareWorkflowRecovery (recoveryOfRunId : string)
| FetchEvidence (capability : Tables.ProviderCapability)
| EvaluateConditions
| ResolveCondition (conditionId : string) (resolution : ResolveConditionSignalPayload)
| MarkReadyForUnderwriting
| MarkWaitingForReview (reason : string)
| MarkManualReview (reason : string)
| MarkWorkflowCancelled.

(** What the proxy of an activity resolves with, or the text of its error. *)
Inductive ActivityResult :=
| Completed
| Recovery (r : PrepareWorkflowRecoveryResult)
| Evaluated (r : EvaluateConditionsResult)
| ActivityFailure (message : string).

Inductive WorkflowError := WorkflowCancelled | ActivityFailed (message : string).

(** ** The awaits *)

Inductive Position :=
| PreparingRecovery (recoveryOfRunId : string)
| CollectingEvidence
| FetchingEvidence (pending : list Tables.ProviderCapability)
| Evaluating
| Interrupting (reason : string)
| AwaitingResume
| AwaitingResolution (conditionId : string)
| ResolvingCondition (conditionId : string) (resolution : ResolveConditionSignalPayload)
| MarkingReady (conditionId : string)
| MarkingManualReview (reason : string)
| MarkingCancelled
| Returned (r : CaseConditionsWorkflowResult)
| Threw (e : WorkflowError).

Record State := {
  wf_position : Position;
  wf_resolution : option ResolveConditionSignalPayload;
  wf_interruptResolution : option ResumeInterruptedEvaluationSignalPayload }.

Definition at_ (p : Position) (s : State) : State :=
  {| wf_position := p; wf_resolution := wf_resolution s; wf_interruptResolution := wf_interruptResolution s |}.
Definition set_resolution (r : ResolveConditionSignalPayload) (s : State) : State :=
  {| wf_position := wf_position s; wf_resolution := Some r; wf_interruptResolution := wf_interruptResolution s |}.
Definition set_interrupt (r : option ResumeInterruptedEvaluationSignalPayload) (s : State) : State :=
  {| wf_position := wf_position s; wf_resolution := wf_resolution s; wf_interruptResolution := r |}.

(** The five fetches of [Promise.all]. *)
Definition EVIDENCE : list Tables.ProviderCapability :=
  [Tables.INCOME; Tables.CREDIT; Tables.DOCUMENT; Tables.ASSET; Tables.IDENTITY].

(** [runCaseConditionsWorkflow] up to its first await. *)
Definition start (input : CaseConditionsWorkflowInput) : State :=
  {| wf_position := match wi_recoveryOfRunId input with
                    | Some r => if JS.truthy r then PreparingRecovery r else CollectingEvidence
                    | None => CollectingEvidence
                    end;
     wf_resolution := None; wf_interruptResolution := None |}.

(** The activities an await is waiting for. *)
Definition awaited (p : Position) : list Activity :=
  match p with
  | PreparingRecovery r => [PrepareWorkflowRecovery r]
  | CollectingEvidence => [MarkCollectingEvidence]
  | FetchingEvidence pending => map FetchEvidence pending
  | Evaluating => [EvaluateConditions]
  | Interrupting reason => [MarkWaitingForReview reason]
  | AwaitingResume | AwaitingResolution _ => []
  | ResolvingCondition id r => [ResolveCondition id r]
  | MarkingReady _ => [MarkReadyForUnderwriting]
  | MarkingManualReview reason => [MarkManualReview reason]
  | MarkingCancelled => [MarkWorkflowCancelled]
  | Returned _ | Threw _ => []
  end.

Definition finished (s : State) : bool :=
  match wf_position s with Returned _ | Threw _ => true | _ => false end.

(** [condition(() => ...)]: the wait ends as soon as the variable is set. *)
Definition settle (s : State) : State :=
  match wf_position s with
  | AwaitingResolution id =>
      match wf_resolution s with Some r => at_ (ResolvingCondition id r) s | None => s end
  | AwaitingResume =>
      match wf_interruptResolution s with Some _ => at_ Evaluating (set_interrupt None s) | None => s end
  | _ => s
  end.

(** *** Results *)

Definition ready (conditionId : option string) : Position :=
  Returned {| wr_finalStatus := READY_FOR_UNDERWRITING; wr_conditionId := conditionId |}.
Definition manual : Position := Returned {| wr_finalStatus := MANUAL_REVIEW; wr_conditionId := None |}.

Definition after_recovery (r : PrepareWorkflowRecoveryResult) : Position :=
  match r with
  | REUSE_OPEN_CONDITION id => AwaitingResolution id
  | RESTART_COLLECTION => CollectingEvidence
  | RECOVERY_REVIEW_REQUIRED reason => MarkingManualReview reason
  end.

(** [evaluation.conditionId!] is passed on as it is. *)
Definition after_evaluation (r : EvaluateConditionsResult) (s : State) : State :=
  match ec_outcome r with
  | INTERRUPTED =>
      at_ (Interrupting (default "ambiguity requires review" (ec_reviewReason r))) (set_interrupt None s)
  | REVIEW_REQUIRED =>
      at_ (MarkingManualReview (default "agent run routed to manual review" (ec_reviewReason r))) s
  | READY => at_ (ready None) s
  | CONDITION_OPENED => at_ (AwaitingResolution (default "undefined" (ec_conditionId r))) s
  end.

(** The continuation of the await of [a] with its result. *)
Definition resume (a : Activity) (r : ActivityResult) (s : State) : State :=
  match wf_position s, r with
  | FetchingEvidence pending, ActivityFailure message => at_ (MarkingManualReview message) s
  | Evaluating, ActivityFailure message => at_ (MarkingManualReview message) s
  | _, ActivityFailure message => at_ (Threw (ActivityFailed message)) s
  | PreparingRecovery _, Recovery r => at_ (after_recovery r) s
  | CollectingEvidence, _ => at_ (FetchingEvidence EVIDENCE) s
  | FetchingEvidence pending, _ =>
      match a with
      | FetchEvidence c =>
          match List.filter (fun x => negb (bool_decide (x = c))) pending with
          | [] => at_ Evaluating s
          | pending => at_ (FetchingEvidence pending) s
          end
      | _ => s
      end
  | Evaluating, Evaluated r => after_evaluation r s
  | Interrupting _, _ => at_ AwaitingResume s
  | ResolvingCondition id _, _ => at_ (MarkingReady id) s
  | MarkingReady id, _ => at_ (ready (Some id)) s
  | MarkingManualReview _, _ => at_ manual s
  | MarkingCancelled, _ => at_ (Threw WorkflowCancelled) s
  | _, _ => s
  end.

Inductive Event :=
| SignalResolve (r : ResolveConditionSignalPayload)
| SignalResume (r : ResumeInterruptedEvaluationSignalPayload)
| CancelRequested
| ActivityCompleted (a : Activity) (r : ActivityResult).

#[export] Instance Payload_eq : EqDecision ResolveConditionSignalPayload.
Proof. solve_decision. Defined.
#[export] Instance Activity_eq : EqDecision Activity.
Proof. solve_decision. Defined.

(** A cancellation rejects whatever is awaited, and every activity that a
    [catch] then tries to start, until [markWorkflowCancelled] runs in its
    non-cancellable scope.  A result nobody awaits any more is dropped. *)
Definition on_event (e : Event) (s : State) : State :=
  if finished s then s else
  match e with
  | SignalResolve r => settle (set_resolution r s)
  | SignalResume r => settle (set_interrupt (Some r) s)
  | CancelRequested => at_ MarkingCancelled s
  | ActivityCompleted a r =>
      if bool_decide (a ∈ awaited (wf_position s)) then settle (resume a r s) else s
  end.

Definition on_events (input : CaseConditionsWorkflowInput) (es : list Event) : State :=
  foldl (fun s e => on_event e s) (start input) es.

(** ** The workflow and the attempts of its activities *)

(** [maximumAttempts: 3] *)
Definition maximumAttempts : nat := 3.

Record Task := {
  tk_activity : Activity;
  tk_attempt : nat;
  tk_running : Prog World Failure Request Reply ActivityResult }.

Section System.
Context (input : CaseConditionsWorkflowInput) (message_of : Failure -> string).
(** The activities, as programs. *)
Context (perform : Activity -> Prog World Failure Request Reply ActivityResult).

Record Sys := {
  sy_world : World;
  sy_events : list Event;
  sy_tasks : list Task;
  sy_lost : list (Prog World Failure Request Reply ActivityResult) }.

Definition sy_state (s : Sys) : State := on_events input (sy_events s).

Definition new_task (a : Activity) : Task := {| tk_activity := a; tk_attempt := 1; tk_running := perform a |}.

(** The activities an event makes the workflow start. *)
Definition started (before after : State) : list Activity :=
  List.filter (fun a => negb (bool_decide (a ∈ awaited (wf_position before)))) (awaited (wf_position after)).

(** An event, and the activities it makes the workflow start.  No await is
    followed by another one for the same activity. *)
Definition observe (e : Event) (s : Sys) : Sys :=
  {| sy_world := sy_world s; sy_events := sy_events s ++ [e];
     sy_tasks := sy_tasks s ++ map new_task (started (sy_state s) (on_event e (sy_state s)));
     sy_lost := sy_lost s |}.

Definition put_task (i : nat) (t : Task) (s : Sys) : Sys :=
  {| sy_world := sy_world s; sy_events := sy_events s; sy_tasks := <[i := t]> (sy_tasks s); sy_lost := sy_lost s |}.
Definition drop_task (i : nat) (s : Sys) : Sys :=
  {| sy_world := sy_world s; sy_events := sy_events s; sy_tasks := delete i (sy_tasks s); sy_lost := sy_lost s |}.
Definition put_world (w : World) (s : Sys) : Sys :=
  {| sy_world := w; sy_events := sy_events s; sy_tasks := sy_tasks s; sy_lost := sy_lost s |}.
Definition lose (p : Prog World Failure Request Reply ActivityResult) (s : Sys) : Sys :=
  {| sy_world := sy_world s; sy_events := sy_events s; sy_tasks := sy_tasks s; sy_lost := sy_lost s ++ [p] |}.
Definition put_lost (i : nat) (p : Prog World Failure Request Reply ActivityResult) (s : Sys) : Sys :=
  {| sy_world := sy_world s; sy_events := sy_events s; sy_tasks := sy_tasks s; sy_lost := <[i := p]> (sy_lost s) |}.

(** The next attempt, or the failure when there is none left. *)
Definition retry (i : nat) (t : Task) (again : bool) (message : string) (s : Sys) : Sys :=
  if again && (tk_attempt t <? maximumAttempts)%nat
  then put_task i {| tk_activity := tk_activity t; tk_attempt := S (tk_attempt t);
                     tk_running := perform (tk_activity t) |} s
  else observe (ActivityCompleted (tk_activity t) (ActivityFailure message)) (drop_task i s).

Definition running (p : Prog World Failure Request Reply ActivityResult) (t : Task) : Task :=
  {| tk_activity := tk_activity t; tk_attempt := tk_attempt t; tk_running := p |}.

Inductive move :=
| Deliver (e : Event)            (* a signal or a cancellation *)
| TaskStatement (i : nat)
| TaskAnswer (i : nat) (r : Reply)
| TaskReport (i : nat)           (* the attempt has returned or thrown *)
| TaskLost (i : nat) (message : string)
| LostStatement (i : nat)
| LostAnswer (i : nat) (r : Reply)
| Elsewhere (w : World).         (* other users of the database *)

Definition external (e : Event) : bool := match e with ActivityCompleted _ _ => false | _ => true end.

Definition play (m : move) (s : Sys) : option Sys :=
  match m with
  | Deliver e => if external e then Some (observe e s) else None
  | TaskStatement i =>
      match sy_tasks s !! i with
      | Some t =>
          match tk_running t with
          | Db m k => let (r, w) := m (sy_world s) in Some (put_world w (put_task i (running (k r) t) s))
          | _ => None
          end
      | None => None
      end
  | TaskAnswer i r =>
      match sy_tasks s !! i with
      | Some t => match tk_running t with
                  | Call q k => Some (put_task i (running (k r) t) s) | _ => None end
      | None => None
      end
  | TaskReport i =>
      match sy_tasks s !! i with
      | Some t =>
          match tk_running t with
          | Done (Ok r) => Some (observe (ActivityCompleted (tk_activity t) r) (drop_task i s))
          | Done (Err e) => Some (retry i t (retryable e) (message_of e) s)
          | _ => None
          end
      | None => None
      end
  | TaskLost i message =>
      match sy_tasks s !! i with
      | Some t => Some (lose (tk_running t) (retry i t true message s))
      | None => None
      end
  | LostStatement i =>
      match sy_lost s !! i with
      | Some (Db m k) => let (r, w) := m (sy_world s) in Some (put_world w (put_lost i (k r) s))
      | _ => None
      end
  | LostAnswer i r =>
      match sy_lost s !! i with Some (Call q k) => Some (put_lost i (k r) s) | _ => None end
  | Elsewhere w => Some (put_world w s)
  end.

(** [relied] is what the other users of the database may do. *)
Inductive step (relied : World -> World -> Prop) : Sys -> Sys -> Prop :=
| step_play m s s' :
    play m s = Some s' -> (forall w, m = Elsewhere w -> relied (sy_world s) w) -> step relied s s'.

Definition initial (w : World) : Sys :=
  {| sy_world := w; sy_events := []; sy_tasks := map new_task (awaited (wf_position (start input))); sy_lost := [] |}.

Definition reachable (relied : World -> World -> Prop) (w : World) (s : Sys) : Prop :=
  rtc (step relied) (initial w) s.

Fixpoint play_all (ms : list move) (s : Sys) : option Sys :=
  match ms with
  | [] => Some s
  | m :: ms => match play m s with Some s' => play_all ms s' | None => None end
  end.

(** Runs the oldest attempt until no activity is left, or for [fuel] moves. *)
Fixpoint drive (answer : Request -> Reply) (fuel : nat) (s : Sys) : Sys :=
  match fuel, sy_tasks s with
  | S fuel, t :: _ =>
      let m := match tk_running t with
               | Done _ => TaskReport 0 | Db _ _ => TaskStatement 0 | Call q _ => TaskAnswer 0 (answer q)
               end in
      match play m s with Some s' => drive answer fuel s' | None => s end
  | _, _ => s
  end.
End System.

(** ** The proxies *)

Section Proxies.
Context (input : CaseConditionsWorkflowInput) (workflowRunId : string) (message_of : Failure -> string).
Context (sha256 digest : Dsl.value -> string) (sha256_hex : string -> string).
Context (iso : Z -> string) (collation : string -> Z) (reason_text : Resolver.Unresolved -> string).
Context (rule_text : Dsl.Reason -> string) (number : string -> spec_float).
Context (fresh : nat -> string) (hmac : string -> string -> string) (json : Dsl.value -> string)
  (outboxSigningSecret : string).
Context {RES : Evaluation.PolicyResolver} (policy_env : nat -> Evaluation.PolicyDb -> Evaluation.PolicyDb)
  (evaluation_call : World -> Evaluation.Call) (gap : Ledger.DB -> Ledger.DB).
Context (agentPlanner : option AgentPlannerPort).
Context (encrypt : string -> string -> Dsl.value -> Dsl.value) (decrypt : string -> Dsl.value -> option Dsl.value).
Context (parse_date : string -> option Z).
Context (safeParse : Tables.ProviderCapability -> Dsl.value -> option Dsl.value) (registry : Platform.Registry).

Definition fetch (capability : Tables.ProviderCapability) : string -> string -> string -> prog Dsl.value :=
  match capability with
  | Tables.INCOME => fetchIncomeEvidence
  | Tables.CREDIT => fetchCreditEvidence
  | Tables.DOCUMENT => fetchDocumentEvidence
  | Tables.ASSET => fetchAssetEvidence
  | Tables.IDENTITY => fetchIdentityEvidence
  end message_of sha256 fresh hmac json outboxSigningSecret encrypt decrypt parse_date safeParse registry.

(** What an activity does when the workflow calls it. *)
Definition perform (a : Activity) : prog ActivityResult :=
  let tenantId := wi_tenantId input in
  let caseId := wi_caseId input in
  match a with
  | MarkCollectingEvidence =>
      _ ← markCollectingEvidence fresh hmac json outboxSigningSecret tenantId caseId; mret Completed
  | PrepareWorkflowRecovery recoveryOfRunId =>
      r ← prepareWorkflowRecovery fresh hmac json outboxSigningSecret tenantId caseId recoveryOfRunId; mret (Recovery r)
  | FetchEvidence c => _ ← fetch c tenantId caseId (wi_borrowerId input); mret Completed
  | EvaluateConditions =>
      r ← evaluateConditions message_of sha256 digest sha256_hex iso collation reason_text rule_text number fresh hmac
            json outboxSigningSecret policy_env evaluation_call gap agentPlanner tenantId caseId workflowRunId;
      mret (Evaluated r)
  | ResolveCondition conditionId r =>
      _ ← resolveCondition fresh hmac json outboxSigningSecret tenantId caseId conditionId (rs_actorId r)
            (rs_resolution r) (rs_reason r);
      mret Completed
  | MarkReadyForUnderwriting =>
      _ ← markReadyForUnderwriting message_of sha256 sha256_hex fresh hmac json outboxSigningSecret tenantId caseId;
      mret Completed
  | MarkWaitingForReview reason =>
      _ ← markWaitingForReview fresh hmac json outboxSigningSecret tenantId caseId reason; mret Completed
  | MarkManualReview reason =>
      _ ← markManualReview fresh hmac json outboxSigningSecret tenantId caseId reason; mret Completed
  | MarkWorkflowCancelled =>
      _ ← markWorkflowCancelled fresh hmac json outboxSigningSecret tenantId caseId; mret Completed
  end.
End Proxies.
End Workflow.
