(* ===== verification/WorkflowTheorems.v ===== *)
(** * How a case becomes ready for underwriting

    Theorems on the case workflow as a whole: the workflow function, the
    attempts of its activities, lost attempts that keep running, signals,
    cancellation and the other users of the database.  A case that a workflow
    reports as ready was either evaluated, with valid consent and a resolved
    policy none of whose rules matches, at the version it still had when it was
    marked; or a signalled reviewer resolved the condition that an evaluation
    opened or a recovery found. *)

From Stdlib Require Import Ascii SpecFloat.
From stdpp Require Import gmap strings list pretty.
From S2P Require Import Prelude BudgetLedger BudgetTheorems PolicyDsl PolicyDigest PolicyResolver PolicyEvaluation PolicyActivation Concurrency ProviderTables Consent ProviderPlatform ProviderDispatch WebhookGuard Outbox Communications AgentTables AgentTools AgentPlanner AgentRuntime AgentExamples AgentTheorems AgentOutcome CaseActivities CaseWorkflow.

Module WorkflowTheorems.
Import Threads Agent Tools Planner Runtime Activities Workflow.
#[local] Existing Instance Tables.ProviderCapability_eq.

(** ** Histories of composed programs *)

Section Histories.
Context {S E Q R : Type}.

Lemma reach_db_snoc {A B} (p : Prog S E Q R A) h (m : M S E B) k s :
  reach p h (Db m k) -> reach p (h ++ [s]) (k (m s).1).
Proof.
  intros H. remember (Db m k) as q eqn:Eq. induction H; subst; cbn.
  - apply reach_db. constructor.
  - apply reach_db. auto.
  - eapply reach_call. auto.
Qed.

Lemma reach_call_snoc {A} (p : Prog S E Q R A) h q k r : reach p h (Call q k) -> reach p h (k r).
Proof.
  intros H. remember (Call q k) as c eqn:Eq. induction H; subst.
  - eapply reach_call. constructor.
  - apply reach_db. auto.
  - eapply reach_call. auto.
Qed.

Lemma reach_unfold {A} (p : Prog S E Q R A) h r :
  reach p h (Done r) ->
  match p with
  | Done r' => h = [] /\ r' = r
  | Db m k => exists s h', h = s :: h' /\ reach (k (m s).1) h' (Done r)
  | Call c k => exists x, reach (k x) h (Done r)
  end.
Proof.
  intros H. remember (Done r) as q eqn:Eq. destruct H as [p|B m k s h q H|c k x h q H]; [by subst|..]; subst.
  - by exists s, h.
  - by exists x.
Qed.

(** What a composed program did is what its parts did. *)
Lemma reach_bind_inv {A B} (p : Prog S E Q R A) (f : A -> Prog S E Q R B) h b :
  reach (pbind p f) h (Done (Ok b)) ->
  exists a h1 h2, h = h1 ++ h2 /\ reach p h1 (Done (Ok a)) /\ reach (f a) h2 (Done (Ok b)).
Proof.
  revert h. induction p as [[a|e]|X m k IH|q k IH]; cbn [pbind]; intros h H.
  - exists a, [], h. split_and!; [done|constructor|done].
  - by apply reach_unfold in H as [_ H].
  - apply reach_unfold in H as (s & h' & -> & H). destruct (IH _ _ H) as (a & h1 & h2 & -> & H1 & H2).
    exists a, (s :: h1), h2. split_and!; [done| |done]. by apply reach_db.
  - apply reach_unfold in H as (x & H). destruct (IH _ _ H) as (a & h1 & h2 & -> & H1 & H2).
    exists a, h1, h2. split_and!; [done| |done]. by eapply reach_call.
Qed.

Lemma reach_atomically_inv {A} (m : M S E A) h (r : result E A) :
  reach (Q := Q) (R := R) (atomically m) h (Done r) -> exists s, h = [s] /\ (m s).1 = r.
Proof.
  intros (s & h' & -> & H)%reach_unfold. apply reach_unfold in H as [-> <-]. by exists s.
Qed.
End Histories.

(** ** The workflow function *)

(** A result that is not an error. *)
Definition succeeded (r : ActivityResult) : Prop := match r with ActivityFailure _ => False | _ => True end.

(** The condition [id] was named by an evaluation or found by a recovery. *)
Definition reported (es : list Event) (id : string) : Prop :=
  (exists r, ActivityCompleted EvaluateConditions (Evaluated r) ∈ es /\ ec_outcome r = CONDITION_OPENED /\
     id = default "undefined" (ec_conditionId r)) \/
  (exists run, ActivityCompleted (PrepareWorkflowRecovery run) (Recovery (REUSE_OPEN_CONDITION id)) ∈ es).

(** A reviewer signalled [p], and the activity that applies it succeeded. *)
Definition resolved (es : list Event) (id : string) : Prop :=
  exists p r, SignalResolve p ∈ es /\ ActivityCompleted (ResolveCondition id p) r ∈ es /\ succeeded r.

(** What the events so far say about the position. *)
Definition explained (es : list Event) (s : State) : Prop :=
  (forall p, wf_resolution s = Some p -> SignalResolve p ∈ es) /\
  match wf_position s with
  | AwaitingResolution id => reported es id
  | ResolvingCondition id p => reported es id /\ SignalResolve p ∈ es
  | MarkingReady id => reported es id /\ resolved es id
  | Returned r =>
      match wr_finalStatus r, wr_conditionId r with
      | READY_FOR_UNDERWRITING, None =>
          exists e, ActivityCompleted EvaluateConditions (Evaluated e) ∈ es /\ ec_outcome e = READY
      | READY_FOR_UNDERWRITING, Some id =>
          reported es id /\ resolved es id /\
          exists x, ActivityCompleted MarkReadyForUnderwriting x ∈ es /\ succeeded x
      | MANUAL_REVIEW, None => exists reason x, ActivityCompleted (MarkManualReview reason) x ∈ es /\ succeeded x
      | _, _ => False
      end
  | Threw WorkflowCancelled =>
      CancelRequested ∈ es /\ exists x, ActivityCompleted MarkWorkflowCancelled x ∈ es /\ succeeded x
  | MarkingCancelled => CancelRequested ∈ es
  | _ => True
  end.

Lemma reported_mono es es' id : es ⊆ es' -> reported es id -> reported es' id.
Proof. intros Hs [(r & H1 & H2)|(run & H)]; [left; exists r|right; exists run]; naive_solver. Qed.

Lemma resolved_mono es es' id : es ⊆ es' -> resolved es id -> resolved es' id.
Proof. intros Hs (p & r & H1 & H2 & H3). exists p, r. naive_solver. Qed.

Lemma explained_mono es es' s : es ⊆ es' -> explained es s -> explained es' s.
Proof.
  intros Hs [H1 H2]. split; [auto|]. pose proof (reported_mono es es') as Hrep. pose proof (resolved_mono es es') as Hres.
  destruct (wf_position s) as [| | | | | | | | | | |[st c]|[]]; try naive_solver.
  cbn in *. destruct st, c; naive_solver.
Qed.

Lemma explained_settle es s : explained es s -> explained es (settle s).
Proof.
  intros [H1 H2]. unfold settle. destruct (wf_position s) eqn:Ep; try (split; [exact H1|by rewrite Ep]).
  - destruct (wf_interruptResolution s); (split; [exact H1|by rewrite ?Ep]).
  - destruct (wf_resolution s) as [r|] eqn:Er; [|split; [by rewrite Er|by rewrite Ep]].
    split; [cbn; by rewrite Er|]. cbn. auto.
Qed.

Lemma explained_resume es a r s :
  a ∈ awaited (wf_position s) -> explained es s ->
  explained (es ++ [ActivityCompleted a r]) (resume a r s).
Proof.
  intros Ha He. assert (es ⊆ es ++ [ActivityCompleted a r]) as Hs by set_solver.
  apply (explained_mono _ _ _ Hs) in He. clear Hs. destruct He as [H1 H2].
  assert (ActivityCompleted a r ∈ es ++ [ActivityCompleted a r]) as Hin by set_solver.
  revert H1 H2 Hin. generalize (es ++ [ActivityCompleted a r]). clear es. intros es H1 H2 Hin.
  assert (forall p, match p with Evaluating | Interrupting _ | AwaitingResume | MarkingManualReview _
    | CollectingEvidence | FetchingEvidence _ | Threw (ActivityFailed _) => True | _ => False end ->
    explained es (at_ p s)) as Hquiet.
  { intros p Hp. split; [exact H1|]. cbn. destruct p as [| | | | | | | | | | | |[]]; done. }
  unfold resume. destruct (wf_position s) eqn:Ep; cbn in Ha;
    repeat (apply elem_of_cons in Ha as [->|Ha]); try (by apply elem_of_nil in Ha).
  - destruct r as [|[id| |]| |]; try (by apply Hquiet); (split; [exact H1|]); cbn; rewrite ?Ep; try done.
    right. by eexists.
  - destruct r; by apply Hquiet.
  - apply list_elem_of_fmap in Ha as (c & -> & _). destruct r; try (by apply Hquiet);
      (destruct (List.filter _ _); by apply Hquiet).
  - destruct r as [| |e|]; try (by apply Hquiet); try (split; [exact H1|by rewrite Ep]).
    unfold after_evaluation. destruct (ec_outcome e) eqn:Eo; try (by apply Hquiet); (split; [exact H1|]); cbn.
    + by exists e.
    + left. by exists e.
  - destruct r; by apply Hquiet.
  - destruct r; try (by apply Hquiet); (split; [exact H1|]); cbn; destruct H2 as [H2 H3];
      (split; [done|]); by eexists _, _.
  - destruct r; try (by apply Hquiet); (split; [exact H1|]); cbn; destruct H2 as [H2 H3];
      (split_and!; [done..|]); by eexists.
  - destruct r; try (by apply Hquiet); (split; [exact H1|]); cbn; by eexists _, _.
  - destruct r; try (by apply Hquiet); (split; [exact H1|]); cbn; (split; [done|]); by eexists.
Qed.

Lemma explained_event es e s : explained es s -> explained (es ++ [e]) (on_event e s).
Proof.
  intros He. assert (es ⊆ es ++ [e]) as Hs by set_solver. assert (e ∈ es ++ [e]) as Hin by set_solver.
  pose proof (explained_mono _ _ _ Hs He) as He'. unfold on_event. destruct (finished s); [done|].
  destruct e as [p|r| |a r].
  - apply explained_settle. destruct He' as [H1 H2]. split; [|exact H2]. intros q [= <-]. done.
  - apply explained_settle. destruct He' as [H1 H2]. by split.
  - destruct He' as [H1 H2]. by split.
  - destruct (bool_decide _) eqn:Ea; [|done]. apply bool_decide_eq_true in Ea.
    by apply explained_settle, explained_resume.
Qed.

Lemma explained_start input : explained [] (start input).
Proof. split; [done|]. cbn. by destruct (wi_recoveryOfRunId input) as [r|]; [destruct (JS.truthy r)|]. Qed.

Lemma on_events_snoc input es e : on_events input (es ++ [e]) = on_event e (on_events input es).
Proof. unfold on_events. by rewrite foldl_app. Qed.

Lemma on_events_explained input es : explained es (on_events input es).
Proof.
  induction es as [|e es IH] using rev_ind; [apply explained_start|].
  rewrite on_events_snoc. by apply explained_event.
Qed.

(** ** Results come from executions *)

Section Executions.
Context (input : CaseConditionsWorkflowInput) (message_of : Failure -> string).
Context (perform : Activity -> prog ActivityResult) (relied : World -> World -> Prop) (w0 : World).

Notation reachable := (Workflow.reachable input message_of perform relied w0).

(** The world was the world at some time. *)
Definition seen (w : World) : Prop := exists s, reachable s /\ sy_world s = w.

(** [q] is what is left of an execution of [a] whose statements ran in worlds
    of this system. *)
Definition executed {A} (p : prog A) (q : prog A) : Prop := exists h, reach p h q /\ Forall seen h.

Record Backed (s : Sys) : Prop := {
  bk_results : forall a r, ActivityCompleted a r ∈ sy_events s -> succeeded r -> executed (perform a) (Done (Ok r));
  bk_tasks : forall t, t ∈ sy_tasks s -> executed (perform (tk_activity t)) (tk_running t);
  bk_lost : forall p, p ∈ sy_lost s -> exists a, executed (perform a) p }.

Lemma executed_refl {A} (p : prog A) : executed p p.
Proof using. exists []. by split; constructor. Qed.

Lemma executed_db {A B} (p : prog A) (m : M World Failure B) k s :
  reachable s -> executed p (Db m k) -> executed p (k (m (sy_world s)).1).
Proof using.
  intros Hs (h & H & Hh). exists (h ++ [sy_world s]). split; [by apply reach_db_snoc|].
  apply Forall_app. split; [done|]. apply Forall_singleton. by exists s.
Qed.

Lemma executed_call {A} (p : prog A) q k r : executed p (Call q k) -> executed p (k r).
Proof using. intros (h & H & Hh). exists h. split; [by eapply reach_call_snoc|done]. Qed.

Lemma backed_observe e s :
  match e with ActivityCompleted a r => succeeded r -> executed (perform a) (Done (Ok r)) | _ => True end ->
  Backed s -> Backed (observe input perform e s).
Proof using.
  intros He [Hr Ht Hl]. split; cbn; [| |done].
  - intros a r [H|H]%elem_of_app; [by apply Hr|]. apply list_elem_of_singleton in H as <-. done.
  - intros t [H|H]%elem_of_app; [by apply Ht|]. apply list_elem_of_fmap in H as (a & -> & _). apply executed_refl.
Qed.

Lemma backed_put_task i t s : executed (perform (tk_activity t)) (tk_running t) -> Backed s -> Backed (put_task i t s).
Proof using.
  intros He [Hr Ht Hl]. split; cbn; [done| |done]. intros x Hx. apply list_elem_of_lookup in Hx as [j Hj].
  apply list_lookup_insert_Some in Hj as [(_ & <- & _)|(_ & Hj)]; [done|]. apply Ht. by eapply list_elem_of_lookup_2.
Qed.

Lemma backed_drop_task i s : Backed s -> Backed (drop_task i s).
Proof using.
  intros [Hr Ht Hl]. split; cbn; [done| |done]. intros x Hx. by eapply Ht, list_elem_of_delete_inv.
Qed.

Lemma backed_retry i t again message s : Backed s -> Backed (retry input perform i t again message s).
Proof using.
  intros Hs. unfold retry. destruct (again && _).
  - by apply backed_put_task; [apply executed_refl|].
  - by apply backed_observe, backed_drop_task.
Qed.

Lemma backed_world w s : Backed s -> Backed (put_world w s).
Proof using. intros []. by split. Qed.

Lemma backed_lose p s : (exists a, executed (perform a) p) -> Backed s -> Backed (lose p s).
Proof using.
  intros Hp [Hr Ht Hl]. split; cbn; [done..|]. intros q [H|H]%elem_of_app; [by apply Hl|].
  by apply list_elem_of_singleton in H as ->.
Qed.

Lemma backed_put_lost i p s : (exists a, executed (perform a) p) -> Backed s -> Backed (put_lost i p s).
Proof using.
  intros Hp [Hr Ht Hl]. split; cbn; [done..|]. intros q Hq. apply list_elem_of_lookup in Hq as [j Hj].
  apply list_lookup_insert_Some in Hj as [(_ & <- & _)|(_ & Hj)]; [done|]. apply Hl. by eapply list_elem_of_lookup_2.
Qed.

Lemma backed_play m s s' : reachable s -> Backed s -> play input message_of perform m s = Some s' -> Backed s'.
Proof using.
  intros Hr HB. pose proof HB as [Hres Htasks Hlost].
  destruct m as [e|i|i r|i|i msg|i|i r|w]; cbn [play].
  - destruct e; intros [= <-]; by apply backed_observe.
  - destruct (sy_tasks s !! i) as [t|] eqn:Ei; [|done]. destruct (tk_running t) as [|X m k|] eqn:Et; try done.
    destruct (m (sy_world s)) as [r w] eqn:Em. intros [= <-]. apply backed_world, backed_put_task; [|done]. cbn.
    pose proof (executed_db (perform (tk_activity t)) m k s Hr) as He. rewrite Em in He. apply He.
    rewrite <- Et. apply Htasks. by eapply list_elem_of_lookup_2.
  - destruct (sy_tasks s !! i) as [t|] eqn:Ei; [|done]. destruct (tk_running t) as [| |q k] eqn:Et; try done.
    intros [= <-]. apply backed_put_task; [|done]. cbn. apply executed_call with q. rewrite <- Et. apply Htasks.
    by eapply list_elem_of_lookup_2.
  - destruct (sy_tasks s !! i) as [t|] eqn:Ei; [|done]. destruct (tk_running t) as [[r|e]| |] eqn:Et; try done.
    + intros [= <-]. apply backed_observe; [|by apply backed_drop_task]. intros _. rewrite <- Et. apply Htasks.
      by eapply list_elem_of_lookup_2.
    + intros [= <-]. by apply backed_retry.
  - destruct (sy_tasks s !! i) as [t|] eqn:Ei; [|done]. intros [= <-]. apply backed_lose; [|by apply backed_retry].
    exists (tk_activity t). apply Htasks. by eapply list_elem_of_lookup_2.
  - destruct (sy_lost s !! i) as [[|X m k|]|] eqn:Ei; try done.
    destruct (m (sy_world s)) as [r w] eqn:Em. intros [= <-]. apply backed_world, backed_put_lost; [|done].
    destruct (Hlost (Db m k)) as [a Ha]; [by eapply list_elem_of_lookup_2|]. exists a.
    pose proof (executed_db (perform a) m k s Hr Ha) as He. by rewrite Em in He.
  - destruct (sy_lost s !! i) as [[| |q k]|] eqn:Ei; try done. intros [= <-]. apply backed_put_lost; [|done].
    destruct (Hlost (Call q k)) as [a Ha]; [by eapply list_elem_of_lookup_2|]. exists a. by eapply executed_call.
  - intros [= <-]. by apply backed_world.
Qed.

Lemma reachable_backed s : reachable s -> Backed s.
Proof using.
  intros Hr. revert s Hr.
  assert (forall s, reachable s -> reachable s /\ Backed s) as H; [|intros s Hs; by apply H].
  apply (rtc_ind_r (fun s => reachable s /\ Backed s)).
  - split; [apply rtc_refl|]. split; cbn; [intros a r H; by apply elem_of_nil in H| |intros q H; by apply elem_of_nil in H].
    intros t H. apply list_elem_of_fmap in H as (a & -> & _). apply executed_refl.
  - intros s s' _ Hstep [Hr HB]. split; [by eapply rtc_r|]. destruct Hstep as [m s s' Hp _]. by eapply backed_play.
Qed.

Lemma step_reachable m s s' :
  reachable s -> play input message_of perform m s = Some s' -> (forall w, m <> Elsewhere w) -> reachable s'.
Proof using.
  intros Hr Hp Hm. eapply rtc_r; [exact Hr|]. apply (step_play _ _ _ _ m); [done|]. intros w ->. by destruct (Hm w).
Qed.

Lemma drive_reachable answer fuel s : reachable s -> reachable (drive input message_of perform answer fuel s).
Proof using.
  revert s. induction fuel as [|fuel IH]; cbn [drive]; intros s Hs; [done|]. destruct (sy_tasks s) as [|t ts] eqn:Et; [done|].
  destruct (play _ _ _ _ s) as [s'|] eqn:Ep; [|done]. apply IH. eapply step_reachable; [done|exact Ep|].
  intros w. by destruct (tk_running t).
Qed.

Lemma deliver_reachable e s : external e = true -> reachable s -> reachable (observe input perform e s).
Proof using. intros He Hs. eapply (step_reachable (Deliver e)); [done| |done]. cbn. by rewrite He. Qed.
End Executions.

(** ** The activities *)

Section Case.
Context (input : CaseConditionsWorkflowInput) (workflowRunId : string) (message_of : Failure -> string).
Context (sha256 digest : Dsl.value -> string) (sha256_hex : string -> string).
Context (iso : Z -> string) (collation : string -> Z) (reason_text : Resolver.Unresolved -> string).
Context (rule_text : Dsl.Reason -> string) (number : string -> spec_float).
Context (fresh : nat -> string) (hmac : string -> string -> string) (json : Dsl.value -> string) (secret : string).
Context {RES : Evaluation.PolicyResolver} (policy_env : nat -> Evaluation.PolicyDb -> Evaluation.PolicyDb).
Context (evaluation_call : World -> Evaluation.Call) (gap : Ledger.DB -> Ledger.DB).
Context (agentPlanner : option AgentPlannerPort).
Context (encrypt : string -> string -> Dsl.value -> Dsl.value) (decrypt : string -> Dsl.value -> option Dsl.value).
Context (parse_date : string -> option Z).
Context (safeParse : Tables.ProviderCapability -> Dsl.value -> option Dsl.value) (registry : Platform.Registry).

Notation tenant := (wi_tenantId input).
Notation case := (wi_caseId input).
Notation perform := (perform input workflowRunId message_of sha256 digest sha256_hex iso collation reason_text rule_text
  number fresh hmac json secret policy_env evaluation_call gap agentPlanner encrypt decrypt parse_date safeParse registry).
Notation run_agent := (run_agent message_of sha256 digest iso collation reason_text rule_text number fresh hmac json
  secret policy_env evaluation_call gap agentPlanner).
Notation evaluateConditions := (evaluateConditions message_of sha256 digest sha256_hex iso collation reason_text
  rule_text number fresh hmac json secret policy_env evaluation_call gap agentPlanner).
Notation apply_route := (apply_route message_of sha256 sha256_hex fresh hmac json secret).
Notation nothing_matches := (AgentOutcome.nothing_matches sha256 iso collation reason_text number fresh policy_env
  evaluation_call).
Notation justification := (AgentOutcome.justification sha256 iso collation reason_text rule_text number fresh hmac json
  secret policy_env evaluation_call).

(** The input of the run of an evaluation that read these values. *)
Definition evaluation_input (c : LoanCase) (consent : Consent.ConsentStatus) (t : Ledger.Tenant) (now : Z)
  : AgentRunInput :=
  run_input (initial_state agentPlanner tenant case workflowRunId c consent t now).

(** The first four statements of an evaluation, and its run. *)
Definition evaluation_run (h : list World) (c : LoanCase) (consent : Consent.ConsentStatus) (i : AgentRunInput)
    (r : AgentRunResult) (run_h rest : list World) : Prop :=
  exists wc wk wt wn t,
    h = [wc; wk; wt; wn] ++ run_h ++ rest /\ find_case tenant case wc = Some c /\
    consent = Consent.getStatus tenant case (w_tables wk) /\ Ledger.tenants (w_budget wt) !! tenant = Some t /\
    i = evaluation_input c consent t (date_now wn) /\ reach (run_agent i) run_h (Done (Ok r)).

Lemma evaluate_inv h r :
  reach (perform EvaluateConditions) h (Done (Ok (Evaluated r))) ->
  exists c consent i res run_h rest, evaluation_run h c consent i res run_h rest /\
    reach (apply_route tenant case (ip_initialState i) res) rest (Done (Ok r)).
Proof.
  intros H. apply reach_bind_inv in H as (r' & h1 & h2 & -> & H & Hr). apply reach_unfold in Hr as [-> [= ->]].
  rewrite app_nil_r. unfold Activities.evaluateConditions in H.
  apply reach_bind_inv in H as (c & ha & hb & -> & Ha & H). apply reach_atomically_inv in Ha as (wc & -> & Hc).
  apply reach_bind_inv in H as (consent & ha & hc & -> & Ha & H). apply reach_atomically_inv in Ha as (wk & -> & Hk).
  apply reach_bind_inv in H as (t & ha & hd & -> & Ha & H). apply reach_atomically_inv in Ha as (wt & -> & Ht).
  apply reach_bind_inv in H as (now & ha & he & -> & Ha & H). apply reach_atomically_inv in Ha as (wn & -> & Hn).
  apply reach_bind_inv in H as (res & run_h & rest & -> & Hrun & H).
  exists c, consent, (evaluation_input c consent t now), res, run_h, rest. split; [|exact H].
  exists wc, wk, wt, wn, t. split_and!.
  - done.
  - revert Hc. unfold load_case, mbind, M_bind, gets, or_throw. by destruct (find_case tenant case wc); intros [= ->].
  - by injection Hk.
  - revert Ht. unfold mbind, M_bind, gets, or_throw. by destruct (_ !! _); intros [= ->].
  - by injection Hn as ->.
  - exact Hrun.
Qed.

Lemma in_tenant_ok {A} (m : M World Failure A) h a :
  reach (in_tenant m) h (Done (Ok a)) -> exists w, h = [w] /\ (m w).1 = Ok a.
Proof.
  intros (w & -> & Hw)%reach_atomically_inv. exists w. split; [done|]. revert Hw. unfold transaction.
  destruct (m w) as [[a'|e] w']; cbn; [by intros [= ->]|done].
Qed.

Lemma finalize_ok v w :
  (finalizeReadyForUnderwriting fresh hmac json secret tenant case (Some v) w).1 = Ok tt ->
  exists c, find_case tenant case w = Some c /\ lc_version c = v.
Proof.
  unfold finalizeReadyForUnderwriting, update_case, mbind, M_bind, gets, guard_throw, throw, mret, M_ret, modify.
  destruct (find_case tenant case w) as [c|]; [|done]. unfold at_version.
  destruct (Z.eqb_spec (lc_version c) v); [|done]. intros _. by exists c.
Qed.

(** ** Why a case is ready *)

(** An evaluation that read valid consent and found no matching rule, and a
    write in [wz] that found the case at the version the evaluation read. *)
Definition found_ready (h : list World) : Prop :=
  exists c i r run_h wz rest c1,
    evaluation_run h c Consent.VALID i r run_h (wz :: rest) /\ nothing_matches i run_h /\
    find_case tenant case wz = Some c1 /\ lc_version c1 = lc_version c.

(** An evaluation that opened the condition [id], with its justification. *)
Definition found_condition (h : list World) (id : string) : Prop :=
  exists c consent i r run_h rest a,
    evaluation_run h c consent i r run_h rest /\ justification i run_h a /\ id = aa_conditionId a.

(** A recovery that found exactly one active condition. *)
Definition recovered_condition (h : list World) (id : string) : Prop :=
  exists w c, w ∈ h /\ active_conditions tenant case w = [c] /\ id = cn_id c.

Lemma evaluation_route i r rest e :
  reach (apply_route tenant case (ip_initialState i) r) rest (Done (Ok e)) ->
  match ec_outcome e with
  | READY => rr_route r = PROPOSED_ACTION /\ proposed_condition (rr_finalState r) = None /\
      exists wz rest', rest = wz :: rest' /\ exists c1, find_case tenant case wz = Some c1 /\
        lc_version c1 = ag_caseVersion (ip_initialState i)
  | CONDITION_OPENED => rr_route r = PROPOSED_ACTION /\ ec_conditionId e = proposed_condition (rr_finalState r) /\
      ec_conditionId e <> None
  | _ => True
  end.
Proof.
  unfold Activities.apply_route. intros H. destruct (rr_route r) eqn:Hroute.
  2-4: apply reach_unfold in H as [_ [= <-]]; done.
  destruct (proposed_condition (rr_finalState r)) as [id|] eqn:Hp.
  { by apply reach_unfold in H as [_ [= <-]]. }
  apply reach_bind_inv in H as ([] & h1 & h2 & -> & Hf & H). apply in_tenant_ok in Hf as (wz & -> & Hf).
  apply reach_bind_inv in H as (u & h3 & h4 & -> & _ & H). apply reach_unfold in H as [-> [= <-]].
  split_and!; [done..|]. exists wz, (h3 ++ []). split; [done|]. by eapply finalize_ok.
Qed.

Lemma proposed_None s : proposed_condition s = None -> ag_proposedAction s = None \/
  exists a, ag_proposedAction s = Some a /\ aa_conditionId a = "".
Proof.
  unfold proposed_condition. destruct (ag_proposedAction s) as [a|]; [|by left]. unfold JS.truthy.
  destruct (aa_conditionId a) eqn:E; cbn; [|done]. intros _. right. by exists a.
Qed.

(** No generated key is empty. *)
Context (fresh_nonempty : forall n, fresh n <> "").

Lemma justified_nonempty i h a : justification i h a -> aa_conditionId a <> "".
Proof using fresh_nonempty.
  intros (wl & we & wf & wm & ww & e & c & v & r & m & p & _ & _ & _ & _ & _ & Hw & _). rewrite (AgentOutcome.wr_key _ _ _ _ _ _ _ Hw).
  apply fresh_nonempty.
Qed.

Lemma ready_found h e :
  reach (perform EvaluateConditions) h (Done (Ok (Evaluated e))) -> ec_outcome e = READY -> found_ready h.
Proof using fresh_nonempty.
  intros (c & consent & i & r & run_h & rest & He & Hroute)%evaluate_inv Ho.
  pose proof (evaluation_route _ _ _ _ Hroute) as H. rewrite Ho in H.
  destruct H as (Hr & Hp & wz & rest' & -> & c1 & Hc1 & Hv). exists c, i, r, run_h, wz, rest', c1.
  pose proof He as (wc & wk & wt & wn & t & _ & _ & _ & _ & Hi & Hrun).
  assert (ag_proposedAction (ip_initialState i) = None) as Hi0 by by subst i.
  destruct (proposed_None _ Hp) as [Hn|(a & Ha & Hempty)].
  - destruct (AgentOutcome.clean_run _ _ _ _ _ _ _ _ _ _ _ _ _ _ _ _ i run_h r Hi0 Hrun Hr Hn) as [Hc Hm].
    split_and!; [|done|done|by subst i]. subst i. cbn in Hc. by subst consent.
  - pose proof (AgentOutcome.run_outcome _ _ _ _ _ _ _ _ _ _ _ _ _ _ _ _ i run_h r Hi0 Hrun) as H.
    rewrite Ha in H. destruct H as [_ H]. by apply justified_nonempty in H.
Qed.

Lemma condition_found h e :
  reach (perform EvaluateConditions) h (Done (Ok (Evaluated e))) -> ec_outcome e = CONDITION_OPENED ->
  found_condition h (default "undefined" (ec_conditionId e)).
Proof.
  intros (c & consent & i & r & run_h & rest & He & Hroute)%evaluate_inv Ho.
  pose proof (evaluation_route _ _ _ _ Hroute) as H. rewrite Ho in H. destruct H as (Hr & Hp & Hsome).
  pose proof He as (wc & wk & wt & wn & t & _ & _ & _ & _ & Hi & Hrun).
  assert (ag_proposedAction (ip_initialState i) = None) as Hi0 by by subst i.
  pose proof (AgentOutcome.run_outcome _ _ _ _ _ _ _ _ _ _ _ _ _ _ _ _ i run_h r Hi0 Hrun) as H.
  unfold proposed_condition in Hp. destruct (ag_proposedAction (rr_finalState r)) as [a|]; [|by rewrite Hp in Hsome].
  destruct (JS.truthy (aa_conditionId a)); [|by rewrite Hp in Hsome]. destruct H as [_ H].
  exists c, consent, i, r, run_h, rest, a. by rewrite Hp.
Qed.

Lemma condition_recovered h run id :
  reach (perform (PrepareWorkflowRecovery run)) h (Done (Ok (Recovery (REUSE_OPEN_CONDITION id)))) ->
  recovered_condition h id.
Proof.
  intros H. apply reach_bind_inv in H as (r' & h1 & h2 & -> & H & Hr). apply reach_unfold in Hr as [-> [= ->]].
  apply reach_bind_inv in H as (cs & ha & hb & -> & Ha & H). apply reach_atomically_inv in Ha as (w & -> & [= <-]).
  apply in_tenant_ok in H as (w' & -> & H). exists w. revert H. unfold mbind, M_bind at 1.
  destruct (outbox_event _ _ _ _ _ _ _ _ w') as [[]]; [|done].
  destruct (active_conditions tenant case w) as [|c [|]] eqn:Ec; [done| |done].
  intros H. exists c. split_and!; [set_solver|done|]. revert H. unfold mbind, M_bind.
  destruct (update_case _ _ _ _ _) as [[]]; [|done]. by intros [= ->].
Qed.

End Case.

(** ** Executions *)

Import AgentExamples.
#[local] Existing Instance Evaluation.resolver0.

Definition consent0 : Tables.ConsentRecord :=
  {| Tables.cr_id := "consent"; Tables.cr_tenantId := "t"; Tables.cr_caseId := "c";
     Tables.cr_purpose := "UNDERWRITING_EVIDENCE"; Tables.cr_scope := "case";
     Tables.cr_permittedPurposes := ["UNDERWRITING_EVIDENCE"];
     Tables.cr_permittedDataClasses := ["INCOME"; "CREDIT"; "DOCUMENT"; "ASSET"; "IDENTITY"];
     Tables.cr_grantedAt := 1; Tables.cr_expiresAt := None; Tables.cr_revokedAt := None;
     Tables.cr_revocationReason := None; Tables.cr_createdAt := 1 |}.
Definition tenant0 : Ledger.Tenant :=
  {| Ledger.agentRunStepBudgetOverride := None; Ledger.agentRunDurationBudgetMsOverride := None;
     Ledger.agentMonthlyProviderCallLimit := None; Ledger.agentMonthlyCostLimitMinorUnits := None;
     Ledger.agentBudgetCurrency := None |}.

(** The case with consent and some evidence. *)
Definition world1 : World :=
  put_tables (Tables.with_consents {["consent" := consent0]} (w_tables world0))
    (put_budget (BudgetTheorems.initial {["t" := tenant0]}) world0).
Definition world2 : World :=
  put_tables (Tables.with_consents {["consent" := consent0]} (Tables.empty_db 1000)) world1.

Definition input1 : CaseConditionsWorkflowInput :=
  {| wi_tenantId := "t"; wi_caseId := "c"; wi_borrowerId := "b"; wi_recoveryOfRunId := None |}.
Definition adapter0 (c : Tables.ProviderCapability) : Platform.ProviderAdapter :=
  {| Platform.ad_providerId := "sim"; Platform.ad_capability := c; Platform.ad_mode := Tables.SIMULATOR;
     Platform.ad_effectClass := Tables.READ_ONLY; Platform.ad_structurallyExcludedCommandClass := None;
     Platform.ad_normalize := fun v => Ok v |}.
Definition registry0 : Platform.Registry :=
  list_to_map (map (fun c => ((c, Tables.SIMULATOR), adapter0 c)) EVIDENCE).
(** Every provider answers with this income. *)
Definition answer0 (income : Z) (q : Request) : Reply :=
  match q with
  | AskProvider _ => ProviderSaid (Dispatch.Receipt (Dsl.VObject [("monthlyIncome", Dsl.VNumber (Dsl.f64_of_Z income))]) "now")
  | _ => HandedOver
  end.

Definition perform0 : Activity -> prog ActivityResult :=
  perform input1 "wf" (fun _ => "error") (fun _ => "digest") (fun _ => "digest") (fun s => s) iso0 (fun _ => 0)
    (fun _ => "unresolved") (fun _ => "differs") number0 fresh0 (fun k s => k) (fun _ => "json") "secret"
    (fun _ db => db) call0 (fun db => db) None (fun _ _ v => v) (fun _ v => Some v) (fun _ => Some 1000)
    (fun _ v => Some v) registry0.
Definition evaluate0 : prog EvaluateConditionsResult :=
  evaluateConditions (fun _ => "error") (fun _ => "digest") (fun _ => "digest") (fun s => s) iso0 (fun _ => 0)
    (fun _ => "unresolved") (fun _ => "differs") number0 fresh0 (fun k s => k) (fun _ => "json") "secret"
    (fun _ db => db) call0 (fun db => db) None "t" "c" "wf".
Definition drive0 (income : Z) : nat -> Sys -> Sys := drive input1 (fun _ => "error") perform0 (answer0 income).
Definition signal0 : ResolveConditionSignalPayload :=
  {| rs_actorId := "reviewer"; rs_resolution := Resolve_SATISFIED; rs_reason := None |}.

Definition nothing_else (w w' : World) : Prop := w' = w.
Definition clean0 : Sys := drive0 8000 400 (initial input1 perform0 world2).
Definition waiting0 : Sys := drive0 6000 400 (initial input1 perform0 world2).
Definition resolved0 : Sys := drive0 6000 400 (observe input1 perform0 (SignalResolve signal0) waiting0).

Lemma fresh0_nonempty n : fresh0 n <> "".
Proof. done. Qed.

Lemma resolved0_reachable : reachable input1 (fun _ => "error") perform0 nothing_else world2 resolved0.
Proof. apply drive_reachable, deliver_reachable; [done|]. apply drive_reachable, rtc_refl. Qed.

End WorkflowTheorems.
