(* ===== verification/WorkflowFindings.v ===== *)
(** * Where the case workflow departs from its description

    Executions and general facts that the comments of the code deny: an
    evaluation that is resumed after the deadline of its first run can only go
    to manual review; an attempt that is repeated after it opened a condition
    opens a second one; a provider that timed out is never asked again; a race
    in the write of a condition is not retried; a signal that was sent too
    early resolves a condition nobody has seen; a late cancellation takes a
    ready case back. *)

From Stdlib Require Import Ascii SpecFloat.
From stdpp Require Import gmap strings list pretty.
From S2P Require Import Prelude BudgetLedger BudgetTheorems PolicyDsl PolicyDigest PolicyResolver PolicyEvaluation PolicyActivation Concurrency ProviderTables Consent ProviderPlatform ProviderDispatch WebhookGuard Outbox Communications AgentTables AgentTools AgentPlanner AgentRuntime AgentExamples AgentTheorems AgentOutcome CaseActivities CaseWorkflow WorkflowTheorems.

Module WorkflowFindings.
Import Threads Agent Tools Planner Runtime Activities Workflow.

Section Late.
Context (message_of : Failure -> string).
Context (sha256 digest : Dsl.value -> string) (sha256_hex : string -> string).
Context (iso : Z -> string) (collation : string -> Z) (reason_text : Resolver.Unresolved -> string).
Context (rule_text : Dsl.Reason -> string) (number : string -> spec_float).
Context (fresh : nat -> string) (hmac : string -> string -> string) (json : Dsl.value -> string) (secret : string).
Context {RES : Evaluation.PolicyResolver} (policy_env : nat -> Evaluation.PolicyDb -> Evaluation.PolicyDb).
Context (evaluation_call : World -> Evaluation.Call) (gap : Ledger.DB -> Ledger.DB).
Context (agentPlanner : option AgentPlannerPort).

Notation evaluateConditions := (evaluateConditions message_of sha256 digest sha256_hex iso collation reason_text
  rule_text number fresh hmac json secret policy_env evaluation_call gap agentPlanner).
Notation graph := (graph message_of sha256 digest iso collation reason_text rule_text number fresh hmac json secret
  policy_env evaluation_call gap agentPlanner).

(** Others use the ledger through its service, and clocks do not go back. *)
Definition later (w w' : World) : Prop := AgentTheorems.ledger_evolves w w' /\ date_now w <= date_now w'.

(** Policy, messages, cases and conditions. *)
Definition business (w : World) :=
  (w_policy w, AgentTheorems.message_part w, AgentTheorems.condition_part w, w_manifests w).

(** A ledger of the run whose deadline has passed. *)
Definition expired (tenantId runId : string) (w : World) : Prop :=
  Ledger.Inv (w_budget w) /\ exists k l, Ledger.ledgers (w_budget w) !! k = Some l /\
    Ledger.lg_tenantId l = tenantId /\ Ledger.lg_workflowRunId l = runId /\ Ledger.lg_deadlineAt l <= date_now w.

Lemma expired_later t r w w' : later w w' -> expired t r w -> expired t r w'.
Proof.
  intros [Hl Hd] (HI & k & l & H1 & H2 & H3 & H4). destruct (BudgetTheorems.steps_evolve _ _ Hl HI) as [HI' [_ Hlg _]].
  split; [done|]. destruct (Hlg k l H1) as (l' & Hl' & []). exists k, l'. simplify_eq. split_and!; [done|congruence..|lia].
Qed.

Lemma load_case_eq t c w :
  load_case t c w = (match find_case t c w with Some x => Ok x | None => Err EntityNotFound end, w).
Proof. unfold load_case, mbind, M_bind, gets, or_throw. by destruct (find_case t c w). Qed.

Lemma load_tenant_eq t w :
  (row ← gets (fun w => Ledger.tenants (w_budget w) !! t); or_throw row EntityNotFound) w =
  (match Ledger.tenants (w_budget w) !! t with Some x => Ok x | None => Err EntityNotFound end, w).
Proof. unfold mbind, M_bind, gets, or_throw. by destruct (_ !! t). Qed.

(** A run that has a ledger gets that ledger, with its first deadline. *)
Lemma reload clk id i d k l :
  Ledger.Inv d -> Ledger.ledgers d !! k = Some l ->
  Ledger.lg_tenantId l = Ledger.in_tenantId i -> Ledger.lg_workflowRunId l = Ledger.in_workflowRunId i ->
  (Ledger.createOrLoad clk id i d).2 = d /\
  forall b, (Ledger.createOrLoad clk id i d).1 = Ok b -> Ledger.sn_deadlineAt b = Ledger.lg_deadlineAt l.
Proof.
  intros HI Hl Ht Hr.
  assert (Hf : find_row (Ledger.by_workflow (Ledger.in_tenantId i) (Ledger.in_workflowRunId i)) (Ledger.ledgers d) = Some l).
  { destruct (find_row (Ledger.by_workflow (Ledger.in_tenantId i) (Ledger.in_workflowRunId i)) (Ledger.ledgers d)) as [x|] eqn:E.
    - apply find_row_Some in E as (E & k' & Hx). unfold Ledger.by_workflow in E. bsplit.
      assert (k' = k) as -> by (eapply (Ledger.inv_runs _ HI); eauto; congruence). congruence.
    - pose proof (find_row_None _ _ _ _ E Hl) as E'. unfold Ledger.by_workflow in E'.
      by rewrite Ht, Hr, !String.eqb_refl in E'. }
  unfold Ledger.createOrLoad, mbind, M_bind, lift, transaction, Ledger.insert_or_find_ledger, gets.
  destruct (Ledger.validateLedgerInput i); [|done]. unfold mbind, M_bind. rewrite Hf. simpl.
  destruct (Ledger.assertSameLedgerConfiguration l i); [|done]. split; [done|]. by intros b [= <-].
Qed.

Notation during := (during later (AgentTheorems.unchanged business) (fun _ : Request => False)).

(** In a state of the agent whose deadline has passed, every tool is refused. *)
Lemma late_graph input registry state w :
  ag_runDeadlineAt (st_agentState state) <= date_now w -> st_route state = None ->
  during (fun r _ => match r with Ok s => st_route s = Some ROUTED_TO_MANUAL_REVIEW | Err _ => True end)
    (graph input registry state) w.
Proof.
  intros Hd Hn. destruct (ag_consentStatus (st_agentState state)) eqn:Hc.
  2-4: edestruct (AgentTheorems.graph_without_consent message_of sha256 digest iso collation reason_text rule_text
    number fresh hmac json secret policy_env evaluation_call gap agentPlanner input registry state) as [detail ->];
    [by rewrite Hc|done].
  unfold Runtime.graph, verifyConsentNode, consentInvalid. rewrite Hc. apply during_bind. cbn [Threads.during mret Prog_ret].
  cbv beta. unfold unless_routed. rewrite Hn. apply during_bind. unfold checkCompletenessNode, invokeBudgetedTool, budgetExceeded.
  apply during_bind, during_bind, during_bind, during_atomically. intros w1 [_ Hw1]. split; [done|].
  cbn [gets fst snd Threads.during mret Prog_ret].
  assert (exists t, exceeded_at iso (date_now w1) (st_agentState state) = Some t /\ tg_route t = ROUTE_TO_MANUAL_REVIEW) as (t & -> & Ht).
  { unfold exceeded_at. destruct (_ <=? 0); [by eexists|].
    destruct (Z.leb_spec (ag_runDeadlineAt (st_agentState state)) (date_now w1)); [|lia]. rewrite orb_true_r. by eexists. }
  cbn. unfold routeMandatoryReview, finish. cbn. by rewrite Ht.
Qed.

(** An evaluation that starts after the deadline of its workflow run's
    first evaluation has passed - as every one that a reviewer resumes later
    than that - can only end in manual review, whatever happens meanwhile and
    whatever the reviewer has repaired: it evaluates no policy, opens no
    condition, and never marks the case ready. *)
Theorem late_evaluation_goes_to_review tenantId caseId runId w :
  expired tenantId runId w ->
  during (fun r _ => match r with Ok e => ec_outcome e = REVIEW_REQUIRED | Err _ => True end)
    (evaluateConditions tenantId caseId runId) w.
Proof.
  intros He.
  unfold Activities.evaluateConditions. apply during_bind, during_atomically. intros w1 H1.
  apply (expired_later _ _ _ _ H1) in He. clear w H1. rewrite load_case_eq. split; [done|]. cbn [fst snd].
  destruct (find_case tenantId caseId w1) as [c|]; [|done].
  apply during_bind, during_atomically. intros w2 H2. apply (expired_later _ _ _ _ H2) in He. split; [done|].
  cbn [fst snd gets]. apply during_bind, during_atomically. intros w3 H3. apply (expired_later _ _ _ _ H3) in He.
  cbn [fst snd gets]. rewrite load_tenant_eq. split; [done|]. cbn [fst snd].
  destruct (Ledger.tenants (w_budget w3) !! tenantId) as [t|]; [|done].
  apply during_bind, during_atomically. intros w4 H4. apply (expired_later _ _ _ _ H4) in He. split; [done|].
  cbn [fst snd gets]. set (s0 := initial_state _ _ _ _ _ _ _ _). apply during_bind. unfold run_agent, Runtime.run.
  apply during_bind, during_atomically. intros w5 H5. apply (expired_later _ _ _ _ H5) in He. split; [done|].
  cbn [fst snd gets]. apply during_bind, during_atomically. intros w6 H6. apply (expired_later _ _ _ _ H6) in He.
  destruct He as (HI & k & l & Hl & Ht & Hr & Hd).
  destruct (reload (clocks w6) (fresh (w_supply w6)) (ledger_input (run_input s0)) (w_budget w6) k l HI Hl) as [Hsame Hsn];
    [done..|].
  split; [unfold AgentTheorems.unchanged; by rewrite AgentTheorems.on_budget_parts|].
  unfold on_budget. rewrite zoom_result, zoom_state. cbn [w_budget put_supply]. rewrite Hsame.
  destruct (Ledger.createOrLoad _ _ _ _).1 as [b|e]; [|done]. cbn [rename]. apply during_bind.
  destruct (buildToolRegistry _) as [registry|]; [|done]. cbn [Threads.during].
  apply during_bind. eapply during_mono; [|apply late_graph; [|done]].
  - intros [final|] w7 Hf; [|done]. apply during_bind, during_atomically. intros w8 _. split; [done|].
    cbn. rewrite Hf. done.
  - cbn. by rewrite (Hsn b eq_refl).
Qed.
End Late.

(** ** A provider that did not answer *)

Section Blocked.
Context (encrypt : string -> string -> Dsl.value -> Dsl.value) (decrypt : string -> Dsl.value -> option Dsl.value).
Context (sha256 : Dsl.value -> string) (parse_date : string -> option Z).
Context (safeParse : Tables.ProviderCapability -> Dsl.value -> option Dsl.value) (registry : Platform.Registry).
#[local] Existing Instance Tables.ProviderOperationIntentStatus_eq.

(** The logical operation was submitted, and how it ended is not known. *)
Definition open_effect (e : Dispatch.Effect) (db : Tables.Db) : Prop :=
  exists i, Dispatch.find_effect e db = Some i /\
    Tables.it_state i <> Tables.PREPARED /\ Tables.it_state i <> Tables.SUCCEEDED.

(** Nobody resolves it. *)
Definition stays_open (e : Dispatch.Effect) (db db' : Tables.Db) : Prop := open_effect e db -> open_effect e db'.
Definition same_intents (db db' : Tables.Db) : Prop := Tables.intents db' = Tables.intents db.

#[local] Instance same_intents_refl : Reflexive same_intents.
Proof. done. Qed.

Notation asks_nobody := (every (R := Dispatch.ProviderAnswer) same_intents (fun _ : Dispatch.Submission => False)).
Notation silent e := (during (stays_open e) same_intents (fun _ : Dispatch.Submission => False)).

Lemma silent_every {A} e (p : Prog Tables.Db Tables.Failure Dispatch.Submission Dispatch.ProviderAnswer A) db :
  asks_nobody p -> open_effect e db -> silent e (fun _ db => open_effect e db) p db.
Proof.
  apply during_every; [done|]. intros s s' Hs (i & Hi & H). exists i. unfold Dispatch.find_effect. by rewrite Hs.
Qed.

Lemma save_same {A} table write id (row : A) db :
  (forall x db, Tables.intents (write x db) = Tables.intents db) -> same_intents db (Tables.save_new table write id row db).2.
Proof.
  intros H. unfold Tables.save_new, mbind, M_bind, gets, guard_throw, throw, mret, M_ret, modify.
  destruct (bool_decide _); [done|]. apply H.
Qed.

Lemma every_issue id i : asks_nobody (Platform.issue id i).
Proof. apply every_atomically. intros db. by apply save_same. Qed.

Lemma every_purpose_gate id p :
  asks_nobody (Dispatch.purpose_gate id p).
Proof.
  unfold Dispatch.purpose_gate. destruct (negb _); [done|]. apply every_bind.
  - destruct (Dispatch.truthy_id _); [done|]. destruct (bool_decide _); [|done]. apply every_bind; [|done].
    unfold Platform.issueSynthetic. destruct (_ || _); [done|]. apply every_bind; [|done].
    apply every_atomically. intros db. by apply save_same.
  - intros [d|]; [|done]. apply every_bind; [by apply every_gets, _|]. by intros [].
Qed.

Lemma silent_prepare id key (p : Dispatch.PrepareIntentInput) db :
  open_effect (Dispatch.effect_of_input p) db ->
  silent (Dispatch.effect_of_input p) (fun r _ => match r with
    | Ok v => Tables.it_state (Dispatch.iv_row v) <> Tables.PREPARED /\ Tables.it_state (Dispatch.iv_row v) <> Tables.SUCCEEDED
    | Err _ => True end) (Dispatch.prepare decrypt sha256 id key p) db.
Proof.
  intros Ho. apply during_bind. unfold Dispatch.prepare_row. apply during_gets; [done|]. intros db1 Hs.
  destruct (Hs Ho) as (i & -> & H1 & H2). destruct (_ || _); [done|].
  rewrite bool_decide_eq_false_2 by done. cbn [during mret Prog_ret]. unfold Platform.pure, Dispatch.toIntentValue.
  unfold mbind, mret. cbn. destruct (Dispatch.decrypt_column _ _ "receipt" _); [|done]. cbn.
  by destruct (Dispatch.decrypt_column _ _ "finding" _).
Qed.

(** The logical operation of a request to an adapter. *)
Definition effect (a : Platform.ProviderAdapter) (p : Dispatch.DispatchProviderRequestParams) : Dispatch.Effect :=
  (Dispatch.dp_tenantId p, Platform.ad_providerId a, Dispatch.dp_capability p, Dispatch.logical_key p).

Lemma silent_dispatch ids p a db :
  Platform.resolveAdapter registry (Dispatch.dp_capability p) (Dispatch.mode_of p) = Ok a ->
  open_effect (effect a p) db ->
  silent (effect a p) (fun r _ => exists e, r = Err e)
    (Dispatch.dispatchProviderRequest encrypt decrypt sha256 parse_date safeParse registry ids p) db.
Proof.
  intros Ha Ho. unfold Dispatch.dispatchProviderRequest. rewrite Ha. apply during_bind. cbn [Platform.pure during].
  apply during_bind. cbn [Platform.pure during]. destruct (Platform.assertNotStructurallyExcluded _) as [|e]; [|by exists e].
  apply during_gets; [done|]. intros db1 H1. specialize (H1 Ho). destruct (negb (Platform.isActive _ db1)); [by eexists|].
  apply during_bind. eapply during_mono; [|apply (silent_every (effect a p))].
  2:{ destruct (bool_decide _); [done|]. by apply every_gets, _. }
  2:{ exact H1. }
  intros [activated|e] db2 H2; [|by exists e]. destruct (negb activated); [by eexists|].
  apply during_gets; [done|]. intros db3 H3. specialize (H3 H2).
  destruct (Consent.activeRecordForPurpose _ _ _ _ db3) as [c|]; [|by eexists].
  unfold Dispatch.dispatch_authorized. apply during_bind. eapply during_mono; [|apply silent_every; [apply every_purpose_gate|exact H3]].
  intros [d|e] db4 H4; [|by exists e]. apply during_bind. eapply during_mono; [|apply silent_every; [apply every_issue|exact H4]].
  intros [g|e] db5 H5; [|by exists e]. apply during_bind.
  eapply during_mono; [|exact (silent_prepare _ _ {| Dispatch.pp_tenantId := Dispatch.dp_tenantId p;
    Dispatch.pp_caseId := Dispatch.dp_caseId p; Dispatch.pp_providerId := Platform.ad_providerId a;
    Dispatch.pp_capability := Dispatch.dp_capability p; Dispatch.pp_effectClass := Platform.ad_effectClass a;
    Dispatch.pp_authorizationGrantId := Tables.gr_id g; Dispatch.pp_logicalOperationKey := Dispatch.logical_key p;
    Dispatch.pp_requestPayloadForFingerprint := Dispatch.dp_request p |} db5 H5)].
  intros [v|e] db6 Hv; [|by exists e]. destruct Hv as [Hv1 Hv2].
  destruct (Tables.it_state (Dispatch.iv_row v)); done || (by eexists).
Qed.

(** Evidence that a provider did not deliver in time is never asked for
    again.  While the intent of a case's evidence request is neither prepared
    nor succeeded - as a timeout leaves it, until an operator resolves it - no
    attempt of the activity, in this or any later workflow run of the case,
    submits anything, records anything, or succeeds. *)
Theorem undelivered_evidence_is_not_fetched message_of fresh hmac json secret capability source tenantId caseId borrowerId a w :
  let p := evidence_request tenantId caseId borrowerId capability in
  let e := effect a p in
  Platform.resolveAdapter registry capability Tables.SIMULATOR = Ok a -> open_effect e (w_tables w) ->
  during (fun w w' => stays_open e (w_tables w) (w_tables w'))
    (AgentTheorems.unchanged (fun w => (Tables.intents (w_tables w), w_comms w, w_cases w))) (fun _ => False)
    (fun r _ => exists f, r = Err f)
    (fetch_evidence message_of sha256 fresh hmac json secret encrypt decrypt parse_date safeParse registry capability
       source tenantId caseId borrowerId) w.
Proof.
  intros p e Ha Ho. unfold fetch_evidence. apply during_bind, during_atomically. intros w1 H1. specialize (H1 Ho).
  split; [done|]. cbn [fst snd dispatch_ids]. cbn [mbind M_bind new_id mret M_ret fst snd].
  apply during_bind, during_catch. eapply during_mono.
  2:{ apply (during_embed _ _ _ _ _ (stays_open e) same_intents (fun _ => False)); [done|done| |done|].
      - intros db w2 Hs. unfold AgentTheorems.unchanged. cbn. by rewrite Hs.
      - apply (silent_dispatch _ p a); [done|]. exact H1. }
  intros r w2 (r0 & -> & f & ->). cbn. by eexists.
Qed.
End Blocked.

(** ** Executions *)

Import AgentExamples WorkflowTheorems.
#[local] Existing Instance Evaluation.resolver0.

(** The world after the first [n] statements of an attempt that then dies. *)
Fixpoint crash_after {A} (n : nat) (p : prog A) (w : World) : World :=
  match n, p with S n, Db m k => crash_after n (k (m w).1) (m w).2 | _, _ => w end.

(** The fields that matter of what an evaluation left behind. *)
Definition left_behind (o : result Failure EvaluateConditionsResult * World) :=
  (match o.1 with Ok e => Some (ec_outcome e, ec_conditionId e) | Err _ => None end,
   map (fun kv => (kv.1, cn_status kv.2)) (map_to_list (w_conditions o.2)),
   map (fun kv => lc_status kv.2) (map_to_list (w_cases o.2))).

(** An attempt of the evaluation that dies right after it opened a
    condition is repeated by Temporal, and the repetition opens the condition
    again: the case version is part of the idempotency key and was counted up
    by the first write.  The workflow waits for the second one only; when that
    is resolved the case is ready, and the first is still open. *)
Theorem repeated_evaluation_opens_a_second_condition :
  let first := crash_after 28 evaluate0 world1 in
  let second := exec (fun _ => HandedOver) evaluate0 first in
  let resolved := exec (fun _ => HandedOver) (perform0 (ResolveCondition "id22" signal0)) second.1.2 in
  let marked := exec (fun _ => HandedOver) (perform0 MarkReadyForUnderwriting) resolved.1.2 in
  left_behind (second.1.1, second.1.2) =
    (Some (CONDITION_OPENED, Some "id22"), [("id9", OPEN); ("id22", OPEN)], [CONDITIONS_OPEN]) /\
  left_behind (Err EntityNotFound, marked.1.2) =
    (None, [("id9", OPEN); ("id22", SATISFIED)], [READY_FOR_UNDERWRITING]).
Proof. vm_compute. by split. Qed.

(** Once its policy was evaluated, an evaluation that dies and is repeated
    at the same version of the case cannot succeed any more: the reservation
    of the tool is replayed. *)
Theorem repeated_evaluation_goes_to_review :
  forall n, n ∈ seq 15 12 ->
    let second := exec (fun _ => HandedOver) evaluate0 (crash_after n evaluate0 world1) in
    left_behind (second.1.1, second.1.2) = (Some (REVIEW_REQUIRED, None), [], [COLLECTING_EVIDENCE]).
Proof. intros n Hn. cbn [seq] in Hn. repeat (apply elem_of_cons in Hn as [->|Hn]; [vm_compute; reflexivity|]). by apply elem_of_nil in Hn. Qed.

(** Somebody else changes the case. *)
Definition bump (w : World) : World :=
  match w_cases w !! "c" with
  | Some c => put_cases (<["c" := set_case_status (lc_status c) 0 c]> (w_cases w)) w
  | None => w
  end.

(** A change of the case between the version check of [create_condition]
    and its write is not reported to Temporal for another attempt: the
    [StaleCaseVersionError] is caught by [invokeTool], and the case goes to
    manual review.  The same change one statement earlier is reported. *)
Theorem lost_write_race_is_not_retried :
  (exec_env (fun i => if Nat.eqb i 26 then bump else id) 0 evaluate0 world1).1 =
    Ok {| ec_outcome := REVIEW_REQUIRED; ec_conditionId := None;
          ec_reviewReason := Some "[TOOL_EXECUTION_FAILURE] create_condition failed: error" |} /\
  (exec_env (fun i => if Nat.eqb i 25 then bump else id) 0 evaluate0 world1).1 = Err (StaleCaseVersion "c" 3).
Proof. by split; vm_compute. Qed.

Definition early0 : Sys := drive0 6000 400 (observe input1 perform0 (SignalResolve signal0) (initial input1 perform0 world2)).

(** A resolution that is signalled before there is any condition resolves
    whatever condition the evaluation opens later. *)
Theorem early_resolution_closes_an_unseen_condition :
  hd_error (sy_events early0) = Some (SignalResolve signal0) /\
  wf_position (sy_state input1 early0) = ready (Some "id50") /\
  map (fun kv => (kv.1, cn_status kv.2)) (map_to_list (w_conditions (sy_world early0))) = [("id50", SATISFIED)].
Proof. split_and!; vm_compute; reflexivity. Qed.

(** The case becomes ready. *)
Definition becomes_ready (w : World) : World :=
  (exec (fun _ => HandedOver) (perform0 MarkReadyForUnderwriting) w).1.2.

(** A cancellation that read the case before it became ready takes it back
    to manual review. *)
Theorem late_cancellation_takes_a_ready_case_back :
  let o := exec_env (fun i => if Nat.eqb i 1 then becomes_ready else id) 0 (perform0 MarkWorkflowCancelled) world1 in
  o.1 = Ok Completed /\ map (fun kv => lc_status kv.2) (map_to_list (w_cases o.2)) = [MANUAL_REVIEW].
Proof. split; vm_compute; reflexivity. Qed.

(** A run whose evaluation started at 1000 with 75 seconds, at 80000. *)
Definition late_world : World :=
  put_tables (Tables.with_consents {["consent" := consent0]} (Tables.empty_db 80000))
    (put_budget (Ledger.createOrLoad (clocks world1) "L" (ledger_input (input0 Consent.VALID)) (w_budget world1)).2 world1).

Lemma late_world_expired : expired "t" "wf" late_world.
Proof.
  split.
  - apply BudgetTheorems.reachable_Inv. exists {["t" := tenant0]}. split.
    + intros k t d lim Ht. apply lookup_singleton_Some in Ht as [_ <-]. by destruct d.
    + eapply BudgetTheorems.steps_cons; [|apply BudgetTheorems.steps_refl]. apply BudgetTheorems.step_createOrLoad.
  - exists "L". eexists. split_and!; [vm_compute; reflexivity..|vm_compute; discriminate].
Qed.

Lemma late_evaluation_goes_to_review_witness :
  during later (AgentTheorems.unchanged business) (fun _ => False)
    (fun r _ => match r with Ok e => ec_outcome e = REVIEW_REQUIRED | Err _ => True end) evaluate0 late_world /\
  exists e w q, exec (fun _ => HandedOver) evaluate0 late_world = (Ok e, w, q) /\ ec_outcome e = REVIEW_REQUIRED.
Proof.
  split; [|do 3 eexists; split; vm_compute; reflexivity].
  pose proof (late_evaluation_goes_to_review (fun _ => "error") (fun _ => "digest") (fun _ => "digest") (fun s => s) iso0
    (fun _ => 0) (fun _ => "unresolved") (fun _ => "differs") number0 fresh0 (fun k s => k) (fun _ => "json") "secret"
    (fun _ db => db) call0 (fun db => db) None "t" "c" "wf" late_world late_world_expired) as H.
  fold evaluate0 in H. apply H.
Defined.

(** The world after a provider timed out once. *)
Definition timed_out (q : Request) : Reply :=
  match q with AskProvider _ => ProviderSaid (Dispatch.OtherError true) | _ => HandedOver end.
Definition unanswered_world : World := (exec timed_out (perform0 (FetchEvidence Tables.INCOME)) world2).1.2.

Lemma undelivered_evidence_is_not_fetched_witness :
  during (fun w w' => stays_open (effect (adapter0 Tables.INCOME) (evidence_request "t" "c" "b" Tables.INCOME))
                        (w_tables w) (w_tables w'))
    (AgentTheorems.unchanged (fun w => (Tables.intents (w_tables w), w_comms w, w_cases w))) (fun _ => False)
    (fun r _ => exists f, r = Err f)
    (fetch_evidence (fun _ => "error") (fun _ => "digest") fresh0 (fun k s => k) (fun _ => "json") "secret"
       (fun _ _ v => v) (fun _ v => Some v) (fun _ => Some 1000) (fun _ v => Some v) registry0 Tables.INCOME
       "plaid-simulator" "t" "c" "b") unanswered_world.
Proof.
  apply (undelivered_evidence_is_not_fetched (fun _ _ v => v) (fun _ v => Some v) (fun _ => "digest")
    (fun _ => Some 1000) (fun _ v => Some v) registry0 (fun _ => "error") fresh0 (fun k s => k) (fun _ => "json") "secret"
    Tables.INCOME "plaid-simulator" "t" "c" "b" (adapter0 Tables.INCOME)).
  - vm_compute. reflexivity.
  - eexists. split_and!; [vm_compute; reflexivity|vm_compute; discriminate..].
Defined.
End WorkflowFindings.
