(* ===== verification/CaseService.v ===== *)
(** * The case services

    cases/cases.service.ts and, of workflows/, temporal-client.service.ts.
    Each method is a [Threads.Prog] over the tables of [AgentTables]; what it
    asks the Temporal server goes out as a call, marked with the tenant it is
    asked for, and its answer to the HTTP client goes out as the call
    [Respond].  The server is not modelled: it may answer anything.

    Left out: the endpoints that only pass a call on to the timeline or to the
    policy-change tool, the connection to the server, and telemetry. *)

From Stdlib Require Import Ascii SpecFloat.
From stdpp Require Import gmap strings list pretty.
From S2P Require Import Prelude BudgetLedger PolicyDsl PolicyDigest PolicyResolver PolicyEvaluation PolicyActivation Concurrency ProviderTables Consent ProviderPlatform ProviderDispatch WebhookGuard Outbox Communications AgentTables AgentTools AgentPlanner AgentRuntime CaseActivities CaseWorkflow.

Module Cases.
Import Threads.
#[local] Existing Instance Agent.CaseStatus_eq.
Import Agent (World, LoanCase, CaseStatus, w_cases, w_tables, w_budget, w_policy, w_dbclock, put_cases, put_tables,
  lc_id, lc_tenantId, lc_idempotencyKey, lc_borrowerId, lc_status, lc_version, lc_updatedAt).
Import Workflow (CaseConditionsWorkflowInput, ResolveConditionSignalPayload, ResumeInterruptedEvaluationSignalPayload).

(** ** Requests and results *)

Record CreateCaseDto := {
  dto_borrowerId : string;
  dto_requestedAmount : spec_float;
  dto_loanType : Activation.LoanType;
  dto_statedMonthlyIncome : spec_float;
  dto_jurisdictionCode : string }.

(** [resolution] is present for a condition resolution, by validation. *)
Inductive ReviewDto :=
| RESUME_EVALUATION (actorId : string) (reason : option string)
| CONDITION_RESOLUTION (actorId : string) (resolution : Activities.ConditionResolutionKind) (reason : option string).

Inductive ConsentActionDto := REVOKE (reason : option string) | GRANT.

Record StartWorkflowRunResult := { sr_workflowId : string; sr_runId : string }.
Record WorkflowRunStatus := { ws_workflowId : string; ws_runId : string; ws_status : string }.
Record WorkflowOperationQueueItem := {
  wq_run : WorkflowRunStatus;
  wq_caseId : string;
  wq_caseStatus : CaseStatus;
  wq_caseUpdatedAt : Z }.

Definition RECOVERABLE_WORKFLOW_STATUSES : list string := ["CANCELLED"; "FAILED"; "TIMED_OUT"; "TERMINATED"].

Inductive Failure :=
| NotFound (message : string)
| Conflict (message : string)
| NumericOverflow
| AgentFailure (e : Agent.Failure)
| ConsentFailure (e : Tables.Failure)
| WorkflowNotFoundError
| TemporalError (message : string)
| OtherError (message : string).

(** ** What goes out *)

Inductive TemporalRequest :=
| StartWorkflow (workflowId : string) (allowDuplicateFailedOnly : bool) (input : CaseConditionsWorkflowInput)
| Describe (workflowId : string) (runId : option string)
| SignalResolveCondition (workflowId : string) (payload : ResolveConditionSignalPayload)
| SignalResumeEvaluation (workflowId : string) (payload : ResumeInterruptedEvaluationSignalPayload)
| CancelRun (workflowId runId : string).

Inductive TemporalReply :=
| Started (runId : string)
| AlreadyStarted
| Described (runId status : string)
| Acknowledged
| WorkflowMissing
| ServerFailure (message : string).

Inductive Response :=
| Created (idempotencyKey : string) (loanCase : LoanCase)
| Found (loanCase : LoanCase)
| RunStarted (r : StartWorkflowRunResult)
| RunStatus (s : WorkflowRunStatus)
| Operations (items : list WorkflowOperationQueueItem)
| ReviewAccepted
| ConsentRecorded (c : Tables.ConsentRecord)
| ConsentHistory (cs : list Tables.ConsentRecord)
| Escalated
| Failed (e : Failure).

Inductive Request :=
| Temporal (tenantId : string) (q : TemporalRequest)
| OfAgent (q : Agent.Request)
| Respond (tenantId : string) (r : Response).

Inductive Reply := TemporalSaid (r : TemporalReply) | NothingSaid.

Notation prog := (Prog World Failure Request Reply).

(** ** The Temporal client *)

Definition workflow_id (caseId : string) : string := "case-conditions-" +:+ caseId.

Definition temporal (tenantId : string) (q : TemporalRequest) : prog TemporalReply :=
  r ← call (Temporal tenantId q);
  mret (match r with TemporalSaid r => r | NothingSaid => ServerFailure "no reply" end).

(** What the SDK throws for the other replies. *)
Definition unexpected {A} (r : TemporalReply) : prog A :=
  match r with
  | WorkflowMissing => fail WorkflowNotFoundError
  | ServerFailure message => fail (TemporalError message)
  | _ => fail (TemporalError "unexpected reply")
  end.

Definition getWorkflowStatus (tenantId caseId : string) (runId : option string) : prog WorkflowRunStatus :=
  r ← temporal tenantId (Describe (workflow_id caseId) runId);
  match r with
  | Described runId status =>
      mret {| ws_workflowId := workflow_id caseId; ws_runId := runId; ws_status := status |}
  | r => unexpected r
  end.

Definition startCaseConditionsWorkflow (input : CaseConditionsWorkflowInput) : prog StartWorkflowRunResult :=
  let tenantId := Workflow.wi_tenantId input in
  let workflowId := workflow_id (Workflow.wi_caseId input) in
  r ← temporal tenantId (StartWorkflow workflowId false input);
  match r with
  | Started runId => mret {| sr_workflowId := workflowId; sr_runId := runId |}
  | AlreadyStarted =>
      existing ← getWorkflowStatus tenantId (Workflow.wi_caseId input) None;
      mret {| sr_workflowId := workflowId; sr_runId := ws_runId existing |}
  | r => unexpected r
  end.

Definition recoverCaseConditionsWorkflow (input : CaseConditionsWorkflowInput) : prog StartWorkflowRunResult :=
  let workflowId := workflow_id (Workflow.wi_caseId input) in
  r ← temporal (Workflow.wi_tenantId input) (StartWorkflow workflowId true input);
  match r with
  | Started runId => mret {| sr_workflowId := workflowId; sr_runId := runId |}
  | r => unexpected r
  end.

Definition signal (tenantId : string) (q : TemporalRequest) : prog unit :=
  r ← temporal tenantId q;
  match r with Acknowledged => mret tt | r => unexpected r end.

Definition resolveCondition (tenantId caseId : string) (payload : ResolveConditionSignalPayload) : prog unit :=
  signal tenantId (SignalResolveCondition (workflow_id caseId) payload).

Definition resumeInterruptedEvaluation (tenantId caseId : string) (payload : ResumeInterruptedEvaluationSignalPayload)
  : prog unit :=
  signal tenantId (SignalResumeEvaluation (workflow_id caseId) payload).

Definition cancelCaseConditionsWorkflow (tenantId caseId runId : string) : prog unit :=
  signal tenantId (CancelRun (workflow_id caseId) runId).

(** ** The service *)

Section Service.
Context (message_of : Agent.Failure -> string) (fresh : nat -> string).
Context (hmac : string -> string -> string) (json : Dsl.value -> string) (outboxSigningSecret : string).
(** How a number is stored in a numeric(14,2) column, or that it overflows. *)
Context (numeric_14_2 : spec_float -> option string).

(** A statement of the agent's tables, or of its tools. *)
Definition on_agent {A} (m : M World Agent.Failure A) : M World Failure A := zoom id (fun w _ => w) AgentFailure m.

Definition of_agent {A} (p : Prog World Agent.Failure Agent.Request Agent.Reply A) : prog A :=
  embed id (fun w _ => w) AgentFailure OfAgent (fun _ => Agent.HandedOver) p.

Definition on_consent {A} (p : Prog Tables.Db Tables.Failure Empty_set unit A) : prog A :=
  embed w_tables put_tables ConsentFailure (fun q : Empty_set => match q with end) (fun _ => tt) p.

(** *** Creation *)

Definition has_key (tenantId idempotencyKey : string) (c : LoanCase) : bool :=
  String.eqb (lc_tenantId c) tenantId && String.eqb (lc_idempotencyKey c) idempotencyKey.

Definition case_with_key (tenantId idempotencyKey : string) (w : World) : option LoanCase :=
  find_row (has_key tenantId idempotencyKey) (w_cases w).

Definition loan_type_text (t : Activation.LoanType) : string :=
  match t with
  | Activation.CONVENTIONAL => "CONVENTIONAL" | Activation.FHA => "FHA" | Activation.VA => "VA"
  | Activation.JUMBO => "JUMBO"
  end.

Definition created_payload (caseId : string) (dto : CreateCaseDto) : Dsl.value :=
  Dsl.VObject [("caseId", Dsl.VString caseId); ("borrowerId", Dsl.VString (dto_borrowerId dto));
    ("requestedAmount", Dsl.VNumber (dto_requestedAmount dto));
    ("loanType", Dsl.VString (loan_type_text (dto_loanType dto)));
    ("statedMonthlyIncome", Dsl.VNumber (dto_statedMonthlyIncome dto));
    ("jurisdictionCode", Dsl.VString (dto_jurisdictionCode dto))].

(** The row, as the database stores it. *)
Definition new_case (id idempotencyKey tenantId amount income : string) (dto : CreateCaseDto) (now : Z) : LoanCase :=
  {| Agent.lc_id := id; Agent.lc_tenantId := tenantId; Agent.lc_idempotencyKey := idempotencyKey;
     Agent.lc_borrowerId := dto_borrowerId dto; Agent.lc_requestedAmount := amount;
     Agent.lc_loanType := dto_loanType dto; Agent.lc_statedMonthlyIncome := income;
     Agent.lc_jurisdictionCode := dto_jurisdictionCode dto; Agent.lc_status := Agent.DRAFT; Agent.lc_version := 1;
     Agent.lc_createdAt := now; Agent.lc_updatedAt := now |}.

(** The transaction: the row, under both unique constraints, and its event. *)
Definition insert_case (idempotencyKey tenantId : string) (dto : CreateCaseDto) : M World Failure LoanCase :=
  transaction (
    id ← on_agent (Agent.new_id fresh);
    amount ← or_throw (numeric_14_2 (dto_requestedAmount dto)) NumericOverflow;
    income ← or_throw (numeric_14_2 (dto_statedMonthlyIncome dto)) NumericOverflow;
    taken ← gets (fun w => bool_decide (is_Some (w_cases w !! id)) ||
                           bool_decide (is_Some (case_with_key tenantId idempotencyKey w)));
    _ ← guard_throw taken (AgentFailure Agent.UniqueViolation);
    now ← gets w_dbclock;
    let row := new_case id idempotencyKey tenantId amount income dto now in
    _ ← modify (fun w => put_cases (<[id := row]> (w_cases w)) w);
    _ ← on_agent (Agent.writeOutboxEvent fresh hmac json outboxSigningSecret tenantId id Outbox.LoanCaseCreated
                    (created_payload id dto));
    mret row).

Definition grantForCase (tenantId caseId : string) : prog Tables.ConsentRecord :=
  id ← atomically (on_agent (Agent.new_id fresh));
  on_consent (Consent.grantForCase id tenantId caseId Consent.DEFAULT_PROVIDER_PURPOSE Consent.DEFAULT_SCOPE).

Definition isUniqueViolation (e : Failure) : bool :=
  match e with
  | AgentFailure Agent.UniqueViolation | ConsentFailure Tables.UniqueViolation => true
  | _ => false
  end.

Definition createCase (idempotencyKey tenantId : string) (dto : CreateCaseDto) : prog LoanCase :=
  tenant ← atomically (gets (fun w => Ledger.tenants (w_budget w) !! tenantId));
  match tenant with
  | None => fail (NotFound ("Tenant " +:+ tenantId +:+ " not found"))
  | Some _ =>
  jurisdiction ← atomically (gets (fun w =>
    Resolver.c_jurisdictions (Evaluation.catalog (w_policy w)) !! dto_jurisdictionCode dto));
  match jurisdiction with
  | None => fail (NotFound ("Jurisdiction " +:+ dto_jurisdictionCode dto +:+ " not found"))
  | Some _ =>
  existing ← atomically (gets (case_with_key tenantId idempotencyKey));
  match existing with
  | Some c => mret c
  | None =>
      pcatch
        (loanCase ← atomically (insert_case idempotencyKey tenantId dto);
         _ ← grantForCase tenantId (lc_id loanCase);
         mret loanCase)
        (fun e =>
           if isUniqueViolation e then
             found ← atomically (gets (case_with_key tenantId idempotencyKey));
             match found with Some c => mret c | None => fail (AgentFailure Agent.EntityNotFound) end
           else fail e)
  end end end.

(** *** Reading *)

Definition getCase (tenantId caseId : string) : prog LoanCase :=
  loanCase ← atomically (gets (Agent.find_case tenantId caseId));
  match loanCase with
  | Some c => mret c
  | None => fail (NotFound ("Case " +:+ caseId +:+ " not found"))
  end.

(** *** Workflow runs *)

Definition workflow_input (c : LoanCase) (recoveryOfRunId : option string) : CaseConditionsWorkflowInput :=
  {| Workflow.wi_tenantId := lc_tenantId c; Workflow.wi_caseId := lc_id c; Workflow.wi_borrowerId := lc_borrowerId c;
     Workflow.wi_recoveryOfRunId := recoveryOfRunId |}.

Definition startWorkflow (tenantId caseId : string) : prog StartWorkflowRunResult :=
  loanCase ← getCase tenantId caseId;
  startCaseConditionsWorkflow (workflow_input loanCase None).

Definition getWorkflowRun (tenantId caseId runId : string) : prog WorkflowRunStatus :=
  _ ← getCase tenantId caseId;
  pcatch (getWorkflowStatus tenantId caseId (Some runId))
    (fun e => match e with
              | WorkflowNotFoundError =>
                  fail (NotFound ("Workflow run " +:+ runId +:+ " not found for case " +:+ caseId))
              | e => fail e
              end).

(** The description of one case of the queue; [None] when it is left out. *)
Definition describe_operation (tenantId : string) (c : LoanCase) : prog (option WorkflowOperationQueueItem) :=
  pcatch
    (workflow ← getWorkflowStatus tenantId (lc_id c) None;
     mret (if negb (String.eqb (ws_status workflow) "RUNNING") &&
              negb (includes RECOVERABLE_WORKFLOW_STATUSES (ws_status workflow))
           then None
           else Some {| wq_run := workflow; wq_caseId := lc_id c; wq_caseStatus := lc_status c;
                        wq_caseUpdatedAt := lc_updatedAt c |}))
    (fun e => match e with WorkflowNotFoundError => mret None | e => fail e end).

(** [Promise.all]: every description is asked for; the first error is thrown. *)
Fixpoint describe_all (tenantId : string) (cs : list LoanCase) : prog (list WorkflowOperationQueueItem) :=
  match cs with
  | [] => mret []
  | c :: cs =>
      item ← pcatch (i ← describe_operation tenantId c; mret (Ok i)) (fun e => mret (Err e));
      items ← describe_all tenantId cs;
      match item with
      | Ok (Some i) => mret (i :: items)
      | Ok None => mret items
      | Err e => fail e
      end
  end.

Definition recent_cases (tenantId : string) (w : World) : list LoanCase :=
  firstn 100 (order_by (fun c => - lc_updatedAt c) (find_rows (fun c => String.eqb (lc_tenantId c) tenantId) (w_cases w))).

Definition listWorkflowOperations (tenantId : string) : prog (list WorkflowOperationQueueItem) :=
  cases ← atomically (gets (recent_cases tenantId));
  describe_all tenantId cases.

Definition cancelWorkflow (tenantId caseId runId : string) : prog WorkflowRunStatus :=
  _ ← getCase tenantId caseId;
  workflow ← getWorkflowRun tenantId caseId runId;
  if negb (String.eqb (ws_status workflow) "RUNNING")
  then fail (Conflict ("Workflow run " +:+ runId +:+ " cannot be cancelled from " +:+ ws_status workflow))
  else
    _ ← cancelCaseConditionsWorkflow tenantId caseId runId;
    mret workflow.

Definition recoverWorkflow (tenantId caseId runId : string) : prog StartWorkflowRunResult :=
  loanCase ← getCase tenantId caseId;
  if bool_decide (lc_status loanCase = Agent.READY_FOR_UNDERWRITING) || bool_decide (lc_status loanCase = Agent.CLOSED)
  then fail (Conflict ("Case " +:+ caseId +:+ " cannot be recovered"))
  else
    workflow ← getWorkflowRun tenantId caseId runId;
    if negb (includes RECOVERABLE_WORKFLOW_STATUSES (ws_status workflow))
    then fail (Conflict ("Workflow run " +:+ runId +:+ " cannot be recovered from " +:+ ws_status workflow))
    else
      latest ← getWorkflowStatus tenantId caseId None;
      if negb (String.eqb (ws_runId latest) runId)
      then fail (Conflict ("Workflow run " +:+ runId +:+ " is no longer the latest execution for case " +:+ caseId))
      else recoverCaseConditionsWorkflow (workflow_input loanCase (Some runId)).

(** *** Reviews, consent, escalation *)

Definition submitReview (tenantId caseId : string) (dto : ReviewDto) : prog unit :=
  _ ← getCase tenantId caseId;
  pcatch
    (match dto with
     | RESUME_EVALUATION actorId reason =>
         resumeInterruptedEvaluation tenantId caseId {| Workflow.ri_actorId := actorId; Workflow.ri_note := reason |}
     | CONDITION_RESOLUTION actorId resolution reason =>
         resolveCondition tenantId caseId
           {| Workflow.rs_actorId := actorId; Workflow.rs_resolution := resolution; Workflow.rs_reason := reason |}
     end)
    (fun e => match e with
              | WorkflowNotFoundError => fail (NotFound ("No running workflow for case " +:+ caseId))
              | e => fail e
              end).

Definition submitConsentAction (tenantId caseId : string) (dto : ConsentActionDto) : prog Tables.ConsentRecord :=
  _ ← getCase tenantId caseId;
  match dto with
  | REVOKE reason =>
      newTaskId ← atomically (on_agent (Agent.new_id fresh));
      on_consent (Consent.revoke newTaskId tenantId caseId reason)
  | GRANT => grantForCase tenantId caseId
  end.

(** [ConsentService.listForCase] *)
Definition listForCase (tenantId caseId : string) (db : Tables.Db) : list Tables.ConsentRecord :=
  order_by (fun c => - Tables.cr_grantedAt c) (find_rows (Consent.of_case tenantId caseId) (Tables.consents db)).

Definition listConsents (tenantId caseId : string) : prog (list Tables.ConsentRecord) :=
  _ ← getCase tenantId caseId;
  atomically (gets (fun w => listForCase tenantId caseId (w_tables w))).

Definition escalateCase (tenantId caseId reason : string) : prog unit :=
  loanCase ← getCase tenantId caseId;
  registry ← Done (rename AgentFailure
    (Tools.buildToolRegistry [Tools.escalateToReviewerTool fresh hmac json outboxSigningSecret]));
  invocation ← of_agent (Tools.invokeTool message_of registry "escalate_to_reviewer"
    {| Tools.tc_tenantId := tenantId; Tools.tc_caseId := caseId; Tools.tc_budgetReservationId := None |}
    (Tools.EscalateToReviewer reason (lc_version loanCase)));
  match Tools.tv_outcome invocation, Tools.tv_result invocation with
  | Agent.SUCCESS, Some (Tools.EscalateResult Tools.ESCALATION_STALE) =>
      fail (Conflict ("case " +:+ caseId +:+ " changed since it was last read — retry"))
  | Agent.SUCCESS, Some (Tools.EscalateResult (Tools.INVALID_STATUS s)) =>
      fail (Conflict ("case " +:+ caseId +:+ " cannot be escalated from status " +:+ Agent.case_status_text s))
  | Agent.SUCCESS, _ => mret tt
  | Agent.FAILURE, _ =>
      fail (OtherError ("escalate_to_reviewer failed: " +:+ default "" (Tools.tv_error invocation)))
  end.

(** ** The endpoints *)

Inductive Op :=
| OpCreate (tenantId idempotencyKey : string) (dto : CreateCaseDto)
| OpGet (tenantId caseId : string)
| OpStart (tenantId caseId : string)
| OpRun (tenantId caseId runId : string)
| OpOperations (tenantId : string)
| OpCancel (tenantId caseId runId : string)
| OpRecover (tenantId caseId runId : string)
| OpReview (tenantId caseId : string) (dto : ReviewDto)
| OpConsent (tenantId caseId : string) (dto : ConsentActionDto)
| OpConsents (tenantId caseId : string)
| OpEscalate (tenantId caseId reason : string).

Definition op_tenant (op : Op) : string :=
  match op with
  | OpCreate t _ _ | OpGet t _ | OpStart t _ | OpRun t _ _ | OpOperations t | OpCancel t _ _ | OpRecover t _ _
  | OpReview t _ _ | OpConsent t _ _ | OpConsents t _ | OpEscalate t _ _ => t
  end.

Definition serve (op : Op) : prog Response :=
  match op with
  | OpCreate t k dto => c ← createCase k t dto; mret (Created k c)
  | OpGet t c => c ← getCase t c; mret (Found c)
  | OpStart t c => r ← startWorkflow t c; mret (RunStarted r)
  | OpRun t c r => s ← getWorkflowRun t c r; mret (RunStatus s)
  | OpOperations t => l ← listWorkflowOperations t; mret (Operations l)
  | OpCancel t c r => s ← cancelWorkflow t c r; mret (RunStatus s)
  | OpRecover t c r => r ← recoverWorkflow t c r; mret (RunStarted r)
  | OpReview t c dto => _ ← submitReview t c dto; mret ReviewAccepted
  | OpConsent t c dto => r ← submitConsentAction t c dto; mret (ConsentRecorded r)
  | OpConsents t c => l ← listConsents t c; mret (ConsentHistory l)
  | OpEscalate t c reason => _ ← escalateCase t c reason; mret Escalated
  end.

Definition handler (op : Op) : prog unit :=
  r ← pcatch (serve op) (fun e => mret (Failed e));
  _ ← call (Respond (op_tenant op) r);
  mret tt.
End Service.
End Cases.
