(* ===== verification/CaseTheorems.v ===== *)
(** * What the case services guarantee

    The endpoints of [CaseService] in every interleaving, with crashes and
    with the other users of the tables: what a tenant is told about and what
    the Temporal server is asked concerns that tenant's cases only, and a
    creation is idempotent. *)

From Stdlib Require Import Ascii SpecFloat.
From stdpp Require Import gmap strings list pretty.
From S2P Require Import Prelude BudgetLedger BudgetTheorems PolicyDsl PolicyDigest PolicyResolver PolicyEvaluation PolicyActivation Concurrency ProviderTables Consent ProviderPlatform ProviderDispatch WebhookGuard Outbox Communications AgentTables AgentTools AgentPlanner AgentRuntime AgentExamples CaseActivities CaseWorkflow WorkflowTheorems CaseService.

Module CaseTheorems.
Import Threads Cases.
Import Agent (World, LoanCase, w_cases, w_tables, w_comms, w_supply, put_cases, put_tables, put_supply,
  lc_id, lc_tenantId, lc_idempotencyKey, lc_borrowerId).
Import Outbox (OutboxEvent, oe_id, oe_tenantId, oe_caseId, oe_eventType).

(** A handler of a part whose statements are [G] steps of that part. *)
Lemma every_embedded {S E Q R W E' Q' R' A} (get : W -> S) (put : S -> W -> W) (err : E -> E') (ask : Q -> Q')
    (reply : R' -> R) (G : S -> S -> Prop) (G' : W -> W -> Prop) (may : Q -> Prop) (may' : Q' -> Prop)
    (p : Prog S E Q R A) :
  (forall s w, G (get w) s -> G' w (put s w)) -> (forall q, may q -> may' (ask q)) ->
  every G may p -> every G' may' (embed get put err ask reply p).
Proof.
  intros HG Hm. induction p as [r|C m k IH|q k IH]; cbn [embed every]; [done| |].
  - intros Hp w. destruct (Hp (get w)) as [H1 H2]. destruct (m (get w)) as [r s]. cbn in *. split; [by apply HG|by apply IH].
  - intros [H1 H2]. split; [by apply Hm|]. intros r. apply IH, H2.
Qed.

(** ** What does not change *)

Definition identity (c : LoanCase) :=
  (lc_id c, lc_tenantId c, lc_idempotencyKey c, lc_borrowerId c,
   (Agent.lc_requestedAmount c, Agent.lc_loanType c, Agent.lc_statedMonthlyIncome c, Agent.lc_jurisdictionCode c,
    Agent.lc_createdAt c)).

Definition outbox (w : World) : gmap string OutboxEvent := Comms.outbox (w_comms w).
Definition consents (w : World) : gmap string Tables.ConsentRecord := Tables.consents (w_tables w).

(** An event that reports the creation of a case. *)
Definition creation (w : World) (caseId key : string) (e : OutboxEvent) : Prop :=
  outbox w !! key = Some e /\ oe_eventType e = Outbox.LoanCaseCreated /\ oe_caseId e = caseId.

Section Guarantees.
Context (message_of : Agent.Failure -> string) (fresh : nat -> string).
Context (hmac : string -> string -> string) (json : Dsl.value -> string) (outboxSigningSecret : string).
Context (numeric_14_2 : spec_float -> option string).
Notation handler := (handler message_of fresh hmac json outboxSigningSecret numeric_14_2).
Notation serve := (serve message_of fresh hmac json outboxSigningSecret numeric_14_2).

Record Inv (w : World) : Prop := {
  inv_fresh : forall n, (w_supply w <= n)%nat -> w_cases w !! fresh n = None /\ outbox w !! fresh n = None;
  inv_id : forall id c, w_cases w !! id = Some c -> lc_id c = id;
  inv_key : forall id id' c c', w_cases w !! id = Some c -> w_cases w !! id' = Some c' ->
    lc_tenantId c = lc_tenantId c' -> lc_idempotencyKey c = lc_idempotencyKey c' -> id = id';
  inv_created : forall id c, w_cases w !! id = Some c ->
    exists key e, creation w id key e /\ oe_tenantId e = lc_tenantId c /\
      forall key' e', creation w id key' e' -> key' = key;
  inv_orphan : forall id key e, creation w id key e -> is_Some (w_cases w !! id);
  inv_consent : forall id r, consents w !! id = Some r -> Tables.cr_id r = id }.

Record evolves (w w' : World) : Prop := {
  ev_cases : forall id c, w_cases w !! id = Some c ->
    exists c', w_cases w' !! id = Some c' /\ identity c' = identity c;
  ev_consents : forall id r, consents w !! id = Some r ->
    exists r', consents w' !! id = Some r' /\ Tables.cr_tenantId r' = Tables.cr_tenantId r }.

#[export] Instance evolves_pre : PreOrder evolves.
Proof.
  split.
  - intros w. split; eauto.
  - intros w1 w2 w3 [Hc Hr] [Hc' Hr']. split.
    + intros id c H. destruct (Hc _ _ H) as (c1 & H1 & E1). destruct (Hc' _ _ H1) as (c2 & H2 & E2).
      exists c2. split; [done|congruence].
    + intros id r H. destruct (Hr _ _ H) as (c1 & H1 & E1). destruct (Hr' _ _ H1) as (c2 & H2 & E2).
      exists c2. split; [done|congruence].
Qed.

(** What everybody else, and every endpoint but the creation, does to the
    tables: cases come and go nowhere and keep their identity, no creation is
    reported, and generated keys come from the supply. *)
Record others (w w' : World) : Prop := {
  ot_cases : identity <$> w_cases w' = identity <$> w_cases w;
  ot_creations : forall id key e, creation w' id key e <-> creation w id key e;
  ot_supply : (w_supply w <= w_supply w')%nat;
  ot_fresh : forall n, (w_supply w' <= n)%nat -> outbox w !! fresh n = None -> outbox w' !! fresh n = None;
  ot_consents : forall id r, consents w !! id = Some r ->
    exists r', consents w' !! id = Some r' /\ Tables.cr_tenantId r' = Tables.cr_tenantId r;
  ot_ids : (forall id r, consents w !! id = Some r -> Tables.cr_id r = id) ->
    forall id r, consents w' !! id = Some r -> Tables.cr_id r = id }.

Lemma others_case w w' id c :
  others w w' -> w_cases w' !! id = Some c -> exists c', w_cases w !! id = Some c' /\ identity c = identity c'.
Proof.
  intros H Hc. assert ((identity <$> w_cases w') !! id = Some (identity c)) as Hi by (by rewrite lookup_fmap, Hc).
  rewrite (ot_cases _ _ H), lookup_fmap in Hi. destruct (w_cases w !! id) as [c'|]; [|done].
  exists c'. split; [done|]. by apply (inj Some) in Hi.
Qed.

Lemma others_back w w' id c :
  others w w' -> w_cases w !! id = Some c -> exists c', w_cases w' !! id = Some c' /\ identity c' = identity c.
Proof.
  intros H Hc. assert ((identity <$> w_cases w) !! id = Some (identity c)) as Hi by (by rewrite lookup_fmap, Hc).
  rewrite <- (ot_cases _ _ H), lookup_fmap in Hi. destruct (w_cases w' !! id) as [c'|]; [|done].
  exists c'. split; [done|]. by apply (inj Some) in Hi.
Qed.

Lemma identity_parts c c' : identity c = identity c' ->
  lc_id c = lc_id c' /\ lc_tenantId c = lc_tenantId c' /\ lc_idempotencyKey c = lc_idempotencyKey c' /\
  lc_borrowerId c = lc_borrowerId c'.
Proof. unfold identity. intros H. by simplify_eq. Qed.

Lemma others_harmless w w' : others w w' -> Inv w -> Inv w' /\ evolves w w'.
Proof.
  intros H [Hf Hid Hk Hc Ho Hn]. split.
  - split.
    + intros n Hl. pose proof (ot_supply _ _ H). destruct (Hf n) as [H1 H2]; [lia|].
      split; [|by apply (ot_fresh _ _ H)]. destruct (w_cases w' !! fresh n) as [c|] eqn:E; [|done].
      destruct (others_case _ _ _ _ H E) as (c' & E' & _). congruence.
    + intros id c E. destruct (others_case _ _ _ _ H E) as (c' & E' & (-> & _)%identity_parts). by apply Hid.
    + intros id id' c c' E E' Ht Hy. destruct (others_case _ _ _ _ H E) as (d & D & (_ & H1 & H2 & _)%identity_parts).
      destruct (others_case _ _ _ _ H E') as (d' & D' & (_ & H1' & H2' & _)%identity_parts).
      apply (Hk id id' d d' D D'); congruence.
    + intros id c E. destruct (others_case _ _ _ _ H E) as (d & D & (_ & H1 & _)%identity_parts).
      destruct (Hc id d D) as (key & e & C1 & C2 & C3). exists key, e. rewrite (ot_creations _ _ H). split_and!; [done|congruence|].
      intros key' e' C. apply (C3 key' e'). by apply (ot_creations _ _ H).
    + intros id key e C. apply (ot_creations _ _ H) in C. destruct (Ho _ _ _ C) as [c Hc'].
      destruct (others_back _ _ _ _ H Hc') as (c' & -> & _). done.
    + by apply (ot_ids _ _ H).
  - split; [intros id c; by apply others_back|apply H].
Qed.

Lemma others_refl w : others w w.
Proof. split; eauto. Qed.
#[local] Hint Resolve others_refl : core.

Lemma others_trans w1 w2 w3 : others w1 w2 -> others w2 w3 -> others w1 w3.
Proof.
  intros [a1 a2 a3 a4 a5 a6] [b1 b2 b3 b4 b5 b6]. split; [congruence| |lia| | |auto].
  - intros id k e. by rewrite b2, a2.
  - intros n Hn H. apply b4; [lia|]. apply a4; [lia|done].
  - intros id r H. destruct (a5 _ _ H) as (r1 & H1 & E1). destruct (b5 _ _ H1) as (r2 & H2 & E2).
    exists r2. split; [done|congruence].
Qed.
#[local] Instance others_preorder : PreOrder others.
Proof. split; [exact others_refl|exact others_trans]. Qed.

(** ** Statements that only evolve the tables *)

Context `{fresh_inj : !Inj (=) (=) fresh}.

Definition fair (w w' : World) : Prop := Inv w -> others w w'.

Lemma fair_others w w' : others w w' -> fair w w'.
Proof. by intros H _. Qed.

Lemma fair_harmless w w' : fair w w' -> Inv w -> Inv w' /\ evolves w w'.
Proof. intros H HI. by apply others_harmless; [apply H|]. Qed.

Lemma others_supply w : others w (put_supply (S (w_supply w)) w).
Proof. split; [done|done|cbn; lia|by intros n _|by cbn; eauto|by cbn]. Qed.

(** The outbox after an event was written under the next key. *)
Lemma fair_event w tenantId caseId ty payload :
  ty <> Outbox.LoanCaseCreated ->
  fair w (Agent.writeOutboxEvent fresh hmac json outboxSigningSecret tenantId caseId ty payload w).2.
Proof using fresh_inj.
  intros Hty HI. set (w' := (Agent.writeOutboxEvent _ _ _ _ _ _ _ _ w).2).
  assert (outbox w' = <[fresh (w_supply w) := Outbox.outbox_row hmac json outboxSigningSecret (fresh (w_supply w))
    (Agent.w_dbclock w) tenantId caseId ty payload]> (outbox w)) as Ho by done.
  assert (w_supply w' = Datatypes.S (w_supply w)) as Hs by done.
  pose proof (inv_fresh _ HI (w_supply w) (le_n _)) as [_ Hf].
  split; [done| |lia| |by cbn; eauto|by cbn; eauto].
  - intros id key e. unfold creation. rewrite Ho. destruct (decide (key = fresh (w_supply w))) as [->|Hne].
    + rewrite lookup_insert_eq, Hf. split; [|by intros (? & _)]. intros ([= <-] & Ht & _). by destruct Hty.
    + by rewrite lookup_insert_ne.
  - intros n Hn. rewrite Ho. intros Hi. rewrite lookup_insert_ne; [done|]. intros He%(inj fresh). lia.
Qed.

Lemma others_update_case w tenantId caseId criteria status :
  others w (Agent.update_case tenantId caseId criteria status w).2.
Proof.
  unfold Agent.update_case, mbind, M_bind, gets. destruct (Agent.find_case tenantId caseId w) as [c|] eqn:E; [|done].
  destruct (criteria c); [|done]. unfold Agent.find_case in E. apply Tables.visible_Some in E as [E _].
  split; cbn; eauto. rewrite fmap_insert, insert_id; [done|]. by rewrite lookup_fmap, E.
Qed.

Lemma on_agent_state {A} (m : M World Agent.Failure A) w : (on_agent m w).2 = (m w).2.
Proof. unfold on_agent, zoom, id. by destruct (m w) as [[a|e] w']. Qed.

Lemma fair_bind {E A B} (m : M World E A) (f : A -> M World E B) w :
  fair w (m w).2 -> (forall a, m w = (Ok a, (m w).2) -> fair (m w).2 (f a (m w).2).2) -> fair w ((m ≫= f) w).2.
Proof.
  intros Hm Hf HI. unfold mbind, M_bind. destruct (m w) as [[a|e] w1] eqn:Em; cbn in *; [|by apply Hm].
  etrans; [by apply Hm|]. apply Hf; [done|]. by apply (others_harmless _ _ (Hm HI)).
Qed.

Lemma fair_transaction {E A} (m : M World E A) w : fair w (m w).2 -> fair w (transaction m w).2.
Proof. unfold transaction. destruct (m w) as [[a|e] w1]; cbn; [done|]. intros _. by apply fair_others. Qed.

(** The consent tables. *)
Definition consent_step (db db' : Tables.Db) : Prop :=
  (forall id r, Tables.consents db !! id = Some r ->
     exists r', Tables.consents db' !! id = Some r' /\ Tables.cr_tenantId r' = Tables.cr_tenantId r) /\
  ((forall id r, Tables.consents db !! id = Some r -> Tables.cr_id r = id) ->
   forall id r, Tables.consents db' !! id = Some r -> Tables.cr_id r = id).

Lemma consent_same db db' : Tables.consents db' = Tables.consents db -> consent_step db db'.
Proof. intros H. split; rewrite H; eauto. Qed.

Lemma others_tables db w : consent_step (w_tables w) db -> others w (put_tables db w).
Proof. intros [H1 H2]. split; cbn; eauto. Qed.

(** ** What is permitted *)

Definition found (t id : string) (c : LoanCase) (w : World) : Prop :=
  exists c', w_cases w !! id = Some c' /\ identity c' = identity c /\ lc_tenantId c = t /\ lc_id c = id.

Definition owns (t id : string) (w : World) : Prop := exists c, found t id c w.

(** What the tenant may be shown: rows that are its own. *)
Definition consent_of (t : string) (w : World) (r : Tables.ConsentRecord) : Prop :=
  exists r', consents w !! Tables.cr_id r = Some r' /\ Tables.cr_tenantId r' = t.

Definition told (w : World) (t : string) (r : Response) : Prop :=
  match r with
  | Created k c => found t (lc_id c) c w /\ lc_idempotencyKey c = k
  | Found c => found t (lc_id c) c w
  | RunStarted r => exists id, sr_workflowId r = workflow_id id /\ owns t id w
  | RunStatus s => exists id, ws_workflowId s = workflow_id id /\ owns t id w
  | Operations items => Forall (fun i => ws_workflowId (wq_run i) = workflow_id (wq_caseId i) /\ owns t (wq_caseId i) w) items
  | ConsentRecorded r => consent_of t w r
  | ConsentHistory l => Forall (consent_of t w) l
  | ReviewAccepted | Escalated | Failed _ => True
  end.

(** The workflow a request to the server is about. *)
Definition target (q : TemporalRequest) : string :=
  match q with
  | StartWorkflow id _ _ | Describe id _ | SignalResolveCondition id _ | SignalResumeEvaluation id _
  | CancelRun id _ => id
  end.

(** A new run gets the identity of the case it is for. *)
Definition input_of (t id : string) (w : World) (q : TemporalRequest) : Prop :=
  match q with
  | StartWorkflow _ _ input => exists c, found t id c w /\ Workflow.wi_tenantId input = t /\
      Workflow.wi_caseId input = id /\ Workflow.wi_borrowerId input = lc_borrowerId c
  | _ => True
  end.

Definition permitted (w : World) (q : Request) : Prop :=
  match q with
  | Temporal t q => exists id, target q = workflow_id id /\ owns t id w /\ input_of t id w q
  | OfAgent _ => False
  | Respond t r => told w t r
  end.

Lemma found_stable t id c w w' : evolves w w' -> found t id c w -> found t id c w'.
Proof.
  intros [H _] (c' & Hc & E & Ht & Hi). destruct (H _ _ Hc) as (c1 & H1 & E1).
  exists c1. split_and!; [done|congruence|done..].
Qed.

Lemma owns_stable t id w w' : evolves w w' -> owns t id w -> owns t id w'.
Proof. intros He [c Hc]. exists c. by eapply found_stable. Qed.

Lemma consent_of_stable t r w w' : evolves w w' -> consent_of t w r -> consent_of t w' r.
Proof.
  intros [_ H] (r' & Hr & E). destruct (H _ _ Hr) as (r1 & H1 & E1). exists r1. split; [done|congruence].
Qed.

Lemma told_stable t r w w' : evolves w w' -> told w t r -> told w' t r.
Proof.
  intros He. destruct r; cbn; try done.
  - intros [? ?]. split; [by eapply found_stable|done].
  - by apply found_stable.
  - intros (id & ? & ?). exists id. split; [done|by eapply owns_stable].
  - intros (id & ? & ?). exists id. split; [done|by eapply owns_stable].
  - intros H. eapply Forall_impl; [exact H|]. intros i [? ?]. split; [done|by eapply owns_stable].
  - by apply consent_of_stable.
  - intros H. eapply Forall_impl; [exact H|]. intros x. by apply consent_of_stable.
Qed.

Lemma permission_stable w w' q : evolves w w' -> permitted w q -> permitted w' q.
Proof.
  intros He. destruct q as [t q| |t r]; cbn; [|done|by apply told_stable].
  intros (id & Ht & Ho & Hi). exists id. split_and!; [done|by eapply owns_stable|].
  destruct q; cbn in *; try done. destruct Hi as (c & ? & ?). exists c. split; [by eapply found_stable|done].
Qed.

(** ** Handlers *)

Notation relies := (Threads.relies (E := Failure) (R := Reply) Inv evolves permitted).

(** Nothing is promised about a failure. *)
Definition ok {A} (P : A -> World -> Prop) (r : result Failure A) (w : World) : Prop :=
  match r with Ok a => P a w | Err _ => True end.

Lemma relies_then {A B} (p : prog A) (f : A -> prog B) (P : A -> World -> Prop) (Φ : B -> World -> Prop) s :
  relies (ok P) p s -> (forall a w, P a w -> relies (ok Φ) (f a) w) -> relies (ok Φ) (p ≫= f) s.
Proof using. intros Hp Hf. apply relies_bind. eapply relies_mono; [|exact Hp]. intros [a|e] w; cbn; [apply Hf|done]. Qed.

Lemma relies_try {A} (p : prog A) (h : Failure -> prog A) (Φ : A -> World -> Prop) (J : World -> Prop) s :
  relies (fun r w => J w /\ ok Φ r w) p s -> (forall e w, J w -> relies (ok Φ) (h e) w) -> relies (ok Φ) (pcatch p h) s.
Proof using.
  intros Hp Hh. revert s Hp. induction p as [[a|e]|C m k IH|q k IH]; cbn; intros s Hp; [apply Hp|by apply Hh, Hp| |].
  - intros s' He HI. destruct (Hp s' He HI) as (? & ? & ?). auto.
  - intros s' He HI. destruct (Hp s' He HI). auto.
Qed.

Lemma relies_keeping {A} (J : World -> Prop) (p : prog A) (Φ : A -> World -> Prop) s :
  (forall w w', evolves w w' -> J w -> J w') -> J s -> relies (ok Φ) p s -> relies (ok (fun a w => J w /\ Φ a w)) p s.
Proof using.
  intros HJ Hs Hp. eapply relies_mono; [|by apply (relies_frame _ _ _ p (ok Φ) J)]. by intros [a|e] w [? ?].
Qed.

Lemma relies_read {A} (f : World -> A) (P : A -> World -> Prop) s :
  (forall w, evolves s w -> Inv w -> P (f w) w) -> relies (ok P) (atomically (gets f)) s.
Proof using. intros H w He HI. split_and!; [done..|]. by apply H. Qed.

Lemma relies_temporal t id q s :
  target q = workflow_id id -> owns t id s -> input_of t id s q ->
  relies (ok (fun _ w => owns t id w)) (temporal t q) s.
Proof using.
  intros Hq Ho Hi. apply relies_call. intros w He HI. split.
  - apply (permission_stable s); [done|]. by exists id.
  - intros r. cbn. by apply (owns_stable _ _ s).
Qed.

(** A case the tenant has. *)
Lemma relies_getCase t id s : relies (ok (fun c w => found t id c w)) (getCase t id) s.
Proof using.
  unfold getCase. eapply relies_then with (P := fun c w => forall c', c = Some c' -> found t id c' w).
  - apply relies_read. intros w _ HI c Hc. unfold Agent.find_case in Hc. apply Tables.visible_Some in Hc as [Hc Ht].
    exists c. split_and!; [done..|by apply (inv_id _ HI)].
  - intros [c|] w H; cbn; [by apply H|done].
Qed.

Lemma found_owns t id c w : found t id c w -> owns t id w.
Proof. by exists c. Qed.
#[local] Hint Resolve found_owns : core.

Lemma relies_status t id runId s : owns t id s ->
  relies (ok (fun st w => ws_workflowId st = workflow_id id /\ owns t id w)) (getWorkflowStatus t id runId) s.
Proof using.
  intros Ho. unfold getWorkflowStatus. eapply relies_then; [by apply relies_temporal|].
  intros [] w Hw; cbn; done.
Qed.

Lemma found_input t id c w run b : found t id c w ->
  input_of t id w (StartWorkflow (workflow_id id) b (workflow_input c run)).
Proof. intros H. exists c. pose proof H as (? & ? & ? & ? & ?). done. Qed.

Definition run_of (t : string) (id : string) (workflowId : string) (w : World) : Prop :=
  workflowId = workflow_id id /\ owns t id w.

Lemma relies_start t id c s : found t id c s ->
  relies (ok (fun r w => run_of t id (sr_workflowId r) w)) (startCaseConditionsWorkflow (workflow_input c None)) s.
Proof using.
  intros Hc. pose proof (found_input t id c s None false Hc) as Hi. pose proof Hc as (c' & _ & _ & <- & <-).
  unfold startCaseConditionsWorkflow. cbn [workflow_input Workflow.wi_tenantId Workflow.wi_caseId].
  eapply relies_then; [apply (relies_temporal _ (lc_id c)); eauto; done|].
  intros [] w Hw; cbn -[getWorkflowStatus]; try done.
  eapply relies_then; [by apply relies_status|]. intros st w' [Hst Ho]. cbn. done.
Qed.

Lemma relies_recover t id c run s : found t id c s ->
  relies (ok (fun r w => run_of t id (sr_workflowId r) w)) (recoverCaseConditionsWorkflow (workflow_input c run)) s.
Proof using.
  intros Hc. pose proof (found_input t id c s run true Hc) as Hi. pose proof Hc as (c' & _ & _ & <- & <-).
  unfold recoverCaseConditionsWorkflow. cbn [workflow_input Workflow.wi_tenantId Workflow.wi_caseId].
  eapply relies_then; [apply (relies_temporal _ (lc_id c)); eauto; done|].
  intros [] w Hw; cbn; done.
Qed.

Lemma relies_signal t id q s : target q = workflow_id id -> input_of t id s q -> owns t id s ->
  relies (ok (fun _ w => owns t id w)) (signal t q) s.
Proof using.
  intros Hq Hi Ho. eapply relies_then; [by apply (relies_temporal t id)|]. intros [] w Hw; cbn; done.
Qed.

Lemma relies_getWorkflowRun t id runId s :
  relies (ok (fun st w => run_of t id (ws_workflowId st) w)) (getWorkflowRun t id runId) s.
Proof using.
  unfold getWorkflowRun. eapply relies_then; [apply relies_getCase|]. intros c w Hc.
  apply relies_try with (J := fun _ => True); [|by intros [] ? ?].
  apply relies_frame; [done|done|]. apply relies_status. eauto.
Qed.

Lemma relies_startWorkflow t id s :
  relies (ok (fun r w => run_of t id (sr_workflowId r) w)) (startWorkflow t id) s.
Proof using. eapply relies_then; [apply relies_getCase|]. intros c w. apply relies_start. Qed.

Lemma relies_cancelWorkflow t id runId s :
  relies (ok (fun st w => run_of t id (ws_workflowId st) w)) (cancelWorkflow t id runId) s.
Proof using.
  eapply relies_then; [apply relies_getCase|]. intros c w Hc.
  eapply relies_then; [apply relies_getWorkflowRun|]. intros st w1 [Hst Ho].
  destruct (negb _); [done|]. eapply relies_then; [by apply (relies_signal t id)|]. done.
Qed.

Lemma relies_recoverWorkflow t id runId s :
  relies (ok (fun r w => run_of t id (sr_workflowId r) w)) (recoverWorkflow t id runId) s.
Proof using.
  eapply relies_then; [apply relies_getCase|]. intros c w Hc. destruct (_ || _); [done|].
  eapply relies_then.
  { apply (relies_keeping (found t id c)); [intros ? ?; apply found_stable|done|apply relies_getWorkflowRun]. }
  intros st w1 [Hc1 _]. destruct (negb _); [done|]. eapply relies_then.
  { apply (relies_keeping (found t id c)); [intros ? ?; apply found_stable|done|apply (relies_status t id); eauto]. }
  intros st' w2 [Hc2 _]. destruct (negb _); [done|]. by apply relies_recover.
Qed.

Lemma relies_submitReview t id dto s : relies (ok (fun _ _ => True)) (submitReview t id dto) s.
Proof using.
  eapply relies_then; [apply relies_getCase|]. intros c w Hc.
  apply relies_try with (J := fun _ => True); [|by intros [] ? ?]. apply relies_frame; [done|done|].
  destruct dto; (eapply relies_mono; [|apply (relies_signal t id); eauto; done]); by intros [a|e].
Qed.

(** *** The operations queue *)

Definition item_of (t : string) (w : World) (i : WorkflowOperationQueueItem) : Prop :=
  run_of t (wq_caseId i) (ws_workflowId (wq_run i)) w.

Lemma item_of_stable t w w' i : evolves w w' -> item_of t w i -> item_of t w' i.
Proof. intros He [? ?]. split; [done|by eapply owns_stable]. Qed.

Lemma relies_describe t c s : owns t (lc_id c) s ->
  relies (ok (fun i w => forall x, i = Some x -> item_of t w x)) (describe_operation t c) s.
Proof using.
  intros Ho. apply relies_try with (J := fun _ => True); [|by intros [] ? ?]. apply relies_frame; [done|done|].
  eapply relies_then; [by apply relies_status|]. intros st w [Hst Hw]. cbn.
  destruct (_ && _); [done|]. intros x [= <-]. by split.
Qed.

Lemma relies_describe_all t cs s : Forall (fun c => owns t (lc_id c) s) cs ->
  relies (ok (fun l w => Forall (item_of t w) l)) (describe_all t cs) s.
Proof using.
  revert s. induction cs as [|c cs IH]; intros s Hcs; [by cbn|]. apply Forall_cons in Hcs as [Hc Hcs]. cbn [describe_all].
  eapply relies_then with (P := fun r w => (forall x, r = Ok (Some x) -> item_of t w x) /\ Forall (fun c => owns t (lc_id c) w) cs).
  - apply relies_try with (J := fun w => Forall (fun c => owns t (lc_id c) w) cs); [|by cbn].
    eapply relies_mono; [|apply (relies_frame _ _ _ _ (ok (fun r w => forall x, r = Ok (Some x) -> item_of t w x))
        (fun w => Forall (fun c => owns t (lc_id c) w) cs)); [|exact Hcs|]].
    + intros [r|e] w [H1 H2]; split; done.
    + intros w w' He H. eapply Forall_impl; [exact H|]. intros x. by apply owns_stable.
    + eapply relies_then; [by apply relies_describe|]. intros i w Hi. cbn. intros x [= ->]. by apply Hi.
  - intros item w [Hi Hw].
    eapply relies_then with (P := fun l w => (forall x, item = Ok (Some x) -> item_of t w x) /\ Forall (item_of t w) l).
    + apply (relies_keeping (fun w => forall x, item = Ok (Some x) -> item_of t w x)); [|exact Hi|by apply IH].
      intros w1 w2 He H x Hx. eapply item_of_stable; [exact He|by apply H].
    + intros l w' [H1 H2]. destruct item as [[x|]|e]; cbn; [|done|done]. constructor; [by apply H1|done].
Qed.

Lemma recent_cases_own t w c : Inv w -> c ∈ recent_cases t w -> found t (lc_id c) c w.
Proof.
  intros HI Hc. eapply elem_of_submseteq in Hc; [|apply sublist_submseteq, sublist_take].
  apply elem_order_by, elem_find_rows in Hc as [Ht [k Hk]].
  apply String.eqb_eq in Ht. pose proof (inv_id _ HI _ _ Hk) as Hi. rewrite Hi. exists c. split_and!; done.
Qed.

Lemma relies_operations t s : relies (ok (fun l w => Forall (item_of t w) l)) (listWorkflowOperations t) s.
Proof using.
  eapply relies_then with (P := fun cs w => Forall (fun c => owns t (lc_id c) w) cs).
  - apply relies_read. intros w _ HI. apply Forall_forall. intros c Hc. eapply found_owns, recent_cases_own; done.
  - intros cs w. apply relies_describe_all.
Qed.

(** *** Consent *)

Lemma relies_stmt {A} (m : M World Failure A) (Φ : A -> World -> Prop) s :
  (forall w, fair w (m w).2) -> (forall w, evolves s w -> Inv w -> ok Φ (m w).1 (m w).2) -> relies (ok Φ) (atomically m) s.
Proof using.
  intros Hm HΦ w He HI. destruct (fair_harmless _ _ (Hm w) HI). split_and!; [done..|]. by apply HΦ.
Qed.

Lemma relies_new_id s : relies (ok (fun _ _ => True)) (atomically (on_agent (Agent.new_id fresh))) s.
Proof using.
  apply relies_stmt; [|by intros w _ _; cbn]. intros w. rewrite on_agent_state. apply fair_others, others_supply.
Qed.

(** A statement of the consent service. *)
Lemma relies_consent_stmt {A} (m : M Tables.Db Tables.Failure A) (k : result Tables.Failure A -> Prog Tables.Db Tables.Failure Empty_set unit Tables.ConsentRecord)
    (Φ : Tables.ConsentRecord -> World -> Prop) s :
  (forall db, consent_step db (m db).2) ->
  (forall w, evolves s w -> Inv w -> relies (ok Φ) (on_consent (k (m (w_tables w)).1)) (put_tables (m (w_tables w)).2 w)) ->
  relies (ok Φ) (on_consent (Db m k)) s.
Proof using.
  intros Hm Hk w He HI. cbn. specialize (Hk w He HI). destruct (m (w_tables w)) as [r db] eqn:Em. cbn in *.
  destruct (others_harmless w (put_tables db w)) as [H1 H2]; [|done|by split_and!].
  apply others_tables. specialize (Hm (w_tables w)). by rewrite Em in Hm.
Qed.

Lemma consent_saved id row db : Tables.cr_id row = id ->
  consent_step db (Tables.save_new Tables.consents Tables.with_consents id row db).2.
Proof.
  intros Hr. destruct (Tables.save_new _ _ _ _ db) as [[r|e] db'] eqn:E.
  - apply Tables.save_new_Ok in E as (Hn & -> & ->). cbn. split; cbn.
    + intros k r Hk. exists r. split; [|done]. rewrite lookup_insert_ne; [done|]. congruence.
    + intros Hi k r. destruct (decide (k = id)) as [->|Hne]; [rewrite lookup_insert_eq; congruence|].
      rewrite lookup_insert_ne by done. apply Hi.
  - apply Tables.save_new_Err in E as [_ ->]. by apply consent_same.
Qed.

Lemma relies_grantForCase t c s :
  relies (ok (fun r w => consent_of t w r)) (grantForCase fresh t c) s.
Proof using.
  eapply relies_then; [apply relies_new_id|]. intros id w _. apply relies_consent_stmt.
  - intros db. unfold mbind, M_bind, gets. by apply consent_saved.
  - intros w1 _ _. unfold mbind, M_bind, gets. cbn -[Tables.save_new].
    destruct (Tables.save_new _ _ _ _ (w_tables w1)) as [[r|e] db'] eqn:E; cbn; [|done].
    apply Tables.save_new_Ok in E as (Hn & -> & ->). eexists. split; [by apply lookup_insert_eq|done].
Qed.

Lemma consent_of_own t w k r :
  Inv w -> consents w !! k = Some r -> Tables.cr_tenantId r = t -> consent_of t w r.
Proof. intros HI Hk Ht. exists r. by rewrite (inv_consent _ HI _ _ Hk). Qed.

Lemma revoked_step id t c reason key es ints db :
  consent_step db (Consent.revoke_commit id t c reason key es ints db).2.
Proof.
  unfold Consent.revoke_commit, transaction, mbind, M_bind, gets, modify.
  destruct (Tables.save_new _ _ _ _ _) as [[x|e] db'] eqn:E; [|by apply consent_same].
  apply Tables.save_new_Ok in E as (_ & _ & ->). cbn.
  destruct (alter _ _ _ !! key); cbn; [|by apply consent_same]. split; cbn.
  - intros k x1 Hk. destruct (decide (k = key)) as [->|Hne].
    + rewrite lookup_alter_eq, Hk. by eexists.
    + rewrite lookup_alter_ne by done. by exists x1.
  - intros Hi k x1. destruct (decide (k = key)) as [->|Hne]; [|by rewrite lookup_alter_ne; auto].
    rewrite lookup_alter_eq. destruct (Tables.consents db !! key) as [y|] eqn:Ey; [|done]. intros [= <-]. by apply (Hi _ _ Ey).
Qed.

Lemma revoked_row id t c reason key es ints db r db' :
  Consent.revoke_commit id t c reason key es ints db = (Ok r, db') ->
  Tables.consents db' !! key = Some r /\ exists r0, Tables.consents db !! key = Some r0 /\
    Tables.cr_id r = Tables.cr_id r0 /\ Tables.cr_tenantId r = Tables.cr_tenantId r0.
Proof.
  unfold Consent.revoke_commit, transaction, mbind, M_bind, gets, modify.
  destruct (Tables.save_new _ _ _ _ _) as [[x|e] db1] eqn:E; [|done].
  apply Tables.save_new_Ok in E as (_ & _ & ->). cbn. rewrite lookup_alter_eq.
  destruct (Tables.consents db !! key) as [r0|] eqn:E0; cbn; [|done]. intros [= <- <-]. cbn.
  rewrite lookup_alter_eq, E0. split; [done|]. by exists r0.
Qed.

Lemma relies_revoke t c id reason s :
  relies (ok (fun r w => consent_of t w r)) (on_consent (Consent.revoke id t c reason)) s.
Proof using.
  apply relies_consent_stmt; [by intros db; apply consent_same|]. intros w _ HI. cbn [gets fst snd pbind].
  destruct (Tables.newest _ _) as [active|] eqn:Ha; [|done].
  apply Tables.newest_Some in Ha as [Ha _]. apply elem_find_rows in Ha as [Ht [key Hk]].
  apply andb_true_iff in Ht as [Ht _]. apply andb_true_iff in Ht as [Ht _]. apply String.eqb_eq in Ht.
  assert (consent_of t (put_tables (w_tables w) w) active) as Hown by (by eapply (consent_of_own _ w)).
  apply relies_consent_stmt; [by intros db; apply consent_same|]. intros w1 He1 _. cbn [gets fst snd].
  apply (consent_of_stable _ _ _ _ He1) in Hown.
  apply relies_consent_stmt; [by intros db; apply consent_same|]. intros w2 He2 _. cbn [gets fst snd].
  change (consent_of t (put_tables (w_tables w1) w1) active) in Hown. apply (consent_of_stable _ _ _ _ He2) in Hown.
  apply relies_consent_stmt; [intros db; apply revoked_step|]. intros w3 He3 HI3.
  change (consent_of t (put_tables (w_tables w2) w2) active) in Hown. apply (consent_of_stable _ _ _ _ He3) in Hown.
  destruct (Consent.revoke_commit _ _ _ _ _ _ _ (w_tables w3)) as [[r|e] db'] eqn:E; [|done]. cbn.
  apply revoked_row in E as (Hr & r0 & Hr0 & Hi & Hten). destruct Hown as (r1 & Hr1 & <-).
  unfold consents in Hr1. rewrite Hr0 in Hr1. injection Hr1 as <-. exists r. split; [|done].
  unfold consents. cbn. pose proof (inv_consent _ HI3 _ _ Hr0) as Hid. by rewrite Hi, Hid.
Qed.

Lemma relies_consent t id dto s :
  relies (ok (fun r w => consent_of t w r)) (submitConsentAction fresh t id dto) s.
Proof using.
  eapply relies_then; [apply relies_getCase|]. intros c w _. destruct dto; [|apply relies_grantForCase].
  eapply relies_then; [apply relies_new_id|]. intros i w1 _. apply relies_revoke.
Qed.

Lemma relies_listConsents t id s : relies (ok (fun l w => Forall (consent_of t w) l)) (listConsents t id) s.
Proof using.
  eapply relies_then; [apply relies_getCase|]. intros c w _. apply relies_read. intros w1 _ HI.
  apply Forall_forall. intros r Hr. apply elem_order_by, elem_find_rows in Hr as [Ht [k Hk]].
  apply andb_true_iff in Ht as [Ht _]. apply String.eqb_eq in Ht. by eapply consent_of_own.
Qed.

(** *** Escalation *)

Notation every_fair := (every (E := Failure) (R := Reply) fair (fun _ : Request => False)).

Lemma fair_refl w : fair w w.
Proof. by apply fair_others. Qed.
#[local] Hint Resolve fair_refl : core.

Lemma every_of_agent {A} (p : Prog World Agent.Failure Agent.Request Agent.Reply A) :
  every fair (fun _ => False) p -> every_fair (of_agent p).
Proof. apply every_embedded; [|done]. intros st w. done. Qed.

Lemma escalate_fair context reason v :
  every fair (fun _ => False) (Tools.escalate fresh hmac json outboxSigningSecret context reason v).
Proof using fresh_inj.
  unfold Tools.escalate. apply every_bind.
  - apply every_atomically. intros w. apply fair_transaction, fair_bind; [apply fair_others, others_update_case|].
    intros n _. apply fair_bind; [|by intros].
    destruct (bool_decide _); [done|]. by apply fair_event.
  - intros n. destruct (bool_decide _); [|done]. apply every_bind; [by apply every_atomically|].
    intros [c|]; [|done]. by destruct (negb _).
Qed.

Lemma relies_escalateCase t id reason s :
  relies (ok (fun _ _ => True)) (escalateCase message_of fresh hmac json outboxSigningSecret t id reason) s.
Proof using fresh_inj.
  eapply relies_then; [apply relies_getCase|]. intros c w _.
  eapply relies_then with (P := fun registry _ => registry = {["escalate_to_reviewer" := Tools.escalateToReviewerTool fresh hmac json outboxSigningSecret]}).
  { cbn. done. }
  intros registry w1 ->. eapply relies_then with (P := fun _ _ => True).
  - eapply relies_mono; [|apply (relies_every Inv evolves permitted fair (fun _ => False) (fun _ => True)); [done|done|apply fair_harmless| |done]].
    + by intros [a|e].
    + apply every_of_agent. unfold Tools.invokeTool.
      destruct (_ !! _) as [tool|] eqn:Etool; [|done]. apply (inj Some) in Etool as <-. cbn [Tools.tl_execute Tools.escalateToReviewerTool].
      apply every_catch; [|done]. apply every_bind; [|done]. apply every_bind; [|done]. apply escalate_fair.
  - intros inv w2 _. destruct (Tools.tv_outcome inv); [|done]. by destruct (Tools.tv_result inv) as [[]|]; try destruct r.
Qed.

(** *** Creation *)

Notation insert_case := (insert_case fresh hmac json outboxSigningSecret numeric_14_2).

(** The transaction fails and changes nothing, or adds the case and its event. *)
Inductive inserted (k t : string) (dto : CreateCaseDto) (w : World) : result Failure LoanCase * World -> Prop :=
| not_inserted e : inserted k t dto w (Err e, w)
| inserted_row c w' :
    lc_id c = fresh (w_supply w) -> lc_tenantId c = t -> lc_idempotencyKey c = k ->
    case_with_key t k w = None ->
    w_cases w' = <[lc_id c := c]> (w_cases w) ->
    outbox w' = <[fresh (S (w_supply w)) := Outbox.outbox_row hmac json outboxSigningSecret (fresh (S (w_supply w)))
      (Agent.w_dbclock w) t (lc_id c) Outbox.LoanCaseCreated (created_payload (lc_id c) dto)]> (outbox w) ->
    w_supply w' = S (S (w_supply w)) -> w_tables w' = w_tables w ->
    inserted k t dto w (Ok c, w').

Lemma insert_case_inserts k t dto w : inserted k t dto w (insert_case k t dto w).
Proof using.
  unfold Cases.insert_case, transaction, mbind, M_bind, on_agent, zoom, Agent.new_id, gets, guard_throw, modify. cbn.
  destruct (numeric_14_2 (dto_requestedAmount dto)) as [a|]; cbn; [|constructor].
  destruct (numeric_14_2 (dto_statedMonthlyIncome dto)) as [i|]; cbn; [|constructor].
  destruct (bool_decide (is_Some (w_cases w !! _))); cbn; [constructor|].
  destruct (bool_decide_reflect (is_Some (case_with_key t k (put_supply (S (w_supply w)) w)))) as [?|Hn]; cbn; [constructor|].
  constructor; try done. by apply eq_None_not_Some.
Qed.

Lemma case_with_key_spec t k w c : case_with_key t k w = Some c ->
  lc_tenantId c = t /\ lc_idempotencyKey c = k /\ exists id, w_cases w !! id = Some c.
Proof.
  intros [Hk Hc]%find_row_Some. apply andb_true_iff in Hk as [Ht Hk]. apply String.eqb_eq in Ht, Hk. done.
Qed.

Lemma no_case_with_key t k w id c : case_with_key t k w = None -> w_cases w !! id = Some c ->
  lc_tenantId c = t -> lc_idempotencyKey c = k -> False.
Proof.
  intros Hn Hc <- <-. pose proof (find_row_None _ _ _ _ Hn Hc) as H. unfold has_key in H. by rewrite !String.eqb_refl in H.
Qed.

Lemma inserted_sound k t dto w r w' : inserted k t dto w (r, w') -> Inv w -> Inv w' /\ evolves w w'.
Proof using fresh_inj.
  inversion 1 as [e|c x Hid Ht Hk Hn Hcs Ho Hsup Htab]; subst; [done|]. intros [Hf Hi Hu Hc Horph Hcons].
  destruct (Hf (w_supply w) (le_n _)) as [Hnone _]. rewrite <- Hid in Hnone.
  destruct (Hf (S (w_supply w)) ltac:(lia)) as [_ Honone].
  assert (forall id key e, creation w' id key e <-> creation w id key e \/
    id = lc_id c /\ key = fresh (S (w_supply w)) /\ outbox w' !! key = Some e) as Hcr.
  { intros id key e. unfold creation. rewrite Ho. destruct (decide (key = fresh (S (w_supply w)))) as [->|Hne].
    - rewrite lookup_insert_eq, Honone. split.
      + intros ([= <-] & _ & He). right. by cbn in He.
      + intros [(? & _)|(-> & _ & [= <-])]; done.
    - rewrite lookup_insert_ne by done. split; [by left|]. intros [?|(_ & ? & _)]; done. }
  split; [split|split].
  - intros n Hl. destruct (Hf n ltac:(lia)) as [H1 H2]. rewrite Hcs, Ho.
    rewrite !lookup_insert_ne; [done| |]; rewrite ?Hid; intros He%(inj fresh); lia.
  - intros id c' Hl. rewrite Hcs in Hl. apply lookup_insert_Some in Hl as [[<- <-]|[_ Hl]]; [done|by apply Hi].
  - intros id id' c1 c2 H1 H2 Hteq Hkeq. rewrite Hcs in H1, H2.
    apply lookup_insert_Some in H1 as [[<- <-]|[_ H1]], H2 as [[<- <-]|[_ H2]]; [done| | |by eapply Hu].
    + by destruct (no_case_with_key _ _ _ _ _ Hn H2).
    + by destruct (no_case_with_key _ _ _ _ _ Hn H1).
  - intros id c' Hl. rewrite Hcs in Hl. apply lookup_insert_Some in Hl as [[<- <-]|[Hne Hl]].
    + exists (fresh (S (w_supply w))). eexists. split_and!.
      * apply Hcr. right. split_and!; [done..|]. rewrite Ho. apply lookup_insert_eq.
      * done.
      * intros key e [Hold|(_ & ? & _)]%Hcr; [|done]. apply Horph in Hold as [? ?]. congruence.
    + destruct (Hc id c' Hl) as (key & e & C1 & C2 & C3). exists key, e. split_and!; [apply Hcr; by left|done|].
      intros key' e' [Hold|(? & _)]%Hcr; [by apply (C3 key' e')|done].
  - intros id key e [Hold|(-> & _)]%Hcr; rewrite Hcs; [|by rewrite lookup_insert_eq].
    apply Horph in Hold as [c' Hc']. destruct (decide (id = lc_id c)) as [->|Hne]; [by rewrite lookup_insert_eq|].
    by rewrite lookup_insert_ne, Hc'.
  - unfold consents. by rewrite Htab.
  - intros id c' Hl. exists c'. split; [|done]. rewrite Hcs, lookup_insert_ne; [done|]. intros <-. congruence.
  - intros id rec. unfold consents. rewrite Htab. eauto.
Qed.

Lemma relies_insert k t dto s :
  relies (ok (fun c w => found t (lc_id c) c w /\ lc_idempotencyKey c = k)) (atomically (insert_case k t dto)) s.
Proof using fresh_inj.
  intros w He HI. pose proof (insert_case_inserts k t dto w) as Hins. destruct (insert_case k t dto w) as [r w'].
  destruct (inserted_sound _ _ _ _ _ _ Hins HI). split_and!; [done..|]. cbn.
  inversion Hins as [e|c x Hid Ht Hk Hn Hcs]; subst; [done|]. cbn. split; [|done]. exists c. split_and!; try done.
  rewrite Hcs. apply lookup_insert_eq.
Qed.

Lemma relies_with_key t k s : relies (ok (fun o w => forall c, o = Some c ->
  found t (lc_id c) c w /\ lc_idempotencyKey c = k)) (atomically (gets (case_with_key t k))) s.
Proof using.
  apply relies_read. intros w _ HI c (Ht & Hk & id & Hc)%case_with_key_spec. split; [|done].
  pose proof (inv_id _ HI _ _ Hc) as <-. by exists c.
Qed.

Lemma relies_createCase k t dto s :
  relies (ok (fun c w => found t (lc_id c) c w /\ lc_idempotencyKey c = k))
    (createCase fresh hmac json outboxSigningSecret numeric_14_2 k t dto) s.
Proof using fresh_inj.
  unfold createCase. eapply relies_then; [by apply relies_read with (P := fun _ _ => True)|]. intros [x|] w1 _; [|done].
  eapply relies_then; [by apply relies_read with (P := fun _ _ => True)|]. intros [j|] w2 _; [|done].
  eapply relies_then; [apply relies_with_key|]. intros [c|] w3 H3; [by apply H3|].
  apply relies_try with (J := fun _ => True).
  - apply relies_frame; [done|done|]. eapply relies_then; [apply relies_insert|]. intros c w4 H4. cbv beta in H4.
    eapply relies_then.
    + apply (relies_keeping (fun w => found t (lc_id c) c w /\ lc_idempotencyKey c = k)); [|exact H4|apply relies_grantForCase].
      intros ? ? ? [? ?]. split; [by eapply found_stable|done].
    + by intros r w5 [? _].
  - intros e w4 _. destruct (isUniqueViolation e); [|done]. eapply relies_then; [apply relies_with_key|].
    intros [c|] w5 H5; [by apply H5|done].
Qed.

(** *** Every endpoint *)

Lemma serve_told op s : relies (ok (fun r w => told w (op_tenant op) r)) (serve op) s.
Proof using fresh_inj.
  destruct op; cbn [Cases.serve op_tenant].
  - eapply relies_then; [apply relies_createCase|]. intros c w [? ?]. done.
  - eapply relies_then; [apply relies_getCase|]. intros c w Hc. cbn. pose proof Hc as (? & _ & _ & _ & Hi). by rewrite Hi.
  - eapply relies_then; [apply relies_startWorkflow|]. intros r w [? ?]. cbn. eauto.
  - eapply relies_then; [apply relies_getWorkflowRun|]. intros r w [? ?]. cbn. eauto.
  - eapply relies_then; [apply relies_operations|]. intros l w Hl. done.
  - eapply relies_then; [apply relies_cancelWorkflow|]. intros r w [? ?]. cbn. eauto.
  - eapply relies_then; [apply relies_recoverWorkflow|]. intros r w [? ?]. cbn. eauto.
  - eapply relies_then; [apply relies_submitReview|]. done.
  - eapply relies_then; [apply relies_consent|]. done.
  - eapply relies_then; [apply relies_listConsents|]. done.
  - eapply relies_then; [apply relies_escalateCase|]. done.
Qed.

Lemma endpoints_rely op s : relies (fun _ _ => True) (handler op) s.
Proof using fresh_inj.
  eapply relies_mono with (Φ := ok (fun _ _ => True)); [done|].
  eapply relies_then with (P := fun r w => told w (op_tenant op) r).
  - apply relies_try with (J := fun _ => True); [|done]. apply relies_frame; [done|done|]. apply serve_told.
  - intros r w Hr. apply relies_call. intros w' He HI. split; [by eapply told_stable|done].
Qed.

Notation reachable := (Threads.reachable (R := Reply) handler others).

Lemma cases_sound s0 w : Inv s0 -> reachable s0 w -> Inv (db w) /\ forall q, q ∈ calls w -> permitted (db w) q.
Proof using fresh_inj.
  intros H0 Hr. eapply (relies_sound Inv evolves permitted) in Hr as [HI Hc].
  - split; [done|]. by apply Forall_forall.
  - apply permission_stable.
  - apply endpoints_rely.
  - intros s s'. apply others_harmless.
  - done.
Qed.

(** C32: In every interleaving of the endpoints, with crashes and with whatever the
    other parts of the program do to the tables, a tenant is told about its
    own rows only, and the Temporal server is asked for it about the workflows
    of its own cases only; a new run gets the identity of its case. *)
Theorem cases_are_tenant_isolated s0 w :
  Inv s0 -> reachable s0 w ->
  (forall t r, Respond t r ∈ calls w -> told (db w) t r) /\
  forall t q, Temporal t q ∈ calls w -> exists id c,
    target q = workflow_id id /\ w_cases (db w) !! id = Some c /\ lc_tenantId c = t /\
    forall wf again input, q = StartWorkflow wf again input ->
      Workflow.wi_tenantId input = t /\ Workflow.wi_caseId input = id /\ Workflow.wi_borrowerId input = lc_borrowerId c.
Proof using fresh_inj.
  intros H0 Hr. destruct (cases_sound _ _ H0 Hr) as [_ Hp]. split; [intros t r Hc; apply (Hp _ Hc)|].
  intros t q Hc. destruct (Hp _ Hc) as (id & Ht & (c & c' & Hc' & He & Hten & Hid) & Hi).
  exists id, c'. pose proof (identity_parts _ _ He) as (_ & Ht' & _). split_and!; [done..|congruence|].
  intros wf b input ->. destruct Hi as (c1 & (c2 & Hc2 & He2 & _) & Ha & Hb & Hbor).
  rewrite Hc' in Hc2. injection Hc2 as <-. split_and!; [done..|]. rewrite Hbor.
  by destruct (identity_parts _ _ He2) as (_ & _ & _ & ->).
Qed.

(** Whatever creations with one key are reported to a tenant, in whatever
    interleaving and after whatever crashes, they report one case: its row is
    there, it is the only one with the key, and its creation was announced by
    exactly one event, written with it. *)
Theorem case_creation_is_idempotent s0 w t k c :
  Inv s0 -> reachable s0 w -> Respond t (Created k c) ∈ calls w ->
  exists row, w_cases (db w) !! lc_id c = Some row /\ identity row = identity c /\
    lc_tenantId row = t /\ lc_idempotencyKey row = k /\
    (forall c', Respond t (Created k c') ∈ calls w -> identity c' = identity c) /\
    (forall id row', w_cases (db w) !! id = Some row' -> lc_tenantId row' = t -> lc_idempotencyKey row' = k -> id = lc_id c) /\
    exists key e, creation (db w) (lc_id c) key e /\ oe_tenantId e = t /\
      forall key' e', creation (db w) (lc_id c) key' e' -> key' = key.
Proof using fresh_inj.
  intros H0 Hr Hc. destruct (cases_sound _ _ H0 Hr) as [HI Hp].
  destruct (Hp _ Hc) as [(row & Hrow & He & Ht & Hid) Hk].
  pose proof (identity_parts _ _ He) as (_ & Ht' & Hk' & _).
  assert (forall id row', w_cases (db w) !! id = Some row' -> lc_tenantId row' = t -> lc_idempotencyKey row' = k -> id = lc_id c) as Hu.
  { intros id row' Hrow' Ht1 Hk1. eapply (inv_key _ HI); [exact Hrow'|exact Hrow|congruence..]. }
  exists row. split_and!; [done|done|congruence|congruence| |done|].
  - intros c' Hc'. destruct (Hp _ Hc') as [(row' & Hrow' & He' & Hten' & _) Hkey'].
    pose proof (identity_parts _ _ He') as (_ & Ht1 & Hk1 & _).
    assert (lc_id c' = lc_id c) as Heq by (eapply Hu; [exact Hrow'|congruence..]). rewrite Heq in Hrow'. congruence.
  - destruct (inv_created _ HI _ _ Hrow) as (key & e & C1 & C2 & C3). exists key, e. split_and!; [done|congruence|done].
Qed.

(** ** Two divergences *)

Lemma exec_getCase answer t id w c : Agent.find_case t id w = Some c ->
  exec answer (getCase t id) w = (Ok c, w, []).
Proof. intros H. unfold getCase. rewrite exec_read, H. done. Qed.

(** A run can be started for a case that is ready for underwriting, which a
    recovery refuses, and its first activity takes the case back to the
    collection of evidence. *)
Theorem ready_case_is_restarted answer t id w c runId oldRun :
  Agent.find_case t id w = Some c -> lc_id c = id -> Agent.lc_status c = Agent.READY_FOR_UNDERWRITING ->
  (forall t q, answer (Temporal t q) = TemporalSaid (Started runId)) ->
  exec answer (startWorkflow t id) w =
    (Ok {| sr_workflowId := workflow_id id; sr_runId := runId |}, w,
     [Temporal t (StartWorkflow (workflow_id id) false (workflow_input c None))]) /\
  exec answer (recoverWorkflow t id oldRun) w = (Err (Conflict ("Case " +:+ id +:+ " cannot be recovered")), w, []) /\
  let w' := (exec (fun _ => Agent.HandedOver) (Activities.markCollectingEvidence fresh hmac json outboxSigningSecret t id) w).1.2 in
  exists c', Agent.find_case t id w' = Some c' /\ Agent.lc_status c' = Agent.COLLECTING_EVIDENCE.
Proof using.
  intros Hc Hid Hs Ha. assert (lc_tenantId c = t) as Ht.
  { unfold Agent.find_case in Hc. by apply Tables.visible_Some in Hc as [_ ?]. }
  split_and!.
  - unfold startWorkflow. rewrite (exec_then _ _ _ _ c w) by (by apply exec_getCase).
    unfold startCaseConditionsWorkflow. cbn. rewrite Ha. cbn. by rewrite Ht, Hid.
  - unfold recoverWorkflow. rewrite (exec_then _ _ _ _ c w) by (by apply exec_getCase). by rewrite Hs.
  - intros w'. subst w'. unfold Activities.markCollectingEvidence, Activities.in_tenant. rewrite exec_atomically.
    unfold Activities.mark_case, transaction, Agent.update_case, mbind, M_bind, gets. cbn -[Agent.find_case]. rewrite Hc.
    exists (Agent.set_case_status Agent.COLLECTING_EVIDENCE (Agent.w_dbclock w) c). split; [|done].
    apply Tables.visible_Some. split; [|done]. cbn. apply lookup_insert_eq.
Qed.
End Guarantees.

(** ** Executions *)

#[local] Instance fresh0_inj : Inj (=) (=) AgentExamples.fresh0.
Proof. intros n m H. unfold AgentExamples.fresh0 in H. apply (inj (String.append "id")) in H. by apply (inj pretty) in H. Qed.

Definition empty_world : World :=
  put_cases ∅ (put_tables (Tables.empty_db 1000)
    (Agent.put_budget (BudgetTheorems.initial {["t" := WorkflowTheorems.tenant0]}) AgentExamples.world0)).
Definition dto0 : CreateCaseDto :=
  {| dto_borrowerId := "b"; dto_requestedAmount := Dsl.f64_of_Z 300000; dto_loanType := Activation.CONVENTIONAL;
     dto_statedMonthlyIncome := Dsl.f64_of_Z 8000; dto_jurisdictionCode := "US-CA" |}.
Definition handler0 (op : Op) : prog unit :=
  Cases.handler (fun _ => "error") AgentExamples.fresh0 (fun k s => k) (fun _ => "json") "secret" (fun _ => Some "1.00") op.
Definition start0 : world (S := World) (E := Failure) (Q := Request) (R := Reply) :=
  {| db := empty_world; calls := []; threads := [] |}.

Lemma empty_world_inv : Inv AgentExamples.fresh0 empty_world.
Proof.
  split; unfold creation, outbox, consents.
  - intros n _. split; apply lookup_empty.
  - by intros id c.
  - by intros id id' c c'.
  - by intros id c.
  - by intros id key e [? _].
  - by intros id r.
Qed.

Lemma played_reachable es w : play_all handler0 es start0 = Some w ->
  Threads.reachable handler0 (others AgentExamples.fresh0) empty_world w.
Proof. intros H. by apply (play_all_steps handler0 (others AgentExamples.fresh0)) in H. Qed.

(** Two creations with one key: both look before either writes. *)
Definition creation_race : list (event (R := Reply) (Op := Op)) :=
  [Spawn (OpCreate "t" "k" dto0); Spawn (OpCreate "t" "k" dto0)] ++
  mjoin (repeat [Statement 0; Statement 1] 4) ++
  [Statement 1; Statement 0; Statement 0; Answer 0 NothingSaid; Answer 1 NothingSaid].

Lemma case_creation_is_idempotent_witness :
  exists w c1 c2 row, play_all handler0 creation_race start0 = Some w /\
    calls w = [Respond "t" (Created "k" c1); Respond "t" (Created "k" c2)] /\
    w_cases (db w) !! lc_id c1 = Some row /\ identity row = identity c1 /\ identity c2 = identity c1.
Proof.
  destruct (play_all handler0 creation_race start0) as [w|] eqn:E; [|vm_compute in E; discriminate E].
  assert (exists c1 c2, calls w = [Respond "t" (Created "k" c1); Respond "t" (Created "k" c2)]) as (c1 & c2 & Hc).
  { vm_compute in E. injection E as <-. do 2 eexists. reflexivity. }
  destruct (case_creation_is_idempotent (fun _ => "error") AgentExamples.fresh0 (fun k s => k) (fun _ => "json") "secret"
    (fun _ => Some "1.00") empty_world w "t" "k" c1 empty_world_inv (played_reachable _ _ E))
    as (row & H1 & H2 & _ & _ & H3 & _); [rewrite Hc; left|].
  exists w, c1, c2, row. split_and!; [reflexivity|exact Hc|exact H1|exact H2|].
  apply H3. rewrite Hc. right. left.
Defined.

(** A case, its workflow, the queue and its consent history. *)
Definition session0 : list (event (R := Reply) (Op := Op)) :=
  [Spawn (OpCreate "t" "k" dto0)] ++ repeat (Statement 0) 6 ++ [Answer 0 NothingSaid;
   Spawn (OpStart "t" "id0"); Statement 1; Answer 1 (TemporalSaid AlreadyStarted);
   Answer 1 (TemporalSaid (Described "run" "RUNNING")); Answer 1 NothingSaid;
   Spawn (OpOperations "t"); Statement 2; Answer 2 (TemporalSaid (Described "run" "FAILED")); Answer 2 NothingSaid;
   Spawn (OpConsents "t" "id0"); Statement 3; Statement 3; Answer 3 NothingSaid].

Lemma cases_are_tenant_isolated_witness :
  exists w, play_all handler0 session0 start0 = Some w /\ length (calls w) = 7%nat /\
    (forall t r, Respond t r ∈ calls w -> told (db w) t r) /\
    exists id c, "case-conditions-id0" = workflow_id id /\ w_cases (db w) !! id = Some c /\ lc_tenantId c = "t".
Proof.
  destruct (play_all handler0 session0 start0) as [w|] eqn:E; [|vm_compute in E; discriminate E].
  destruct (cases_are_tenant_isolated (fun _ => "error") AgentExamples.fresh0 (fun k s => k) (fun _ => "json") "secret"
    (fun _ => Some "1.00") empty_world w empty_world_inv (played_reachable _ _ E)) as [H1 H2].
  exists w. split_and!; [reflexivity|vm_compute in E; injection E as <-; reflexivity|exact H1|].
  destruct (H2 "t" (Describe "case-conditions-id0" None)) as (id & c & Hid & Hc & Ht & _).
  - apply (list_elem_of_lookup_2 _ 2). vm_compute in E. injection E as <-. reflexivity.
  - exists id, c. split_and!; assumption.
Defined.

(** A crash between the creation and the grant of consent: a retry reports the
    case, whose consent was never given. *)
Definition crashed_creation : list (event (R := Reply) (Op := Op)) :=
  [Spawn (OpCreate "t" "k" dto0)] ++ repeat (Statement 0) 4 ++ [Crash 0; Spawn (OpCreate "t" "k" dto0)] ++
  repeat (Statement 0) 3 ++ [Answer 0 NothingSaid].

Theorem crashed_creation_leaves_no_consent :
  exists w c, play_all handler0 crashed_creation start0 = Some w /\ calls w = [Respond "t" (Created "k" c)] /\
    Consent.getStatus "t" (lc_id c) (w_tables (db w)) = Consent.MISSING.
Proof. do 2 eexists. split_and!; vm_compute; reflexivity. Qed.

Lemma ready_case_is_restarted_witness :
  let w := put_cases {["c" := Agent.set_case_status Agent.READY_FOR_UNDERWRITING 10 AgentExamples.case0]} AgentExamples.world0 in
  let c := Agent.set_case_status Agent.READY_FOR_UNDERWRITING 10 AgentExamples.case0 in
  exec (fun _ => TemporalSaid (Started "run")) (startWorkflow "t" "c") w =
    (Ok {| sr_workflowId := workflow_id "c"; sr_runId := "run" |}, w,
     [Temporal "t" (StartWorkflow (workflow_id "c") false (workflow_input c None))]).
Proof.
  intros w c. apply (ready_case_is_restarted AgentExamples.fresh0 (fun k s => k) (fun _ => "json") "secret"
    (fun _ => TemporalSaid (Started "run")) "t" "c" w c "run" "old"); reflexivity.
Defined.
End CaseTheorems.
