(* ===== verification/Encoding.v ===== *)
(** * Text encodings of bytes

    The conversions of Node's Buffer that the program uses: base64, its URL
    variant and hexadecimal.  A string of bytes is a string of characters 0 to
    255. *)

From Stdlib Require Import Ascii.
From stdpp Require Import gmap strings list.
From S2P Require Import Prelude.

Module Encoding.

(** ** Base64

    [Buffer.from(bytes).toString('base64')] and [Buffer.from(s, 'base64')],
    which also takes the URL alphabet and skips every other character. *)

Definition base64_char (n : Z) : ascii :=
  ascii_of_N (Z.to_N (if n <? 26 then n + 65 else if n <? 52 then n + 71 else if n <? 62 then n - 4
                      else if n =? 62 then 43 else 47)).

Definition base64_value (c : ascii) : option Z :=
  let n := Z.of_N (N_of_ascii c) in
  if (65 <=? n) && (n <=? 90) then Some (n - 65)
  else if (97 <=? n) && (n <=? 122) then Some (n - 71)
  else if (48 <=? n) && (n <=? 57) then Some (n + 4)
  else if (n =? 43) || (n =? 45) then Some 62
  else if (n =? 47) || (n =? 95) then Some 63
  else None.

Definition byte_value (c : ascii) : Z := Z.of_N (N_of_ascii c).
Definition byte_char (n : Z) : ascii := ascii_of_N (Z.to_N n).

Fixpoint base64_groups (bytes : list ascii) : list ascii :=
  match bytes with
  | x :: y :: z :: rest =>
      let '(a, b, c) := (byte_value x, byte_value y, byte_value z) in
      base64_char (a / 4) :: base64_char (a mod 4 * 16 + b / 16) :: base64_char (b mod 16 * 4 + c / 64) ::
      base64_char (c mod 64) :: base64_groups rest
  | [x; y] =>
      let '(a, b) := (byte_value x, byte_value y) in
      [base64_char (a / 4); base64_char (a mod 4 * 16 + b / 16); base64_char (b mod 16 * 4); "="%char]
  | [x] =>
      let a := byte_value x in
      [base64_char (a / 4); base64_char (a mod 4 * 16); "="%char; "="%char]
  | [] => []
  end.

Fixpoint bytes_of_sextets (l : list Z) : list ascii :=
  match l with
  | a :: b :: c :: d :: rest =>
      byte_char (a * 4 + b / 16) :: byte_char (b mod 16 * 16 + c / 4) :: byte_char (c mod 4 * 64 + d) ::
      bytes_of_sextets rest
  | [a; b; c] => [byte_char (a * 4 + b / 16); byte_char (b mod 16 * 16 + c / 4)]
  | [a; b] => [byte_char (a * 4 + b / 16)]
  | _ => []
  end.

Definition base64 (s : string) : string :=
  String.string_of_list_ascii (base64_groups (String.list_ascii_of_string s)).
Definition from_base64 (s : string) : string :=
  String.string_of_list_ascii (bytes_of_sextets (omap base64_value (String.list_ascii_of_string s))).


(** [toString('base64url')]: the URL alphabet, no padding. *)
Definition base64url_char (c : ascii) : option ascii :=
  if Ascii.eqb c "+" then Some "-"%char else if Ascii.eqb c "/" then Some "_"%char
  else if Ascii.eqb c "=" then None else Some c.
Definition base64url (s : string) : string :=
  String.string_of_list_ascii (omap base64url_char (base64_groups (String.list_ascii_of_string s))).

(** ** Hexadecimal

    [Buffer.from(s, 'hex')] stops at the first pair that is none. *)

Definition hex_char (n : Z) : ascii := ascii_of_N (Z.to_N (if n <? 10 then n + 48 else n + 87)).

Definition hex_value (c : ascii) : option Z :=
  let n := Z.of_N (N_of_ascii c) in
  if (48 <=? n) && (n <=? 57) then Some (n - 48)
  else if (97 <=? n) && (n <=? 102) then Some (n - 87)
  else if (65 <=? n) && (n <=? 70) then Some (n - 55)
  else None.

Fixpoint to_hex (s : string) : string :=
  match s with
  | EmptyString => EmptyString
  | String c s => String (hex_char (byte_value c / 16)) (String (hex_char (byte_value c mod 16)) (to_hex s))
  end.

Fixpoint from_hex (s : string) : string :=
  match s with
  | String a (String b s) =>
      match hex_value a, hex_value b with
      | Some x, Some y => String (byte_char (x * 16 + y)) (from_hex s)
      | _, _ => EmptyString
      end
  | _ => EmptyString
  end.

(** ** Round trips *)

Lemma base64_char_value n : 0 <= n < 64 -> base64_value (base64_char n) = Some n.
Proof.
  intros Hn. assert (Forall (fun n => base64_value (base64_char n) = Some n) (seqZ 0 64)) as H.
  { apply (bool_decide_unpack _). vm_compute. reflexivity. }
  apply (proj1 (Forall_forall _ _) H). apply elem_of_seqZ. lia.
Qed.

Lemma byte_value_range c : 0 <= byte_value c < 256.
Proof. unfold byte_value. pose proof (N_ascii_bounded c). lia. Qed.

Lemma byte_char_value c : byte_char (byte_value c) = c.
Proof. unfold byte_char, byte_value. rewrite N2Z.id. apply ascii_N_embedding. Qed.

Ltac div_lia := Z.div_mod_to_equations; lia.

Lemma bytes_of_base64 : forall l, bytes_of_sextets (omap base64_value (base64_groups l)) = l.
Proof.
  fix IH 1. intros [|x [|y [|z l]]]; [done| | |]; cbn [base64_groups].
  - pose proof (byte_value_range x). cbn [omap list_omap]. rewrite !base64_char_value by div_lia.
    cbn -[Z.mul Z.add Z.div Z.modulo]. f_equal. rewrite <- byte_char_value. f_equal. div_lia.
  - pose proof (byte_value_range x). pose proof (byte_value_range y). cbn [omap list_omap].
    rewrite !base64_char_value by div_lia. cbn -[Z.mul Z.add Z.div Z.modulo].
    f_equal; [|f_equal]; rewrite <- byte_char_value; f_equal; div_lia.
  - pose proof (byte_value_range x). pose proof (byte_value_range y). pose proof (byte_value_range z).
    cbn [omap list_omap]. rewrite !base64_char_value by div_lia. cbn [bytes_of_sextets].
    f_equal; [|f_equal; [|f_equal; [|apply IH]]]; rewrite <- byte_char_value; f_equal; div_lia.
Qed.

Lemma from_base64_base64 s : from_base64 (base64 s) = s.
Proof.
  unfold from_base64, base64. rewrite String.list_ascii_of_string_of_list_ascii, bytes_of_base64.
  apply String.string_of_list_ascii_of_string.
Qed.


Lemma base64url_value n : 0 <= n < 64 -> exists c, base64url_char (base64_char n) = Some c /\ base64_value c = Some n.
Proof.
  intros Hn. assert (Forall (fun n => (c ← base64url_char (base64_char n); base64_value c) = Some n) (seqZ 0 64)) as H.
  { apply (bool_decide_unpack _). vm_compute. reflexivity. }
  apply (proj1 (Forall_forall _ _)) with (x := n) in H; [|apply elem_of_seqZ; lia].
  destruct (base64url_char (base64_char n)) as [c|]; [by exists c|done].
Qed.

(** Every character of the base64 text is one of the alphabet or padding. *)
Inductive base64_text : list ascii -> Prop :=
| b64_nil : base64_text []
| b64_char n l : 0 <= n < 64 -> base64_text l -> base64_text (base64_char n :: l)
| b64_pad l : base64_text l -> base64_text ("="%char :: l).

Lemma base64_groups_text : forall l, base64_text (base64_groups l).
Proof.
  fix IH 1. intros [|x [|y [|z l]]]; cbn [base64_groups]; [constructor| | |].
  - pose proof (byte_value_range x). repeat first [apply b64_pad|apply b64_char; [div_lia|]]; constructor.
  - pose proof (byte_value_range x). pose proof (byte_value_range y).
    repeat first [apply b64_pad|apply b64_char; [div_lia|]]; constructor.
  - pose proof (byte_value_range x). pose proof (byte_value_range y). pose proof (byte_value_range z).
    do 4 (apply b64_char; [div_lia|]). apply IH.
Qed.

Lemma base64url_same_values l : base64_text l ->
  omap base64_value (omap base64url_char l) = omap base64_value l.
Proof.
  induction 1 as [|n l Hn _ IH|l _ IH]; cbn; [done| |done].
  destruct (base64url_value n Hn) as (c & -> & Hc). rewrite base64_char_value by done. cbn. by rewrite Hc, IH.
Qed.

Lemma from_base64_base64url s : from_base64 (base64url s) = s.
Proof.
  unfold from_base64, base64url. rewrite String.list_ascii_of_string_of_list_ascii,
    base64url_same_values, bytes_of_base64 by apply base64_groups_text.
  apply String.string_of_list_ascii_of_string.
Qed.

(** [sep] does not occur in [s]. *)
Definition lacks (sep : ascii) (s : string) : Prop := sep ∉ String.list_ascii_of_string s.
#[export] Instance lacks_dec sep s : Decision (lacks sep s).
Proof. unfold lacks. apply _. Defined.

Lemma base64url_lacks sep s : base64_value sep = None -> lacks sep (base64url s).
Proof.
  intros Hs. unfold lacks, base64url. rewrite String.list_ascii_of_string_of_list_ascii.
  induction (base64_groups_text (String.list_ascii_of_string s)) as [|n l Hn _ IH|l _ IH]; cbn; [by apply not_elem_of_nil| |done].
  destruct (base64url_value n Hn) as (c & -> & Hc). cbn. apply not_elem_of_cons. split; [congruence|done].
Qed.

Lemma base64url_nonempty s : s <> "" -> base64url s <> "".
Proof. intros Hs E. apply Hs. rewrite <- (from_base64_base64url s), E. done. Qed.

Lemma hex_value_char n : 0 <= n < 16 -> hex_value (hex_char n) = Some n.
Proof.
  intros Hn. assert (Forall (fun n => hex_value (hex_char n) = Some n) (seqZ 0 16)) as H.
  { apply (bool_decide_unpack _). vm_compute. reflexivity. }
  apply (proj1 (Forall_forall _ _) H). apply elem_of_seqZ. lia.
Qed.

Lemma from_hex_to_hex s : from_hex (to_hex s) = s.
Proof.
  induction s as [|c s IH]; cbn -[Z.mul Z.add Z.div Z.modulo]; [done|]. pose proof (byte_value_range c).
  rewrite !hex_value_char, IH by div_lia. f_equal. rewrite <- byte_char_value. f_equal. div_lia.
Qed.

(** ** Texts as lists of characters *)

Notation chars := String.list_ascii_of_string.

Lemma chars_app a b : chars (a +:+ b) = chars a ++ chars b.
Proof.
  induction a as [|c a IH]; [reflexivity|].
  change (c :: chars (a +:+ b) = c :: (chars a ++ chars b)). by rewrite IH.
Qed.

Lemma chars_inj a b : chars a = chars b -> a = b.
Proof. intros H. by rewrite <- (String.string_of_list_ascii_of_string a), H, String.string_of_list_ascii_of_string. Qed.

Lemma chars_length s : length (chars s) = String.length s.
Proof. induction s as [|c s IH]; cbn; [done|by rewrite IH]. Qed.

Lemma chars_substring n m s : chars (String.substring n m s) = take m (drop n (chars s)).
Proof.
  revert n m. induction s as [|c s IH]; intros n m; [by destruct n, m|].
  destruct n as [|n]; [|apply (IH n m)]. destruct m as [|m]; [done|].
  change (c :: chars (String.substring 0 m s) = c :: take m (chars s)). f_equal. apply (IH 0%nat m).
Qed.

(** ** Pieces between separators *)

Lemma split_on_lacks sep s : lacks sep s -> JS.split_on sep s = [s].
Proof.
  induction s as [|c s IH]; cbn -[Ascii.eqb]; [done|]. intros H. apply not_elem_of_cons in H as [Hc Hs].
  rewrite IH by done. destruct (Ascii.eqb_spec c sep) as [->|]; done.
Qed.

Lemma split_on_joined sep a b : lacks sep a -> JS.split_on sep (a +:+ String sep b) = a :: JS.split_on sep b.
Proof.
  induction a as [|c a IH]; intros H.
  - change (JS.split_on sep (String sep b) = "" :: JS.split_on sep b). cbn -[Ascii.eqb]. by rewrite Ascii.eqb_refl.
  - apply not_elem_of_cons in H as [Hc Hs].
    change (JS.split_on sep (String c (a +:+ String sep b)) = String c a :: JS.split_on sep b). cbn -[Ascii.eqb].
    rewrite IH by done. destruct (Ascii.eqb_spec c sep) as [->|]; done.
Qed.

Example base64_padding : (base64 "a", base64 "ab", base64 "abc") = ("YQ==", "YWI=", "YWJj").
Proof. reflexivity. Qed.
Example base64url_alphabet : base64url (String "255" (String "254" (String "255" "a"))) = "__7_YQ".
Proof. vm_compute. reflexivity. Qed.
End Encoding.
