(* ===== verification/KeyRings.v ===== *)
(** * Encryption under a key ring

    provider-platform/sensitive-json-cipher.ts, documents/document-content-cipher.ts
    and the token bundles of auth/oidc-session.service.ts: three envelopes of
    one kind of key ring, whose first key encrypts and whose other keys decrypt
    what was written before a rotation.  AES-256-GCM is an interface with the
    laws of authenticated encryption. *)

From Stdlib Require Import Ascii SpecFloat.
From stdpp Require Import gmap strings list.
From S2P Require Import Prelude Encoding PolicyDsl.

Module Ciphers.
Import Encoding.

(** ** The cipher *)

(** [seal key iv aad plaintext] is the tag and the ciphertext. *)
Class Aead := {
  seal : string -> string -> string -> string -> string * string;
  unseal : string -> string -> string -> string -> string -> option string }.

Class AeadLaws (A : Aead) := {
  unseal_seal key iv aad plain :
    unseal key iv aad (seal key iv aad plain).1 (seal key iv aad plain).2 = Some plain;
  tag_length key iv aad plain : String.length (seal key iv aad plain).1 = 16%nat;
  ciphertext_length key iv aad plain : String.length (seal key iv aad plain).2 = String.length plain }.

(** ** The ring *)

Inductive Failure :=
| InvalidKeyRing (message : string)
| KeyUnavailable (message : string)
| DecryptionError (message : string)
| InvalidEnvelope (message : string)
| Unauthorized.

Record KeyRing := { kr_current : string; kr_keys : gmap string string }.

(** /^[A-Za-z0-9._-]{1,64}$/ and /^[0-9a-fA-F]{64}$/ *)
Definition key_id_char (c : ascii) : bool :=
  let n := nat_of_ascii c in
  (((65 <=? n) && (n <=? 90)) || ((97 <=? n) && (n <=? 122)) || ((48 <=? n) && (n <=? 57)))%nat ||
  Ascii.eqb c "." || Ascii.eqb c "_" || Ascii.eqb c "-".
Definition valid_key_id (s : string) : bool :=
  (1 <=? String.length s)%nat && (String.length s <=? 64)%nat && forallb key_id_char (String.list_ascii_of_string s).
Definition valid_key_hex (s : string) : bool :=
  (String.length s =? 64)%nat && forallb (fun c => bool_decide (is_Some (hex_value c))) (String.list_ascii_of_string s).

(** [entry.slice(0, entry.indexOf(':'))] and what follows the colon; without a
    colon, all but the last character and the whole entry. *)
Fixpoint split_first (sep : ascii) (s : string) : option (string * string) :=
  match s with
  | EmptyString => None
  | String c s =>
      if Ascii.eqb c sep then Some (EmptyString, s)
      else (fun '(a, b) => (String c a, b)) <$> split_first sep s
  end.
Fixpoint drop_last (s : string) : string :=
  match s with
  | EmptyString | String _ EmptyString => EmptyString
  | String c s => String c (drop_last s)
  end.
Definition key_entry (entry : string) : string * string := default (drop_last entry, entry) (split_first ":" entry).

(** [new Map(entries)]: the last entry of a key counts. *)
Definition ring_of (entries : list (string * string)) : KeyRing :=
  {| kr_current := match entries with (id, _) :: _ => id | [] => "" end;
     kr_keys := foldl (fun m e => <[e.1 := from_hex e.2]> m) ∅ entries |}.

Definition check_ring (message : string) (entries : list (string * string)) : result Failure KeyRing :=
  if forallb (fun e => valid_key_id e.1 && valid_key_hex e.2) entries then Ok (ring_of entries)
  else Err (InvalidKeyRing message).

Definition parse_ring (message text : string) : result Failure KeyRing :=
  check_ring message (map key_entry (JS.split_on "," text)).

Section Ciphers.
Context {A : Aead}.

(** ** Provider payloads and evidence values *)

Record EncryptedJsonEnvelope := { en_kid : string; en_iv : string; en_tag : string; en_ciphertext : string }.

Definition json_ring (keyRing : option string) (devKey : string) : result Failure KeyRing :=
  parse_ring "invalid PROVIDER_DATA_ENCRYPTION_KEYS entry" (default ("local-v1:" +:+ devKey) keyRing).

Context (json_stringify : Dsl.value -> string) (json_parse : string -> option Dsl.value).

(** [encrypt], with the random iv as an argument. *)
Definition encryptJson (ring : KeyRing) (iv : string) (value : Dsl.value) (aad : string)
  : result Failure EncryptedJsonEnvelope :=
  match kr_keys ring !! kr_current ring with
  | None => Err (KeyUnavailable "current provider encryption key is unavailable")
  | Some key =>
      let '(tag, ciphertext) := seal key iv aad (json_stringify value) in
      Ok {| en_kid := kr_current ring; en_iv := base64url iv; en_tag := base64url tag;
            en_ciphertext := base64url ciphertext |}
  end.

Definition one : spec_float := Dsl.f64_of_Z 1.

(** The envelope as the JSON value that is stored. *)
Definition envelope_value (e : EncryptedJsonEnvelope) : Dsl.value :=
  Dsl.VObject [("v", Dsl.VNumber one); ("alg", Dsl.VString "A256GCM"); ("kid", Dsl.VString (en_kid e));
    ("iv", Dsl.VString (en_iv e)); ("tag", Dsl.VString (en_tag e)); ("ciphertext", Dsl.VString (en_ciphertext e))].

(** [isEnvelope], with what it found. *)
Definition as_envelope (value : Dsl.value) : option EncryptedJsonEnvelope :=
  match value with
  | Dsl.VObject o =>
      match Dsl.get o "v", Dsl.get o "alg", Dsl.get o "kid", Dsl.get o "iv", Dsl.get o "tag", Dsl.get o "ciphertext" with
      | Dsl.VNumber v, Dsl.VString alg, Dsl.VString kid, Dsl.VString iv, Dsl.VString tag, Dsl.VString ciphertext =>
          if SFeqb v one && String.eqb alg "A256GCM"
          then Some {| en_kid := kid; en_iv := iv; en_tag := tag; en_ciphertext := ciphertext |} else None
      | _, _, _, _, _, _ => None
      end
  | _ => None
  end.

Definition decryptJson (rejectLegacyPlaintext : bool) (ring : KeyRing) (value : Dsl.value) (aad : string)
  : result Failure Dsl.value :=
  match as_envelope value with
  | None =>
      if rejectLegacyPlaintext
      then Err (DecryptionError "legacy plaintext sensitive payload is forbidden in staging/production")
      else Ok value
  | Some e =>
      match
        key ← kr_keys ring !! en_kid e;
        plain ← unseal key (from_base64 (en_iv e)) aad (from_base64 (en_tag e)) (from_base64 (en_ciphertext e));
        json_parse plain
      with
      | Some v => Ok v
      | None => Err (DecryptionError "sensitive payload authentication or decryption failed")
      end
  end.

(** ** Documents *)

Definition FORMAT_VERSION : nat := 1.
Definition one_byte (n : nat) (s : string) : string := String (ascii_of_nat n) s.

Definition encryptDocument (ring : KeyRing) (iv plaintext aad : string) : result Failure string :=
  match kr_keys ring !! kr_current ring with
  | None => Err (KeyUnavailable "current document encryption key is unavailable")
  | Some key =>
      let '(tag, ciphertext) := seal key iv aad plaintext in
      Ok (one_byte FORMAT_VERSION (one_byte (String.length (kr_current ring))
            (kr_current ring +:+ iv +:+ tag +:+ ciphertext)))
  end.

(** [buffer.subarray(from)] and [buffer.subarray(0, n)]. *)
Definition skip (n : nat) (s : string) : string := String.substring n (String.length s) s.
Definition sub (from n : nat) (s : string) : string := String.substring from n s.
Definition byte_at (n : nat) (s : string) : option nat := nat_of_ascii <$> String.get n s.

Definition decryptDocument (ring : KeyRing) (envelope aad : string) : result Failure string :=
  let keyLength := default 0%nat (byte_at 1 envelope) in
  if negb (bool_decide (byte_at 0 envelope = Some FORMAT_VERSION)) || (keyLength =? 0)%nat ||
     (String.length envelope <? 30 + keyLength)%nat
  then Err (InvalidEnvelope "invalid encrypted document envelope")
  else
    match kr_keys ring !! sub 2 keyLength envelope with
    | None => Err (KeyUnavailable "document encryption key is unavailable")
    | Some key =>
        let ivStart := (2 + keyLength)%nat in
        match unseal key (sub ivStart 12 envelope) aad (sub (ivStart + 12) 16 envelope) (skip (ivStart + 28) envelope) with
        | Some plain => Ok plain
        | None => Err (DecryptionError "Unsupported state or unable to authenticate data")
        end
    end.

(** ** Token bundles of a session *)

Record TokenBundle := { tk_accessToken : string; tk_refreshToken : option string; tk_idToken : option string }.

Context (bundle_text : TokenBundle -> string) (parse_bundle : string -> option TokenBundle).

(** The ring, or the single legacy key under the id [legacy]. *)
Definition session_ring (keyRing legacyKey : option string) (devKey : string) : result Failure KeyRing :=
  let message := "invalid OIDC session encryption key ring" in
  let legacy := check_ring message [("legacy", default devKey legacyKey)] in
  match keyRing with
  | Some text => if JS.truthy text then parse_ring message text else legacy
  | None => legacy
  end.

Definition encryptBundle (ring : KeyRing) (iv : string) (bundle : TokenBundle) (aad : string) : result Failure string :=
  match kr_keys ring !! kr_current ring with
  | None => Err (KeyUnavailable "OIDC session encryption key unavailable")
  | Some key =>
      let '(tag, ciphertext) := seal key iv aad (bundle_text bundle) in
      Ok (String.concat "." ["v2"; kr_current ring; base64url iv; base64url tag; base64url ciphertext])
  end.

(** A missing part, or an empty one, is falsy. *)
Definition part (n : nat) (parts : list string) : option string :=
  p ← parts !! n; if JS.truthy p then Some p else None.

Definition decryptBundle (ring : KeyRing) (value aad : string) : result Failure TokenBundle :=
  let parts := JS.split_on "." value in
  let v1 := bool_decide (parts !! 0%nat = Some "v1") in
  match
    keyId ← (if v1 then Some "legacy" else part 1 parts);
    iv ← part (if v1 then 1 else 2)%nat parts;
    tag ← part (if v1 then 2 else 3)%nat parts;
    ciphertext ← part (if v1 then 3 else 4)%nat parts;
    key ← kr_keys ring !! keyId;
    plain ← unseal key (from_base64 iv) aad (from_base64 tag) (from_base64 ciphertext);
    parse_bundle plain
  with
  | Some b => Ok b
  | None => Err Unauthorized
  end.

(** ** Rings *)

Lemma ring_lookup entries id :
  is_Some (kr_keys (ring_of entries) !! id) <-> id ∈ map fst entries.
Proof.
  unfold ring_of. cbn [kr_keys].
  assert (forall (m : gmap string string), is_Some (foldl (fun m e => <[e.1 := from_hex e.2]> m) m entries !! id) <->
    is_Some (m !! id) \/ id ∈ map fst entries) as H.
  { induction entries as [|[k h] entries IH]; intros m; cbn.
    - rewrite elem_of_nil. tauto.
    - rewrite IH, elem_of_cons, lookup_insert_is_Some. cbn. destruct (decide (k = id)); naive_solver. }
  rewrite H, lookup_empty. split; [intros [[? ?]|?]|]; naive_solver.
Qed.

(** The first key of an accepted ring is there. *)
Lemma accepted_ring_has_current message entries ring :
  entries <> [] -> check_ring message entries = Ok ring ->
  is_Some (kr_keys ring !! kr_current ring) /\ valid_key_id (kr_current ring) = true.
Proof.
  unfold check_ring. destruct (forallb _ entries) eqn:E; [|done]. intros Hne [= <-].
  destruct entries as [|[id h] entries]; [done|]. split.
  - apply ring_lookup. cbn. by left.
  - cbn in E. bsplit. done.
Qed.

Lemma split_on_nonempty sep s : JS.split_on sep s <> [].
Proof. destruct s as [|c s]; cbn; [done|]. destruct (Ascii.eqb c sep); [done|]. by destruct (JS.split_on sep s). Qed.

Lemma parsed_ring_has_current message text ring : parse_ring message text = Ok ring ->
  is_Some (kr_keys ring !! kr_current ring) /\ valid_key_id (kr_current ring) = true.
Proof.
  apply accepted_ring_has_current. intros H. apply (split_on_nonempty "," text). by destruct (JS.split_on "," text).
Qed.

(** ** Strings by position *)

Lemma length_app_string a b : String.length (a +:+ b) = (String.length a + String.length b)%nat.
Proof. induction a as [|c a IH]; [done|]. change (S (String.length (a +:+ b)) = S (String.length a + String.length b)). by rewrite IH. Qed.

Lemma sub_zero a b : String.substring 0 (String.length a) (a +:+ b) = a.
Proof.
  induction a as [|c a IH]; [by destruct b|].
  change (String c (String.substring 0 (String.length a) (a +:+ b)) = String c a). by rewrite IH.
Qed.

Lemma sub_app a b n m : String.substring (String.length a + n) m (a +:+ b) = String.substring n m b.
Proof.
  induction a as [|c a IH]; [done|].
  change (String.substring (String.length a + n) m (a +:+ b) = String.substring n m b). apply IH.
Qed.

Lemma sub_long s n : (String.length s <= n)%nat -> String.substring 0 n s = s.
Proof.
  revert n. induction s as [|c s IH]; intros [|n] H; cbn in *; [done..|lia|]. f_equal. apply IH. lia.
Qed.

Lemma app_assoc_string a b c : a +:+ b +:+ c = (a +:+ b) +:+ c.
Proof. induction a as [|x a IH]; [done|]. change (String x (a +:+ b +:+ c) = String x ((a +:+ b) +:+ c)). by rewrite IH. Qed.

Lemma sub_field a x b n m : String.length a = n -> String.length x = m -> String.substring n m (a +:+ x +:+ b) = x.
Proof. intros <- <-. replace (String.length a) with (String.length a + 0)%nat by lia. rewrite sub_app. apply sub_zero. Qed.

(** ** Round trips, also after a rotation *)

(** The ring [new] still has the key [old] encrypts with. *)
Definition retains (new old : KeyRing) : Prop := kr_keys new !! kr_current old = kr_keys old !! kr_current old.

Context {L : AeadLaws A}.

Lemma json_envelope_roundtrip reject old new iv v aad e :
  retains new old -> json_parse (json_stringify v) = Some v ->
  encryptJson old iv v aad = Ok e -> decryptJson reject new (envelope_value e) aad = Ok v.
Proof using L.
  intros Hr Hj He. unfold encryptJson in He. destruct (kr_keys old !! kr_current old) as [key|] eqn:Hk; [|done].
  pose proof (unseal_seal key iv aad (json_stringify v)) as Hu.
  destruct (seal key iv aad (json_stringify v)) as [tag ct]. cbn in Hu. injection He as <-.
  unfold decryptJson, as_envelope, envelope_value. cbn -[SFeqb one].
  replace (SFeqb one one) with true by (vm_compute; reflexivity). cbn [andb en_kid en_iv en_tag en_ciphertext].
  unfold retains in Hr. rewrite Hr, Hk. cbn [mbind option_bind].
  rewrite !from_base64_base64url, Hu. cbn [mbind option_bind]. by rewrite Hj.
Qed.

Lemma document_roundtrip old new iv plain aad envelope :
  retains new old -> String.length iv = 12%nat -> valid_key_id (kr_current old) = true ->
  encryptDocument old iv plain aad = Ok envelope -> decryptDocument new envelope aad = Ok plain.
Proof using L.
  intros Hr Hiv Hid He. unfold encryptDocument in He. destruct (kr_keys old !! kr_current old) as [key|] eqn:Hk; [|done].
  pose proof (unseal_seal key iv aad plain) as Hu. pose proof (tag_length key iv aad plain) as Ht.
  destruct (seal key iv aad plain) as [tag ct]. cbn in Hu, Ht. injection He as <-.
  unfold valid_key_id in Hid. apply andb_true_iff in Hid as [[H1%Nat.leb_le H2%Nat.leb_le]%andb_true_iff _].
  set (kid := kr_current old) in *.
  unfold decryptDocument. set (body := kid +:+ iv +:+ tag +:+ ct).
  assert (byte_at 1 (one_byte FORMAT_VERSION (one_byte (String.length kid) body)) = Some (String.length kid)) as ->.
  { unfold byte_at, one_byte. cbn. rewrite nat_ascii_embedding by lia. done. }
  cbn [default from_option id].
  change (byte_at 0 (one_byte FORMAT_VERSION (one_byte (String.length kid) body))) with (Some FORMAT_VERSION).
  rewrite bool_decide_true by done. cbn [negb orb].
  rewrite (proj2 (Nat.eqb_neq _ _)) by lia. cbn [orb].
  set (head := one_byte FORMAT_VERSION (one_byte (String.length kid) kid)).
  change (one_byte FORMAT_VERSION (one_byte (String.length kid) body)) with (head +:+ iv +:+ tag +:+ ct).
  assert (String.length head = (2 + String.length kid)%nat) as Hh by done.
  rewrite (proj2 (Nat.ltb_ge _ _)) by (rewrite !length_app_string, Hiv, Ht, Hh; lia).
  assert (sub 2 (String.length kid) (head +:+ iv +:+ tag +:+ ct) = kid) as -> by apply sub_zero.
  unfold retains in Hr. fold kid in Hr. rewrite Hr, Hk.
  assert (sub (2 + String.length kid) 12 (head +:+ iv +:+ tag +:+ ct) = iv) as -> by (by apply sub_field).
  assert (sub (2 + String.length kid + 12) 16 (head +:+ iv +:+ tag +:+ ct) = tag) as ->.
  { rewrite app_assoc_string. apply sub_field; [|done]. by rewrite length_app_string, Hh, Hiv. }
  assert (skip (2 + String.length kid + 28) (head +:+ iv +:+ tag +:+ ct) = ct) as ->.
  { unfold skip. rewrite !app_assoc_string. replace (2 + String.length kid + 28)%nat with (String.length ((head +:+ iv) +:+ tag) + 0)%nat
      by (rewrite !length_app_string, Hh, Hiv, Ht; lia).
    rewrite sub_app. apply sub_long. rewrite !length_app_string. lia. }
  by rewrite Hu.
Qed.

(** What [encryptBundle] joins with dots, [decryptBundle] splits again: the
    parts are not empty, and none has a dot in it. *)
Lemma bundle_parts kid iv tag ct :
  lacks "." kid ->
  JS.split_on "." (String.concat "." ["v2"; kid; base64url iv; base64url tag; base64url ct]) =
  ["v2"; kid; base64url iv; base64url tag; base64url ct].
Proof.
  intros Hk. change (String.concat "." ["v2"; kid; base64url iv; base64url tag; base64url ct]) with
    ("v2" +:+ String "." (kid +:+ String "." (base64url iv +:+ String "." (base64url tag +:+ String "." (base64url ct))))).
  rewrite !split_on_joined, split_on_lacks; first [done | by apply base64url_lacks | by apply (bool_decide_unpack _); vm_compute].
Qed.

Lemma part_nonempty n parts p : parts !! n = Some p -> p <> "" -> part n parts = Some p.
Proof. intros H Hp. unfold part, JS.truthy. rewrite H. cbn. by rewrite (proj2 (String.eqb_neq _ _) Hp). Qed.

Lemma bundle_roundtrip old new iv b aad text :
  retains new old -> lacks "." (kr_current old) -> valid_key_id (kr_current old) = true -> iv <> "" ->
  parse_bundle (bundle_text b) = Some b -> parse_bundle "" = None ->
  encryptBundle old iv b aad = Ok text -> decryptBundle new text aad = Ok b.
Proof using L.
  intros Hr Hdot Hid Hiv Hb Hempty He. unfold encryptBundle in He.
  destruct (kr_keys old !! kr_current old) as [key|] eqn:Hk; [|done].
  pose proof (unseal_seal key iv aad (bundle_text b)) as Hu.
  pose proof (tag_length key iv aad (bundle_text b)) as Ht. pose proof (ciphertext_length key iv aad (bundle_text b)) as Hc.
  destruct (seal key iv aad (bundle_text b)) as [tag ct]. cbn in Hu, Ht, Hc.
  assert (text = String.concat "." ["v2"; kr_current old; base64url iv; base64url tag; base64url ct]) as -> by congruence.
  unfold decryptBundle. rewrite (bundle_parts (kr_current old) iv tag ct Hdot).
  rewrite bool_decide_false by done.
  assert (kr_current old <> "") as Hkid by (intros E; by rewrite E in Hid).
  assert (tag <> "") as Htag by (by intros ->).
  assert (ct <> "") as Hct.
  { intros ->. destruct (bundle_text b) as [|c s]; [congruence|done]. }
  rewrite (part_nonempty 1 _ (kr_current old)), (part_nonempty 2 _ (base64url iv)),
    (part_nonempty 3 _ (base64url tag)), (part_nonempty 4 _ (base64url ct)); try done; try by apply base64url_nonempty.
  cbn [mbind option_bind]. unfold retains in Hr. rewrite Hr, Hk. cbn [mbind option_bind].
  rewrite !from_base64_base64url, Hu. cbn [mbind option_bind]. by rewrite Hb.
Qed.

(** ** The properties *)

End Ciphers.

(** ** A toy cipher: the ciphertext is the plaintext, the tag a fixed text
    that [unseal] does not look at. *)
Module Toy.
#[export] Instance aead : Aead :=
  {| seal _ _ _ plain := ("sixteen.bytes...", plain);
     unseal _ _ _ _ ct := Some ct |}.
#[export] Instance laws : AeadLaws aead.
Proof. by split. Qed.
Definition json (v : Dsl.value) : string := match v with Dsl.VString s => s | _ => "{}" end.
Definition bundle_text (b : TokenBundle) : string := "a" +:+ tk_accessToken b.
Definition parse_bundle (s : string) : option TokenBundle :=
  match s with
  | EmptyString => None
  | String _ s => Some {| tk_accessToken := s; tk_refreshToken := None; tk_idToken := None |}
  end.
Definition hex64 : string := "00112233445566778899aabbccddeeff00112233445566778899aabbccddeeff".
Definition ring : KeyRing := ring_of [("k1", hex64)].
Definition rotated : KeyRing := ring_of [("k2", hex64); ("k1", hex64)].
Definition iv : string := "twelve.bytes".
Definition tokens : TokenBundle := {| tk_accessToken := "at"; tk_refreshToken := None; tk_idToken := None |}.
Definition dotted_ring : KeyRing := ring_of [("prod.2024", hex64)].
End Toy.
#[local] Existing Instances Toy.aead Toy.laws.


(** The key-id pattern admits a dot, and the envelope of a session is split at
    dots: under a ring whose first id has one, no session can be read back. *)
Lemma dotted_key_id_loses_sessions :
  parse_ring "m" ("prod.2024:" +:+ Toy.hex64) = Ok Toy.dotted_ring /\
  exists e, encryptBundle Toy.bundle_text Toy.dotted_ring Toy.iv Toy.tokens "aad" = Ok e /\
    decryptBundle Toy.parse_bundle Toy.dotted_ring e "aad" = Err Unauthorized.
Proof. split; [vm_compute; reflexivity|]. eexists. split; vm_compute; reflexivity. Qed.
End Ciphers.
