(* ===== verification/CaseQuery.v ===== *)
(** * Reading the cases

    cases/case-cursor.ts, cases/case-query.service.ts and
    cases/case-timeline.service.ts: the pages of the case list with their
    cursors, the other readers behind the query interface, and the timeline of
    a case.

    A timestamptz column keeps microseconds and a Date milliseconds.  The
    clock of the model counts milliseconds; [sub_ms] is what a row's createdAt
    has beyond them. *)

From Stdlib Require Import Ascii SpecFloat.
From stdpp Require Import gmap strings list sorting pretty.
From S2P Require Import Prelude Encoding BudgetLedger PolicyDsl PolicyDigest PolicyResolver PolicyEvaluation PolicyActivation Concurrency ProviderTables Consent ProviderPlatform ProviderDispatch WebhookGuard Outbox Communications AgentTables.

Module Query.
Import Encoding.
#[local] Existing Instance Agent.CaseStatus_eq.
#[local] Existing Instance Agent.ToolOutcome_eq.
Import Agent (World, LoanCase, CaseStatus, w_cases, w_tables, w_policy, w_comms, w_conditions, w_runs,
  lc_id, lc_tenantId, lc_borrowerId, lc_status, lc_createdAt).

(** ** [Date.prototype.toISOString] *)

(** The last [width] decimal digits of a number. *)
Fixpoint digits (width : nat) (n : Z) : string :=
  match width with
  | O => ""
  | S width => digits width (n / 10) +:+ String (ascii_of_N (Z.to_N (n mod 10 + 48))) ""
  end.

(** Year, month and day of a time value (proleptic Gregorian calendar). *)
Definition utc_date (ms : Z) : Z * Z * Z :=
  let '(y, m) := JS.utc_month ms in
  let z := ms / 86400000 + 719468 in
  let doe := z mod 146097 in
  let yoe := (doe - doe / 1460 + doe / 36524 - doe / 146096) / 365 in
  let doy := doe - (365 * yoe + yoe / 4 - yoe / 100) in
  let mp := (5 * doy + 2) / 153 in
  (y, m, doy - (153 * mp + 2) / 5 + 1).

Definition iso_year (y : Z) : string :=
  if (0 <=? y) && (y <=? 9999) then digits 4 y
  else (if y <? 0 then "-" else "+") +:+ digits 6 (Z.abs y).

Definition toISOString (ms : Z) : string :=
  let '(y, m, d) := utc_date ms in
  let t := ms mod 86400000 in
  iso_year y +:+ "-" +:+ digits 2 m +:+ "-" +:+ digits 2 d +:+ "T" +:+ digits 2 (t / 3600000) +:+ ":" +:+
  digits 2 (t / 60000 mod 60) +:+ ":" +:+ digits 2 (t / 1000 mod 60) +:+ "." +:+ digits 3 (t mod 1000) +:+ "Z".

(** ** Cursors *)

Record CaseCursor := { cu_createdAt : Z; cu_id : string }.

Inductive Failure := MalformedCursor (cursor : string).

(** [s.lastIndexOf(sep)], as what is before and after it. *)
Fixpoint split_last (sep : ascii) (s : string) : option (string * string) :=
  match s with
  | EmptyString => None
  | String c s =>
      match split_last sep s with
      | Some (a, b) => Some (String c a, b)
      | None => if Ascii.eqb c sep then Some (EmptyString, s) else None
      end
  end.

Section Query.
(** Buffer's conversion from text to UTF-8 and back, and [new Date(text)]. *)
Context (utf8_bytes utf8_text : string -> string) (parse_date : string -> option Z).
Context (sub_ms : LoanCase -> Z).

Definition encodeCaseCursor (cursor : CaseCursor) : string :=
  base64 (utf8_bytes (toISOString (cu_createdAt cursor) +:+ "|" +:+ cu_id cursor)).

Definition decodeCaseCursor (cursor : string) : result Failure CaseCursor :=
  let decoded := utf8_text (from_base64 cursor) in
  let '(isoTimestamp, id) := match split_last "|"%char decoded with Some p => p | None => ("", "") end in
  match parse_date isoTimestamp with
  | Some createdAt => if String.eqb id "" then Err (MalformedCursor cursor) else Ok {| cu_createdAt := createdAt; cu_id := id |}
  | None => Err (MalformedCursor cursor)
  end.

(** ** The pages of the case list *)

Definition DEFAULT_PAGE_SIZE : Z := 20.
Definition MAX_PAGE_SIZE : Z := 100.

Record ListCasesOptions := {
  lo_status : option CaseStatus;
  lo_borrowerId : option string;
  lo_first : option Z;
  lo_after : option string }.

Record CaseEdge := { ed_node : LoanCase; ed_cursor : string }.
Record CaseConnection := { cc_edges : list CaseEdge; cc_hasNextPage : bool; cc_endCursor : option string }.

Definition clamp_page (first : option Z) (standard : Z) : Z :=
  Z.min (Z.max (default standard first) 1) MAX_PAGE_SIZE.

(** The value of the column, in microseconds. *)
Definition created_us (c : LoanCase) : Z := lc_createdAt c * 1000 + sub_ms c.

(** ORDER BY c.createdAt DESC, c.id DESC *)
Definition newer (c c' : LoanCase) : Prop :=
  created_us c' < created_us c \/ created_us c' = created_us c /\ (lc_id c' ≤ lc_id c)%string.
#[export] Instance newer_dec c c' : Decision (newer c c').
Proof. unfold newer. apply _. Defined.

Definition wanted (tenantId : string) (o : ListCasesOptions) (c : LoanCase) : bool :=
  String.eqb (lc_tenantId c) tenantId &&
  match lo_status o with Some s => bool_decide (lc_status c = s) | None => true end &&
  match lo_borrowerId o with Some b => String.eqb b "" || String.eqb (lc_borrowerId c) b | None => true end.

(** The cursor's time is a whole number of milliseconds. *)
Definition beyond (cursor : CaseCursor) (c : LoanCase) : bool :=
  (created_us c <? cu_createdAt cursor * 1000) ||
  ((created_us c =? cu_createdAt cursor * 1000) &&
   bool_decide (lc_id c ≤ cu_id cursor)%string && negb (String.eqb (lc_id c) (cu_id cursor))).

Definition select_cases (tenantId : string) (o : ListCasesOptions) (after : option CaseCursor) (w : World) : list LoanCase :=
  merge_sort newer (find_rows (fun c => wanted tenantId o c &&
    match after with Some cursor => beyond cursor c | None => true end) (w_cases w)).

Definition cursor_of (c : LoanCase) : CaseCursor := {| cu_createdAt := lc_createdAt c; cu_id := lc_id c |}.

Definition listCases (tenantId : string) (o : ListCasesOptions) (w : World) : result Failure CaseConnection :=
  let pageSize := Z.to_nat (clamp_page (lo_first o) DEFAULT_PAGE_SIZE) in
  after ← match lo_after o with
          | Some a => if String.eqb a "" then Ok None else cursor ← decodeCaseCursor a; Ok (Some cursor)
          | None => Ok None
          end;
  let rows := take (S pageSize) (select_cases tenantId o after w) in
  let hasNextPage := bool_decide (pageSize < length rows)%nat in
  let page := if hasNextPage then take pageSize rows else rows in
  let edges := map (fun node => {| ed_node := node; ed_cursor := encodeCaseCursor (cursor_of node) |}) page in
  Ok {| cc_edges := edges; cc_hasNextPage := hasNextPage; cc_endCursor := ed_cursor <$> last edges |}.

(** Following the cursors while there is a next page, at most [n] pages. *)
Fixpoint follow (n : nat) (tenantId : string) (o : ListCasesOptions) (w : World) : result Failure (list LoanCase) :=
  match n with
  | O => Ok []
  | S n =>
      page ← listCases tenantId o w;
      let nodes := map ed_node (cc_edges page) in
      if cc_hasNextPage page then
        rest ← follow n tenantId {| lo_status := lo_status o; lo_borrowerId := lo_borrowerId o; lo_first := lo_first o;
                                    lo_after := cc_endCursor page |} w;
        Ok (nodes ++ rest)
      else Ok nodes
  end.

(** ** The other readers *)

Definition case_statuses : list CaseStatus :=
  [Agent.DRAFT; Agent.COLLECTING_EVIDENCE; Agent.CONDITIONS_OPEN; Agent.WAITING_FOR_INFORMATION;
   Agent.WAITING_FOR_REVIEW; Agent.READY_FOR_UNDERWRITING; Agent.MANUAL_REVIEW; Agent.CLOSED].

(** GROUP BY leaves the order of the groups open; here it is the enum's. *)
Definition countCasesByStatus (tenantId : string) (w : World) : list (CaseStatus * nat) :=
  omap (fun s =>
    let n := length (find_rows (fun c => String.eqb (lc_tenantId c) tenantId && bool_decide (lc_status c = s)) (w_cases w)) in
    if bool_decide (n = 0%nat) then None else Some (s, n)) case_statuses.

Definition listEvidenceFacts (tenantId caseId : string) (w : World) : list Tables.EvidenceFact :=
  order_by Tables.ev_observedAt (find_rows (fun e => String.eqb (Tables.ev_tenantId e) tenantId &&
    String.eqb (Tables.ev_caseId e) caseId) (Tables.evidence (w_tables w))).

Definition listConditions (tenantId caseId : string) (w : World) : list Agent.LoanCondition :=
  order_by Agent.cn_createdAt (find_rows (fun c => String.eqb (Agent.cn_tenantId c) tenantId &&
    String.eqb (Agent.cn_caseId c) caseId) (w_conditions w)).

Definition getActivePolicyBinding (tenantId caseId : string) (w : World) : option Evaluation.CasePolicyBinding :=
  find_row (fun b => String.eqb (Evaluation.bd_tenantId b) tenantId && String.eqb (Evaluation.bd_caseId b) caseId &&
    bool_decide (Evaluation.bd_invalidatedAt b = None)) (Evaluation.bindings (w_policy w)).

Definition getPolicySnapshot (tenantId snapshotId : string) (w : World) : option Evaluation.CasePolicySnapshot :=
  Tables.visible Evaluation.sn_tenantId tenantId (Evaluation.snapshots (w_policy w) !! snapshotId).

Definition listProviderOperationIntents (tenantId caseId : string) (w : World) : list Tables.ProviderOperationIntent :=
  order_by Tables.it_createdAt (find_rows (fun i => String.eqb (Tables.it_tenantId i) tenantId &&
    String.eqb (Tables.it_caseId i) caseId) (Tables.intents (w_tables w))).

(** The audit table keeps the order of insertion. *)
Definition listAuditEvents (tenantId caseId : string) (w : World) : list Tables.AuditEvent :=
  List.filter (fun e => String.eqb (Tables.ae_tenantId e) tenantId && String.eqb (Tables.ae_resourceId e) caseId)
    (Tables.audit_events (w_tables w)).

Definition listRecentActivity (tenantId : string) (limit : option Z) (w : World) : list Tables.AuditEvent :=
  take (Z.to_nat (clamp_page limit 20))
    (reverse (List.filter (fun e => String.eqb (Tables.ae_tenantId e) tenantId) (Tables.audit_events (w_tables w)))).

(** ** The timeline *)

Inductive TimelineKind := DOMAIN_EVENT | AGENT_RUN.
Record TimelineEntry := {
  te_timestamp : string;
  te_kind : TimelineKind;
  te_summary : string;
  te_detail : Outbox.OutboxEvent + Agent.AgentRun }.

(** [a.localeCompare(b) <= 0] and the texts of a route. *)
Context (locale_le : string -> string -> bool) (route_text : Agent.AgentRunRoute -> string).

Definition outcome_text (o : Agent.ToolOutcome) : string :=
  match o with Agent.SUCCESS => "SUCCESS" | Agent.FAILURE => "FAILURE" end.

Definition describeEvent (conditions : list Agent.LoanCondition) (e : Outbox.OutboxEvent) : TimelineEntry :=
  let condition :=
    if String.eqb (Outbox.oe_eventType e) Outbox.ConditionOpened then
      match Outbox.oe_payload e with
      | Dsl.VObject fields =>
          match Dsl.get fields "conditionId" with
          | Dsl.VString id => List.find (fun c => String.eqb (Agent.cn_id c) id) conditions
          | _ => None
          end
      | _ => None
      end
    else None in
  {| te_timestamp := toISOString (Outbox.oe_createdAt e); te_kind := DOMAIN_EVENT;
     te_summary := match condition with
                   | Some c => "Condition " +:+ Agent.cn_code c +:+ " opened: " +:+ Agent.cn_description c
                   | None => Outbox.oe_eventType e
                   end;
     te_detail := inl e |}.

Definition describeAgentRun (r : Agent.AgentRun) : string :=
  let attempts := order_by Agent.ta_attemptedAt (Agent.ar_attempts r) in
  let toolsSummary := match attempts with
    | [] => "no tools attempted"
    | _ => String.concat ", " (map (fun a => Agent.ta_toolName a +:+ ":" +:+ outcome_text (Agent.ta_outcome a)) attempts)
    end in
  let reasonSuffix := match Agent.ar_reviewReason r with
    | Some reason => if String.eqb reason "" then "" else " (" +:+ reason +:+ ")"
    | None => "" end in
  "Agent run reached " +:+ route_text (Agent.ar_route r) +:+ reasonSuffix +:+ " — " +:+ toolsSummary.

Definition run_entry (r : Agent.AgentRun) : TimelineEntry :=
  {| te_timestamp := toISOString (Agent.ar_completedAt r); te_kind := AGENT_RUN;
     te_summary := describeAgentRun r; te_detail := inr r |}.

(** [entries.sort((a, b) => a.timestamp.localeCompare(b.timestamp))]: stable. *)
Fixpoint insert_entry (e : TimelineEntry) (l : list TimelineEntry) : list TimelineEntry :=
  match l with
  | [] => [e]
  | f :: l' => if locale_le (te_timestamp e) (te_timestamp f) then e :: l else f :: insert_entry e l'
  end.

Definition events_of (tenantId caseId : string) (w : World) : list Outbox.OutboxEvent :=
  order_by Outbox.oe_createdAt (find_rows (fun e => String.eqb (Outbox.oe_tenantId e) tenantId &&
    String.eqb (Outbox.oe_caseId e) caseId) (Comms.outbox (w_comms w))).

Definition runs_of (tenantId caseId : string) (w : World) : list Agent.AgentRun :=
  order_by Agent.ar_startedAt (List.filter (fun r => String.eqb (Agent.ar_tenantId r) tenantId &&
    String.eqb (Agent.ar_caseId r) caseId) (w_runs w)).

Definition getTimeline (tenantId caseId : string) (w : World) : list TimelineEntry :=
  let conditions := find_rows (fun c => String.eqb (Agent.cn_tenantId c) tenantId &&
    String.eqb (Agent.cn_caseId c) caseId) (w_conditions w) in
  foldr insert_entry [] (map (describeEvent conditions) (events_of tenantId caseId w) ++ map run_entry (runs_of tenantId caseId w)).
End Query.
End Query.
