(* ===== verification/CaseQueryTheorems.v ===== *)
(** * What the readers of the cases promise

    A cursor survives its encoding; following the cursors visits every
    matching case exactly once, newest first, provided that cases created in
    the same millisecond have no further microseconds; without that proviso a
    case is skipped; the timeline is the events and runs of the case in the
    order of time. *)

From Stdlib Require Import Ascii SpecFloat.
From stdpp Require Import gmap strings list sorting pretty.
From S2P Require Import Prelude Encoding BudgetLedger BudgetTheorems PolicyDsl PolicyDigest PolicyResolver PolicyEvaluation PolicyActivation Concurrency ProviderTables Consent ProviderPlatform ProviderDispatch WebhookGuard Outbox Communications AgentTables AgentTools AgentPlanner AgentRuntime AgentExamples CaseQuery.

Module QueryTheorems.
Import Encoding Query.
Import Agent (World, LoanCase, w_cases, lc_id, lc_tenantId, lc_createdAt).

(** ** Cursors *)

Lemma split_last_none sep s : lacks sep s -> split_last sep s = None.
Proof.
  induction s as [|c s IH]; cbn; [done|]. intros H. apply not_elem_of_cons in H as [Hc Hs].
  rewrite IH by done. destruct (Ascii.eqb_spec c sep) as [->|]; done.
Qed.

Lemma split_last_app sep a b : lacks sep b -> split_last sep (a +:+ String sep b) = Some (a, b).
Proof.
  intros Hb. induction a as [|c a IH].
  - change (split_last sep (String sep b) = Some ("", b)). cbn -[Ascii.eqb].
    by rewrite split_last_none, Ascii.eqb_refl.
  - change (split_last sep (String c (a +:+ String sep b)) = Some (String c a, b)). cbn -[Ascii.eqb]. by rewrite IH.
Qed.

Section Pages.
Context (utf8_bytes utf8_text : string -> string) (parse_date : string -> option Z).
Context (sub_ms : LoanCase -> Z).
(** Decoding what was encoded gives the text back. *)
Hypothesis utf8_law : forall s, utf8_text (utf8_bytes s) = s.
Hypothesis utf8_empty : utf8_text "" = "".

Notation encode := (encodeCaseCursor utf8_bytes).
Notation decode := (decodeCaseCursor utf8_text parse_date).
Notation listCases := (listCases utf8_bytes utf8_text parse_date sub_ms).
Notation select_cases := (select_cases sub_ms).
Notation newer := (newer sub_ms).
Notation created_us := (created_us sub_ms).
Notation beyond := (beyond sub_ms).
Notation follow := (follow utf8_bytes utf8_text parse_date sub_ms).

(** A cursor whose date the runtime reads back and whose id is a key. *)
Definition plain_cursor (c : CaseCursor) : Prop :=
  parse_date (toISOString (cu_createdAt c)) = Some (cu_createdAt c) /\ cu_id c <> "" /\ lacks "|" (cu_id c).

Lemma decode_encodeCaseCursor c : plain_cursor c -> decode (encode c) = Ok c.
Proof using utf8_law.
  intros (Hd & Hne & Hb). unfold decodeCaseCursor, encodeCaseCursor. rewrite from_base64_base64, utf8_law.
  change (toISOString (cu_createdAt c) +:+ "|" +:+ cu_id c) with (toISOString (cu_createdAt c) +:+ String "|" (cu_id c)).
  rewrite split_last_app by done. rewrite Hd. apply String.eqb_neq in Hne. rewrite Hne. by destruct c.
Qed.

(** C28: What [encodeCaseCursor] writes, [decodeCaseCursor] reads back, whatever
    characters the date is written with; so no two cursors have the same text. *)
Theorem cursor_roundtrip c : plain_cursor c ->
  decode (encode c) = Ok c /\ forall c', plain_cursor c' -> encode c' = encode c -> c' = c.
Proof using utf8_law.
  intros Hc. split; [by apply decode_encodeCaseCursor|]. intros c' Hc' E.
  apply decode_encodeCaseCursor in Hc, Hc'. congruence.
Qed.

(** ** The order of the list *)

#[local] Instance newer_trans : Transitive newer.
Proof.
  intros a b c [H1|[H1 L1]] [H2|[H2 L2]]; unfold Query.newer; [left; lia..|].
  right. split; [lia|]. by etrans.
Qed.
#[local] Instance newer_total : Total newer.
Proof.
  intros a b. unfold Query.newer. destruct (Z.lt_trichotomy (created_us a) (created_us b)) as [H|[H|H]]; [auto| |auto].
  destruct (total String.le (lc_id a) (lc_id b)); auto.
Qed.

Lemma newer_antisym a b : newer a b -> newer b a -> lc_id a = lc_id b.
Proof. intros [H1|[H1 L1]] [H2|[H2 L2]]; [lia..|]. by apply (anti_symm String.le). Qed.

Lemma select_Permutation t o after w :
  select_cases t o after w ≡ₚ find_rows (fun c => wanted t o c &&
    match after with Some cursor => beyond cursor c | None => true end) (w_cases w).
Proof. apply merge_sort_Permutation. Qed.

Lemma select_sorted t o after w : StronglySorted newer (select_cases t o after w).
Proof. apply StronglySorted_merge_sort; apply _. Qed.

Lemma elem_select t o after w c : c ∈ select_cases t o after w <->
  wanted t o c = true /\ match after with Some cursor => beyond cursor c = true | None => True end /\
  exists k, w_cases w !! k = Some c.
Proof.
  rewrite select_Permutation, elem_find_rows, andb_true_iff. destruct after; [|naive_solver].
  split; [intros [[? ?] ?]|intros (? & ? & ?)]; done.
Qed.

(** The cases that are listed: keys of the rows are their ids, which survive
    a cursor, and a millisecond shared by two of them is all there is to their
    time. *)
Record listable (t : string) (o : ListCasesOptions) (w : World) : Prop := {
  li_ids : forall k c, w_cases w !! k = Some c -> lc_id c = k;
  li_cursor : forall k c, w_cases w !! k = Some c -> plain_cursor (cursor_of c);
  li_sub : forall k c, w_cases w !! k = Some c -> 0 <= sub_ms c < 1000;
  li_apart : forall k k' c c', w_cases w !! k = Some c -> w_cases w !! k' = Some c' ->
    wanted t o c = true -> wanted t o c' = true -> lc_createdAt c = lc_createdAt c' ->
    k = k' \/ sub_ms c = 0 /\ sub_ms c' = 0 }.

(** [beyond] the cursor of a row is exactly after it in the order. *)
Lemma beyond_iff t o w x y : listable t o w ->
  x ∈ select_cases t o None w -> y ∈ select_cases t o None w ->
  beyond (cursor_of x) y = true <-> newer x y /\ x <> y.
Proof using.
  intros [Hi _ Hs Ha] (Hx & _ & kx & Hkx)%elem_select (Hy & _ & ky & Hky)%elem_select.
  pose proof (Hs _ _ Hkx). pose proof (Hs _ _ Hky). pose proof (Hi _ _ Hkx) as Ix. pose proof (Hi _ _ Hky) as Iy.
  pose proof (Ha _ _ _ _ Hkx Hky Hx Hy) as Hap.
  unfold Query.beyond, Query.newer, Query.created_us, cursor_of. cbn [cu_createdAt cu_id].
  rewrite orb_true_iff, !andb_true_iff, Z.ltb_lt, Z.eqb_eq, bool_decide_eq_true, negb_true_iff, String.eqb_neq. split.
  - intros [Hlt|[[He Hle] Hne]].
    + split; [left; lia|]. intros ->. lia.
    + split; [|congruence]. destruct (decide (sub_ms x = 0)); [right; split; [lia|done]|left; lia].
  - intros [[Hlt|[He Hle]] Hne].
    + destruct (Z.lt_trichotomy (lc_createdAt y) (lc_createdAt x)) as [H1|[H1|H1]]; [left; lia| |lia].
      destruct (Hap (eq_sym H1)) as [->|[? ?]]; [simplify_eq|lia].
    + assert (lc_createdAt x = lc_createdAt y) as H1 by lia.
      destruct (Hap H1) as [->|[? ?]]; [simplify_eq|]. right. split; [split; [lia|done]|].
      intros E. apply Hne. congruence.
Qed.

Lemma filter_all {A} (p : A -> bool) l : (forall a, a ∈ l -> p a = true) -> List.filter p l = l.
Proof.
  induction l as [|a l IH]; intros H; cbn; [done|]. rewrite H by (by left). f_equal. apply IH. intros b Hb. apply H. by right.
Qed.
Lemma filter_none {A} (p : A -> bool) l : (forall a, a ∈ l -> p a = false) -> List.filter p l = [].
Proof.
  induction l as [|a l IH]; intros H; cbn; [done|]. rewrite H by (by left). apply IH. intros b Hb. apply H. by right.
Qed.
Lemma filter_and {A} (p q : A -> bool) l : List.filter (fun a => p a && q a) l = List.filter q (List.filter p l).
Proof. induction l as [|a l IH]; cbn; [done|]. destruct (p a); cbn; [|done]. destruct (q a); by rewrite IH. Qed.
Lemma filter_ext_in {A} (p q : A -> bool) l : (forall a, p a = q a) -> List.filter p l = List.filter q l.
Proof. intros H. induction l as [|a l IH]; cbn; [done|]. by rewrite H, IH. Qed.

Lemma filter_Perm {A} (p : A -> bool) l l' : l ≡ₚ l' -> List.filter p l ≡ₚ List.filter p l'.
Proof.
  induction 1 as [|a l l' _ IH|a b l|l1 l2 l3 _ IH1 _ IH2]; cbn; [done| | |by etrans].
  - destruct (p a); by rewrite ?IH.
  - destruct (p a), (p b); try done. apply perm_swap.
Qed.

Lemma select_NoDup t o w : listable t o w -> NoDup (select_cases t o None w).
Proof using.
  intros Hl. rewrite select_Permutation. unfold find_rows, rows.
  apply NoDup_ListNoDup, List.NoDup_filter, NoDup_ListNoDup.
  apply NoDup_fmap_2_strong; [|apply NoDup_map_to_list].
  intros [k c] [k' c'] H1%elem_of_map_to_list H2%elem_of_map_to_list E. cbn in E. subst c'.
  f_equal. by rewrite <- (li_ids _ _ _ Hl _ _ H1), <- (li_ids _ _ _ Hl _ _ H2).
Qed.

(** The rows beyond the cursor of a row are the rest of the list. *)
Lemma select_after t o w pre x post : listable t o w ->
  select_cases t o None w = pre ++ x :: post -> select_cases t o (Some (cursor_of x)) w = post.
Proof using.
  intros Hl Hr. pose proof (select_sorted t o None w) as Hso. pose proof (select_NoDup t o w Hl) as Hnd. rewrite Hr in Hso, Hnd.
  apply NoDup_app in Hnd as (_ & Hdisj & Hnd). apply NoDup_cons in Hnd as [Hx Hnd].
  apply StronglySorted_app in Hso as (Hbefore & _ & Hso). apply StronglySorted_inv in Hso as [Hpost Hafter].
  assert (Hin : forall y, y ∈ pre ++ x :: post -> y ∈ select_cases t o None w) by (by rewrite Hr).
  assert (Hxin : x ∈ select_cases t o None w) by (apply Hin, elem_of_app; right; left).
  assert (Hb : forall y, y ∈ pre ++ x :: post -> beyond (cursor_of x) y = true <-> newer x y /\ x <> y).
  { intros y Hy. apply (beyond_iff t o w); auto. }
  eapply (StronglySorted_unique_strong newer); [|apply select_sorted|exact Hpost|].
  - intros c c' (_ & _ & k & Hk)%elem_select Hc' H1 H2.
    assert (c' ∈ select_cases t o None w) as (_ & _ & k' & Hk')%elem_select by (apply Hin, elem_of_app; right; by right).
    pose proof (newer_antisym _ _ H1 H2) as E. rewrite (li_ids _ _ _ Hl _ _ Hk), (li_ids _ _ _ Hl _ _ Hk') in E. congruence.
  - rewrite select_Permutation. unfold find_rows. rewrite filter_and. fold (find_rows (wanted t o) (w_cases w)).
    assert (find_rows (wanted t o) (w_cases w) ≡ₚ pre ++ x :: post) as HP.
    { rewrite <- Hr, select_Permutation. unfold find_rows.
      rewrite (filter_ext_in (fun c => wanted t o c && true) (wanted t o)); [done|]. intros c. apply andb_true_r. }
    etrans; [by apply filter_Perm|]. rewrite List.filter_app. cbn [List.filter].
    rewrite filter_none, filter_all; cbn [app].
    + destruct (beyond (cursor_of x) x) eqn:E; [|done]. apply Hb in E as [_ ?]; [done|]. apply elem_of_app. right. by left.
    + intros y Hy. apply Hb; [apply elem_of_app; right; by right|]. split; [|congruence].
      by apply (proj1 (Forall_forall _ _) Hafter).
    + intros y Hy. destruct (beyond (cursor_of x) y) eqn:E; [|done]. exfalso.
      apply Hb in E as [Hn Hne]; [|apply elem_of_app; by left].
      assert (newer y x) as Hn' by (apply Hbefore; [done|by left]).
      pose proof (newer_antisym _ _ Hn Hn') as Heq.
      assert (y ∈ select_cases t o None w) as (_ & _ & k & Hk)%elem_select by (apply Hin, elem_of_app; by left).
      apply elem_select in Hxin as (_ & _ & k' & Hk').
      rewrite (li_ids _ _ _ Hl _ _ Hk), (li_ids _ _ _ Hl _ _ Hk') in Heq. congruence.
Qed.

(** ** Following the cursors *)

Definition with_after (o : ListCasesOptions) (a : option string) : ListCasesOptions :=
  {| lo_status := lo_status o; lo_borrowerId := lo_borrowerId o; lo_first := lo_first o; lo_after := a |}.

Lemma select_with_after t o a after w : select_cases t (with_after o a) after w = select_cases t o after w.
Proof. done. Qed.

(** What the argument [after] stands for. *)
Definition stands_for (a : option string) (after : option CaseCursor) : Prop :=
  match a with
  | Some a => if String.eqb a "" then after = None else exists c, decode a = Ok c /\ after = Some c
  | None => after = None
  end.

Lemma list_page t o after w : stands_for (lo_after o) after ->
  let l := select_cases t o after w in let size := Z.to_nat (clamp_page (lo_first o) DEFAULT_PAGE_SIZE) in
  exists page, listCases t o w = Ok page /\ map ed_node (cc_edges page) = take size l /\
    cc_hasNextPage page = bool_decide (size < length l)%nat /\
    cc_endCursor page = (fun c => encode (cursor_of c)) <$> last (take size l).
Proof using.
  intros Ha l size. unfold Query.listCases.
  assert (match lo_after o with
          | Some a => if String.eqb a "" then Ok None else cursor ← decode a; Ok (Some cursor)
          | None => Ok None
          end = Ok after) as ->.
  { unfold stands_for in Ha. destruct (lo_after o) as [a|]; [|by subst]. destruct (String.eqb a ""); [by subst|].
    destruct Ha as (c & -> & ->). done. }
  cbn [mbind result_bind]. fold l size. eexists. split; [reflexivity|]. cbn [cc_edges cc_hasNextPage cc_endCursor].
  assert ((size < length (take (S size) l))%nat <-> (size < length l)%nat) as Hsz by (rewrite length_take; lia).
  assert ((if bool_decide (size < length (take (S size) l))%nat then take size (take (S size) l) else take (S size) l) = take size l) as ->.
  { case_bool_decide as Hc; [by rewrite take_take, Nat.min_l by lia|].
    rewrite !take_ge; [done| |]; rewrite ?length_take in *; lia. }
  split_and!.
  - rewrite map_map. cbn. apply map_id.
  - apply bool_decide_ext, Hsz.
  - change (@map LoanCase CaseEdge) with (@fmap list _ LoanCase CaseEdge). rewrite fmap_last. by destruct (last (take size l)).
Qed.

Lemma page_size_positive o : (0 < Z.to_nat (clamp_page (lo_first o) DEFAULT_PAGE_SIZE))%nat.
Proof. unfold clamp_page, MAX_PAGE_SIZE. lia. Qed.

Lemma last_take_split {A} n (l : list A) : (0 < n < length l)%nat ->
  exists pre x, last (take n l) = Some x /\ take n l = pre ++ [x].
Proof.
  intros Hn. destruct (last (take n l)) as [x|] eqn:E.
  - apply last_Some in E as [pre E]. by exists pre, x.
  - apply last_None in E. apply (f_equal length) in E. rewrite length_take in E. cbn in E. lia.
Qed.

Lemma encode_nonempty c : encode c <> "".
Proof using utf8_law utf8_empty.
  unfold encodeCaseCursor. intros E. apply (f_equal from_base64) in E. rewrite from_base64_base64 in E.
  apply (f_equal utf8_text) in E. rewrite utf8_law in E. change (from_base64 "") with "" in E. rewrite utf8_empty in E.
  by destruct (toISOString (cu_createdAt c)).
Qed.

(** From any point of the list the rest is visited, in at most as many pages
    as there are rows left. *)
Lemma follow_rest t o w n : forall a after l pre, listable t o w ->
  stands_for a after -> select_cases t o None w = pre ++ l -> select_cases t o after w = l ->
  (length l < n)%nat -> follow n t (with_after o a) w = Ok l.
Proof using utf8_law utf8_empty.
  induction n as [|n IH]; intros a after l pre Hl Ha Hpre Hsel Hn; [lia|].
  destruct (list_page t (with_after o a) after w Ha) as (page & Hp & Hnodes & Hnext & Hend).
  rewrite select_with_after, Hsel in Hnodes, Hnext, Hend. cbn [lo_first with_after] in *.
  set (size := Z.to_nat (clamp_page (lo_first o) DEFAULT_PAGE_SIZE)) in *.
  cbn [Query.follow]. rewrite Hp. cbn [mbind result_bind]. rewrite Hnext, Hnodes. case_bool_decide as Hlt.
  - pose proof (page_size_positive o) as Hpos. fold size in Hpos.
    destruct (last_take_split size l ltac:(lia)) as (pre' & x & Hlast & Htake).
    rewrite Hend, Hlast. cbn [fmap option_fmap option_map].
    change {| lo_status := _; lo_borrowerId := _; lo_first := _; lo_after := Some ?e |} with (with_after o (Some e)).
    assert (select_cases t o None w = (pre ++ pre') ++ x :: drop size l) as Hsplit.
    { rewrite Hpre, <- (take_drop size l), Htake at 1. by rewrite <- !app_assoc. }
    assert (exists k, w_cases w !! k = Some x) as [k Hk].
    { assert (x ∈ select_cases t o None w) as (_ & _ & Hx)%elem_select; [|done].
      rewrite Hsplit. apply elem_of_app. right. by left. }
    rewrite (IH _ (Some (cursor_of x)) (drop size l) ((pre ++ pre') ++ [x])); [| | | | |].
    + cbn. by rewrite take_drop.
    + done.
    + pose proof (decode_encodeCaseCursor _ (li_cursor _ _ _ Hl _ _ Hk)) as Hrt. unfold stands_for.
      rewrite (proj2 (String.eqb_neq _ _) (encode_nonempty _)). by exists (cursor_of x).
    + rewrite Hsplit. by rewrite <- (app_assoc _ [x]).
    + apply (select_after t o w (pre ++ pre')); done.
    + rewrite length_drop. lia.
  - rewrite take_ge by lia. done.
Qed.

(** C29: Following the cursors from the first page on visits every case that
    matches the filters exactly once, newest first, whatever the size of the
    pages; as many requests as there are cases are enough. *)
Theorem pages_visit_every_case_once t o w n :
  listable t o w -> lo_after o = None -> (length (find_rows (wanted t o) (w_cases w)) < n)%nat ->
  exists l, follow n t o w = Ok l /\ l ≡ₚ find_rows (wanted t o) (w_cases w) /\ NoDup l /\ StronglySorted newer l.
Proof using utf8_law utf8_empty.
  intros Hl Ha Hn. exists (select_cases t o None w).
  assert (select_cases t o None w ≡ₚ find_rows (wanted t o) (w_cases w)) as HP.
  { rewrite select_Permutation. unfold find_rows.
    rewrite (filter_ext_in (fun c => wanted t o c && true) (wanted t o)); [done|]. intros c. apply andb_true_r. }
  split_and!; [|done|by apply select_NoDup|apply select_sorted].
  pose proof (follow_rest t o w n None None (select_cases t o None w) [] Hl eq_refl eq_refl eq_refl) as H.
  unfold with_after in H. rewrite <- Ha in H. destruct o. apply H. by rewrite HP.
Qed.
End Pages.

(** ** The timeline *)

Section Timeline.
Context (locale_le : string -> string -> bool) (route_text : Agent.AgentRunRoute -> string).
Notation getTimeline := (getTimeline locale_le route_text).

Definition entry_time (e : TimelineEntry) : Z :=
  match te_detail e with inl ev => Outbox.oe_createdAt ev | inr r => Agent.ar_completedAt r end.

(** The texts of the two times compare like the times. *)
Definition same_precision (times : list Z) : Prop :=
  forall a b, a ∈ times -> b ∈ times -> locale_le (toISOString a) (toISOString b) = (a <=? b).

Definition chronological (l : list TimelineEntry) : Prop := StronglySorted (fun e f => entry_time e <= entry_time f) l.

Lemma insert_entry_Permutation e l : insert_entry locale_le e l ≡ₚ e :: l.
Proof. induction l as [|f l IH]; cbn; [done|]. destruct (locale_le _ _); [done|]. rewrite IH. apply perm_swap. Qed.

Lemma sort_entries_Permutation l : foldr (insert_entry locale_le) [] l ≡ₚ l.
Proof. induction l as [|e l IH]; cbn; [done|]. by rewrite insert_entry_Permutation, IH. Qed.

Lemma insert_entry_sorted times e l :
  same_precision times -> (forall f, f ∈ e :: l -> te_timestamp f = toISOString (entry_time f) /\ entry_time f ∈ times) ->
  chronological l -> chronological (insert_entry locale_le e l).
Proof.
  intros Hc Ht Hs. induction Hs as [|f l Hs IH Hf]; cbn; [by repeat constructor|].
  destruct (Ht e ltac:(by left)) as [-> He]. destruct (Ht f ltac:(right; by left)) as [-> Hft].
  rewrite Hc by done. destruct (Z.leb_spec (entry_time e) (entry_time f)).
  - constructor; [by constructor|]. constructor; [done|]. eapply Forall_impl; [exact Hf|]. intros g. cbn. lia.
  - constructor.
    + apply IH. intros g Hg. apply Ht. apply elem_of_cons in Hg as [->|Hg]; [by left|right; by right].
    + rewrite insert_entry_Permutation. constructor; [lia|done].
Qed.

Lemma sort_entries_sorted times l :
  same_precision times -> (forall f, f ∈ l -> te_timestamp f = toISOString (entry_time f) /\ entry_time f ∈ times) ->
  chronological (foldr (insert_entry locale_le) [] l).
Proof.
  intros Hc. induction l as [|e l IH]; intros Ht; cbn; [constructor|].
  apply (insert_entry_sorted times); [done| |].
  - intros f Hf. rewrite sort_entries_Permutation in Hf. by apply Ht.
  - apply IH. intros f Hf. apply Ht. by right.
Qed.

(** The timeline of a case is exactly its events and its agent runs, each
    once, in the order of time. *)
Theorem timeline_is_chronological t c w :
  same_precision (map Outbox.oe_createdAt (events_of t c w) ++ map Agent.ar_completedAt (runs_of t c w)) ->
  chronological (getTimeline t c w) /\
  map te_detail (getTimeline t c w) ≡ₚ map inl (events_of t c w) ++ map inr (runs_of t c w).
Proof.
  intros Hc. unfold Query.getTimeline. set (conditions := find_rows _ _). split.
  - apply (sort_entries_sorted _ _ Hc). intros f Hf. apply elem_of_app in Hf as [Hf|Hf].
    + apply list_elem_of_fmap in Hf as (e & -> & He). split; [done|]. apply elem_of_app. left. apply list_elem_of_fmap. by exists e.
    + apply list_elem_of_fmap in Hf as (r & -> & Hr). split; [done|]. apply elem_of_app. right. apply list_elem_of_fmap. by exists r.
  - rewrite sort_entries_Permutation. rewrite map_app, !map_map. done.
Qed.
End Timeline.

(** ** Executions *)

Example iso_epoch : toISOString 0 = "1970-01-01T00:00:00.000Z".
Proof. reflexivity. Qed.
Example iso_leap_day : toISOString 1709210096789 = "2024-02-29T12:34:56.789Z".
Proof. vm_compute. reflexivity. Qed.
Example iso_before_year_zero : toISOString (-62198755200000) = "-000001-01-01T00:00:00.000Z".
Proof. vm_compute. reflexivity. Qed.

Definition case_at (id : string) (createdAt : Z) : LoanCase :=
  {| Agent.lc_id := id; Agent.lc_tenantId := "t"; Agent.lc_idempotencyKey := id; Agent.lc_borrowerId := "b";
     Agent.lc_requestedAmount := "1"; Agent.lc_loanType := Activation.CONVENTIONAL; Agent.lc_statedMonthlyIncome := "1";
     Agent.lc_jurisdictionCode := "US-CA"; Agent.lc_status := Agent.DRAFT; Agent.lc_version := 1;
     Agent.lc_createdAt := createdAt; Agent.lc_updatedAt := createdAt |}.
Definition cases0 : World :=
  Agent.put_cases {["a" := case_at "a" 1000; "b" := case_at "b" 1000; "c" := case_at "c" 2000]} AgentExamples.world0.
Definition parse0 (s : string) : option Z :=
  if String.eqb s (toISOString 1000) then Some 1000 else if String.eqb s (toISOString 2000) then Some 2000 else None.
Definition one_by_one : ListCasesOptions :=
  {| lo_status := None; lo_borrowerId := None; lo_first := Some 1; lo_after := None |}.

Lemma cursor_roundtrip_witness :
  decodeCaseCursor id parse0 (encodeCaseCursor id {| cu_createdAt := 1000; cu_id := "a" |}) =
  Ok {| cu_createdAt := 1000; cu_id := "a" |}.
Proof.
  apply (cursor_roundtrip id id parse0); [done|]. split_and!; [vm_compute; reflexivity|discriminate|].
  apply (bool_decide_unpack _). vm_compute. reflexivity.
Defined.

Lemma cases0_listable : listable parse0 (fun _ => 0) "t" one_by_one cases0.
Proof.
  assert (forall k c, w_cases cases0 !! k = Some c -> k = "a" /\ c = case_at "a" 1000 \/
    k = "b" /\ c = case_at "b" 1000 \/ k = "c" /\ c = case_at "c" 2000) as H.
  { intros k c. cbn. rewrite !lookup_insert_Some, lookup_singleton_Some. naive_solver. }
  split; intros k; [intros c|intros c|intros c _; lia|intros k' c c' _ _ _ _ _; by right];
    (intros [[-> ->]|[[-> ->]|[-> ->]]]%H; [reflexivity || (split_and!; [vm_compute; reflexivity|discriminate|
      apply (bool_decide_unpack _); vm_compute; reflexivity])..]).
Qed.

Lemma pages_visit_every_case_once_witness :
  exists l, follow id id parse0 (fun _ => 0) 4 "t" one_by_one cases0 = Ok l /\
    l ≡ₚ find_rows (wanted "t" one_by_one) (w_cases cases0) /\ map lc_id l = ["c"; "b"; "a"].
Proof.
  destruct (pages_visit_every_case_once id id parse0 (fun _ => 0) (fun _ => eq_refl) eq_refl "t" one_by_one cases0 4
    cases0_listable eq_refl) as (l & Hl & HP & _); [vm_compute; lia|].
  exists l. split_and!; [exact Hl|exact HP|]. vm_compute in Hl. injection Hl as <-. reflexivity.
Defined.

(** Two cases of one millisecond, 0.7 and 0.3 of the next one: the cursor of
    the first keeps the millisecond only, and the second is never listed. *)
Theorem cursor_skips_a_case :
  let sub c := if String.eqb (lc_id c) "a" then 300 else 700 in
  option_map (map lc_id) (match follow id id parse0 sub 5 "t" one_by_one cases0 with Ok l => Some l | Err _ => None end) =
    Some ["c"; "b"] /\
  length (find_rows (wanted "t" one_by_one) (w_cases cases0)) = 3%nat.
Proof. split; vm_compute; reflexivity. Qed.

Definition timeline_world : World :=
  Agent.put_runs [{| Agent.ar_tenantId := "t"; Agent.ar_caseId := "c"; Agent.ar_workflowRunId := "wf";
    Agent.ar_route := Agent.PROPOSED_ACTION; Agent.ar_proposedAction := None; Agent.ar_reviewRequested := false;
    Agent.ar_reviewReason := None; Agent.ar_reviewCategory := None; Agent.ar_modelInvocationId := None;
    Agent.ar_modelVersion := None; Agent.ar_promptVersion := None; Agent.ar_startedAt := 1000;
    Agent.ar_completedAt := 2000; Agent.ar_attempts := [] |}]
   (Agent.put_comms (Comms.with_outbox {["e" := Outbox.outbox_row (fun _ k => k) (fun _ => "json") "secret" "e" 1000 "t" "c"
     Outbox.LoanCaseCreated Dsl.VNull]} (Agent.w_comms AgentExamples.world0)) AgentExamples.world0).

(** Texts of one length compare like code units. *)
Definition locale0 (a b : string) : bool := String.leb a b.

Lemma timeline_is_chronological_witness :
  chronological (getTimeline locale0 (fun _ => "PROPOSED_ACTION") "t" "c" timeline_world) /\
  map te_kind (getTimeline locale0 (fun _ => "PROPOSED_ACTION") "t" "c" timeline_world) = [DOMAIN_EVENT; AGENT_RUN].
Proof.
  split; [|vm_compute; reflexivity].
  apply (timeline_is_chronological locale0 (fun _ => "PROPOSED_ACTION") "t" "c" timeline_world).
  assert (map Outbox.oe_createdAt (events_of "t" "c" timeline_world) ++ map Agent.ar_completedAt (runs_of "t" "c" timeline_world)
    = [1000; 2000]) as -> by (vm_compute; reflexivity).
  intros a b Ha Hb. repeat (apply elem_of_cons in Ha as [->|Ha]; [|]); [..|by apply elem_of_nil in Ha];
    (repeat (apply elem_of_cons in Hb as [->|Hb]; [|]); [..|by apply elem_of_nil in Hb]); vm_compute; reflexivity.
Defined.
End QueryTheorems.
