(* ===== verification/AuthTables.v ===== *)
(** * Identity tables, requests and cookies

    The rows of database/entities that authentication reads and writes, the
    state they form with the tables of the case platform, what an HTTP request
    carries, and auth/http-cookie.ts and auth/api-client-secret.ts.  A handler
    is a [Threads.Prog]; the cookies of its response and its requests to the
    identity provider go out as calls.

    Texts are UTF-8.  SHA-256, scrypt and the source of randomness are
    parameters; random values are taken from the supply of generated keys. *)

From Stdlib Require Import Ascii SpecFloat.
From stdpp Require Import gmap strings list.
From S2P Require Import Prelude Encoding BudgetLedger PolicyDsl Concurrency AgentTables Communications.

Module Auth.
Import Threads Encoding.

(** ** Rows *)

Inductive ApiClientRole := PARTNER | REVIEWER.
Inductive ApiClientStatus := CLIENT_ACTIVE | CLIENT_REVOKED.
Inductive PlatformAdminStatus := ADMIN_ACTIVE | ADMIN_REVOKED.
#[export] Instance ApiClientRole_eq : EqDecision ApiClientRole.
Proof. solve_decision. Defined.
#[export] Instance ApiClientStatus_eq : EqDecision ApiClientStatus.
Proof. solve_decision. Defined.
#[export] Instance PlatformAdminStatus_eq : EqDecision PlatformAdminStatus.
Proof. solve_decision. Defined.

Record User := { us_id : string; us_subject : string; us_email : string }.

Record TenantMembership := {
  tm_id : string; tm_tenantId : string; tm_userId : string; tm_role : ApiClientRole }.

Record ApiClient := {
  ak_id : string; ak_tenantId : string; ak_name : string; ak_hashedSecret : string;
  ak_status : ApiClientStatus; ak_role : ApiClientRole }.

Record PlatformAdmin := {
  pa_id : string; pa_name : string; pa_hashedSecret : string; pa_status : PlatformAdminStatus }.

Record OidcSession := {
  os_id : string; os_sessionTokenHash : string; os_csrfTokenHash : string; os_userId : string;
  os_encryptedTokenBundle : string; os_accessExpiresAt : Z; os_expiresAt : Z; os_lastUsedAt : Z }.

Record GuestSandboxSession := {
  gs_id : string; gs_sessionTokenHash : string; gs_csrfTokenHash : string; gs_tenantId : string;
  gs_actorId : string; gs_expiresAt : Z; gs_lastUsedAt : Z }.

(** ** Requests *)

(** The headers authentication looks at; Node joins a repeated one into one
    text. *)
Record HttpRequest := {
  rq_method : option string;
  rq_cookie : option string;
  rq_authorization : option string;
  rq_tenantId : option string;
  rq_csrfToken : option string }.

Record AuthContext := {
  cx_tenantId : string; cx_actorId : string; cx_role : ApiClientRole; cx_correlationId : string }.
Record OidcIdentityContext := { ic_userId : string; ic_subject : string; ic_email : string }.
Record PlatformAdminContext := { pc_adminId : string; pc_adminName : string; pc_correlationId : string }.

Record OidcClaims := { cl_sub : string; cl_email : Dsl.value }.

(** ** Configuration *)

Inductive NodeEnvironment := Development | Production | Test | Staging.

(** The values of the configuration service, each with its default applied
    where the code has one. *)
Record Config := {
  cf_issuer : option string;
  cf_audience : option string;
  cf_clientId : option string;
  cf_clientSecret : option string;
  cf_nodeEnv : NodeEnvironment;
  cf_callbackUrl : string;
  cf_consoleOrigin : string;
  cf_sessionMaxAgeSeconds : Z;
  cf_selfServiceSignup : bool;
  cf_guestTtlSeconds : Z }.

Definition secureCookies (c : Config) : bool :=
  match cf_nodeEnv c with Production | Staging => true | Development | Test => false end.

(** A configured value that is not empty. *)
Definition present (v : option string) : option string := s ← v; if JS.truthy s then Some s else None.

(** ** What goes out *)

(** The answer of the identity provider: no answer, or one that is no JSON; a
    status that is not a success; a JSON text. *)
Inductive HttpReply := NoReply | HttpError (status : Z) | HttpJson (body : Dsl.value).

(** [ck_expires] is the [expires] option, [ck_maxAge] the other one. *)
Record Cookie := {
  ck_name : string; ck_value : string; ck_httpOnly : bool; ck_secure : bool; ck_path : string;
  ck_maxAge : option Z; ck_expires : option Z }.

Inductive Failure :=
| Unauthorized (message : string)
| Forbidden (message : string)
| BadRequest (message : string)
| NotFound (message : string)
| Conflict (message : string)
| UniqueViolation
| OtherError (message : string).

Definition invalid_credentials : Failure := Unauthorized "Invalid or missing API credentials".
Definition not_configured : Failure := Unauthorized "OIDC is not configured".

(** ** The state *)

Record OidcDiscoveryDocument := {
  dd_issuer : string; dd_jwks_uri : string; dd_authorization_endpoint : option string;
  dd_token_endpoint : option string; dd_end_session_endpoint : option string }.

(** The tables, and of the process the promise of the discovery document
    ([discovery]) among the promises made so far ([None] is pending). *)
Record State := {
  a_world : Agent.World;
  a_names : gmap string string;
  a_users : gmap string User;
  a_memberships : gmap string TenantMembership;
  a_clients : gmap string ApiClient;
  a_admins : gmap string PlatformAdmin;
  a_oidc : gmap string OidcSession;
  a_guests : gmap string GuestSandboxSession;
  a_discovery : option nat;
  a_promises : list (option (result Failure OidcDiscoveryDocument)) }.

Definition put_world x (s : State) : State :=
  {| a_world := x; a_names := a_names s; a_users := a_users s; a_memberships := a_memberships s;
     a_clients := a_clients s; a_admins := a_admins s; a_oidc := a_oidc s; a_guests := a_guests s;
     a_discovery := a_discovery s; a_promises := a_promises s |}.
Definition put_names x (s : State) : State :=
  {| a_world := a_world s; a_names := x; a_users := a_users s; a_memberships := a_memberships s;
     a_clients := a_clients s; a_admins := a_admins s; a_oidc := a_oidc s; a_guests := a_guests s;
     a_discovery := a_discovery s; a_promises := a_promises s |}.
Definition put_users x (s : State) : State :=
  {| a_world := a_world s; a_names := a_names s; a_users := x; a_memberships := a_memberships s;
     a_clients := a_clients s; a_admins := a_admins s; a_oidc := a_oidc s; a_guests := a_guests s;
     a_discovery := a_discovery s; a_promises := a_promises s |}.
Definition put_memberships x (s : State) : State :=
  {| a_world := a_world s; a_names := a_names s; a_users := a_users s; a_memberships := x;
     a_clients := a_clients s; a_admins := a_admins s; a_oidc := a_oidc s; a_guests := a_guests s;
     a_discovery := a_discovery s; a_promises := a_promises s |}.
Definition put_clients x (s : State) : State :=
  {| a_world := a_world s; a_names := a_names s; a_users := a_users s; a_memberships := a_memberships s;
     a_clients := x; a_admins := a_admins s; a_oidc := a_oidc s; a_guests := a_guests s;
     a_discovery := a_discovery s; a_promises := a_promises s |}.
Definition put_admins x (s : State) : State :=
  {| a_world := a_world s; a_names := a_names s; a_users := a_users s; a_memberships := a_memberships s;
     a_clients := a_clients s; a_admins := x; a_oidc := a_oidc s; a_guests := a_guests s;
     a_discovery := a_discovery s; a_promises := a_promises s |}.
Definition put_oidc x (s : State) : State :=
  {| a_world := a_world s; a_names := a_names s; a_users := a_users s; a_memberships := a_memberships s;
     a_clients := a_clients s; a_admins := a_admins s; a_oidc := x; a_guests := a_guests s;
     a_discovery := a_discovery s; a_promises := a_promises s |}.
Definition put_guests x (s : State) : State :=
  {| a_world := a_world s; a_names := a_names s; a_users := a_users s; a_memberships := a_memberships s;
     a_clients := a_clients s; a_admins := a_admins s; a_oidc := a_oidc s; a_guests := x;
     a_discovery := a_discovery s; a_promises := a_promises s |}.
Definition put_discovery d ps (s : State) : State :=
  {| a_world := a_world s; a_names := a_names s; a_users := a_users s; a_memberships := a_memberships s;
     a_clients := a_clients s; a_admins := a_admins s; a_oidc := a_oidc s; a_guests := a_guests s;
     a_discovery := d; a_promises := ps |}.

(** [new Date()] *)
Definition now_of (s : State) : Z := Agent.date_now (a_world s).

Inductive Request :=
| SetCookie (c : Cookie)
| ClearCookie (name path : string)
| Fetch (method url : string) (params : list (string * string))
| AwaitPromise (n : nat)
| Redirect (url : string)
| Reject (e : Failure)
| ActAs (c : AuthContext)
| ActAsAdmin (c : PlatformAdminContext)
| Show (body : Dsl.value).
Inductive Reply := Fetched (r : HttpReply) | NothingSaid.

Notation prog := (Prog State Failure Request Reply).

(** What the fetch API returns; the other replies do not come. *)
Definition fetch (method url : string) (params : list (string * string)) : prog HttpReply :=
  r ← call (Fetch method url params);
  mret (match r with Fetched r => r | NothingSaid => NoReply end).

Definition emit (q : Request) : prog unit := _ ← call q; mret tt.

(** [randomUUID()], [randomBytes(n)] and generated keys: the next value of
    the supply. *)
Definition next : M State Failure nat := fun s =>
  let w := a_world s in
  (Ok (Agent.w_supply w), put_world (Agent.put_supply (S (Agent.w_supply w)) w) s).

(** ** Cookies *)

(** Bytes that make up one character beyond ASCII in UTF-8. *)
Definition utf8_extra (b : Z) : option nat :=
  if (192 <=? b) && (b <? 224) then Some 1%nat
  else if (224 <=? b) && (b <? 240) then Some 2%nat
  else if (240 <=? b) && (b <? 248) then Some 3%nat else None.

(** No overlong form, no surrogate, nothing beyond U+10FFFF. *)
Definition utf8_char (bytes : list Z) : bool :=
  match bytes with
  | [a; b] => 194 <=? a
  | [a; b; c] =>
      let p := a mod 16 * 4096 + b mod 64 * 64 + c mod 64 in
      (2048 <=? p) && negb ((55296 <=? p) && (p <=? 57343))
  | [a; b; c; d] =>
      let p := a mod 8 * 262144 + b mod 64 * 4096 + c mod 64 * 64 + d mod 64 in
      (65536 <=? p) && (p <=? 1114111)
  | _ => false
  end.

(** [decodeURIComponent]; [need] more bytes complete the character begun with
    [got].  [None] is a [URIError]. *)
Fixpoint decode_uri (need : nat) (got : list Z) (s : string) : option string :=
  match s with
  | EmptyString => if (need =? 0)%nat then Some EmptyString else None
  | String "%" (String h (String l s')) =>
      match hex_value h, hex_value l with
      | Some h, Some l =>
          let b := h * 16 + l in
          match need with
          | O =>
              if b <? 128 then String (byte_char b) <$> decode_uri 0 [] s'
              else n ← utf8_extra b; decode_uri n [b] s'
          | S n =>
              if (128 <=? b) && (b <? 192) then
                match n with
                | O =>
                    if utf8_char (got ++ [b])
                    then (fun rest => String.string_of_list_ascii (map byte_char (got ++ [b])) +:+ rest) <$> decode_uri 0 [] s'
                    else None
                | S _ => decode_uri n (got ++ [b]) s'
                end
              else None
          end
      | _, _ => None
      end
  | String "%" _ => None
  | String c s' => if (need =? 0)%nat then String c <$> decode_uri 0 [] s' else None
  end.
Definition decodeURIComponent (s : string) : option string := decode_uri 0 [] s.

(** [pair.indexOf('=')] with what is on either side. *)
Fixpoint split_once (sep : ascii) (s : string) : option (string * string) :=
  match s with
  | EmptyString => None
  | String c s =>
      if Ascii.eqb c sep then Some (EmptyString, s)
      else (fun '(a, b) => (String c a, b)) <$> split_once sep s
  end.

Fixpoint find_pair (name : string) (pairs : list string) : option string :=
  match pairs with
  | [] => None
  | p :: pairs =>
      match split_once "=" p with
      | Some (key, value) =>
          if String.eqb (JS.trim key) name then decodeURIComponent (JS.trim value) else find_pair name pairs
      | None => find_pair name pairs
      end
  end.

Definition readCookie (request : HttpRequest) (name : string) : option string :=
  match rq_cookie request with
  | Some header => if JS.truthy header then find_pair name (JS.split_on ";" header) else None
  | None => None
  end.

(** A cookie that is missing or empty. *)
Definition cookie (request : HttpRequest) (name : string) : option string :=
  v ← readCookie request name; if JS.truthy v then Some v else None.

(** ** Credentials in headers *)

Definition drop (n : nat) (s : string) : string := String.substring n (String.length s) s.

(** The token after [Bearer ]; an empty one is falsy. *)
Definition bearer (request : HttpRequest) : option string :=
  match rq_authorization request with
  | Some header => if String.prefix "Bearer " header then Some (JS.trim (drop 7 header)) else None
  | None => None
  end.

Fixpoint all_chars (p : ascii -> bool) (s : string) : bool :=
  match s with EmptyString => true | String c s => p c && all_chars p s end.

Definition is_hex (c : ascii) : bool := bool_decide (is_Some (hex_value c)).

(** The pattern of a UUID: groups of 8, 4, 4, 4 and 12 hexadecimal digits. *)
Definition UUID_PATTERN (s : string) : bool :=
  match JS.split_on "-" s with
  | [a; b; c; d; e] =>
      bool_decide (map String.length [a; b; c; d; e] = [8; 4; 4; 4; 12]%nat) && forallb (all_chars is_hex) [a; b; c; d; e]
  | _ => false
  end.

(** PostgreSQL reads a UUID in either case; the keys of the tables are in
    lower case. *)
Definition uuid (s : string) : string := Comms.toLowerCase s.

(** [token.split('.', 2)] with both parts present and the first a UUID. *)
Definition credential (request : HttpRequest) : option (string * string) :=
  token ← bearer request;
  match JS.split_on "." token with
  | id :: secret :: _ => if JS.truthy id && JS.truthy secret && UUID_PATTERN id then Some (id, secret) else None
  | _ => None
  end.

(** [toUpperCase] on ASCII. *)
Fixpoint upper (s : string) : string :=
  match s with
  | EmptyString => EmptyString
  | String c s =>
      let n := nat_of_ascii c in
      String (if ((97 <=? n) && (n <=? 122))%nat then ascii_of_nat (n - 32) else c) (upper s)
  end.

(** A request that may change something, as [!GET, HEAD, OPTIONS]. *)
Definition unsafe_method (request : HttpRequest) : bool :=
  negb (includes ["GET"; "HEAD"; "OPTIONS"] (default "" (upper <$> rq_method request))).

(** ** Secrets of clients *)

Section Secrets.
Context (scrypt : string -> string -> string).

(** The salt is 16 random bytes. *)
Definition hashApiClientSecret (random secret : string) : string :=
  let salt := to_hex random in salt +:+ ":" +:+ to_hex (scrypt secret salt).

Definition verifyApiClientSecret (secret hashedSecret : string) : bool :=
  match JS.split_on ":" hashedSecret with
  | salt :: digestHex :: _ =>
      JS.truthy salt && JS.truthy digestHex && String.eqb (scrypt secret salt) (from_hex digestHex)
  | _ => false
  end.
End Secrets.
End Auth.
