(* ===== verification/OidcService.v ===== *)
(** * The identity provider

    auth/oidc.service.ts: the discovery document, fetched once and kept as the
    promise of a fetch; the requests for tokens; the verification of tokens.
    The JWT library ([jwt_verify]: the signature under the keys at a URL, the
    issuer and the times) and the building of URLs are parameters.  The values
    of the metadata that are texts in the specification are taken as texts. *)

From Stdlib Require Import Ascii SpecFloat.
From stdpp Require Import gmap strings list.
From S2P Require Import Prelude BudgetLedger PolicyDsl Concurrency AgentTables Communications AuthTables.

Module Oidc.
Import Threads Auth.

Record OidcTokenResponse := {
  tr_access_token : string; tr_expires_in : spec_float; tr_refresh_token : option string;
  tr_refresh_expires_in : option spec_float; tr_id_token : option string }.

Inductive TokenUse := AccessToken | IdToken.
Definition token_use_text (u : TokenUse) : string := match u with AccessToken => "access" | IdToken => "id" end.

(** ** JSON *)

(** A property that is a text, and one that is a text which is not empty. *)
Definition text_of (v : Dsl.value) : option string := match v with Dsl.VString s => Some s | _ => None end.
Definition nonempty_text (v : Dsl.value) : option string := present (text_of v).

(** The property of a parsed body; reading one of [null] throws. *)
Definition body_get (body : Dsl.value) (key : string) : option Dsl.value :=
  match body with
  | Dsl.VNull | Dsl.VUndefined => None
  | Dsl.VObject o => Some (Dsl.get o key)
  | _ => Some Dsl.VUndefined
  end.

(** [typeof x === 'number' && Number.isFinite(x) && x > 0] *)
Definition positive_number (v : Dsl.value) : option spec_float :=
  match v with
  | Dsl.VNumber x => if Dsl.isFinite x && SFltb (Dsl.f64_of_Z 0) x then Some x else None
  | _ => None
  end.

Definition type_error {A} : prog A := fail (OtherError "Cannot read properties of null").

(** ** The service *)

Section Service.
Context (config : Config).
Context (jwt_verify : Z -> string -> string -> string -> option (list (string * Dsl.value))).
Context (with_params : string -> list (string * string) -> option string).

Definition clientId : option string :=
  match cf_clientId config with Some c => Some c | None => cf_audience config end.

(** *** Discovery *)

(** What [fetchDiscoveryDocument] makes of a reply, and whether it takes the
    promise back. *)
Definition discovery_outcome (issuer : string) (reply : HttpReply) : result Failure OidcDiscoveryDocument * bool :=
  match reply with
  | NoReply => (Err (OtherError "fetch failed"), false)
  | HttpError _ => (Err (OtherError "OIDC discovery failed"), true)
  | HttpJson body =>
      match body_get body "issuer", body_get body "jwks_uri" with
      | Some i, Some j =>
          match nonempty_text i, nonempty_text j with
          | Some i, Some j =>
              if negb (String.eqb i issuer)
              then (Err (OtherError "OIDC discovery issuer does not match configuration"), true)
              else
                let optional key := v ← body_get body key; nonempty_text v in
                (Ok {| dd_issuer := i; dd_jwks_uri := j;
                       dd_authorization_endpoint := optional "authorization_endpoint";
                       dd_token_endpoint := optional "token_endpoint";
                       dd_end_session_endpoint := optional "end_session_endpoint" |}, false)
          | _, _ => (Err (OtherError "OIDC discovery document missing issuer/jwks_uri"), true)
          end
      | _, _ => (Err (OtherError "Cannot read properties of null"), false)
      end
  end.

(** [this.discovery = this.fetchDiscoveryDocument()], or the promise that is
    there; [true] when the caller is the one that fetches. *)
Definition join_discovery : M State Failure (nat * bool) := fun s =>
  match a_discovery s with
  | Some n => (Ok (n, false), s)
  | None =>
      let n := length (a_promises s) in
      (Ok (n, true), put_discovery (Some n) (a_promises s ++ [None]) s)
  end.

Definition settle (n : nat) (outcome : result Failure OidcDiscoveryDocument) (reset : bool) : M State Failure unit :=
  modify (fun s => put_discovery (if reset then None else a_discovery s) (<[n := Some outcome]> (a_promises s)) s).

Definition promised (n : nat) (s : State) : option (result Failure OidcDiscoveryDocument) :=
  o ← a_promises s !! n; o.

(** The document a settled promise has; a caller that is woken finds it
    settled. *)
Definition discovered (n : nat) : prog OidcDiscoveryDocument :=
  o ← atomically (gets (promised n));
  match o with
  | Some r => Done r
  | None => fail (OtherError "pending")
  end.

Definition fetchDiscoveryDocument (n : nat) (issuer : string) : prog OidcDiscoveryDocument :=
  reply ← fetch "GET" (issuer +:+ "/.well-known/openid-configuration") [];
  let '(outcome, reset) := discovery_outcome issuer reply in
  _ ← atomically (settle n outcome reset);
  Done outcome.

Definition getDiscoveryDocument : prog OidcDiscoveryDocument :=
  match present (cf_issuer config), present (cf_audience config) with
  | Some issuer, Some _ =>
      p ← atomically join_discovery;
      let '(n, first) := (p : nat * bool) in
      if first then fetchDiscoveryDocument n issuer
      else
        _ ← emit (AwaitPromise n);
        discovered n
  | _, _ => fail not_configured
  end.

(** *** Tokens *)

Definition token_response (body : Dsl.value) : result Failure OidcTokenResponse :=
  match body_get body "access_token", body_get body "expires_in", body_get body "refresh_expires_in",
        body_get body "refresh_token", body_get body "id_token" with
  | Some access, Some expires, Some refreshExpires, Some refresh, Some id =>
      match text_of access, positive_number expires,
            match refreshExpires with Dsl.VUndefined => Some None | v => Some <$> positive_number v end with
      | Some access, Some expires, Some refreshExpires =>
          Ok {| tr_access_token := access; tr_expires_in := expires; tr_refresh_token := text_of refresh;
                tr_refresh_expires_in := refreshExpires; tr_id_token := text_of id |}
      | _, _, _ => Err (Unauthorized "OIDC token exchange failed")
      end
  | _, _, _, _, _ => Err (OtherError "Cannot read properties of null")
  end.

Definition requestTokens (input : list (string * string)) : prog OidcTokenResponse :=
  discovery ← getDiscoveryDocument;
  match present clientId, dd_token_endpoint discovery with
  | Some client, Some endpoint =>
      let secret := match present (cf_clientSecret config) with Some s => [("client_secret", s)] | None => [] end in
      reply ← fetch "POST" endpoint ([("client_id", client)] ++ input ++ secret);
      match reply with
      | NoReply => fail (OtherError "fetch failed")
      | HttpError _ => fail (Unauthorized "OIDC token exchange failed")
      | HttpJson body => Done (token_response body)
      end
  | _, _ => fail not_configured
  end.

Definition exchangeAuthorizationCode (code redirectUri codeVerifier : string) : prog OidcTokenResponse :=
  requestTokens [("grant_type", "authorization_code"); ("code", code); ("redirect_uri", redirectUri);
                 ("code_verifier", codeVerifier)].

Definition refresh (refreshToken : string) : prog OidcTokenResponse :=
  requestTokens [("grant_type", "refresh_token"); ("refresh_token", refreshToken)].

(** *** Verification *)

Definition matchesAudience (payload : list (string * Dsl.value)) (expected : string) : bool :=
  let audiences :=
    match Dsl.get payload "aud" with
    | Dsl.VArray l => omap text_of l
    | Dsl.VString s => [s]
    | _ => []
    end in
  includes audiences expected ||
  match Dsl.get payload "client_id" with Dsl.VString c => String.eqb c expected | _ => false end.

(** What makes a payload that the library verified the claims of a token. *)
Definition accepted_claims (audience : string) (use : TokenUse) (payload : list (string * Dsl.value)) : option OidcClaims :=
  if negb (matchesAudience payload audience) then None
  else if match Dsl.get payload "token_use" with
          | Dsl.VUndefined => false
          | Dsl.VString u => negb (String.eqb u (token_use_text use))
          | _ => true
          end then None
  else
    sub ← nonempty_text (Dsl.get payload "sub");
    Some {| cl_sub := sub; cl_email := Dsl.get payload "email" |}.

Definition claims_of (audience : string) (use : TokenUse) (token : string) (discovery : OidcDiscoveryDocument) (s : State)
  : option OidcClaims :=
  payload ← jwt_verify (now_of s) token (dd_jwks_uri discovery) (dd_issuer discovery);
  accepted_claims audience use payload.

(** Everything that goes wrong is the same refusal. *)
Definition verifyToken (token : string) (use : TokenUse) : prog OidcClaims :=
  match present (cf_issuer config), present (cf_audience config) with
  | Some _, Some audience =>
      pcatch
        (discovery ← getDiscoveryDocument;
         claims ← atomically (gets (claims_of audience use token discovery));
         match claims with Some c => mret c | None => fail invalid_credentials end)
        (fun _ => fail invalid_credentials)
  | _, _ => fail not_configured
  end.

Definition verify (token : string) : prog OidcClaims := verifyToken token AccessToken.
Definition verifyIdToken (token : string) : prog OidcClaims := verifyToken token IdToken.

(** *** URLs *)

Definition invalid_url {A} : prog A := fail (OtherError "Invalid URL").
Definition url (endpoint : string) (params : list (string * string)) : prog string :=
  match with_params endpoint params with Some u => mret u | None => invalid_url end.

Definition buildAuthorizationUrl (redirectUri state codeChallenge : string) : prog string :=
  discovery ← getDiscoveryDocument;
  match present clientId, dd_authorization_endpoint discovery with
  | Some client, Some endpoint =>
      url endpoint [("client_id", client); ("redirect_uri", redirectUri); ("response_type", "code");
        ("scope", "openid email profile"); ("state", state); ("code_challenge", codeChallenge);
        ("code_challenge_method", "S256")]
  | _, _ => fail not_configured
  end.

Definition buildLogoutUrl (idToken : option string) (postLogoutRedirectUri : string) : prog (option string) :=
  discovery ← getDiscoveryDocument;
  match present clientId, dd_end_session_endpoint discovery with
  | Some client, Some endpoint =>
      let hint := match present idToken with Some t => [("id_token_hint", t)] | None => [] end in
      u ← url endpoint ([("client_id", client); ("post_logout_redirect_uri", postLogoutRedirectUri)] ++ hint);
      mret (Some u)
  | _, _ => mret None
  end.
End Service.
End Oidc.
