(* ===== verification/OidcSessions.v ===== *)
(** * Sessions of people

    auth/self-service-provisioning.service.ts and
    auth/oidc-session.service.ts.  [save] of TypeORM reads the row with the
    key, updates what differs and inserts a row that is missing: afterwards the
    row is the entity in memory. *)

From Stdlib Require Import Ascii SpecFloat.
From stdpp Require Import gmap strings list.
From S2P Require Import Prelude Encoding KeyRings BudgetLedger PolicyDsl Concurrency AgentTables Communications AuthTables OidcService.

Module Sessions.
Import Threads Encoding Auth Oidc.

(** ** Dates *)

(** [new Date(ms)]: truncated; invalid beyond 8.64e15. *)
Definition trunc (x : spec_float) : option Z :=
  match x with
  | S754_zero _ => Some 0
  | S754_finite s m e =>
      let a := if 0 <=? e then Zpos m * 2 ^ e else Zpos m / 2 ^ (- e) in
      Some (if s then - a else a)
  | _ => None
  end.
Definition date (x : spec_float) : option Z :=
  z ← trunc x; if Z.abs z <=? 8640000000000000 then Some z else None.

(** [now.getTime() + seconds * 1000] *)
Definition later (now : Z) (seconds : spec_float) : spec_float :=
  SFadd 53 1024 (Dsl.f64_of_Z now) (Dsl.f64_mul seconds (Dsl.f64_of_Z 1000)).

(** The date of [Math.min(cap, x)] for a date [cap]: truncating after the
    minimum with a whole number is the minimum of the truncation. *)
Definition no_later_than (cap : Z) (x : spec_float) : Z :=
  match date x with Some t => Z.min t cap | None => cap end.

(** ** Self-service *)

Section Provisioning.
Context (config : Config) (fresh : nat -> string).

(** [^[^\s@]+@[^\s@]+\.[^\s@]+$]: one [@], no white space, and a dot in the
    domain that is neither its first nor its last character. *)
Definition has_inner_dot (domain : string) : bool :=
  existsb (fun n => bool_decide (String.get n domain = Some "."%char)) (seq 1 (String.length domain - 2)).
Definition EMAIL_PATTERN (s : string) : bool :=
  all_chars (fun c => negb (JS.is_space c)) s &&
  match JS.split_on "@" s with
  | [local; domain] => JS.truthy local && has_inner_dot domain
  | _ => false
  end.

(** [isProvisionable], with the address it finds. *)
Definition isProvisionable (accessClaims : OidcClaims) (identityClaims : option OidcClaims) : option string :=
  claims ← identityClaims;
  email ← text_of (cl_email claims);
  if String.eqb (cl_sub claims) (cl_sub accessClaims) && (String.length email <=? 320)%nat && EMAIL_PATTERN email
  then Some email else None.

Definition has_subject (subject : string) (u : User) : bool := String.eqb (us_subject u) subject.
Definition user_with_subject (subject : string) (s : State) : option User :=
  find_row (has_subject subject) (a_users s).

Definition workspaceName (random : string) : string := "Self-service workspace " +:+ String.substring 0 8 random.

(** A row of [tenants] with nothing configured. *)
Definition new_tenant : Ledger.Tenant :=
  {| Ledger.agentRunStepBudgetOverride := None; Ledger.agentRunDurationBudgetMsOverride := None;
     Ledger.agentMonthlyProviderCallLimit := None; Ledger.agentMonthlyCostLimitMinorUnits := None;
     Ledger.agentBudgetCurrency := None |}.

Definition tenants_of (s : State) : gmap string Ledger.Tenant := Ledger.tenants (Agent.w_budget (a_world s)).

Definition put_tenants x (s : State) : State :=
  let b := Agent.w_budget (a_world s) in
  put_world (Agent.put_budget
    {| Ledger.tenants := x; Ledger.ledgers := Ledger.ledgers b; Ledger.reservations := Ledger.reservations b;
       Ledger.usage := Ledger.usage b |} (a_world s)) s.

(** [tenantRepository.save(create({ name }))] *)
Definition insert_tenant (id name : string) : M State Failure unit :=
  taken ← gets (fun s => bool_decide (is_Some (tenants_of s !! id)));
  _ ← guard_throw taken UniqueViolation;
  modify (fun s => put_names (<[id := name]> (a_names s)) (put_tenants (<[id := new_tenant]> (tenants_of s)) s)).

Definition insert_user (u : User) : M State Failure unit :=
  taken ← gets (fun s => bool_decide (is_Some (a_users s !! us_id u)) ||
                         bool_decide (is_Some (user_with_subject (us_subject u) s)));
  _ ← guard_throw taken UniqueViolation;
  modify (fun s => put_users (<[us_id u := u]> (a_users s)) s).

Definition is_membership (tenantId userId : string) (m : TenantMembership) : bool :=
  String.eqb (tm_tenantId m) tenantId && String.eqb (tm_userId m) userId.
Definition membership_of (tenantId userId : string) (s : State) : option TenantMembership :=
  find_row (is_membership tenantId userId) (a_memberships s).

Definition insert_membership (m : TenantMembership) : M State Failure unit :=
  taken ← gets (fun s => bool_decide (is_Some (a_memberships s !! tm_id m)) ||
                         bool_decide (is_Some (membership_of (tm_tenantId m) (tm_userId m) s)));
  _ ← guard_throw taken UniqueViolation;
  modify (fun s => put_memberships (<[tm_id m := m]> (a_memberships s)) s).

(** The writes of the transaction. *)
Definition provision (subject email : string) : M State Failure User :=
  transaction (
    n ← next; t ← next; u ← next; m ← next;
    let user := {| us_id := fresh u; us_subject := subject; us_email := email |} in
    _ ← insert_tenant (fresh t) (workspaceName (fresh n));
    _ ← insert_user user;
    _ ← insert_membership {| tm_id := fresh m; tm_tenantId := fresh t; tm_userId := fresh u; tm_role := PARTNER |};
    mret user).

Definition isUniqueViolation (e : Failure) : bool := match e with UniqueViolation => true | _ => false end.

Definition resolveUser (accessClaims : OidcClaims) (identityClaims : option OidcClaims) : prog (option User) :=
  let find := atomically (gets (user_with_subject (cl_sub accessClaims))) in
  existing ← find;
  match existing with
  | Some u => mret (Some u)
  | None =>
      if negb (cf_selfServiceSignup config) then mret None
      else
        match isProvisionable accessClaims identityClaims with
        | None => mret None
        | Some email =>
            pcatch
              (concurrentUser ← find;
               match concurrentUser with
               | Some u => mret (Some u)
               | None =>
                   u ← atomically (provision (cl_sub accessClaims) (Comms.toLowerCase (JS.trim email)));
                   mret (Some u)
               end)
              (fun e => if isUniqueViolation e then find else fail e)
        end
  end.
End Provisioning.

(** ** The service *)

Definition OIDC_SESSION_COOKIE : string := "meridian_session".
Definition OIDC_CSRF_COOKIE : string := "meridian_csrf".
Definition LOGIN_STATE_COOKIE : string := "meridian_login_state".
Definition LOGIN_VERIFIER_COOKIE : string := "meridian_login_verifier".
Definition LOGIN_RETURN_COOKIE : string := "meridian_login_return".
Definition LOGIN_COOKIE_PATH : string := "/v1/auth/session".
Definition LOGIN_TTL_MS : Z := 10 * 60 * 1000.
Definition REFRESH_SKEW_MS : Z := 30000.
Definition LAST_USED_WRITE_INTERVAL_MS : Z := 5 * 60 * 1000.

Record OidcSessionIdentity := { id_claims : OidcClaims; id_user : User; id_csrfToken : string }.

Definition validateReturnPath (value : string) : string :=
  if negb (String.prefix "/" value) || String.prefix "//" value then "/" else value.

Section Service.
Context {A : Ciphers.Aead}.
Context (config : Config) (fresh : nat -> string).
(** The hexadecimal SHA-256 digest, 32 random bytes in base64url and 12 random
    bytes, by their position in the supply. *)
Context (hash : string -> string) (token : nat -> string) (nonce : nat -> string).
(** The challenge for a verifier. *)
Context (challenge : string -> string).
Context (jwt_verify : Z -> string -> string -> string -> option (list (string * Dsl.value))).
Context (with_params : string -> list (string * string) -> option string).
(** [new URL(path, origin).toString()] *)
Context (resolve_url : string -> string -> option string).
Context (ring : Ciphers.KeyRing) (bundle_text : Ciphers.TokenBundle -> string)
  (parse_bundle : string -> option Ciphers.TokenBundle).

Notation verify := (verify config jwt_verify).

Definition randomToken : prog string := n ← atomically next; mret (token n).

(** [encrypt] and [decrypt] with the service's ring. *)
Definition encrypt (bundle : Ciphers.TokenBundle) (aad : string) : prog string :=
  n ← atomically next;
  match Ciphers.encryptBundle bundle_text ring (nonce n) bundle aad with
  | Ok text => mret text
  | Err _ => fail (OtherError "OIDC session encryption key unavailable")
  end.
Definition decrypt (value aad : string) : prog Ciphers.TokenBundle :=
  match Ciphers.decryptBundle parse_bundle ring value aad with
  | Ok b => mret b
  | Err _ => fail invalid_credentials
  end.

(** *** Cookies *)

Definition login_cookie (name value : string) : Cookie :=
  {| ck_name := name; ck_value := value; ck_httpOnly := true; ck_secure := secureCookies config;
     ck_path := LOGIN_COOKIE_PATH; ck_maxAge := Some LOGIN_TTL_MS; ck_expires := None |}.
Definition session_cookie (value : string) (expires : Z) : Cookie :=
  {| ck_name := OIDC_SESSION_COOKIE; ck_value := value; ck_httpOnly := true; ck_secure := secureCookies config;
     ck_path := "/"; ck_maxAge := None; ck_expires := Some expires |}.
Definition csrf_cookie (value : string) (expires : Z) : Cookie :=
  {| ck_name := OIDC_CSRF_COOKIE; ck_value := value; ck_httpOnly := false; ck_secure := secureCookies config;
     ck_path := "/"; ck_maxAge := None; ck_expires := Some expires |}.

Definition setSessionCookies (sessionToken csrfToken : string) (expiresAt : Z) : prog unit :=
  _ ← emit (SetCookie (session_cookie sessionToken expiresAt));
  emit (SetCookie (csrf_cookie csrfToken expiresAt)).
Definition clearSessionCookies : prog unit :=
  _ ← emit (ClearCookie OIDC_SESSION_COOKIE "/"); emit (ClearCookie OIDC_CSRF_COOKIE "/").
Definition clearLoginCookies : prog unit :=
  _ ← emit (ClearCookie LOGIN_STATE_COOKIE LOGIN_COOKIE_PATH);
  _ ← emit (ClearCookie LOGIN_VERIFIER_COOKIE LOGIN_COOKIE_PATH);
  emit (ClearCookie LOGIN_RETURN_COOKIE LOGIN_COOKIE_PATH).

(** *** Login *)

Definition beginLogin (returnTo : option string) : prog string :=
  let safeReturnTo := validateReturnPath (default "/" returnTo) in
  state ← randomToken;
  verifier ← randomToken;
  _ ← emit (SetCookie (login_cookie LOGIN_STATE_COOKIE state));
  _ ← emit (SetCookie (login_cookie LOGIN_VERIFIER_COOKIE verifier));
  _ ← emit (SetCookie (login_cookie LOGIN_RETURN_COOKIE safeReturnTo));
  buildAuthorizationUrl config with_params (cf_callbackUrl config) state (challenge verifier).

Definition with_hash (h : string) (r : OidcSession) : bool := String.eqb (os_sessionTokenHash r) h.
Definition session_with_hash (h : string) (s : State) : option OidcSession := find_row (with_hash h) (a_oidc s).

Definition delete_session (id : string) : M State Failure unit :=
  modify (fun s => put_oidc (delete id (a_oidc s)) s).
Definition delete_expired (now : Z) : M State Failure unit :=
  modify (fun s => put_oidc (filter (fun kr => now <= os_expiresAt kr.2) (a_oidc s)) s).
(** [save]: the row as it is in memory, under the unique index on the token's
    hash and the reference to the user. *)
Definition save_session (r : OidcSession) : M State Failure unit :=
  bad ← gets (fun s =>
    negb (bool_decide (is_Some (a_users s !! os_userId r))) ||
    match session_with_hash (os_sessionTokenHash r) s with
    | Some r' => negb (String.eqb (os_id r') (os_id r))
    | None => false
    end);
  _ ← guard_throw bad (OtherError "constraint violation");
  modify (fun s => put_oidc (<[os_id r := r]> (a_oidc s)) s).

Definition bundle_of (t : OidcTokenResponse) : Ciphers.TokenBundle :=
  {| Ciphers.tk_accessToken := tr_access_token t; Ciphers.tk_refreshToken := tr_refresh_token t;
     Ciphers.tk_idToken := tr_id_token t |}.

(** How long the provider lets the session last, in seconds; [None] is the
    configured maximum. *)
Definition provider_lifetime (t : OidcTokenResponse) : option spec_float :=
  match present (tr_refresh_token t) with
  | Some _ => tr_refresh_expires_in t
  | None => Some (tr_expires_in t)
  end.
Definition session_expiry (now : Z) (t : OidcTokenResponse) : Z :=
  let cap := now + cf_sessionMaxAgeSeconds config * 1000 in
  match provider_lifetime t with Some p => no_later_than cap (later now p) | None => cap end.

Definition completeLogin (request : HttpRequest) (code state : string) : prog string :=
  let expectedState := cookie request LOGIN_STATE_COOKIE in
  let verifier := cookie request LOGIN_VERIFIER_COOKIE in
  let returnTo := validateReturnPath (default "/" (readCookie request LOGIN_RETURN_COOKIE)) in
  _ ← clearLoginCookies;
  match expectedState, verifier with
  | Some expectedState, Some verifier =>
      if negb (String.eqb state expectedState) then fail (Unauthorized "OIDC login state is invalid")
      else
        tokens ← exchangeAuthorizationCode config code (cf_callbackUrl config) verifier;
        claims ← verify (tr_access_token tokens);
        identityClaims ← match present (tr_id_token tokens) with
                         | Some t => c ← verifyIdToken config jwt_verify t; mret (Some c)
                         | None => mret None
                         end;
        user ← resolveUser config fresh claims identityClaims;
        match user with
        | None => fail invalid_credentials
        | Some user =>
            now ← atomically (gets now_of);
            sessionToken ← randomToken;
            csrfToken ← randomToken;
            let sessionTokenHash := hash sessionToken in
            let expiresAt := session_expiry now tokens in
            _ ← atomically (delete_expired now);
            text ← encrypt (bundle_of tokens) sessionTokenHash;
            match date (later now (tr_expires_in tokens)) with
            | None => fail (OtherError "invalid date")
            | Some accessExpiresAt =>
                id ← atomically next;
                _ ← atomically (save_session
                      {| os_id := fresh id; os_sessionTokenHash := sessionTokenHash;
                         os_csrfTokenHash := hash csrfToken; os_userId := us_id user;
                         os_encryptedTokenBundle := text; os_accessExpiresAt := accessExpiresAt;
                         os_expiresAt := expiresAt; os_lastUsedAt := now |});
                _ ← setSessionCookies sessionToken csrfToken expiresAt;
                match resolve_url returnTo (cf_consoleOrigin config) with
                | Some u => mret u
                | None => invalid_url
                end
            end
        end
  | _, _ => fail (Unauthorized "OIDC login state is invalid")
  end.

(** *** The session of a request *)

Definition assertCsrf (request : HttpRequest) (cookieToken expectedHash : string) : prog unit :=
  match rq_csrfToken request with
  | Some header =>
      if String.eqb header cookieToken && String.eqb (hash header) expectedHash then mret tt
      else fail invalid_credentials
  | None => fail invalid_credentials
  end.

Definition mergeRefreshedBundle (previous : Ciphers.TokenBundle) (refreshed : OidcTokenResponse) : Ciphers.TokenBundle :=
  {| Ciphers.tk_accessToken := tr_access_token refreshed;
     Ciphers.tk_refreshToken :=
       match tr_refresh_token refreshed with Some t => Some t | None => Ciphers.tk_refreshToken previous end;
     Ciphers.tk_idToken := match tr_id_token refreshed with Some t => Some t | None => Ciphers.tk_idToken previous end |}.

Definition set_csrf (h : string) (r : OidcSession) : OidcSession :=
  {| os_id := os_id r; os_sessionTokenHash := os_sessionTokenHash r; os_csrfTokenHash := h; os_userId := os_userId r;
     os_encryptedTokenBundle := os_encryptedTokenBundle r; os_accessExpiresAt := os_accessExpiresAt r;
     os_expiresAt := os_expiresAt r; os_lastUsedAt := os_lastUsedAt r |}.
Definition set_tokens (text : string) (access expires : Z) (r : OidcSession) : OidcSession :=
  {| os_id := os_id r; os_sessionTokenHash := os_sessionTokenHash r; os_csrfTokenHash := os_csrfTokenHash r;
     os_userId := os_userId r; os_encryptedTokenBundle := text; os_accessExpiresAt := access;
     os_expiresAt := expires; os_lastUsedAt := os_lastUsedAt r |}.
Definition set_last_used (now : Z) (r : OidcSession) : OidcSession :=
  {| os_id := os_id r; os_sessionTokenHash := os_sessionTokenHash r; os_csrfTokenHash := os_csrfTokenHash r;
     os_userId := os_userId r; os_encryptedTokenBundle := os_encryptedTokenBundle r;
     os_accessExpiresAt := os_accessExpiresAt r; os_expiresAt := os_expiresAt r; os_lastUsedAt := now |}.

(** The session with the CSRF token of the request, or with a new one where a
    safe request has none that fits; [true] when it changed. *)
Definition resolve_csrf (request : HttpRequest) (requireCsrf : bool) (session : OidcSession)
  : prog (OidcSession * string * bool) :=
  let renew :=
    if requireCsrf then fail invalid_credentials
    else
      csrfToken ← randomToken;
      _ ← emit (SetCookie (csrf_cookie csrfToken (os_expiresAt session)));
      mret (set_csrf (hash csrfToken) session, csrfToken, true) in
  match cookie request OIDC_CSRF_COOKIE with
  | Some csrfToken =>
      if String.eqb (hash csrfToken) (os_csrfTokenHash session)
      then
        _ ← (if requireCsrf then assertCsrf request csrfToken (os_csrfTokenHash session) else mret tt);
        mret (session, csrfToken, false)
      else renew
  | None => renew
  end.

(** The claims of the session's tokens, refreshed when they are about to
    expire.  A lifetime too long for a date is refused here, and not when the
    row is saved. *)
Definition resolve_claims (now : Z) (sessionTokenHash : string) (session : OidcSession)
  : prog (OidcSession * OidcClaims * bool) :=
  bundle ← decrypt (os_encryptedTokenBundle session) sessionTokenHash;
  if os_accessExpiresAt session <=? now + REFRESH_SKEW_MS then
    match present (Ciphers.tk_refreshToken bundle) with
    | None => fail invalid_credentials
    | Some refreshToken =>
        refreshed ← refresh config refreshToken;
        claims ← verify (tr_access_token refreshed);
        text ← encrypt (mergeRefreshedBundle bundle refreshed) sessionTokenHash;
        let expires :=
          match tr_refresh_expires_in refreshed with
          | Some x => no_later_than (os_expiresAt session) (later now x)
          | None => os_expiresAt session
          end in
        match date (later now (tr_expires_in refreshed)) with
        | None => fail (OtherError "invalid date")
        | Some access => mret (set_tokens text access expires session, claims, true)
        end
    end
  else
    claims ← verify (Ciphers.tk_accessToken bundle);
    mret (session, claims, false).

Definition touch (now : Z) (session : OidcSession) (changed : bool) : OidcSession * bool :=
  if (LAST_USED_WRITE_INTERVAL_MS <=? now - os_lastUsedAt session) ||
     (os_accessExpiresAt session <=? now + REFRESH_SKEW_MS)
  then (set_last_used now session, true) else (session, changed).

Definition authenticateCookie (request : HttpRequest) (requireCsrf : bool) : prog OidcSessionIdentity :=
  match cookie request OIDC_SESSION_COOKIE with
  | None => fail invalid_credentials
  | Some rawSessionToken =>
      let sessionTokenHash := hash rawSessionToken in
      session ← atomically (gets (session_with_hash sessionTokenHash));
      match session with
      | None => fail invalid_credentials
      | Some session =>
          now ← atomically (gets now_of);
          if os_expiresAt session <=? now then
            _ ← atomically (delete_session (os_id session));
            _ ← clearSessionCookies;
            fail invalid_credentials
          else
            c ← resolve_csrf request requireCsrf session;
            let '(session, csrfToken, changed) := (c : OidcSession * string * bool) in
            t ← resolve_claims now sessionTokenHash session;
            let '(session, claims, refreshed) := (t : OidcSession * OidcClaims * bool) in
            user ← atomically (gets (fun s => a_users s !! os_userId session));
            match user with
            | None => fail invalid_credentials
            | Some user =>
                if negb (String.eqb (us_subject user) (cl_sub claims)) then fail invalid_credentials
                else
                  let '(session, sessionChanged) := touch now session (changed || refreshed) in
                  _ ← (if sessionChanged then atomically (save_session session) else mret tt);
                  mret {| id_claims := claims; id_user := user; id_csrfToken := csrfToken |}
            end
      end
  end.

Definition logout (request : HttpRequest) : prog (option string) :=
  let gone := (_ ← clearSessionCookies; mret None) : prog (option string) in
  match cookie request OIDC_SESSION_COOKIE with
  | None => gone
  | Some rawSessionToken =>
      let sessionTokenHash := hash rawSessionToken in
      session ← atomically (gets (session_with_hash sessionTokenHash));
      match session with
      | None => gone
      | Some session =>
          match cookie request OIDC_CSRF_COOKIE with
          | None => fail invalid_credentials
          | Some csrfToken =>
              _ ← assertCsrf request csrfToken (os_csrfTokenHash session);
              bundle ← decrypt (os_encryptedTokenBundle session) sessionTokenHash;
              _ ← atomically (delete_session (os_id session));
              _ ← clearSessionCookies;
              buildLogoutUrl config with_params (Ciphers.tk_idToken bundle) (cf_consoleOrigin config +:+ "/")
          end
      end
  end.
End Service.
End Sessions.
