(* ===== verification/GuestSandbox.v ===== *)
(** * The public sandbox

    database/purge-tenant-data.ts and auth/guest-sandbox.service.ts: a visitor
    gets a tenant of its own with one case, a session for it in a cookie, and
    all of it is deleted when the session has expired.

    The purge is one transaction with the tenant's context; every entity is
    registered in the running system.  The deletions the database adds by
    ON DELETE CASCADE are part of [purge]. *)

From Stdlib Require Import Ascii SpecFloat.
From stdpp Require Import gmap strings list.
From S2P Require Import Prelude Encoding BudgetLedger PolicyDsl PolicyDigest PolicyResolver PolicyEvaluation PolicyActivation Concurrency ProviderTables Outbox Communications AgentTables AuthTables OidcService OidcSessions CaseQuery.

Module Sandbox.
Import Threads Encoding Auth Sessions.

(** ** Deleting a tenant *)

Section Purge.
Context (t : string).

(** [delete({ tenantId })] *)
Definition without {K A} `{Countable K} (tenant : A -> string) (m : gmap K A) : gmap K A :=
  filter (fun kr => tenant kr.2 <> t) m.

(** [delete] of rows that refer to one of [ids]. *)
Definition without_ref {K A} `{Countable K} (ref : A -> string) (ids : list string) (m : gmap K A) : gmap K A :=
  filter (fun kr => ref kr.2 ∉ ids) m.

Definition keys_of {A} (tenant : A -> string) (m : gmap string A) : list string :=
  (map_to_list (filter (fun kr => tenant kr.2 = t) m)).*1.

(** Reservations, ledgers, aggregate usage. *)
Definition purge_budget (b : Ledger.DB) : Ledger.DB :=
  {| Ledger.tenants := Ledger.tenants b;
     Ledger.reservations :=
       without_ref Ledger.rs_ledgerId (keys_of Ledger.lg_tenantId (Ledger.ledgers b))
         (without Ledger.rs_tenantId (Ledger.reservations b));
     Ledger.ledgers := without Ledger.lg_tenantId (Ledger.ledgers b);
     Ledger.usage := filter (fun kr => kr.1.1 <> t) (Ledger.usage b) |}.

(** Runs with their tool attempts, invocations, manifests. *)
Definition purge_runs (w : Agent.World) : Agent.World :=
  Agent.put_manifests (without Agent.em_tenantId (Agent.w_manifests w))
    (Agent.put_invocations (without Agent.mi_tenantId (Agent.w_invocations w))
      (Agent.put_runs (filter (fun r => Agent.ar_tenantId r <> t) (Agent.w_runs w)) w)).

(** Intents, grants, purpose decisions, evidence. *)
Definition purge_provider (db : Tables.Db) : Tables.Db :=
  Tables.with_evidence (without Tables.ev_tenantId (Tables.evidence db))
    (Tables.with_decisions (without Tables.pd_tenantId (Tables.decisions db))
      (Tables.with_grants (without Tables.gr_tenantId (Tables.grants db))
        (Tables.with_intents (without Tables.it_tenantId (Tables.intents db)) db))).

(** Disposition tasks and consents. *)
Definition purge_consents (db : Tables.Db) : Tables.Db :=
  Tables.with_consents (without Tables.cr_tenantId (Tables.consents db))
    (Tables.with_tasks (without Tables.dt_tenantId (Tables.tasks db)) db).

(** Bindings, then snapshots. *)
Definition purge_policy (p : Evaluation.PolicyDb) : Evaluation.PolicyDb :=
  {| Evaluation.generation := Evaluation.generation p; Evaluation.catalog := Evaluation.catalog p;
     Evaluation.bindings := without Evaluation.bd_tenantId (Evaluation.bindings p);
     Evaluation.snapshots := without Evaluation.sn_tenantId (Evaluation.snapshots p) |}.

(** Conditions with their transitions. *)
Definition purge_conditions (w : Agent.World) : Agent.World :=
  let ids := keys_of Agent.cn_tenantId (Agent.w_conditions w) in
  Agent.put_conditions (without Agent.cn_tenantId (Agent.w_conditions w))
    (Agent.put_transitions (filter (fun x => Agent.tr_conditionId x ∉ ids) (Agent.w_transitions w)) w).

Definition purge_outbox (c : Comms.Db) : Comms.Db :=
  Comms.with_outbox (without Outbox.oe_tenantId (Comms.outbox c)) c.
(** Messages; the approvals follow by cascade. *)
Definition purge_messages (c : Comms.Db) : Comms.Db :=
  let ids := keys_of Comms.cm_tenantId (Comms.messages c) in
  Comms.with_messages (without Comms.cm_tenantId (Comms.messages c))
    (Comms.with_approvals (filter (fun a => Comms.ca_communicationMessageId a ∉ ids) (Comms.approvals c)) c).

(** The cases; their evidence and conditions follow by cascade. *)
Definition purge_cases (w : Agent.World) : Agent.World :=
  let ids := keys_of Agent.lc_tenantId (Agent.w_cases w) in
  let conditions := (map_to_list (filter (fun kr => Agent.cn_caseId kr.2 ∈ ids) (Agent.w_conditions w))).*1 in
  let db := Agent.w_tables w in
  Agent.put_cases (without Agent.lc_tenantId (Agent.w_cases w))
    (Agent.put_tables (Tables.with_evidence (without_ref Tables.ev_caseId ids (Tables.evidence db)) db)
      (Agent.put_conditions (without_ref Agent.cn_caseId ids (Agent.w_conditions w))
        (Agent.put_transitions (filter (fun x => Agent.tr_conditionId x ∉ conditions) (Agent.w_transitions w)) w))).

Definition purge_world (w : Agent.World) : Agent.World :=
  let w := Agent.put_budget (purge_budget (Agent.w_budget w)) w in
  let w := purge_runs w in
  let w := Agent.put_tables (purge_provider (Agent.w_tables w)) w in
  let w := Agent.put_comms (purge_outbox (Agent.w_comms w)) w in
  let w := Agent.put_policy (purge_policy (Agent.w_policy w)) w in
  let w := purge_conditions w in
  let w := Agent.put_tables (purge_consents (Agent.w_tables w)) w in
  let w := Agent.put_comms (purge_messages (Agent.w_comms w)) w in
  purge_cases w.

(** The tenant itself; its sandbox sessions follow by cascade. *)
Definition purge_tenant (s : State) : State :=
  put_guests (without gs_tenantId (a_guests s))
    (put_names (delete t (a_names s)) (put_tenants (delete t (tenants_of s)) s)).

Definition purge (s : State) : State := purge_tenant (put_world (purge_world (a_world s)) s).

Definition purgeTenantData : prog unit := atomically (modify purge).
End Purge.

(** ** The service *)

Definition GUEST_SANDBOX_COOKIE : string := "meridian_guest_sandbox".
Definition GUEST_SANDBOX_CSRF_COOKIE : string := "meridian_guest_sandbox_csrf".

Record CreateGuestSandboxSessionDto := {
  sc_requestedAmount : option spec_float; sc_statedMonthlyIncome : option spec_float }.

Definition in_range (max : Z) (v : option spec_float) : bool :=
  match v with
  | None => true
  | Some x => SFltb (Dsl.f64_of_Z 0) x && SFleb x (Dsl.f64_of_Z max)
  end.
(** The constraints of the validation pipe. *)
Definition valid_scenario (dto : CreateGuestSandboxSessionDto) : bool :=
  in_range 10000000 (sc_requestedAmount dto) && in_range 1000000 (sc_statedMonthlyIncome dto).

Record GuestSandboxSummary := {
  gu_authenticated : bool; gu_tenantId : option string; gu_actorId : option string; gu_csrfToken : option string;
  gu_expiresAt : option string; gu_caseId : option string }.

Section Service.
Context (config : Config) (fresh : nat -> string) (hash : string -> string) (token : nat -> string).
Context (numeric_14_2 : spec_float -> option string).

Definition uuid4 : prog string := n ← atomically next; mret (fresh n).
Definition randomToken : prog string := n ← atomically next; mret (token n).

(** *** Cookies *)

Definition guest_cookie (name value : string) (httpOnly : bool) (expires : Z) : Cookie :=
  {| ck_name := name; ck_value := value; ck_httpOnly := httpOnly; ck_secure := secureCookies config; ck_path := "/";
     ck_maxAge := None; ck_expires := Some expires |}.
Definition setCookies (sessionToken csrfToken : string) (expiresAt : Z) : prog unit :=
  _ ← emit (SetCookie (guest_cookie GUEST_SANDBOX_COOKIE sessionToken true expiresAt));
  emit (SetCookie (guest_cookie GUEST_SANDBOX_CSRF_COOKIE csrfToken false expiresAt)).
Definition clearCookies : prog unit :=
  _ ← emit (ClearCookie GUEST_SANDBOX_COOKIE "/"); emit (ClearCookie GUEST_SANDBOX_CSRF_COOKIE "/").

(** *** Creation *)

Definition constraint_violation : Failure := OtherError "constraint violation".

Definition seed_amount (n : Z) (scenario : option spec_float) : spec_float := default (Dsl.f64_of_Z n) scenario.

Definition insert_case (c : Agent.LoanCase) : M State Failure unit :=
  bad ← gets (fun s =>
    let w := a_world s in
    bool_decide (is_Some (Agent.w_cases w !! Agent.lc_id c)) ||
    bool_decide (is_Some (find_row (fun c' => String.eqb (Agent.lc_tenantId c') (Agent.lc_tenantId c) &&
      String.eqb (Agent.lc_idempotencyKey c') (Agent.lc_idempotencyKey c)) (Agent.w_cases w))) ||
    negb (bool_decide (is_Some (Resolver.c_jurisdictions (Evaluation.catalog (Agent.w_policy w)) !!
      Agent.lc_jurisdictionCode c))) ||
    negb (bool_decide (is_Some (tenants_of s !! Agent.lc_tenantId c))));
  _ ← guard_throw bad constraint_violation;
  modify (fun s => let w := a_world s in
    put_world (Agent.put_cases (<[Agent.lc_id c := c]> (Agent.w_cases w)) w) s).

Definition insert_consent (r : Tables.ConsentRecord) : M State Failure unit :=
  taken ← gets (fun s => bool_decide (is_Some (Tables.consents (Agent.w_tables (a_world s)) !! Tables.cr_id r)));
  _ ← guard_throw taken constraint_violation;
  modify (fun s => let w := a_world s in let db := Agent.w_tables w in
    put_world (Agent.put_tables (Tables.with_consents (<[Tables.cr_id r := r]> (Tables.consents db)) db) w) s).

Definition seed_case (id key borrower tenantId amount income : string) (now : Z) : Agent.LoanCase :=
  {| Agent.lc_id := id; Agent.lc_tenantId := tenantId; Agent.lc_idempotencyKey := "portfolio-sandbox-" +:+ key;
     Agent.lc_borrowerId := "synthetic-borrower-" +:+ String.substring 0 8 borrower;
     Agent.lc_requestedAmount := amount; Agent.lc_loanType := Activation.CONVENTIONAL;
     Agent.lc_statedMonthlyIncome := income; Agent.lc_jurisdictionCode := "US-CA"; Agent.lc_status := Agent.DRAFT;
     Agent.lc_version := 1; Agent.lc_createdAt := now; Agent.lc_updatedAt := now |}.

Definition seed_consent (id tenantId caseId : string) (now : Z) : Tables.ConsentRecord :=
  {| Tables.cr_id := id; Tables.cr_tenantId := tenantId; Tables.cr_caseId := caseId;
     Tables.cr_purpose := "UNDERWRITING_EVIDENCE"; Tables.cr_scope := "INCOME,CREDIT,DOCUMENT,ASSET,IDENTITY";
     Tables.cr_permittedPurposes := ["UNDERWRITING_EVIDENCE"];
     Tables.cr_permittedDataClasses := ["INCOME"; "CREDIT"; "DOCUMENT"; "ASSET"; "IDENTITY"];
     Tables.cr_grantedAt := now; Tables.cr_expiresAt := None; Tables.cr_revokedAt := None;
     Tables.cr_revocationReason := None; Tables.cr_createdAt := now |}.

Definition seedCase (tenantId : string) (scenario : CreateGuestSandboxSessionDto) : M State Failure Agent.LoanCase :=
  key ← next; borrower ← next; id ← next; consent ← next;
  amount ← or_throw (numeric_14_2 (seed_amount 425000 (sc_requestedAmount scenario))) (OtherError "numeric overflow");
  income ← or_throw (numeric_14_2 (seed_amount 1 (sc_statedMonthlyIncome scenario))) (OtherError "numeric overflow");
  dbnow ← gets (fun s => Agent.w_dbclock (a_world s));
  now ← gets now_of;
  let c := seed_case (fresh id) (fresh key) (fresh borrower) tenantId amount income dbnow in
  _ ← insert_case c;
  _ ← insert_consent (seed_consent (fresh consent) tenantId (fresh id) now);
  mret c.

Definition guest_with_hash (h : string) (s : State) : option GuestSandboxSession :=
  find_row (fun r => String.eqb (gs_sessionTokenHash r) h) (a_guests s).

(** [save]: the row as it is in memory, under the unique index and the
    reference to the tenant. *)
Definition save_guest (r : GuestSandboxSession) : M State Failure unit :=
  bad ← gets (fun s =>
    negb (bool_decide (is_Some (tenants_of s !! gs_tenantId r))) ||
    match guest_with_hash (gs_sessionTokenHash r) s with
    | Some r' => negb (String.eqb (gs_id r') (gs_id r))
    | None => false
    end);
  _ ← guard_throw bad constraint_violation;
  modify (fun s => put_guests (<[gs_id r := r]> (a_guests s)) s).

Definition delete_guest (id : string) : M State Failure unit :=
  modify (fun s => put_guests (delete id (a_guests s)) s).

Definition expired_guests (s : State) : list GuestSandboxSession :=
  find_rows (fun r => gs_expiresAt r <? now_of s) (a_guests s).

Fixpoint purge_all (sessions : list GuestSandboxSession) (purged : nat) : prog nat :=
  match sessions with
  | [] => mret purged
  | session :: sessions =>
      _ ← purgeTenantData (gs_tenantId session);
      _ ← atomically (delete_guest (gs_id session));
      purge_all sessions (S purged)
  end.
Definition purgeExpiredSessions : prog nat :=
  expired ← atomically (gets expired_guests);
  purge_all expired 0.

(** The transaction of [create]. *)
Definition open_sandbox (actorId sessionTokenHash csrfTokenHash : string) (now expiresAt : Z)
    (scenario : CreateGuestSandboxSessionDto) : M State Failure (string * Agent.LoanCase) :=
  transaction (
    name ← next; t ← next;
    let tenantId := fresh t in
    _ ← insert_tenant tenantId ("Portfolio sandbox " +:+ String.substring 0 8 (fresh name));
    seededCase ← seedCase tenantId scenario;
    id ← next;
    _ ← save_guest
          {| gs_id := fresh id; gs_sessionTokenHash := sessionTokenHash; gs_csrfTokenHash := csrfTokenHash;
             gs_tenantId := tenantId; gs_actorId := actorId; gs_expiresAt := expiresAt; gs_lastUsedAt := now |};
    mret (tenantId, seededCase)).

Definition create (scenario : CreateGuestSandboxSessionDto) : prog GuestSandboxSummary :=
  if negb (valid_scenario scenario) then fail (BadRequest "validation failed")
  else
    _ ← purgeExpiredSessions;
    actorId ← uuid4;
    now ← atomically (gets now_of);
    let expiresAt := now + cf_guestTtlSeconds config * 1000 in
    sessionToken ← randomToken;
    csrfToken ← randomToken;
    r ← atomically (open_sandbox actorId (hash sessionToken) (hash csrfToken) now expiresAt scenario);
    let '(tenantId, seededCase) := (r : string * Agent.LoanCase) in
    _ ← setCookies sessionToken csrfToken expiresAt;
    mret {| gu_authenticated := true; gu_tenantId := Some tenantId; gu_actorId := Some actorId;
            gu_csrfToken := Some csrfToken; gu_expiresAt := Some (Query.toISOString expiresAt);
            gu_caseId := Some (Agent.lc_id seededCase) |}.

(** *** The session of a request *)

Definition set_guest_csrf (h : string) (r : GuestSandboxSession) : GuestSandboxSession :=
  {| gs_id := gs_id r; gs_sessionTokenHash := gs_sessionTokenHash r; gs_csrfTokenHash := h;
     gs_tenantId := gs_tenantId r; gs_actorId := gs_actorId r; gs_expiresAt := gs_expiresAt r;
     gs_lastUsedAt := gs_lastUsedAt r |}.

(** The header repeats the cookie, and both are the session's. *)
Definition check_csrf (request : HttpRequest) (csrfToken : string) (session : GuestSandboxSession) : bool :=
  match rq_csrfToken request with
  | Some header => String.eqb header csrfToken && String.eqb (hash header) (gs_csrfTokenHash session)
  | None => false
  end.

Definition unexpired (now : Z) (found : option GuestSandboxSession) : option GuestSandboxSession :=
  r ← found; if gs_expiresAt r <=? now then None else Some r.

(** The CSRF cookie, if it is the session's. *)
Definition fitting_csrf (request : HttpRequest) (session : GuestSandboxSession) : option string :=
  c ← cookie request GUEST_SANDBOX_CSRF_COOKIE;
  if String.eqb (hash c) (gs_csrfTokenHash session) then Some c else None.

Definition resolve (request : HttpRequest) (requireCsrf : bool) : prog (GuestSandboxSession * string) :=
  match cookie request GUEST_SANDBOX_COOKIE with
  | None => fail invalid_credentials
  | Some rawToken =>
      found ← atomically (gets (guest_with_hash (hash rawToken)));
      now ← atomically (gets now_of);
      match unexpired now found with
      | None => _ ← clearCookies; fail invalid_credentials
      | Some session =>
          match fitting_csrf request session with
          | None =>
              if requireCsrf then fail invalid_credentials
              else
                csrfToken ← randomToken;
                let session := set_guest_csrf (hash csrfToken) session in
                _ ← atomically (save_guest session);
                _ ← emit (SetCookie (guest_cookie GUEST_SANDBOX_CSRF_COOKIE csrfToken false (gs_expiresAt session)));
                mret (session, csrfToken)
          | Some csrfToken =>
              if requireCsrf && negb (check_csrf request csrfToken session) then fail invalid_credentials
              else mret (session, csrfToken)
          end
      end
  end.

Definition authenticate (request : HttpRequest) (requireCsrf : bool) : prog AuthContext :=
  r ← resolve request requireCsrf;
  correlationId ← uuid4;
  let session := fst (r : GuestSandboxSession * string) in
  mret {| cx_tenantId := gs_tenantId session; cx_actorId := gs_actorId session; cx_role := REVIEWER;
          cx_correlationId := correlationId |}.

Definition nobody : GuestSandboxSummary :=
  {| gu_authenticated := false; gu_tenantId := None; gu_actorId := None; gu_csrfToken := None; gu_expiresAt := None;
     gu_caseId := None |}.

Definition getSession (request : HttpRequest) : prog GuestSandboxSummary :=
  pcatch
    (r ← resolve request false;
     let '(session, csrfToken) := (r : GuestSandboxSession * string) in
     mret {| gu_authenticated := true; gu_tenantId := Some (gs_tenantId session);
             gu_actorId := Some (gs_actorId session); gu_csrfToken := Some csrfToken;
             gu_expiresAt := Some (Query.toISOString (gs_expiresAt session)); gu_caseId := None |})
    (fun e => match e with Unauthorized _ => mret nobody | e => fail e end).

Definition logout (request : HttpRequest) : prog unit :=
  r ← resolve request true;
  _ ← atomically (delete_guest (gs_id (fst (r : GuestSandboxSession * string))));
  clearCookies.

Definition createAdditionalCase (request : HttpRequest) (scenario : CreateGuestSandboxSessionDto) : prog string :=
  if negb (valid_scenario scenario) then fail (BadRequest "validation failed")
  else
    c ← authenticate request true;
    loanCase ← atomically (transaction (seedCase (cx_tenantId c) scenario));
    mret (Agent.lc_id loanCase).
End Service.
End Sandbox.
