(* ===== verification/AuthGuards.v ===== *)
(** * Guards

    The guards of auth/ (API clients, people, sandbox visitors, their
    composition, roles, platform administrators), the services that issue
    credentials, auth/tenant-membership-directory.service.ts, and the endpoints
    of auth/auth.controller.ts and auth/guest-sandbox.controller.ts.  What an
    endpoint behind the guards does is [ActAs]: from here the tenant of the
    context is the tenant the other services serve. *)

From Stdlib Require Import Ascii SpecFloat.
From stdpp Require Import gmap strings list.
From S2P Require Import Prelude Encoding KeyRings BudgetLedger PolicyDsl PolicyDigest PolicyResolver PolicyEvaluation PolicyActivation Concurrency ProviderTables Outbox Communications AgentTables AuthTables OidcService OidcSessions GuestSandbox.

Module Guards.
Import Threads Encoding Auth Oidc Sessions.

Record TenantMembershipSummary := { ts_tenantId : string; ts_tenantName : string; ts_role : ApiClientRole }.
Definition role_text (r : ApiClientRole) : string := match r with PARTNER => "PARTNER" | REVIEWER => "REVIEWER" end.

Section Guards.
Context {A : Ciphers.Aead}.
Context (config : Config) (fresh : nat -> string).
Context (hash : string -> string) (token : nat -> string) (nonce : nat -> string) (challenge : string -> string).
Context (jwt_verify : Z -> string -> string -> string -> option (list (string * Dsl.value))).
Context (with_params : string -> list (string * string) -> option string).
Context (resolve_url : string -> string -> option string).
Context (ring : Ciphers.KeyRing) (bundle_text : Ciphers.TokenBundle -> string)
  (parse_bundle : string -> option Ciphers.TokenBundle).
Context (scrypt : string -> string -> string) (numeric_14_2 : spec_float -> option string).
(** [left.localeCompare(right)], negative or not. *)
Context (localeCompare : string -> string -> comparison).

Notation verify := (verify config jwt_verify).
Notation authenticateCookie := (authenticateCookie config hash token nonce jwt_verify ring bundle_text parse_bundle).

Definition randomUUID : prog string := n ← atomically next; mret (fresh n).

(** ** API clients and platform administrators *)

Definition ApiKeyGuard (request : HttpRequest) : prog AuthContext :=
  match credential request with
  | None => fail invalid_credentials
  | Some (clientId, secret) =>
      client ← atomically (gets (fun s => a_clients s !! uuid clientId));
      match client with
      | Some c =>
          if bool_decide (ak_status c = CLIENT_ACTIVE) && verifyApiClientSecret scrypt secret (ak_hashedSecret c)
          then
            correlationId ← randomUUID;
            mret {| cx_tenantId := ak_tenantId c; cx_actorId := ak_id c; cx_role := ak_role c;
                    cx_correlationId := correlationId |}
          else fail invalid_credentials
      | None => fail invalid_credentials
      end
  end.

Definition invalid_admin : Failure := Unauthorized "Invalid or missing admin credentials".

Definition PlatformAdminGuard (request : HttpRequest) : prog PlatformAdminContext :=
  match credential request with
  | None => fail invalid_admin
  | Some (adminId, secret) =>
      admin ← atomically (gets (fun s => a_admins s !! uuid adminId));
      match admin with
      | Some a =>
          if bool_decide (pa_status a = ADMIN_ACTIVE) && verifyApiClientSecret scrypt secret (pa_hashedSecret a)
          then
            correlationId ← randomUUID;
            mret {| pc_adminId := pa_id a; pc_adminName := pa_name a; pc_correlationId := correlationId |}
          else fail invalid_admin
      | None => fail invalid_admin
      end
  end.

(** ** People *)

Definition user_of_token (t : string) : prog (option User) :=
  claims ← verify t;
  atomically (gets (user_with_subject (cl_sub claims))).

Definition OidcGuard (request : HttpRequest) : prog AuthContext :=
  match (t ← rq_tenantId request; if JS.truthy t && UUID_PATTERN t then Some t else None) with
  | None => fail invalid_credentials
  | Some tenantId =>
      user ← match present (bearer request) with
             | Some t => user_of_token t
             | None =>
                 identity ← authenticateCookie request (unsafe_method request);
                 mret (Some (id_user identity))
             end;
      match user with
      | None => fail invalid_credentials
      | Some user =>
          membership ← atomically (gets (membership_of (uuid tenantId) (us_id user)));
          match membership with
          | None => fail invalid_credentials
          | Some m =>
              correlationId ← randomUUID;
              mret {| cx_tenantId := tenantId; cx_actorId := us_id user; cx_role := tm_role m;
                      cx_correlationId := correlationId |}
          end
      end
  end.

Definition OidcIdentityGuard (request : HttpRequest) : prog OidcIdentityContext :=
  user ← match present (bearer request) with
         | Some t => user_of_token t
         | None =>
             identity ← authenticateCookie request false;
             mret (Some (id_user identity))
         end;
  match user with
  | None => fail invalid_credentials
  | Some u => mret {| ic_userId := us_id u; ic_subject := us_subject u; ic_email := us_email u |}
  end.

(** ** The composition *)

Definition GuestSandboxGuard (request : HttpRequest) : prog AuthContext :=
  Sandbox.authenticate config fresh hash token request (unsafe_method request).

Definition TenantAuthGuard (request : HttpRequest) : prog AuthContext :=
  pcatch (ApiKeyGuard request) (fun _ =>
    pcatch (OidcGuard request) (fun _ => GuestSandboxGuard request)).

(** A rejection is recorded before it is reported; [recorded] is whether the
    record could be written. *)
Definition RoleGuard (recorded : bool) (required : list ApiClientRole) (route : string) (c : AuthContext) : prog unit :=
  match required with
  | [] => mret tt
  | _ =>
      if bool_decide (cx_role c ∈ required) then mret tt
      else
        _ ← atomically (zoom (fun s => Agent.w_tables (a_world s))
              (fun db s => put_world (Agent.put_tables db (a_world s)) s) (fun _ => OtherError "audit")
              (Tables.audit recorded {| Tables.ae_tenantId := cx_tenantId c; Tables.ae_actorId := cx_actorId c;
                                        Tables.ae_action := "RBAC_REJECTED"; Tables.ae_resourceId := route |}));
        fail (Forbidden ("This action requires one of these roles: " +:+
                         String.concat ", " (map role_text required)))
  end.

(** ** Issuing credentials *)

Definition generateApiClientSecret : prog string := n ← atomically next; mret (to_hex (token n)).

Definition create_client (tenantId name : string) (role : option ApiClientRole) : prog (ApiClient * string) :=
  secret ← generateApiClientSecret;
  salt ← atomically next;
  id ← atomically next;
  let client :=
    {| ak_id := fresh id; ak_tenantId := tenantId; ak_name := name;
       ak_hashedSecret := hashApiClientSecret scrypt (token salt) secret;
       ak_status := CLIENT_ACTIVE; ak_role := default PARTNER role |} in
  _ ← atomically (modify (fun s => put_clients (<[ak_id client := client]> (a_clients s)) s));
  mret (client, ak_id client +:+ "." +:+ secret).

Definition set_secret (hashed : string) (c : ApiClient) : ApiClient :=
  {| ak_id := ak_id c; ak_tenantId := ak_tenantId c; ak_name := ak_name c; ak_hashedSecret := hashed;
     ak_status := ak_status c; ak_role := ak_role c |}.
Definition set_revoked (c : ApiClient) : ApiClient :=
  {| ak_id := ak_id c; ak_tenantId := ak_tenantId c; ak_name := ak_name c; ak_hashedSecret := ak_hashedSecret c;
     ak_status := CLIENT_REVOKED; ak_role := ak_role c |}.

(** [save]: the row as it is in memory. *)
Definition save_client (c : ApiClient) : M State Failure unit :=
  modify (fun s => put_clients (<[ak_id c := c]> (a_clients s)) s).

Definition find_client (id : string) : prog ApiClient :=
  client ← atomically (gets (fun s => a_clients s !! uuid id));
  match client with
  | Some c => mret c
  | None => fail (NotFound ("API client " +:+ id +:+ " not found"))
  end.

Definition rotate (id : string) : prog (ApiClient * string) :=
  client ← find_client id;
  if negb (bool_decide (ak_status client = CLIENT_ACTIVE))
  then fail (Conflict ("API client " +:+ id +:+ " is not active"))
  else
    secret ← generateApiClientSecret;
    salt ← atomically next;
    let client := set_secret (hashApiClientSecret scrypt (token salt) secret) client in
    _ ← atomically (save_client client);
    mret (client, ak_id client +:+ "." +:+ secret).

Definition revoke (id : string) : prog ApiClient :=
  client ← find_client id;
  if bool_decide (ak_status client = CLIENT_REVOKED) then mret client
  else
    _ ← atomically (save_client (set_revoked client));
    mret (set_revoked client).

Definition create_admin (name : string) : prog (PlatformAdmin * string) :=
  secret ← generateApiClientSecret;
  salt ← atomically next;
  id ← atomically next;
  let admin :=
    {| pa_id := fresh id; pa_name := name; pa_hashedSecret := hashApiClientSecret scrypt (token salt) secret;
       pa_status := ADMIN_ACTIVE |} in
  _ ← atomically (modify (fun s => put_admins (<[pa_id admin := admin]> (a_admins s)) s));
  mret (admin, pa_id admin +:+ "." +:+ secret).

(** ** The directory of memberships *)

Definition before (l r : TenantMembershipSummary) : bool :=
  match localeCompare (ts_tenantName l) (ts_tenantName r) with
  | Lt => true | Gt => false
  | Eq => match localeCompare (ts_tenantId l) (ts_tenantId r) with Gt => false | _ => true end
  end.
Fixpoint insert_summary (x : TenantMembershipSummary) (l : list TenantMembershipSummary) : list TenantMembershipSummary :=
  match l with
  | [] => [x]
  | y :: l' => if before x y then x :: l else y :: insert_summary x l'
  end.

Definition listForUser (userId : string) : prog (list TenantMembershipSummary) :=
  memberships ← atomically (gets (fun s => find_rows (fun m => String.eqb (tm_userId m) userId) (a_memberships s)));
  match memberships with
  | [] => mret []
  | memberships =>
      names ← atomically (gets a_names);
      mret (foldr insert_summary []
        (omap (fun m => (fun name => {| ts_tenantId := tm_tenantId m; ts_tenantName := name; ts_role := tm_role m |})
                 <$> (names : gmap string string) !! tm_tenantId m) memberships))
  end.

(** ** Endpoints *)

(** What requests, operators and the worker's timer start. *)
Inductive Op :=
| OpBeginLogin (returnTo : option string)
| OpCallback (request : HttpRequest) (code state : option string)
| OpSession (request : HttpRequest)
| OpLogout (request : HttpRequest)
| OpTenants (request : HttpRequest)
| OpGuestCreate (scenario : Sandbox.CreateGuestSandboxSessionDto)
| OpGuestSession (request : HttpRequest)
| OpGuestLogout (request : HttpRequest)
| OpGuestCase (request : HttpRequest) (scenario : Sandbox.CreateGuestSandboxSessionDto)
| OpGuestPurge
| OpTenantRoute (request : HttpRequest) (required : list ApiClientRole) (route : string) (recorded : bool)
| OpAdminRoute (request : HttpRequest)
| OpCreateClient (tenantId name : string) (role : option ApiClientRole)
| OpRotateClient (id : string)
| OpRevokeClient (id : string)
| OpCreateAdmin (name : string).

Definition text_option (v : option string) : Dsl.value := match v with Some s => Dsl.VString s | None => Dsl.VNull end.

Definition summary_value (m : TenantMembershipSummary) : Dsl.value :=
  Dsl.VObject [("tenantId", Dsl.VString (ts_tenantId m)); ("tenantName", Dsl.VString (ts_tenantName m));
    ("role", Dsl.VString (role_text (ts_role m)))].

Definition guest_value (g : Sandbox.GuestSandboxSummary) : Dsl.value :=
  let field name v := match v with Some s => [(name, Dsl.VString s)] | None => [] end in
  Dsl.VObject ([("authenticated", Dsl.VBool (Sandbox.gu_authenticated g))] ++
    field "tenantId" (Sandbox.gu_tenantId g) ++ field "actorId" (Sandbox.gu_actorId g) ++
    field "csrfToken" (Sandbox.gu_csrfToken g) ++ field "expiresAt" (Sandbox.gu_expiresAt g) ++
    field "caseId" (Sandbox.gu_caseId g)).

Definition getSession (request : HttpRequest) : prog Dsl.value :=
  pcatch
    (identity ← authenticateCookie request false;
     memberships ← listForUser (us_id (id_user identity));
     mret (Dsl.VObject [("authenticated", Dsl.VBool true); ("userId", Dsl.VString (us_id (id_user identity)));
       ("email", Dsl.VString (us_email (id_user identity))); ("csrfToken", Dsl.VString (id_csrfToken identity));
       ("memberships", Dsl.VArray (map summary_value memberships))]))
    (fun e => match e with
              | Unauthorized _ => mret (Dsl.VObject [("authenticated", Dsl.VBool false); ("memberships", Dsl.VArray [])])
              | e => fail e
              end).

Definition completeSessionLogin (request : HttpRequest) (code state : option string) : prog string :=
  match present code, present state with
  | Some code, Some state =>
      completeLogin config fresh hash token nonce jwt_verify resolve_url ring bundle_text request code state
  | _, _ => fail (BadRequest "OIDC callback requires code and state")
  end.

(** The answer of an endpoint, before it is sent. *)
Definition serve (op : Op) : prog Request :=
  match op with
  | OpBeginLogin returnTo => u ← beginLogin config token challenge with_params returnTo; mret (Redirect u)
  | OpCallback request code state => u ← completeSessionLogin request code state; mret (Redirect u)
  | OpSession request => v ← getSession request; mret (Show v)
  | OpLogout request =>
      u ← Sessions.logout config hash with_params ring parse_bundle request;
      mret (Show (Dsl.VObject [("logoutUrl", text_option u)]))
  | OpTenants request =>
      identity ← OidcIdentityGuard request;
      l ← listForUser (ic_userId identity);
      mret (Show (Dsl.VArray (map summary_value l)))
  | OpGuestCreate scenario =>
      g ← Sandbox.create config fresh hash token numeric_14_2 scenario; mret (Show (guest_value g))
  | OpGuestSession request => g ← Sandbox.getSession config hash token request; mret (Show (guest_value g))
  | OpGuestLogout request => _ ← Sandbox.logout config hash token request; mret (Show Dsl.VNull)
  | OpGuestCase request scenario =>
      id ← Sandbox.createAdditionalCase config fresh hash token numeric_14_2 request scenario;
      mret (Show (Dsl.VObject [("caseId", Dsl.VString id)]))
  | OpGuestPurge => _ ← Sandbox.purgeExpiredSessions; mret (Show Dsl.VNull)
  | OpTenantRoute request required route recorded =>
      c ← TenantAuthGuard request;
      _ ← RoleGuard recorded required route c;
      mret (ActAs c)
  | OpAdminRoute request => c ← PlatformAdminGuard request; mret (ActAsAdmin c)
  | OpCreateClient tenantId name role => r ← create_client tenantId name role; mret (Show (Dsl.VString (snd (r : ApiClient * string))))
  | OpRotateClient id => r ← rotate id; mret (Show (Dsl.VString (snd (r : ApiClient * string))))
  | OpRevokeClient id => _ ← revoke id; mret (Show Dsl.VNull)
  | OpCreateAdmin name => r ← create_admin name; mret (Show (Dsl.VString (snd (r : PlatformAdmin * string))))
  end.

Definition handler (op : Op) : prog unit :=
  answer ← pcatch (serve op) (fun e => mret (Reject e));
  emit answer.
End Guards.
End Guards.
