(* ===== verification/AuthExamples.v ===== *)
(** * A small identity provider

    Concrete parameters at which the theorems on authentication are evaluated:
    an issuer that accepts every token and takes its text for the subject, a
    cipher that hides nothing, and runs of a handler to its end. *)

From Stdlib Require Import Ascii SpecFloat.
From stdpp Require Import gmap strings list pretty.
From S2P Require Import Prelude Encoding KeyRings BudgetLedger BudgetTheorems PolicyDsl PolicyDigest PolicyResolver PolicyEvaluation PolicyActivation Concurrency ProviderTables Outbox Communications AgentTables AgentExamples AuthTables OidcService OidcSessions GuestSandbox AuthGuards.

Module AuthExamples.
Import Threads Encoding Auth Oidc Sessions Guards.
#[local] Existing Instances Ciphers.Toy.aead Ciphers.Toy.laws.

Definition config0 : Config :=
  {| cf_issuer := Some "https://idp"; cf_audience := Some "console"; cf_clientId := None; cf_clientSecret := None;
     cf_nodeEnv := Production; cf_callbackUrl := "https://app/v1/auth/session/callback"; cf_consoleOrigin := "https://app";
     cf_sessionMaxAgeSeconds := 28800; cf_selfServiceSignup := true; cf_guestTtlSeconds := 3600 |}.
Definition hash0 (s : string) : string := "#" +:+ s.
Definition token0 (n : nat) : string := "tok" +:+ pretty n.
Definition jwt0 (_ : Z) (t jwks issuer : string) : option (list (string * Dsl.value)) :=
  Some [("sub", Dsl.VString t); ("aud", Dsl.VString "console"); ("email", Dsl.VString (t +:+ "@example.org"))].
Definition params0 (endpoint : string) (ps : list (string * string)) : option string := Some endpoint.
Definition resolve0 (path origin : string) : option string := Some (origin +:+ path).
Definition compare0 (l r : string) : comparison := if String.eqb l r then Eq else if String.ltb l r then Lt else Gt.
Definition scrypt0 (secret salt : string) : string := "scrypt" +:+ secret +:+ salt.

(** Keys in the form of a UUID. *)
Definition digit (n : nat) : string := String (hex_char (Z.of_nat (n mod 16))) "".
Definition uuid0 (n : nat) : string := "00000000-0000-4000-8000-00000000000" +:+ digit n.

Definition handler_with (fresh : nat -> string) (op : Op) : prog unit :=
  handler config0 fresh hash0 token0 (fun _ => Ciphers.Toy.iv) (fun v => v) jwt0 params0 resolve0 Ciphers.Toy.ring
    Ciphers.Toy.bundle_text Ciphers.Toy.parse_bundle scrypt0 (fun _ => Some "1.00") compare0 op.

Definition california : Resolver.Jurisdiction :=
  {| Resolver.code := "US-CA"; Resolver.parentCode := None; Resolver.coverageStatus := Resolver.COVERED |}.
Definition world0 : Agent.World :=
  let w := AgentExamples.world0 in
  let p := Agent.w_policy w in
  let c := Evaluation.catalog p in
  Agent.put_policy
    {| Evaluation.generation := Evaluation.generation p;
       Evaluation.catalog :=
         {| Resolver.c_jurisdictions := <["US-CA" := california]> (Resolver.c_jurisdictions c);
            Resolver.c_applicability := Resolver.c_applicability c; Resolver.c_versions := Resolver.c_versions c;
            Resolver.c_revisions := Resolver.c_revisions c; Resolver.c_sources := Resolver.c_sources c |};
       Evaluation.bindings := Evaluation.bindings p; Evaluation.snapshots := Evaluation.snapshots p |} w.
Definition state0 : State :=
  {| a_world := world0; a_names := ∅; a_users := ∅; a_memberships := ∅; a_clients := ∅; a_admins := ∅; a_oidc := ∅;
     a_guests := ∅; a_discovery := None; a_promises := [] |}.

Definition request0 (cookies : string) (csrf : option string) (method : string) : HttpRequest :=
  {| rq_method := Some method; rq_cookie := Some cookies; rq_authorization := None; rq_tenantId := None;
     rq_csrfToken := csrf |}.

Definition metadata0 : Dsl.value :=
  Dsl.VObject [("issuer", Dsl.VString "https://idp"); ("jwks_uri", Dsl.VString "https://idp/keys");
    ("authorization_endpoint", Dsl.VString "https://idp/auth"); ("token_endpoint", Dsl.VString "https://idp/token")].
Definition tokens0 (subject : string) : Dsl.value :=
  Dsl.VObject [("access_token", Dsl.VString subject); ("id_token", Dsl.VString subject);
    ("expires_in", Dsl.VNumber (Dsl.f64_of_Z 300)); ("refresh_token", Dsl.VString "refresh")].

(** The provider signs everybody in as [subject]. *)
Definition provider (subject : string) (q : Request) : Reply :=
  match q with
  | Fetch method _ _ => Fetched (HttpJson (if String.eqb method "GET" then metadata0 else tokens0 subject))
  | _ => NothingSaid
  end.

(** A handler from its start to its end, while nothing else runs. *)
Fixpoint finish (answer : Request -> Reply) (fuel i : nat) (w : world (S := State) (E := Failure) (Q := Request) (R := Reply))
  : option (world (S := State) (E := Failure) (Q := Request) (R := Reply)) :=
  match fuel with
  | O => None
  | S fuel =>
      match threads w !! i with
      | None => None
      | Some (Done _) => Some w
      | Some (Db m k) => let (r, s) := m (db w) in
          finish answer fuel i {| db := s; calls := calls w; threads := <[i := k r]> (threads w) |}
      | Some (Call q k) =>
          finish answer fuel i {| db := db w; calls := calls w ++ [q]; threads := <[i := k (answer q)]> (threads w) |}
      end
  end.

Lemma finish_steps {Op} (handler : Op -> prog unit) elapse answer fuel i w w' :
  finish answer fuel i w = Some w' -> rtc (step handler elapse) w w'.
Proof.
  revert w. induction fuel as [|fuel IH]; intros w; cbn [finish]; [done|].
  destruct (threads w !! i) as [[r|B m k|q k]|] eqn:Hi; [|..|done].
  - intros [= ->]. constructor.
  - destruct (m (db w)) as [r s] eqn:Em. intros H. eapply rtc_l; [|by apply IH].
    pose proof (step_db handler elapse i m k w Hi) as Hs. by rewrite Em in Hs.
  - intros H. eapply rtc_l; [|by apply IH]. by apply step_call.
Qed.

(** One request after the other. *)
Fixpoint sessions (fresh : nat -> string) (script : list (Op * string))
    (w : world (S := State) (E := Failure) (Q := Request) (R := Reply)) :=
  match script with
  | [] => Some w
  | (op, subject) :: script =>
      match finish (provider subject) 200 (length (threads w))
        {| db := db w; calls := calls w; threads := threads w ++ [handler_with fresh op] |} with
      | Some w => sessions fresh script w
      | None => None
      end
  end.

Lemma sessions_steps fresh elapse script w w' :
  sessions fresh script w = Some w' -> rtc (step (handler_with fresh) elapse) w w'.
Proof.
  revert w. induction script as [|[op subject] script IH]; intros w; cbn [sessions]; [intros [= ->]; constructor|].
  destruct (finish _ _ _ _) as [w1|] eqn:E; [|done]. intros H. eapply rtc_l; [apply (step_spawn _ _ op)|].
  etrans; [by eapply finish_steps|by apply IH].
Qed.

Definition start0 : world (S := State) (E := Failure) (Q := Request) (R := Reply) :=
  {| db := state0; calls := []; threads := [] |}.

Definition login : HttpRequest := request0 "meridian_login_state=s; meridian_login_verifier=v" None "GET".
Definition nothing_special : Sandbox.CreateGuestSandboxSessionDto :=
  {| Sandbox.sc_requestedAmount := None; Sandbox.sc_statedMonthlyIncome := None |}.

(** Two visitors, two people who sign up, one of them twice. *)
Definition script0 : list (Op * string) :=
  [(OpGuestCreate nothing_special, ""); (OpCallback login (Some "code") (Some "s"), "alice");
   (OpGuestCreate nothing_special, ""); (OpCallback login (Some "code") (Some "s"), "bob");
   (OpCallback login (Some "code") (Some "s"), "alice")].

Example script0_runs : exists w, sessions AgentExamples.fresh0 script0 start0 = Some w /\
  (size (a_guests (db w)), size (a_memberships (db w)), size (a_users (db w)), size (a_oidc (db w))) = (2, 2, 2, 3)%nat.
Proof. eexists. split; vm_compute; reflexivity. Qed.
End AuthExamples.
