(* ===== verification/AuthTheorems.v ===== *)
(** * What authentication guarantees

    A context is earned: whatever happens between the statements of a guard,
    the tenant, the actor and the role it hands on are those of a credential
    the request presented and of rows the guard saw. *)

From Stdlib Require Import Ascii SpecFloat.
From stdpp Require Import gmap strings list.
From S2P Require Import Prelude Encoding KeyRings BudgetLedger PolicyDsl PolicyDigest PolicyResolver PolicyEvaluation PolicyActivation Concurrency ProviderTables Outbox Communications AgentTables AgentExamples AuthTables OidcService OidcSessions GuestSandbox AuthGuards AuthExamples.

Module AuthTheorems.
Import Threads Encoding Auth Oidc Sessions Guards.

(** A state is in the history. *)
Ltac seen :=
  first [assumption | apply list_elem_of_singleton; reflexivity | apply elem_of_app; first [right; seen | left; seen]].

Section Theorems.
Context {A : Ciphers.Aead}.
Context (config : Config) (fresh : nat -> string).
Context (hash : string -> string) (token : nat -> string) (nonce : nat -> string) (challenge : string -> string).
Context (jwt_verify : Z -> string -> string -> string -> option (list (string * Dsl.value))).
Context (with_params : string -> list (string * string) -> option string).
Context (resolve_url : string -> string -> option string).
Context (ring : Ciphers.KeyRing) (bundle_text : Ciphers.TokenBundle -> string)
  (parse_bundle : string -> option Ciphers.TokenBundle).
Context (scrypt : string -> string -> string) (numeric_14_2 : spec_float -> option string).
Context (localeCompare : string -> string -> comparison).

Notation handler := (handler config fresh hash token nonce challenge jwt_verify with_params resolve_url ring bundle_text
  parse_bundle scrypt numeric_14_2 localeCompare).

(** ** Results with the states they were found in *)

Notation hist := (list State).
Notation yields := (along (E := Failure) (R := Reply) (fun (_ : hist) (_ : Request) => True)).

(** A fact about the result of a handler that returns normally. *)
Definition if_ok {B} (P : B -> hist -> Prop) (r : result Failure B) (h : hist) : Prop :=
  match r with Ok a => P a h | Err _ => True end.

(** A fact that also holds when more states have been seen. *)
Definition lasting {B} (P : B -> hist -> Prop) : Prop := forall a h h', P a h -> P a (h ++ h').

Lemma yields_mono {B} (p : prog B) (P Q : B -> hist -> Prop) h :
  (forall a h', P a h' -> Q a h') -> yields (if_ok P) p h -> yields (if_ok Q) p h.
Proof. intros H. apply along_mono. intros [a|e] h'; cbn; auto. Qed.

Lemma yields_bind {B C} (p : prog B) (f : B -> prog C) (P : B -> hist -> Prop) (Q : C -> hist -> Prop) h :
  yields (if_ok P) p h -> (forall a h', P a h' -> yields (if_ok Q) (f a) h') -> yields (if_ok Q) (p ≫= f) h.
Proof.
  intros Hp Hf. apply along_bind. eapply along_mono; [|exact Hp]. intros [a|e] h'; cbn; [apply Hf|done].
Qed.

Lemma yields_any {B} (p : prog B) h : yields (if_ok (fun _ _ => True)) p h.
Proof.
  revert h. induction p as [[a|e]|C m k IH|q k IH]; intros h; cbn; [done|done| |].
  - intros s. apply IH.
  - split; [done|]. intros r. apply IH.
Qed.

(** The history only grows. *)
Lemma yields_grows {B} (p : prog B) h : yields (if_ok (fun _ h' => exists d, h' = h ++ d)) p h.
Proof.
  assert (forall h0 d, h0 = h ++ d -> yields (if_ok (fun _ h' => exists d, h' = h ++ d)) p h0) as H.
  { induction p as [[a|e]|C m k IH|q k IH]; intros h0 d ->; cbn; [by exists d|done| |].
    - intros s. rewrite <- app_assoc. by eapply IH.
    - split; [done|]. intros r. by eapply IH. }
  apply (H h []). by rewrite app_nil_r.
Qed.

Lemma yields_conj {B} (p : prog B) (P Q : B -> hist -> Prop) h :
  yields (if_ok P) p h -> yields (if_ok Q) p h -> yields (if_ok (fun a h' => P a h' /\ Q a h')) p h.
Proof.
  revert h. induction p as [[a|e]|C m k IH|q k IH]; intros h; cbn; [done|done| |].
  - intros H1 H2 s. by apply IH.
  - intros [_ H1] [_ H2]. split; [done|]. intros r. by apply IH.
Qed.

(** A step of a handler, after which what was seen before was still seen. *)
Lemma yields_then {B C} (p : prog B) (f : B -> prog C) (P : B -> hist -> Prop) (Q : C -> hist -> Prop) h :
  yields (if_ok P) p h -> (forall a d, P a (h ++ d) -> yields (if_ok Q) (f a) (h ++ d)) -> yields (if_ok Q) (p ≫= f) h.
Proof.
  intros Hp Hf. eapply yields_bind; [apply yields_conj; [exact Hp|apply yields_grows]|].
  intros a h' [HP [d ->]]. by apply Hf.
Qed.

Lemma yields_skip {B C} (p : prog B) (f : B -> prog C) (Q : C -> hist -> Prop) h :
  (forall a d, yields (if_ok Q) (f a) (h ++ d)) -> yields (if_ok Q) (p ≫= f) h.
Proof. intros Hf. eapply yields_then; [apply yields_any|]. auto. Qed.

Lemma yields_read {B C} (g : State -> B) (f : B -> prog C) (Q : C -> hist -> Prop) h :
  (forall s, yields (if_ok Q) (f (g s)) (h ++ [s])) -> yields (if_ok Q) (atomically (gets g) ≫= f) h.
Proof. intros H s. apply H. Qed.

Lemma yields_read_last {B} (g : State -> B) (Q : B -> hist -> Prop) h :
  (forall s, Q (g s) (h ++ [s])) -> yields (if_ok Q) (atomically (gets g)) h.
Proof. intros H s. apply H. Qed.

Lemma yields_catch {B} (p : prog B) (g : Failure -> prog B) (Q : B -> hist -> Prop) h :
  yields (if_ok Q) p h -> (forall e d, yields (if_ok Q) (g e) (h ++ d)) -> yields (if_ok Q) (pcatch p g) h.
Proof.
  intros Hp Hg. apply along_catch. revert h Hp Hg.
  induction p as [[a|e]|C m k IH|q k IH]; intros h Hp Hg; cbn in *; [done| | |].
  - specialize (Hg e []). by rewrite app_nil_r in Hg.
  - intros s. apply IH; [apply Hp|]. intros e d. rewrite <- app_assoc. apply Hg.
  - split; [done|]. intros r. apply IH; [apply Hp|done].
Qed.

(** ** The metadata of the configured issuer *)

Definition discovery_ok (s : State) : Prop :=
  forall n d, promised n s = Some (Ok d) -> present (cf_issuer config) = Some (dd_issuer d).

(** The document came from the configured issuer, if the promises seen did. *)
Definition trusted (d : OidcDiscoveryDocument) (h : hist) : Prop :=
  Forall discovery_ok h -> present (cf_issuer config) = Some (dd_issuer d).

Lemma discovery_outcome_issuer issuer reply d reset :
  discovery_outcome issuer reply = (Ok d, reset) -> dd_issuer d = issuer.
Proof.
  unfold discovery_outcome. destruct reply as [|st|body]; [done|done|].
  destruct (body_get body "issuer") as [i|]; [|done]. destruct (body_get body "jwks_uri") as [j|]; [|done].
  destruct (nonempty_text i) as [i'|]; [|done]. destruct (nonempty_text j) as [j'|]; [|done].
  destruct (String.eqb_spec i' issuer) as [->|]; [|done]. cbn. intros H. by simplify_eq.
Qed.

Lemma yields_discovery h : yields (if_ok trusted) (getDiscoveryDocument config) h.
Proof.
  unfold getDiscoveryDocument. destruct (present (cf_issuer config)) as [issuer|] eqn:Hi; [|done].
  destruct (present (cf_audience config)) as [aud|]; [|done].
  apply yields_skip. intros [n first] d. destruct first.
  - apply yields_skip. intros reply d'. destruct (discovery_outcome issuer reply) as [o reset] eqn:E.
    apply yields_skip. intros _ d''. destruct o as [doc|e]; [|done]. cbn. intros _.
    apply discovery_outcome_issuer in E. unfold trusted. congruence.
  - apply yields_skip. intros _ d'. apply yields_read. intros s.
    destruct (promised n s) as [[doc|er]|] eqn:E; [|done|done]. cbn. intros Hall.
    apply Forall_app in Hall as [_ Hs]. rewrite Forall_singleton in Hs. by eapply Hs.
Qed.

(** ** Verified tokens *)

(** The library verified the token against the configured issuer, at the time
    of a state that was seen, and the configured audience. *)
Definition verified (t : string) (use : TokenUse) (claims : OidcClaims) (h : hist) : Prop :=
  exists issuer audience jwks payload s, s ∈ h /\
    present (cf_issuer config) = Some issuer /\ present (cf_audience config) = Some audience /\
    jwt_verify (now_of s) t jwks issuer = Some payload /\ accepted_claims audience use payload = Some claims.

Definition safe_history (h : hist) : Prop := Forall discovery_ok h.

Lemma safe_history_app h d : safe_history (h ++ d) -> safe_history h.
Proof. by intros [? _]%Forall_app. Qed.

Lemma yields_verify t use h :
  yields (if_ok (fun c h' => safe_history h' -> verified t use c h')) (verifyToken config jwt_verify t use) h.
Proof.
  unfold verifyToken. destruct (present (cf_issuer config)) as [issuer|] eqn:Hi; [|done].
  destruct (present (cf_audience config)) as [audience|] eqn:Ha; [|done].
  apply yields_catch; [|done]. eapply yields_then; [apply yields_discovery|].
  intros doc d Hdoc. apply yields_read. intros s. unfold claims_of.
  destruct (jwt_verify _ _ _ _) as [payload|] eqn:Ej; [|done]. cbn.
  destruct (accepted_claims audience use payload) as [c|] eqn:Ec; [|done]. cbn. intros Hs.
  apply safe_history_app in Hs. specialize (Hdoc Hs). rewrite Hi in Hdoc. injection Hdoc as Hdoc. rewrite <- Hdoc in Ej.
  exists issuer, audience, (dd_jwks_uri doc), payload, s. split_and!; [seen|done..].
Qed.

Lemma verified_lasting t use : lasting (verified t use).
Proof. intros c h h' (i & a & j & p & s & Hs & H). exists i, a, j, p, s. split; [seen|done]. Qed.

(** ** Credentials *)

Definition client_earned (rq : HttpRequest) (c : AuthContext) (h : hist) : Prop :=
  exists id secret s k, credential rq = Some (id, secret) /\ s ∈ h /\ a_clients s !! uuid id = Some k /\
    ak_status k = CLIENT_ACTIVE /\ verifyApiClientSecret scrypt secret (ak_hashedSecret k) = true /\
    cx_tenantId c = ak_tenantId k /\ cx_actorId c = ak_id k /\ cx_role c = ak_role k.

Definition admin_earned (rq : HttpRequest) (c : PlatformAdminContext) (h : hist) : Prop :=
  exists id secret s a, credential rq = Some (id, secret) /\ s ∈ h /\ a_admins s !! uuid id = Some a /\
    pa_status a = ADMIN_ACTIVE /\ verifyApiClientSecret scrypt secret (pa_hashedSecret a) = true /\
    pc_adminId c = pa_id a.

(** The token of the request. *)
Definition by_token (rq : HttpRequest) (u : User) (h : hist) : Prop :=
  exists t claims s, present (bearer rq) = Some t /\ verified t AccessToken claims h /\
    s ∈ h /\ user_with_subject (cl_sub claims) s = Some u.

(** A request that may change something repeats the token of its CSRF cookie
    in its header, and the session knows it. *)
Definition csrf_ok (rq : HttpRequest) (csrf_cookie csrfTokenHash : string) : Prop :=
  exists t, rq_csrfToken rq = Some t /\ cookie rq csrf_cookie = Some t /\ hash t = csrfTokenHash.

(** A session that the cookie of the request names, that has not expired and
    whose tokens are still good for its user. *)
Definition by_session (rq : HttpRequest) (csrf : bool) (u : User) (h : hist) : Prop :=
  exists raw session s s_now s_user bundle t claims,
    cookie rq OIDC_SESSION_COOKIE = Some raw /\
    s ∈ h /\ session_with_hash (hash raw) s = Some session /\
    s_now ∈ h /\ now_of s_now < os_expiresAt session /\
    (csrf = true -> csrf_ok rq OIDC_CSRF_COOKIE (os_csrfTokenHash session)) /\
    Ciphers.decryptBundle parse_bundle ring (os_encryptedTokenBundle session) (hash raw) = Ok bundle /\
    (t = Ciphers.tk_accessToken bundle \/
     os_accessExpiresAt session <= now_of s_now + REFRESH_SKEW_MS /\ is_Some (present (Ciphers.tk_refreshToken bundle))) /\
    verified t AccessToken claims h /\
    s_user ∈ h /\ a_users s_user !! os_userId session = Some u /\ us_subject u = cl_sub claims.

Definition person_earned (rq : HttpRequest) (c : AuthContext) (h : hist) : Prop :=
  exists u s m, (by_token rq u h \/ present (bearer rq) = None /\ by_session rq (unsafe_method rq) u h) /\
    rq_tenantId rq = Some (cx_tenantId c) /\ s ∈ h /\
    membership_of (uuid (cx_tenantId c)) (us_id u) s = Some m /\
    cx_actorId c = us_id u /\ cx_role c = tm_role m.

Definition guest_earned (rq : HttpRequest) (c : AuthContext) (h : hist) : Prop :=
  exists raw session s s_now,
    cookie rq Sandbox.GUEST_SANDBOX_COOKIE = Some raw /\
    s ∈ h /\ Sandbox.guest_with_hash (hash raw) s = Some session /\
    s_now ∈ h /\ now_of s_now < gs_expiresAt session /\
    (unsafe_method rq = true -> csrf_ok rq Sandbox.GUEST_SANDBOX_CSRF_COOKIE (gs_csrfTokenHash session)) /\
    cx_tenantId c = gs_tenantId session /\ cx_actorId c = gs_actorId session /\ cx_role c = REVIEWER.

Definition earned (rq : HttpRequest) (c : AuthContext) (h : hist) : Prop :=
  client_earned rq c h \/ person_earned rq c h \/ guest_earned rq c h.

(** ** The guards *)

Lemma yields_ApiKeyGuard rq h :
  yields (if_ok (client_earned rq)) (ApiKeyGuard fresh scrypt rq) h.
Proof.
  unfold ApiKeyGuard. destruct (credential rq) as [[id secret]|] eqn:Hc; [|done].
  apply yields_read. intros s. destruct (a_clients s !! uuid id) as [k|] eqn:Hk; [|done].
  destruct (_ && _) eqn:E; [|done]. bsplit. apply yields_skip. intros cid d. cbn.
  exists id, secret, s, k. split_and!; [done|seen|done..].
Qed.

Lemma yields_PlatformAdminGuard rq h :
  yields (if_ok (admin_earned rq)) (PlatformAdminGuard fresh scrypt rq) h.
Proof.
  unfold PlatformAdminGuard. destruct (credential rq) as [[id secret]|] eqn:Hc; [|done].
  apply yields_read. intros s. destruct (a_admins s !! uuid id) as [k|] eqn:Hk; [|done].
  destruct (_ && _) eqn:E; [|done]. bsplit. apply yields_skip. intros cid d. cbn.
  exists id, secret, s, k. split_and!; [done|seen|done..].
Qed.

Lemma yields_resolve rq csrf h :
  yields (if_ok (fun r h' => exists raw session s s_now, cookie rq Sandbox.GUEST_SANDBOX_COOKIE = Some raw /\
    s ∈ h' /\ Sandbox.guest_with_hash (hash raw) s = Some session /\ s_now ∈ h' /\ now_of s_now < gs_expiresAt session /\
    (csrf = true -> csrf_ok rq Sandbox.GUEST_SANDBOX_CSRF_COOKIE (gs_csrfTokenHash session)) /\
    gs_tenantId r.1 = gs_tenantId session /\ gs_actorId r.1 = gs_actorId session))
    (Sandbox.resolve config hash token rq csrf) h.
Proof.
  unfold Sandbox.resolve. destruct (cookie rq _) as [raw|] eqn:Hraw; [|done].
  apply yields_read. intros s. apply yields_read. intros s_now.
  destruct (Sandbox.unexpired _ _) as [session|] eqn:Hlive; [|apply yields_skip; done].
  unfold Sandbox.unexpired in Hlive. destruct (Sandbox.guest_with_hash (hash raw) s) as [found|] eqn:Hs; [|done].
  cbn in Hlive. destruct (gs_expiresAt found <=? now_of s_now) eqn:Hexp; [done|]. injection Hlive as ->.
  apply Z.leb_gt in Hexp.
  destruct (Sandbox.fitting_csrf hash rq session) as [csrfToken|] eqn:Hcsrf.
  - destruct (csrf && negb _) eqn:Hck; [done|]. cbn. exists raw, session, s, s_now.
    split_and!; [done|seen|done|seen|done| |done..].
    intros ->. cbn in Hck. unfold Sandbox.check_csrf in Hck.
    destruct (rq_csrfToken rq) as [header|] eqn:Hh; [|done]. apply negb_false_iff, andb_true_iff in Hck as [H1 H2].
    apply String.eqb_eq in H1 as ->, H2. exists csrfToken. split_and!; [done| |done].
    unfold Sandbox.fitting_csrf in Hcsrf. destruct (cookie rq Sandbox.GUEST_SANDBOX_CSRF_COOKIE) as [c|]; [|done]. cbn in Hcsrf. by case_match; simplify_eq.
  - destruct csrf; [done|]. apply yields_skip. intros csrfToken d. apply yields_skip. intros _ d'.
    apply yields_skip. intros _ d''. cbn. exists raw, session, s, s_now.
    split_and!; [done|seen|done|seen|done|done|done..].
Qed.

Lemma yields_GuestSandboxGuard rq h :
  yields (if_ok (guest_earned rq)) (GuestSandboxGuard config fresh hash token rq) h.
Proof.
  eapply yields_then; [apply yields_resolve|]. intros [r csrfToken] d (raw & session & s & n & H).
  apply yields_skip. intros cid d'. cbn. exists raw, session, s, n.
  destruct H as (? & ? & ? & ? & ? & ? & ? & ?). split_and!; [done|seen|done|seen|done..].
Qed.

Lemma yields_assertCsrf rq c eh h :
  yields (if_ok (fun _ _ => rq_csrfToken rq = Some c /\ hash c = eh)) (assertCsrf hash rq c eh) h.
Proof.
  unfold assertCsrf. destruct (rq_csrfToken rq) as [header|]; [|done]. destruct (_ && _) eqn:E; [|done].
  apply andb_true_iff in E as [->%String.eqb_eq E2%String.eqb_eq]. done.
Qed.

(** The session that [resolve_csrf] goes on with differs in its CSRF hash only. *)
Definition same_tokens (r r' : OidcSession) : Prop :=
  os_userId r' = os_userId r /\ os_encryptedTokenBundle r' = os_encryptedTokenBundle r /\
  os_accessExpiresAt r' = os_accessExpiresAt r.

Lemma yields_resolve_csrf rq csrf session h :
  yields (if_ok (fun r _ => same_tokens session r.1.1 /\
    (csrf = true -> csrf_ok rq OIDC_CSRF_COOKIE (os_csrfTokenHash session))))
    (resolve_csrf config hash token rq csrf session) h.
Proof.
  unfold resolve_csrf. destruct (cookie rq OIDC_CSRF_COOKIE) as [c|] eqn:Hc.
  - destruct (String.eqb_spec (hash c) (os_csrfTokenHash session)) as [He|].
    + destruct csrf.
      * eapply yields_then; [apply yields_assertCsrf|]. intros _ d [H1 _]. cbn. split; [done|].
        intros _. by exists c.
      * by cbn.
    + destruct csrf; [done|]. apply yields_skip. intros t d. apply yields_skip. by intros _ d'.
  - destruct csrf; [done|]. apply yields_skip. intros t d. apply yields_skip. by intros _ d'.
Qed.

Lemma yields_resolve_claims now tokenHash session h :
  yields (if_ok (fun r h' => safe_history h' -> exists bundle t,
    Ciphers.decryptBundle parse_bundle ring (os_encryptedTokenBundle session) tokenHash = Ok bundle /\
    (t = Ciphers.tk_accessToken bundle \/
     os_accessExpiresAt session <= now + REFRESH_SKEW_MS /\ is_Some (present (Ciphers.tk_refreshToken bundle))) /\
    verified t AccessToken r.1.2 h' /\ os_userId r.1.1 = os_userId session))
    (resolve_claims config nonce jwt_verify ring bundle_text parse_bundle now tokenHash session) h.
Proof.
  unfold resolve_claims, decrypt. destruct (Ciphers.decryptBundle _ _ _ _) as [bundle|er] eqn:Hb; [|done].
  change (mret bundle ≫= ?f) with (f bundle).
  destruct (os_accessExpiresAt session <=? now + REFRESH_SKEW_MS) eqn:Hexp.
  - destruct (present (Ciphers.tk_refreshToken bundle)) as [rt|] eqn:Hr; [|done].
    apply yields_skip. intros refreshed d. eapply yields_then; [apply yields_verify|]. intros claims d' Hv.
    apply yields_skip. intros text d''. destruct (date _); [|done]. cbn. intros Hs. exists bundle, (tr_access_token refreshed).
    split_and!; [done|right; split; [by apply Z.leb_le|by eexists]| |done]. apply verified_lasting, Hv. by eapply safe_history_app.
  - eapply yields_then; [apply yields_verify|]. intros claims d Hv. cbn. intros Hs.
    exists bundle, (Ciphers.tk_accessToken bundle). split_and!; [done|by left|by apply Hv|done].
Qed.

Lemma yields_authenticateCookie rq csrf h :
  yields (if_ok (fun i h' => safe_history h' -> by_session rq csrf (id_user i) h'))
    (authenticateCookie config hash token nonce jwt_verify ring bundle_text parse_bundle rq csrf) h.
Proof.
  unfold authenticateCookie. destruct (cookie rq OIDC_SESSION_COOKIE) as [raw|] eqn:Hraw; [|done].
  apply yields_read. intros s. destruct (session_with_hash (hash raw) s) as [session|] eqn:Hsession; [|done].
  apply yields_read. intros s_now. destruct (os_expiresAt session <=? now_of s_now) eqn:Hexp.
  { apply yields_skip. intros _ d. apply yields_skip. by intros _ d'. }
  apply Z.leb_gt in Hexp. eapply yields_then; [apply yields_resolve_csrf|].
  intros [[session1 csrfToken] changed] d [(Hu1 & Ht1 & Ha1) Hcsrf]. cbn in Hu1, Ht1, Ha1.
  eapply yields_then; [apply yields_resolve_claims|]. intros [[session2 claims] refreshed] d' Hclaims.
  apply yields_read. intros s_user. destruct (a_users s_user !! os_userId session2) as [u|] eqn:Huser; [|done].
  destruct (String.eqb_spec (us_subject u) (cl_sub claims)) as [Hsub|]; [|done]. cbn [negb].
  destruct (touch _ _ _) as [session3 ch]. apply yields_skip. intros _ d''. cbn [if_ok id_user along mret Prog_ret]. intros Hs.
  destruct Hclaims as (bundle & t & Hdec & Htok & Hver & Hu2); [do 2 eapply safe_history_app; exact Hs|].
  cbn in Hver, Hu2. rewrite Ht1 in Hdec. rewrite Ha1 in Htok. rewrite Hu2, Hu1 in Huser.
  exists raw, session, s, s_now, s_user, bundle, t, claims.
  split_and!; try first [done | seen]. do 2 apply verified_lasting. done.
Qed.

Lemma yields_user_of_token t h :
  yields (if_ok (fun u h' => safe_history h' -> exists claims s, verified t AccessToken claims h' /\ s ∈ h' /\
    user_with_subject (cl_sub claims) s = u)) (user_of_token config jwt_verify t) h.
Proof.
  eapply yields_then; [apply yields_verify|]. intros claims d Hv. apply yields_read_last. intros s Hs.
  exists claims, s. split_and!; [|seen|done]. apply verified_lasting, Hv. by eapply safe_history_app.
Qed.

(** The person of a request. *)
Lemma yields_person rq csrf (h : hist) :
  yields (if_ok (fun u h' => safe_history h' -> forall user, u = Some user ->
    by_token rq user h' \/ present (bearer rq) = None /\ by_session rq csrf user h'))
    (match present (bearer rq) with
     | Some t => user_of_token config jwt_verify t
     | None =>
         identity ← authenticateCookie config hash token nonce jwt_verify ring bundle_text parse_bundle rq csrf;
         mret (Some (id_user identity))
     end) h.
Proof.
  destruct (present (bearer rq)) as [t|] eqn:Ht.
  - eapply yields_mono; [|apply yields_user_of_token]. intros u h' H Hs user ->.
    destruct (H Hs) as (claims & s & Hv & Hin & Hu). left. by exists t, claims, s.
  - eapply yields_then; [apply yields_authenticateCookie|]. intros i d H. cbn. intros Hs user [= <-]. right. auto.
Qed.

Lemma by_session_lasting rq csrf : lasting (by_session rq csrf).
Proof.
  intros u h h' (raw & session & s & n & su & b & t & cl & H). exists raw, session, s, n, su, b, t, cl.
  destruct H as (? & ? & ? & ? & ? & ? & ? & ? & ? & ? & ? & ?). split_and!; try first [done | seen].
  by apply verified_lasting.
Qed.

Lemma by_token_lasting rq : lasting (by_token rq).
Proof.
  intros u h h' (t & cl & s & ? & ? & ? & ?). exists t, cl, s. split_and!; try done; [by apply verified_lasting|seen].
Qed.

Lemma yields_OidcGuard rq h :
  yields (if_ok (fun c h' => safe_history h' -> person_earned rq c h'))
    (OidcGuard config fresh hash token nonce jwt_verify ring bundle_text parse_bundle rq) h.
Proof.
  unfold OidcGuard. destruct (t ← rq_tenantId rq; _) as [tenantId|] eqn:Ht; [|done].
  assert (rq_tenantId rq = Some tenantId) as Htid.
  { destruct (rq_tenantId rq) as [t|]; [|done]. cbn in Ht. by case_match; simplify_eq. }
  eapply yields_then; [apply yields_person|]. intros [user|] d Hu; [|done].
  apply yields_read. intros s. destruct (membership_of (uuid tenantId) (us_id user) s) as [m|] eqn:Hm; [|done].
  apply yields_skip. intros cid d'. cbn. intros Hs. exists user, s, m. cbn.
  split_and!; try done; [|seen].
  destruct (Hu (safe_history_app _ _ (safe_history_app _ _ Hs)) _ eq_refl) as [H|[H1 H]];
    [left; do 2 apply by_token_lasting; done|right; split; [done|]; do 2 apply by_session_lasting; done].
Qed.

Lemma yields_TenantAuthGuard rq h :
  yields (if_ok (fun c h' => safe_history h' -> earned rq c h'))
    (TenantAuthGuard config fresh hash token nonce jwt_verify ring bundle_text parse_bundle scrypt rq) h.
Proof.
  unfold TenantAuthGuard. apply yields_catch.
  { eapply yields_mono; [|apply yields_ApiKeyGuard]. intros c h' H _. by left. }
  intros _ d. apply yields_catch.
  { eapply yields_mono; [|apply yields_OidcGuard]. intros c h' H Hs. right. left. auto. }
  intros _ d'. eapply yields_mono; [|apply yields_GuestSandboxGuard]. intros c h' H _. right. by right.
Qed.

(** ** The endpoints *)

(** Every call of an endpoint but its answer: cookies, requests to the
    provider. *)
Definition modest (q : Request) : Prop := match q with ActAs _ | ActAsAdmin _ => False | _ => True end.
Notation calm := (every (E := Failure) (R := Reply) (fun _ _ : State => True) modest).

Lemma along_calm {B} (p : prog B) Φ h :
  calm p -> yields Φ p h -> along (fun _ q => modest q) Φ p h.
Proof.
  revert h. induction p as [r|C m k IH|q k IH]; intros h; cbn; [done| |].
  - intros Hp Hy s. apply IH; [apply Hp|apply Hy].
  - intros [Hq Hp] [_ Hy]. split; [done|]. intros r. apply IH; [apply Hp|apply Hy].
Qed.

Lemma calm_emit q : modest q -> calm (emit q).
Proof. by split. Qed.
Lemma calm_fetch m u ps : calm (fetch m u ps).
Proof. by split. Qed.

(** Walks through the text of a handler. *)
Ltac calmly :=
  repeat first
    [ done
    | apply calm_emit; exact I
    | apply calm_fetch
    | apply every_atomically; done
    | match goal with
      | |- every _ _ (_ ≫= _) => apply every_bind; [|intros ?]
      | |- every _ _ (pcatch _ _) => apply every_catch; [|intros ?]
      | |- every _ _ (match ?x with _ => _ end) => destruct x
      | |- every _ _ (let _ := _ in _) => cbv zeta
      end ].

Lemma calm_getDiscoveryDocument : calm (getDiscoveryDocument config).
Proof. unfold getDiscoveryDocument, fetchDiscoveryDocument, discovered. calmly. Qed.
Lemma calm_requestTokens ps : calm (requestTokens config ps).
Proof. unfold requestTokens. calmly. apply calm_getDiscoveryDocument. Qed.
Lemma calm_verifyToken t use : calm (verifyToken config jwt_verify t use).
Proof. unfold verifyToken. calmly. apply calm_getDiscoveryDocument. Qed.

Lemma calm_authenticateCookie rq csrf :
  calm (authenticateCookie config hash token nonce jwt_verify ring bundle_text parse_bundle rq csrf).
Proof.
  unfold authenticateCookie, resolve_csrf, resolve_claims, assertCsrf, decrypt, encrypt, clearSessionCookies,
    Sessions.randomToken, refresh, verify. calmly; try apply calm_requestTokens; apply calm_verifyToken.
Qed.

Lemma calm_resolve rq csrf : calm (Sandbox.resolve config hash token rq csrf).
Proof. unfold Sandbox.resolve, Sandbox.clearCookies, Sandbox.randomToken. calmly. Qed.

Lemma calm_guest rq csrf : calm (Sandbox.authenticate config fresh hash token rq csrf).
Proof. unfold Sandbox.authenticate, Sandbox.uuid4. calmly. apply calm_resolve. Qed.

Lemma calm_TenantAuthGuard rq :
  calm (TenantAuthGuard config fresh hash token nonce jwt_verify ring bundle_text parse_bundle scrypt rq).
Proof.
  unfold TenantAuthGuard, ApiKeyGuard, OidcGuard, GuestSandboxGuard, user_of_token, verify, randomUUID.
  calmly; first [apply calm_verifyToken|apply calm_authenticateCookie|apply calm_guest].
Qed.

Lemma calm_purge_all gs n : calm (Sandbox.purge_all gs n).
Proof.
  revert n. induction gs as [|g gs IH]; intros n; cbn [Sandbox.purge_all]; unfold Sandbox.purgeTenantData; [done|].
  calmly.
Qed.

Lemma calm_listForUser id : calm (listForUser localeCompare id).
Proof. unfold listForUser. calmly. Qed.

(** Endpoints that only show something. *)
Definition shows (op : Op) : Prop := match op with OpTenantRoute _ _ _ _ | OpAdminRoute _ => False | _ => True end.

Lemma calm_serve op : calm (serve config fresh hash token nonce challenge jwt_verify with_params resolve_url ring bundle_text
  parse_bundle scrypt numeric_14_2 localeCompare op).
Proof.
  destruct op; cbn [serve];
    unfold beginLogin, completeSessionLogin, completeLogin, getSession, Sessions.logout, OidcIdentityGuard, user_of_token,
      Sandbox.create, Sandbox.getSession, Sandbox.logout, Sandbox.createAdditionalCase, Sandbox.purgeExpiredSessions,
      PlatformAdminGuard, create_client, rotate, revoke, create_admin, find_client, generateApiClientSecret, RoleGuard,
      resolveUser, encrypt, decrypt, assertCsrf, clearSessionCookies, clearLoginCookies, setSessionCookies,
      Sessions.randomToken, Sandbox.randomToken, Sandbox.uuid4, randomUUID, Sandbox.setCookies, Sandbox.clearCookies,
      exchangeAuthorizationCode, verify, verifyIdToken, buildAuthorizationUrl, buildLogoutUrl, url, invalid_url;
    calmly;
    first [apply calm_verifyToken|apply calm_authenticateCookie|apply calm_guest|apply calm_resolve|apply calm_requestTokens
          |apply calm_getDiscoveryDocument|apply calm_purge_all|apply calm_listForUser|apply calm_TenantAuthGuard].
Qed.

Definition answered (op : Op) (q : Request) (h : hist) : Prop :=
  match q with
  | ActAs c => exists rq required route recorded, op = OpTenantRoute rq required route recorded /\
      (safe_history h -> earned rq c h) /\ (required = [] \/ cx_role c ∈ required)
  | ActAsAdmin c => exists rq, op = OpAdminRoute rq /\ admin_earned rq c h
  | _ => True
  end.

Lemma modest_answered op q h : modest q -> answered op q h.
Proof. by destruct q. Qed.

Lemma calm_answer {B} (p : prog B) (f : B -> Request) op h :
  (forall a, modest (f a)) -> yields (if_ok (answered op)) (a ← p; mret (f a)) h.
Proof. intros Hf. apply yields_skip. intros a d. cbn. by apply modest_answered. Qed.

Lemma yields_serve op h :
  yields (if_ok (answered op)) (serve config fresh hash token nonce challenge jwt_verify with_params resolve_url ring
    bundle_text parse_bundle scrypt numeric_14_2 localeCompare op) h.
Proof.
  destruct op; cbn [serve]; try (apply calm_answer; by intros).
  - apply yields_skip. intros i d. by apply calm_answer.
  - eapply yields_then; [apply yields_TenantAuthGuard|]. intros c d Hc.
    unfold RoleGuard. destruct required as [|role required].
    + cbn. exists request, [], route, recorded. split_and!; [done|done|by left].
    + destruct (bool_decide (cx_role c ∈ role :: required)) eqn:Hr.
      * cbn. exists request, (role :: required), route, recorded. split_and!; [done|done|right]. by apply bool_decide_eq_true in Hr.
      * apply yields_bind with (P := fun _ _ => False); [|done].
        apply yields_bind with (P := fun _ _ => True); [apply yields_any|done].
  - eapply yields_then; [apply yields_PlatformAdminGuard|]. intros c d Hc. cbn. by exists request.
Qed.

(** C3: A request acts as an API client, as a person in a tenant or as a sandbox
    visitor only if it presents that one's credential — the secret of an
    active client; a token of the configured issuer for the configured
    audience, or the cookie of a session that has not expired and whose own
    tokens still verify, with a membership of the tenant; the cookie of a
    sandbox session that has not expired — and, where a cookie authenticates
    it, repeats the session's CSRF token before it may change anything.  It
    acts with the role of that row, and only where the route admits the role.
    An administrator has the secret of an active administrator.  All of this
    is as some statement of the request found it, whatever ran in between. *)
Theorem context_is_earned op h q k :
  reach (handler op) h (Call q k) -> answered op q h.
Proof.
  intros Hr. unfold Guards.handler in Hr.
  assert (along (fun h q => answered op q h) (fun _ _ => True) (handler op) []) as H.
  { unfold Guards.handler. apply along_bind. apply along_catch.
    eapply along_mono; [|eapply along_weaken; [|apply along_calm; [apply calm_serve|apply yields_serve]]].
    - intros [a|e] h'; cbn; [|done]. by intros Ha.
    - intros h' q'. apply modest_answered. }
  eapply along_reach in H; [|exact Hr]. apply H.
Qed.
End Theorems.

(** ** A client's request *)

Definition client0 : ApiClient :=
  {| ak_id := AuthExamples.uuid0 1; ak_tenantId := "t"; ak_name := "partner";
     ak_hashedSecret := "salt:" +:+ to_hex (AuthExamples.scrypt0 "secret" "salt"); ak_status := CLIENT_ACTIVE;
     ak_role := REVIEWER |}.
Definition with_client : State := put_clients {[AuthExamples.uuid0 1 := client0]} AuthExamples.state0.
Definition bearer0 (t : string) : HttpRequest :=
  {| rq_method := Some "POST"; rq_cookie := None; rq_authorization := Some ("Bearer " +:+ t); rq_tenantId := None;
     rq_csrfToken := None |}.
#[local] Existing Instances Ciphers.Toy.aead Ciphers.Toy.laws.

Lemma context_is_earned_witness :
  let rq := bearer0 (AuthExamples.uuid0 1 +:+ ".secret") in
  let op := OpTenantRoute rq [REVIEWER] "route" true in
  exists h c k, reach (AuthExamples.handler_with AuthExamples.uuid0 op) h (Call (ActAs c) k) /\ cx_tenantId c = "t" /\
    safe_history AuthExamples.config0 h /\
    earned AuthExamples.config0 AuthExamples.hash0 AuthExamples.jwt0 Ciphers.Toy.ring Ciphers.Toy.parse_bundle
      AuthExamples.scrypt0 rq c h /\ cx_role c ∈ [REVIEWER].
Proof.
  intros rq op.
  pose proof (advance_reach 2 (AuthExamples.handler_with AuthExamples.uuid0 op) with_client) as H.
  destruct (advance 2 (AuthExamples.handler_with AuthExamples.uuid0 op) with_client) as [h p] eqn:E.
  assert (safe_history AuthExamples.config0 h) as Hs.
  { change h with (fst (h, p)). rewrite <- E. vm_compute. repeat constructor; intros [|n] d; discriminate. }
  cbn [fst snd] in H. destruct p as [r|B m k0|q k0]; [vm_compute in E; discriminate E..|].
  destruct q as [| | | | | |c| |]; try (vm_compute in E; discriminate E).
  assert (cx_tenantId c = "t") as Ht by (vm_compute in E; injection E as _ <- _; reflexivity).
  pose proof (context_is_earned AuthExamples.config0 AuthExamples.uuid0 AuthExamples.hash0 AuthExamples.token0
    (fun _ => Ciphers.Toy.iv) (fun v => v) AuthExamples.jwt0 AuthExamples.params0 AuthExamples.resolve0 Ciphers.Toy.ring
    Ciphers.Toy.bundle_text Ciphers.Toy.parse_bundle AuthExamples.scrypt0 (fun _ => Some "1.00") AuthExamples.compare0
    op h (ActAs c) k0 H) as (rq' & required & route & recorded & Heq & He & Hr).
  injection Heq as <- <- _ _. exists h, c, k0. split_and!; [exact H|exact Ht|exact Hs|apply He, Hs|].
  destruct Hr as [Hr|Hr]; [discriminate Hr|exact Hr].
Defined.
End AuthTheorems.
