(* ===== verification/AuthIsolation.v ===== *)
(** * Workspaces that visitors open for themselves

    Whatever requests, operators and timers do, and however their statements
    interleave, a person who signs up, and a visitor of the sandbox, gets a
    tenant that is nobody else's. *)

From Stdlib Require Import Ascii SpecFloat.
From stdpp Require Import gmap strings list pretty.
From S2P Require Import Prelude Encoding KeyRings BudgetLedger PolicyDsl PolicyDigest PolicyResolver PolicyEvaluation PolicyActivation Concurrency ProviderTables Outbox Communications AgentTables AgentExamples AuthTables OidcService OidcSessions GuestSandbox AuthGuards AuthExamples AuthTheorems.

Module AuthIsolation.
Import Threads Encoding Auth Oidc Sessions Guards.

Definition supply (s : State) : nat := Agent.w_supply (a_world s).

Section Isolation.
Context {A : Ciphers.Aead}.
Context (config : Config) (fresh : nat -> string) `{!Inj (=) (=) fresh}.
Context (hash : string -> string) (token : nat -> string) (nonce : nat -> string) (challenge : string -> string).
Context (jwt_verify : Z -> string -> string -> string -> option (list (string * Dsl.value))).
Context (with_params : string -> list (string * string) -> option string).
Context (resolve_url : string -> string -> option string).
Context (ring : Ciphers.KeyRing) (bundle_text : Ciphers.TokenBundle -> string)
  (parse_bundle : string -> option Ciphers.TokenBundle).
Context (scrypt : string -> string -> string) (numeric_14_2 : spec_float -> option string).
Context (localeCompare : string -> string -> comparison).

Notation handler := (handler config fresh hash token nonce challenge jwt_verify with_params resolve_url ring bundle_text
  parse_bundle scrypt numeric_14_2 localeCompare).
Notation discovery_ok := (AuthTheorems.discovery_ok config).

(** The state the system starts in. *)
Context (s0 : State).

(** ** The invariant *)

(** A sandbox session keeps its tenant for ever: it was there at the start, or
    both were drawn from the supply in one transaction. *)
Definition bound (id tenantId : string) : Prop :=
  (exists g, a_guests s0 !! id = Some g /\ gs_tenantId g = tenantId) \/
  (exists n, (supply s0 <= n)%nat /\ tenantId = fresh n /\ id = fresh (n + 5)).

Record Inv (s : State) : Prop := {
  iv_supply : (supply s0 <= supply s)%nat;
  iv_member_fresh : forall n id m, (supply s <= n)%nat -> a_memberships s !! id = Some m -> tm_tenantId m <> fresh n;
  iv_guest_fresh : forall n id g, (supply s <= n)%nat -> a_guests s !! id = Some g -> gs_tenantId g <> fresh n;
  iv_guest : forall id g, a_guests s !! id = Some g -> gs_id g = id /\ bound id (gs_tenantId g);
  iv_apart : forall id m id' g, a_memberships s !! id = Some m -> a_guests s !! id' = Some g ->
    tm_tenantId m <> gs_tenantId g;
  iv_subject : forall id id' u u', a_users s !! id = Some u -> a_users s !! id' = Some u' ->
    us_subject u = us_subject u' -> id = id';
  iv_discovery : discovery_ok s }.

(** A membership that was not there before. *)
Definition signed_up (s : State) (m : TenantMembership) : Prop :=
  tm_role m = PARTNER /\ a_users s !! tm_userId m = None /\
  exists n, (supply s <= n)%nat /\ tm_tenantId m = fresh n.

Record evolves (s s' : State) : Prop := {
  ev_supply : (supply s <= supply s')%nat;
  ev_members : forall id m, a_memberships s !! id = Some m -> a_memberships s' !! id = Some m;
  ev_users : forall id u, a_users s !! id = Some u -> a_users s' !! id = Some u;
  ev_new : forall id m, a_memberships s' !! id = Some m -> a_memberships s !! id = Some m \/
    (signed_up s m /\ forall id' m', a_memberships s' !! id' = Some m' -> tm_tenantId m' = tm_tenantId m -> id' = id) }.

(** Everything but the two tables and the sessions of the sandbox. *)
Record others (s s' : State) : Prop := {
  ot_supply : (supply s <= supply s')%nat;
  ot_members : a_memberships s' = a_memberships s;
  ot_users : a_users s' = a_users s;
  ot_guests : forall id g, a_guests s' !! id = Some g -> a_guests s !! id = Some g;
  ot_discovery : discovery_ok s -> discovery_ok s' }.

Lemma others_evolves s s' : others s s' -> evolves s s'.
Proof. intros [H1 H2 H3 H4 H5]. split; rewrite ?H2, ?H3; auto. Qed.

Lemma others_inv s s' : others s s' -> Inv s -> Inv s'.
Proof.
  intros [H1 H2 H3 H4 H5] [I1 I2 I3 I4 I5 I6 I7]. split; rewrite ?H2, ?H3; [lia| | | | |done|auto].
  - intros n id m Hn. apply I2. lia.
  - intros n id g Hn Hg. eapply I3; [|by apply H4]. lia.
  - intros id g Hg. by apply I4, H4.
  - intros id m id' g Hm Hg. eapply I5; [done|by apply H4].
Qed.

Lemma auth_others_refl s : others s s.
Proof. by split. Qed.
#[local] Hint Resolve auth_others_refl : core.

#[export] Instance evolves_pre : PreOrder evolves.
Proof.
  split; [intros s; by apply others_evolves|].
  intros s1 s2 s3 [a1 a2 a3 a4] [b1 b2 b3 b4]. split; [lia|auto|auto|].
  intros id m Hm. destruct (b4 _ _ Hm) as [Hm2|[(Hr & Hu & n & Hn & Ht) Hone]].
  - destruct (a4 _ _ Hm2) as [Hm1|[(Hr & Hu & n & Hn & Ht) Hone]]; [by left|right].
    split; [by split_and!; eauto|]. intros id' m' Hm' Heq.
    destruct (b4 _ _ Hm') as [Hm2'|[_ Hone']]; [by eapply Hone|symmetry; by eapply Hone'].
  - right. split; [|done]. split_and!; [done| |exists n; split; [lia|done]].
    destruct (a_users s1 !! tm_userId m) as [u|] eqn:E; [|done]. by rewrite (a3 _ _ E) in Hu.
Qed.

(** What a statement has to do. *)
Definition fair (s s' : State) : Prop := Inv s -> Inv s' /\ evolves s s'.

Lemma auth_fair_others s s' : others s s' -> fair s s'.
Proof. intros H HI. split; [by eapply others_inv|by apply others_evolves]. Qed.
#[local] Instance fair_refl : Reflexive fair.
Proof. intros s. by apply auth_fair_others. Qed.

(** ** Statements *)

Lemma auth_others_supply n s : (supply s <= n)%nat -> others s (put_world (Agent.put_supply n (a_world s)) s).
Proof. by split. Qed.

(** A statement of the monad that changes nothing else. *)
Definition mild {B} (m : M State Failure B) : Prop := forall s, others s (m s).2.

Lemma auth_others_trans s1 s2 s3 : others s1 s2 -> others s2 s3 -> others s1 s3.
Proof. intros [a1 a2 a3 a4 a5] [b1 b2 b3 b4 b5]. split; [lia|congruence|congruence|auto|auto]. Qed.

Lemma mild_bind {B C} (m : M State Failure B) (f : B -> M State Failure C) :
  mild m -> (forall b, mild (f b)) -> mild (m ≫= f).
Proof.
  intros Hm Hf s. unfold mbind, M_bind. specialize (Hm s). destruct (m s) as [[b|e] s']; [|done].
  eapply auth_others_trans; [exact Hm|apply Hf].
Qed.
Lemma mild_transaction {B} (m : M State Failure B) : mild m -> mild (transaction m).
Proof. intros Hm s. specialize (Hm s). unfold transaction. by destruct (m s) as [[b|e] s']. Qed.
Lemma mild_gets {B} (f : State -> B) : mild (gets f).
Proof. by intros s. Qed.
Lemma mild_guard b e : mild (guard_throw b e).
Proof. intros s. by destruct b. Qed.
Lemma mild_or_throw {B} (o : option B) e : mild (or_throw o e).
Proof. intros s. by destruct o. Qed.
Lemma mild_next : mild next.
Proof. intros s. apply auth_others_supply. unfold supply. lia. Qed.
Lemma mild_modify f : (forall s, others s (f s)) -> mild (modify f).
Proof. by intros H s. Qed.
Create HintDb mild.
#[local] Hint Resolve mild_gets mild_guard mild_or_throw mild_next mild_transaction mild_bind mild_modify : mild.

Ltac mildly := repeat first [done | apply mild_bind; [|intros ?] | apply mild_transaction | solve [auto with mild]].

Lemma mild_save_session r : mild (save_session r).
Proof. unfold save_session. mildly. Qed.
Lemma mild_delete_session id : mild (delete_session id).
Proof. apply mild_modify. by split. Qed.
Lemma mild_delete_expired now : mild (delete_expired now).
Proof. apply mild_modify. by split. Qed.
Lemma mild_delete_guest id : mild (Sandbox.delete_guest id).
Proof. apply mild_modify. split; try done. intros k g. cbn. rewrite lookup_delete_Some. by intros [? ?]. Qed.
Lemma mild_purge t : mild (modify (Sandbox.purge t)).
Proof.
  apply mild_modify. intros s. split; try done. intros k g. cbn. unfold Sandbox.without.
  rewrite map_lookup_filter_Some. by intros [? ?].
Qed.
Lemma mild_seedCase t sc : mild (Sandbox.seedCase fresh numeric_14_2 t sc).
Proof. unfold Sandbox.seedCase, Sandbox.insert_case, Sandbox.insert_consent. mildly. Qed.

Lemma mild_join : mild join_discovery.
Proof.
  intros s. unfold join_discovery. destruct (a_discovery s) as [n|]; [done|]. split; try done.
  intros H n d. unfold promised. cbn. destruct ((a_promises s ++ [None]) !! n) as [o|] eqn:E; [|done].
  apply lookup_app_Some in E as [E|[_ E]].
  - intros Ho. apply (H n d). unfold promised. by rewrite E.
  - apply list_lookup_singleton_Some in E as [_ <-]. done.
Qed.

Lemma mild_settle n issuer reply o reset :
  present (cf_issuer config) = Some issuer -> discovery_outcome issuer reply = (o, reset) -> mild (settle n o reset).
Proof.
  intros Hi Ho. apply mild_modify. intros s. split; try done. intros H k d. unfold promised. cbn.
  destruct (<[n:=Some o]> (a_promises s) !! k) as [v|] eqn:E; [|done].
  apply list_lookup_insert_Some in E as [(<- & <- & _)|[_ E]].
  - cbn. intros [= ->]. rewrite (AuthTheorems.discovery_outcome_issuer _ _ _ _ Ho). done.
  - cbn. intros ->. apply (H k d). unfold promised. by rewrite E.
Qed.

(** *** Signing up *)

Definition at_supply (n : nat) (s : State) : State := put_world (Agent.put_supply n (a_world s)) s.

(** The draws of a transaction. *)
Lemma next_run {B} (f : nat -> M State Failure B) s : (n ← next; f n) s = f (supply s) (at_supply (S (supply s)) s).
Proof. done. Qed.

Lemma next4_run {B} (f : nat -> nat -> nat -> nat -> M State Failure B) s :
  let k := supply s in
  (a ← next; b ← next; c ← next; d ← next; f a b c d) s =
  f k (S k) (S (S k)) (S (S (S k))) (at_supply (S (S (S (S k)))) s).
Proof. done. Qed.

(** An insertion either fails and changes nothing, or finds its keys free. *)
Lemma guarded_insert (b : State -> bool) e (f : State -> State) s :
  (t ← gets b; _ ← guard_throw t e; modify f) s = (if b s then (Err e, s) else (Ok tt, f s)) :> result Failure unit * State.
Proof. unfold mbind, M_bind, gets, guard_throw. by destruct (b s). Qed.

Lemma insert_tenant_run id name s :
  insert_tenant id name s = (Err UniqueViolation, s) \/
  insert_tenant id name s =
    (Ok tt, put_names (<[id := name]> (a_names s)) (put_tenants (<[id := new_tenant]> (tenants_of s)) s)).
Proof. unfold insert_tenant. rewrite guarded_insert. case_match; auto. Qed.

Lemma insert_user_run u s :
  insert_user u s = (Err UniqueViolation, s) \/
  (a_users s !! us_id u = None /\ (forall id x, a_users s !! id = Some x -> us_subject x <> us_subject u) /\
   insert_user u s = (Ok tt, put_users (<[us_id u := u]> (a_users s)) s)).
Proof.
  unfold insert_user. rewrite guarded_insert. destruct (_ || _) eqn:E; [by left|right].
  apply orb_false_iff in E as [E1 E2]. apply bool_decide_eq_false, eq_None_not_Some in E1, E2.
  split_and!; [done| |done]. intros id x Hx Hs. eapply find_row_None in E2; [|exact Hx].
  unfold has_subject in E2. by rewrite Hs, String.eqb_refl in E2.
Qed.

Lemma insert_membership_run m s :
  insert_membership m s = (Err UniqueViolation, s) \/
  (a_memberships s !! tm_id m = None /\
   insert_membership m s = (Ok tt, put_memberships (<[tm_id m := m]> (a_memberships s)) s)).
Proof.
  unfold insert_membership. rewrite guarded_insert. destruct (_ || _) eqn:E; [by left|right].
  apply orb_false_iff in E as [E1 _]. by apply bool_decide_eq_false, eq_None_not_Some in E1.
Qed.

Lemma fair_provision subject email s : fair s (provision fresh subject email s).2.
Proof using Inj0.
  intros HI. set (k := supply s).
  set (m := {| tm_id := fresh (k + 3); tm_tenantId := fresh (k + 1); tm_userId := fresh (k + 2); tm_role := PARTNER |}).
  set (u := {| us_id := fresh (k + 2); us_subject := subject; us_email := email |}).
  assert ((provision fresh subject email s).2 = s \/
    (a_users s !! fresh (k + 2) = None /\ (forall id x, a_users s !! id = Some x -> us_subject x <> subject) /\
     a_memberships s !! fresh (k + 3) = None /\
     exists s', (provision fresh subject email s).2 = s' /\ supply s' = (k + 4)%nat /\
       a_users s' = <[fresh (k + 2) := u]> (a_users s) /\
       a_memberships s' = <[fresh (k + 3) := m]> (a_memberships s) /\ a_guests s' = a_guests s /\
       a_promises s' = a_promises s)) as [->|(Hu & Hs & Hm & s' & -> & Hk & Eu & Em & Eg & Ep)].
  { unfold provision, transaction. rewrite !next_run. cbn [at_supply supply a_world put_world Agent.w_supply Agent.put_supply].
    change (Agent.w_supply (a_world s)) with k. fold k. set (s4 := at_supply (S (S (S (S k)))) _).
    unfold mbind, M_bind.
    replace (S (S (S k))) with (k + 3)%nat by lia. replace (S (S k)) with (k + 2)%nat by lia. replace (S k) with (k + 1)%nat by lia.
    destruct (insert_tenant_run (fresh (k + 1)) (workspaceName (fresh k)) s4) as [->| ->]; [by left|]. cbn beta iota.
    set (s5 := put_names _ _).
    destruct (insert_user_run u s5) as [E|(Hu & Hs & E)]; unfold u in E; rewrite E; [by left|]. fold u. cbn [mbind M_bind].
    set (s6 := put_users _ _).
    destruct (insert_membership_run m s6) as [E'|(Hm & E')]; unfold m in E'; rewrite E'; [by left|]. fold m.
    right. split_and!; [exact Hu|exact Hs|exact Hm|]. eexists. split_and!; [reflexivity| |done..].
    cbn. fold (supply s). fold k. lia. }
  { split; [done|]. done. }
  destruct HI as [I1 I2 I3 I4 I5 I6 I7]. fold k in I1, I2, I3. split.
  - split; rewrite ?Hk, ?Eg; fold k.
    + lia.
    + intros n id m' Hn. rewrite Em. intros [[<- <-]|[_ Hm']]%lookup_insert_Some; [|apply (I2 n id m'); [lia|done]].
      cbn. intros H%(inj fresh). lia.
    + intros n id g Hn. apply I3. lia.
    + done.
    + intros id m' id' g. rewrite Em. intros [[<- <-]|[_ Hm']]%lookup_insert_Some Hg; [|by eapply I5].
      cbn. intros H. symmetry in H. revert H. apply (I3 (k + 1)%nat id' g); [lia|done].
    + intros id id' x x'. rewrite Eu. intros [[<- <-]|[Hne Hx]]%lookup_insert_Some [[<- <-]|[Hne' Hx']]%lookup_insert_Some; [done| | |by apply I6].
      * intros H. destruct (Hs _ _ Hx'). by rewrite <- H.
      * intros H. by destruct (Hs _ _ Hx).
    + intros n d. unfold promised. rewrite Ep. apply I7.
  - split; [lia| | |].
    + intros id x Hx. rewrite Em. rewrite lookup_insert_ne; [done|]. intros <-. congruence.
    + intros id x Hx. rewrite Eu. rewrite lookup_insert_ne; [done|]. intros <-. congruence.
    + intros id x. rewrite Em. intros [[<- <-]|[_ Hx]]%lookup_insert_Some; [right|by left]. split.
      * split_and!; [done|done|]. exists (k + 1)%nat. split; [fold k; lia|done].
      * intros id' m' [[<- <-]|[_ Hm']]%lookup_insert_Some; [done|]. cbn. intros H. exfalso.
        apply (I2 (k + 1)%nat id' m'); [lia|done|done].
Qed.

(** *** Opening a sandbox *)

(** What the isolation is about, without the supply. *)
Definition identities (s : State) := (a_memberships s, a_users s, a_guests s, a_promises s).

Lemma insert_case_run c s r s' :
  Sandbox.insert_case c s = (r, s') -> supply s' = supply s /\ identities s' = identities s.
Proof.
  unfold Sandbox.insert_case. rewrite (guarded_insert _ _ (fun s => put_world _ s)).
  case_match; intros Hr; simplify_eq; done.
Qed.
Lemma insert_consent_run c s r s' :
  Sandbox.insert_consent c s = (r, s') -> supply s' = supply s /\ identities s' = identities s.
Proof.
  unfold Sandbox.insert_consent. rewrite (guarded_insert _ _ (fun s => put_world _ s)).
  case_match; intros Hr; simplify_eq; done.
Qed.

Lemma seedCase_run t sc s c s' :
  Sandbox.seedCase fresh numeric_14_2 t sc s = (Ok c, s') -> supply s' = (supply s + 4)%nat /\ identities s' = identities s.
Proof.
  unfold Sandbox.seedCase. rewrite next4_run. cbv zeta. set (s4 := at_supply _ _).
  assert (supply s4 = supply s + 4 /\ identities s4 = identities s)%nat as [H4 Hi].
  { split; [|done]. change (supply s4) with (S (S (S (S (supply s))))). lia. }
  rewrite <- H4, <- Hi. clearbody s4. unfold mbind, M_bind, gets, or_throw.
  destruct (numeric_14_2 _) as [amount|]; [|done]. destruct (numeric_14_2 _) as [income|]; [|done].
  cbn [mret M_ret lift]. destruct (Sandbox.insert_case _ s4) as [[u|e] s5] eqn:E5; [|done].
  destruct (Sandbox.insert_consent _ s5) as [[u'|e] s6] eqn:E6; [|done]. intros [= _ <-].
  apply insert_consent_run in E6 as [? ?]. apply insert_case_run in E5 as [? ?].
  split; congruence.
Qed.

Lemma save_guest_run g s :
  (exists e, Sandbox.save_guest g s = (Err e, s)) \/
  Sandbox.save_guest g s = (Ok tt, put_guests (<[gs_id g := g]> (a_guests s)) s).
Proof. unfold Sandbox.save_guest. rewrite guarded_insert. case_match; eauto. Qed.

(** A session for a tenant that no membership has. *)
Lemma fair_guest g s s' :
  Inv s -> (supply s <= supply s')%nat ->
  identities s' = (a_memberships s, a_users s, <[gs_id g := g]> (a_guests s), a_promises s) ->
  bound (gs_id g) (gs_tenantId g) ->
  (forall n, (supply s' <= n)%nat -> gs_tenantId g <> fresh n) ->
  (forall id m, a_memberships s !! id = Some m -> tm_tenantId m <> gs_tenantId g) ->
  Inv s' /\ evolves s s'.
Proof.
  intros [I1 I2 I3 I4 I5 I6 I7] Hk [= Em Eu Eg Ep] Hb Hf Ha. split.
  - split; rewrite ?Em, ?Eu; [lia| | | | |done|].
    + intros n id m Hn. apply I2. lia.
    + intros n id g'. rewrite Eg. intros Hn [[<- <-]|[_ Hg]]%lookup_insert_Some; [by apply Hf|]. apply (I3 n id g'); [lia|done].
    + intros id g'. rewrite Eg. intros [[<- <-]|[_ Hg]]%lookup_insert_Some; [done|by apply I4].
    + intros id m id' g'. rewrite Eg. intros Hm [[<- <-]|[_ Hg]]%lookup_insert_Some; [by eapply Ha|by eapply I5].
    + intros n d. unfold promised. rewrite Ep. apply I7.
  - split; rewrite ?Em, ?Eu; [lia|done|done|]. intros id m. by left.
Qed.

Lemma fair_open_sandbox actor h c now exp sc s :
  fair s (Sandbox.open_sandbox fresh numeric_14_2 actor h c now exp sc s).2.
Proof using Inj0.
  intros HI. set (k := supply s). unfold Sandbox.open_sandbox, transaction. rewrite !next_run.
  change (supply (at_supply (S (supply s)) s)) with (S k). fold k. set (s2 := at_supply _ _).
  unfold mbind, M_bind. destruct (insert_tenant_run (fresh (S k)) ("Portfolio sandbox " +:+ String.substring 0 8 (fresh k)) s2)
    as [->| ->]; [by apply fair_refl|]. cbn beta iota. set (s3 := put_names _ _).
  destruct (Sandbox.seedCase _ _ _ _ s3) as [[x|e] s4] eqn:E4; [|by apply fair_refl]. apply seedCase_run in E4 as [H4 Hi4].
  assert (supply s3 = k + 2)%nat as H3 by (change (supply s3) with (S (S k)); lia).
  cbn [next]. change (Agent.w_supply (a_world s4)) with (supply s4). set (s5 := put_world _ s4).
  assert (identities s5 = identities s) as Hi5 by (transitivity (identities s4); [done|by rewrite Hi4]).
  assert (supply s5 = S (k + 2 + 4)) as H5 by (change (supply s5) with (S (supply s4)); congruence).
  set (g := {| gs_id := _ |}). destruct (save_guest_run g s5) as [[e ->]| ->]; [by apply fair_refl|]. cbn beta iota.
  apply (fair_guest g); [done| | | | |].
  - change (supply s <= supply s5)%nat. rewrite H5. fold k. lia.
  - unfold identities in *. injection Hi5 as E1 E2 E3 E4. cbn. by rewrite <- E1, <- E2, <- E3, <- E4.
  - right. exists (S k). split; [destruct HI as [I1 _ _ _ _ _ _]; fold k in I1; lia|]. split; [done|].
    change (fresh (supply s4) = fresh (S k + 5)). f_equal. lia.
  - intros n Hn. cbn. intros H%(inj fresh). change (supply s5 <= n)%nat in Hn. rewrite H5 in Hn. lia.
  - intros id m Hm. cbn. intros H. apply (iv_member_fresh _ HI (S k) id m); [fold k; lia|done|done].
Qed.

(** ** Handlers *)

(** The handler's statements keep the invariant and only evolve the state, in
    every interleaving. *)
Definition good {B} (p : prog B) : Prop :=
  forall s, relies Inv evolves (fun _ _ => True) (fun _ _ => True) p s.

Lemma good_bind {B C} (p : prog B) (f : B -> prog C) : good p -> (forall b, good (f b)) -> good (p ≫= f).
Proof. intros Hp Hf s. apply relies_bind. eapply relies_mono; [|apply Hp]. intros [b|e] s' _; [apply Hf|done]. Qed.
Lemma good_catch {B} (p : prog B) (h : Failure -> prog B) : good p -> (forall e, good (h e)) -> good (pcatch p h).
Proof.
  intros Hp Hh s. specialize (Hp s). revert s Hp. induction p as [[b|e]|C m k IH|q k IH]; intros s Hp; cbn in *; [done|apply Hh| |].
  - intros s' He HI. destruct (Hp s' He HI) as (? & ? & ?). auto.
  - intros s' He HI. destruct (Hp s' He HI) as [? ?]. auto.
Qed.
Lemma good_fair {B} (m : M State Failure B) : (forall s, fair s (m s).2) -> good (atomically m).
Proof. intros Hm s s' He HI. destruct (Hm s' HI). by split_and!. Qed.
Lemma good_mild {B} (m : M State Failure B) : mild m -> good (atomically m).
Proof. intros Hm. apply good_fair. intros s. apply auth_fair_others, Hm. Qed.
Lemma good_done {B} (r : result Failure B) : good (Done r).
Proof. done. Qed.
Lemma good_emit q : good (emit q).
Proof. by intros s s' He HI. Qed.
Lemma good_fetch m u ps : good (fetch m u ps).
Proof. by intros s s' He HI. Qed.

Ltac goodly :=
  repeat first
    [ apply good_emit
    | apply good_fetch
    | apply good_done
    | apply good_mild; solve [mildly | apply mild_save_session | apply mild_delete_session | apply mild_delete_expired
                             | apply mild_delete_guest | apply mild_purge | apply mild_join | apply mild_seedCase
                             | apply mild_transaction, mild_seedCase]
    | match goal with
      | |- good (_ ≫= _) => apply good_bind; [|intros ?]
      | |- good (pcatch _ _) => apply good_catch; [|intros ?]
      | |- good (match ?x with _ => _ end) => destruct x
      | |- good (let _ := _ in _) => cbv zeta
      | |- good (mret _) => apply good_done
      | |- good (fail _) => apply good_done
      end ].

Lemma good_getDiscoveryDocument : good (getDiscoveryDocument config).
Proof.
  unfold getDiscoveryDocument. destruct (present (cf_issuer config)) as [issuer|] eqn:Hi; [|apply good_done].
  destruct (present (cf_audience config)) as [aud|]; [|apply good_done].
  apply good_bind; [apply good_mild, mild_join|]. intros [n first]. destruct first; unfold fetchDiscoveryDocument, discovered; [|goodly].
  apply good_bind; [goodly|]. intros reply. destruct (discovery_outcome issuer reply) as [o reset] eqn:E.
  apply good_bind; [|intros; apply good_done]. by eapply good_mild, mild_settle.
Qed.
Lemma good_requestTokens ps : good (requestTokens config ps).
Proof. unfold requestTokens. goodly. apply good_getDiscoveryDocument. Qed.
Lemma good_verifyToken t use : good (verifyToken config jwt_verify t use).
Proof. unfold verifyToken. goodly. apply good_getDiscoveryDocument. Qed.

Lemma good_authenticateCookie rq csrf :
  good (authenticateCookie config hash token nonce jwt_verify ring bundle_text parse_bundle rq csrf).
Proof.
  unfold authenticateCookie, resolve_csrf, resolve_claims, assertCsrf, decrypt, encrypt, clearSessionCookies,
    Sessions.randomToken, refresh, verify. goodly; try apply good_requestTokens; apply good_verifyToken.
Qed.

(** *** The session of a visitor, read, renewed and written back *)

Definition known (g : GuestSandboxSession) (s : State) : Prop :=
  bound (gs_id g) (gs_tenantId g) /\
  (forall id m, a_memberships s !! id = Some m -> tm_tenantId m <> gs_tenantId g) /\
  (forall n, (supply s <= n)%nat -> gs_tenantId g <> fresh n).

Lemma known_stable g s s' : evolves s s' -> known g s -> known g s'.
Proof.
  intros [e1 e2 e3 e4] (Hb & Hm & Hn). split_and!; [done| |intros n Hl; apply Hn; lia].
  intros id m Hid. destruct (e4 _ _ Hid) as [H|[(_ & _ & n & Hl & ->) _]]; [by eapply Hm|].
  intros H. by apply (Hn n Hl).
Qed.

Lemma known_found g id s : Inv s -> a_guests s !! id = Some g -> known g s.
Proof.
  intros HI Hg. destruct (iv_guest _ HI _ _ Hg) as [<- Hb]. split_and!; [done| |].
  - intros i m Hm. by eapply (iv_apart _ HI).
  - intros n Hn. by eapply (iv_guest_fresh _ HI).
Qed.

Lemma good_save_guest g h s :
  known g s ->
  relies (Q := Request) (R := Reply) Inv evolves (fun _ _ => True) (fun _ _ => True)
    (atomically (Sandbox.save_guest (Sandbox.set_guest_csrf h g))) s.
Proof.
  intros Hk s' He HI. pose proof (known_stable _ _ _ He Hk) as (Hb & Hm & Hn).
  destruct (save_guest_run (Sandbox.set_guest_csrf h g) s') as [[e ->]| ->]; [by split_and!|].
  destruct (fair_guest (Sandbox.set_guest_csrf h g) s' (put_guests (<[gs_id g := Sandbox.set_guest_csrf h g]> (a_guests s')) s'))
    as [H1 H2]; done.
Qed.

Lemma good_resolve rq csrf : good (Sandbox.resolve config hash token rq csrf).
Proof.
  unfold Sandbox.resolve. destruct (cookie rq _) as [raw|]; [|apply good_done]. intros s.
  apply relies_gets; [apply _|]. intros s1 _ HI.
  apply relies_gets; [apply _|]. intros s2 He2 _.
  destruct (Sandbox.unexpired _ _) as [g|] eqn:Hlive; [|apply good_bind; unfold Sandbox.clearCookies; [goodly|intros; apply good_done]].
  unfold Sandbox.unexpired in Hlive. destruct (Sandbox.guest_with_hash (hash raw) s1) as [found|] eqn:Hg; [|done].
  cbn in Hlive. destruct (gs_expiresAt found <=? now_of s2); [done|]. injection Hlive as ->.
  apply find_row_Some in Hg as (_ & id & Hg). pose proof (known_stable _ _ _ He2 (known_found _ _ _ HI Hg)) as Hk.
  destruct (Sandbox.fitting_csrf hash rq g) as [c|].
  { destruct csrf; cbn [andb]; [|done]. by destruct (negb (Sandbox.check_csrf hash rq c g)). }
  destruct csrf; [done|].
  unfold Sandbox.randomToken. apply relies_bind, relies_bind. intros s3 He3 HI3.
  pose proof (auth_fair_others _ _ (mild_next s3) HI3) as [HI4 He4]. split_and!; [done..|].
  cbn [relies mret Prog_ret]. change ((next s3).1) with (Ok (supply s3) : result Failure nat). cbn [relies].
  apply relies_bind. eapply relies_mono; [|apply good_save_guest; do 2 (eapply known_stable; [eassumption|]); done].
  intros [u|e] s5 _; [|done]. revert s5. change (good (_ ← emit (SetCookie (Sandbox.guest_cookie config Sandbox.GUEST_SANDBOX_CSRF_COOKIE (token (supply s3)) false
    (gs_expiresAt (Sandbox.set_guest_csrf (hash (token (supply s3))) g)))); mret (Sandbox.set_guest_csrf (hash (token (supply s3))) g, token (supply s3)))).
  goodly.
Qed.

(** *** The endpoints *)

Lemma good_guest rq csrf : good (Sandbox.authenticate config fresh hash token rq csrf).
Proof. unfold Sandbox.authenticate, Sandbox.uuid4. goodly. apply good_resolve. Qed.

Lemma good_resolveUser ac ic : good (resolveUser config fresh ac ic).
Proof.
  unfold resolveUser. goodly. apply good_fair. intros st. apply fair_provision.
Qed.

Lemma good_purge_all gs n : good (Sandbox.purge_all gs n).
Proof.
  revert n. induction gs as [|g gs IH]; intros n; cbn [Sandbox.purge_all]; unfold Sandbox.purgeTenantData; goodly. apply IH.
Qed.

Lemma good_TenantAuthGuard rq :
  good (TenantAuthGuard config fresh hash token nonce jwt_verify ring bundle_text parse_bundle scrypt rq).
Proof.
  unfold TenantAuthGuard, ApiKeyGuard, OidcGuard, GuestSandboxGuard, user_of_token, verify, randomUUID.
  goodly; first [apply good_verifyToken|apply good_authenticateCookie|apply good_guest].
Qed.

Lemma good_audit recorded e :
  good (atomically (zoom (fun s => Agent.w_tables (a_world s)) (fun db s => put_world (Agent.put_tables db (a_world s)) s)
    (fun _ => OtherError "audit") (Tables.audit recorded e))).
Proof.
  apply good_mild. intros s. unfold zoom, Tables.audit. by destruct recorded.
Qed.

Lemma good_serve op : good (serve config fresh hash token nonce challenge jwt_verify with_params resolve_url ring bundle_text
  parse_bundle scrypt numeric_14_2 localeCompare op).
Proof.
  destruct op; cbn [serve];
    unfold beginLogin, completeSessionLogin, completeLogin, getSession, Sessions.logout, OidcIdentityGuard, user_of_token,
      Sandbox.create, Sandbox.getSession, Sandbox.logout, Sandbox.createAdditionalCase, Sandbox.purgeExpiredSessions,
      PlatformAdminGuard, create_client, rotate, revoke, save_client, create_admin, find_client, generateApiClientSecret,
      RoleGuard, encrypt, decrypt, assertCsrf, clearSessionCookies, clearLoginCookies, setSessionCookies,
      Sessions.randomToken, Sandbox.randomToken, Sandbox.uuid4, randomUUID, Sandbox.setCookies, Sandbox.clearCookies,
      exchangeAuthorizationCode, verify, verifyIdToken, buildAuthorizationUrl, buildLogoutUrl, url, invalid_url, listForUser;
    goodly;
    first [apply good_verifyToken|apply good_authenticateCookie|apply good_guest|apply good_resolve|apply good_requestTokens
          |apply good_getDiscoveryDocument|apply good_purge_all|apply good_TenantAuthGuard|apply good_resolveUser|apply good_audit
          |apply good_fair; intros ?; apply fair_open_sandbox].
Qed.

Lemma good_handler op : good (handler op).
Proof.
  unfold Guards.handler. apply good_bind; [|intros; apply good_emit].
  apply good_catch; [apply good_serve|intros; apply good_done].
Qed.

(** ** The property *)

Lemma isolation_sound w :
  Inv s0 -> reachable handler others s0 w -> Inv (db w) /\ evolves s0 (db w).
Proof using Inj0.
  intros H0 Hr. destruct (relies_reached Inv evolves (fun _ _ => True) handler others s0 w) as (? & ? & _); [done|..|done].
  - intros op s. apply good_handler.
  - intros s s' He HI. pose proof (others_evolves _ _ He). split; [by eapply others_inv|done].
  - done.
  - done.
Qed.

Lemma bound_once id id' t :
  Inv s0 -> (forall i i' g g', a_guests s0 !! i = Some g -> a_guests s0 !! i' = Some g' -> gs_tenantId g = gs_tenantId g' -> i = i') ->
  bound id t -> bound id' t -> id = id'.
Proof using Inj0.
  intros HI Hone [(g & Hg & <-)|(n & Hn & -> & ->)] [(g' & Hg' & Heq)|(n' & Hn' & Heq & ->)].
  - by eapply Hone.
  - exfalso. by apply (iv_guest_fresh _ HI n' id g).
  - exfalso. by apply (iv_guest_fresh _ HI n id' g').
  - by apply (inj fresh) in Heq as ->.
Qed.

(** C4: In every interleaving of the identity endpoints, of operators and of the
    purge, with crashes and with whatever the rest of the platform does: a
    membership that was not there before is the only one of a tenant that did
    not exist before, for a person unknown before, with the lesser role; the
    tenant of a sandbox session has no member and no other session; nobody
    has two accounts; memberships and accounts are not lost; and the metadata
    that tokens are verified with is the configured issuer's. *)
Theorem self_service_is_isolated w :
  Inv s0 -> (forall i i' g g', a_guests s0 !! i = Some g -> a_guests s0 !! i' = Some g' -> gs_tenantId g = gs_tenantId g' -> i = i') ->
  reachable handler others s0 w ->
  (forall id m, a_memberships (db w) !! id = Some m -> a_memberships s0 !! id = Some m \/
    signed_up s0 m /\ forall id' m', a_memberships (db w) !! id' = Some m' -> tm_tenantId m' = tm_tenantId m -> id' = id) /\
  (forall id g, a_guests (db w) !! id = Some g ->
    (forall id' m, a_memberships (db w) !! id' = Some m -> tm_tenantId m <> gs_tenantId g) /\
    (forall id' g', a_guests (db w) !! id' = Some g' -> gs_tenantId g' = gs_tenantId g -> id' = id)) /\
  (forall id id' u u', a_users (db w) !! id = Some u -> a_users (db w) !! id' = Some u' -> us_subject u = us_subject u' -> id = id') /\
  a_memberships s0 ⊆ a_memberships (db w) /\ a_users s0 ⊆ a_users (db w) /\ discovery_ok (db w).
Proof using Inj0.
  intros HI0 Hone Hr. destruct (isolation_sound w HI0 Hr) as [HI HE]. split_and!.
  - apply HE.
  - intros id g Hg. split.
    + intros id' m Hm. by eapply (iv_apart _ HI).
    + intros id' g' Hg' Heq. destruct (iv_guest _ HI _ _ Hg) as [_ Hb]. destruct (iv_guest _ HI _ _ Hg') as [_ Hb'].
      rewrite Heq in Hb'. by eapply bound_once.
  - apply HI.
  - apply map_subseteq_spec. apply HE.
  - apply map_subseteq_spec. apply HE.
  - apply HI.
Qed.
End Isolation.

#[local] Existing Instances Ciphers.Toy.aead Ciphers.Toy.laws.

Lemma empty_inv : Inv AuthExamples.config0 AgentExamples.fresh0 AuthExamples.state0 AuthExamples.state0.
Proof. split; done. Qed.

#[local] Instance fresh0_inj : Inj (=) (=) AgentExamples.fresh0.
Proof. intros n m H. unfold AgentExamples.fresh0 in H. apply (inj (String.append "id")) in H. by apply (inj pretty) in H. Qed.

Lemma self_service_is_isolated_witness :
  exists w, AuthExamples.sessions AgentExamples.fresh0 AuthExamples.script0 AuthExamples.start0 = Some w /\
    (size (a_memberships (db w)), size (a_guests (db w))) = (2, 2)%nat /\
    (forall id m, a_memberships (db w) !! id = Some m -> a_memberships AuthExamples.state0 !! id = Some m \/
      signed_up AgentExamples.fresh0 AuthExamples.state0 m /\
      forall id' m', a_memberships (db w) !! id' = Some m' -> tm_tenantId m' = tm_tenantId m -> id' = id) /\
    (forall id g, a_guests (db w) !! id = Some g ->
      (forall id' m, a_memberships (db w) !! id' = Some m -> tm_tenantId m <> gs_tenantId g) /\
      (forall id' g', a_guests (db w) !! id' = Some g' -> gs_tenantId g' = gs_tenantId g -> id' = id)).
Proof.
  destruct (AuthExamples.sessions AgentExamples.fresh0 AuthExamples.script0 AuthExamples.start0) as [w|] eqn:E;
    [|vm_compute in E; discriminate E].
  exists w. destruct (self_service_is_isolated AuthExamples.config0 AgentExamples.fresh0 AuthExamples.hash0 AuthExamples.token0
    (fun _ => Ciphers.Toy.iv) (fun v => v) AuthExamples.jwt0 AuthExamples.params0 AuthExamples.resolve0 Ciphers.Toy.ring
    Ciphers.Toy.bundle_text Ciphers.Toy.parse_bundle AuthExamples.scrypt0 (fun _ => Some "1.00") AuthExamples.compare0
    AuthExamples.state0 w empty_inv) as (H1 & H2 & _).
  - by intros i i' g g' H.
  - by apply (AuthExamples.sessions_steps AgentExamples.fresh0 (others AuthExamples.config0)) in E.
  - split; [reflexivity|]. split; [vm_compute in E; injection E as <-; reflexivity|]. by split.
Defined.
End AuthIsolation.
