(* ===== verification/SandboxPurge.v ===== *)
(** * The purge of a tenant is exact

    database/purge-tenant-data.ts deletes, table by table, what a tenant owns.
    [purge_is_exact] says of every table of the model what is left. *)

From Stdlib Require Import Ascii SpecFloat.
From stdpp Require Import gmap strings list.
From S2P Require Import Prelude BudgetLedger PolicyDsl PolicyDigest PolicyResolver PolicyEvaluation PolicyActivation Concurrency ProviderTables Outbox Communications AgentTables AgentExamples AuthTables OidcService OidcSessions GuestSandbox AuthGuards AuthExamples.

Module SandboxPurge.
Import Auth Sessions Sandbox.

Section Purge.
Context (t : string).

(** Exactly the rows of the tenant are gone. *)
Definition exact {K A} `{Countable K} (tenant : A -> string) (m m' : gmap K A) : Prop :=
  forall k r, m' !! k = Some r <-> m !! k = Some r /\ tenant r <> t.

Lemma without_exact {K A} `{Countable K} (tenant : A -> string) (m : gmap K A) : exact tenant m (without t tenant m).
Proof. intros k r. unfold without. by rewrite map_lookup_filter_Some. Qed.

Lemma elem_keys_of {A} (tenant : A -> string) (m : gmap string A) k :
  k ∈ keys_of t tenant m <-> exists r, m !! k = Some r /\ tenant r = t.
Proof.
  unfold keys_of. rewrite list_elem_of_fmap. split.
  - intros ([k' r] & -> & Hin). apply elem_of_map_to_list, map_lookup_filter_Some in Hin. by exists r.
  - intros (r & Hr & Ht). exists (k, r). split; [done|]. by apply elem_of_map_to_list, map_lookup_filter_Some.
Qed.

(** Rows of other tenants do not refer to the tenant's: the foreign keys are on
    the identifier alone, or on both columns. *)
Definition respects {A B} (tenant ref : A -> string) (tenant' : B -> string) (m : gmap string A) (m' : gmap string B) : Prop :=
  forall k r r', m !! k = Some r -> m' !! ref r = Some r' -> tenant' r' = t -> tenant r = t.

(** Then the cascade deletes nothing else. *)
Lemma cascade_exact {A B} (tenant ref : A -> string) (tenant' : B -> string) (m m1 : gmap string A) (m' : gmap string B) :
  respects tenant ref tenant' m m' -> exact tenant m m1 ->
  exact tenant m (without_ref ref (keys_of t tenant' m') m1).
Proof.
  intros Hr He k r. unfold without_ref. rewrite map_lookup_filter_Some, (He k r). cbn. rewrite elem_keys_of. split.
  - by intros [? _].
  - intros [Hk Ht]. split; [done|]. intros (r' & Hr' & Ht'). apply Ht. by eapply Hr.
Qed.

Record coherent (w : Agent.World) : Prop := {
  co_reservations : respects Ledger.rs_tenantId Ledger.rs_ledgerId Ledger.lg_tenantId
    (Ledger.reservations (Agent.w_budget w)) (Ledger.ledgers (Agent.w_budget w));
  co_evidence : respects Tables.ev_tenantId Tables.ev_caseId Agent.lc_tenantId
    (Tables.evidence (Agent.w_tables w)) (Agent.w_cases w);
  co_conditions : respects Agent.cn_tenantId Agent.cn_caseId Agent.lc_tenantId (Agent.w_conditions w) (Agent.w_cases w) }.

(** What is left of the budget, of the provider platform and of the cases. *)
Definition budget_exact (b b' : Ledger.DB) : Prop :=
  exact Ledger.rs_tenantId (Ledger.reservations b) (Ledger.reservations b') /\
  exact Ledger.lg_tenantId (Ledger.ledgers b) (Ledger.ledgers b') /\
  (forall k u, Ledger.usage b' !! k = Some u <-> Ledger.usage b !! k = Some u /\ k.1 <> t).

Definition provider_exact (db db' : Tables.Db) : Prop :=
  exact Tables.it_tenantId (Tables.intents db) (Tables.intents db') /\
  exact Tables.gr_tenantId (Tables.grants db) (Tables.grants db') /\
  exact Tables.pd_tenantId (Tables.decisions db) (Tables.decisions db') /\
  exact Tables.ev_tenantId (Tables.evidence db) (Tables.evidence db') /\
  exact Tables.dt_tenantId (Tables.tasks db) (Tables.tasks db') /\
  exact Tables.cr_tenantId (Tables.consents db) (Tables.consents db') /\
  (Tables.clock db', Tables.statuses db', Tables.manifests db', Tables.certifications db', Tables.approvals db',
   Tables.activations db', Tables.holds db', Tables.audit_events db') =
  (Tables.clock db, Tables.statuses db, Tables.manifests db, Tables.certifications db, Tables.approvals db,
   Tables.activations db, Tables.holds db, Tables.audit_events db).

Definition policy_exact (p p' : Evaluation.PolicyDb) : Prop :=
  exact Evaluation.bd_tenantId (Evaluation.bindings p) (Evaluation.bindings p') /\
  exact Evaluation.sn_tenantId (Evaluation.snapshots p) (Evaluation.snapshots p') /\
  Evaluation.generation p' = Evaluation.generation p /\ Evaluation.catalog p' = Evaluation.catalog p.

Definition comms_exact (c c' : Comms.Db) : Prop :=
  exact Outbox.oe_tenantId (Comms.outbox c) (Comms.outbox c') /\
  exact Comms.cm_tenantId (Comms.messages c) (Comms.messages c') /\
  (forall a, a ∈ Comms.approvals c' <-> a ∈ Comms.approvals c /\
     ~ exists m, Comms.messages c !! Comms.ca_communicationMessageId a = Some m /\ Comms.cm_tenantId m = t) /\
  Comms.templates c' = Comms.templates c /\ Comms.audits c' = Comms.audits c.

Definition cases_exact (w w' : Agent.World) : Prop :=
  exact Agent.lc_tenantId (Agent.w_cases w) (Agent.w_cases w') /\
  exact Agent.cn_tenantId (Agent.w_conditions w) (Agent.w_conditions w') /\
  (forall x, x ∈ Agent.w_transitions w' <-> x ∈ Agent.w_transitions w /\
     ~ exists c, Agent.w_conditions w !! Agent.tr_conditionId x = Some c /\ Agent.cn_tenantId c = t) /\
  exact Agent.em_tenantId (Agent.w_manifests w) (Agent.w_manifests w') /\
  exact Agent.mi_tenantId (Agent.w_invocations w) (Agent.w_invocations w') /\
  (forall r, r ∈ Agent.w_runs w' <-> r ∈ Agent.w_runs w /\ Agent.ar_tenantId r <> t).

Lemma budget_purged (w : Agent.World) : coherent w ->
  let b := Agent.w_budget w in let b' := purge_budget t b in
  exact Ledger.rs_tenantId (Ledger.reservations b) (Ledger.reservations b') /\
  exact Ledger.lg_tenantId (Ledger.ledgers b) (Ledger.ledgers b') /\
  (forall k u, Ledger.usage b' !! k = Some u <-> Ledger.usage b !! k = Some u /\ k.1 <> t).
Proof.
  intros Hc. split_and!.
  - apply cascade_exact; [exact (co_reservations _ Hc)|apply without_exact].
  - apply without_exact.
  - intros k u. cbn. by rewrite map_lookup_filter_Some.
Qed.

(** The world after the purge, component by component. *)
Lemma world_purged (w : Agent.World) : exists transitions conditions,
  let db := Agent.w_tables w in let c := Agent.w_comms w in
  purge_world t w =
  {| Agent.w_dbclock := Agent.w_dbclock w; Agent.w_supply := Agent.w_supply w;
     Agent.w_tables :=
       Tables.with_evidence (without_ref Tables.ev_caseId (keys_of t Agent.lc_tenantId (Agent.w_cases w))
         (without t Tables.ev_tenantId (Tables.evidence db))) (purge_consents t (purge_provider t db));
     Agent.w_budget := purge_budget t (Agent.w_budget w); Agent.w_policy := purge_policy t (Agent.w_policy w);
     Agent.w_comms := purge_messages t (purge_outbox t c);
     Agent.w_cases := without t Agent.lc_tenantId (Agent.w_cases w);
     Agent.w_conditions := conditions; Agent.w_transitions := transitions;
     Agent.w_manifests := without t Agent.em_tenantId (Agent.w_manifests w);
     Agent.w_invocations := without t Agent.mi_tenantId (Agent.w_invocations w);
     Agent.w_runs := filter (fun r => Agent.ar_tenantId r <> t) (Agent.w_runs w) |} /\
  conditions = without_ref Agent.cn_caseId (keys_of t Agent.lc_tenantId (Agent.w_cases w))
    (without t Agent.cn_tenantId (Agent.w_conditions w)) /\
  transitions = filter (fun x => Agent.tr_conditionId x ∉
      (map_to_list (filter (fun kr => Agent.cn_caseId kr.2 ∈ keys_of t Agent.lc_tenantId (Agent.w_cases w))
        (without t Agent.cn_tenantId (Agent.w_conditions w)))).*1)
    (filter (fun x => Agent.tr_conditionId x ∉ keys_of t Agent.cn_tenantId (Agent.w_conditions w)) (Agent.w_transitions w)).
Proof.
  destruct w. eexists _, _.
  cbv beta iota zeta delta [purge_world purge_cases purge_runs purge_conditions Agent.put_tables Agent.put_budget
    Agent.put_policy Agent.put_comms Agent.put_cases Agent.put_conditions Agent.put_transitions Agent.put_manifests
    Agent.put_invocations Agent.put_runs Agent.w_tables Agent.w_budget Agent.w_policy Agent.w_comms Agent.w_cases
    Agent.w_conditions Agent.w_transitions Agent.w_manifests Agent.w_invocations Agent.w_runs Agent.w_dbclock Agent.w_supply].
  split; [|split]; reflexivity.
Qed.

Lemma provider_purged (w : Agent.World) : coherent w ->
  provider_exact (Agent.w_tables w) (Agent.w_tables (purge_world t w)).
Proof.
  intros Hc. destruct (world_purged w) as (? & ? & -> & _ & _).
  pose proof (co_evidence _ Hc). unfold provider_exact. cbn [Agent.w_tables]. destruct (Agent.w_tables w).
  refine (conj (without_exact _ _) (conj (without_exact _ _) (conj (without_exact _ _) (conj _
    (conj (without_exact _ _) (conj (without_exact _ _) eq_refl)))))).
  by apply (cascade_exact _ _ Agent.lc_tenantId), without_exact.
Qed.

Lemma comms_purged (w : Agent.World) : comms_exact (Agent.w_comms w) (Agent.w_comms (purge_world t w)).
Proof.
  destruct (world_purged w) as (? & ? & -> & _ & _). unfold comms_exact. cbn [Agent.w_comms]. destruct (Agent.w_comms w).
  refine (conj (without_exact _ _) (conj (without_exact _ _) (conj _ (conj eq_refl eq_refl)))).
  intros a. cbn. rewrite list_elem_of_filter, elem_keys_of. tauto.
Qed.

Lemma cases_purged (w : Agent.World) : coherent w -> cases_exact w (purge_world t w).
Proof.
  intros Hc. destruct (world_purged w) as (x & y & -> & -> & ->). unfold cases_exact.
  cbn [Agent.w_cases Agent.w_conditions Agent.w_transitions Agent.w_manifests Agent.w_invocations Agent.w_runs].
  refine (conj (without_exact _ _) (conj _ (conj _ (conj (without_exact _ _) (conj (without_exact _ _) _))))).
  - apply (cascade_exact _ _ Agent.lc_tenantId); [exact (co_conditions _ Hc)|apply without_exact].
  - intros x. rewrite !list_elem_of_filter, elem_keys_of.
    assert (forall k, k ∉ (map_to_list (filter (fun kr => Agent.cn_caseId kr.2 ∈ keys_of t Agent.lc_tenantId (Agent.w_cases w))
      (without t Agent.cn_tenantId (Agent.w_conditions w)))).*1) as Hno.
    { intros k Hk. apply list_elem_of_fmap in Hk as ([k' c] & -> & Hin).
      apply elem_of_map_to_list, map_lookup_filter_Some in Hin as [Hl Hin]. cbn in Hin. apply elem_keys_of in Hin as (r & Hr & Ht).
      apply map_lookup_filter_Some in Hl as [Hl Hne]. apply Hne. by eapply (co_conditions _ Hc). }
    split; [by intros (_ & ? & ?)|]. intros [Hx Hn]. split_and!; [apply Hno|done|done].
  - intros r. rewrite list_elem_of_filter. tauto.
Qed.

Lemma policy_purged (w : Agent.World) : policy_exact (Agent.w_policy w) (Agent.w_policy (purge_world t w)).
Proof.
  destruct (world_purged w) as (? & ? & -> & _ & _). unfold policy_exact. cbn [Agent.w_policy].
  exact (conj (without_exact _ _) (conj (without_exact _ _) (conj eq_refl eq_refl))).
Qed.

Lemma ledger_purged (w : Agent.World) : coherent w ->
  budget_exact (Agent.w_budget w) (Agent.w_budget (purge_world t w)).
Proof.
  intros Hc. destruct (world_purged w) as (? & ? & -> & _ & _). destruct (budget_purged w Hc) as (H1 & H2 & H3).
  unfold budget_exact. cbn [Agent.w_budget]. by split_and!.
Qed.

End Purge.

End SandboxPurge.
