(* ===== verification/AuthCredentials.v ===== *)
(** * The life of a credential

    What auth/api-client.service.ts hands out, and what auth/api-key.guard.ts
    makes of it: the token of a new client is accepted as that client, the
    token of a rotation replaces the one before, and nothing is accepted for a
    client that is revoked. *)

From Stdlib Require Import Ascii SpecFloat.
From stdpp Require Import gmap strings list.
From S2P Require Import Prelude Encoding KeyRings BudgetLedger PolicyDsl PolicyDigest PolicyResolver PolicyEvaluation PolicyActivation Concurrency ProviderTables Outbox Communications AgentTables AgentExamples AuthTables OidcService OidcSessions GuestSandbox AuthGuards AuthExamples.

Module AuthCredentials.
Import Threads Encoding Auth Guards.

(** ** Texts of credentials *)

Definition spaceless (s : string) : Prop := Forall (fun c => JS.is_space c = false) (chars s).

Lemma drop_while_none p l : Forall (fun c => p c = false) l -> JS.drop_while p l = l.
Proof. intros H. destruct H as [|c l' Hc _]; [done|]. cbn. by rewrite Hc. Qed.

Lemma trim_spaceless s : spaceless s -> JS.trim s = s.
Proof.
  intros Hs. unfold JS.trim, JS.strip. rewrite (drop_while_none _ (chars s)) by done.
  rewrite drop_while_none by (unfold spaceless in Hs; rewrite Forall_forall in Hs |- *; intros c; rewrite elem_of_reverse; apply Hs).
  by rewrite reverse_involutive, String.string_of_list_ascii_of_string.
Qed.

Lemma hex_char_plain c : is_hex c = true -> JS.is_space c = false /\ c <> "."%char /\ c <> ":"%char.
Proof. destruct c as [[] [] [] [] [] [] [] []]; vm_compute; by intros. Qed.

Lemma to_hex_chars s : Forall (fun c => is_hex c = true) (chars (to_hex s)).
Proof.
  assert (forall n, 0 <= n < 16 -> is_hex (hex_char n) = true) as H.
  { intros n Hn. unfold is_hex. by rewrite hex_value_char. }
  induction s as [|c s IH]; cbn -[Z.div Z.modulo]; [done|]. pose proof (byte_value_range c).
  constructor; [apply H; div_lia|]. constructor; [apply H; div_lia|done].
Qed.

Lemma all_chars_chars p s : all_chars p s = true -> Forall (fun c => p c = true) (chars s).
Proof. induction s as [|c s IH]; cbn; [done|]. intros [? ?]%andb_true_iff. by constructor; [|apply IH]. Qed.

Lemma split_chars sep s c : c ∈ chars s -> c = sep \/ exists p, p ∈ JS.split_on sep s /\ c ∈ chars p.
Proof.
  induction s as [|a s IH]; cbn -[Ascii.eqb]; [by intros ?%elem_of_nil|]. intros Hc.
  destruct (Ascii.eqb_spec a sep) as [->|Ha].
  - apply elem_of_cons in Hc as [->|Hc]; [by left|]. destruct (IH Hc) as [->|(p & Hp & Hin)]; [by left|].
    right. exists p. split; [by apply elem_of_cons; right|done].
  - destruct (JS.split_on sep s) as [|p ps] eqn:E.
    + by apply Ciphers.split_on_nonempty in E.
    + apply elem_of_cons in Hc as [->|Hc].
      * right. exists (String a p). split; apply elem_of_cons; by left.
      * destruct (IH Hc) as [->|(q & Hq & Hin)]; [by left|]. right.
        apply elem_of_cons in Hq as [->|Hq]; [exists (String a p)|exists q].
        -- split; [apply elem_of_cons; by left|]. cbn. apply elem_of_cons. by right.
        -- split; [apply elem_of_cons; by right|done].
Qed.

Lemma uuid_chars id : UUID_PATTERN id = true -> Forall (fun c => is_hex c = true \/ c = "-"%char) (chars id).
Proof.
  intros Hu. apply Forall_forall. intros c Hc. destruct (split_chars "-" id c Hc) as [->|(p & Hp & Hin)]; [by right|left].
  unfold UUID_PATTERN in Hu. destruct (JS.split_on "-" id) as [|? [|? [|? [|? [|? [|? ?]]]]]]; try discriminate Hu.
  apply andb_true_iff in Hu as [_ Hu]. apply Is_true_eq_left, forallb_True in Hu. rewrite Forall_forall in Hu.
  assert (all_chars is_hex p = true) as Hh by (apply Is_true_eq_true, Hu, Hp).
  apply all_chars_chars in Hh. rewrite Forall_forall in Hh. by apply Hh.
Qed.

Lemma uuid_nonempty id : UUID_PATTERN id = true -> JS.truthy id = true.
Proof. by destruct id. Qed.

(** The guard finds in a bearer token the client and the secret it was made
    of. *)
Lemma credential_of_token rq id raw :
  UUID_PATTERN id = true -> raw <> "" -> rq_authorization rq = Some ("Bearer " +:+ (id +:+ "." +:+ to_hex raw)) ->
  credential rq = Some (id, to_hex raw).
Proof.
  intros Hid Hraw Hrq. unfold credential, bearer. rewrite Hrq.
  change (String.prefix "Bearer " ("Bearer " +:+ (id +:+ "." +:+ to_hex raw)))
    with (String.prefix "" (id +:+ "." +:+ to_hex raw)).
  assert (forall s, String.prefix "" s = true) as -> by (by intros []).
  assert (drop 7 ("Bearer " +:+ (id +:+ "." +:+ to_hex raw)) = id +:+ "." +:+ to_hex raw) as ->.
  { unfold drop. rewrite Ciphers.length_app_string. rewrite (Ciphers.sub_app "Bearer " _ 0). apply Ciphers.sub_long. lia. }
  pose proof (uuid_chars id Hid) as Hc. pose proof (to_hex_chars raw) as Hh.
  assert (spaceless (id +:+ "." +:+ to_hex raw)) as Hs.
  { unfold spaceless. rewrite !chars_app, !Forall_app. split_and!.
    - eapply Forall_impl; [exact Hc|]. intros c [H| ->]; [by apply hex_char_plain|done].
    - by repeat constructor.
    - eapply Forall_impl; [exact Hh|]. intros c H. by apply hex_char_plain. }
  rewrite trim_spaceless by done. change (id +:+ "." +:+ to_hex raw) with (id +:+ String "." (to_hex raw)).
  cbn [mbind option_bind].
  rewrite split_on_joined, split_on_lacks.
  - rewrite uuid_nonempty, Hid by done. destruct raw as [|c raw]; done.
  - intros H. rewrite Forall_forall in Hh. apply Hh, hex_char_plain in H as (_ & Hd & _). by apply Hd.
  - intros H. rewrite Forall_forall in Hc. destruct (Hc _ H) as [(_ & Hd & _)%hex_char_plain|Hd]; [by apply Hd|discriminate Hd].
Qed.
(** ** The guard and the service *)

Section Lifecycle.
Context (fresh : nat -> string) (token : nat -> string) (scrypt : string -> string -> string).
(** Generated keys are UUIDs in lower case; random bytes and digests are not
    empty. *)
Context (fresh_uuid : forall n, UUID_PATTERN (fresh n) = true /\ uuid (fresh n) = fresh n).
Context (token_nonempty : forall n, token n <> "") (scrypt_nonempty : forall s x, scrypt s x <> "").
Context (answer : Request -> Reply).

Lemma to_hex_nonempty s : s <> "" -> JS.truthy (to_hex s) = true.
Proof. by destruct s. Qed.
Lemma to_hex_lacks s : lacks ":" (to_hex s).
Proof. intros H. pose proof (to_hex_chars s) as Hh. rewrite Forall_forall in Hh. apply Hh, hex_char_plain in H as (_ & _ & Hd). by apply Hd. Qed.

(** A secret fits a hash when the digests agree. *)
Lemma verify_hashed salt secret secret' : salt <> "" ->
  verifyApiClientSecret scrypt secret (hashApiClientSecret scrypt salt secret') =
  String.eqb (scrypt secret (to_hex salt)) (scrypt secret' (to_hex salt)).
Proof using scrypt_nonempty.
  intros Hs. unfold verifyApiClientSecret, hashApiClientSecret.
  change (?a +:+ ":" +:+ ?b) with (a +:+ String ":" b).
  rewrite split_on_joined, split_on_lacks by apply to_hex_lacks.
  by rewrite !to_hex_nonempty, from_hex_to_hex.
Qed.

Definition bears (rq : HttpRequest) (tok : string) : Prop := rq_authorization rq = Some ("Bearer " +:+ tok).
Definition guard (rq : HttpRequest) (s : State) : result Failure AuthContext := (exec answer (ApiKeyGuard fresh scrypt rq) s).1.1.
Definition token_of (id raw : string) : string := id +:+ "." +:+ to_hex raw.

Lemma guard_decides rq id raw s : UUID_PATTERN id = true -> uuid id = id -> raw <> "" -> bears rq (token_of id raw) ->
  guard rq s =
  match a_clients s !! id with
  | Some c =>
      if bool_decide (ak_status c = CLIENT_ACTIVE) && verifyApiClientSecret scrypt (to_hex raw) (ak_hashedSecret c)
      then Ok {| cx_tenantId := ak_tenantId c; cx_actorId := ak_id c; cx_role := ak_role c;
                 cx_correlationId := fresh (Agent.w_supply (a_world s)) |}
      else Err invalid_credentials
  | None => Err invalid_credentials
  end.
Proof.
  intros Hp Hu Hr Hb. unfold guard, ApiKeyGuard. rewrite (credential_of_token rq id raw Hp Hr Hb), Hu.
  cbn. destruct (a_clients s !! id) as [c|]; [|done]. by destruct (_ && _).
Qed.

Definition accepts (rq : HttpRequest) (c : ApiClient) (s : State) : Prop :=
  exists correlationId, guard rq s =
    Ok {| cx_tenantId := ak_tenantId c; cx_actorId := ak_id c; cx_role := ak_role c; cx_correlationId := correlationId |}.
Definition refuses (rq : HttpRequest) (s : State) : Prop := guard rq s = Err invalid_credentials.

Lemma guard_accepts rq id raw salt s c : UUID_PATTERN id = true -> uuid id = id -> raw <> "" -> salt <> "" ->
  bears rq (token_of id raw) -> a_clients s !! id = Some c -> ak_status c = CLIENT_ACTIVE ->
  ak_hashedSecret c = hashApiClientSecret scrypt salt (to_hex raw) -> accepts rq c s.
Proof using scrypt_nonempty.
  intros Hp Hu Hr Hs Hb Hc Ha Hh. eexists. rewrite (guard_decides rq id raw s Hp Hu Hr Hb), Hc.
  rewrite bool_decide_true, Hh, verify_hashed by done. rewrite String.eqb_refl. cbn. reflexivity.
Qed.

Lemma guard_refuses rq id raw s : UUID_PATTERN id = true -> uuid id = id -> raw <> "" ->
  bears rq (token_of id raw) ->
  (forall c, a_clients s !! id = Some c -> ak_status c = CLIENT_ACTIVE ->
     verifyApiClientSecret scrypt (to_hex raw) (ak_hashedSecret c) = false) ->
  refuses rq s.
Proof.
  intros Hp Hu Hr Hb Hno. unfold refuses. rewrite (guard_decides rq id raw s Hp Hu Hr Hb).
  destruct (a_clients s !! id) as [c|]; [|done]. case_bool_decide as Ha; [|done]. by rewrite (Hno c).
Qed.

(** Revocation undisturbed, whatever the row is. *)
Lemma revoke_revokes id s c : uuid id = id -> ak_id c = id -> a_clients s !! id = Some c ->
  exists c' s', exec answer (revoke id) s = (Ok c', s', []) /\ ak_status c' = CLIENT_REVOKED /\ a_clients s' !! id = Some c'.
Proof.
  intros Hu Hi Hc. unfold revoke, find_client. rewrite Hu. cbn. rewrite Hc. cbn.
  case_bool_decide as Hr; cbn; [by exists c, s|].
  eexists _, _. split; [reflexivity|]. split; [done|]. cbn. rewrite Hi. by simplify_map_eq.
Qed.

Lemma rotate_rotates id s c : uuid id = id -> ak_id c = id -> a_clients s !! id = Some c -> ak_status c = CLIENT_ACTIVE ->
  let n := Agent.w_supply (a_world s) in
  let c' := set_secret (hashApiClientSecret scrypt (token (S n)) (to_hex (token n))) c in
  exists s', exec answer (rotate token scrypt id) s = (Ok (c', token_of id (token n)), s', []) /\ a_clients s' !! id = Some c'.
Proof.
  intros Hu Hi Hc Ha n c'. unfold rotate, find_client. rewrite Hu. cbn. rewrite Hc. cbn. rewrite Ha. cbn.
  rewrite Hi. eexists. split; [reflexivity|]. cbn. rewrite Hi. by simplify_map_eq.
Qed.

(** The token of a new client is accepted as that client, in its tenant and
    with its role, from then on for as long as its row is active and keeps
    its secret; once the client is revoked, no token for it is accepted by any
    state that keeps the row revoked; a rotation hands out a token that is
    accepted, and refuses the old one unless the two secrets have the same
    digest. *)
Theorem credentials_live_and_die tenantId name role s :
  exists client raw s1,
    exec answer (create_client fresh token scrypt tenantId name role) s = (Ok (client, token_of (ak_id client) raw), s1, []) /\
    (ak_tenantId client, ak_name client, ak_role client) = (tenantId, name, default PARTNER role) /\
    a_clients s1 = <[ak_id client := client]> (a_clients s) /\
    let id := ak_id client in
    (forall rq s2, bears rq (token_of id raw) -> a_clients s2 !! id = Some client -> accepts rq client s2) /\
    (forall s2 c, a_clients s2 !! id = Some c -> ak_id c = id -> exists c' s3,
       exec answer (revoke id) s2 = (Ok c', s3, []) /\
       forall rq s4 raw', raw' <> "" -> bears rq (token_of id raw') -> a_clients s4 !! id = a_clients s3 !! id -> refuses rq s4) /\
    (forall s2, a_clients s2 !! id = Some client -> exists client' raw' salt s3,
       exec answer (rotate token scrypt id) s2 = (Ok (client', token_of id raw'), s3, []) /\
       (forall rq, bears rq (token_of id raw') -> accepts rq client' s3) /\
       (forall rq, bears rq (token_of id raw) ->
          scrypt (to_hex raw) salt <> scrypt (to_hex raw') salt -> refuses rq s3)).
Proof using fresh_uuid token_nonempty scrypt_nonempty.
  set (n := Agent.w_supply (a_world s)).
  set (client := {| ak_id := fresh (S (S n)); ak_tenantId := tenantId; ak_name := name;
    ak_hashedSecret := hashApiClientSecret scrypt (token (S n)) (to_hex (token n)); ak_status := CLIENT_ACTIVE;
    ak_role := default PARTNER role |}).
  destruct (fresh_uuid (S (S n))) as [Hp Hu].
  exists client, (token n). eexists. split; [reflexivity|]. split; [reflexivity|]. split; [reflexivity|]. cbn zeta. split_and!.
  - intros rq s2 Hb Hc. by apply (guard_accepts rq (ak_id client) (token n) (token (S n))).
  - intros s2 c Hc Hi. destruct (revoke_revokes (ak_id client) s2 c Hu Hi Hc) as (c' & s3 & Hr & Hs & Hc').
    exists c', s3. split; [exact Hr|]. intros rq s4 raw' Hraw Hb Hsame. rewrite Hc' in Hsame.
    apply (guard_refuses rq (ak_id client) raw'); [done..|]. intros c4 Hc4 Ha. congruence.
  - intros s2 Hc. destruct (rotate_rotates (ak_id client) s2 client Hu eq_refl Hc eq_refl) as (s3 & Hr & Hc3).
    set (m := Agent.w_supply (a_world s2)) in *.
    exists (set_secret (hashApiClientSecret scrypt (token (S m)) (to_hex (token m))) client), (token m), (to_hex (token (S m))), s3.
    split; [exact Hr|]. split.
    + intros rq Hb. by apply (guard_accepts rq (ak_id client) (token m) (token (S m))).
    + intros rq Hb Hne. apply (guard_refuses rq (ak_id client) (token n)); [done..|].
      intros c Hc' _. assert (c = set_secret (hashApiClientSecret scrypt (token (S m)) (to_hex (token m))) client) as -> by congruence.
      cbn [set_secret ak_hashedSecret]. rewrite verify_hashed by done. by apply String.eqb_neq.
Qed.
End Lifecycle.

(** Keys and secrets of the example. *)
Definition fresh1 (n : nat) : string := AuthExamples.uuid0 n.

Lemma fresh1_uuid n : UUID_PATTERN (fresh1 n) = true /\ uuid (fresh1 n) = fresh1 n.
Proof.
  unfold fresh1, AuthExamples.uuid0, AuthExamples.digit.
  assert (Forall (fun k => let i := "00000000-0000-4000-8000-00000000000" +:+ String (hex_char (Z.of_nat k)) "" in
    UUID_PATTERN i = true /\ uuid i = i) (seq 0 16)) as H by (repeat constructor).
  rewrite Forall_forall in H. apply (H (n mod 16)%nat). apply elem_of_seq. pose proof (Nat.mod_upper_bound n 16). lia.
Qed.

Lemma credentials_live_and_die_witness :
  (forall n, UUID_PATTERN (fresh1 n) = true /\ uuid (fresh1 n) = fresh1 n) /\
  exists client raw s1,
    exec (fun _ => NothingSaid) (create_client fresh1 AuthExamples.token0 AuthExamples.scrypt0 "t" "partner" None)
      AuthExamples.state0 = (Ok (client, token_of (ak_id client) raw), s1, []) /\
    forall rq, bears rq (token_of (ak_id client) raw) -> accepts fresh1 AuthExamples.scrypt0 (fun _ => NothingSaid) rq client s1.
Proof.
  split; [exact fresh1_uuid|].
  assert (forall n, AuthExamples.token0 n <> "") as Ht by (by intros n).
  assert (forall s x, AuthExamples.scrypt0 s x <> "") as Hs by (by intros s x).
  destruct (credentials_live_and_die fresh1 AuthExamples.token0 AuthExamples.scrypt0 fresh1_uuid Ht Hs (fun _ => NothingSaid)
    "t" "partner" None AuthExamples.state0) as (client & raw & s1 & He & _ & Hc & Ha & _).
  exists client, raw, s1. split; [exact He|]. intros rq Hb. apply Ha; [exact Hb|]. rewrite Hc. apply lookup_insert_eq.
Defined.
End AuthCredentials.
