(* ===== verification/AuthFindings.v ===== *)
(** * Where authentication departs from its description

    Interleavings of two requests that undo a decision: a session whose
    deletion was answered, and a client whose revocation was, are back when a
    request that had read the row before writes it.  And two facts of single
    requests: metadata that could not be fetched once is never fetched again,
    and a return path may begin with a slash and a backslash. *)

From Stdlib Require Import Ascii SpecFloat.
From stdpp Require Import gmap strings list pretty.
From S2P Require Import Prelude Encoding KeyRings BudgetLedger BudgetTheorems PolicyDsl PolicyDigest PolicyResolver PolicyEvaluation PolicyActivation Concurrency ProviderTables Outbox Communications AgentTables AgentExamples AuthTables OidcService OidcSessions GuestSandbox AuthGuards AuthExamples.

Module AuthFindings.
Import Threads Auth Oidc Sessions Guards AuthExamples.

Notation World := (world (S := State) (E := Failure) (Q := Request) (R := Reply)).
Notation handler0 := (handler_with uuid0).
Notation run := (moves handler0).
Notation schedule := (list (Move (S := State) (Op := Op))).

Ltac lawful := repeat constructor.

(** The answers of the requests, in the order they were sent. *)
Definition is_answer (q : Request) : bool := match q with Reject _ | Show _ | ActAs _ | Redirect _ => true | _ => false end.
Definition answers (w : World) : list Request := List.filter is_answer (calls w).

(** ** A session that was ended *)

Definition with_cookies (cookies : string) (method : string) (csrf : option string) : HttpRequest :=
  request0 cookies csrf method.
(** The cookies alice has after she signed in. *)
Definition of_alice : string := "meridian_session=tok4; meridian_csrf=tok5".
Definition signed_in : schedule := [Begin (OpCallback login (Some "code") (Some "s")); Go 0 200].
Definition ended : schedule := [Begin (OpLogout (with_cookies of_alice "POST" (Some "tok5"))); Go 1 200].
(** A request of the same session that has lost its CSRF cookie. *)
Definition listing : Op := OpTenants (with_cookies "meridian_session=tok4" "GET" None).
Definition rejected : Request := Reject invalid_credentials.

(** Nothing else going on, the session is gone when logout has answered. *)
Example logout_ends : exists rest,
  answers (run (provider "alice") (signed_in ++ ended ++ [Begin listing; Go 2 200]) state0) = rest ++ [rejected] /\
  size (a_oidc (db (run (provider "alice") (signed_in ++ ended) state0))) = 0%nat.
Proof. eexists [_; _]. split; vm_compute; reflexivity. Qed.

(** A listing that read the session before it was ended, and had to renew its
    CSRF token, writes the session back: the next listing is answered. *)
Lemma logout_is_undone : exists w membership,
  reachable handler0 (fun _ _ => False) state0 w /\
  answers w = [Redirect "https://app/"; Show (Dsl.VObject [("logoutUrl", Dsl.VNull)]); Show (Dsl.VArray [membership])] ++
              [Show (Dsl.VArray [membership])] /\
  size (a_oidc (db w)) = 1%nat.
Proof.
  eexists _, _. split; [|split].
  - apply (moves_reachable handler0 _ (provider "alice") (signed_in ++ [Begin listing; Go 1 4] ++
      [Begin (OpLogout (with_cookies of_alice "POST" (Some "tok5"))); Go 2 200] ++ [Go 1 200; Begin listing; Go 3 200])). lawful.
  - vm_compute. reflexivity.
  - vm_compute. reflexivity.
Qed.

(** ** A sandbox that was left *)

Definition visiting : schedule := [Begin (OpGuestCreate nothing_special); Go 0 200].
Definition leaving : Op :=
  OpGuestLogout (with_cookies "meridian_guest_sandbox=tok1; meridian_guest_sandbox_csrf=tok2" "DELETE" (Some "tok2")).
Definition looking : Op := OpGuestSession (with_cookies "meridian_guest_sandbox=tok1" "GET" None).

Definition authenticated (q : Request) : bool :=
  match q with Show (Dsl.VObject ((_, Dsl.VBool true) :: _)) => true | _ => false end.

Lemma guest_logout_is_undone : exists w,
  reachable handler0 (fun _ _ => False) state0 w /\
  map authenticated (answers w) = [true; false; true; true] /\ answers w !! 1%nat = Some (Show Dsl.VNull) /\
  size (a_guests (db w)) = 1%nat.
Proof.
  eexists. split_and!.
  - apply (moves_reachable handler0 _ (fun _ => NothingSaid) (visiting ++ [Begin looking; Go 1 3] ++ [Begin leaving; Go 2 200] ++
      [Go 1 200; Begin looking; Go 3 200])). lawful.
  - vm_compute. reflexivity.
  - vm_compute. reflexivity.
  - vm_compute. reflexivity.
Qed.

(** ** A client that was revoked *)

Definition key : string := "00000000-0000-4000-8000-000000000002".
Definition acting (t : string) : Op :=
  OpTenantRoute {| rq_method := Some "POST"; rq_cookie := None; rq_authorization := Some ("Bearer " +:+ t);
                   rq_tenantId := None; rq_csrfToken := None |} [] "route" true.

(** A rotation that found the client active before it was revoked makes it
    active again, and its token acts for the tenant. *)
Lemma revocation_is_undone : exists w token c,
  reachable handler0 (fun _ _ => False) state0 w /\
  calls w = [Show (Dsl.VString (key +:+ ".746f6b30")); Show Dsl.VNull; Show (Dsl.VString token)] ++ [ActAs c] /\
  cx_tenantId c = "t" /\ ak_status <$> a_clients (db w) !! key = Some CLIENT_ACTIVE.
Proof.
  eexists _, (key +:+ ".746f6b33"), _. split_and!.
  - apply (moves_reachable handler0 _ (fun _ => NothingSaid) ([Begin (OpCreateClient "t" "p" None); Go 0 200] ++
      [Begin (OpRotateClient key); Go 1 1] ++ [Begin (OpRevokeClient key); Go 2 200] ++
      [Go 1 200; Begin (acting (key +:+ ".746f6b33")); Go 3 200])). lawful.
  - vm_compute. reflexivity.
  - vm_compute. reflexivity.
  - vm_compute. reflexivity.
Qed.

(** ** Metadata that could not be fetched *)

Section Outage.
Context (config : Config) (answer : Request -> Reply).

(** The kept promise is one that was rejected. *)
Definition broken (s : State) : Prop := exists n e, a_discovery s = Some n /\ promised n s = Some (Err e).

(** A request that gets no answer leaves it so, and from then on nothing is
    asked of the provider and nothing succeeds, whatever it would answer. *)
Lemma outage_breaks s issuer :
  present (cf_issuer config) = Some issuer -> present (cf_audience config) <> None -> a_discovery s = None ->
  (forall q, answer q = NothingSaid) -> broken (exec answer (getDiscoveryDocument config) s).1.2.
Proof.
  intros Hi Ha Hd Hq. unfold getDiscoveryDocument. rewrite Hi. destruct (present (cf_audience config)); [|done].
  assert (join_discovery s = (Ok (length (a_promises s), true), put_discovery (Some (length (a_promises s))) (a_promises s ++ [None]) s)) as Hj.
  { unfold join_discovery. by rewrite Hd. }
  cbn -[join_discovery]. rewrite Hj. cbn. rewrite Hq. cbn. exists (length (a_promises s)), (OtherError "fetch failed").
  split; [done|]. unfold promised. cbn. rewrite list_lookup_insert_eq by (rewrite length_app; cbn; lia). done.
Qed.

Lemma broken_forever s : broken s ->
  exists e, (exec answer (getDiscoveryDocument config) s).1 = (Err e, s) /\
    forall q, q ∈ (exec answer (getDiscoveryDocument config) s).2 -> exists n, q = AwaitPromise n.
Proof.
  intros (n & e & Hd & Hp). unfold getDiscoveryDocument.
  assert (join_discovery s = (Ok (n, false), s)) as Hj by (unfold join_discovery; by rewrite Hd).
  destruct (present (cf_issuer config)); [destruct (present (cf_audience config))|]; cbn -[join_discovery].
  - rewrite Hj. cbn. rewrite Hp. cbn. exists e. split; [done|]. intros q [->|[]%elem_of_nil]%elem_of_cons. by exists n.
  - eexists. split; [reflexivity|]. by intros q ?%elem_of_nil.
  - eexists. split; [reflexivity|]. by intros q ?%elem_of_nil.
Qed.
End Outage.

(** One lost request; then nobody can sign in, although the provider is
    well. *)
Lemma outage_is_permanent : exists e,
  answers (moves_from handler0 (provider "alice") [Begin (OpCallback login (Some "code") (Some "s")); Go 1 200]
    (run (fun _ => NothingSaid) [Begin (OpBeginLogin None); Go 0 200] state0)) = [Reject e; Reject e].
Proof. eexists. vm_compute. reflexivity. Qed.

(** ** A way back that leads elsewhere *)

Lemma backslash_passes host : validateReturnPath ("/\" +:+ host) = "/\" +:+ host.
Proof. by destruct host. Qed.
End AuthFindings.
