(* ===== verification/PolicyResearch.v ===== *)
(** * Policy research and source monitoring

    policy/policy-research.service.ts: a queue of research requests, claimed
    with a lease by any number of workers, each answered by passages of
    recorded source revisions and a summary; policy/policy-source-monitor.service.ts
    with policy/policy-source-connector.ts, which record the revisions.

    Texts are code units 0-255, as elsewhere where code slices them; SHA-256 of
    a serialised value ([digest]), JSON's parser, [localeCompare] and the
    generated keys are parameters.  What goes out is a question to the model
    and a request for the latest bulletin of a source. *)

From Stdlib Require Import Ascii SpecFloat.
From stdpp Require Import gmap strings list pretty.
From S2P Require Import Prelude PolicyDsl PolicyResolver Concurrency Communications CaseQuery.

Module Research.
Import Threads.

(** ** Rows *)

Inductive PolicyResearchTrigger :=
  NEW_SOURCE_REVISION | SOURCE_FRESHNESS_EXPIRED | COVERAGE_GAP | APPLICABILITY_CONFLICT.
Inductive PolicyResearchStatus := QUEUED | PROCESSING | COMPLETED | FAILED.
Inductive PolicySourceRetrievalMode := SYNTHETIC | MANUAL | CONNECTOR.

#[export] Instance PolicyResearchTrigger_eq : EqDecision PolicyResearchTrigger.
Proof. solve_decision. Defined.
#[export] Instance PolicyResearchStatus_eq : EqDecision PolicyResearchStatus.
Proof. solve_decision. Defined.
#[export] Instance PolicySourceRetrievalMode_eq : EqDecision PolicySourceRetrievalMode.
Proof. solve_decision. Defined.

Definition trigger_text (t : PolicyResearchTrigger) : string :=
  match t with
  | NEW_SOURCE_REVISION => "NEW_SOURCE_REVISION"
  | SOURCE_FRESHNESS_EXPIRED => "SOURCE_FRESHNESS_EXPIRED"
  | COVERAGE_GAP => "COVERAGE_GAP"
  | APPLICABILITY_CONFLICT => "APPLICABILITY_CONFLICT"
  end.

(** A source as the resolver reads it, with the column it does not. *)
Record PolicySource := { so_row : Resolver.PolicySource; so_retrievalMode : PolicySourceRetrievalMode }.
Record PolicySourceRevision := {
  rv_id : string; rv_policySourceId : string; rv_checksum : string; rv_publishedAt : Z; rv_recordedAt : Z;
  rv_content : Dsl.value }.

Record PolicyResearchRun := {
  rr_id : string; rr_trigger : PolicyResearchTrigger; rr_status : PolicyResearchStatus;
  rr_policySourceId : option string; rr_policySourceRevisionId : option string;
  rr_jurisdictionCode : string; rr_productCode : option string; rr_lifecycleEvent : option string;
  rr_requestFingerprint : string; rr_unresolvedReasons : list string; rr_researchQuery : string;
  rr_candidateSummary : option string; rr_changeSignals : option (list string);
  rr_synthesisProvider : option string; rr_failureDetail : option string; rr_attempts : Z;
  rr_requestedAt : Z; rr_claimedAt : option Z; rr_completedAt : option Z }.

Record PolicyResearchCitation := {
  ci_id : string; ci_policyResearchRunId : string; ci_policySourceRevisionId : string; ci_sourceChecksum : string;
  ci_location : string; ci_excerpt : string; ci_excerptDigest : string; ci_rank : nat; ci_relevanceScore : string }.

(** The catalog, the queue, the clock of the database and of the process. *)
Record State := {
  st_jurisdictions : gmap string Resolver.Jurisdiction;
  st_applicability : list Resolver.PolicyApplicability;
  st_versions : gmap string Resolver.PolicyVersion;
  st_sources : list PolicySource;
  st_revisions : list PolicySourceRevision;
  st_runs : gmap string PolicyResearchRun;
  st_citations : gmap string PolicyResearchCitation;
  st_dbnow : Z;
  st_date : Z;
  st_supply : nat }.

Definition put_revisions x (s : State) : State :=
  {| st_jurisdictions := st_jurisdictions s; st_applicability := st_applicability s; st_versions := st_versions s;
     st_sources := st_sources s; st_revisions := x; st_runs := st_runs s; st_citations := st_citations s;
     st_dbnow := st_dbnow s; st_date := st_date s; st_supply := st_supply s |}.
Definition put_runs x (s : State) : State :=
  {| st_jurisdictions := st_jurisdictions s; st_applicability := st_applicability s; st_versions := st_versions s;
     st_sources := st_sources s; st_revisions := st_revisions s; st_runs := x; st_citations := st_citations s;
     st_dbnow := st_dbnow s; st_date := st_date s; st_supply := st_supply s |}.
Definition put_citations x (s : State) : State :=
  {| st_jurisdictions := st_jurisdictions s; st_applicability := st_applicability s; st_versions := st_versions s;
     st_sources := st_sources s; st_revisions := st_revisions s; st_runs := st_runs s; st_citations := x;
     st_dbnow := st_dbnow s; st_date := st_date s; st_supply := st_supply s |}.
Definition put_supply x (s : State) : State :=
  {| st_jurisdictions := st_jurisdictions s; st_applicability := st_applicability s; st_versions := st_versions s;
     st_sources := st_sources s; st_revisions := st_revisions s; st_runs := st_runs s; st_citations := st_citations s;
     st_dbnow := st_dbnow s; st_date := st_date s; st_supply := x |}.

(** The tables as the resolver reads them. *)
Definition revision_row (r : PolicySourceRevision) : Resolver.PolicySourceRevision :=
  {| Resolver.sr_id := rv_id r; Resolver.sr_policySourceId := rv_policySourceId r; Resolver.sr_recordedAt := rv_recordedAt r |}.
Definition catalog (s : State) : Resolver.Catalog :=
  {| Resolver.c_jurisdictions := st_jurisdictions s; Resolver.c_applicability := st_applicability s;
     Resolver.c_versions := st_versions s; Resolver.c_sources := map so_row (st_sources s);
     Resolver.c_revisions := map revision_row (st_revisions s) |}.

Definition source_with_id (id : string) (s : State) : option PolicySource :=
  List.find (fun x => String.eqb (Resolver.ps_id (so_row x)) id) (st_sources s).
Definition revision_with_id (id : string) (s : State) : option PolicySourceRevision :=
  List.find (fun r => String.eqb (rv_id r) id) (st_revisions s).

(** ** What goes out and what comes back *)

Inductive Failure := ConstraintViolation | Failed (message : string).

Record SourceExcerpt := {
  se_policySourceRevisionId : string; se_sourceChecksum : string; se_location : string; se_excerpt : string;
  se_relevanceScore : spec_float }.

Record Bulletin := { bu_checksum : string; bu_publishedAt : Z; bu_content : Dsl.value }.

Inductive Request :=
| Chat (query : string) (trigger : PolicyResearchTrigger) (citations : list (nat * string * string * string))
| FetchLatest (sourceId : string).
Inductive Reply :=
| NoReply (message : string)
| HttpError (status : Z)
| Payload (body : Dsl.value)
| Latest (b : Bulletin).
Notation prog := (Prog State Failure Request Reply).

(** ** Passages of a source *)

Definition MAX_QUERY_CHARS : nat := 1500.
Definition MAX_EXCERPT_CHARS : nat := 1200.
Definition MAX_CITATIONS : Z := 6.

Definition slice (n : nat) (s : string) : string := String.substring 0 n s.
Definition rest (n : nat) (s : string) : string := String.substring n (String.length s) s.

(** [[...new Set(l)]] *)
Fixpoint distinct (seen l : list string) : list string :=
  match l with
  | [] => []
  | x :: l => if includes seen x then distinct seen l else x :: distinct (x :: seen) l
  end.

Definition is_word (c : ascii) : bool :=
  let n := nat_of_ascii c in
  (((97 <=? n) && (n <=? 122)) || ((48 <=? n) && (n <=? 57)) || (n =? 95))%nat.

(** The maximal runs of word characters; [got] is the run so far, reversed. *)
Fixpoint words (got : list ascii) (s : string) : list string :=
  let word := match got with [] => [] | _ => [String.string_of_list_ascii (reverse got)] end in
  match s with
  | EmptyString => word
  | String c s => if is_word c then words (c :: got) s else word ++ words [] s
  end.
Definition tokenize (value : string) : list string :=
  distinct [] (List.filter (fun w => (2 <=? String.length w)%nat) (words [] (Comms.toLowerCase value))).

Definition number_text (n : nat) : string := pretty n.

(** Every text of a structured value, with its path. *)
Fixpoint flattenContent (v : Dsl.value) (path : string) : list (string * string) :=
  match v with
  | Dsl.VString s => [(path, s)]
  | Dsl.VArray vs =>
      (fix go (i : nat) (vs : list Dsl.value) :=
         match vs with
         | [] => []
         | v :: vs => flattenContent v (path +:+ "[" +:+ number_text i +:+ "]") ++ go (S i) vs
         end) 0%nat vs
  | Dsl.VObject props =>
      (fix go (props : list (string * Dsl.value)) :=
         match props with
         | [] => []
         | (k, v) :: props => flattenContent v (path +:+ "." +:+ k) ++ go props
         end) props
  | _ => []
  end.

(** [text.replace(/\s+/g, ' ')] *)
Fixpoint collapse (in_space : bool) (s : string) : string :=
  match s with
  | EmptyString => EmptyString
  | String c s =>
      if JS.is_space c then (if in_space then collapse true s else String " " (collapse true s))
      else String c (collapse false s)
  end.
Definition normalized (text : string) : string := JS.trim (collapse false text).

Fixpoint chunks (fuel : nat) (n : nat) (s : string) : list string :=
  match fuel with
  | O => []
  | S fuel => if JS.truthy s then slice n s :: chunks fuel n (rest n s) else []
  end.
Definition chunkText (text : string) : list string :=
  let s := normalized text in chunks (String.length s) MAX_EXCERPT_CHARS s.

Record Passage := { pg_revision : string; pg_checksum : string; pg_location : string; pg_excerpt : string }.

Definition passages_of (r : PolicySourceRevision) : list Passage :=
  '(location, text) ← flattenContent (rv_content r) "$";
  imap (fun i excerpt =>
    {| pg_revision := rv_id r; pg_checksum := rv_checksum r;
       pg_location := location +:+ "#" +:+ number_text (S i); pg_excerpt := excerpt |}) (chunkText text).

(** *** Relevance *)

Definition f64_of_nat (n : nat) : spec_float := Dsl.f64_of_Z (Z.of_nat n).
Definition relevance (queryTerms : list string) (excerpt : string) : spec_float :=
  let terms := tokenize excerpt in
  let matches := length (List.filter (includes terms) queryTerms) in
  if (length queryTerms =? 0)%nat then f64_of_nat 0
  else Dsl.f64_div (f64_of_nat matches) (f64_of_nat (length queryTerms)).

(** [toFixed(6)] of a number that is not negative and below 10^21: the nearest
    multiple, the larger of two. *)
Definition millionths (x : spec_float) : Z :=
  match x with
  | S754_finite false m e =>
      if e <? 0 then (2 * Zpos m * 10 ^ 6 + 2 ^ (- e)) / (2 * 2 ^ (- e)) else Zpos m * 2 ^ e * 10 ^ 6
  | _ => 0
  end.
Definition pad6 (s : string) : string := String.substring 0 (6 - String.length s) "000000" +:+ s.
Definition toFixed6 (x : spec_float) : string :=
  let n := millionths x in pretty (n / 10 ^ 6) +:+ "." +:+ pad6 (pretty (n mod 10 ^ 6)).

(** ** The service *)

Record PolicyResearchRequest := {
  rq_trigger : PolicyResearchTrigger; rq_jurisdictionCode : string; rq_productCode : option string;
  rq_lifecycleEvent : option string; rq_unresolvedReasons : list string; rq_policySourceId : option string;
  rq_policySourceRevisionId : option string }.

Inductive PolicyResearchProvider := EXTRACTIVE | OLLAMA.
Definition provider_text (p : PolicyResearchProvider) : string := match p with EXTRACTIVE => "extractive" | OLLAMA => "ollama" end.

Record ResearchSynthesis := {
  sy_provider : PolicyResearchProvider; sy_candidateSummary : string; sy_changeSignals : list string }.

(** The values of the configuration service, defaults applied. *)
Record Config := { cf_leaseMs : Z; cf_provider : PolicyResearchProvider; cf_maxCitations : Z }.
Definition maxCitations (c : Config) : nat := Z.to_nat (Z.min (Z.max (cf_maxCitations c) 1) MAX_CITATIONS).

(** *** Requests *)

(** [sort()]: by code units. *)
Fixpoint insert_text (x : string) (l : list string) : list string :=
  match l with
  | [] => [x]
  | y :: l' => if String.leb x y then x :: l else y :: insert_text x l'
  end.
Definition sort_texts (l : list string) : list string := foldr insert_text [] l.

Definition normalizedReasons (reasons : list string) : list string := sort_texts (map (slice 500) (distinct [] reasons)).

Definition value_of_option (v : option string) : Dsl.value := match v with Some s => Dsl.VString s | None => Dsl.VNull end.

Definition fingerprintInput (r : PolicyResearchRequest) : Dsl.value :=
  Dsl.VObject
    [("trigger", Dsl.VString (trigger_text (rq_trigger r))); ("jurisdictionCode", Dsl.VString (rq_jurisdictionCode r));
     ("productCode", value_of_option (rq_productCode r)); ("lifecycleEvent", value_of_option (rq_lifecycleEvent r));
     ("sourceId", value_of_option (rq_policySourceId r));
     ("sourceRevisionId", value_of_option (rq_policySourceRevisionId r));
     ("unresolvedReasons", Dsl.VArray (map Dsl.VString (normalizedReasons (rq_unresolvedReasons r))))].

Definition truthy_option (v : option string) : option string := s ← v; if JS.truthy s then Some s else None.

Definition buildResearchQuery (r : PolicyResearchRequest) : string :=
  let reasons := String.concat "; " (normalizedReasons (rq_unresolvedReasons r)) in
  String.concat " "
    (["Policy research trigger: " +:+ trigger_text (rq_trigger r) +:+ ".";
      "Jurisdiction: " +:+ rq_jurisdictionCode r +:+ "."] ++
     match truthy_option (rq_productCode r) with Some p => ["Product: " +:+ p +:+ "."] | None => [] end ++
     match truthy_option (rq_lifecycleEvent r) with Some e => ["Lifecycle event: " +:+ e +:+ "."] | None => [] end ++
     ["Resolver signals: " +:+ (if JS.truthy reasons then reasons else "none") +:+ ".";
      "Retrieve only source passages relevant to reviewing this governance issue."]).

(** The reasons of the resolver, joined and in lower case. *)
Definition classifyTrigger (unresolvedReasons : list string) : option PolicyResearchTrigger :=
  let reasons := Comms.toLowerCase (String.concat " " unresolvedReasons) in
  if Comms.contains "overlapping released versions" reasons then Some APPLICABILITY_CONFLICT
  else if Comms.contains "exceeded its freshness objective" reasons then Some SOURCE_FRESHNESS_EXPIRED
  else if Comms.contains "does not have reviewed covered status" reasons ||
          Comms.contains "has no registered policy source" reasons ||
          Comms.contains "has no recorded revision" reasons then Some COVERAGE_GAP
  else None.

(** The texts of the resolver's reasons. *)
Definition quote : string := String (ascii_of_nat 34) "".
Definition quoted (s : string) : string := quote +:+ s +:+ quote.
Definition reason_text (u : Resolver.Unresolved) : string :=
  match u with
  | Resolver.AncestryCycle c => "jurisdiction ancestry contains a cycle at " +:+ quoted c
  | Resolver.UnknownJurisdiction c => "jurisdiction ancestry references unknown code " +:+ quoted c
  | Resolver.NotCovered c => "jurisdiction " +:+ quoted c +:+ " does not have reviewed COVERED status"
  | Resolver.NoSource c => "jurisdiction " +:+ quoted c +:+ " has no registered policy source"
  | Resolver.NoRevision n => "policy source " +:+ quoted n +:+ " has no recorded revision"
  | Resolver.InvalidObjective n => "policy source " +:+ quoted n +:+ " has an invalid freshness objective"
  | Resolver.StaleSource n deadline =>
      "policy source " +:+ quoted n +:+ " exceeded its freshness objective at " +:+ Query.toISOString deadline
  | Resolver.NeedsReceiptTime a => "policy applicability " +:+ quoted a +:+ " requires the original application receipt time"
  | Resolver.UnsupportedTransition a r =>
      "policy applicability " +:+ quoted a +:+ " uses unsupported transition rule " +:+ quoted r
  | Resolver.Overlapping r n asOf =>
      "rule " +:+ quoted r +:+ " has " +:+ number_text n +:+ " overlapping released versions effective as of " +:+
      Query.toISOString asOf
  end.

Section Service.
Context (config : Config) (fresh : nat -> string).
Context (digest : Dsl.value -> string).
Context (parse : string -> option Dsl.value) (localeCompare : string -> string -> comparison).

Definition next : M State Failure string := fun s => (Ok (fresh (st_supply s)), put_supply (S (st_supply s)) s).

Definition run_with_fingerprint (f : string) (s : State) : option PolicyResearchRun :=
  find_row (fun r => String.eqb (rr_requestFingerprint r) f) (st_runs s).

Definition queued (id fingerprint : string) (r : PolicyResearchRequest) (now : Z) : PolicyResearchRun :=
  {| rr_id := id; rr_trigger := rq_trigger r; rr_status := QUEUED; rr_policySourceId := rq_policySourceId r;
     rr_policySourceRevisionId := rq_policySourceRevisionId r; rr_jurisdictionCode := rq_jurisdictionCode r;
     rr_productCode := rq_productCode r; rr_lifecycleEvent := rq_lifecycleEvent r; rr_requestFingerprint := fingerprint;
     rr_unresolvedReasons := normalizedReasons (rq_unresolvedReasons r);
     rr_researchQuery := slice MAX_QUERY_CHARS (buildResearchQuery r); rr_candidateSummary := None;
     rr_changeSignals := None; rr_synthesisProvider := None; rr_failureDetail := None; rr_attempts := 0;
     rr_requestedAt := now; rr_claimedAt := None; rr_completedAt := None |}.

Definition fits (n : nat) (v : option string) : bool :=
  match v with Some s => (String.length s <=? n)%nat | None => true end.

(** The columns' lengths, the unique index on the fingerprint and the
    references. *)
Definition admissible (r : PolicyResearchRun) (s : State) : bool :=
  negb (bool_decide (is_Some (st_runs s !! rr_id r))) &&
  negb (bool_decide (is_Some (run_with_fingerprint (rr_requestFingerprint r) s))) &&
  fits 20 (Some (rr_jurisdictionCode r)) && fits 100 (rr_productCode r) && fits 100 (rr_lifecycleEvent r) &&
  fits 64 (Some (rr_requestFingerprint r)) &&
  match rr_policySourceId r with Some i => bool_decide (is_Some (source_with_id i s)) | None => true end &&
  match rr_policySourceRevisionId r with Some i => bool_decide (is_Some (revision_with_id i s)) | None => true end.

Definition insert_run (fingerprint : string) (r : PolicyResearchRequest) : M State Failure PolicyResearchRun :=
  id ← next;
  now ← gets st_dbnow;
  let row := queued id fingerprint r now in
  ok ← gets (admissible row);
  _ ← guard_throw (negb ok) ConstraintViolation;
  _ ← modify (fun s => put_runs (<[id := row]> (st_runs s)) s);
  mret row.

Definition request (r : PolicyResearchRequest) : prog PolicyResearchRun :=
  let requestFingerprint := digest (fingerprintInput r) in
  existing ← atomically (gets (run_with_fingerprint requestFingerprint));
  match existing with
  | Some run => mret run
  | None =>
      pcatch (atomically (transaction (insert_run requestFingerprint r)))
        (fun error =>
           concurrent ← atomically (gets (run_with_fingerprint requestFingerprint));
           match concurrent with Some run => mret run | None => fail error end)
  end.

(** A failure to queue is logged, and nothing else. *)
Definition requestForUnresolvedResolution (context : Resolver.PolicyResolutionContext) (unresolvedReasons : list string)
  : prog unit :=
  match classifyTrigger unresolvedReasons with
  | None => mret tt
  | Some trigger =>
      pcatch
        (_ ← request {| rq_trigger := trigger; rq_jurisdictionCode := Resolver.jurisdictionCode context;
                        rq_productCode := Some (Resolver.productCode context);
                        rq_lifecycleEvent := Some (Resolver.lifecycleEvent context);
                        rq_unresolvedReasons := unresolvedReasons; rq_policySourceId := None;
                        rq_policySourceRevisionId := None |};
         mret tt)
        (fun _ => mret tt)
  end.

Definition requestForNewRevision (source : PolicySource) (revision : PolicySourceRevision) : prog unit :=
  pcatch
    (_ ← request {| rq_trigger := NEW_SOURCE_REVISION;
                    rq_jurisdictionCode := Resolver.ps_jurisdictionCode (so_row source);
                    rq_productCode := None; rq_lifecycleEvent := None;
                    rq_unresolvedReasons :=
                      ["policy source " +:+ quote +:+ Resolver.ps_name (so_row source) +:+ quote +:+
                       " recorded a new candidate revision"];
                    rq_policySourceId := Some (Resolver.ps_id (so_row source));
                    rq_policySourceRevisionId := Some (rv_id revision) |};
     mret tt)
    (fun _ => mret tt).

(** *** The queue *)

Definition set_claimed (now : Z) (r : PolicyResearchRun) : PolicyResearchRun :=
  {| rr_id := rr_id r; rr_trigger := rr_trigger r; rr_status := PROCESSING; rr_policySourceId := rr_policySourceId r;
     rr_policySourceRevisionId := rr_policySourceRevisionId r; rr_jurisdictionCode := rr_jurisdictionCode r;
     rr_productCode := rr_productCode r; rr_lifecycleEvent := rr_lifecycleEvent r;
     rr_requestFingerprint := rr_requestFingerprint r; rr_unresolvedReasons := rr_unresolvedReasons r;
     rr_researchQuery := rr_researchQuery r; rr_candidateSummary := rr_candidateSummary r;
     rr_changeSignals := rr_changeSignals r; rr_synthesisProvider := rr_synthesisProvider r; rr_failureDetail := None;
     rr_attempts := rr_attempts r + 1; rr_requestedAt := rr_requestedAt r; rr_claimedAt := Some now;
     rr_completedAt := rr_completedAt r |}.

Definition claimable (now : Z) (r : PolicyResearchRun) : bool :=
  bool_decide (rr_status r = QUEUED) ||
  (bool_decide (rr_status r = PROCESSING) &&
   match rr_claimedAt r with Some t => t <? now - cf_leaseMs config | None => false end).

(** [ORDER BY requestedAt ASC, id ASC] *)
Definition precedes (l r : PolicyResearchRun) : bool :=
  (rr_requestedAt l <? rr_requestedAt r) ||
  ((rr_requestedAt l =? rr_requestedAt r) && String.leb (rr_id l) (rr_id r)).
Fixpoint first_run (l : list PolicyResearchRun) : option PolicyResearchRun :=
  match l with
  | [] => None
  | r :: l => match first_run l with
              | Some r' => if precedes r r' then Some r else Some r'
              | None => Some r
              end
  end.

(** The statement: the first claimable run, locked and updated; [SKIP LOCKED]
    only matters between statements that overlap. *)
Definition claimNextRun : M State Failure (option PolicyResearchRun) :=
  now ← gets st_dbnow;
  candidate ← gets (fun s => first_run (find_rows (claimable now) (st_runs s)));
  match candidate with
  | None => mret None
  | Some r =>
      _ ← guard_throw (2 ^ 31 - 1 <=? rr_attempts r) (Failed "integer out of range");
      let row := set_claimed now r in
      _ ← modify (fun s => put_runs (<[rr_id r := row]> (st_runs s)) s);
      mret (Some row)
  end.

(** *** Retrieval *)

Fixpoint first_of_source (seen : list string) (l : list PolicySourceRevision) : list PolicySourceRevision :=
  match l with
  | [] => []
  | r :: l => if includes seen (rv_policySourceId r) then first_of_source seen l
              else r :: first_of_source (rv_policySourceId r :: seen) l
  end.

Definition revisionsFor (run : PolicyResearchRun) : prog (list PolicySourceRevision) :=
  match truthy_option (rr_policySourceRevisionId run) with
  | Some id =>
      revision ← atomically (gets (revision_with_id id));
      mret (match revision with Some r => [r] | None => [] end)
  | None =>
      sources ← atomically (gets (fun s =>
        List.filter (fun x => String.eqb (Resolver.ps_jurisdictionCode (so_row x)) (rr_jurisdictionCode run)) (st_sources s)));
      match sources with
      | [] => mret []
      | sources =>
          revisions ← atomically (gets (fun s =>
            order_by (fun r => - rv_recordedAt r)
              (List.filter (fun r => includes (map (fun x => Resolver.ps_id (so_row x)) sources) (rv_policySourceId r))
                (st_revisions s))));
          mret (first_of_source [] revisions)
      end
  end.

Definition excerpt_of (queryTerms : list string) (p : Passage) : SourceExcerpt :=
  {| se_policySourceRevisionId := pg_revision p; se_sourceChecksum := pg_checksum p; se_location := pg_location p;
     se_excerpt := pg_excerpt p; se_relevanceScore := relevance queryTerms (pg_excerpt p) |}.

(** More relevant first, then by location. *)
Definition not_after (l r : SourceExcerpt) : bool :=
  match SFcompare (se_relevanceScore r) (se_relevanceScore l) with
  | Some Lt => true
  | Some Gt => false
  | _ => match localeCompare (se_location l) (se_location r) with Gt => false | _ => true end
  end.
Fixpoint insert_excerpt (x : SourceExcerpt) (l : list SourceExcerpt) : list SourceExcerpt :=
  match l with
  | [] => [x]
  | y :: l' => if not_after x y then x :: l else y :: insert_excerpt x l'
  end.

Definition ranked (query : string) (revisions : list PolicySourceRevision) : list SourceExcerpt :=
  take (maxCitations config)
    (foldr insert_excerpt [] (map (excerpt_of (tokenize query)) (mjoin (map passages_of revisions)))).

Definition retrieve (run : PolicyResearchRun) : prog (list SourceExcerpt) :=
  revisions ← revisionsFor run;
  mret (ranked (rr_researchQuery run) revisions).

(** *** Citations *)

Definition of_run (id : string) (c : PolicyResearchCitation) : bool := String.eqb (ci_policyResearchRunId c) id.

Definition delete_citations (runId : string) : M State Failure unit :=
  modify (fun s => put_citations (filter (fun kc => of_run runId kc.2 = false) (st_citations s)) s).

Definition citation (runId id : string) (index : nat) (e : SourceExcerpt) : PolicyResearchCitation :=
  {| ci_id := id; ci_policyResearchRunId := runId; ci_policySourceRevisionId := se_policySourceRevisionId e;
     ci_sourceChecksum := se_sourceChecksum e; ci_location := se_location e; ci_excerpt := se_excerpt e;
     ci_excerptDigest := digest (Dsl.VString (se_excerpt e)); ci_rank := S index;
     ci_relevanceScore := toFixed6 (se_relevanceScore e) |}.

Definition taken_rank (c : PolicyResearchCitation) (s : State) : bool :=
  bool_decide (is_Some (find_row (fun c' => of_run (ci_policyResearchRunId c) c' && (ci_rank c' =? ci_rank c)%nat) (st_citations s))).

Definition insert_citation (runId : string) (index : nat) (e : SourceExcerpt) : M State Failure unit :=
  id ← next;
  let row := citation runId id index e in
  ok ← gets (fun s =>
    negb (bool_decide (is_Some (st_citations s !! id))) && negb (taken_rank row s) &&
    fits 200 (Some (ci_sourceChecksum row)) && fits 500 (Some (ci_location row)) && fits 64 (Some (ci_excerptDigest row)) &&
    bool_decide (is_Some (st_runs s !! runId)) && bool_decide (is_Some (revision_with_id (ci_policySourceRevisionId row) s)));
  _ ← guard_throw (negb ok) ConstraintViolation;
  modify (fun s => put_citations (<[id := row]> (st_citations s)) s).

(** [save] of several rows is one transaction. *)
Fixpoint insert_citations (runId : string) (index : nat) (l : list SourceExcerpt) : M State Failure unit :=
  match l with
  | [] => mret tt
  | e :: l => _ ← insert_citation runId index e; insert_citations runId (S index) l
  end.

(** *** The brief *)

Definition extractive (run : PolicyResearchRun) (excerpts : list SourceExcerpt) : ResearchSynthesis :=
  match excerpts with
  | [] =>
      {| sy_provider := EXTRACTIVE;
         sy_candidateSummary := "No source passages are available for this policy research request. Coverage or source ownership must be reviewed by a human.";
         sy_changeSignals := ["NO_RETRIEVABLE_SOURCE_CONTENT"] |}
  | _ =>
      {| sy_provider := EXTRACTIVE;
         sy_candidateSummary :=
           "Retrieved " +:+ number_text (length excerpts) +:+ " immutable source passage(s) for " +:+
           trigger_text (rr_trigger run) +:+
           ". This extractive brief is advisory; a reviewer must verify each citation and approve any compiled policy change.";
         sy_changeSignals := ["CITATION_BOUND_REVIEW_REQUIRED"] |}
  end.

(** [payload.message?.content]; reading a property of [null] throws. *)
Definition message_content (payload : Dsl.value) : result Failure Dsl.value :=
  match payload with
  | Dsl.VNull | Dsl.VUndefined => Err (Failed "Cannot read properties of null (reading 'message')")
  | Dsl.VObject o => match Dsl.get o "message" with Dsl.VObject m => Ok (Dsl.get m "content") | _ => Ok Dsl.VUndefined end
  | _ => Ok Dsl.VUndefined
  end.

Definition text_of (v : Dsl.value) : option string := match v with Dsl.VString s => Some s | _ => None end.

Definition invalid_schema : Failure := Failed "Ollama returned an invalid research schema".

Definition parsed_brief (v : Dsl.value) : result Failure ResearchSynthesis :=
  match v with
  | Dsl.VObject o =>
      match Dsl.get o "candidateSummary", Dsl.get o "changeSignals" with
      | Dsl.VString summary, Dsl.VArray signals =>
          match mapM text_of signals with
          | Some signals =>
              Ok {| sy_provider := OLLAMA; sy_candidateSummary := slice 1200 summary;
                    sy_changeSignals := take 8 (map (slice 160) signals) |}
          | None => Err invalid_schema
          end
      | _, _ => Err invalid_schema
      end
  | _ => Err invalid_schema
  end.

Definition brief_of (payload : Dsl.value) : result Failure ResearchSynthesis :=
  match message_content payload with
  | Err e => Err e
  | Ok (Dsl.VString content) =>
      match parse content with
      | Some v => parsed_brief v
      | None => Err (Failed "Unexpected token in JSON")
      end
  | Ok _ => Err (Failed "Ollama returned no text")
  end.

(** What the model is told of the citations. *)
Definition shown (excerpts : list SourceExcerpt) : list (nat * string * string * string) :=
  imap (fun i e => (S i, se_location e, se_sourceChecksum e, se_excerpt e)) excerpts.

Definition synthesizeWithOllama (run : PolicyResearchRun) (excerpts : list SourceExcerpt) : prog ResearchSynthesis :=
  reply ← call (Chat (rr_researchQuery run) (rr_trigger run) (shown excerpts));
  match reply with
  | Payload body => Done (brief_of body)
  | HttpError status => fail (Failed ("Ollama returned HTTP " +:+ pretty status))
  | NoReply message => fail (Failed message)
  | Latest _ => fail (Failed "fetch failed")
  end.

Definition synthesize (run : PolicyResearchRun) (excerpts : list SourceExcerpt) : prog ResearchSynthesis :=
  match cf_provider config with
  | OLLAMA => synthesizeWithOllama run excerpts
  | EXTRACTIVE => mret (extractive run excerpts)
  end.

(** *** Processing *)

Definition set_completed (b : ResearchSynthesis) (now : Z) (r : PolicyResearchRun) : PolicyResearchRun :=
  {| rr_id := rr_id r; rr_trigger := rr_trigger r; rr_status := COMPLETED; rr_policySourceId := rr_policySourceId r;
     rr_policySourceRevisionId := rr_policySourceRevisionId r; rr_jurisdictionCode := rr_jurisdictionCode r;
     rr_productCode := rr_productCode r; rr_lifecycleEvent := rr_lifecycleEvent r;
     rr_requestFingerprint := rr_requestFingerprint r; rr_unresolvedReasons := rr_unresolvedReasons r;
     rr_researchQuery := rr_researchQuery r; rr_candidateSummary := Some (sy_candidateSummary b);
     rr_changeSignals := Some (sy_changeSignals b); rr_synthesisProvider := Some (provider_text (sy_provider b));
     rr_failureDetail := rr_failureDetail r; rr_attempts := rr_attempts r; rr_requestedAt := rr_requestedAt r;
     rr_claimedAt := rr_claimedAt r; rr_completedAt := Some now |}.
Definition set_failed (detail : string) (now : Z) (r : PolicyResearchRun) : PolicyResearchRun :=
  {| rr_id := rr_id r; rr_trigger := rr_trigger r; rr_status := FAILED; rr_policySourceId := rr_policySourceId r;
     rr_policySourceRevisionId := rr_policySourceRevisionId r; rr_jurisdictionCode := rr_jurisdictionCode r;
     rr_productCode := rr_productCode r; rr_lifecycleEvent := rr_lifecycleEvent r;
     rr_requestFingerprint := rr_requestFingerprint r; rr_unresolvedReasons := rr_unresolvedReasons r;
     rr_researchQuery := rr_researchQuery r; rr_candidateSummary := rr_candidateSummary r;
     rr_changeSignals := rr_changeSignals r; rr_synthesisProvider := rr_synthesisProvider r;
     rr_failureDetail := Some detail; rr_attempts := rr_attempts r; rr_requestedAt := rr_requestedAt r;
     rr_claimedAt := rr_claimedAt r; rr_completedAt := Some now |}.

(** [update({ id, status: PROCESSING }, ...)]: no row is no error. *)
Definition update_processing (id : string) (f : Z -> PolicyResearchRun -> PolicyResearchRun) : M State Failure unit :=
  modify (fun s =>
    match st_runs s !! id with
    | Some r => if bool_decide (rr_status r = PROCESSING) then put_runs (<[id := f (st_date s) r]> (st_runs s)) s else s
    | None => s
    end).

Definition errorDetail (e : Failure) : string :=
  match e with ConstraintViolation => "constraint violation" | Failed m => m end.

Definition processClaimedRun (run : PolicyResearchRun) : prog unit :=
  pcatch
    (_ ← atomically (delete_citations (rr_id run));
     excerpts ← retrieve run;
     _ ← match excerpts with
         | [] => mret tt
         | _ => atomically (transaction (insert_citations (rr_id run) 0 excerpts))
         end;
     synthesis ← synthesize run excerpts;
     atomically (update_processing (rr_id run) (set_completed synthesis)))
    (fun error => atomically (update_processing (rr_id run) (set_failed (slice 2000 (errorDetail error))))).

Fixpoint process_runs (limit completed : nat) : prog nat :=
  match limit with
  | O => mret completed
  | S limit =>
      run ← atomically claimNextRun;
      match run with
      | None => mret completed
      | Some run => _ ← processClaimedRun run; process_runs limit (S completed)
      end
  end.
Definition processPendingRuns (limit : nat) : prog nat := process_runs limit 0.

(** ** The monitor *)

Inductive PolicySourceCheckOutcome := NO_CHANGE | NEW_REVISION | SCHEMA_DRIFT | CHECK_ERROR.
Record PolicySourceMonitorResult := {
  mr_sourceId : string; mr_outcome : PolicySourceCheckOutcome; mr_detail : option string }.

Definition detectSchemaDrift (content : Dsl.value) : list string :=
  let missing := ["content.summary is missing or not a non-empty string"] in
  match content with
  | Dsl.VObject o => match Dsl.get o "summary" with Dsl.VString s => if JS.truthy s then [] else missing | _ => missing end
  | Dsl.VArray _ => missing
  | _ => ["content is not an object"]
  end.

(** [DemoPolicySourceConnector.checkForUpdate] *)
Definition checkForUpdate (sourceId : string) (latestKnownChecksum : option string) : prog (option Bulletin) :=
  reply ← call (FetchLatest sourceId);
  match reply with
  | Latest b => mret (if bool_decide (latestKnownChecksum = Some (bu_checksum b)) then None else Some b)
  | NoReply message => fail (Failed message)
  | HttpError _ | Payload _ => fail (Failed "fetch failed")
  end.

(** [findOne({ order: { recordedAt: 'DESC' } })] *)
Definition latest_of (sourceId : string) (s : State) : option PolicySourceRevision :=
  head (order_by (fun r => - rv_recordedAt r)
    (List.filter (fun r => String.eqb (rv_policySourceId r) sourceId) (st_revisions s))).

Definition insert_revision (sourceId : string) (b : Bulletin) : M State Failure PolicySourceRevision :=
  id ← next;
  now ← gets st_dbnow;
  let row := {| rv_id := id; rv_policySourceId := sourceId; rv_checksum := bu_checksum b;
                rv_publishedAt := bu_publishedAt b; rv_recordedAt := now; rv_content := bu_content b |} in
  ok ← gets (fun s => negb (bool_decide (is_Some (revision_with_id id s))) && bool_decide (is_Some (source_with_id sourceId s)));
  _ ← guard_throw (negb ok) ConstraintViolation;
  _ ← modify (fun s => put_revisions (st_revisions s ++ [row]) s);
  mret row.

Definition mode_text (m : PolicySourceRetrievalMode) : string :=
  match m with SYNTHETIC => "SYNTHETIC" | MANUAL => "MANUAL" | CONNECTOR => "CONNECTOR" end.

Definition checkSource (sourceId : string) : prog PolicySourceMonitorResult :=
  let result outcome detail := {| mr_sourceId := sourceId; mr_outcome := outcome; mr_detail := detail |} in
  source ← atomically (gets (source_with_id sourceId));
  match source with
  | None => mret (result CHECK_ERROR (Some "no such policy source"))
  | Some source =>
      if negb (bool_decide (so_retrievalMode source = CONNECTOR)) then
        mret (result CHECK_ERROR (Some ("source retrievalMode is " +:+ mode_text (so_retrievalMode source) +:+
          ", not CONNECTOR - refusing to poll a source no one configured for monitoring")))
      else
        latestRevision ← atomically (gets (latest_of (Resolver.ps_id (so_row source))));
        checked ← pcatch (r ← checkForUpdate sourceId (rv_checksum <$> latestRevision); mret (inl r : option Bulletin + string))
                    (fun e => mret (inr (errorDetail e)));
        match checked with
        | inr detail => mret (result CHECK_ERROR (Some detail))
        | inl None => mret (result NO_CHANGE None)
        | inl (Some update) =>
            match detectSchemaDrift (bu_content update) with
            | [] =>
                revision ← atomically (transaction (insert_revision (Resolver.ps_id (so_row source)) update));
                _ ← requestForNewRevision source revision;
                mret (result NEW_REVISION None)
            | issues => mret (result SCHEMA_DRIFT (Some (String.concat "; " issues)))
            end
        end
  end.

Fixpoint check_sources (connectors : list string) (results : list PolicySourceMonitorResult)
  : prog (list PolicySourceMonitorResult) :=
  match connectors with
  | [] => mret results
  | c :: connectors => r ← checkSource c; check_sources connectors (results ++ [r])
  end.
Definition checkSources (connectors : list string) : prog (list PolicySourceMonitorResult) := check_sources connectors [].

(** ** What is started *)

Inductive Op :=
| OpRequest (r : PolicyResearchRequest)
| OpUnresolved (context : Resolver.PolicyResolutionContext) (unresolvedReasons : list string)
| OpProcess (limit : nat)
| OpMonitor (connectors : list string).

Definition handler (op : Op) : prog unit :=
  match op with
  | OpRequest r => _ ← request r; mret tt
  | OpUnresolved context reasons => requestForUnresolvedResolution context reasons
  | OpProcess limit => _ ← processPendingRuns limit; mret tt
  | OpMonitor connectors => _ ← checkSources connectors; mret tt
  end.
End Service.
End Research.
