(* ===== verification/ResearchTheorems.v ===== *)
(** * What policy research can and cannot do

    [research_is_grounded]: in every interleaving of requests, workers and
    monitors, every citation is a passage of a recorded revision, and nothing
    but the queue, its citations and new revisions changes.  [chunks_lose_nothing],
    [claim_takes_the_first], [batch_finishes_runs]: what the parts of a run do. *)

From Stdlib Require Import Ascii SpecFloat.
From stdpp Require Import gmap strings list pretty.
From S2P Require Import Prelude Encoding PolicyDsl PolicyResolver Concurrency Communications CaseQuery PolicyResearch.

Module ResearchTheorems.
Import Threads Research Encoding.

(** ** Passages *)

Lemma slice_chars n s : chars (slice n s) = take n (chars s).
Proof. unfold slice. by rewrite chars_substring, drop_0. Qed.
Lemma rest_chars n s : chars (rest n s) = drop n (chars s).
Proof. unfold rest. rewrite chars_substring. apply take_ge. rewrite length_drop, chars_length. lia. Qed.

Lemma truthy_chars s : JS.truthy s = negb (bool_decide (chars s = [])).
Proof. by destruct s. Qed.

Lemma chunks_spec fuel n s : (0 < n)%nat -> (String.length s <= fuel)%nat ->
  String.concat "" (chunks fuel n s) = s /\ Forall (fun c => (0 < String.length c <= n)%nat) (chunks fuel n s).
Proof.
  intros Hn. revert s. induction fuel as [|fuel IH]; intros s Hf; cbn [chunks].
  - destruct s; [by split|cbn in Hf; lia].
  - destruct s as [|c s]; [by split|]. cbn [JS.truthy negb String.eqb].
    change (JS.truthy (String c s)) with true. cbn match.
    assert (String.length (rest n (String c s)) <= fuel)%nat as Hr.
    { rewrite <- chars_length, rest_chars, length_drop, chars_length. cbn in Hf |- *. lia. }
    destruct (IH _ Hr) as [Hc Hl]. split.
    + rewrite concat_cons, Hc. apply chars_inj. by rewrite chars_app, slice_chars, rest_chars, take_drop.
    + constructor; [|done]. rewrite <- chars_length, slice_chars, length_take, chars_length. cbn. lia.
Qed.

(** The passages of a text, put together, are the text with its white space
    normalised; none is empty or longer than the limit. *)
Theorem chunks_lose_nothing text :
  String.concat "" (chunkText text) = normalized text /\
  Forall (fun c => (0 < String.length c <= MAX_EXCERPT_CHARS)%nat) (chunkText text).
Proof. apply chunks_spec; [|done]. unfold MAX_EXCERPT_CHARS. lia. Qed.

(** ** The invariant *)

Section Theorems.
Context (config : Config) (fresh : nat -> string) (digest : Dsl.value -> string).
Context (parse : string -> option Dsl.value) (localeCompare : string -> string -> comparison).

(** A passage of a recorded revision. *)
Definition grounded (s : State) (revision checksum location excerpt : string) : Prop :=
  exists r p, r ∈ st_revisions s /\ p ∈ passages_of r /\ rv_id r = revision /\ rv_checksum r = checksum /\
    pg_location p = location /\ pg_excerpt p = excerpt.
Definition grounded_citation (s : State) (c : PolicyResearchCitation) : Prop :=
  grounded s (ci_policySourceRevisionId c) (ci_sourceChecksum c) (ci_location c) (ci_excerpt c).
Definition grounded_excerpt (s : State) (e : SourceExcerpt) : Prop :=
  grounded s (se_policySourceRevisionId e) (se_sourceChecksum e) (se_location e) (se_excerpt e).

(** What a run says of its state. *)
Definition coherent (r : PolicyResearchRun) : Prop :=
  match rr_status r with
  | QUEUED => rr_attempts r = 0 /\ rr_claimedAt r = None /\ rr_completedAt r = None
  | PROCESSING => 1 <= rr_attempts r /\ is_Some (rr_claimedAt r) /\ rr_completedAt r = None
  | COMPLETED => 1 <= rr_attempts r /\ is_Some (rr_candidateSummary r) /\ is_Some (rr_changeSignals r) /\
      is_Some (rr_synthesisProvider r) /\ is_Some (rr_completedAt r)
  | FAILED => 1 <= rr_attempts r /\ is_Some (rr_failureDetail r) /\ is_Some (rr_completedAt r)
  end.

Record Inv (s : State) : Prop := {
  iv_citation k c : st_citations s !! k = Some c ->
    ci_id c = k /\ grounded_citation s c /\ ci_excerptDigest c = digest (Dsl.VString (ci_excerpt c)) /\
    (1 <= ci_rank c <= 6)%nat /\ is_Some (st_runs s !! ci_policyResearchRunId c);
  iv_rank k k' c c' : st_citations s !! k = Some c -> st_citations s !! k' = Some c' ->
    ci_policyResearchRunId c = ci_policyResearchRunId c' -> ci_rank c = ci_rank c' -> k = k';
  iv_run k r : st_runs s !! k = Some r -> rr_id r = k /\ coherent r;
  iv_fingerprint k k' r r' : st_runs s !! k = Some r -> st_runs s !! k' = Some r' ->
    rr_requestFingerprint r = rr_requestFingerprint r' -> k = k' }.

(** ** How a state evolves *)

(** The request a run answers. *)
Definition asked (r : PolicyResearchRun) :=
  (rr_id r, rr_trigger r, rr_policySourceId r, rr_policySourceRevisionId r, rr_jurisdictionCode r, rr_productCode r,
   rr_lifecycleEvent r, rr_requestFingerprint r, rr_unresolvedReasons r, rr_researchQuery r, rr_requestedAt r).
Definition final (r : PolicyResearchRun) : Prop := rr_status r = COMPLETED \/ rr_status r = FAILED.

Definition run_evolves (r r' : PolicyResearchRun) : Prop :=
  asked r' = asked r /\ rr_attempts r <= rr_attempts r' /\ (final r -> r' = r).

Record evolves (s s' : State) : Prop := {
  ev_revisions : exists l, st_revisions s' = st_revisions s ++ l;
  ev_sources : exists l, st_sources s' = st_sources s ++ l;
  ev_runs k r : st_runs s !! k = Some r -> exists r', st_runs s' !! k = Some r' /\ run_evolves r r' }.

#[local] Instance run_evolves_preorder : PreOrder run_evolves.
Proof.
  split.
  - intros r. by split_and!.
  - intros r1 r2 r3 (H1 & H2 & H3) (H4 & H5 & H6). split_and!; [congruence|lia|].
    intros Hf. specialize (H3 Hf). subst r2. auto.
Qed.
#[local] Instance evolves_preorder : PreOrder evolves.
Proof.
  split.
  - intros s. split; [exists []; by rewrite app_nil_r..|]. intros k r Hr. exists r. split; [done|reflexivity].
  - intros s1 s2 s3 [[l1 H1] [l2 H2] H3] [[l4 H4] [l5 H5] H6]. split.
    + exists (l1 ++ l4). by rewrite H4, H1, app_assoc.
    + exists (l2 ++ l5). by rewrite H5, H2, app_assoc.
    + intros k r Hr. destruct (H3 _ _ Hr) as (r2 & Hr2 & He). destruct (H6 _ _ Hr2) as (r3 & Hr3 & He').
      exists r3. split; [done|by etrans].
Qed.

Lemma grounded_evolves s s' a b c d : evolves s s' -> grounded s a b c d -> grounded s' a b c d.
Proof.
  intros [[l Hl] _ _] (r & p & Hr & Hp). exists r, p. split; [|done]. rewrite Hl. apply elem_of_app. by left.
Qed.

(** Everything but the queue, its citations, the revisions and the keys. *)
Definition policy (s : State) := (st_jurisdictions s, st_applicability s, st_versions s, st_sources s).

(** A statement that keeps the invariant and lets the state evolve, where [P]
    holds. *)
Definition sound {A} (P : State -> Prop) (m : M State Failure A) : Prop :=
  forall s, Inv s -> P s -> Inv (m s).2 /\ evolves s (m s).2.

Lemma sound_bind {A B} P (m : M State Failure A) (f : A -> M State Failure B) :
  (forall s s', evolves s s' -> P s -> P s') -> sound P m -> (forall a, sound P (f a)) -> sound P (m ≫= f).
Proof.
  intros HP Hm Hf s HI Hs. unfold mbind, M_bind. destruct (Hm s HI Hs) as [H1 H2].
  destruct (m s) as [[a|e] s1]; cbn in *; [|done].
  destruct (Hf a s1 H1 (HP _ _ H2 Hs)) as [H3 H4]. split; [done|by etrans].
Qed.

Lemma sound_read {A} P (m : M State Failure A) : (forall s, (m s).2 = s) -> sound P m.
Proof. intros Hm s HI _. rewrite Hm. by split_and!. Qed.

Lemma sound_transaction {A} P (m : M State Failure A) : sound P m -> sound P (transaction m).
Proof.
  intros Hm s HI Hs. unfold transaction. destruct (Hm s HI Hs). by destruct (m s) as [[a|e] s1].
Qed.

Lemma sound_gets_bind {A B} P (f : State -> A) (g : A -> M State Failure B) :
  (forall a, sound P (g a)) -> sound P (gets f ≫= g).
Proof. intros Hg s HI Hs. apply (Hg (f s) s HI Hs). Qed.

Lemma sound_guard {B} P c e (g : unit -> M State Failure B) :
  (c = false -> sound P (g tt)) -> sound P (guard_throw c e ≫= g).
Proof. intros Hg s HI Hs. destruct c; cbn; [by split_and!|by apply Hg]. Qed.

Lemma sound_next {B} P (g : string -> M State Failure B) :
  (forall s s', evolves s s' -> P s -> P s') -> (forall a, sound P (g a)) -> sound P (next fresh ≫= g).
Proof.
  intros HP Hg. apply sound_bind; [done| |done]. intros s [H1 H2 H3 H4] _. split; [by split|].
  split; cbn; [exists []; by rewrite app_nil_r..|]. intros k r Hr. exists r. split; [done|reflexivity].
Qed.

(** Where a statement may look at the state it runs in. *)
Lemma sound_here {A B} P (f : State -> A) (g : A -> M State Failure B) :
  (forall s, sound (fun s' => s' = s /\ P s) (g (f s))) -> sound P (gets f ≫= g).
Proof. intros Hg s HI Hs. by apply (Hg s s HI). Qed.

(** *** The queue *)

Lemma evolves_runs s runs :
  (forall k r, st_runs s !! k = Some r -> exists r', runs !! k = Some r' /\ run_evolves r r') -> evolves s (put_runs runs s).
Proof. intros H. split; [exists []; by rewrite app_nil_r..|done]. Qed.

Lemma citations_kept s runs : Inv s -> (forall k, is_Some (st_runs s !! k) -> is_Some (runs !! k)) ->
  forall k c, st_citations s !! k = Some c ->
    ci_id c = k /\ grounded_citation (put_runs runs s) c /\ ci_excerptDigest c = digest (Dsl.VString (ci_excerpt c)) /\
    (1 <= ci_rank c <= 6)%nat /\ is_Some (runs !! ci_policyResearchRunId c).
Proof.
  intros HI Hruns k c Hc. destruct (iv_citation _ HI _ _ Hc) as (? & Hg & ? & ? & Hr).
  split; [done|]. split; [exact Hg|]. split; [done|]. split; [done|]. by apply Hruns.
Qed.

Lemma inv_update s k r r' : Inv s -> st_runs s !! k = Some r -> run_evolves r r' -> coherent r' ->
  Inv (put_runs (<[k := r']> (st_runs s)) s) /\ evolves s (put_runs (<[k := r']> (st_runs s)) s).
Proof.
  intros HI Hr He Hc. pose proof HI as [_ H2 H3 H4]. destruct (H3 _ _ Hr) as [Hk _]. destruct He as (Ha & Hn & Hf).
  assert (rr_id r' = rr_id r /\ rr_requestFingerprint r' = rr_requestFingerprint r) as [Hi Hp] by (unfold asked in Ha; by simplify_eq).
  assert (forall j q, <[k := r']> (st_runs s) !! j = Some q -> exists q0, st_runs s !! j = Some q0 /\
    rr_id q = rr_id q0 /\ rr_requestFingerprint q = rr_requestFingerprint q0 /\ (q = r' /\ j = k \/ q = q0)) as Hl.
  { intros j q [[<- <-]|[? Hj]]%lookup_insert_Some; [exists r|exists q]; naive_solver. }
  split; [split; cbn|].
  - apply citations_kept; [done|]. intros j [q Hq]. destruct (decide (j = k)) as [->|].
    + exists r'. apply lookup_insert_eq.
    + exists q. by rewrite lookup_insert_ne.
  - apply H2.
  - intros j q Hj. destruct (Hl _ _ Hj) as (q0 & Hq0 & Hid & _ & Hc0). destruct (H3 _ _ Hq0) as [? ?].
    split; [congruence|]. by destruct Hc0 as [[-> _]| ->].
  - intros j j' q q' Hj Hj' Hfp. destruct (Hl _ _ Hj) as (q0 & Hq0 & _ & Hf0 & _). destruct (Hl _ _ Hj') as (q0' & Hq0' & _ & Hf0' & _).
    apply (H4 _ _ _ _ Hq0 Hq0'). congruence.
  - apply evolves_runs. intros j q Hj. destruct (decide (j = k)) as [->|].
    + exists r'. rewrite lookup_insert_eq. split; [done|]. assert (q = r) as -> by congruence. exact (conj Ha (conj Hn Hf)).
    + exists q. rewrite lookup_insert_ne by done. split; [done|reflexivity].
Qed.

Lemma inv_insert s row : Inv s -> admissible row s = true -> coherent row ->
  Inv (put_runs (<[rr_id row := row]> (st_runs s)) s) /\ evolves s (put_runs (<[rr_id row := row]> (st_runs s)) s).
Proof.
  intros HI Ha Hc. pose proof HI as [_ H2 H3 H4]. unfold admissible in Ha.
  apply andb_true_iff in Ha as [Ha _]. do 4 (apply andb_true_iff in Ha as [Ha _]). apply andb_true_iff in Ha as [Ha _].
  apply andb_true_iff in Ha as [Hnew Hfp].
  apply negb_true_iff, bool_decide_eq_false in Hnew. apply negb_true_iff, bool_decide_eq_false in Hfp.
  assert (st_runs s !! rr_id row = None) as Hn by (destruct (st_runs s !! rr_id row) eqn:E; [exfalso; apply Hnew; by eexists|done]).
  assert (forall j q, st_runs s !! j = Some q -> rr_requestFingerprint q <> rr_requestFingerprint row) as Hf.
  { intros j q Hj Hq. unfold run_with_fingerprint in Hfp. destruct (find_row _ _) eqn:E; [by apply Hfp|].
    pose proof (find_row_None _ _ _ _ E Hj) as Hb. apply String.eqb_neq in Hb. by apply Hb. }
  split; [split; cbn|].
  - apply citations_kept; [done|]. intros j [q Hq]. exists q. rewrite lookup_insert_ne; [done|].
    intros E. rewrite <- E, Hn in Hq. discriminate Hq.
  - apply H2.
  - intros j q [[<- <-]|[? Hj]]%lookup_insert_Some; [by split|by apply H3].
  - intros j j' q q' [[<- <-]|[? Hj]]%lookup_insert_Some [[<- <-]|[? Hj']]%lookup_insert_Some He; [done| | |by eapply H4].
    + by destruct (Hf _ _ Hj').
    + by destruct (Hf _ _ Hj).
  - apply evolves_runs. intros j q Hj. exists q. split; [|reflexivity].
    rewrite lookup_insert_ne; [done|]. intros E. rewrite <- E, Hn in Hj. discriminate Hj.
Qed.

Lemma sound_insert_run f r : sound (fun _ => True) (transaction (insert_run fresh f r)).
Proof.
  apply sound_transaction. unfold insert_run. apply sound_next; [done|]. intros id.
  apply sound_gets_bind. intros now. apply sound_here. intros s. destruct (admissible (queued id f r now) s) eqn:E.
  - intros s' HI [-> _]. destruct (inv_insert s (queued id f r now) HI E) as [? ?]; [by split_and!|]. by split_and!.
  - by intros s' HI [-> _].
Qed.

Lemma first_run_in l r : first_run l = Some r -> r ∈ l.
Proof.
  revert r. induction l as [|x l IH]; intros r; cbn; [done|]. destruct (first_run l) as [r'|] eqn:E.
  - destruct (precedes x r'); intros [= <-]; apply elem_of_cons; [by left|right; by apply IH].
  - intros [= <-]. apply elem_of_cons. by left.
Qed.

Lemma claimed_evolves now r : claimable config now r = true -> coherent r ->
  run_evolves r (set_claimed now r) /\ coherent (set_claimed now r).
Proof.
  intros Hc Hr. split.
  - split_and!; [done|cbn; lia|]. intros [Hf|Hf]; unfold claimable in Hc; rewrite Hf in Hc; discriminate Hc.
  - unfold coherent in *. cbn. unfold claimable in Hc. destruct (rr_status r); try discriminate Hc; destruct Hr as (? & ? & ?);
      (split_and!; [lia|by eexists|done]).
Qed.

Lemma sound_claim : sound (fun _ => True) (claimNextRun config).
Proof.
  unfold claimNextRun. apply sound_gets_bind. intros now. apply sound_here. intros s.
  destruct (first_run _) as [r|] eqn:E; [|by apply sound_read]. apply sound_guard.
  intros _ s' HI [-> _]. apply first_run_in, elem_find_rows in E as [Hc [k Hk]].
  destruct (iv_run _ HI _ _ Hk) as [<- Hr]. destruct (claimed_evolves _ _ Hc Hr) as [He Hco].
  destruct (inv_update s _ _ _ HI Hk He Hco) as [? ?]. by split_and!.
Qed.

Lemma sound_update id f :
  (forall now r, rr_status r = PROCESSING -> coherent r -> run_evolves r (f now r) /\ coherent (f now r)) ->
  sound (fun _ => True) (update_processing id f).
Proof.
  intros Hf s HI _. unfold update_processing, modify. cbn. destruct (st_runs s !! id) as [r|] eqn:Hr; [|by split_and!].
  case_bool_decide as Hp; [|by split_and!]. destruct (iv_run _ HI _ _ Hr) as [_ Hc].
  destruct (Hf (st_date s) r Hp Hc) as [He Hco]. destruct (inv_update s _ _ _ HI Hr He Hco) as [? ?]. by split_and!.
Qed.

Lemma completed_evolves b now r : rr_status r = PROCESSING -> coherent r ->
  run_evolves r (set_completed b now r) /\ coherent (set_completed b now r).
Proof.
  intros Hp Hc. unfold coherent in Hc. rewrite Hp in Hc. destruct Hc as (? & ? & ?). split.
  - split_and!; [done|done|]. intros [Hf|Hf]; rewrite Hp in Hf; discriminate Hf.
  - cbn. by split_and!; [|eexists..].
Qed.
Lemma failed_evolves d now r : rr_status r = PROCESSING -> coherent r ->
  run_evolves r (set_failed d now r) /\ coherent (set_failed d now r).
Proof.
  intros Hp Hc. unfold coherent in Hc. rewrite Hp in Hc. destruct Hc as (? & ? & ?). split.
  - split_and!; [done|done|]. intros [Hf|Hf]; rewrite Hp in Hf; discriminate Hf.
  - cbn. by split_and!; [|eexists..].
Qed.

(** *** Citations and revisions *)

Lemma evolves_same s s' : st_revisions s' = st_revisions s -> st_sources s' = st_sources s -> st_runs s' = st_runs s -> evolves s s'.
Proof.
  intros H1 H2 H3. split; [exists []; by rewrite app_nil_r..|]. rewrite H3. intros k r Hr. exists r. split; [done|reflexivity].
Qed.

Lemma sound_delete_citations id : sound (fun _ => True) (delete_citations id).
Proof.
  intros s HI _. cbn. split; [|by apply evolves_same]. destruct HI as [H1 H2 H3 H4]. split; cbn.
  - intros k c [Hc _]%map_lookup_filter_Some. by apply H1.
  - intros k k' c c' [Hc _]%map_lookup_filter_Some [Hc' _]%map_lookup_filter_Some. by apply H2.
  - apply H3.
  - apply H4.
Qed.

Lemma sound_insert_citation runId index e : (index < 6)%nat ->
  sound (fun s => grounded_excerpt s e) (insert_citation fresh digest runId index e).
Proof.
  intros Hi. unfold insert_citation. apply sound_next; [intros s s' He; by apply grounded_evolves|].
  intros id. cbn zeta. apply sound_here. intros s. apply sound_guard. intros Hok%negb_false_iff s' HI [-> Hg].
  do 6 (apply andb_true_iff in Hok as [Hok ?]). bsplit. set (row := citation digest runId id index e) in *.
  assert (st_citations s !! id = None) as Hn by (destruct (st_citations s !! id) eqn:E; [exfalso; eauto|done]).
  assert (forall k c, st_citations s !! k = Some c -> ci_policyResearchRunId c = runId -> ci_rank c <> S index) as Hr.
  { intros k c Hc Hrun Hrank. unfold taken_rank in *.
    destruct (find_row _ _) eqn:E; [naive_solver|]. pose proof (find_row_None _ _ _ _ E Hc) as Hb. unfold of_run in Hb. cbn in Hb.
    rewrite Hrun, String.eqb_refl, Hrank, Nat.eqb_refl in Hb. discriminate Hb. }
  cbn. split; [|by apply evolves_same]. pose proof HI as [G1 G2 G3 G4]. split; cbn; [| |done|done].
  - intros k c [[<- <-]|[? Hc]]%lookup_insert_Some; [|by apply G1].
    split; [done|]. split; [exact Hg|]. split; [done|]. split; [cbn; lia|done].
  - intros k k' c c' [[<- <-]|[? Hc]]%lookup_insert_Some [[<- <-]|[? Hc']]%lookup_insert_Some Hru Hra; [done| | |by eapply G2].
    + by destruct (Hr _ _ Hc').
    + by destruct (Hr _ _ Hc).
Qed.

Lemma sound_mono {A} (P P' : State -> Prop) (m : M State Failure A) : (forall s, P' s -> P s) -> sound P m -> sound P' m.
Proof. intros HP Hm s HI Hs. apply Hm; auto. Qed.

Lemma grounded_excerpts_evolve l s s' : evolves s s' -> Forall (grounded_excerpt s) l -> Forall (grounded_excerpt s') l.
Proof. intros He Hl. eapply Forall_impl; [exact Hl|]. intros e. by apply grounded_evolves. Qed.

Lemma sound_insert_citations runId index l : (index + length l <= 6)%nat ->
  sound (fun s => Forall (grounded_excerpt s) l) (insert_citations fresh digest runId index l).
Proof.
  revert index. induction l as [|e l IH]; intros index Hn; cbn [insert_citations]; [by apply sound_read|]. cbn in Hn.
  apply sound_bind; [intros s s'; by apply grounded_excerpts_evolve| |intros _].
  - eapply sound_mono; [|apply sound_insert_citation; lia]. intros s Hl. by inversion Hl.
  - eapply sound_mono; [|apply IH; lia]. intros s Hl. by inversion Hl.
Qed.

Lemma sound_insert_revision sourceId b : sound (fun _ => True) (transaction (insert_revision fresh sourceId b)).
Proof.
  apply sound_transaction. unfold insert_revision. apply sound_next; [done|]. intros id. apply sound_gets_bind. intros now.
  cbn zeta. apply sound_gets_bind. intros ok. apply sound_guard. intros _ s HI _. cbn.
  set (row := Build_PolicySourceRevision _ _ _ _ _ _).
  assert (evolves s (put_revisions (st_revisions s ++ [row]) s)) as He.
  { split; cbn; [by eexists|exists []; by rewrite app_nil_r|]. intros k r Hr. exists r. split; [done|reflexivity]. }
  split; [|done]. destruct HI as [H1 H2 H3 H4]. split; cbn; [|done|done|done].
  intros k c Hc. destruct (H1 _ _ Hc) as (? & Hg & ? & ? & ?). split; [done|]. split; [by eapply grounded_evolves|done].
Qed.

(** ** Handlers *)

Definition permitted (s : State) (q : Request) : Prop :=
  match q with
  | Chat query trigger citations =>
      (exists k r, st_runs s !! k = Some r /\ rr_researchQuery r = query /\ rr_trigger r = trigger) /\
      forall n location checksum excerpt, (n, location, checksum, excerpt) ∈ citations ->
        exists revision, grounded s revision checksum location excerpt
  | FetchLatest id => exists x, x ∈ st_sources s /\ Resolver.ps_id (so_row x) = id /\ so_retrievalMode x = CONNECTOR
  end.

Lemma permitted_evolves s s' q : evolves s s' -> permitted s q -> permitted s' q.
Proof.
  intros He. destruct q as [query trigger citations|id]; cbn.
  - intros [(k & r & Hr & Hq & Ht) Hc]. split.
    + destruct (ev_runs _ _ He _ _ Hr) as (r' & Hr' & Ha & _). exists k, r'. unfold asked in Ha. split; [done|]. by simplify_eq.
    + intros n l c e Hin. destruct (Hc n l c e Hin) as [rev Hg]. exists rev. by eapply grounded_evolves.
  - intros (x & Hx & H). exists x. split; [|done]. destruct (ev_sources _ _ He) as [l ->]. apply elem_of_app. by left.
Qed.

Notation rel := (relies (R := Reply) Inv evolves permitted).

Lemma rel_statement {A} P (m : M State Failure A) (Φ : result Failure A -> State -> Prop) s :
  (forall s s', evolves s s' -> P s -> P s') -> sound P m -> P s ->
  (forall s', evolves s s' -> Inv s' -> P s' -> Φ (m s').1 (m s').2) -> rel Φ (atomically m) s.
Proof.
  intros HP Hm Hs HΦ s' He HI. destruct (Hm s' HI (HP _ _ He Hs)). split_and!; [done..|]. cbn. apply HΦ; [done..|by eapply HP].
Qed.

Notation always := (fun _ _ => True).

Lemma rel_always_bind {A B} (p : prog A) (f : A -> prog B) s :
  rel always p s -> (forall a s', rel always (f a) s') -> rel always (p ≫= f) s.
Proof. intros Hp Hf. apply relies_bind. eapply relies_mono; [|exact Hp]. intros [a|e] s' _; [apply Hf|done]. Qed.

Lemma rel_always_catch {A} (p : prog A) (h : Failure -> prog A) s :
  rel always p s -> (forall e s', rel always (h e) s') -> rel always (pcatch p h) s.
Proof. intros Hp Hh. apply relies_catch. eapply relies_mono; [|exact Hp]. intros [a|e] s' _; [done|apply Hh]. Qed.

Lemma rel_always {A} (m : M State Failure A) s : sound (fun _ => True) m -> rel always (atomically m) s.
Proof. intros Hm s' He HI. destruct (Hm s' HI I). by split_and!. Qed.

Lemma rel_gets {A B} (f : State -> A) (g : A -> prog B) Φ s :
  (forall s', evolves s s' -> Inv s' -> rel Φ (g (f s')) s') -> rel Φ (atomically (gets f) ≫= g) s.
Proof. apply (relies_gets Inv evolves permitted). Qed.

Lemma rel_request r s : rel always (request fresh digest r) s.
Proof.
  unfold request. apply rel_gets. intros s1 _ _. destruct (run_with_fingerprint _ _); [done|].
  apply rel_always_catch; [apply rel_always, sound_insert_run|]. intros e s2. apply rel_gets. intros s3 _ _.
  by destruct (run_with_fingerprint _ _).
Qed.

Lemma rel_log {A} (p : prog A) s : rel always p s -> rel always (pcatch (_ ← p; mret tt) (fun _ => mret tt)) s.
Proof. intros Hp. apply rel_always_catch; [|done]. by apply rel_always_bind. Qed.

(** *** A run *)

Lemma revision_in id s r : revision_with_id id s = Some r -> r ∈ st_revisions s.
Proof. intros H. apply List.find_some in H as [H _]. by apply list_elem_of_In. Qed.

Lemma first_of_source_in seen l r : r ∈ first_of_source seen l -> r ∈ l.
Proof.
  revert seen. induction l as [|x l IH]; intros seen; cbn; [done|]. destruct (includes _ _).
  - intros H%IH. apply elem_of_cons. by right.
  - intros [->|H%IH]%elem_of_cons; apply elem_of_cons; [by left|by right].
Qed.

Definition recorded (l : list PolicySourceRevision) (s : State) : Prop := forall r, r ∈ l -> r ∈ st_revisions s.

Lemma rel_revisionsFor run s :
  rel (fun r s => match r with Ok l => recorded l s | Err _ => True end) (revisionsFor run) s.
Proof.
  unfold revisionsFor. destruct (truthy_option _) as [id|].
  - apply rel_gets. intros s1 _ _. cbn. destruct (revision_with_id id s1) as [r|] eqn:E; intros x; [|by intros ?%elem_of_nil].
    intros ->%list_elem_of_singleton. by eapply revision_in.
  - apply rel_gets. intros s1 _ _. destruct (List.filter _ _); [by intros r ?%elem_of_nil|].
    apply rel_gets. intros s2 _ _ r Hr%first_of_source_in%elem_order_by.
    apply list_elem_of_In, List.filter_In in Hr as [Hr _]. by apply list_elem_of_In.
Qed.

Lemma insert_excerpt_in x l e : e ∈ insert_excerpt localeCompare x l -> e = x \/ e ∈ l.
Proof.
  induction l as [|y l IH]; cbn; [intros ->%list_elem_of_singleton; by left|].
  destruct (not_after _ x y).
  - intros [->|H]%elem_of_cons; [by left|by right].
  - intros [->|H]%elem_of_cons; [right; apply elem_of_cons; by left|]. destruct (IH H) as [->|?]; [by left|].
    right. apply elem_of_cons. by right.
Qed.

Lemma ranked_length query l : (length (ranked config localeCompare query l) <= 6)%nat.
Proof. unfold ranked. rewrite length_take. unfold maxCitations, MAX_CITATIONS. lia. Qed.

Lemma passage_revision r p : p ∈ passages_of r -> pg_revision p = rv_id r /\ pg_checksum p = rv_checksum r.
Proof.
  unfold passages_of. intros H. apply list_elem_of_bind in H as ([location text] & Hp & _).
  apply elem_of_lookup_imap in Hp as (i & e & -> & _). by split.
Qed.

Lemma ranked_grounded query l s : recorded l s -> Forall (grounded_excerpt s) (ranked config localeCompare query l).
Proof.
  intros Hl. apply Forall_take. set (xs := map _ _).
  assert (forall e, e ∈ foldr (insert_excerpt localeCompare) [] xs -> e ∈ xs) as Hin.
  { induction xs as [|x xs IH]; cbn; [done|]. intros e [->|H]%insert_excerpt_in; apply elem_of_cons; [by left|right; auto]. }
  apply Forall_forall. intros e He%Hin. unfold xs in He. apply list_elem_of_fmap in He as (p & -> & Hp).
  apply list_elem_of_join in Hp as (ps & Hp & Hps). apply list_elem_of_fmap in Hps as (r & -> & Hr).
  destruct (passage_revision r p Hp) as [H1 H2]. exists r, p. split; [by apply Hl|]. by split_and!.
Qed.

(** The run is in the queue, with its question. *)
Definition listed (run : PolicyResearchRun) (s : State) : Prop :=
  exists k r, st_runs s !! k = Some r /\ rr_researchQuery r = rr_researchQuery run /\ rr_trigger r = rr_trigger run.

Lemma listed_evolves run s s' : evolves s s' -> listed run s -> listed run s'.
Proof.
  intros He (k & r & Hr & Hq & Ht). destruct (ev_runs _ _ He _ _ Hr) as (r' & Hr' & Ha & _).
  exists k, r'. unfold asked in Ha. split; [done|]. split; congruence.
Qed.

Lemma rel_synthesize run excerpts s : listed run s -> Forall (grounded_excerpt s) excerpts ->
  rel always (synthesize config parse run excerpts) s.
Proof.
  intros Hl Hg. unfold synthesize. destruct (cf_provider config); [done|]. unfold synthesizeWithOllama.
  apply relies_call. intros s' He HI. split; [|by intros []]. split.
  - destruct (listed_evolves _ _ _ He Hl) as (k & r & Hr & Hq & Ht). by exists k, r.
  - intros n location checksum excerpt Hin. apply elem_of_lookup_imap in Hin as (i & e & [= -> -> -> ->] & Hi).
    apply list_elem_of_lookup_2 in Hi. exists (se_policySourceRevisionId e).
    apply (proj1 (Forall_forall _ _) (grounded_excerpts_evolve _ _ _ He Hg) e Hi).
Qed.

Lemma rel_statement_always {A} P (m : M State Failure A) s :
  (forall s s', evolves s s' -> P s -> P s') -> sound P m -> P s -> rel always (atomically m) s.
Proof. intros HP Hm Hs. by eapply rel_statement. Qed.

Lemma rel_processClaimedRun run s : listed run s ->
  rel always (processClaimedRun config fresh digest parse localeCompare run) s.
Proof.
  intros Hl. unfold processClaimedRun.
  apply rel_always_catch; [|intros e s'; apply rel_always, sound_update; intros; by apply failed_evolves].
  apply relies_bind. eapply relies_mono; [|apply (relies_frame _ _ _ _ always (listed run)); [by apply listed_evolves|done|apply rel_always, sound_delete_citations]].
  intros [[]|e] s1 [Hl1 _]; [|done]. unfold retrieve. do 2 apply relies_bind.
  eapply relies_mono; [|apply (relies_frame _ _ _ _ (fun r s => match r with Ok l => recorded l s | Err _ => True end) (listed run));
    [by apply listed_evolves|done|apply rel_revisionsFor]].
  intros [l|e] s2 [Hl2 Hrec]; [|done]. cbn. pose proof (ranked_grounded (rr_researchQuery run) l s2 Hrec) as Hg.
  pose proof (ranked_length (rr_researchQuery run) l) as Hn. generalize dependent (ranked config localeCompare (rr_researchQuery run) l). intros excerpts Hg Hn.
  apply relies_bind. eapply relies_mono; [|apply (relies_frame _ _ _ _ always (fun s => listed run s /\ Forall (grounded_excerpt s) excerpts))].
  - intros [[]|e] s3 [[Hl3 Hg3] _]; [|done]. apply rel_always_bind; [by apply rel_synthesize|].
    intros b s4. apply rel_always, sound_update. intros. by apply completed_evolves.
  - intros s3 s4 He [H1 H2]. split; [by eapply listed_evolves|by eapply grounded_excerpts_evolve].
  - done.
  - destruct excerpts as [|e l0]; [by cbn|]. eapply rel_statement_always; [|apply sound_transaction, sound_insert_citations|exact Hg].
    + intros s3 s4. apply grounded_excerpts_evolve.
    + done.
Qed.

Lemma claim_listed s run s' : Inv s -> claimNextRun config s = (Ok (Some run), s') -> listed run s'.
Proof.
  intros HI H. unfold claimNextRun in H. minv. destruct (first_run _) as [r|] eqn:E; minv.
  apply first_run_in, elem_find_rows in E as [_ [k Hk]].
  eexists (rr_id r), _. cbn. rewrite lookup_insert_eq. split; [reflexivity|done].
Qed.

Lemma rel_after {A B} (m : M State Failure A) (g : A -> prog B) s : sound (fun _ => True) m ->
  (forall s1 a s2, Inv s1 -> m s1 = (Ok a, s2) -> rel always (g a) s2) -> rel always (atomically m ≫= g) s.
Proof.
  intros Hm Hg. apply relies_bind. intros s1 _ HI. destruct (Hm s1 HI I) as [HI2 He2]. split; [done|]. split; [done|].
  destruct (m s1) as [[a|e] s2] eqn:E; [exact (Hg _ _ _ HI E)|exact I].
Qed.

Lemma rel_process_runs limit n s : rel always (process_runs config fresh digest parse localeCompare limit n) s.
Proof.
  revert n s. induction limit as [|limit IH]; intros n s; cbn [process_runs]; [done|].
  apply rel_after; [apply sound_claim|]. intros s1 [run|] s2 HI E; [|done].
  apply rel_always_bind; [|by intros]. apply rel_processClaimedRun. by eapply claim_listed.
Qed.

(** *** The monitor *)

Lemma source_in id s x : source_with_id id s = Some x -> x ∈ st_sources s /\ Resolver.ps_id (so_row x) = id.
Proof. intros H. apply List.find_some in H as [H Hid]. bsplit. split; [by apply list_elem_of_In|done]. Qed.

Lemma rel_checkSource id s : rel always (checkSource fresh digest id) s.
Proof.
  unfold checkSource. apply rel_gets. intros s1 _ _. destruct (source_with_id id s1) as [x|] eqn:Hx; [|done].
  case_bool_decide as Hm; [|done]. cbn [negb]. apply source_in in Hx as [Hx Hid].
  apply rel_gets. intros s2 He2 _.
  assert (permitted s2 (FetchLatest id)) as Hp.
  { apply (permitted_evolves s1); [done|]. by exists x. }
  apply rel_always_bind.
  - apply rel_always_catch; [|done]. apply rel_always_bind; [|done]. unfold checkForUpdate. apply relies_call.
    intros s3 He3 _. split; [by eapply permitted_evolves|by intros []].
  - intros [[update|]|detail] s3; [|done|done]. destruct (detectSchemaDrift _); [|done].
    apply rel_always_bind; [apply rel_always, sound_insert_revision|]. intros revision s4.
    apply rel_always_bind; [|done]. apply rel_log, rel_request.
Qed.

Lemma rel_handler op s : rel always (handler config fresh digest parse localeCompare op) s.
Proof.
  destruct op as [r|context reasons|limit|connectors]; cbn [handler].
  - apply rel_always_bind; [apply rel_request|done].
  - unfold requestForUnresolvedResolution. destruct (classifyTrigger _); [|done]. apply rel_log, rel_request.
  - apply rel_always_bind; [apply rel_process_runs|done].
  - apply rel_always_bind; [|done]. unfold checkSources. generalize (@nil PolicySourceMonitorResult).
    revert s. induction connectors as [|c l IH]; intros s results; cbn [check_sources]; [done|].
    apply rel_always_bind; [apply rel_checkSource|]. intros m s'. apply IH.
Qed.

(** ** Policy is left alone *)

Definition frame (s s' : State) : Prop := policy s' = policy s.
Notation calm := (every (R := Reply) frame (fun _ => True)).

Definition keeps {A} (m : M State Failure A) : Prop := forall s, frame s (m s).2.
Lemma keeps_after {A B} (m : M State Failure A) (f : A -> M State Failure B) : keeps m -> (forall a, keeps (f a)) -> keeps (m ≫= f).
Proof.
  intros Hm Hf s. unfold mbind, M_bind. pose proof (Hm s) as H. destruct (m s) as [[a|e] s1]; [|done].
  pose proof (Hf a s1) as H'. unfold frame in *. cbn in *. congruence.
Qed.
Lemma keeps_transaction {A} (m : M State Failure A) : keeps m -> keeps (transaction m).
Proof. intros Hm s. unfold transaction. pose proof (Hm s). by destruct (m s) as [[a|e] s1]. Qed.

Ltac calmly :=
  repeat first
    [ apply every_ret | apply every_fail | apply every_done | done
    | apply every_call; done
    | apply every_gets | apply every_atomically
    | apply every_bind; [|intros ?] | apply every_catch; [|intros ?]
    | match goal with |- every _ _ (match ?x with _ => _ end) => destruct x end ].

Lemma keeps_next : keeps (next fresh).
Proof. done. Qed.
Lemma keeps_read {A} (m : M State Failure A) : (forall s, (m s).2 = s) -> keeps m.
Proof. intros Hm s. by rewrite Hm. Qed.
Lemma keeps_check c e : keeps (guard_throw c e).
Proof. intros s. by destruct c. Qed.

Lemma keeps_insert_run f r : keeps (transaction (insert_run fresh f r)).
Proof.
  apply keeps_transaction. unfold insert_run. apply keeps_after; [apply keeps_next|]. intros id.
  apply keeps_after; [done|]. intros now. apply keeps_after; [done|]. intros ok.
  apply keeps_after; [apply keeps_check|]. intros _. by apply keeps_after.
Qed.
Lemma keeps_claim : keeps (claimNextRun config).
Proof.
  unfold claimNextRun. apply keeps_after; [done|]. intros now. apply keeps_after; [done|]. intros [r|]; [|done].
  apply keeps_after; [apply keeps_check|]. intros _. by apply keeps_after.
Qed.
Lemma keeps_update id f : keeps (update_processing id f).
Proof.
  intros s. unfold update_processing, modify. cbn. destruct (st_runs s !! id); [|done]. by case_bool_decide.
Qed.
Lemma keeps_insert_citations runId index l : keeps (transaction (insert_citations fresh digest runId index l)).
Proof.
  apply keeps_transaction. revert index. induction l as [|e l IH]; intros index; cbn [insert_citations]; [done|].
  apply keeps_after; [|intros _; apply IH]. unfold insert_citation. apply keeps_after; [apply keeps_next|]. intros id.
  cbn zeta. apply keeps_after; [done|]. intros ok. apply keeps_after; [apply keeps_check|]. done.
Qed.
Lemma keeps_insert_revision sourceId b : keeps (transaction (insert_revision fresh sourceId b)).
Proof.
  apply keeps_transaction. unfold insert_revision. apply keeps_after; [apply keeps_next|]. intros id.
  apply keeps_after; [done|]. intros now. cbn zeta. apply keeps_after; [done|]. intros ok.
  apply keeps_after; [apply keeps_check|]. intros _. by apply keeps_after.
Qed.

Lemma calm_process limit n : calm (process_runs config fresh digest parse localeCompare limit n).
Proof.
  revert n. induction limit as [|limit IH]; intros n; cbn [process_runs]; [done|].
  apply every_bind; [apply every_atomically, keeps_claim|]. intros [run|]; [|done].
  apply every_bind; [|intros _; apply IH].
  unfold processClaimedRun, retrieve, revisionsFor, synthesize, synthesizeWithOllama.
  calmly; first [apply keeps_update|apply keeps_insert_citations].
Qed.

Lemma calm_checkSource id : calm (checkSource fresh digest id).
Proof.
  unfold checkSource, checkForUpdate, requestForNewRevision. calmly; first [apply keeps_insert_revision|apply keeps_insert_run].
Qed.

Lemma calm_handler op : calm (handler config fresh digest parse localeCompare op).
Proof.
  destruct op as [r|context reasons|limit|connectors]; cbn [handler]; unfold requestForUnresolvedResolution.
  - calmly. apply keeps_insert_run.
  - calmly. apply keeps_insert_run.
  - apply every_bind; [apply calm_process|done].
  - apply every_bind; [|done]. unfold checkSources. generalize (@nil PolicySourceMonitorResult).
    induction connectors as [|c l IH]; intros results; cbn [check_sources]; [done|].
    apply every_bind; [apply calm_checkSource|]. intros m. apply IH.
Qed.

(** ** The property *)

(** What happens otherwise: time, activations and withdrawals of policy, new
    sources and revisions, but nothing to the queue. *)
Definition others (s s' : State) : Prop :=
  st_runs s' = st_runs s /\ st_citations s' = st_citations s /\
  (exists l, st_revisions s' = st_revisions s ++ l) /\ exists l, st_sources s' = st_sources s ++ l.

Lemma others_fine s s' : others s s' -> Inv s -> Inv s' /\ evolves s s'.
Proof.
  intros (Hr & Hc & Hv & Hs) HI. assert (evolves s s') as He.
  { split; [done|done|]. rewrite Hr. intros k r Hk. exists r. split; [done|reflexivity]. }
  split; [|done]. destruct HI as [H1 H2 H3 H4]. split; rewrite ?Hr, ?Hc; [|done..].
  intros k c Hk. destruct (H1 _ _ Hk) as (? & Hg & ? & ? & ?). split; [done|]. split; [by eapply grounded_evolves|done].
Qed.

(** C12: Research and monitoring change no jurisdiction, applicability, version or
    source.  In every interleaving of requests, workers with expired leases,
    monitors, crashes and whatever else moves policy: every citation is a
    passage, word for word, of a recorded revision with that revision's
    checksum, at most six to a run and one for each rank; there is one run for
    each fingerprint; a run keeps its question, and once it is finished it
    stays as it is; the model is asked only a queued question with recorded
    passages, and only sources under a connector are polled. *)
Theorem research_is_grounded s0 w :
  (forall op, every (R := Reply) frame (fun _ => True) (handler config fresh digest parse localeCompare op)) /\
  (Inv s0 -> reachable (handler config fresh digest parse localeCompare) others s0 w ->
   Inv (db w) /\ evolves s0 (db w) /\ Forall (permitted (db w)) (calls w)).
Proof.
  split; [apply calm_handler|]. intros H0 Hr.
  eapply (relies_reached Inv evolves permitted) in Hr; [exact Hr|..].
  - apply permitted_evolves.
  - apply rel_handler.
  - apply others_fine.
  - done.
Qed.
End Theorems.
End ResearchTheorems.
