(* ===== verification/ResearchQueue.v ===== *)
(** * The research queue

    Which run a worker takes, that a batch finishes what it takes, which
    reasons of the resolver ask for research, and what two workers on one run,
    one of them late, do to each other. *)

From Stdlib Require Import Ascii SpecFloat.
From stdpp Require Import gmap strings list pretty.
From S2P Require Import Prelude Encoding PolicyDsl PolicyResolver Concurrency Communications CaseQuery PolicyResearch ResearchTheorems.

Module ResearchQueue.
Import Threads Research ResearchTheorems.

(** ** The order of the queue *)

Lemma ascii_compare_spec a b :
  Ascii.compare a b = Z.compare (Z.of_N (N_of_ascii a)) (Z.of_N (N_of_ascii b)).
Proof. unfold Ascii.compare. by rewrite N2Z.inj_compare. Qed.

Lemma leb_cons a b s t :
  String.leb (String a s) (String b t) =
  let x := Z.of_N (N_of_ascii a) in let y := Z.of_N (N_of_ascii b) in (x <? y) || ((x =? y) && String.leb s t).
Proof.
  unfold String.leb. cbn. rewrite ascii_compare_spec. cbn zeta.
  destruct (Z.compare_spec (Z.of_N (N_of_ascii a)) (Z.of_N (N_of_ascii b))) as [E|E|E].
  - rewrite E, Z.ltb_irrefl, Z.eqb_refl. done.
  - assert (Z.of_N (N_of_ascii a) <? Z.of_N (N_of_ascii b) = true) as -> by lia. done.
  - assert (Z.of_N (N_of_ascii a) <? Z.of_N (N_of_ascii b) = false) as -> by lia.
    assert (Z.of_N (N_of_ascii a) =? Z.of_N (N_of_ascii b) = false) as -> by lia. done.
Qed.

Lemma leb_trans s t u : String.leb s t = true -> String.leb t u = true -> String.leb s u = true.
Proof.
  revert t u. induction s as [|a s IH]; intros [|b t] [|c u]; try done. rewrite !leb_cons. cbn zeta.
  intros H1 H2. apply orb_true_iff in H1. apply orb_true_iff in H2. apply orb_true_iff.
  rewrite !andb_true_iff, !Z.ltb_lt, !Z.eqb_eq in *.
  destruct H1 as [H1|[H1 H1']], H2 as [H2|[H2 H2']]; [left; lia..|right; split; [lia|by eapply IH]].
Qed.

Lemma precedes_total l r : precedes l r = true \/ precedes r l = true.
Proof.
  unfold precedes. destruct (Z.lt_trichotomy (rr_requestedAt l) (rr_requestedAt r)) as [H|[H|H]].
  - left. by apply orb_true_iff; left; apply Z.ltb_lt.
  - rewrite H, Z.ltb_irrefl, Z.eqb_refl. cbn. apply String.leb_total.
  - right. by apply orb_true_iff; left; apply Z.ltb_lt.
Qed.

Lemma precedes_trans a b c : precedes a b = true -> precedes b c = true -> precedes a c = true.
Proof.
  unfold precedes. intros H1 H2. apply orb_true_iff in H1. apply orb_true_iff in H2. apply orb_true_iff.
  rewrite !andb_true_iff, !Z.ltb_lt, !Z.eqb_eq in *.
  destruct H1 as [H1|[H1 H1']], H2 as [H2|[H2 H2']]; [left; lia..|right; split; [lia|by eapply leb_trans]].
Qed.

Lemma first_run_first l r : first_run l = Some r -> forall r', r' ∈ l -> precedes r r' = true.
Proof.
  revert r. induction l as [|x l IH]; intros r; cbn; [done|].
  assert (precedes x x = true) as Hx by (by destruct (precedes_total x x)).
  destruct (first_run l) as [f|] eqn:E.
  - specialize (IH f eq_refl). destruct (precedes x f) eqn:Ex; intros [= <-] r' [->|Hr']%elem_of_cons.
    + done.
    + eapply precedes_trans; [exact Ex|by apply IH].
    + destruct (precedes_total x f); congruence.
    + by apply IH.
  - intros [= <-] r' [->|Hr']%elem_of_cons; [done|]. destruct l; [by apply elem_of_nil in Hr'|].
    cbn in E. destruct (first_run l); [by destruct (precedes p p0)|done].
Qed.

Lemma first_run_None l : first_run l = None -> l = [].
Proof. destruct l as [|x l]; [done|]. cbn. destruct (first_run l); [by destruct (precedes x p)|done]. Qed.

Section Queue.
Context (config : Config) (fresh : nat -> string) (digest : Dsl.value -> string).
Context (parse : string -> option Dsl.value) (localeCompare : string -> string -> comparison).
Context (answer : Request -> Reply).

(** Rows are under their keys. *)
Definition keyed (s : State) : Prop := forall k r, st_runs s !! k = Some r -> rr_id r = k.

(** A worker takes, of the runs that are queued or whose lease has expired,
    the one requested first, and nothing when there is none. *)
Theorem claim_takes_the_first s : keyed s ->
  match claimNextRun config s with
  | (Ok None, s') => s' = s /\ forall k r, st_runs s !! k = Some r -> claimable config (st_dbnow s) r = false
  | (Ok (Some run), s') => exists r, st_runs s !! rr_id r = Some r /\ claimable config (st_dbnow s) r = true /\
      (forall k r', st_runs s !! k = Some r' -> claimable config (st_dbnow s) r' = true -> precedes r r' = true) /\
      run = set_claimed (st_dbnow s) r /\ s' = put_runs (<[rr_id r := run]> (st_runs s)) s
  | (Err _, s') => s' = s /\ exists k r, st_runs s !! k = Some r /\ claimable config (st_dbnow s) r = true /\ 2 ^ 31 - 1 <= rr_attempts r
  end.
Proof.
  intros HI. unfold claimNextRun. unfold mbind, M_bind, gets. cbn [fst snd].
  destruct (first_run _) as [r|] eqn:E; cbn [mret M_ret].
  - pose proof (first_run_in _ _ E) as Hin. apply elem_find_rows in Hin as [Hc [k Hk]].
    pose proof (HI _ _ Hk). subst k. unfold guard_throw. destruct (2 ^ 31 - 1 <=? rr_attempts r) eqn:Ha; cbn.
    + split; [done|]. exists (rr_id r), r. split; [done|]. split; [done|]. by apply Z.leb_le.
    + exists r. split_and!; [done..| |done|done]. intros k r' Hr' Hc'. apply (first_run_first _ _ E).
      apply elem_find_rows. split; [done|by exists k].
  - split; [done|]. intros k r Hr. destruct (claimable config (st_dbnow s) r) eqn:Hc; [|done]. exfalso.
    apply first_run_None in E. assert (r ∈ find_rows (claimable config (st_dbnow s)) (st_runs s)) as Hin.
    { apply elem_find_rows. split; [done|by exists k]. }
    rewrite E in Hin. by apply elem_of_nil in Hin.
Qed.

(** ** What a run without interference comes to *)

Definition ends {A} (Q : result Failure A -> State -> Prop) (p : prog A) (s : State) : Prop :=
  Q (exec answer p s).1.1 (exec answer p s).1.2.

Lemma ends_bind {A B} Q (p : prog A) (f : A -> prog B) s :
  ends (fun r s' => match r with Ok a => ends Q (f a) s' | Err e => Q (Err e) s' end) p s -> ends Q (p ≫= f) s.
Proof.
  unfold ends, mbind, Prog_bind. rewrite exec_bind. destruct (exec answer p s) as [[[a|e] s1] qs]; cbn; [|done].
  by destruct (exec answer (f a) s1) as [[]].
Qed.

Lemma ends_catch {A} Q (p : prog A) (h : Failure -> prog A) s :
  ends (fun r s' => match r with Ok a => Q (Ok a) s' | Err e => ends Q (h e) s' end) p s -> ends Q (pcatch p h) s.
Proof.
  unfold ends. rewrite exec_catch. destruct (exec answer p s) as [[[a|e] s1] qs]; cbn; [done|].
  by destruct (exec answer (h e) s1) as [[]].
Qed.

Lemma ends_atomically {A} Q (m : M State Failure A) s : Q (m s).1 (m s).2 -> ends Q (atomically m) s.
Proof. unfold ends. by rewrite exec_atomically. Qed.

Lemma ends_mono {A} (Q Q' : result Failure A -> State -> Prop) p s : (forall r s', Q r s' -> Q' r s') -> ends Q p s -> ends Q' p s.
Proof. unfold ends. auto. Qed.

(** Statements that leave the queue alone leave it alone together. *)
Definition idle (s s' : State) : Prop := st_runs s' = st_runs s /\ st_dbnow s' = st_dbnow s.

Lemma ends_idle {A} Q (p : prog A) s : every idle (fun _ => True) p ->
  (forall r s', idle s s' -> Q r s') -> ends Q p s.
Proof.
  intros Hp HQ. unfold ends. apply HQ. clear Q HQ. revert s. induction p as [r|B m k IH|q k IH]; cbn in *; intros s; [done| |].
  - destruct (Hp s) as [[H1 H2] H3]. destruct (m s) as [r s1]. cbn in *. destruct (IH r H3 s1) as [H4 H5].
    split; congruence.
  - destruct Hp as [_ Hp]. specialize (IH (answer q) (Hp _) s). by destruct (exec answer (k (answer q)) s) as [[]].
Qed.

Ltac idly :=
  repeat first
    [ apply every_ret | apply every_fail | apply every_done | done
    | apply every_call; done | apply every_gets | apply every_atomically
    | apply every_bind; [|intros ?]
    | match goal with |- every _ _ (match ?x with _ => _ end) => destruct x end ].

Lemma idle_insert_citations runId index l s : idle s (transaction (insert_citations fresh digest runId index l) s).2.
Proof.
  unfold transaction. assert (idle s (insert_citations fresh digest runId index l s).2) as H.
  { revert index s. induction l as [|e l IH]; intros index s; cbn [insert_citations]; [done|].
    unfold mbind, M_bind. assert (idle s (insert_citation fresh digest runId index e s).2) as H1.
    { unfold insert_citation, next, mbind, M_bind, gets, guard_throw, modify, throw, mret, M_ret. cbn. by destruct (negb _). }
    destruct (insert_citation _ _ _ _ _ s) as [[[]|e0] s1]; [|done]. cbn in H1. destruct H1 as [H1 H2].
    destruct (IH (S index) s1) as [H3 H4]. split; congruence. }
  by destruct (insert_citations _ _ _ _ _ s) as [[a|e] s1].
Qed.

(** The run is finished, and nothing else changes in the queue. *)
Definition finished (run : PolicyResearchRun) (s s' : State) : Prop :=
  st_dbnow s' = st_dbnow s /\ exists r r', st_runs s !! rr_id run = Some r /\ final r' /\
    rr_id r' = rr_id r /\ rr_attempts r' = rr_attempts r /\ st_runs s' = <[rr_id run := r']> (st_runs s).

Lemma update_finishes run r s s1 f : st_runs s !! rr_id run = Some r -> rr_status r = PROCESSING -> idle s s1 ->
  (forall now, final (f now r) /\ rr_id (f now r) = rr_id r /\ rr_attempts (f now r) = rr_attempts r) ->
  (update_processing (rr_id run) f s1).1 = Ok tt /\ finished run s (update_processing (rr_id run) f s1).2.
Proof.
  intros Hr Hp [H1 H2] Hf. unfold update_processing, modify. rewrite H1, Hr, bool_decide_true by done. split; [done|].
  split; [done|]. cbn. exists r, (f (st_date s1) r). destruct (Hf (st_date s1)) as (? & ? & ?). by split_and!.
Qed.

Lemma process_finishes run r s : st_runs s !! rr_id run = Some r -> rr_status r = PROCESSING ->
  ends (fun res s' => res = Ok tt /\ finished run s s') (processClaimedRun config fresh digest parse localeCompare run) s.
Proof.
  intros Hr Hp. unfold processClaimedRun.
  assert (forall e s1, idle s s1 -> ends (fun res s' => res = Ok tt /\ finished run s s')
    (atomically (update_processing (rr_id run) (set_failed (slice 2000 (errorDetail e))))) s1) as Hfail.
  { intros e s1 Hi. apply ends_atomically, (update_finishes _ r); [done..|]. intros now. split; [by right|done]. }
  apply ends_catch, ends_bind, ends_idle; [by idly|]. intros [[]|e] s1 H1; [|by apply Hfail].
  apply ends_bind, ends_idle; [unfold retrieve, revisionsFor; by idly|]. intros [l|e] s2 [H2 H2']; [|apply Hfail; destruct H1; split; congruence].
  assert (idle s s2) as H3 by (destruct H1; split; congruence).
  apply ends_bind, ends_idle; [destruct l; [by idly|]; apply every_atomically; intros ?; apply idle_insert_citations|].
  intros [[]|e] s3 [H4 H4']; [|apply Hfail; destruct H3; split; congruence].
  assert (idle s s3) as H5 by (destruct H3; split; congruence).
  apply ends_bind, ends_idle; [unfold synthesize, synthesizeWithOllama; by idly|].
  intros [b|e] s4 [H6 H6']; [|apply Hfail; destruct H5; split; congruence].
  assert (idle s s4) as H7 by (destruct H5; split; congruence).
  apply ends_atomically. destruct (update_finishes run r s s4 (set_completed b) Hr Hp H7) as [He Hf].
  { intros now. split; [by left|done]. }
  destruct (update_processing _ _ s4) as [res s5]. cbn in *. by subst res.
Qed.

(** ** A batch *)

Definition pending (s : State) : gmap string PolicyResearchRun :=
  filter (fun kr => claimable config (st_dbnow s) kr.2 = true) (st_runs s).

(** A run of the batch: it was waiting and is finished, after one more
    attempt. *)
Definition worked (now : Z) (r r' : PolicyResearchRun) : Prop :=
  r' = r \/ claimable config now r = true /\ final r' /\ rr_attempts r' = rr_attempts r + 1.

Lemma final_not_claimable now r : final r -> claimable config now r = false.
Proof. unfold claimable. by intros [-> | ->]. Qed.

Lemma one_run s r : keyed s ->
  st_runs s !! rr_id r = Some r -> claimable config (st_dbnow s) r = true ->
  let run := set_claimed (st_dbnow s) r in
  ends (fun res s' => res = Ok tt /\ st_dbnow s' = st_dbnow s /\ keyed s' /\ exists r', final r' /\
      rr_attempts r' = rr_attempts r + 1 /\ st_runs s' = <[rr_id r := r']> (st_runs s))
    (processClaimedRun config fresh digest parse localeCompare run)
    (put_runs (<[rr_id r := run]> (st_runs s)) s).
Proof.
  intros Hk Hr Hc run. eapply ends_mono; [|apply (process_finishes run run); [cbn; apply lookup_insert_eq|done]].
  intros res s' (-> & Hn & q & r' & Hq & Hf & Hid & Ha & Hs). cbn in Hq, Hs.
  rewrite lookup_insert_eq in Hq. injection Hq as <-. rewrite insert_insert_eq in Hs.
  split; [done|]. split; [exact Hn|]. split; [|by exists r'].
  intros k x. rewrite Hs. intros [[<- <-]|[? Hx]]%lookup_insert_Some; [exact Hid|by apply Hk].
Qed.

Lemma pending_finished s s' k r r' : st_runs s !! k = Some r -> claimable config (st_dbnow s) r = true -> final r' ->
  st_dbnow s' = st_dbnow s -> st_runs s' = <[k := r']> (st_runs s) -> pending s' = delete k (pending s).
Proof.
  intros Hr Hc Hf Hn Hs. unfold pending. rewrite Hn, Hs. apply map_eq. intros j.
  destruct (decide (j = k)) as [->|Hj].
  - rewrite lookup_delete_eq. apply map_lookup_filter_None. right. intros x. rewrite lookup_insert_eq. intros [= <-]. cbn.
    by rewrite final_not_claimable.
  - rewrite lookup_delete_ne by done. apply option_eq. intros x. rewrite !map_lookup_filter_Some. by rewrite lookup_insert_ne.
Qed.

(** C25: Undisturbed, a batch of [limit] returns, whatever the model answers, and
    whether it answers: it works on as many runs as are waiting, up to the
    limit, and each of them is completed or failed afterwards; the others are
    as they were. *)
Theorem batch_finishes_runs limit s :
  keyed s -> (forall k r, st_runs s !! k = Some r -> rr_attempts r < 2 ^ 31 - 1) ->
  exists s' qs, exec answer (processPendingRuns config fresh digest parse localeCompare limit) s =
      (Ok (limit `min` size (pending s))%nat, s', qs) /\
    size (pending s') = (size (pending s) - limit)%nat /\
    (forall k r, st_runs s !! k = Some r -> exists r', st_runs s' !! k = Some r' /\ worked (st_dbnow s) r r').
Proof.
  intros Hk Ha. unfold processPendingRuns.
  assert (forall done limit s, keyed s -> (forall k r, st_runs s !! k = Some r -> claimable config (st_dbnow s) r = true -> rr_attempts r < 2 ^ 31 - 1) ->
    ends (fun res s' => res = Ok (done + limit `min` size (pending s))%nat /\ size (pending s') = (size (pending s) - limit)%nat /\
      forall k r, st_runs s !! k = Some r -> exists r', st_runs s' !! k = Some r' /\ worked (st_dbnow s) r r')
    (process_runs config fresh digest parse localeCompare limit done) s) as H.
  2: { pose proof (H 0%nat limit s Hk (fun k r Hr _ => Ha k r Hr)) as He. unfold ends in He.
       destruct (exec answer _ s) as [[res s'] qs]. cbn in He. destruct He as (-> & ? & ?). by exists s', qs. }
  clear s Hk Ha limit. intros n limit. revert n. induction limit as [|limit IH]; intros n s Hk Ha; cbn [process_runs].
  - unfold ends. cbn. split; [by rewrite Nat.add_0_r|]. split; [lia|]. intros k r Hr. exists r. split; [done|by left].
  - apply ends_bind, ends_atomically. pose proof (claim_takes_the_first s Hk) as Hc.
    destruct (claimNextRun config s) as [[[run|]|e] s1]; cbn [fst snd].
    + destruct Hc as (r & Hr & Hcl & _ & -> & ->). apply ends_bind. eapply ends_mono; [|by apply one_run].
      intros res s2 (-> & Hn & Hk2 & r' & Hf & Hat & Hs). pose proof (pending_finished _ _ _ _ _ Hr Hcl Hf Hn Hs) as Hp.
      assert (pending s !! rr_id r = Some r) as Hpr by (apply map_lookup_filter_Some; by split).
      assert (size (pending s2) = pred (size (pending s)) /\ (0 < size (pending s))%nat) as [Hsz Hpos].
      { rewrite Hp, map_size_delete_Some by (by eexists). split; [done|]. apply Nat.neq_0_lt_0. intros E.
        apply map_size_empty_inv in E. by rewrite E in Hpr. }
      eapply ends_mono; [|apply (IH (S n) s2 Hk2)].
      * intros res s3 (-> & H1 & H2). split; [f_equal; lia|]. split; [lia|]. intros k q Hq.
        destruct (decide (k = rr_id r)) as [->|Hne].
        -- destruct (H2 (rr_id r) r') as (q' & Hq' & [->|[Hcl' _]]); [by rewrite Hs, lookup_insert_eq| |].
           ++ exists r'. split; [done|]. right. assert (q = r) as -> by congruence. by split_and!.
           ++ by rewrite final_not_claimable in Hcl'.
        -- destruct (H2 k q) as (q' & Hq' & Hw); [by rewrite Hs, lookup_insert_ne|]. exists q'. rewrite Hn in Hw. by split.
      * intros k q. rewrite Hs, Hn. intros [[<- <-]|[? Hq]]%lookup_insert_Some Hcq; [by rewrite final_not_claimable in Hcq|by eapply Ha].
    + destruct Hc as [-> Hno]. assert (pending s = ∅) as Hp.
      { apply map_eq. intros k. rewrite lookup_empty. apply map_lookup_filter_None. right. intros r Hr. cbn. by rewrite (Hno k r Hr). }
      unfold ends. cbn. rewrite Hp, map_size_empty. split; [f_equal; lia|]. split; [lia|].
      intros k r Hr. exists r. split; [done|by left].
    + destruct Hc as (_ & k & r & Hr & Hcl & Hbig). specialize (Ha k r Hr Hcl). lia.
Qed.
End Queue.

(** ** Which reasons ask for research *)

Lemma prefix_app a b : String.prefix a (a +:+ b) = true.
Proof.
  induction a as [|c a IH]; [by destruct b|]. change (String.prefix (String c a) (String c (a +:+ b)) = true).
  cbn. destruct (Ascii.ascii_dec c c); [exact IH|done].
Qed.

Lemma contains_app k a b : Comms.contains k (a +:+ k +:+ b) = true.
Proof.
  induction a as [|c a IH].
  - change (Comms.contains k (k +:+ b) = true). pose proof (prefix_app k b) as H. destruct (k +:+ b); cbn -[String.prefix]; by rewrite H.
  - change (String.prefix k (String c (a +:+ k +:+ b)) || Comms.contains k (a +:+ k +:+ b) = true). rewrite IH. apply orb_true_r.
Qed.

Lemma lower_app a b : Comms.toLowerCase (a +:+ b) = Comms.toLowerCase a +:+ Comms.toLowerCase b.
Proof. induction a as [|c a IH]; [done|]. change (String (Comms.lower c) (Comms.toLowerCase (a +:+ b)) = String (Comms.lower c) (Comms.toLowerCase a +:+ Comms.toLowerCase b)). by rewrite IH. Qed.

Lemma concat_in sep l x : x ∈ l -> exists a b, String.concat sep l = a +:+ x +:+ b.
Proof.
  induction l as [|y l IH]; [by intros ?%elem_of_nil|]. intros [->|Hx]%elem_of_cons.
  - destruct l as [|z l]; [exists "", ""|exists "", (sep +:+ String.concat sep (z :: l))]; [|done].
    apply Encoding.chars_inj. by rewrite !Encoding.chars_app, app_nil_r.
  - destruct (IH Hx) as (a & b & Hc). exists (y +:+ sep +:+ a), b. destruct l as [|z l]; [by apply elem_of_nil in Hx|].
    change (String.concat sep (y :: z :: l)) with (y +:+ sep +:+ String.concat sep (z :: l)). rewrite Hc.
    apply Encoding.chars_inj. by rewrite !Encoding.chars_app, <- !app_assoc.
Qed.

Lemma marked k l x a b : x ∈ l -> Comms.toLowerCase x = a +:+ k +:+ b ->
  Comms.contains k (Comms.toLowerCase (String.concat " " l)) = true.
Proof.
  intros Hx Hk. destruct (concat_in " " l x Hx) as (c & d & ->). rewrite !lower_app, Hk.
  assert (Comms.toLowerCase c +:+ (a +:+ k +:+ b) +:+ Comms.toLowerCase d =
    (Comms.toLowerCase c +:+ a) +:+ k +:+ (b +:+ Comms.toLowerCase d)) as ->.
  { apply Encoding.chars_inj. by rewrite !Encoding.chars_app, <- !app_assoc. }
  apply contains_app.
Qed.

(** What each reason of the resolver asks for, and how urgent it is. *)
Definition asks_for (u : Resolver.Unresolved) : option PolicyResearchTrigger :=
  match u with
  | Resolver.Overlapping _ _ _ => Some APPLICABILITY_CONFLICT
  | Resolver.StaleSource _ _ => Some SOURCE_FRESHNESS_EXPIRED
  | Resolver.NotCovered _ | Resolver.NoSource _ | Resolver.NoRevision _ => Some COVERAGE_GAP
  | _ => None
  end.
Definition urgency (t : PolicyResearchTrigger) : Z :=
  match t with APPLICABILITY_CONFLICT => 3 | SOURCE_FRESHNESS_EXPIRED => 2 | COVERAGE_GAP => 1 | NEW_SOURCE_REVISION => 0 end.

Definition marker (u : Resolver.Unresolved) : string :=
  match u with
  | Resolver.Overlapping _ _ _ => "overlapping released versions"
  | Resolver.StaleSource _ _ => "exceeded its freshness objective"
  | Resolver.NotCovered _ => "does not have reviewed covered status"
  | Resolver.NoSource _ => "has no registered policy source"
  | Resolver.NoRevision _ => "has no recorded revision"
  | _ => ""
  end.

Lemma reason_marked u : asks_for u <> None -> exists a b, Comms.toLowerCase (reason_text u) = a +:+ marker u +:+ b.
Proof.
  destruct u as [c|c|c|c|n|n|n d|a|a r|r n t]; try done; intros _; unfold reason_text, quoted; rewrite !lower_app.
  - exists ("jurisdiction " +:+ (quote +:+ Comms.toLowerCase c +:+ quote) +:+ " "), "".
    apply Encoding.chars_inj. by rewrite !Encoding.chars_app, <- !app_assoc.
  - exists ("jurisdiction " +:+ (quote +:+ Comms.toLowerCase c +:+ quote) +:+ " "), "".
    apply Encoding.chars_inj. by rewrite !Encoding.chars_app, <- !app_assoc.
  - exists ("policy source " +:+ (quote +:+ Comms.toLowerCase n +:+ quote) +:+ " "), "".
    apply Encoding.chars_inj. by rewrite !Encoding.chars_app, <- !app_assoc.
  - exists ("policy source " +:+ (quote +:+ Comms.toLowerCase n +:+ quote) +:+ " "), (" at " +:+ Comms.toLowerCase (Query.toISOString d)).
    apply Encoding.chars_inj. by rewrite !Encoding.chars_app, <- !app_assoc.
  - exists ("rule " +:+ (quote +:+ Comms.toLowerCase r +:+ quote) +:+ " has " +:+ Comms.toLowerCase (number_text n) +:+ " "),
      (" effective as of " +:+ Comms.toLowerCase (Query.toISOString t)).
    apply Encoding.chars_inj. by rewrite !Encoding.chars_app, <- !app_assoc.
Qed.

(** Every reason of the resolver that is about coverage, freshness or a
    conflict asks for research, of its own kind or of a more urgent one. *)
Theorem unresolved_asks_for_research l u t : u ∈ l -> asks_for u = Some t ->
  exists t', classifyTrigger (map reason_text l) = Some t' /\ urgency t <= urgency t'.
Proof.
  intros Hu Ht. destruct (reason_marked u) as (a & b & Hm); [by rewrite Ht|].
  assert (Comms.contains (marker u) (Comms.toLowerCase (String.concat " " (map reason_text l))) = true) as Hc.
  { eapply marked; [|exact Hm]. by apply list_elem_of_fmap_2. }
  unfold classifyTrigger. destruct (Comms.contains "overlapping released versions" _) eqn:H1; [by exists APPLICABILITY_CONFLICT; destruct t|].
  destruct (Comms.contains "exceeded its freshness objective" _) eqn:H2.
  { exists SOURCE_FRESHNESS_EXPIRED. split; [done|]. destruct u; cbn in Ht, Hc; simplify_eq; try done. congruence. }
  exists COVERAGE_GAP. destruct u; cbn in Ht, Hc; simplify_eq; try congruence; rewrite Hc, ?orb_true_r; done.
Qed.
End ResearchQueue.
