(* ===== verification/ResearchFindings.v ===== *)
(** * Two workers on one run

    Concrete runs of the queue: the theorems of ResearchTheorems.v and
    ResearchQueue.v at a small catalog, and what a worker does that comes back
    after its lease has expired.  And a source whose bulletin does not change. *)

From Stdlib Require Import Ascii SpecFloat.
From stdpp Require Import gmap strings list pretty.
From S2P Require Import Prelude PolicyDsl PolicyResolver Concurrency Communications CaseQuery AuthExamples PolicyResearch ResearchTheorems ResearchQueue.

Module ResearchFindings.
Import Threads Research ResearchTheorems ResearchQueue.

Definition extractive0 : Config := {| cf_leaseMs := 600000; cf_provider := EXTRACTIVE; cf_maxCitations := 6 |}.
Definition ollama0 : Config := {| cf_leaseMs := 600000; cf_provider := OLLAMA; cf_maxCitations := 6 |}.
Definition fresh0 (n : nat) : string := "id" +:+ pretty n.
Fixpoint digest0 (v : Dsl.value) : string :=
  match v with
  | Dsl.VString s => String.substring 0 20 s
  | Dsl.VObject props => String.concat "," (map (fun kv => digest0 kv.2) props)
  | Dsl.VArray vs => String.concat ";" (map digest0 vs)
  | _ => "-"
  end.
Definition brief0 : Dsl.value :=
  Dsl.VObject [("candidateSummary", Dsl.VString "summary"); ("changeSignals", Dsl.VArray [Dsl.VString "SIGNAL"])].
Definition parse0 (s : string) : option Dsl.value := if String.eqb s "brief" then Some brief0 else None.
Definition answer0 (q : Request) : Reply :=
  match q with
  | Chat _ _ _ => Payload (Dsl.VObject [("message", Dsl.VObject [("content", Dsl.VString "brief")])])
  | FetchLatest _ => Latest {| bu_checksum := "sum1"; bu_publishedAt := 0; bu_content := Dsl.VObject [("summary", Dsl.VString "same")] |}
  end.

Definition source0 : PolicySource :=
  {| so_row := {| Resolver.ps_id := "src"; Resolver.ps_name := "bulletin"; Resolver.ps_jurisdictionCode := "US-CA";
                  Resolver.ps_freshnessObjectiveHours := 24 |}; so_retrievalMode := CONNECTOR |}.
Definition revision0 : PolicySourceRevision :=
  {| rv_id := "rev"; rv_policySourceId := "src"; rv_checksum := "sum1"; rv_publishedAt := 0; rv_recordedAt := 0;
     rv_content := Dsl.VObject [("summary", Dsl.VString "same"); ("sections", Dsl.VArray [Dsl.VString "coverage of US-CA"])] |}.
Definition state0 : State :=
  {| st_jurisdictions := ∅; st_applicability := []; st_versions := ∅; st_sources := [source0]; st_revisions := [revision0];
     st_runs := ∅; st_citations := ∅; st_dbnow := 0; st_date := 0; st_supply := 0 |}.

Definition gap0 : PolicyResearchRequest :=
  {| rq_trigger := COVERAGE_GAP; rq_jurisdictionCode := "US-CA"; rq_productCode := None; rq_lifecycleEvent := None;
     rq_unresolvedReasons := [reason_text (Resolver.NotCovered "US-CA")]; rq_policySourceId := None;
     rq_policySourceRevisionId := None |}.

Notation handler0 config := (handler config fresh0 digest0 parse0 AuthExamples.compare0).
Notation schedule := (list (Move (S := State) (Op := Op))).

(** Eleven minutes pass. *)
Definition later (s : State) : State :=
  {| st_jurisdictions := st_jurisdictions s; st_applicability := st_applicability s; st_versions := st_versions s;
     st_sources := st_sources s; st_revisions := st_revisions s; st_runs := st_runs s; st_citations := st_citations s;
     st_dbnow := st_dbnow s + 660000; st_date := st_date s + 660000; st_supply := st_supply s |}.

Lemma later_others s : others s (later s).
Proof. split_and!; [done|done|exists []; by rewrite app_nil_r..]. Qed.

Lemma lawful_schedule (ms : schedule) :
  Forall (fun m => match m with Pass f => f = later | _ => True end) ms -> Forall (lawful others) ms.
Proof. intros H. eapply Forall_impl; [exact H|]. intros [op|i n|i|f]; try done. intros -> s. apply later_others. Qed.

Definition summary_of (w : world (S := State) (E := Failure) (Q := Request) (R := Reply)) :=
  (map (fun kr => (rr_status kr.2, rr_attempts kr.2, rr_failureDetail kr.2)) (map_to_list (st_runs (db w))),
   size (st_citations (db w)), length (calls w)).

Definition run config (ms : schedule) := moves (handler0 config) answer0 ms state0.

(** One request, one worker: a brief with two citations. *)
Example one_worker : summary_of (run ollama0 [Begin (OpRequest gap0); Go 0 9; Begin (OpProcess 3); Go 1 50]) =
  ([(COMPLETED, 1, None)], 2%nat, 1%nat).
Proof. vm_compute. reflexivity. Qed.

(** ** A worker that comes back *)

(** A worker that has claimed a run and comes back when another one has
    completed it begins by deleting the citations of the completed run; if it
    is then lost, the brief is left without any. *)
Lemma late_worker_deletes_citations : exists w,
  reachable (handler0 ollama0) others state0 w /\ summary_of w = ([(COMPLETED, 2, None)], 0%nat, 1%nat).
Proof.
  eexists. split.
  - apply (moves_reachable _ others answer0 ([Begin (OpRequest gap0); Go 0 9; Begin (OpProcess 3); Go 1 1; Pass later] ++
      [Begin (OpProcess 3); Go 2 50; Go 1 1; Lose 1])). apply lawful_schedule. by repeat constructor.
  - vm_compute. reflexivity.
Qed.

(** If it comes back while the other one works, its citations collide with the
    other's, and the run fails for both; what the other finds is dropped. *)
Lemma late_worker_fails_the_run : exists w,
  reachable (handler0 ollama0) others state0 w /\
  summary_of w = ([(FAILED, 2, Some "constraint violation")], 2%nat, 1%nat) /\
  map (fun p => match p with Done (Ok tt) => true | _ => false end) (threads w) = [true; true; true].
Proof.
  eexists. split; [|split].
  - apply (moves_reachable _ others answer0 ([Begin (OpRequest gap0); Go 0 9; Begin (OpProcess 3); Go 1 2; Pass later] ++
      [Begin (OpProcess 3); Go 2 5; Go 1 50; Go 2 50])). apply lawful_schedule. by repeat constructor.
  - vm_compute. reflexivity.
  - vm_compute. reflexivity.
Qed.

(** A request whose run has failed is answered with that run, for good. *)
Lemma failed_stays_failed s r config answer fresh digest :
  run_with_fingerprint (digest (fingerprintInput (r : PolicyResearchRequest))) s = Some config ->
  exec answer (request fresh digest r) s = (Ok config, s, []).
Proof. intros H. unfold request. cbn. by rewrite H. Qed.

(** ** A source that does not change *)

(** A check that finds the bulletin as it was writes nothing: the source grows
    stale although it is checked. *)
Lemma unchanged_bulletin_writes_nothing fresh digest answer id s x r b :
  source_with_id id s = Some x -> so_retrievalMode x = CONNECTOR -> latest_of (Resolver.ps_id (so_row x)) s = Some r ->
  answer (FetchLatest id) = Latest b -> bu_checksum b = rv_checksum r ->
  (exec answer (checkSource fresh digest id) s).1 =
  (Ok {| mr_sourceId := id; mr_outcome := NO_CHANGE; mr_detail := None |}, s).
Proof.
  intros Hx Hm Hr Hb Hc. unfold checkSource, checkForUpdate. rewrite exec_read, Hx, bool_decide_true by done.
  cbn [negb]. rewrite exec_read, Hr. cbn. rewrite Hb. cbn.
  by rewrite Hc, bool_decide_true.
Qed.

(** Two days later the resolver asks for a person. *)
Lemma checked_source_is_stale :
  let s := later state0 in
  (exec answer0 (checkSource fresh0 digest0 "src") s).1.1 = Ok {| mr_sourceId := "src"; mr_outcome := NO_CHANGE; mr_detail := None |} /\
  Resolver.validateSourceFreshness (catalog (exec answer0 (checkSource fresh0 digest0 "src") s).1.2) ["US-CA"]
    (48 * 60 * 60 * 1000) [] = (None, [Resolver.StaleSource "bulletin" (24 * 60 * 60 * 1000)]).
Proof. split; vm_compute; reflexivity. Qed.

(** ** Witnesses *)

Lemma fresh_inv : Inv digest0 state0.
Proof. split; intros *; cbn; by rewrite lookup_empty. Qed.

Definition two_workers : schedule :=
  [Begin (OpRequest gap0); Begin (OpRequest gap0); Go 0 1; Go 1 9; Go 0 9; Begin (OpProcess 3); Go 2 3; Begin (OpMonitor ["src"]); Go 3 9; Go 2 50].

Lemma research_is_grounded_witness : exists w,
  reachable (handler0 ollama0) others state0 w /\ summary_of w = ([(COMPLETED, 1, None)], 2%nat, 2%nat) /\
  Inv digest0 (db w) /\ Forall (permitted (db w)) (calls w).
Proof.
  assert (reachable (handler0 ollama0) others state0 (run ollama0 two_workers)) as Hr.
  { apply (moves_reachable _ others answer0 two_workers). apply lawful_schedule. by repeat constructor. }
  exists (run ollama0 two_workers). split; [exact Hr|]. split; [vm_compute; reflexivity|].
  destruct (research_is_grounded ollama0 fresh0 digest0 parse0 AuthExamples.compare0 state0 (run ollama0 two_workers)) as [_ H].
  destruct (H fresh_inv Hr) as (H1 & _ & H2). by split.
Defined.

Definition waiting : State := db (run extractive0 [Begin (OpRequest gap0); Go 0 9]).

Lemma batch_finishes_runs_witness : exists s' qs,
  exec answer0 (processPendingRuns extractive0 fresh0 digest0 parse0 AuthExamples.compare0 3) waiting = (Ok 1%nat, s', qs) /\
  size (pending extractive0 s') = 0%nat.
Proof.
  destruct (batch_finishes_runs extractive0 fresh0 digest0 parse0 AuthExamples.compare0 answer0 3 waiting)
    as (s' & qs & He & Hs & _).
  - intros k r Hk. apply elem_of_map_to_list in Hk. vm_compute in Hk. apply list_elem_of_singleton in Hk. by injection Hk as -> ->.
  - intros k r Hk. apply elem_of_map_to_list in Hk. vm_compute in Hk. apply list_elem_of_singleton in Hk. by injection Hk as -> ->.
  - exists s', qs. split; [rewrite He; vm_compute; reflexivity|rewrite Hs; vm_compute; reflexivity].
Defined.

Lemma unresolved_asks_for_research_witness : exists t,
  classifyTrigger (map reason_text [Resolver.NotCovered "US-CA"; Resolver.StaleSource "bulletin" 0]) = Some t /\
  urgency COVERAGE_GAP <= urgency t.
Proof. apply (unresolved_asks_for_research _ (Resolver.NotCovered "US-CA")); [apply elem_of_cons; by left|reflexivity]. Defined.
End ResearchFindings.
