(* ===== verification/Regex.v ===== *)
(** * Regular expressions

    The patterns of the configuration as data: classes of code units, and the
    usual operators.  [matches] decides membership with derivatives; [lang] is
    the meaning, and [matches_spec] relates them.  Patterns here have no
    groups to read and no look-around, so which strings they accept does not
    depend on the order in which an engine tries the alternatives. *)

From Stdlib Require Import Ascii.
From stdpp Require Import strings list.
From S2P Require Import Prelude Encoding.

Module Regex.
Import Encoding.

Inductive re :=
| Void
| Eps
| CharClass (negated : bool) (ranges : list (nat * nat))
| Seq (r s : re)
| Alt (r s : re)
| Star (r : re).

#[export] Instance re_eq_dec : EqDecision re.
Proof. solve_decision. Defined.

Definition within (negated : bool) (ranges : list (nat * nat)) (c : ascii) : bool :=
  xorb negated (existsb (fun '(lo, hi) => (lo <=? nat_of_ascii c) && (nat_of_ascii c <=? hi))%nat ranges).

(** ** What a pattern means *)

Fixpoint lang (r : re) (s : list ascii) : Prop :=
  match r with
  | Void => False
  | Eps => s = []
  | CharClass n rs => exists c, s = [c] /\ within n rs c = true
  | Seq a b => exists u v, s = u ++ v /\ lang a u /\ lang b v
  | Alt a b => lang a s \/ lang b s
  | Star a => exists l, s = concat l /\ Forall (lang a) l
  end.

(** ** Deciding it *)

Fixpoint nullable (r : re) : bool :=
  match r with
  | Void | CharClass _ _ => false
  | Eps | Star _ => true
  | Seq a b => nullable a && nullable b
  | Alt a b => nullable a || nullable b
  end.

(** Concatenation and alternative with the trivial cases removed. *)
Definition seq (r s : re) : re :=
  match r, s with
  | Void, _ | _, Void => Void
  | Eps, _ => s
  | _, _ => Seq r s
  end.
Definition alt (r s : re) : re :=
  match r, s with
  | Void, _ => s
  | _, Void => r
  | _, _ => if decide (r = s) then r else Alt r s
  end.

Fixpoint deriv (c : ascii) (r : re) : re :=
  match r with
  | Void | Eps => Void
  | CharClass n rs => if within n rs c then Eps else Void
  | Seq a b => let d := seq (deriv c a) b in if nullable a then alt d (deriv c b) else d
  | Alt a b => alt (deriv c a) (deriv c b)
  | Star a => seq (deriv c a) (Star a)
  end.

Definition matches (r : re) (s : string) : bool := nullable (foldl (fun r c => deriv c r) r (chars s)).

(** ** The notation of patterns *)

Definition one (c : ascii) : re := CharClass false [(nat_of_ascii c, nat_of_ascii c)].
Definition lit (s : string) : re := foldr (fun c => Seq (one c)) Eps (chars s).
Definition opt (r : re) : re := Alt Eps r.
Definition plus (r : re) : re := Seq r (Star r).
Definition space : re := CharClass false [(9, 13); (32, 32); (160, 160)]%nat.
Definition nonspace : re := CharClass true [(9, 13); (32, 32); (160, 160)]%nat.
Definition any : re := CharClass true [].
(** [r{n}] and [r{0,n}] *)
Fixpoint exactly (n : nat) (r : re) : re := match n with O => Eps | S n => Seq r (exactly n r) end.
Fixpoint upto (n : nat) (r : re) : re := match n with O => Eps | S n => Alt Eps (Seq r (upto n r)) end.

(** ** The decision is right *)

Lemma nullable_spec r : nullable r = true <-> lang r [].
Proof.
  induction r as [| |n rs|a IHa b IHb|a IHa b IHb|a IHa]; cbn.
  - done.
  - done.
  - split; [done|]. by intros (c & ? & _).
  - rewrite andb_true_iff, IHa, IHb. split.
    + intros [Ha Hb]. by exists [], [].
    + intros (u & v & [-> ->]%eq_sym%app_nil & Ha & Hb). done.
  - by rewrite orb_true_iff, IHa, IHb.
  - split; [|done]. intros _. by exists [].
Qed.

Lemma seq_spec r s t : lang (seq r s) t <-> lang (Seq r s) t.
Proof.
  assert (lang (Seq Void s) t <-> False) as Hv by (cbn; naive_solver).
  assert (lang (Seq r Void) t <-> False) as Hv' by (cbn; naive_solver).
  assert (lang (Seq Eps s) t <-> lang s t) as He.
  { cbn. split; [by intros (u & v & -> & -> & ?)|]. intros H. by exists [], t. }
  destruct r, s; cbn [seq]; rewrite ?Hv, ?Hv', ?He; done.
Qed.

Lemma alt_spec r s t : lang (alt r s) t <-> lang (Alt r s) t.
Proof.
  destruct r, s; cbn [alt]; try (cbn; tauto);
    (destruct (decide _) as [E|]; [rewrite <- E; cbn; tauto|done]).
Qed.

(** A word of [Star a] that is not empty begins with a word of [a] that is not. *)
Lemma star_cons a c s :
  lang (Star a) (c :: s) <-> exists u v, s = u ++ v /\ lang a (c :: u) /\ lang (Star a) v.
Proof.
  cbn [lang]. split.
  - intros (l & Hs & Hl). induction Hl as [|w l Hw Hl IH]; [done|].
    destruct w as [|d w]; cbn in Hs; [by apply IH|]. injection Hs as -> ->. exists w, (concat l). eauto 10.
  - intros (u & v & -> & Hu & l & -> & Hl). exists ((c :: u) :: l). split; [done|]. by constructor.
Qed.

Lemma deriv_spec c r s : lang (deriv c r) s <-> lang r (c :: s).
Proof.
  revert s. induction r as [| |n rs|a IHa b IHb|a IHa b IHb|a IHa]; intros s; cbn [deriv].
  - done.
  - by cbn.
  - destruct (within n rs c) eqn:E; cbn.
    + split; [intros ->; by exists c|]. by intros (d & [= -> ->] & _).
    + split; [done|]. intros (d & [= -> ->] & H). congruence.
  - assert (lang (Seq (deriv c a) b) s <-> exists u v, s = u ++ v /\ lang a (c :: u) /\ lang b v) as Hd.
    { cbn. setoid_rewrite IHa. done. }
    assert (lang (Seq a b) (c :: s) <-> lang (Seq (deriv c a) b) s \/ lang a [] /\ lang b (c :: s)) as Hs.
    { rewrite Hd. cbn. split.
      - intros ([|d u] & v & Hs & Ha & Hb); [right; by cbn in Hs; subst|]. injection Hs as -> ->. left. eauto.
      - intros [(u & v & -> & Ha & Hb)|[Ha Hb]]; [by exists (c :: u), v|by exists [], (c :: s)]. }
    rewrite Hs. destruct (nullable a) eqn:En.
    + apply nullable_spec in En. rewrite alt_spec. cbn [lang]. rewrite seq_spec, IHb. tauto.
    + rewrite seq_spec. assert (~ lang a []) by (rewrite <- nullable_spec; congruence). tauto.
  - rewrite alt_spec. cbn. by rewrite IHa, IHb.
  - rewrite seq_spec, star_cons. cbn [lang]. by setoid_rewrite IHa.
Qed.

Lemma matches_spec r s : matches r s = true <-> lang r (chars s).
Proof.
  unfold matches. generalize (chars s). clear s. intros s. revert r.
  induction s as [|c s IH]; intros r; cbn [foldl]; [apply nullable_spec|]. by rewrite IH, deriv_spec.
Qed.

(** ** What the notation means *)

Lemma one_spec c s : lang (one c) s <-> s = [c].
Proof.
  cbn. split.
  - intros (d & -> & H). rewrite orb_false_r in H. apply andb_true_iff in H as [H1%Nat.leb_le H2%Nat.leb_le].
    f_equal. rewrite <- (ascii_nat_embedding c), <- (ascii_nat_embedding d). f_equal. lia.
  - intros ->. exists c. split; [done|]. by rewrite Nat.leb_refl.
Qed.

Lemma lit_spec x s : lang (lit x) s <-> s = chars x.
Proof.
  unfold lit. generalize (chars x). clear x. intros x. revert s.
  induction x as [|c x IH]; intros s; cbn [foldr]; [done|]. cbn [lang]. split.
  - intros (u & v & -> & ->%one_spec & ->%IH). done.
  - intros ->. exists [c], x. split_and!; [done|by apply one_spec|by apply IH].
Qed.

Lemma exactly_spec n r s : lang (exactly n r) s <-> exists l, s = concat l /\ length l = n /\ Forall (lang r) l.
Proof.
  revert s. induction n as [|n IH]; intros s; cbn [exactly lang].
  - split; [intros ->; by exists []|]. intros (l & -> & ?%nil_length_inv & _). by subst.
  - split.
    + intros (u & v & -> & Hu & (l & -> & Hn & Hl)%IH). exists (u :: l). cbn. rewrite Hn. eauto.
    + intros ([|u l] & -> & Hn & Hl); [done|]. apply Forall_cons in Hl as [Hu Hl]. exists u, (concat l).
      split_and!; [done|done|]. apply IH. exists l. cbn in Hn. eauto.
Qed.

Lemma upto_spec n r s : lang (upto n r) s <-> exists l, s = concat l /\ (length l <= n)%nat /\ Forall (lang r) l.
Proof.
  revert s. induction n as [|n IH]; intros s; cbn [upto lang].
  - split; [intros ->; by exists []|]. intros (l & -> & Hn & _). destruct l; [done|cbn in Hn; lia].
  - split.
    + intros [->|(u & v & -> & Hu & (l & -> & Hn & Hl)%IH)]; [by exists []; cbn; eauto with lia|].
      exists (u :: l). cbn. split_and!; [done|lia|by constructor].
    + intros ([|u l] & -> & Hn & Hl); [by left|]. right. apply Forall_cons in Hl as [Hu Hl]. exists u, (concat l).
      split_and!; [done|done|]. apply IH. exists l. cbn in Hn. split_and!; [done|lia|done].
Qed.

(** Words of single code units. *)
Lemma class_words n rs l : Forall (lang (CharClass n rs)) l -> length (concat l) = length l /\ Forall (fun c => within n rs c = true) (concat l).
Proof.
  induction 1 as [|w l (c & -> & Hc) Hl [IH1 IH2]]; [done|]. cbn. rewrite IH1. by split; [|constructor].
Qed.
Lemma class_word n rs s : Forall (fun c => within n rs c = true) s ->
  concat (map (fun c => [c]) s) = s /\ Forall (lang (CharClass n rs)) (map (fun c => [c]) s).
Proof.
  induction 1 as [|c s Hc Hs [IH1 IH2]]; [done|]. cbn. rewrite IH1. split; [done|]. constructor; [|done]. by exists c.
Qed.
End Regex.
