(* ===== verification/EnvConfig.v ===== *)
(** * Configuration

    config/env.validation.ts and config/cors.ts: the schema of the environment
    variables, their validation at start-up with the rules that span several
    variables, and the CORS option read from them.  The libraries are
    parameters: [plainToInstance] converts values and applies defaults,
    [validateSync] reports the constraints that do not hold, [isURL] and
    [new URL] read addresses; [Laws] is what their documentation promises. *)

From Stdlib Require Import Ascii SpecFloat.
From stdpp Require Import gmap strings list.
From S2P Require Import Prelude Encoding PolicyDsl Concurrency WebhookGuard Outbox Communications Regex.

Module Env.
Import Regex Dsl.
Open Scope string_scope.

(** ** Decorators *)

(** The type that the compiler emits for the class transformer. *)
Inductive DesignType := TString | TNumber | TBoolean.

Inductive Constraint :=
| IsEnum (values : list string)
| Matches (pattern : re)
| IsInt
| IsNumber
| IsString
| IsBoolean
| IsNotEmpty
| Min (n : Z)
| Max (n : Z)
| MinLength (n : nat)
| IsUrl.

(** [Number.isInteger] *)
Definition isInteger (x : spec_float) : bool :=
  match x with
  | S754_zero _ => true
  | S754_finite _ m e => (0 <=? e)%Z || (Z.pos m mod 2 ^ (- e) =? 0)%Z
  | S754_infinity _ | S754_nan => false
  end.

Section Constraints.
Context (isURL : string -> bool).

(** What a decorator demands of a value, after the library's documentation. *)
Definition holds (c : Constraint) (v : value) : bool :=
  match c, v with
  | IsEnum l, VString s => includes l s
  | Matches r, VString s => matches r s
  | IsInt, VNumber x => isInteger x
  | IsNumber, VNumber x => isFinite x
  | IsString, VString _ => true
  | IsBoolean, VBool _ => true
  | IsNotEmpty, VString s => JS.truthy s
  | IsNotEmpty, (VBool _ | VNumber _ | VArray _ | VObject _) => true
  | Min n, VNumber x => SFleb (f64_of_Z n) x
  | Max n, VNumber x => SFleb x (f64_of_Z n)
  | MinLength n, VString s => (n <=? String.length s)%nat
  | IsUrl, VString s => isURL s
  | _, _ => false
  end.

(** [@Transform] receives the raw value, as [obj[key]], and the converted one. *)
Record Field := {
  fd_name : string;
  fd_type : DesignType;
  fd_optional : bool;
  fd_transform : value -> value -> value;
  fd_constraints : list Constraint;
  fd_default : value }.

Definition absent (v : value) : bool := match v with VUndefined | VNull => true | _ => false end.

Definition violations (f : Field) (v : value) : list Constraint :=
  if fd_optional f && absent v then [] else List.filter (fun c => negb (holds c v)) (fd_constraints f).
End Constraints.

(** ** Patterns *)

Definition POSTGRES_URL : re :=
  Seq (lit "postgres") (Seq (opt (lit "ql")) (Seq (lit "://") (Seq (plus nonspace) (Star any)))).
Definition HTTP_URL : re := Seq (lit "http") (Seq (opt (lit "s")) (Seq (lit "://") (plus nonspace))).
Definition ORIGIN_LIST : re :=
  Seq HTTP_URL (Star (Seq (Star space) (Seq (lit ",") (Seq (Star space) HTTP_URL)))).
Definition key_id_class : re := CharClass false [(65, 90); (97, 122); (48, 57); (46, 46); (95, 95); (45, 45)]%nat.
Definition hex_class : re := CharClass false [(48, 57); (97, 102); (65, 70)]%nat.
Definition HEX_KEY : re := exactly 64 hex_class.
Definition KEY_ENTRY : re := Seq (Seq key_id_class (upto 63 key_id_class)) (Seq (lit ":") HEX_KEY).
Definition KEY_RING : re := Seq KEY_ENTRY (Star (Seq (lit ",") KEY_ENTRY)).

(** ** Transformations *)

Definition untouched (raw v : value) : value := v.

Definition trim_lower (raw v : value) : value :=
  match v with VString s => VString (Comms.toLowerCase (JS.trim s)) | _ => v end.

(** [value.replace(/\/+$/, '')] *)
Fixpoint strip_slashes (s : string) : string :=
  match s with
  | EmptyString => EmptyString
  | String c s' =>
      let r := strip_slashes s' in
      if Ascii.eqb c "/" && String.eqb r "" then "" else String c r
  end.
Definition no_trailing_slashes (raw v : value) : value :=
  match v with VString s => VString (strip_slashes s) | _ => v end.

Definition boolean_text (v : value) : value :=
  match v with
  | VString s =>
      if String.eqb (Comms.toLowerCase s) "true" then VBool true
      else if String.eqb (Comms.toLowerCase s) "false" then VBool false
      else v
  | _ => v
  end.
(** Of the value it is given, and of the raw one. *)
Definition boolean_of_value (raw v : value) : value := boolean_text v.
Definition boolean_of_raw (raw v : value) : value := boolean_text raw.

(** ** The class *)

Definition node_environments : list string := ["development"; "test"; "staging"; "production"].
Definition decision_providers : list string := ["rules"; "ollama"].
Definition research_providers : list string := ["extractive"; "ollama"].

Definition text (name : string) (cs : list Constraint) (d : value) : Field :=
  {| fd_name := name; fd_type := TString; fd_optional := true; fd_transform := untouched;
     fd_constraints := cs; fd_default := d |}.
Definition number (name : string) (lo : Z) (hi : option Z) (d : Z) : Field :=
  {| fd_name := name; fd_type := TNumber; fd_optional := true; fd_transform := untouched;
     fd_constraints := IsInt :: Min lo :: match hi with Some h => [Max h] | None => [] end;
     fd_default := VNumber (f64_of_Z d) |}.
Definition transformed (t : value -> value -> value) (f : Field) : Field :=
  {| fd_name := fd_name f; fd_type := fd_type f; fd_optional := fd_optional f; fd_transform := t;
     fd_constraints := fd_constraints f; fd_default := fd_default f |}.
Definition flag (name : string) (t : value -> value -> value) : Field :=
  {| fd_name := name; fd_type := TBoolean; fd_optional := true; fd_transform := t;
     fd_constraints := [IsBoolean]; fd_default := VBool false |}.
Definition required (f : Field) : Field :=
  {| fd_name := fd_name f; fd_type := fd_type f; fd_optional := false; fd_transform := fd_transform f;
     fd_constraints := fd_constraints f; fd_default := fd_default f |}.

Definition server_variables : list Field := [
  text "NODE_ENV" [IsEnum node_environments] (VString "development");
  required (text "DATABASE_URL" [Matches POSTGRES_URL] VUndefined);
  text "APP_DATABASE_URL" [Matches POSTGRES_URL] VUndefined;
  number "PORT" 1 (Some 65535) 3000;
  text "CORS_ALLOWED_ORIGINS" [IsString; Matches ORIGIN_LIST] VUndefined;
  number "RATE_LIMIT_TTL_MS" 1000 None 60000;
  number "RATE_LIMIT_MAX" 1 None 100 ]%Z.

Definition agent_variables : list Field := [
  transformed trim_lower (text "DECISION_PROVIDER" [IsEnum decision_providers] (VString "rules"));
  transformed no_trailing_slashes (text "OLLAMA_BASE_URL" [IsString; Matches HTTP_URL] (VString "http://127.0.0.1:11434"));
  text "OLLAMA_MODEL" [IsString; IsNotEmpty] (VString "qwen3.5:9b");
  number "OLLAMA_TIMEOUT_MS" 1 None 60000;
  number "AGENT_PLANNER_TOKEN_BUDGET" 256 (Some 8192) 1024;
  number "AGENT_PLANNER_MAX_OUTPUT_TOKENS" 16 (Some 1024) 128;
  number "AGENT_PLANNER_MIN_CONFIDENCE_BPS" 0 (Some 10000) 8000 ]%Z.

Definition research_variables : list Field := [
  transformed trim_lower (text "POLICY_RESEARCH_PROVIDER" [IsEnum research_providers] (VString "extractive"));
  number "POLICY_RESEARCH_INTERVAL_MS" 1000 None 300000;
  number "POLICY_RESEARCH_TIMEOUT_MS" 1000 (Some 300000) 90000;
  number "POLICY_RESEARCH_LEASE_MS" 120000 (Some 3600000) 600000;
  number "POLICY_RESEARCH_MAX_CITATIONS" 1 (Some 6) 6 ]%Z.

Definition integration_variables : list Field := [
  text "TEMPORAL_ADDRESS" [IsString; IsNotEmpty] (VString "localhost:7233");
  text "TEMPORAL_NAMESPACE" [IsString; IsNotEmpty] (VString "default");
  text "OUTBOX_SIGNING_SECRET" [IsString; MinLength 16] (VString "dev-outbox-signing-secret-change-me");
  number "WEBHOOK_DISPATCH_INTERVAL_MS" 100 None 5000;
  number "PROVIDER_RECONCILIATION_INTERVAL_MS" 1000 None 60000;
  number "PROVIDER_RECONCILIATION_STALE_AFTER_MS" 1000 None 300000;
  text "PROVIDER_DATA_ENCRYPTION_KEYS" [IsString; Matches KEY_RING] VUndefined;
  number "BACKUP_RETENTION_HOURS" 1 (Some 8760) 24 ]%Z.

Definition oidc_variables : list Field := [
  text "OIDC_ISSUER_URL" [IsString; IsUrl] VUndefined;
  text "OIDC_AUDIENCE" [IsString; IsNotEmpty] VUndefined;
  text "OIDC_CLIENT_ID" [IsString; IsNotEmpty] VUndefined;
  text "OIDC_CLIENT_SECRET" [IsString; IsNotEmpty] VUndefined;
  text "OIDC_CALLBACK_URL" [IsString; IsUrl] VUndefined;
  text "CONSOLE_ORIGIN" [IsString; IsUrl] VUndefined;
  text "OIDC_SESSION_ENCRYPTION_KEY" [IsString; Matches HEX_KEY] VUndefined;
  text "OIDC_SESSION_ENCRYPTION_KEYS" [IsString; Matches KEY_RING] VUndefined;
  flag "SELF_SERVICE_SIGNUP_ENABLED" boolean_of_value ]%Z.

Definition sandbox_variables : list Field := [
  number "GUEST_SANDBOX_TTL_SECONDS" 300 (Some 14400) 3600;
  number "GUEST_SANDBOX_CLEANUP_INTERVAL_MS" 10000 None 300000;
  number "OIDC_SESSION_MAX_AGE_SECONDS" 300 (Some 2592000) 28800 ]%Z.

Definition telemetry_variables : list Field := [
  flag "OTEL_ENABLED" boolean_of_raw;
  text "OTEL_SERVICE_NAME" [IsString; IsNotEmpty] (VString "mortgage-integration-agent");
  transformed no_trailing_slashes (text "OTEL_EXPORTER_OTLP_ENDPOINT" [IsUrl] (VString "http://127.0.0.1:4318"));
  number "OTEL_METRIC_EXPORT_INTERVAL_MS" 1000 (Some 300000) 15000;
  {| fd_name := "OTEL_TRACE_SAMPLE_RATIO"; fd_type := TNumber; fd_optional := true; fd_transform := untouched;
     fd_constraints := [IsNumber; Min 0; Max 1]; fd_default := VNumber (f64_of_Z 1) |} ]%Z.

Definition EnvironmentVariables : list Field := Eval cbv [app server_variables agent_variables research_variables integration_variables oidc_variables sandbox_variables telemetry_variables] in
  (server_variables ++ agent_variables ++ research_variables ++ integration_variables ++ oidc_variables ++ sandbox_variables ++ telemetry_variables)%list.
Definition field (name : string) : option Field :=
  head (List.filter (fun f => String.eqb (fd_name f) name) EnvironmentVariables).

(** ** The libraries *)

(** A JavaScript object: a key that is not there reads as [undefined]. *)
Notation Props := (gmap string value).
Definition prop (o : Props) (key : string) : value := default VUndefined (o !! key).

Record Url := { ur_protocol : string; ur_origin : string; ur_pathname : string }.

Class Libraries := {
  convert : DesignType -> value -> value;
  plainToInstance : Props -> Props;
  validateSync : Props -> list (string * list Constraint);
  isURL : string -> bool;
  parse_url : string -> option Url }.

Definition has_type (t : DesignType) (v : value) : Prop :=
  match t with
  | TString => exists s, v = VString s
  | TNumber => exists x, v = VNumber x
  | TBoolean => exists b, v = VBool b
  end.

(** With [enableImplicitConversion] a declared property that is given is
    converted to its declared type and then transformed, one that is not given
    keeps its initial value, and others are copied.  [validateSync] reports a
    property exactly when one of its constraints does not hold, with those
    constraints; [IsOptional] skips null and undefined. *)
Class Laws (L : Libraries) := {
  convert_text t s : has_type t (convert t (VString s));
  given_field config f raw : f ∈ EnvironmentVariables -> config !! fd_name f = Some raw ->
    prop (plainToInstance config) (fd_name f) = fd_transform f raw (convert (fd_type f) raw);
  default_field config f : f ∈ EnvironmentVariables -> config !! fd_name f = None ->
    prop (plainToInstance config) (fd_name f) = fd_default f;
  other_key config key : field key = None -> plainToInstance config !! key = config !! key;
  reported env f c : f ∈ EnvironmentVariables -> c ∈ violations isURL f (prop env (fd_name f)) ->
    exists cs, (fd_name f, cs) ∈ validateSync env /\ c ∈ cs;
  reports env name cs : (name, cs) ∈ validateSync env ->
    cs <> [] /\ exists f, f ∈ EnvironmentVariables /\ fd_name f = name /\ cs ⊆ violations isURL f (prop env name) }.

(** ** Validation *)

Inductive Failure :=
| Malformed (errors : list (string * list Constraint))
| Rejected (details : list string)
| InvalidUrl.

Definition truthy (v : value) : bool :=
  match v with
  | VUndefined | VNull => false
  | VBool b => b
  | VNumber x => match x with S754_zero _ | S754_nan => false | _ => true end
  | VString s => JS.truthy s
  | VArray _ | VObject _ => true
  end.

Definition is_text (v : value) (s : string) : bool := match v with VString t => String.eqb t s | _ => false end.

(** [a === b] of two values that passed the constraints of a text. *)
Definition same_text (a b : value) : bool :=
  match a, b with
  | VString s, VString t => String.eqb s t
  | VUndefined, VUndefined | VNull, VNull => true
  | _, _ => false
  end.

(** The operand of [>], for a value that passed the constraints of a number. *)
Definition operand (v : value) : spec_float :=
  match v with VNumber x => x | VNull => f64_of_Z 0 | _ => S754_nan end.

Section Validation.
Context {L : Libraries}.

Definition reject {A} (c : bool) (details : string) (k : result Failure A) : result Failure A :=
  if c then Err (Rejected [details]) else k.

Definition url_of (v : value) : result Failure Url :=
  match v with
  | VString s => match parse_url s with Some u => Ok u | None => Err InvalidUrl end
  | _ => Err InvalidUrl
  end.

Definition productionLike (env : Props) : bool :=
  is_text (prop env "NODE_ENV") "production" || is_text (prop env "NODE_ENV") "staging".

Definition oidcSupplementConfigured (env : Props) : bool :=
  existsb (fun key => truthy (prop env key))
    ["OIDC_CLIENT_ID"; "OIDC_CLIENT_SECRET"; "OIDC_CALLBACK_URL"; "CONSOLE_ORIGIN"; "OIDC_SESSION_ENCRYPTION_KEY";
     "OIDC_SESSION_ENCRYPTION_KEYS"; "SELF_SERVICE_SIGNUP_ENABLED"].

(** [if (c) productionErrors.push(details)] *)
Definition requirement (c : bool) (details : string) : list string := if c then [details] else [].

(** The loop over the three addresses: [new URL] throws. *)
Fixpoint insecure (env : Props) (names : list string) : result Failure (list string) :=
  match names with
  | [] => Ok []
  | name :: names =>
      let value := prop env name in
      if truthy value then
        u ← url_of value;
        rest ← insecure env names;
        mret (requirement (negb (String.eqb (ur_protocol u) "https:")) (name +:+ " must use HTTPS in staging or production") ++ rest)%list
      else insecure env names
  end.

Definition productionErrors (env : Props) : result Failure (list string) :=
  rest ← insecure env ["OIDC_ISSUER_URL"; "OIDC_CALLBACK_URL"; "CONSOLE_ORIGIN"];
  mret (requirement (negb (truthy (prop env "OIDC_SESSION_ENCRYPTION_KEY")) && negb (truthy (prop env "OIDC_SESSION_ENCRYPTION_KEYS")))
          "OIDC_SESSION_ENCRYPTION_KEY or OIDC_SESSION_ENCRYPTION_KEYS is required when OIDC is enabled in staging or production" ++
        requirement (negb (truthy (prop env "OIDC_CALLBACK_URL")))
          "OIDC_CALLBACK_URL is required when OIDC is enabled in staging or production" ++
        requirement (negb (truthy (prop env "CONSOLE_ORIGIN")))
          "CONSOLE_ORIGIN is required when OIDC is enabled in staging or production" ++ rest)%list.

Definition check_production (env : Props) : result Failure unit :=
  if productionLike env && truthy (prop env "OIDC_ISSUER_URL") then
    errors ← productionErrors env;
    match errors with [] => mret tt | _ => Err (Rejected errors) end
  else mret tt.

Definition check_origin (env : Props) : result Failure unit :=
  let origin := prop env "CONSOLE_ORIGIN" in
  if truthy origin then
    u ← url_of origin;
    reject (negb (is_text origin (ur_origin u)) || negb (String.eqb (ur_pathname u) "/"))
      "CONSOLE_ORIGIN must contain only scheme and authority" (mret tt)
  else mret tt.

Definition cross_checks (env : Props) : result Failure unit :=
  let app := prop env "APP_DATABASE_URL" in
  let issuerConfigured := truthy (prop env "OIDC_ISSUER_URL") in
  let audienceConfigured := truthy (prop env "OIDC_AUDIENCE") in
  reject (productionLike env && negb (truthy app)) "APP_DATABASE_URL is required in staging and production" $
  reject (productionLike env && same_text app (prop env "DATABASE_URL"))
    "APP_DATABASE_URL must use a separate restricted runtime credential" $
  reject (productionLike env && negb (truthy (prop env "PROVIDER_DATA_ENCRYPTION_KEYS")))
    "PROVIDER_DATA_ENCRYPTION_KEYS is required in staging and production" $
  reject (SFltb (operand (prop env "AGENT_PLANNER_TOKEN_BUDGET")) (operand (prop env "AGENT_PLANNER_MAX_OUTPUT_TOKENS")))
    "AGENT_PLANNER_MAX_OUTPUT_TOKENS cannot exceed AGENT_PLANNER_TOKEN_BUDGET" $
  reject (xorb issuerConfigured audienceConfigured || (oidcSupplementConfigured env && negb issuerConfigured))
    "OIDC_ISSUER_URL and OIDC_AUDIENCE must be configured together" $
  _ ← check_production env;
  check_origin env.

Definition validateEnvironment (config : Props) : result Failure Props :=
  let env := plainToInstance config in
  match validateSync env with
  | [] => _ ← cross_checks env; mret env
  | errors => Err (Malformed errors)
  end.
End Validation.

(** ** CORS *)

(** Every origin, none, those of a list, or [/^http:\/\/localhost:\d+$/]. *)
Inductive CorsOrigin := Disabled | Localhost | Origins (origins : list string).

Definition resolveCorsOrigin (allowedOrigins : option string) (development : bool) : CorsOrigin :=
  match allowedOrigins with
  | Some s => if JS.truthy s then Origins (map JS.trim (JS.split_on "," s)) else if development then Localhost else Disabled
  | None => if development then Localhost else Disabled
  end.
End Env.
