(* ===== verification/EnvTheorems.v ===== *)
(** * What an accepted configuration guarantees

    Theorems about config/env.validation.ts: a configuration that start-up
    accepts is well typed and obeys the rules between variables, exactly those
    are accepted, and the key rings that the services build from it are
    accepted too. *)

From Stdlib Require Import Ascii SpecFloat.
From stdpp Require Import gmap strings list.
From S2P Require Import Prelude Encoding PolicyDsl KeyRings Regex EnvConfig.

Module EnvTheorems.
Import Regex Encoding Dsl Env Ciphers.
Open Scope string_scope.

(** ** Key rings *)

(** A text of code units of one class. *)
Definition made_of (p : ascii -> bool) (l : list ascii) : Prop := Forall (fun c => p c = true) l.

Lemma every_ascii (P : ascii -> bool) :
  forallb P (map ascii_of_nat (List.seq 0 256)) = true -> forall c, P c = true.
Proof.
  intros H c. rewrite <- (ascii_nat_embedding c). rewrite forallb_forall in H. apply H, in_map, in_seq.
  pose proof (nat_ascii_bounded c). lia.
Qed.

Lemma key_id_class_spec c : within false [(65, 90); (97, 122); (48, 57); (46, 46); (95, 95); (45, 45)]%nat c = true ->
  key_id_char c = true /\ c <> ":"%char /\ c <> ","%char.
Proof.
  intros H. set (P c := implb (within false [(65, 90); (97, 122); (48, 57); (46, 46); (95, 95); (45, 45)]%nat c)
    (key_id_char c && negb (Ascii.eqb c ":") && negb (Ascii.eqb c ","))).
  assert (P c = true) as E by (apply every_ascii; vm_compute; reflexivity). subst P.
  cbv beta in E. rewrite H in E. cbn [implb] in E.
  apply andb_true_iff in E as [[E1 E2%negb_true_iff%Ascii.eqb_neq]%andb_true_iff E3%negb_true_iff%Ascii.eqb_neq]. done.
Qed.

Lemma hex_class_spec c : within false [(48, 57); (97, 102); (65, 70)]%nat c = true ->
  bool_decide (is_Some (hex_value c)) = true /\ c <> ","%char.
Proof.
  intros H. set (P c := implb (within false [(48, 57); (97, 102); (65, 70)]%nat c)
    (bool_decide (is_Some (hex_value c)) && negb (Ascii.eqb c ","))).
  assert (P c = true) as E by (apply every_ascii; vm_compute; reflexivity). subst P.
  cbv beta in E. rewrite H in E. cbn [implb] in E. apply andb_true_iff in E as [E1 E2%negb_true_iff%Ascii.eqb_neq]. done.
Qed.

Lemma hex_key_spec l : lang HEX_KEY l ->
  exists hex, l = chars hex /\ valid_key_hex hex = true /\ lacks "," hex.
Proof.
  intros (ws & -> & Hn & Hw)%exactly_spec. apply class_words in Hw as [Hlen Hall]. rewrite Forall_forall in Hall.
  exists (String.string_of_list_ascii (concat ws)). unfold lacks, valid_key_hex.
  rewrite <- chars_length, String.list_ascii_of_string_of_list_ascii, Hlen, Hn. split_and!; [done|..].
  - change (64 =? 64)%nat with true. cbn [andb]. apply forallb_forall. intros c Hc%list_elem_of_In.
    by apply hex_class_spec, Hall.
  - intros Hc. apply Hall in Hc. by apply hex_class_spec in Hc as [_ ?].
Qed.

Lemma split_first_joined sep a b : lacks sep a -> split_first sep (a +:+ String sep b) = Some (a, b).
Proof.
  induction a as [|c a IH]; intros H.
  - change (split_first sep (String sep b) = Some ("", b)). cbn -[Ascii.eqb]. by rewrite Ascii.eqb_refl.
  - apply not_elem_of_cons in H as [Hc Hs].
    change (split_first sep (String c (a +:+ String sep b)) = Some (String c a, b)). cbn -[Ascii.eqb].
    rewrite IH by done. destruct (Ascii.eqb_spec c sep) as [->|]; done.
Qed.

(** An entry of a ring, and how its service takes it apart. *)
Lemma key_entry_spec l : lang KEY_ENTRY l ->
  exists e, l = chars e /\ lacks "," e /\ valid_key_id (key_entry e).1 = true /\ valid_key_hex (key_entry e).2 = true.
Proof.
  intros (u & v & -> & (u1 & u2 & -> & Hu1 & (ws & -> & Hn & Hw)%upto_spec) & (c & h & -> & ->%lit_spec & (hex & -> & Hhex & Hc)%hex_key_spec)).
  destruct (class_words false _ [u1] ltac:(by repeat constructor)) as [Hl1 H1].
  cbn [concat] in Hl1, H1. rewrite app_nil_r in Hl1, H1. cbn [length] in Hl1.
  apply class_words in Hw as [Hlen Hall]. set (w := (u1 ++ concat ws)%list).
  assert (Forall (fun c => key_id_char c = true /\ c <> ":"%char /\ c <> ","%char) w) as Hid.
  { apply Forall_app. split; (eapply Forall_impl; [eassumption|]); intros c Hc'; by apply key_id_class_spec. }
  exists (String.string_of_list_ascii w +:+ String ":" hex).
  assert (chars (String.string_of_list_ascii w) = w) as Hw by apply String.list_ascii_of_string_of_list_ascii.
  rewrite Forall_forall in Hid. split_and!.
  - by rewrite chars_app, Hw.
  - unfold lacks. rewrite chars_app, Hw. cbn. intros [Hin|[?|Hin]%elem_of_cons]%elem_of_app; [|done|done].
    by apply Hid in Hin as (_ & _ & ?).
  - unfold key_entry. rewrite split_first_joined; [|unfold lacks; rewrite Hw; intros Hin; by apply Hid in Hin as (_ & ? & _)].
    cbn [default from_option id fst]. unfold valid_key_id. rewrite <- chars_length, Hw.
    assert (1 <= length w <= 64)%nat as [Hlo%Nat.leb_le Hhi%Nat.leb_le].
    { unfold w. rewrite length_app, Hlen, Hl1. lia. }
    rewrite Hlo, Hhi. cbn [andb]. apply forallb_forall. intros c Hin%list_elem_of_In. by apply Hid.
  - unfold key_entry. rewrite split_first_joined; [done|].
    unfold lacks; rewrite Hw; intros Hin; by apply Hid in Hin as (_ & ? & _).
Qed.

Lemma ring_entries ws : Forall (lang (Seq (lit ",") KEY_ENTRY)) ws -> forall e, lacks "," e -> exists rest,
  JS.split_on "," (e +:+ String.string_of_list_ascii (concat ws)) = e :: rest /\
  Forall (fun e => valid_key_id (key_entry e).1 = true /\ valid_key_hex (key_entry e).2 = true) rest.
Proof.
  induction 1 as [|w ws (c & x & -> & ->%lit_spec & (e' & -> & Hl & Hi & Hh)%key_entry_spec) Hws IH]; intros e He.
  - exists []. split; [|done]. assert (e +:+ String.string_of_list_ascii (concat []) = e) as ->.
    { apply chars_inj. by rewrite chars_app, app_nil_r. }
    by apply split_on_lacks.
  - destruct (IH e' Hl) as (rest & Hs & Hr). exists (e' :: rest). split; [|by constructor].
    rewrite <- Hs, <- split_on_joined by done. f_equal. apply chars_inj.
    rewrite !chars_app. cbn. f_equal. f_equal. by rewrite chars_app, !String.list_ascii_of_string_of_list_ascii.
Qed.

(** Every service accepts a ring that the configuration accepts. *)
Lemma ring_is_parsed message s : matches KEY_RING s = true -> exists ring, parse_ring message s = Ok ring.
Proof.
  intros (u & v & Hs & (e & -> & Hl & Hi & Hh)%key_entry_spec & (ws & -> & Hws))%matches_spec.
  assert (s = e +:+ String.string_of_list_ascii (concat ws)) as ->.
  { apply chars_inj. by rewrite Hs, chars_app, String.list_ascii_of_string_of_list_ascii. }
  destruct (ring_entries ws Hws e Hl) as (rest & Hsplit & Hr). unfold parse_ring, check_ring. rewrite Hsplit.
  assert (forallb (fun e => valid_key_id e.1 && valid_key_hex e.2) (map key_entry (e :: rest)) = true) as ->; [|eauto].
  apply forallb_forall. intros x (e' & <- & Hin)%in_map_iff. apply list_elem_of_In in Hin.
  apply andb_true_iff. apply elem_of_cons in Hin as [->|Hin]; [done|]. rewrite Forall_forall in Hr. by apply Hr.
Qed.

Ltac in_schema := unfold EnvironmentVariables; repeat first [by left | right].

(** ** Validation *)

Section Theorems.
Context {L : Libraries} {laws : Laws L}.

(** What the class declares of a variable. *)
Definition conforms (f : Field) (v : value) : Prop :=
  (fd_optional f = true /\ absent v = true) \/
  (has_type (fd_type f) v /\ Forall (fun c => holds isURL c v = true) (fd_constraints f)).

Definition production (env : Props) : Prop :=
  prop env "NODE_ENV" = VString "production" \/ prop env "NODE_ENV" = VString "staging".

Definition set (env : Props) (name : string) : Prop := truthy (prop env name) = true.

(** An address that [new URL] reads as [u]. *)
Definition address (env : Props) (name : string) (u : Url) : Prop :=
  exists s, prop env name = VString s /\ parse_url s = Some u.

(** The rules between variables. *)
Record coherent (env : Props) : Prop := {
  co_runtime_role : production env -> set env "APP_DATABASE_URL" /\ prop env "APP_DATABASE_URL" <> prop env "DATABASE_URL";
  co_encrypted : production env -> set env "PROVIDER_DATA_ENCRYPTION_KEYS";
  co_planner : SFltb (operand (prop env "AGENT_PLANNER_TOKEN_BUDGET"))
                     (operand (prop env "AGENT_PLANNER_MAX_OUTPUT_TOKENS")) = false;
  co_oidc : set env "OIDC_ISSUER_URL" <-> set env "OIDC_AUDIENCE";
  co_supplement name :
    name ∈ ["OIDC_CLIENT_ID"; "OIDC_CLIENT_SECRET"; "OIDC_CALLBACK_URL"; "CONSOLE_ORIGIN"; "OIDC_SESSION_ENCRYPTION_KEY";
            "OIDC_SESSION_ENCRYPTION_KEYS"; "SELF_SERVICE_SIGNUP_ENABLED"] ->
    set env name -> set env "OIDC_ISSUER_URL";
  co_session_key : production env -> set env "OIDC_ISSUER_URL" ->
    set env "OIDC_SESSION_ENCRYPTION_KEY" \/ set env "OIDC_SESSION_ENCRYPTION_KEYS";
  co_https name : name ∈ ["OIDC_ISSUER_URL"; "OIDC_CALLBACK_URL"; "CONSOLE_ORIGIN"] ->
    production env -> set env "OIDC_ISSUER_URL" ->
    set env name /\ exists u, address env name u /\ ur_protocol u = "https:";
  co_origin : set env "CONSOLE_ORIGIN" -> exists u, address env "CONSOLE_ORIGIN" u /\
    prop env "CONSOLE_ORIGIN" = VString (ur_origin u) /\ ur_pathname u = "/" }.

(** *** Fields *)

Definition typing (t : DesignType) (c : Constraint) : bool :=
  match t, c with
  | TString, (IsString | IsEnum _ | Matches _ | IsUrl) | TNumber, (IsInt | IsNumber) | TBoolean, IsBoolean => true
  | _, _ => false
  end.

Lemma typing_type t c v : typing t c = true -> holds isURL c v = true -> has_type t v.
Proof. destruct t, c, v; cbn; try done; eauto. Qed.

Lemma declared_typed f : f ∈ EnvironmentVariables -> exists c, c ∈ fd_constraints f /\ typing (fd_type f) c = true.
Proof.
  assert (forallb (fun f => existsb (typing (fd_type f)) (fd_constraints f)) EnvironmentVariables = true) as H
    by (vm_compute; reflexivity).
  rewrite forallb_forall in H. intros Hf%list_elem_of_In. apply H, existsb_exists in Hf as (c & Hc%list_elem_of_In & Ht). eauto.
Qed.

Lemma filter_nil {A} (p : A -> bool) l : List.filter p l = [] <-> Forall (fun x => p x = false) l.
Proof.
  induction l as [|x l IH]; cbn; [by split|]. destruct (p x) eqn:E.
  - split; [done|]. intros [H _]%Forall_cons. congruence.
  - rewrite IH, Forall_cons. tauto.
Qed.

Lemma conforms_spec f v : f ∈ EnvironmentVariables -> violations isURL f v = [] <-> conforms f v.
Proof.
  intros Hf. unfold violations, conforms. destruct (fd_optional f && absent v) eqn:E.
  - apply andb_true_iff in E. tauto.
  - rewrite filter_nil. assert (~ (fd_optional f = true /\ absent v = true)) as Ho by (rewrite <- andb_true_iff; congruence).
    assert (Forall (fun c => negb (holds isURL c v) = false) (fd_constraints f) <->
            Forall (fun c => holds isURL c v = true) (fd_constraints f)) as ->.
    { apply Forall_iff. intros c. apply negb_false_iff. }
    split; [|tauto]. intros H. right. split; [|done]. destruct (declared_typed f Hf) as (c & Hc & Ht).
    rewrite Forall_forall in H. by eapply typing_type, H.
Qed.

Lemma valid_spec env : validateSync env = [] <-> forall f, f ∈ EnvironmentVariables -> conforms f (prop env (fd_name f)).
Proof.
  split.
  - intros Hv f Hf. apply conforms_spec; [done|]. destruct (violations isURL f _) as [|c cs] eqn:E; [done|].
    destruct (reported env f c Hf ltac:(rewrite E; by left)) as (cs' & Hin & _). rewrite Hv in Hin. by apply elem_of_nil in Hin.
  - intros H. destruct (validateSync env) as [|[name cs] es] eqn:E; [done|].
    destruct (reports env name cs ltac:(rewrite E; by left)) as (Hne & f & Hf & <- & Hcs).
    pose proof (proj2 (conforms_spec f _ Hf) (H f Hf)) as Hv. rewrite Hv in Hcs. destruct cs as [|c cs]; [done|].
    exfalso. apply (elem_of_nil c), Hcs. by left.
Qed.

(** *** Rules between variables *)

Lemma productionLike_spec env : productionLike env = true <-> production env.
Proof.
  unfold productionLike, production. rewrite orb_true_iff. unfold is_text.
  destruct (prop env "NODE_ENV") as [| | | |s| |]; try (by split; [intros [?|?]|intros [?|?]]).
  rewrite !String.eqb_eq. naive_solver.
Qed.

Lemma reject_Ok {A} c d (k : result Env.Failure A) a : reject c d k = Ok a <-> c = false /\ k = Ok a.
Proof. unfold reject. destruct c; naive_solver. Qed.

Lemma required_nil c d : requirement c d = [] <-> c = false.
Proof. by destruct c. Qed.

Lemma url_of_spec env name u : url_of (prop env name) = Ok u <-> address env name u.
Proof.
  unfold url_of, address. destruct (prop env name) as [| | | |s| |]; try naive_solver.
  destruct (parse_url s) eqn:E; naive_solver.
Qed.

Lemma insecure_nil env names : insecure env names = Ok [] <->
  forall name, name ∈ names -> set env name -> exists u, address env name u /\ ur_protocol u = "https:".
Proof.
  induction names as [|name names IH]; cbn [insecure].
  - split; [|done]. intros _ name Hn. by apply elem_of_nil in Hn.
  - unfold set at 1. destruct (truthy (prop env name)) eqn:Et.
    + rewrite rbind_Ok. setoid_rewrite rbind_Ok. setoid_rewrite url_of_spec. split.
      * intros (u & Hu & rest & Hr & [= Hn]). apply app_nil in Hn as [Hn%required_nil%negb_false_iff%String.eqb_eq ->].
        intros n [->|Hin]%elem_of_cons Hs; [eauto|]. by apply IH.
      * intros H. destruct (H name ltac:(by left) Et) as (u & Hu & Hp). exists u. split; [done|]. exists [].
        split; [apply IH; intros n Hn; apply H; by right|]. rewrite Hp. done.
    + rewrite IH. split; intros H n Hn Hs; [|apply H; [by right|done]].
      apply elem_of_cons in Hn as [->|Hn]; [unfold set in Hs; congruence|by apply H].
Qed.

Lemma check_production_spec env : check_production env = Ok tt <->
  (production env -> set env "OIDC_ISSUER_URL" ->
   (set env "OIDC_SESSION_ENCRYPTION_KEY" \/ set env "OIDC_SESSION_ENCRYPTION_KEYS") /\
   set env "OIDC_CALLBACK_URL" /\ set env "CONSOLE_ORIGIN" /\
   forall name, name ∈ ["OIDC_ISSUER_URL"; "OIDC_CALLBACK_URL"; "CONSOLE_ORIGIN"] -> set env name ->
     exists u, address env name u /\ ur_protocol u = "https:").
Proof.
  unfold check_production. destruct (productionLike env && truthy (prop env "OIDC_ISSUER_URL")) eqn:E.
  - apply andb_true_iff in E as [Hp%productionLike_spec Hi]. rewrite rbind_Ok. unfold productionErrors.
    setoid_rewrite rbind_Ok. rewrite <- insecure_nil. unfold set. split.
    + intros (errors & (rest & Hr & [= <-]) & He) _ _.
      destruct (requirement _ _ ++ _)%list eqn:Em in He; [|done].
      apply app_nil in Em as [Em1%required_nil Em]. apply app_nil in Em as [Em2%required_nil Em].
      apply app_nil in Em as [Em3%required_nil ->].
      apply negb_false_iff in Em2, Em3. apply andb_false_iff in Em1. rewrite !negb_false_iff in Em1. done.
    + intros H. destruct (H Hp Hi) as (Hk & H2 & H3 & Hr). exists []. split; [|done]. exists []. split; [done|].
      rewrite H2, H3. cbn [negb requirement app]. rewrite app_nil_r.
      destruct Hk as [->| ->]; [done|]. by rewrite andb_false_r.
  - split; [|done]. intros _ Hp%productionLike_spec Hi. unfold set in Hi. rewrite Hp, Hi in E. done.
Qed.

Lemma check_origin_spec env : check_origin env = Ok tt <->
  (set env "CONSOLE_ORIGIN" -> exists u, address env "CONSOLE_ORIGIN" u /\
    prop env "CONSOLE_ORIGIN" = VString (ur_origin u) /\ ur_pathname u = "/").
Proof.
  unfold check_origin, set. destruct (truthy (prop env "CONSOLE_ORIGIN")); [|done].
  rewrite rbind_Ok. setoid_rewrite url_of_spec. setoid_rewrite reject_Ok. split.
  - intros (u & Hu & [Ho%negb_false_iff Hp%negb_false_iff%String.eqb_eq]%orb_false_iff & _) _. exists u.
    split_and!; [done| |done]. destruct Hu as (s & Hs & _). rewrite Hs in *. cbn in Ho. by apply String.eqb_eq in Ho as ->.
  - intros H. destruct (H eq_refl) as (u & Hu & Ho & Hp). exists u. split_and!; [done| |done].
    rewrite Ho, Hp. cbn. by rewrite String.eqb_refl.
Qed.

Lemma conforming_text f v : fd_type f = TString -> conforms f v -> truthy v = true -> exists s, v = VString s.
Proof. intros Ht [[_ Ha]|[Hty _]] Htr; [by destruct v|]. by rewrite Ht in Hty. Qed.

Lemma separate_spec env :
  (forall f, f ∈ EnvironmentVariables -> conforms f (prop env (fd_name f))) -> set env "APP_DATABASE_URL" ->
  same_text (prop env "APP_DATABASE_URL") (prop env "DATABASE_URL") = false <->
  prop env "APP_DATABASE_URL" <> prop env "DATABASE_URL".
Proof.
  intros H Hs.
  assert (exists s, prop env "APP_DATABASE_URL" = VString s) as [s Ha].
  { apply (conforming_text (text "APP_DATABASE_URL" [Matches POSTGRES_URL] VUndefined)); [done| |done].
    apply (H (text "APP_DATABASE_URL" [Matches POSTGRES_URL] VUndefined)). do 2 right. by left. }
  rewrite Ha. destruct (prop env "DATABASE_URL"); cbn; try (split; [done|done]).
  rewrite String.eqb_neq. naive_solver.
Qed.

Lemma existsb_false_spec {A} (p : A -> bool) l : existsb p l = false <-> forall x, x ∈ l -> p x = false.
Proof.
  split.
  - intros H x Hx%list_elem_of_In. apply not_true_iff_false. intros Hp. apply not_true_iff_false in H. apply H, existsb_exists. eauto.
  - intros H. apply not_true_iff_false. intros (x & Hx%list_elem_of_In & Hp)%existsb_exists. specialize (H x Hx). congruence.
Qed.

Lemma oidc_spec env :
  xorb (truthy (prop env "OIDC_ISSUER_URL")) (truthy (prop env "OIDC_AUDIENCE")) ||
  (oidcSupplementConfigured env && negb (truthy (prop env "OIDC_ISSUER_URL"))) = false <->
  (set env "OIDC_ISSUER_URL" <-> set env "OIDC_AUDIENCE") /\
  forall name, name ∈ ["OIDC_CLIENT_ID"; "OIDC_CLIENT_SECRET"; "OIDC_CALLBACK_URL"; "CONSOLE_ORIGIN"; "OIDC_SESSION_ENCRYPTION_KEY";
            "OIDC_SESSION_ENCRYPTION_KEYS"; "SELF_SERVICE_SIGNUP_ENABLED"] ->
    set env name -> set env "OIDC_ISSUER_URL".
Proof.
  unfold set, oidcSupplementConfigured. rewrite orb_false_iff, andb_false_iff, existsb_false_spec.
  destruct (truthy (prop env "OIDC_ISSUER_URL")), (truthy (prop env "OIDC_AUDIENCE")); cbn [xorb negb]; split.
  - done.
  - intros _. split; [done|by right].
  - by intros [? _].
  - intros [[H _] _]. by specialize (H eq_refl).
  - by intros [? _].
  - intros [[_ H] _]. by specialize (H eq_refl).
  - intros [_ [H|?]]; [|done]. split; [done|]. intros n Hn Ht. by rewrite (H n Hn) in Ht.
  - intros [_ H]. split; [done|]. left. intros x Hx. apply not_true_iff_false. intros Ht. by specialize (H x Hx Ht).
Qed.

Lemma cross_checks_spec env :
  (forall f, f ∈ EnvironmentVariables -> conforms f (prop env (fd_name f))) ->
  cross_checks env = Ok tt <-> coherent env.
Proof.
  intros Hf. unfold cross_checks. cbn zeta. rewrite !reject_Ok, oidc_spec, rbind_Ok, !andb_false_iff, !negb_false_iff.
  assert (productionLike env = false <-> ~ production env) as -> by (rewrite <- not_true_iff_false, productionLike_spec; done).
  setoid_rewrite check_origin_spec. split.
  - intros (Ha & Hs & Hk & Hp & [Ho Hsup] & ([] & Hprod & Horig)).
    rewrite check_production_spec in Hprod. split; try done.
    + intros Hpr. destruct Ha as [?|Ha]; [done|]. split; [done|]. destruct Hs as [?|Hs]; [done|]. by apply separate_spec.
    + intros Hpr. by destruct Hk.
    + intros Hpr Hi. by apply Hprod.
    + intros name Hn Hpr Hi. destruct (Hprod Hpr Hi) as (_ & Hcb & Hco & Hall).
      assert (set env name) as Hset.
      { repeat (apply elem_of_cons in Hn as [->|Hn]; [done|]). by apply elem_of_nil in Hn. }
      split; [done|]. by apply Hall.
  - intros [H1 H2 H3 H4 H5 H6 H7 H8].
    assert (production env \/ ~ production env) as Hd.
    { rewrite <- productionLike_spec. destruct (productionLike env); [by left|by right]. }
    split_and!; try done.
    + destruct Hd as [Hd|Hd]; [right; by apply H1|by left].
    + destruct Hd as [Hd|Hd]; [right|by left]. destruct (H1 Hd). by apply separate_spec.
    + destruct Hd as [Hd|Hd]; [right; by apply H2|by left].
    + exists tt. split; [|done]. apply check_production_spec. intros Hpr Hi.
      split_and!; [by apply H6|apply H7; [|done..]; by right; left|apply H7; [|done..]; by right; right; left|].
      intros name Hn _. by apply H7.
Qed.

Lemma names_unique f f' : f ∈ EnvironmentVariables -> f' ∈ EnvironmentVariables -> fd_name f' = fd_name f -> f = f'.
Proof.
  intros [i Hi]%list_elem_of_lookup [j Hj]%list_elem_of_lookup Hn.
  assert (NoDup (map fd_name EnvironmentVariables)) as Hnd by (apply (bool_decide_unpack _); vm_compute; exact I).
  assert (i = j) as ->; [|congruence].
  eapply NoDup_lookup; [exact Hnd|rewrite list_lookup_fmap, Hi; reflexivity|rewrite list_lookup_fmap, Hj; cbn; by rewrite Hn].
Qed.

Lemma rbind_Err {E A B} (m : result E A) (f : A -> result E B) e :
  m ≫= f = Err e <-> m = Err e \/ exists a, m = Ok a /\ f a = Err e.
Proof. unfold mbind, result_bind. destruct m; split; naive_solver. Qed.

Lemma cross_checks_rejects env errors : cross_checks env <> Err (Malformed errors).
Proof.
  assert (forall A c d (k : result Env.Failure A), k <> Err (Malformed errors) -> reject c d k <> Err (Malformed errors)) as Hr.
  { intros A c d k Hk. unfold reject. by destruct c. }
  assert (forall v, url_of v <> Err (Malformed errors)) as Hu.
  { intros v. unfold url_of. destruct v; try done. by destruct (parse_url s). }
  assert (forall names, insecure env names <> Err (Malformed errors)) as Hi.
  { induction names as [|n names IH]; cbn [insecure]; [done|]. destruct (truthy _); [|done].
    intros [?|(u & _ & [?|(r & _ & ?)]%rbind_Err)]%rbind_Err; [by eapply Hu|done|done]. }
  unfold cross_checks. cbn zeta. do 5 apply Hr. intros [Hp|(u & _ & Ho)]%rbind_Err.
  - unfold check_production in Hp. destruct (_ && _); [|done].
    apply rbind_Err in Hp as [[He|(r & _ & He)]%rbind_Err|(es & _ & He)]; [by eapply Hi|done|by destruct es].
  - unfold check_origin in Ho. destruct (truthy _); [|done].
    apply rbind_Err in Ho as [Ho|(x & _ & Ho)]; [by eapply Hu|]. by eapply Hr, Ho.
Qed.

(** C40: Start-up accepts exactly the configurations whose variables all conform
    to their declaration and obey the rules between them, and hands on what
    the transformer made of them.  Any other is refused: one with a variable
    that does not conform with every constraint that does not hold, of every
    variable, and with nothing else. *)
Theorem accepted_environments config :
  let env := plainToInstance config in
  let conforming := forall f, f ∈ EnvironmentVariables -> conforms f (prop env (fd_name f)) in
  (forall result, validateEnvironment config = Ok result <-> result = env /\ conforming /\ coherent env) /\
  ((exists errors, validateEnvironment config = Err (Malformed errors)) <-> ~ conforming) /\
  (forall errors, validateEnvironment config = Err (Malformed errors) ->
   forall f c, f ∈ EnvironmentVariables ->
     (exists cs, (fd_name f, cs) ∈ errors /\ c ∈ cs) <-> c ∈ violations isURL f (prop env (fd_name f))).
Proof.
  intros env conforming. assert (validateSync env = [] <-> conforming) as Hv by apply valid_spec.
  unfold validateEnvironment. fold env. split_and!.
  - intros r. destruct (validateSync env) as [|e es] eqn:E.
    + assert conforming as Hc by (by apply Hv). rewrite rbind_Ok. rewrite <- (cross_checks_spec env) by done. split.
      * by intros ([] & Hx & [= <-]).
      * intros (-> & _ & Hx). by exists tt.
    + split; [done|]. intros (_ & Hc & _). by apply Hv in Hc.
  - destruct (validateSync env) as [|e es] eqn:E.
    + split; [|intros Hn; by destruct Hn; apply Hv]. intros (errors & Hr%rbind_Err). exfalso.
      destruct Hr as [Hr|(? & _ & Hr)]; [|done]. by apply cross_checks_rejects in Hr.
    + split; [|eauto]. intros _ Hc. by apply Hv in Hc.
  - intros errors Hr f c Hf. assert (errors = validateSync env) as ->.
    { destruct (validateSync env) as [|e es]; [|congruence]. apply rbind_Err in Hr as [Hr|(? & _ & Hr)]; [|done].
      by apply cross_checks_rejects in Hr. }
    split; [|by apply reported]. intros (cs & Hin & Hc). apply reports in Hin as (_ & f' & Hf' & Hn & Hcs).
    rewrite (names_unique f f') by done. rewrite Hn. by apply Hcs.
Qed.

(** *** Types *)

(** [process.env]: every value is a text. *)
Definition texts (config : Props) : Prop := forall key v, config !! key = Some v -> exists s, v = VString s.

Definition text_of (v : value) : option string := match v with VString s => Some s | _ => None end.

Lemma boolean_text_given s : absent (boolean_text (VString s)) = false.
Proof. cbn. by repeat case_match. Qed.

(** A transformation of a text that was given does not lose it. *)
Lemma given_stays f s v : f ∈ EnvironmentVariables -> has_type (fd_type f) v -> absent (fd_transform f (VString s) v) = false.
Proof.
  intros Hf Hv.
  assert (absent v = false) as Ha by (destruct (fd_type f); destruct Hv as [? ->]; done).
  assert (Forall (fun f => fd_transform f = untouched \/ fd_transform f = trim_lower \/ fd_transform f = no_trailing_slashes \/
    fd_transform f = boolean_of_value \/ fd_transform f = boolean_of_raw) EnvironmentVariables) as Ht.
  { repeat (apply Forall_cons; split; [cbn; tauto|]). by apply Forall_nil. }
  rewrite Forall_forall in Ht. destruct (Ht f Hf) as [->|[->|[->|[->| ->]]]].
  - done.
  - by destruct v.
  - by destruct v.
  - destruct v; try done. apply boolean_text_given.
  - apply boolean_text_given.
Qed.

Lemma hex_lacks_comma s : valid_key_hex s = true -> lacks "," s.
Proof.
  unfold valid_key_hex. intros [_ H]%andb_true_iff Hc%list_elem_of_In. rewrite forallb_forall in H.
  specialize (H _ Hc). vm_compute in H. done.
Qed.

Lemma default_ring message devKey : valid_key_hex devKey = true -> exists ring, parse_ring message ("local-v1:" +:+ devKey) = Ok ring.
Proof.
  intros H. unfold parse_ring, check_ring. rewrite split_on_lacks.
  - assert (map key_entry ["local-v1:" +:+ devKey] = [("local-v1", devKey)]) as -> by done.
    assert (forallb (fun e => valid_key_id e.1 && valid_key_hex e.2) [("local-v1", devKey)] = true) as ->; [|eauto].
    cbn -[valid_key_hex valid_key_id]. rewrite H. done.
  - unfold lacks. rewrite chars_app. intros [Hc|Hc]%elem_of_app; [|by apply hex_lacks_comma in H].
    assert (~ (","%char ∈ chars "local-v1:")) as Hn by (apply (bool_decide_eq_false _); vm_compute; reflexivity). done.
Qed.

Lemma conforming_ring message f v : fd_constraints f = [IsString; Matches KEY_RING] -> conforms f v ->
  absent v = true \/ exists s ring, v = VString s /\ parse_ring message s = Ok ring.
Proof.
  intros Hc [[_ ?]|[_ H]]; [by left|right]. rewrite Hc in H. apply Forall_cons in H as [Ht [Hm _]%Forall_cons].
  destruct v as [| | | |s| |]; try done. destruct (ring_is_parsed message s Hm) as [ring ?]. eauto.
Qed.

Lemma conforming_key f v : fd_constraints f = [IsString; Matches HEX_KEY] -> conforms f v ->
  absent v = true \/ exists s, v = VString s /\ valid_key_hex s = true.
Proof.
  intros Hc [[_ ?]|[_ H]]; [by left|right]. rewrite Hc in H. apply Forall_cons in H as [Ht [Hm _]%Forall_cons].
  destruct v as [| | | |s| |]; try done. exists s. split; [done|].
  apply matches_spec, hex_key_spec in Hm as (hex & Hh%chars_inj & ? & _). by subst.
Qed.

Lemma default_undefined f : f ∈ EnvironmentVariables -> absent (fd_default f) = true -> fd_default f = VUndefined.
Proof.
  intros Hf. assert (Forall (fun f => fd_default f <> VNull) EnvironmentVariables) as H.
  { repeat (apply Forall_cons; split; [done|]). by apply Forall_nil. }
  rewrite Forall_forall in H. specialize (H f Hf). by destruct (fd_default f).
Qed.

(** The rings of an accepted configuration. *)
Lemma rings_accepted env devKey :
  (forall f, f ∈ EnvironmentVariables -> conforms f (prop env (fd_name f))) -> valid_key_hex devKey = true ->
  (exists ring, session_ring (text_of (prop env "OIDC_SESSION_ENCRYPTION_KEYS"))
                  (text_of (prop env "OIDC_SESSION_ENCRYPTION_KEY")) devKey = Ok ring) /\
  exists ring, json_ring (text_of (prop env "PROVIDER_DATA_ENCRYPTION_KEYS")) devKey = Ok ring.
Proof.
  intros H Hd.
  pose proof (H (text "OIDC_SESSION_ENCRYPTION_KEYS" [IsString; Matches KEY_RING] VUndefined) ltac:(in_schema)) as H1.
  pose proof (H (text "OIDC_SESSION_ENCRYPTION_KEY" [IsString; Matches HEX_KEY] VUndefined) ltac:(in_schema)) as H2.
  pose proof (H (text "PROVIDER_DATA_ENCRYPTION_KEYS" [IsString; Matches KEY_RING] VUndefined) ltac:(in_schema)) as H3.
  cbn [fd_name text] in H1, H2, H3.
  apply (conforming_ring "invalid OIDC session encryption key ring") in H1; [|done].
  apply conforming_key in H2; [|done]. apply (conforming_ring "invalid PROVIDER_DATA_ENCRYPTION_KEYS entry") in H3; [|done].
  split.
  - assert (exists key, default devKey (text_of (prop env "OIDC_SESSION_ENCRYPTION_KEY")) = key /\ valid_key_hex key = true)
      as (key & Hk & Hvalid).
    { destruct H2 as [Ha|(s & -> & ?)]; [|by exists s]. exists devKey. by destruct (prop env "OIDC_SESSION_ENCRYPTION_KEY"). }
    assert (exists ring, check_ring "invalid OIDC session encryption key ring" [("legacy", key)] = Ok ring) as [legacy Hl].
    { unfold check_ring. assert (forallb (fun e => valid_key_id e.1 && valid_key_hex e.2) [("legacy", key)] = true) as ->; [|eauto].
      cbn -[valid_key_hex valid_key_id]. by rewrite Hvalid. }
    unfold session_ring. rewrite Hk. destruct H1 as [Ha|(s & ring & -> & Hr)].
    + destruct (prop env "OIDC_SESSION_ENCRYPTION_KEYS"); try done; eauto.
    + cbn [text_of]. destruct (JS.truthy s); eauto.
  - unfold json_ring. destruct H3 as [Ha|(s & ring & -> & Hr)]; [|eauto].
    assert (text_of (prop env "PROVIDER_DATA_ENCRYPTION_KEYS") = None) as ->.
    { by destruct (prop env "PROVIDER_DATA_ENCRYPTION_KEYS"). }
    by apply default_ring.
Qed.

(** C39: Whatever texts the process environment holds, in a configuration that
    start-up accepts every declared variable has a value of its declared type
    that satisfies all its constraints, or is undefined because it was not
    given and has no default; variables outside the schema are passed on as
    they are; and the services that read the two key rings accept them. *)
Theorem environment_is_well_typed config env :
  texts config -> validateEnvironment config = Ok env ->
  (forall f, f ∈ EnvironmentVariables ->
     (prop env (fd_name f) = VUndefined /\ config !! fd_name f = None /\ fd_default f = VUndefined /\ fd_optional f = true) \/
     (has_type (fd_type f) (prop env (fd_name f)) /\
      Forall (fun c => holds isURL c (prop env (fd_name f)) = true) (fd_constraints f))) /\
  (forall key, field key = None -> env !! key = config !! key) /\
  (forall devKey, valid_key_hex devKey = true ->
     (exists ring, session_ring (text_of (prop env "OIDC_SESSION_ENCRYPTION_KEYS"))
                     (text_of (prop env "OIDC_SESSION_ENCRYPTION_KEY")) devKey = Ok ring) /\
     exists ring, json_ring (text_of (prop env "PROVIDER_DATA_ENCRYPTION_KEYS")) devKey = Ok ring).
Proof.
  intros Htexts Hv. unfold validateEnvironment in Hv. set (made := plainToInstance config) in *.
  destruct (validateSync made) eqn:E; [|done]. rewrite valid_spec in E.
  apply rbind_Ok in Hv as (_ & _ & [= <-]). split_and!.
  - intros f Hf. destruct (E f Hf) as [[Ho Ha]|?]; [|by right]. left.
    destruct (config !! fd_name f) as [raw|] eqn:Ec.
    + destruct (Htexts _ _ Ec) as [s ->]. subst made. rewrite (given_field config f _ Hf Ec), given_stays in Ha; [done..|].
      apply convert_text.
    + subst made. rewrite (default_field config f Hf Ec) in *. split_and!; try done; by apply default_undefined.
  - intros key Hk. by apply other_key.
  - intros devKey Hd. by apply rings_accepted.
Qed.
End Theorems.
End EnvTheorems.
