(* ===== verification/EnvFindings.v ===== *)
(** * Configurations, executed

    A concrete class transformer and validator with the laws the theorems
    assume, the theorems applied to a production configuration, and
    configurations for which start-up does not do what a comment says. *)

From Stdlib Require Import Ascii SpecFloat.
From stdpp Require Import gmap strings list.
From S2P Require Import Prelude Encoding PolicyDsl KeyRings Regex EnvConfig EnvTheorems.

Module EnvFindings.
Import Regex Dsl Env EnvTheorems.
Open Scope string_scope.

(** ** The libraries, concretely *)

Fixpoint decimal (acc : Z) (s : string) : option Z :=
  match s with
  | EmptyString => Some acc
  | String c s =>
      let d := (Z.of_nat (nat_of_ascii c) - 48)%Z in
      if (0 <=? d)%Z && (d <=? 9)%Z then decimal (acc * 10 + d) s else None
  end.

Definition convert0 (t : DesignType) (v : value) : value :=
  match t, v with
  | TNumber, VString s => VNumber (match decimal 0 s with Some z => f64_of_Z z | None => S754_nan end)
  | TBoolean, VString s => VBool (JS.truthy s)
  | _, _ => v
  end.

Definition instance_value (config : Props) (f : Field) : value :=
  match config !! fd_name f with
  | Some raw => fd_transform f raw (convert0 (fd_type f) raw)
  | None => fd_default f
  end.
Definition instance_of (config : Props) (fs : list Field) : Props :=
  foldr (fun f o => <[fd_name f := instance_value config f]> o) config fs.

Definition http_url (s : string) : bool := matches HTTP_URL s.
Definition report_of (env : Props) (fs : list Field) : list (string * list Constraint) :=
  List.filter (fun e => match e.2 with [] => false | _ => true end)
    (map (fun f => (fd_name f, violations http_url f (prop env (fd_name f)))) fs).

Definition parse_url0 (s : string) : option Url :=
  '(protocol, rest) ← Ciphers.split_first ":" s;
  rest ← (if String.prefix "//" rest then Some (String.substring 2 (String.length rest) rest) else None);
  Some (match Ciphers.split_first "/" rest with
        | Some (host, path) =>
            {| ur_protocol := protocol +:+ ":"; ur_origin := protocol +:+ "://" +:+ host; ur_pathname := "/" +:+ path |}
        | None => {| ur_protocol := protocol +:+ ":"; ur_origin := s; ur_pathname := "/" |}
        end).

Definition libraries0 : Libraries :=
  {| convert := convert0; plainToInstance config := instance_of config EnvironmentVariables;
     validateSync env := report_of env EnvironmentVariables; isURL := http_url; parse_url := parse_url0 |}.

Lemma instance_other config fs key :
  Forall (fun f => fd_name f <> key) fs -> instance_of config fs !! key = config !! key.
Proof. induction 1 as [|f fs Hn Hfs IH]; [done|]. cbn. by rewrite lookup_insert_ne. Qed.

Lemma instance_field config fs f :
  NoDup (map fd_name fs) -> f ∈ fs -> instance_of config fs !! fd_name f = Some (instance_value config f).
Proof.
  intros Hnd. induction fs as [|g fs IH]; intros Hf; [by apply elem_of_nil in Hf|].
  apply NoDup_cons in Hnd as [Hg Hnd]. cbn. apply elem_of_cons in Hf as [->|Hf]; [by rewrite lookup_insert_eq|].
  rewrite lookup_insert_ne; [by apply IH|]. intros Hn. apply Hg. rewrite Hn. by apply list_elem_of_fmap_2.
Qed.

Lemma names_distinct : NoDup (map fd_name EnvironmentVariables).
Proof. apply (bool_decide_unpack _). vm_compute. exact I. Qed.

Lemma undeclared key : field key = None -> Forall (fun f => fd_name f <> key) EnvironmentVariables.
Proof.
  unfold field. intros H. apply Forall_forall. intros f Hf <-.
  destruct (List.filter _ EnvironmentVariables) as [|g gs] eqn:E; [|done].
  rewrite filter_nil, Forall_forall in E. specialize (E f Hf). cbn in E. by rewrite String.eqb_refl in E.
Qed.

Lemma instance_prop config f : f ∈ EnvironmentVariables ->
  prop (instance_of config EnvironmentVariables) (fd_name f) = instance_value config f.
Proof. intros Hf. unfold prop. by rewrite instance_field by (done || apply names_distinct). Qed.

Lemma report_of_spec env fs name cs : (name, cs) ∈ report_of env fs <->
  cs <> [] /\ exists f, f ∈ fs /\ fd_name f = name /\ cs = violations http_url f (prop env (fd_name f)).
Proof.
  unfold report_of. rewrite list_elem_of_In, filter_In, in_map_iff. split.
  - intros ((f & [= <- <-] & Hf%list_elem_of_In) & Hne). split; [by destruct (violations _ _ _)|eauto].
  - intros (Hne & f & Hf%list_elem_of_In & <- & ->). split; [eauto|]. by destruct (violations _ _ _).
Qed.

Opaque EnvironmentVariables instance_of report_of violations.
#[export] Instance laws0 : Laws libraries0.
Proof.
  split.
  - intros [] s; [by exists s|eexists; reflexivity|eexists; reflexivity].
  - intros config f raw Hf Hc. change (prop (instance_of config EnvironmentVariables) (fd_name f) =
      fd_transform f raw (convert0 (fd_type f) raw)). rewrite instance_prop by done. unfold instance_value. by rewrite Hc.
  - intros config f Hf Hc. change (prop (instance_of config EnvironmentVariables) (fd_name f) = fd_default f).
    rewrite instance_prop by done. unfold instance_value. by rewrite Hc.
  - intros config key Hk. by apply instance_other, undeclared.
  - intros env f c Hf Hc. exists (violations http_url f (prop env (fd_name f))). split; [|done].
    apply report_of_spec. split; [intros E; change (c ∈ violations http_url f (prop env (fd_name f))) in Hc; rewrite E in Hc; by apply elem_of_nil in Hc|eauto].
  - intros env name cs Hin. apply report_of_spec in Hin as (Hne & f & Hf & <- & ->). split; [done|]. by exists f.
Qed.

Transparent EnvironmentVariables instance_of report_of violations.

(** ** A production configuration *)

Definition hex64 : string := String.concat "" (replicate 16 "0aF9").
Definition production0 : Props :=
  list_to_map [("NODE_ENV", VString "production"); ("DATABASE_URL", VString "postgres://admin@db/app");
    ("APP_DATABASE_URL", VString "postgresql://runtime@db/app"); ("PORT", VString "8080");
    ("PROVIDER_DATA_ENCRYPTION_KEYS", VString ("provider-v1:" +:+ hex64));
    ("OIDC_ISSUER_URL", VString "https://id.example/realm"); ("OIDC_AUDIENCE", VString "lending");
    ("OIDC_CALLBACK_URL", VString "https://console.example/v1/auth/session/callback");
    ("CONSOLE_ORIGIN", VString "https://console.example"); ("OIDC_SESSION_ENCRYPTION_KEYS", VString ("v2:" +:+ hex64));
    ("EXTRA", VString "kept")].

Definition starts {L : Libraries} (config : Props) : bool :=
  match validateEnvironment config with Ok _ => true | Err _ => false end.

Lemma texts_of_list l : Forall (fun kv => exists s, kv.2 = VString s) l -> texts (list_to_map l).
Proof.
  intros H key v Hk. apply elem_of_list_to_map_2 in Hk. rewrite Forall_forall in H. by apply (H (key, v)).
Qed.

Lemma accepted_Ok {L : Libraries} config : starts config = true -> exists env, validateEnvironment config = Ok env.
Proof. unfold starts. destruct (validateEnvironment config); [eauto|done]. Qed.

Lemma production_accepted : starts (L := libraries0) production0 = true.
Proof. vm_compute. reflexivity. Qed.

Lemma accepted_environments_witness : exists env,
  validateEnvironment (L := libraries0) production0 = Ok env /\
  env = plainToInstance (Libraries := libraries0) production0 /\
  coherent (L := libraries0) (plainToInstance (Libraries := libraries0) production0).
Proof.
  destruct (accepted_Ok (L := libraries0) production0 production_accepted) as [r E]. exists r. split; [exact E|].
  destruct (accepted_environments (L := libraries0) (laws := laws0) production0) as [H _].
  destruct (proj1 (H r) E) as (H1 & _ & H3). exact (conj H1 H3).
Defined.

Lemma production_texts : texts production0.
Proof. apply texts_of_list. repeat constructor; eauto. Qed.

Lemma environment_is_well_typed_witness : exists env,
  validateEnvironment (L := libraries0) production0 = Ok env /\ env !! "EXTRA" = production0 !! "EXTRA".
Proof.
  destruct (accepted_Ok (L := libraries0) production0 production_accepted) as [r E]. exists r. split; [exact E|].
  destruct (environment_is_well_typed (L := libraries0) (laws := laws0) production0 r production_texts E) as (_ & H2 & _).
  exact (H2 "EXTRA" eq_refl).
Defined.

(** ** Where the comments say otherwise *)

Definition signup : Field := flag "SELF_SERVICE_SIGNUP_ENABLED" boolean_of_value.

(** The transformation of SELF_SERVICE_SIGNUP_ENABLED receives the value that the
    implicit conversion to Boolean has already made of the text, so that any
    text but the empty one, "false" included, switches self-service sign-up on;
    and without OIDC it is start-up that fails.  OTEL_ENABLED reads the raw text
    instead. *)
Lemma explicit_false_enables_signup {L : Libraries} {laws : Laws L} config s env :
  (forall t, convert TBoolean (VString t) = VBool (JS.truthy t)) ->
  config !! "SELF_SERVICE_SIGNUP_ENABLED" = Some (VString s) -> s <> "" ->
  validateEnvironment config = Ok env ->
  prop env "SELF_SERVICE_SIGNUP_ENABLED" = VBool true /\ truthy (prop env "OIDC_ISSUER_URL") = true.
Proof.
  intros Hb Hc Hs Hv.
  assert (signup ∈ EnvironmentVariables) as Hin by in_schema.
  assert (prop (plainToInstance config) "SELF_SERVICE_SIGNUP_ENABLED" = VBool true) as Ht.
  { change "SELF_SERVICE_SIGNUP_ENABLED" with (fd_name signup). rewrite (given_field config signup _ Hin Hc).
    cbn [signup flag fd_transform fd_type]. rewrite Hb. unfold boolean_of_value, JS.truthy. by rewrite (proj2 (String.eqb_neq s "")). }
  unfold validateEnvironment in Hv. destruct (validateSync _) eqn:E; [|done]. rewrite valid_spec in E.
  apply rbind_Ok in Hv as ([] & Hco%cross_checks_spec & [= <-]); [|done]. split; [done|].
  apply (co_supplement _ Hco "SELF_SERVICE_SIGNUP_ENABLED"); [do 6 right; by left|]. unfold set. by rewrite Ht.
Qed.

(** Of the example file's own line. *)
Definition example0 : Props :=
  list_to_map [("DATABASE_URL", VString "postgres://admin@db/app"); ("SELF_SERVICE_SIGNUP_ENABLED", VString "false")].
Lemma example_file_is_refused :
  validateEnvironment (L := libraries0) example0 =
    Err (Rejected ["OIDC_ISSUER_URL and OIDC_AUDIENCE must be configured together"]) /\
  starts (L := libraries0) (<["OTEL_ENABLED" := VString "false"]> (delete "SELF_SERVICE_SIGNUP_ENABLED" example0)) = true.
Proof. split; vm_compute; reflexivity. Qed.

(** The program starts with the configuration, and [p] holds of the result. *)
Definition accepts_with (config : Props) (p : Props -> bool) : bool :=
  match validateEnvironment (L := libraries0) config with Ok env => p env | Err _ => false end.

(** The lease of a research run may be shorter than the time its model is given. *)
Lemma lease_shorter_than_timeout :
  accepts_with (<["POLICY_RESEARCH_LEASE_MS" := VString "120000"]> (<["POLICY_RESEARCH_TIMEOUT_MS" := VString "300000"]> production0))
    (fun env => SFltb (operand (prop env "POLICY_RESEARCH_LEASE_MS")) (operand (prop env "POLICY_RESEARCH_TIMEOUT_MS"))) = true.
Proof. vm_compute. reflexivity. Qed.

(** Production starts with the signing secret that the source publishes. *)
Lemma production_with_published_secret :
  accepts_with production0 (fun env => is_text (prop env "OUTBOX_SIGNING_SECRET") "dev-outbox-signing-secret-change-me") = true.
Proof. vm_compute. reflexivity. Qed.

(** An accepted list of origins whose second entry has no scheme: the pattern
    reads the comma as part of the first origin. *)
Lemma cors_entry_without_scheme :
  matches ORIGIN_LIST "http://a,b" = true /\
  resolveCorsOrigin (Some "http://a,b") false = Origins ["http://a"; "b"].
Proof. split; vm_compute; reflexivity. Qed.
End EnvFindings.
