(* ===== verification/Simulators.v ===== *)
(** * Provider simulators and the contract of findings

    integrations/: the five deterministic simulators (plaid, credit, document,
    asset, identity), the failures they inject (synthetic-provider-failures.ts),
    their adapters, and the start-up that registers them; and the schemas of
    provider-platform/provider-finding-contract.ts.

    A simulator draws everything from a seed, a hash of the borrower's id
    modulo 1000; the hashes use the 32-bit operators on numbers whose products
    leave the 53 bits of a double.  The simulated latency is left out. *)

From Stdlib Require Import Ascii SpecFloat.
From stdpp Require Import gmap strings list.
From S2P Require Import Prelude Encoding PolicyDsl Concurrency ProviderTables Consent ProviderPlatform ProviderDispatch.

Module Simulators.
Import Dsl Tables Platform Dispatch.
Open Scope Z_scope.

(** ** Numbers *)

(** The value of a number that is an integer. *)
Definition to_Z (x : spec_float) : Z :=
  match x with
  | S754_finite s m e =>
      let v := if s : bool then Zneg m else Zpos m in
      if 0 <=? e then v * 2 ^ e else v / 2 ^ (- e)
  | _ => 0
  end.

(** [Math.floor] *)
Definition floor (x : spec_float) : Z := to_Z x.
(** [Math.round] of a number that is not negative. *)
Definition round (x : spec_float) : Z :=
  match x with
  | S754_finite false m e => if 0 <=? e then Zpos m * 2 ^ e else (2 * Zpos m + 2 ^ (- e)) / 2 ^ (1 - e)
  | _ => 0
  end.
(** [x % 1] of a number that is not negative. *)
Definition fraction (x : spec_float) : spec_float :=
  match x with
  | S754_finite false m e => if 0 <=? e then f64_of_Z 0 else binary_normalize 53 1024 (Zpos m mod 2 ^ (- e)) e false
  | _ => x
  end.

Definition f64_add : spec_float -> spec_float -> spec_float := SFadd 53 1024.
(** The literal [n / 10^k]. *)
Definition decimal (n k : Z) : spec_float := f64_div (f64_of_Z n) (f64_of_Z (10 ^ k)).
(** [a * b] as a number, then [>>> 0]. *)
Definition mul_uint32 (a b : Z) : Z := JS.toUint32 (to_Z (f64_mul (f64_of_Z a) (f64_of_Z b))).
Definition times (seed : spec_float) (n : Z) : spec_float := f64_mul seed (f64_of_Z n).
(** The hundredths of [x.toFixed(2)], of a number that is not negative. *)
Definition hundredths (x : spec_float) : Z :=
  match x with
  | S754_finite false m e =>
      if 0 <=? e then Zpos m * 2 ^ e * 100 else (2 * Zpos m * 100 + 2 ^ (- e)) / (2 * 2 ^ (- e))
  | _ => 0
  end.

Definition code (c : ascii) : Z := Z.of_nat (nat_of_ascii c).
Definition xor32 (a b : Z) : Z := JS.toInt32 (Z.lxor (JS.toInt32 a) (JS.toInt32 b)).
Definition or32 (a b : Z) : Z := JS.toInt32 (Z.lor (JS.toInt32 a) (JS.toInt32 b)).

(** [k / 1000] *)
Definition seed_of (k : Z) : spec_float := f64_div (f64_of_Z k) (f64_of_Z 1000).

(** ** Injected failures *)

Inductive SyntheticFailure := SyntheticProviderTimeout | SyntheticProviderRejection.

Definition SYNTHETIC_TRANSIENT_FAILURE_PREFIX : string := "SYNTHETIC-TRANSIENT-FAILURE-".
Definition SYNTHETIC_TERMINAL_FAILURE_PREFIX : string := "SYNTHETIC-TERMINAL-FAILURE-".

Definition maybeThrowSyntheticProviderFailure (borrowerId : string) : result SyntheticFailure unit :=
  if String.prefix SYNTHETIC_TRANSIENT_FAILURE_PREFIX borrowerId then Err SyntheticProviderTimeout
  else if String.prefix SYNTHETIC_TERMINAL_FAILURE_PREFIX borrowerId then Err SyntheticProviderRejection
  else Ok tt.

(** ** Income *)

Inductive EmploymentStatus := FULL_TIME | PART_TIME | SELF_EMPLOYED | UNEMPLOYED.
Definition employment_text (e : EmploymentStatus) : string :=
  match e with
  | FULL_TIME => "FULL_TIME" | PART_TIME => "PART_TIME" | SELF_EMPLOYED => "SELF_EMPLOYED" | UNEMPLOYED => "UNEMPLOYED"
  end.

Record PlaidIncomeData := {
  pd_monthlyIncome : spec_float; pd_employmentStatus : EmploymentStatus; pd_bankAccountAge : spec_float;
  pd_incomeStability : spec_float }.

Definition plaid_step (hash : Z) (c : ascii) : Z := JS.toInt32 (JS.shl hash 5 - hash + code c).
Definition plaid_seed (input : string) : Z := Z.abs (Z.rem (foldl plaid_step 0 (Encoding.chars input)) 1000).

Definition income_of (seed : spec_float) : PlaidIncomeData :=
  {| pd_monthlyIncome := f64_of_Z (4000 + floor (times seed 21000));
     pd_employmentStatus := nth (Z.to_nat (floor (times seed 3))) [FULL_TIME; PART_TIME; SELF_EMPLOYED] UNEMPLOYED;
     pd_bankAccountAge := f64_of_Z (6 + floor (times seed 114));
     pd_incomeStability := f64_of_Z (55 + floor (times seed 45)) |}.
Definition getIncomeData (borrowerId : string) : result SyntheticFailure PlaidIncomeData :=
  _ ← maybeThrowSyntheticProviderFailure borrowerId;
  mret (income_of (seed_of (plaid_seed borrowerId))).

(** ** Credit *)

Inductive PaymentHistoryGrade := EXCELLENT | GOOD | FAIR | POOR.
Definition grade_text (g : PaymentHistoryGrade) : string :=
  match g with EXCELLENT => "EXCELLENT" | GOOD => "GOOD" | FAIR => "FAIR" | POOR => "POOR" end.

Record CreditBureauData := {
  cb_creditScore : spec_float; cb_debtToIncomeRatio : spec_float; cb_paymentHistory : PaymentHistoryGrade;
  cb_openAccounts : spec_float; cb_derogatoryMarks : spec_float }.

Definition credit_step (hash : Z) (c : ascii) : Z := JS.toInt32 (JS.shl hash 5 + hash + code c).
Definition credit_seed (input : string) : Z := Z.abs (Z.rem (foldl credit_step 5381 (Encoding.chars input)) 1000).

Definition credit_of (seed : spec_float) : CreditBureauData :=
  {| cb_creditScore := f64_of_Z (580 + floor (times seed 240));
     cb_debtToIncomeRatio := decimal (hundredths (f64_add (decimal 18 2) (f64_mul seed (decimal 37 2)))) 2;
     cb_paymentHistory := nth (Z.to_nat (floor (times seed 4))) [EXCELLENT; GOOD; FAIR; POOR] POOR;
     cb_openAccounts := f64_of_Z (2 + floor (times seed 16));
     cb_derogatoryMarks := f64_of_Z (floor (times seed 3)) |}.
Definition getCreditData (borrowerId : string) : result SyntheticFailure CreditBureauData :=
  _ ← maybeThrowSyntheticProviderFailure borrowerId;
  mret (credit_of (seed_of (credit_seed borrowerId))).

(** ** Documents *)

Record DocumentVerificationResult := {
  dv_w2Valid : bool; dv_payStubValid : bool; dv_bankStatementValid : bool; dv_taxReturnValid : bool;
  dv_allDocumentsValid : bool; dv_failedDocuments : list string }.

Definition document_step (hash : Z) (c : ascii) : Z := mul_uint32 (xor32 hash (code c)) 16777619.
Definition document_seed (input : string) : Z := foldl document_step 2166136261 (Encoding.chars input) mod 1000.

(** [seed > literal] *)
Definition above (seed : spec_float) (n k : Z) : bool := SFltb (decimal n k) seed.
Definition failed_when (valid : bool) (name : string) : list string := if valid then [] else [name].

Definition documents_of (seed : spec_float) : DocumentVerificationResult :=
  let w2Valid := above seed 15 2 in
  let payStubValid := above seed 12 2 in
  let bankStatementValid := above seed 1 1 in
  let taxReturnValid := above seed 2 1 in
  let failed := (failed_when w2Valid "W-2" ++ failed_when payStubValid "Pay Stub" ++
                 failed_when bankStatementValid "Bank Statement" ++ failed_when taxReturnValid "Tax Return")%list in
  {| dv_w2Valid := w2Valid; dv_payStubValid := payStubValid; dv_bankStatementValid := bankStatementValid;
     dv_taxReturnValid := taxReturnValid; dv_allDocumentsValid := bool_decide (failed = []);
     dv_failedDocuments := failed |}.
Definition verifyDocuments (borrowerId : string) : result SyntheticFailure DocumentVerificationResult :=
  _ ← maybeThrowSyntheticProviderFailure borrowerId;
  mret (documents_of (seed_of (document_seed borrowerId))).

(** ** Assets *)

Record AssetVerificationData := {
  av_liquidAssets : spec_float; av_investmentAssets : spec_float; av_accountCount : spec_float; av_reserveMonths : spec_float }.

Definition asset_step (hash : Z) (c : ascii) : Z :=
  let h := xor32 hash (code c) in
  let h := JS.toUint32 (or32 (JS.shl h 13) (JS.ushr h 19)) in
  mul_uint32 h 2246822507.
Definition asset_seed (input : string) : Z := foldl asset_step 2654435769 (Encoding.chars input) mod 1000.

Definition assets_of (seed : spec_float) : AssetVerificationData :=
  {| av_liquidAssets := f64_of_Z (2000 + round (times seed 80000));
     av_investmentAssets := f64_of_Z (round (times (fraction (times seed 37)) 150000));
     av_accountCount := f64_of_Z (1 + floor (times seed 6));
     av_reserveMonths := f64_of_Z (floor (times seed 24)) |}.
Definition getAssetData (borrowerId : string) : result SyntheticFailure AssetVerificationData :=
  _ ← maybeThrowSyntheticProviderFailure borrowerId;
  mret (assets_of (seed_of (asset_seed borrowerId))).

(** ** Identity *)

Record IdentityVerificationResult := {
  iy_nameMatch : bool; iy_dateOfBirthMatch : bool; iy_ssnValid : bool; iy_addressMatch : bool;
  iy_fraudAlertPresent : bool; iy_identityVerified : bool }.

Definition identity_step (acc : Z * Z) (c : ascii) : Z * Z :=
  (JS.toUint32 (acc.1 + code c * code c * (acc.2 + 1)), acc.2 + 1).
Definition identity_seed (input : string) : Z := (foldl identity_step (0, 0) (Encoding.chars input)).1 mod 1000.

Definition identity_of (seed : spec_float) : IdentityVerificationResult :=
  let nameMatch := above seed 5 2 in
  let dateOfBirthMatch := above seed 8 2 in
  let ssnValid := above seed 3 2 in
  let addressMatch := above seed 15 2 in
  let fraudAlertPresent := SFltb seed (decimal 4 2) in
  {| iy_nameMatch := nameMatch; iy_dateOfBirthMatch := dateOfBirthMatch; iy_ssnValid := ssnValid;
     iy_addressMatch := addressMatch; iy_fraudAlertPresent := fraudAlertPresent;
     iy_identityVerified := nameMatch && dateOfBirthMatch && ssnValid && addressMatch && negb fraudAlertPresent |}.
Definition verifyIdentity (borrowerId : string) : result SyntheticFailure IdentityVerificationResult :=
  _ ← maybeThrowSyntheticProviderFailure borrowerId;
  mret (identity_of (seed_of (identity_seed borrowerId))).

(** ** Findings as JSON *)

Definition income_value (d : PlaidIncomeData) : value :=
  VObject [("monthlyIncome", VNumber (pd_monthlyIncome d)); ("employmentStatus", VString (employment_text (pd_employmentStatus d)));
           ("bankAccountAge", VNumber (pd_bankAccountAge d)); ("incomeStability", VNumber (pd_incomeStability d))].
Definition credit_value (d : CreditBureauData) : value :=
  VObject [("creditScore", VNumber (cb_creditScore d)); ("debtToIncomeRatio", VNumber (cb_debtToIncomeRatio d));
           ("paymentHistory", VString (grade_text (cb_paymentHistory d))); ("openAccounts", VNumber (cb_openAccounts d));
           ("derogatoryMarks", VNumber (cb_derogatoryMarks d))].
Definition documents_value (d : DocumentVerificationResult) : value :=
  VObject [("w2Valid", VBool (dv_w2Valid d)); ("payStubValid", VBool (dv_payStubValid d));
           ("bankStatementValid", VBool (dv_bankStatementValid d)); ("taxReturnValid", VBool (dv_taxReturnValid d));
           ("allDocumentsValid", VBool (dv_allDocumentsValid d)); ("failedDocuments", VArray (map VString (dv_failedDocuments d)))].
Definition assets_value (d : AssetVerificationData) : value :=
  VObject [("liquidAssets", VNumber (av_liquidAssets d)); ("investmentAssets", VNumber (av_investmentAssets d));
           ("accountCount", VNumber (av_accountCount d)); ("reserveMonths", VNumber (av_reserveMonths d))].
Definition identity_value (d : IdentityVerificationResult) : value :=
  VObject [("nameMatch", VBool (iy_nameMatch d)); ("dateOfBirthMatch", VBool (iy_dateOfBirthMatch d));
           ("ssnValid", VBool (iy_ssnValid d)); ("addressMatch", VBool (iy_addressMatch d));
           ("fraudAlertPresent", VBool (iy_fraudAlertPresent d)); ("identityVerified", VBool (iy_identityVerified d))].

(** ** The contract *)

(** A zod object: each key with the test of its value. *)
Notation shape := (list (string * (value -> bool))).

Definition number_with (p : spec_float -> bool) (v : value) : bool :=
  match v with VNumber x => isFinite x && p x | _ => false end.
Definition nonnegative (x : spec_float) : bool := SFleb (f64_of_Z 0) x.
Definition between (lo hi : Z) (x : spec_float) : bool := SFleb (f64_of_Z lo) x && SFleb x (f64_of_Z hi).
(** [int()]: a safe integer. *)
Definition is_int (x : spec_float) : bool :=
  match x with
  | S754_zero _ => true
  | S754_finite _ m e => ((0 <=? e) || (Zpos m mod 2 ^ (- e) =? 0)) && JS.isSafeInteger (to_Z x)
  | _ => false
  end.
Definition one_of (l : list string) (v : value) : bool := match v with VString s => includes l s | _ => false end.
Definition boolean (v : value) : bool := match v with VBool _ => true | _ => false end.
Definition filled_texts (v : value) : bool :=
  match v with
  | VArray vs => forallb (fun v => match v with VString s => JS.truthy s | _ => false end) vs
  | _ => false
  end.

(** [z.object(sh).strict().superRefine(...)] *)
Definition strict_object (sh : shape) (refined : list (string * value) -> bool) (v : value) : option value :=
  match v with
  | VObject props =>
      if forallb (fun kv => includes (map fst sh) kv.1) props && forallb (fun kp => kp.2 (Dsl.get props kp.1)) sh && refined props
      then Some (VObject (map (fun kp => (kp.1, Dsl.get props kp.1)) sh)) else None
  | _ => None
  end.

Definition incomeSchema : value -> option value :=
  strict_object [("monthlyIncome", number_with nonnegative);
    ("employmentStatus", one_of ["FULL_TIME"; "PART_TIME"; "SELF_EMPLOYED"; "UNEMPLOYED"]);
    ("bankAccountAge", number_with (fun x => is_int x && nonnegative x)); ("incomeStability", number_with (between 0 100))]
    (fun _ => true).
Definition creditSchema : value -> option value :=
  strict_object [("creditScore", number_with (fun x => is_int x && between 300 850 x)); ("debtToIncomeRatio", number_with (between 0 10));
    ("paymentHistory", one_of ["EXCELLENT"; "GOOD"; "FAIR"; "POOR"]);
    ("openAccounts", number_with (fun x => is_int x && nonnegative x)); ("derogatoryMarks", number_with (fun x => is_int x && nonnegative x))]
    (fun _ => true).

Definition holds_of (props : list (string * value)) (key : string) : bool := match Dsl.get props key with VBool b => b | _ => false end.
Definition no_entries (v : value) : bool := match v with VArray [] => true | _ => false end.

Definition documentSchema : value -> option value :=
  strict_object [("w2Valid", boolean); ("payStubValid", boolean); ("bankStatementValid", boolean); ("taxReturnValid", boolean);
    ("allDocumentsValid", boolean); ("failedDocuments", filled_texts)]
    (fun o =>
       let checksAllPass := holds_of o "w2Valid" && holds_of o "payStubValid" && holds_of o "bankStatementValid" && holds_of o "taxReturnValid" in
       eqb (holds_of o "allDocumentsValid") checksAllPass &&
       eqb (holds_of o "allDocumentsValid") (no_entries (Dsl.get o "failedDocuments"))).
Definition assetSchema : value -> option value :=
  strict_object [("liquidAssets", number_with nonnegative); ("investmentAssets", number_with nonnegative);
    ("accountCount", number_with (fun x => is_int x && nonnegative x)); ("reserveMonths", number_with nonnegative)] (fun _ => true).
Definition identitySchema : value -> option value :=
  strict_object [("nameMatch", boolean); ("dateOfBirthMatch", boolean); ("ssnValid", boolean); ("addressMatch", boolean);
    ("fraudAlertPresent", boolean); ("identityVerified", boolean)]
    (fun o =>
       let expected := holds_of o "nameMatch" && holds_of o "dateOfBirthMatch" && holds_of o "ssnValid" && holds_of o "addressMatch" &&
                       negb (holds_of o "fraudAlertPresent") in
       eqb (holds_of o "identityVerified") expected).

Definition schemas (capability : ProviderCapability) : value -> option value :=
  match capability with
  | INCOME => incomeSchema | CREDIT => creditSchema | DOCUMENT => documentSchema | ASSET => assetSchema | IDENTITY => identitySchema
  end.

(** ** Adapters *)

Definition adapter (providerId : string) (capability : ProviderCapability) (mode : ProviderMode) : ProviderAdapter :=
  {| ad_providerId := providerId; ad_capability := capability; ad_mode := mode; ad_effectClass := REUSABLE_LOOKUP;
     ad_structurallyExcludedCommandClass := None; ad_normalize := Ok |}.

Definition PlaidIncomeAdapter : ProviderAdapter := adapter "plaid-simulator" INCOME SIMULATOR.
Definition PlaidIncomeSandboxAdapter : ProviderAdapter := adapter "plaid-sandbox" INCOME AUTHORIZED_SANDBOX.
Definition CreditReportAdapter : ProviderAdapter := adapter "credit-bureau-simulator" CREDIT SIMULATOR.
Definition DocumentVerificationAdapter : ProviderAdapter := adapter "document-verification-simulator" DOCUMENT SIMULATOR.
Definition AssetVerificationAdapter : ProviderAdapter := adapter "asset-verification-simulator" ASSET SIMULATOR.
Definition IdentityVerificationAdapter : ProviderAdapter := adapter "identity-verification-simulator" IDENTITY SIMULATOR.

(** [onModuleInit] *)
Definition bootstrap (registry : Registry) : result Failure Registry :=
  r ← register PlaidIncomeAdapter registry;
  r ← register PlaidIncomeSandboxAdapter r;
  r ← register CreditReportAdapter r;
  r ← register DocumentVerificationAdapter r;
  r ← register AssetVerificationAdapter r;
  register IdentityVerificationAdapter r.

Definition payload_of (capability : ProviderCapability) (borrowerId : string) : result SyntheticFailure value :=
  match capability with
  | INCOME => d ← getIncomeData borrowerId; mret (income_value d)
  | CREDIT => d ← getCreditData borrowerId; mret (credit_value d)
  | DOCUMENT => d ← verifyDocuments borrowerId; mret (documents_value d)
  | ASSET => d ← getAssetData borrowerId; mret (assets_value d)
  | IDENTITY => d ← verifyIdentity borrowerId; mret (identity_value d)
  end.

(** [submit] of the simulator's adapter at [observedAt]; without a text for a
    borrower's id the simulators throw a TypeError. *)
Definition simulate (capability : ProviderCapability) (request : value) (observedAt : string) : ProviderAnswer :=
  match request with
  | VObject props =>
      match Dsl.get props "borrowerId" with
      | VString borrowerId =>
          match payload_of capability borrowerId with
          | Ok payload => Receipt payload observedAt
          | Err SyntheticProviderRejection => SyntheticProviderRejectionError
          | Err SyntheticProviderTimeout => OtherError true
          end
      | _ => OtherError false
      end
  | _ => OtherError false
  end.
End Simulators.
