(* ===== verification/SimulatorTheorems.v ===== *)
(** * What the simulators deliver

    For every borrower: a simulator's finding keeps the contract that findings
    of real providers must keep, and stays in the ranges its comments give.  A
    finding depends on the borrower's id only through a seed below 1000, so
    that a property of all seeds is decided by evaluation. *)

From Stdlib Require Import Ascii SpecFloat.
From stdpp Require Import gmap strings list.
From S2P Require Import Prelude Encoding PolicyDsl Concurrency ProviderTables Consent ProviderPlatform ProviderDispatch Simulators.

Module SimulatorTheorems.
Import Dsl Tables Platform Dispatch Simulators.
Open Scope Z_scope.

(** ** Seeds *)

Lemma abs_rem h : 0 <= Z.abs (Z.rem h 1000) < 1000.
Proof. pose proof (Z.rem_bound_abs h 1000). lia. Qed.

Lemma seeds_bounded b :
  0 <= plaid_seed b < 1000 /\ 0 <= credit_seed b < 1000 /\ 0 <= document_seed b < 1000 /\
  0 <= asset_seed b < 1000 /\ 0 <= identity_seed b < 1000.
Proof.
  unfold plaid_seed, credit_seed, document_seed, asset_seed, identity_seed.
  split_and!; first [apply abs_rem | apply Z.mod_pos_bound; lia].
Qed.

(** A property of every seed, by evaluation. *)
Definition every_seed (p : spec_float -> bool) : bool := forallb (fun k => p (seed_of (Z.of_nat k))) (List.seq 0 1000).

Lemma every_seed_spec p k : every_seed p = true -> 0 <= k < 1000 -> p (seed_of k) = true.
Proof.
  unfold every_seed. rewrite forallb_forall. intros H Hk. rewrite <- (Z2Nat.id k) by lia. apply H, in_seq. lia.
Qed.

(** ** Ranges *)

(** Whole numbers between two bounds. *)
Definition whole (lo hi : Z) (x : spec_float) : bool :=
  SFeqb x (f64_of_Z (to_Z x)) && (lo <=? to_Z x) && (to_Z x <=? hi).

Definition income_in_range (d : PlaidIncomeData) : bool :=
  whole 4000 24979 (pd_monthlyIncome d) && whole 6 119 (pd_bankAccountAge d) && whole 55 99 (pd_incomeStability d) &&
  negb (bool_decide (employment_text (pd_employmentStatus d) = "UNEMPLOYED")).
Definition credit_in_range (d : CreditBureauData) : bool :=
  whole 580 819 (cb_creditScore d) && whole 2 17 (cb_openAccounts d) && whole 0 2 (cb_derogatoryMarks d) &&
  SFleb (decimal 18 2) (cb_debtToIncomeRatio d) && SFleb (cb_debtToIncomeRatio d) (decimal 55 2).
Definition assets_in_range (d : AssetVerificationData) : bool :=
  whole 2000 81920 (av_liquidAssets d) && whole 0 149850 (av_investmentAssets d) && whole 1 6 (av_accountCount d) &&
  whole 0 23 (av_reserveMonths d).

Definition conforming (capability : ProviderCapability) (v : value) : bool :=
  match schemas capability v with Some _ => true | None => false end.

(** The evaluations: per simulator, ranges and contract in one pass; and of
    credit, that the marks and the score are never both clean. *)
Lemma every_income : every_seed (fun s => let d := income_of s in income_in_range d && conforming INCOME (income_value d)) = true.
Proof. vm_compute. reflexivity. Qed.
Lemma every_credit : every_seed (fun s =>
  let d := credit_of s in
  credit_in_range d && conforming CREDIT (credit_value d) &&
  (SFltb (cb_creditScore d) (f64_of_Z 700) || SFeqb (cb_derogatoryMarks d) (f64_of_Z 1) ||
   SFleb (f64_of_Z 2) (cb_derogatoryMarks d))) = true.
Proof. vm_compute. reflexivity. Qed.
Lemma every_asset : every_seed (fun s => let d := assets_of s in assets_in_range d && conforming ASSET (assets_value d)) = true.
Proof. vm_compute. reflexivity. Qed.

(** The other two keep their contract by construction. *)
Lemma documents_conform s : conforming DOCUMENT (documents_value (documents_of s)) = true.
Proof. unfold documents_of. by repeat (destruct (above _ _ _)). Qed.
Lemma identity_conforms s : conforming IDENTITY (identity_value (identity_of s)) = true.
Proof. unfold identity_of. repeat (destruct (above _ _ _)); by destruct (SFltb _ _). Qed.

(** What a schema returns has the keys of the schema, in its order. *)
Lemma strict_object_result sh refined props v :
  strict_object sh refined (VObject props) = Some v -> v = VObject (map (fun kp => (kp.1, Dsl.get props kp.1)) sh).
Proof. unfold strict_object. by destruct (_ && _); [intros [= <-]|]. Qed.

Lemma conforming_spec capability v : conforming capability v = true -> exists v', schemas capability v = Some v'.
Proof. unfold conforming. destruct (schemas capability v); [eauto|done]. Qed.

(** Every payload of a simulator passes its schema unchanged. *)
Lemma payload_conforms capability b payload :
  payload_of capability b = Ok payload -> schemas capability payload = Some payload.
Proof.
  destruct (seeds_bounded b) as (Hi & Hc & Hd & Ha & Hid).
  intros H. unfold payload_of, getIncomeData, getCreditData, verifyDocuments, getAssetData, verifyIdentity in H.
  destruct capability; apply rbind_Ok in H as (d & (_ & _ & [= <-])%rbind_Ok & [= <-]).
  - pose proof (every_seed_spec _ _ every_income Hi) as E. cbv beta zeta in E.
    apply andb_true_iff in E as [_ (v & Hv)%conforming_spec]. rewrite Hv. by apply strict_object_result in Hv as ->.
  - pose proof (every_seed_spec _ _ every_asset Ha) as E. cbv beta zeta in E.
    apply andb_true_iff in E as [_ (v & Hv)%conforming_spec]. rewrite Hv. by apply strict_object_result in Hv as ->.
  - pose proof (every_seed_spec _ _ every_credit Hc) as E. cbv beta zeta in E.
    apply andb_true_iff in E as [[_ (v & Hv)%conforming_spec]%andb_true_iff _]. rewrite Hv. by apply strict_object_result in Hv as ->.
  - destruct (conforming_spec _ _ (identity_conforms (seed_of (identity_seed b)))) as (v & Hv). rewrite Hv. by apply strict_object_result in Hv as ->.
  - destruct (conforming_spec _ _ (documents_conform (seed_of (document_seed b)))) as (v & Hv). rewrite Hv. by apply strict_object_result in Hv as ->.
Qed.

(** ** Injected failures *)

Lemma payload_failure capability b :
  payload_of capability b =
  match maybeThrowSyntheticProviderFailure b with
  | Err e => Err e
  | Ok _ => Ok (match capability with
                | INCOME => income_value (income_of (seed_of (plaid_seed b)))
                | CREDIT => credit_value (credit_of (seed_of (credit_seed b)))
                | DOCUMENT => documents_value (documents_of (seed_of (document_seed b)))
                | ASSET => assets_value (assets_of (seed_of (asset_seed b)))
                | IDENTITY => identity_value (identity_of (seed_of (identity_seed b)))
                end)
  end.
Proof.
  unfold payload_of, getIncomeData, getCreditData, verifyDocuments, getAssetData, verifyIdentity.
  destruct capability; by destruct (maybeThrowSyntheticProviderFailure b).
Qed.

Section Contract.
Context (parse_date : string -> option Z).

(** C33: The simulators' adapters keep the contract of every provider: for any
    borrower the answer is the injected failure that the id asks for, a
    timeout or a rejection, or a receipt that the gate behind every adapter
    admits unchanged while it is fresh, at any time at which the gate runs. *)
Theorem simulated_findings_conform capability b observedAt :
  let request := VObject [("borrowerId", VString b)] in
  let transient := String.prefix SYNTHETIC_TRANSIENT_FAILURE_PREFIX b in
  let terminal := String.prefix SYNTHETIC_TERMINAL_FAILURE_PREFIX b in
  (transient = true -> simulate capability request observedAt = OtherError true) /\
  (transient = false -> terminal = true -> simulate capability request observedAt = SyntheticProviderRejectionError) /\
  (transient = false -> terminal = false -> exists payload,
     simulate capability request observedAt = Receipt payload observedAt /\
     forall t now, parse_date observedAt = Some t ->
       validateProviderFinding parse_date schemas capability payload observedAt now =
       if bool_decide (t - 30000 <= now <= t + 5 * 60000) then Ok payload else Err ProviderFindingContract).
Proof.
  intros request transient terminal. unfold simulate, request. cbn [Dsl.get]. change (String.eqb "borrowerId" "borrowerId") with true.
  cbn iota. rewrite payload_failure. unfold maybeThrowSyntheticProviderFailure. fold transient terminal.
  split_and!.
  - by intros ->.
  - by intros -> ->.
  - intros Ht Hm. rewrite Ht, Hm. eexists. split; [reflexivity|]. intros t now Hd. unfold validateProviderFinding. rewrite Hd.
    rewrite (payload_conforms capability b) by (rewrite payload_failure; unfold maybeThrowSyntheticProviderFailure;
      fold transient terminal; by rewrite Ht, Hm).
    case_bool_decide as Hb.
    + rewrite (proj2 (Z.ltb_ge _ _)), (proj2 (Z.ltb_ge _ _)) by lia. done.
    + destruct (Z.ltb_spec (now + 30000) t); [done|]. destruct (Z.ltb_spec (5 * 60000) (now - t)); [done|]. lia.
Qed.
End Contract.

Lemma simulated_findings_conform_witness : exists payload,
  simulate CREDIT (VObject [("borrowerId", VString "borrower-001")]) "2026-01-01" = Receipt payload "2026-01-01" /\
  validateProviderFinding (fun _ => Some 0) schemas CREDIT payload "2026-01-01" 1000 = Ok payload.
Proof.
  destruct (simulated_findings_conform (fun _ => Some 0) CREDIT "borrower-001" "2026-01-01") as (_ & _ & H).
  destruct (H eq_refl eq_refl) as (payload & Hs & Hv). exists payload. split; [exact Hs|exact (Hv 0 1000 eq_refl)].
Defined.

(** ** The registry *)

(** Start-up registers the six adapters, each under its capability and mode. *)
Lemma bootstrap_registers : exists registry, bootstrap ∅ = Ok registry /\
  (forall capability, ad_capability <$> registry !! (capability, SIMULATOR) = Some capability) /\
  registry !! (INCOME, AUTHORIZED_SANDBOX) = Some PlaidIncomeSandboxAdapter /\
  (forall capability, registry !! (capability, PRODUCTION_BYOC) = None).
Proof.
  eexists. split; [vm_compute; reflexivity|]. split_and!; [by intros []|done|by intros []].
Qed.
End SimulatorTheorems.
