(* ===== verification/Underwriter.v ===== *)
(** * The one-shot underwriting path

    agent/ (rules-underwriter.service.ts, ollama-underwriter.service.ts,
    agent.service.ts) and loan/loan.service.ts: an application is decided in
    one call from the answers of three providers, by fixed rules or by a local
    model whose answer is checked field by field, and stored.

    Numbers are doubles.  How the runtime prints a number ([show],
    [toLocaleString]) and reads JSON ([json_parse]) are parameters; the request
    to the model is a call. *)

From Stdlib Require Import Ascii SpecFloat.
From stdpp Require Import gmap strings list pretty.
From S2P Require Import Prelude Encoding PolicyDsl Concurrency Communications ProviderTables Consent ProviderPlatform ProviderDispatch Simulators.

Module Underwriter.
Import Dsl Simulators Threads.
Open Scope Z_scope.

(** ** Data *)

Inductive UnderwritingDecision := APPROVED | CONDITIONAL | DENIED.

Record UnderwritingContext := {
  uc_borrowerId : string; uc_requestedAmount : spec_float; uc_loanType : string;
  uc_income : PlaidIncomeData; uc_credit : CreditBureauData; uc_documents : DocumentVerificationResult }.

Record UnderwritingModelResponse := {
  um_decision : UnderwritingDecision; um_confidence : spec_float; um_reasoning : string; um_conditions : list string }.

Record LoanThresholds := { lt_minScore : Z; lt_maxDti : spec_float; lt_maxLti : spec_float }.

Definition getLoanThresholds (loanType : string) : LoanThresholds :=
  if String.eqb loanType "FHA" then {| lt_minScore := 580; lt_maxDti := decimal 57 2; lt_maxLti := f64_of_Z 5 |}
  else if String.eqb loanType "VA" then {| lt_minScore := 0; lt_maxDti := decimal 41 2; lt_maxLti := f64_of_Z 5 |}
  else if String.eqb loanType "JUMBO" then {| lt_minScore := 720; lt_maxDti := decimal 38 2; lt_maxLti := f64_of_Z 4 |}
  else {| lt_minScore := 620; lt_maxDti := decimal 5 1; lt_maxLti := decimal 45 1 |}.

(** ** Numbers *)

Definition less (x y : spec_float) : bool := SFltb x y.
(** [Math.min] and [Math.max]: not a number when an argument is not; of two
    equal arguments the sign of zero does not matter here. *)
Definition is_nan (x : spec_float) : bool := match x with S754_nan => true | _ => false end.
Definition math_min (x y : spec_float) : spec_float :=
  if is_nan x || is_nan y then S754_nan else if SFltb y x then y else x.
Definition math_max (x y : spec_float) : spec_float :=
  if is_nan x || is_nan y then S754_nan else if SFltb x y then y else x.

(** [x.toFixed(digits)], of a number below 10^21. *)
Definition scaled (digits : Z) (x : spec_float) : Z :=
  match x with
  | S754_finite _ m e =>
      if 0 <=? e then Zpos m * 2 ^ e * 10 ^ digits else (2 * Zpos m * 10 ^ digits + 2 ^ (- e)) / (2 * 2 ^ (- e))
  | _ => 0
  end.
Definition pad (digits : nat) (s : string) : string := String.concat "" (replicate (digits - String.length s) "0") +:+ s.
Definition toFixed (digits : nat) (x : spec_float) : string :=
  let n := scaled (Z.of_nat digits) x in
  let sign := match x with S754_finite true _ _ => "-" | _ => "" end in
  match x with
  | S754_nan => "NaN"
  | S754_infinity s => if s : bool then "-Infinity" else "Infinity"
  | _ =>
      sign +:+ pretty (n / 10 ^ Z.of_nat digits) +:+
      match digits with O => "" | _ => "." +:+ pad digits (pretty (n mod 10 ^ Z.of_nat digits)) end
  end.

Section Rules.
Context (show toLocaleString : spec_float -> string).

Definition percent (digits : nat) (x : spec_float) : string := toFixed digits (times x 100).

(** ** The rules *)

Definition annualIncome (c : UnderwritingContext) : spec_float := times (pd_monthlyIncome (uc_income c)) 12.
Definition lti (c : UnderwritingContext) : spec_float := f64_div (uc_requestedAmount c) (annualIncome c).

Definition problem_if (b : bool) (text : string) : list string := if b then [text] else [].

(** The six checks, each of which adds a problem, or else perhaps a condition. *)
Definition problems (c : UnderwritingContext) : list string :=
  let t := getLoanThresholds (uc_loanType c) in
  let score := cb_creditScore (uc_credit c) in
  let dti := cb_debtToIncomeRatio (uc_credit c) in
  let failed := dv_failedDocuments (uc_documents c) in
  (problem_if (less score (f64_of_Z (lt_minScore t)))
     ("Credit score " +:+ show score +:+ " is below the " +:+ pretty (lt_minScore t) +:+ " minimum for " +:+ uc_loanType c) ++
   problem_if (less (lt_maxDti t) dti)
     ("DTI of " +:+ percent 1 dti +:+ "% exceeds " +:+ percent 0 (lt_maxDti t) +:+ "% limit for " +:+ uc_loanType c) ++
   problem_if (match pd_employmentStatus (uc_income c) with UNEMPLOYED => true | _ => false end)
     "Borrower is currently unemployed" ++
   problem_if (less (lt_maxLti t) (lti c))
     ("Loan-to-income ratio of " +:+ toFixed 2 (lti c) +:+ "x exceeds " +:+ show (lt_maxLti t) +:+ "x guideline") ++
   problem_if (negb (dv_allDocumentsValid (uc_documents c)) && (1 <? length failed)%nat)
     ("Multiple missing documents: " +:+ String.concat ", " failed) ++
   problem_if (SFleb (f64_of_Z 2) (cb_derogatoryMarks (uc_credit c)))
     (show (cb_derogatoryMarks (uc_credit c)) +:+ " derogatory marks exceed acceptable threshold"))%list.

Definition conditions (c : UnderwritingContext) : list string :=
  let t := getLoanThresholds (uc_loanType c) in
  let score := cb_creditScore (uc_credit c) in
  let dti := cb_debtToIncomeRatio (uc_credit c) in
  let failed := dv_failedDocuments (uc_documents c) in
  let marks := cb_derogatoryMarks (uc_credit c) in
  (problem_if (negb (less score (f64_of_Z (lt_minScore t))) && less score (f64_of_Z 700))
     "Provide letter of explanation for credit score below 700" ++
   problem_if (negb (less (lt_maxDti t) dti) && less (decimal 43 2) dti)
     ("Document compensating factors for DTI of " +:+ percent 1 dti +:+ "% exceeding 43%") ++
   problem_if (match pd_employmentStatus (uc_income c) with SELF_EMPLOYED => true | _ => false end)
     "Provide 2 years CPA-prepared profit & loss statements" ++
   problem_if (negb (dv_allDocumentsValid (uc_documents c)) && negb (1 <? length failed)%nat)
     ("Resubmit missing document(s): " +:+ String.concat ", " failed) ++
   problem_if (negb (SFleb (f64_of_Z 2) marks) && SFeqb marks (f64_of_Z 1))
     "Provide written explanation for derogatory credit mark")%list.

Definition count (l : list string) : spec_float := f64_of_Z (Z.of_nat (length l)).

Definition denied_confidence (problems : list string) : spec_float :=
  math_max (decimal 72 2) (math_min (decimal 96 2) (f64_sub (decimal 96 2) (f64_mul (count problems) (decimal 8 2)))).
Definition conditional_confidence (conditions : list string) : spec_float :=
  math_max (decimal 6 1) (math_min (decimal 82 2) (f64_sub (decimal 82 2) (f64_mul (count conditions) (decimal 6 2)))).
Definition approved_confidence (c : UnderwritingContext) : spec_float :=
  let score := cb_creditScore (uc_credit c) in
  let dti := cb_debtToIncomeRatio (uc_credit c) in
  math_min (decimal 99 2)
    (f64_add (f64_add (f64_add (decimal 78 2) (f64_div (f64_sub score (f64_of_Z 700)) (f64_of_Z 1000)))
                (f64_mul (f64_sub (decimal 43 2) dti) (decimal 5 1)))
       (if dv_allDocumentsValid (uc_documents c) then decimal 5 2 else f64_of_Z 0)).

(** [s.toLowerCase().replace('_', ' ')]: the first underscore. *)
Fixpoint first_underscore (s : string) : string :=
  match s with
  | String c s' => if Ascii.eqb c "_" then String " " s' else String c (first_underscore s')
  | EmptyString => EmptyString
  end.

Definition RulesUnderwriter_evaluate (c : UnderwritingContext) : UnderwritingModelResponse :=
  let score := show (cb_creditScore (uc_credit c)) in
  let dti := percent 1 (cb_debtToIncomeRatio (uc_credit c)) in
  match problems c, conditions c with
  | (_ :: _) as ps, _ =>
      {| um_decision := DENIED; um_confidence := denied_confidence ps;
         um_reasoning := "Application denied due to the following underwriting deficiencies: " +:+ String.concat "; " ps +:+
           ". Borrower may reapply after addressing these issues.";
         um_conditions := [] |}
  | [], (_ :: _) as cs =>
      {| um_decision := CONDITIONAL; um_confidence := conditional_confidence cs;
         um_reasoning := "Application is conditionally approved pending resolution of " +:+ pretty (length cs) +:+
           " item(s). Credit score is " +:+ score +:+ ", DTI is " +:+ dti +:+ "%, and income qualifies at $" +:+
           toLocaleString (annualIncome c) +:+ " annually.";
         um_conditions := cs |}
  | [], [] =>
      {| um_decision := APPROVED; um_confidence := approved_confidence c;
         um_reasoning := "Strong application: credit score " +:+ score +:+ " with " +:+
           Comms.toLowerCase (grade_text (cb_paymentHistory (uc_credit c))) +:+ " payment history, DTI of " +:+ dti +:+
           "% well within guidelines, verified " +:+
           first_underscore (Comms.toLowerCase (employment_text (pd_employmentStatus (uc_income c)))) +:+ " income of $" +:+
           toLocaleString (annualIncome c) +:+ "/year, and all documents validated. Loan-to-income ratio of " +:+
           toFixed 2 (lti c) +:+ "x is within program limits.";
         um_conditions := [] |}
  end.
End Rules.

(** ** The local model *)

Inductive Failure :=
| InternalServerError (message : string)
| TypeError
| SyntheticProviderError (f : SyntheticFailure).

(** No answer; a status that is no success; a body that is no JSON; JSON. *)
Inductive ModelReply := Unreachable | HttpStatus | NotJson | Payload (v : value).

Inductive Request := AskModel (c : UnderwritingContext).

(** [s.replace(/^```(?:json)?\s*/i, '')] *)
Fixpoint drop_space (s : string) : string :=
  match s with String c s' => if JS.is_space c then drop_space s' else s | EmptyString => s end.
Definition fence : string := "```".
Definition strip_prefix_fold (p s : string) : option string :=
  if String.eqb (Comms.toLowerCase (String.substring 0 (String.length p) s)) p
  then Some (String.substring (String.length p) (String.length s) s) else None.
Definition strip_open (s : string) : string :=
  match strip_prefix_fold fence s with
  | Some rest => drop_space (default rest (strip_prefix_fold "json" rest))
  | None => s
  end.

(** [s.replace(/\s*```$/i, '')] *)
Definition rev_text (s : string) : string := String.string_of_list_ascii (reverse (Encoding.chars s)).
Definition strip_close (s : string) : string :=
  let r := rev_text s in
  if String.prefix fence r then rev_text (drop_space (String.substring 3 (String.length r) r)) else s.

Section Model.
Context (json_parse : string -> option value).

Definition decision_of (v : value) : option UnderwritingDecision :=
  match v with
  | VString s =>
      if String.eqb s "APPROVED" then Some APPROVED else if String.eqb s "CONDITIONAL" then Some CONDITIONAL
      else if String.eqb s "DENIED" then Some DENIED else None
  | _ => None
  end.
Definition confidence_of (v : value) : option spec_float :=
  match v with
  | VNumber x => if isFinite x && negb (less x (f64_of_Z 0)) && negb (less (f64_of_Z 1) x) then Some x else None
  | _ => None
  end.
Definition text_of (v : value) : option string :=
  match v with VString s => if JS.nonblank s then Some (JS.trim s) else None | _ => None end.
Definition texts_of (v : value) : option (list string) :=
  match v with VArray vs => mapM text_of vs | _ => None end.
Definition is_conditional (d : UnderwritingDecision) : bool := match d with CONDITIONAL => true | _ => false end.
Definition nonempty (l : list string) : bool := match l with [] => false | _ => true end.

Definition or_error {A} (o : option A) (message : string) : result Failure A :=
  match o with Some a => Ok a | None => Err (InternalServerError message) end.

(** The text of the decision that is quoted in its message is left out. *)
Definition parseModelResponse (rawText : string) : result Failure UnderwritingModelResponse :=
  parsed ← or_error (json_parse (JS.trim (strip_close (strip_open rawText))))
             "AI underwriting engine returned an invalid response format";
  match parsed with
  | VObject o =>
      decision ← or_error (decision_of (Dsl.get o "decision")) "Invalid decision value from AI";
      confidence ← or_error (confidence_of (Dsl.get o "confidence")) "Invalid confidence value from AI";
      reasoning ← or_error (text_of (Dsl.get o "reasoning")) "Missing reasoning from AI";
      conditions ← or_error (texts_of (Dsl.get o "conditions")) "Missing conditions array from AI";
      if eqb (is_conditional decision) (nonempty conditions)
      then Ok {| um_decision := decision; um_confidence := confidence; um_reasoning := reasoning; um_conditions := conditions |}
      else Err (InternalServerError "Conditions do not match the AI underwriting decision")
  | _ => Err (InternalServerError "AI underwriting engine returned an invalid response format")
  end.

(** [payload.message?.content] *)
Definition content_of (payload : value) : result Failure string :=
  match payload with
  | VNull | VUndefined => Err TypeError
  | VObject o =>
      match Dsl.get o "message" with
      | VObject m => match Dsl.get m "content" with
                     | VString s => Ok s
                     | _ => Err (InternalServerError "Local AI provider returned no message content")
                     end
      | _ => Err (InternalServerError "Local AI provider returned no message content")
      end
  | _ => Err (InternalServerError "Local AI provider returned no message content")
  end.

Definition answer_of (reply : ModelReply) : result Failure UnderwritingModelResponse :=
  match reply with
  | Unreachable => Err (InternalServerError "Local AI provider is unavailable; start Ollama or use DECISION_PROVIDER=rules")
  | HttpStatus => Err (InternalServerError "Local AI provider returned an error response")
  | NotJson => Err (InternalServerError "Local AI provider returned invalid JSON")
  | Payload payload => content ← content_of payload; parseModelResponse content
  end.

(** ** The service *)

Context (show toLocaleString : spec_float -> string).

Inductive DecisionProvider := Rules | Ollama.

Record EvaluateLoanInput := { el_borrowerId : string; el_requestedAmount : spec_float; el_loanType : string }.

Record AgentResult := {
  ar_decision : UnderwritingDecision; ar_confidence : spec_float; ar_reasoning : string; ar_conditions : list string;
  ar_incomeVerified : bool; ar_creditScore : spec_float; ar_documentsValid : bool; ar_context : UnderwritingContext }.

(** The row, with the numbers its columns hold: the amount in hundredths, the
    confidence in thousandths. *)
Record LoanApplication := {
  la_id : string; la_borrowerId : string; la_requestedAmount : Z; la_loanType : string; la_decision : UnderwritingDecision;
  la_confidence : Z; la_reasoning : string; la_incomeVerified : bool; la_documentsValid : bool;
  la_conditions : list string; la_context : UnderwritingContext; la_createdAt : Z }.

Record State := { st_applications : gmap string LoanApplication; st_now : Z }.

Notation prog := (Prog State Failure Request ModelReply).

Definition pure {A} (r : result Failure A) : prog A := match r with Ok a => mret a | Err e => fail e end.

Definition synthetic {A} (r : result SyntheticFailure A) : result Failure A :=
  match r with Ok a => Ok a | Err e => Err (SyntheticProviderError e) end.

Definition contextOf (input : EvaluateLoanInput) : result Failure UnderwritingContext :=
  income ← synthetic (getIncomeData (el_borrowerId input));
  credit ← synthetic (getCreditData (el_borrowerId input));
  documents ← synthetic (verifyDocuments (el_borrowerId input));
  mret {| uc_borrowerId := el_borrowerId input; uc_requestedAmount := el_requestedAmount input; uc_loanType := el_loanType input;
          uc_income := income; uc_credit := credit; uc_documents := documents |}.

Definition assemble (c : UnderwritingContext) (r : UnderwritingModelResponse) : AgentResult :=
  {| ar_decision := um_decision r;
     ar_confidence := math_min (f64_of_Z 1) (math_max (f64_of_Z 0) (um_confidence r));
     ar_reasoning := um_reasoning r; ar_conditions := um_conditions r;
     ar_incomeVerified := negb (match pd_employmentStatus (uc_income c) with UNEMPLOYED => true | _ => false end) &&
                          less (f64_of_Z 60) (pd_incomeStability (uc_income c));
     ar_creditScore := cb_creditScore (uc_credit c); ar_documentsValid := dv_allDocumentsValid (uc_documents c);
     ar_context := c |}.

Definition runUnderwritingAgent (provider : DecisionProvider) (input : EvaluateLoanInput) : prog AgentResult :=
  c ← pure (contextOf input);
  decision ← match provider with
             | Rules => mret (RulesUnderwriter_evaluate show toLocaleString c)
             | Ollama => reply ← call (AskModel c); pure (answer_of reply)
             end;
  mret (assemble c decision).

(** A number as the database rounds it to [scale] places, when it fits the
    precision of its column. *)
Context (numeric : Z -> Z -> spec_float -> option Z).

Record LoanEvaluationResult := { lr_applicationId : string; lr_agentResult : AgentResult; lr_createdAt : Z }.

Definition save (id : string) (input : EvaluateLoanInput) (r : AgentResult) : M State Failure LoanApplication :=
  now ← gets st_now;
  let row := amount ← numeric 14 2 (el_requestedAmount input);
             confidence ← numeric 4 3 (ar_confidence r);
             if (String.length (el_borrowerId input) <=? 100)%nat
             then Some {| la_id := id; la_borrowerId := el_borrowerId input; la_requestedAmount := amount;
                          la_loanType := el_loanType input; la_decision := ar_decision r; la_confidence := confidence;
                          la_reasoning := ar_reasoning r; la_incomeVerified := ar_incomeVerified r;
                          la_documentsValid := ar_documentsValid r; la_conditions := ar_conditions r;
                          la_context := ar_context r; la_createdAt := now |}
             else None in
  row ← or_throw row (InternalServerError "Failed to save loan application");
  _ ← modify (fun s => {| st_applications := <[id := row]> (st_applications s); st_now := st_now s |});
  mret row.

Definition evaluateLoan (provider : DecisionProvider) (applicationId : string) (input : EvaluateLoanInput) : prog LoanEvaluationResult :=
  r ← runUnderwritingAgent provider input;
  saved ← atomically (save applicationId input r);
  mret {| lr_applicationId := applicationId; lr_agentResult := r; lr_createdAt := la_createdAt saved |}.
End Model.
End Underwriter.
