(* ===== verification/UnderwriterTheorems.v ===== *)
(** * What the one-shot underwriting path promises

    The rules decide as their thresholds say, for any numbers; the model's
    answer is accepted exactly when it is well formed; and whoever the borrower
    is and whatever the model answers, an evaluation that returns has a
    confidence between 0 and 1, conditions exactly when it is conditional, and
    one row that records it. *)

From Stdlib Require Import Ascii SpecFloat.
From stdpp Require Import gmap strings list pretty.
From S2P Require Import Prelude Encoding PolicyDsl Concurrency Communications ProviderTables Consent ProviderPlatform ProviderDispatch Simulators SimulatorTheorems Underwriter.

Module UnderwriterTheorems.
Import Dsl Simulators SimulatorTheorems Underwriter Threads.
Open Scope Z_scope.

(** ** The rules *)

(** What each threshold demands. *)
Definition deficient (c : UnderwritingContext) : Prop :=
  let t := getLoanThresholds (uc_loanType c) in
  less (cb_creditScore (uc_credit c)) (f64_of_Z (lt_minScore t)) = true \/
  less (lt_maxDti t) (cb_debtToIncomeRatio (uc_credit c)) = true \/
  pd_employmentStatus (uc_income c) = UNEMPLOYED \/
  less (lt_maxLti t) (lti c) = true \/
  (dv_allDocumentsValid (uc_documents c) = false /\ (1 < length (dv_failedDocuments (uc_documents c)))%nat) \/
  SFleb (f64_of_Z 2) (cb_derogatoryMarks (uc_credit c)) = true.

Definition questionable (c : UnderwritingContext) : Prop :=
  less (cb_creditScore (uc_credit c)) (f64_of_Z 700) = true \/
  less (decimal 43 2) (cb_debtToIncomeRatio (uc_credit c)) = true \/
  pd_employmentStatus (uc_income c) = SELF_EMPLOYED \/
  dv_allDocumentsValid (uc_documents c) = false \/
  SFeqb (cb_derogatoryMarks (uc_credit c)) (f64_of_Z 1) = true.

#[export] Instance EmploymentStatus_eq_dec : EqDecision EmploymentStatus.
Proof. solve_decision. Defined.
#[export] Instance deficient_dec c : Decision (deficient c).
Proof. unfold deficient. apply _. Defined.
#[export] Instance questionable_dec c : Decision (questionable c).
Proof. unfold questionable. apply _. Defined.

Lemma problem_if_nil b t : problem_if b t = [] <-> b = false.
Proof. by destruct b. Qed.

Lemma problem_if_length b t : (length (problem_if b t) <= 1)%nat.
Proof. destruct b; cbn; lia. Qed.

(** The conditions are known: a list of texts is empty when no alternative holds. *)
Ltac by_flags :=
  cbn [negb andb]; split; try (intros; destruct_and?; done);
  first [intros H; split_and!; first [done | exfalso; apply H; tauto] | intros _ H; by destruct_or?; destruct_and?].

Section Rules.
Context (show toLocaleString : spec_float -> string).

Lemma no_problems c : problems show c = [] <-> ~ deficient c.
Proof.
  unfold problems, deficient. cbn zeta. rewrite !app_nil, !problem_if_nil, <- Nat.ltb_lt.
  destruct (less _ _), (less _ _), (pd_employmentStatus _), (less _ _), (dv_allDocumentsValid _), (1 <? _)%nat, (SFleb _ _);
    by_flags.
Qed.

Lemma no_conditions c : ~ deficient c -> conditions c = [] <-> ~ questionable c.
Proof.
  unfold conditions, deficient, questionable. cbn zeta. rewrite !app_nil, !problem_if_nil, <- Nat.ltb_lt. intros Hd.
  destruct (less (cb_creditScore _) (f64_of_Z (lt_minScore _))); [by destruct Hd; left|].
  destruct (less (lt_maxDti _) _); [by destruct Hd; right; left|].
  destruct (SFleb (f64_of_Z 2) _); [by destruct Hd; do 5 right|].
  destruct (dv_allDocumentsValid _) eqn:Ea.
  - clear Hd. destruct (less _ _), (less _ _), (pd_employmentStatus _), (SFeqb _ _); by_flags.
  - destruct (1 <? _)%nat; [by destruct Hd; do 4 right; left|]. clear Hd. by_flags.
Qed.

Lemma text_nonempty a b : a <> "" -> a +:+ b <> "".
Proof. by destruct a. Qed.

Lemma problems_length c : (length (problems show c) <= 6)%nat.
Proof.
  unfold problems. cbn zeta. rewrite !length_app. repeat match goal with |- context [length (problem_if ?b ?t)] =>
    let n := fresh "n" in pose proof (problem_if_length b t); set (n := length (problem_if b t)) in * end. lia.
Qed.
Lemma conditions_length c : (length (conditions c) <= 5)%nat.
Proof.
  unfold conditions. cbn zeta. rewrite !length_app. repeat match goal with |- context [length (problem_if ?b ?t)] =>
    let n := fresh "n" in pose proof (problem_if_length b t); set (n := length (problem_if b t)) in * end. lia.
Qed.

Definition between_decimals (lo hi x : spec_float) : Prop := SFleb lo x = true /\ SFleb x hi = true.

Lemma denied_range ps : (length ps <= 6)%nat -> between_decimals (decimal 72 2) (decimal 96 2) (denied_confidence ps).
Proof.
  unfold denied_confidence, count. intros H. destruct (length ps) as [|[|[|[|[|[|[|n]]]]]]]; [split; vm_compute; reflexivity..|lia].
Qed.
Lemma conditional_range cs : (length cs <= 5)%nat -> between_decimals (decimal 6 1) (decimal 82 2) (conditional_confidence cs).
Proof.
  unfold conditional_confidence, count. intros H. destruct (length cs) as [|[|[|[|[|[|n]]]]]]; [split; vm_compute; reflexivity..|lia].
Qed.

Lemma SFltb_SFleb x y : SFltb x y = true -> SFleb x y = true.
Proof. unfold SFltb, SFleb. by destruct (SFcompare x y) as [[]|]. Qed.
Lemma at_most x : is_nan (math_min (decimal 99 2) x) = true \/ SFleb (math_min (decimal 99 2) x) (decimal 99 2) = true.
Proof.
  unfold math_min. destruct (is_nan (decimal 99 2) || is_nan x); [by left|right].
  destruct (SFltb x (decimal 99 2)) eqn:E; [by apply SFltb_SFleb|]. vm_compute. reflexivity.
Qed.

Lemma rule_outcome c :
  let r := RulesUnderwriter_evaluate show toLocaleString c in
  (um_decision r = DENIED <-> deficient c) /\
  (um_decision r = CONDITIONAL <-> ~ deficient c /\ questionable c) /\
  (um_decision r = APPROVED <-> ~ deficient c /\ ~ questionable c) /\
  (um_conditions r <> [] <-> um_decision r = CONDITIONAL) /\
  um_reasoning r <> "" /\
  (um_decision r = DENIED -> SFleb (decimal 72 2) (um_confidence r) = true /\ SFleb (um_confidence r) (decimal 96 2) = true) /\
  (um_decision r = CONDITIONAL -> SFleb (decimal 6 1) (um_confidence r) = true /\ SFleb (um_confidence r) (decimal 82 2) = true) /\
  (um_decision r = APPROVED -> is_nan (um_confidence r) = true \/ SFleb (um_confidence r) (decimal 99 2) = true).
Proof.
  intros r. pose proof (no_problems c) as Hp. pose proof (no_conditions c) as Hc. subst r.
  unfold RulesUnderwriter_evaluate. pose proof (problems_length c) as Lp. pose proof (conditions_length c) as Lc.
  destruct (problems show c) as [|p ps].
  - assert (~ deficient c) as Hd by (by apply Hp). specialize (Hc Hd). destruct (conditions c) as [|q qs]; cbn.
    + assert (~ questionable c) as Hq by (by apply Hc). split_and!; try done; try (split; intros; first [discriminate | done | tauto]). intros _. apply at_most.
    + assert (questionable c) as Hq by (apply dec_stable; intros Hn; by apply Hc in Hn).
      split_and!; try done; try (split; intros; first [discriminate | done | tauto]). intros _. by apply conditional_range.
  - assert (deficient c) as Hd by (apply dec_stable; intros Hn; by apply Hp in Hn). cbn.
    split_and!; try done; try (split; intros; first [discriminate | done | tauto]). intros _. by apply denied_range.
Qed.

(** For any numbers, a score that is not one included: the rules deny exactly
    an application with a deficiency, ask for conditions exactly when there is
    none but something to explain, and approve the others; conditions are
    listed exactly with a conditional decision; there is always a reason; and
    the confidence of a denial lies between 0.72 and 0.96, of a conditional
    decision between 0.6 and 0.82, and of an approval is at most 0.99. *)
Theorem rules_decide c :
  let r := RulesUnderwriter_evaluate show toLocaleString c in
  (um_decision r = DENIED <-> deficient c) /\
  (um_decision r = CONDITIONAL <-> ~ deficient c /\ questionable c) /\
  (um_decision r = APPROVED <-> ~ deficient c /\ ~ questionable c) /\
  (um_conditions r <> [] <-> um_decision r = CONDITIONAL) /\
  um_reasoning r <> "" /\
  (um_decision r = DENIED -> SFleb (decimal 72 2) (um_confidence r) = true /\ SFleb (um_confidence r) (decimal 96 2) = true) /\
  (um_decision r = CONDITIONAL -> SFleb (decimal 6 1) (um_confidence r) = true /\ SFleb (um_confidence r) (decimal 82 2) = true) /\
  (um_decision r = APPROVED -> is_nan (um_confidence r) = true \/ SFleb (um_confidence r) (decimal 99 2) = true).
Proof. apply rule_outcome. Qed.
End Rules.

(** ** The model *)

(** What the platform asks of an answer, whoever gave it. *)
Record wellformed (r : UnderwritingModelResponse) : Prop := {
  wf_conditions : um_conditions r <> [] <-> um_decision r = CONDITIONAL;
  wf_reasoning : um_reasoning r <> "" }.

Section Model.
Context (json_parse : string -> option value).

Lemma or_error_Ok {A} (o : option A) m a : or_error o m = Ok a <-> o = Some a.
Proof. destruct o; cbn; naive_solver. Qed.

Lemma text_of_nonempty v s : text_of v = Some s -> s <> "".
Proof.
  unfold text_of. destruct v; try done. destruct (JS.nonblank s0) eqn:E; [|done]. intros [= <-] Hs.
  unfold JS.nonblank in E. rewrite Hs in E. done.
Qed.

Lemma is_conditional_spec d : is_conditional d = true <-> d = CONDITIONAL.
Proof. by destruct d. Qed.
Lemma nonempty_spec l : nonempty l = true <-> l <> [].
Proof. by destruct l. Qed.

(** An answer is accepted exactly when it is an object whose four fields have
    the required form. *)
Lemma parse_spec rawText r : parseModelResponse json_parse rawText = Ok r <-> exists o,
  json_parse (JS.trim (strip_close (strip_open rawText))) = Some (VObject o) /\
  decision_of (Dsl.get o "decision") = Some (um_decision r) /\
  confidence_of (Dsl.get o "confidence") = Some (um_confidence r) /\
  text_of (Dsl.get o "reasoning") = Some (um_reasoning r) /\
  texts_of (Dsl.get o "conditions") = Some (um_conditions r) /\
  (um_conditions r <> [] <-> um_decision r = CONDITIONAL).
Proof.
  unfold parseModelResponse. rewrite rbind_Ok. setoid_rewrite or_error_Ok. split.
  - intros (v & Hv & H). destruct v as [| | | | | |o]; try done. exists o. split; [done|].
    apply rbind_Ok in H as (d & Hd%or_error_Ok & H). apply rbind_Ok in H as (x & Hx%or_error_Ok & H).
    apply rbind_Ok in H as (t & Ht%or_error_Ok & H). apply rbind_Ok in H as (cs & Hcs%or_error_Ok & H).
    destruct (eqb _ _) eqn:E; [|done]. injection H as <-. cbn. split_and!; try done.
    rewrite <- is_conditional_spec, <- nonempty_spec. apply eqb_prop in E. by rewrite E.
  - intros (o & Hv & Hd & Hx & Ht & Hcs & Hiff). exists (VObject o). split; [done|].
    rewrite Hd, Hx, Ht, Hcs. cbn. rewrite <- is_conditional_spec, <- nonempty_spec in Hiff.
    destruct (is_conditional _), (nonempty _); cbn; try (by destruct r);
      [discriminate (proj2 Hiff eq_refl)|discriminate (proj1 Hiff eq_refl)].
Qed.

Lemma confidence_bounds v x : confidence_of v = Some x ->
  is_nan x = false /\ less x (f64_of_Z 0) = false /\ less (f64_of_Z 1) x = false.
Proof.
  unfold confidence_of. destruct v; try done. destruct (_ && _) eqn:E; [|done]. intros [= <-].
  apply andb_true_iff in E as [[Hf H0%negb_true_iff]%andb_true_iff H1%negb_true_iff]. split_and!; [|done|done]. by destruct x0.
Qed.

Lemma answer_wellformed reply r : answer_of json_parse reply = Ok r ->
  wellformed r /\ is_nan (um_confidence r) = false.
Proof.
  destruct reply as [| | |payload]; cbn; try done. intros (content & _ & (o & _ & _ & Hx & Ht & _ & Hiff)%parse_spec)%rbind_Ok.
  split; [|by apply confidence_bounds in Hx as [? _]]. split; [done|]. by eapply text_of_nonempty.
Qed.

(** ** The evaluation of an application *)

Context (show toLocaleString : spec_float -> string).
Context (numeric : Z -> Z -> spec_float -> option Z).

Definition unit_interval (x : spec_float) : Prop := SFleb (f64_of_Z 0) x = true /\ SFleb x (f64_of_Z 1) = true.

Lemma clamp_bounds x : is_nan x = false -> unit_interval (math_min (f64_of_Z 1) (math_max (f64_of_Z 0) x)).
Proof.
  intros Hn. unfold unit_interval, math_min, math_max. rewrite Hn. change (is_nan (f64_of_Z 0)) with false.
  change (is_nan (f64_of_Z 1)) with false. cbn [orb]. destruct (SFltb (f64_of_Z 0) x) eqn:E0.
  - rewrite Hn. destruct (SFltb x (f64_of_Z 1)) eqn:E1.
    + split; by apply SFltb_SFleb.
    + split; vm_compute; reflexivity.
  - change (is_nan (f64_of_Z 0)) with false. cbn iota. change (SFltb (f64_of_Z 0) (f64_of_Z 1)) with true. split; vm_compute; reflexivity.
Qed.

(** The context of an application comes from the simulators. *)
Lemma context_spec input c : contextOf input = Ok c ->
  uc_credit c = credit_of (seed_of (credit_seed (el_borrowerId input))).
Proof.
  unfold contextOf, getCreditData. intros H. apply rbind_Ok in H as (i & _ & H). apply rbind_Ok in H as (cr & Hcr & H).
  apply rbind_Ok in H as (d & _ & [= <-]). cbn.
  destruct (maybeThrowSyntheticProviderFailure _); cbn in Hcr; [|done]. by injection Hcr as <-.
Qed.

(** No simulated borrower has both a score of 700 and no derogatory mark. *)
Lemma never_clean input c : contextOf input = Ok c -> deficient c \/ questionable c.
Proof.
  intros Hc%context_spec. destruct (seeds_bounded (el_borrowerId input)) as (_ & Hs & _).
  pose proof (every_seed_spec _ _ every_credit Hs) as E. cbv beta zeta in E. rewrite <- Hc in E.
  apply andb_true_iff in E as [_ E]. unfold deficient, questionable. cbn zeta. rewrite !orb_true_iff in E. unfold less. tauto.
Qed.

(** Everything an evaluation may return. *)
Record decided (provider : DecisionProvider) (r : AgentResult) : Prop := {
  de_conditions : ar_conditions r <> [] <-> ar_decision r = CONDITIONAL;
  de_reasoning : ar_reasoning r <> "";
  de_confidence : unit_interval (ar_confidence r);
  de_rules : provider = Rules -> ar_decision r <> APPROVED }.

Lemma assembled c r provider :
  wellformed r -> is_nan (um_confidence r) = false -> (provider = Rules -> um_decision r <> APPROVED) ->
  decided provider (assemble c r).
Proof. intros [H1 H2] Hn Ha. split; cbn; [done|done|by apply clamp_bounds|done]. Qed.

Lemma not_nan lo hi x : SFleb lo x = true /\ SFleb x hi = true -> is_nan x = false.
Proof. intros [H _]. destruct x; try done. by destruct lo. Qed.

Lemma rules_assembled input c : contextOf input = Ok c ->
  decided Rules (assemble c (RulesUnderwriter_evaluate show toLocaleString c)).
Proof.
  intros Hc. destruct (rule_outcome show toLocaleString c) as (H1 & H2 & H3 & H4 & H5 & H6 & H7 & _).
  set (r := RulesUnderwriter_evaluate show toLocaleString c) in *.
  assert (um_decision r <> APPROVED) as Hn.
  { intros [Hd Hq]%H3. by destruct (never_clean input c Hc). }
  apply assembled; [by split| |done]. destruct (um_decision r) eqn:E; [done|by eapply not_nan, H7|by eapply not_nan, H6].
Qed.

Lemma run_decided answer provider input s r s' cs :
  exec answer (runUnderwritingAgent json_parse show toLocaleString provider input) s = (Ok r, s', cs) ->
  s' = s /\ decided provider r.
Proof.
  unfold runUnderwritingAgent. destruct (contextOf input) as [c|e] eqn:Hc; [|done]. cbn [pure].
  destruct provider.
  - intros [= <- <- <-]. split; [done|]. by eapply rules_assembled.
  - cbn. destruct (answer_of json_parse (answer (AskModel c))) as [m|e] eqn:Hm; cbn; [|done].
    intros [= <- <- <-]. split; [done|]. apply answer_wellformed in Hm as [Hw Hn]. by apply assembled.
Qed.

Lemma run_fails answer provider input s e s' cs :
  exec answer (runUnderwritingAgent json_parse show toLocaleString provider input) s = (Err e, s', cs) -> s' = s.
Proof.
  unfold runUnderwritingAgent. destruct (contextOf input) as [c|e']; [|by intros [= _ <- _]]. cbn [pure].
  destruct provider; [done|]. cbn. destruct (answer_of _ _); cbn; [done|]. by intros [= _ <- _].
Qed.

Lemma save_spec id input r s row s' : save numeric id input r s = (Ok row, s') ->
  st_applications s' = <[id := row]> (st_applications s) /\ la_id row = id /\ la_decision row = ar_decision r /\
  la_conditions row = ar_conditions r /\ la_borrowerId row = el_borrowerId input.
Proof.
  unfold save. cbn. destruct (numeric 14 2 _) as [amount|]; cbn; [|done]. destruct (numeric 4 3 _) as [conf|]; cbn; [|done].
  destruct (_ <=? 100)%nat; cbn; [|done]. by intros [= <- <-].
Qed.
Lemma save_fails id input r s e s' : save numeric id input r s = (Err e, s') -> s' = s.
Proof.
  unfold save. cbn. destruct (numeric 14 2 _) as [amount|]; cbn; [|by intros [= _ <-]].
  destruct (numeric 4 3 _) as [conf|]; cbn; [|by intros [= _ <-]].
  destruct (_ <=? 100)%nat; cbn; [done|by intros [= _ <-]].
Qed.

(** C34: Whatever the model answers, however the database rounds and the runtime
    prints numbers, and whoever the borrower is: an evaluation that returns has
    conditions exactly when it is conditional, a reason, and a confidence
    between 0 and 1; under the fixed rules it approves no simulated borrower;
    it stores one row under the application's id with that decision, and an
    evaluation that fails stores nothing. *)
Theorem evaluation_is_bounded answer provider id input s :
  let run := exec answer (evaluateLoan json_parse show toLocaleString numeric provider id input) s in
  match run with
  | (Ok r, s', _) =>
      lr_applicationId r = id /\ decided provider (lr_agentResult r) /\
      exists row, st_applications s' = <[id := row]> (st_applications s) /\ la_id row = id /\
        la_decision row = ar_decision (lr_agentResult r) /\ la_conditions row = ar_conditions (lr_agentResult r) /\
        la_borrowerId row = el_borrowerId input /\ la_createdAt row = lr_createdAt r
  | (Err _, s', _) => s' = s
  end.
Proof.
  cbn zeta. unfold evaluateLoan, mbind, Prog_bind. rewrite exec_bind.
  destruct (exec answer (runUnderwritingAgent json_parse show toLocaleString provider input) s) as [[[r|e] s1] cs] eqn:E;
    [|by apply run_fails in E].
  apply run_decided in E as [-> Hd]. unfold mbind, Prog_bind. rewrite exec_bind. rewrite exec_atomically.
  destruct (save numeric id input r s) as [[row|e] s2] eqn:Es; cbn.
  - destruct (save_spec _ _ _ _ _ _ Es) as (Hs & H1 & H2 & H3 & H4). split_and!; [done|done|]. exists row. by split_and!.
  - by apply save_fails in Es.
Qed.
End Model.
End UnderwriterTheorems.
