(* ===== verification/PlaidSandbox.v ===== *)
(** * The authorised sandbox of the income provider

    integrations/plaid/plaid-sandbox.service.ts: four requests to the
    provider's test environment, and the mapping of its bank income to the
    platform's income finding.  A response is the fields the code reads of it;
    [new Date(text)] and today's date are parameters. *)

From Stdlib Require Import Ascii SpecFloat.
From stdpp Require Import gmap strings list.
From S2P Require Import Prelude Encoding PolicyDsl Concurrency ProviderTables Consent ProviderPlatform ProviderDispatch Simulators Underwriter.

Module PlaidSandbox.
Import Dsl Tables Simulators Threads.
Import Underwriter(math_max).
Open Scope Z_scope.

(** ** Data *)

Record HistoricalMonth := { hm_totalAmounts : option (list spec_float) }.

Record BankIncomeSource := {
  bs_incomeCategory : string; bs_payFrequency : string; bs_totalAmount : spec_float;
  bs_startDate : string; bs_endDate : string; bs_historicalSummary : list HistoricalMonth }.

(** The fields of a response that the code reads. *)
Record PlaidResponse := {
  pr_userId : option string; pr_publicToken : option string; pr_bankIncome : option (list (list (list BankIncomeSource))) }.

Inductive Reply := NoAnswer | HttpError (status : Z) | NotJson | Answered (r : PlaidResponse).

Inductive Request :=
| UserCreate (clientUserId : string)
| PublicTokenCreate (userId : option string)
| PublicTokenExchange (publicToken : option string)
| BankIncomeGet (userId : option string).

Inductive Failure := MissingCredentials | FetchFailed | PlaidSandboxApiError (status : Z) | SyntaxError | TypeError.

(** ** Numbers *)

(** [Math.round] of any number, as the number it returns. *)
Definition math_round (x : spec_float) : spec_float :=
  match x with
  | S754_finite s m e =>
      let v := if s : bool then Zneg m else Zpos m in
      f64_of_Z (if 0 <=? e then v * 2 ^ e else (2 * v + 2 ^ (- e)) / 2 ^ (1 - e))
  | _ => x
  end.
Definition sqrt : spec_float -> spec_float := SFsqrt 53 1024.
Definition sum (l : list spec_float) : spec_float := foldl f64_add (f64_of_Z 0) l.
Definition number_of (l : list spec_float) : spec_float := f64_of_Z (Z.of_nat (length l)).

Definition of_time (t : option Z) : spec_float := match t with Some ms => f64_of_Z ms | None => S754_nan end.

(** ** The mapping *)

Definition REGULAR_PAY_FREQUENCIES : list string := ["WEEKLY"; "BIWEEKLY"; "SEMI_MONTHLY"; "MONTHLY"].

Section Mapping.
(** [new Date(text).getTime()], and today's date as [YYYY-MM-DD]. *)
Context (date_parse : string -> option Z) (today : string).

Definition months_of_days (days : spec_float) : spec_float :=
  math_max (f64_of_Z 1) (f64_div days (decimal 3044 2)).
Definition monthsBetween (startDate endDate : string) : spec_float :=
  months_of_days
    (math_max (f64_of_Z 1)
       (f64_div (f64_sub (of_time (date_parse endDate)) (of_time (date_parse startDate))) (f64_of_Z (1000 * 60 * 60 * 24)))).

Definition first_amount (m : HistoricalMonth) : spec_float :=
  match hm_totalAmounts m with Some (a :: _) => a | _ => f64_of_Z 0 end.

(** [100 - cv * 100] rounded, and no less than 0. *)
Definition score_of (coefficientOfVariation : spec_float) : spec_float :=
  math_max (f64_of_Z 0) (math_round (f64_sub (f64_of_Z 100) (times coefficientOfVariation 100))).

Definition computeStabilityScore (historicalSummary : list HistoricalMonth) : spec_float :=
  let monthlyTotals := List.filter (fun a => SFltb (f64_of_Z 0) a) (map first_amount historicalSummary) in
  match monthlyTotals with
  | [] => f64_of_Z 0
  | [_] => f64_of_Z 100
  | _ =>
      let mean := f64_div (sum monthlyTotals) (number_of monthlyTotals) in
      let square v := f64_mul (f64_sub v mean) (f64_sub v mean) in
      let variance := f64_div (sum (map square monthlyTotals)) (number_of monthlyTotals) in
      score_of (f64_div (sqrt variance) mean)
  end.

Definition find_source (category : string) (sources : list BankIncomeSource) : option BankIncomeSource :=
  find (fun s => String.eqb (bs_incomeCategory s) category) sources.

(** [sources.map(...).sort()[0]] *)
Fixpoint earliest (l : list string) : option string :=
  match l with
  | [] => None
  | x :: l => match earliest l with Some y => Some (if String.leb x y then x else y) | None => Some x end
  end.

Definition mapBankIncomeToPlaidIncomeData (sources : list BankIncomeSource) : PlaidIncomeData :=
  let salarySource := find_source "SALARY" sources in
  let gigSource := find_source "GIG_ECONOMY" sources in
  let primary := match salarySource with Some s => Some s | None => gigSource end in
  {| pd_monthlyIncome :=
       match primary with
       | Some p => f64_div (math_round (times (f64_div (bs_totalAmount p) (monthsBetween (bs_startDate p) (bs_endDate p))) 100)) (f64_of_Z 100)
       | None => f64_of_Z 0
       end;
     pd_employmentStatus :=
       match salarySource, gigSource with
       | Some s, g =>
           if includes REGULAR_PAY_FREQUENCIES (bs_payFrequency s) then FULL_TIME
           else match g with Some _ => SELF_EMPLOYED | None => UNEMPLOYED end
       | None, Some _ => SELF_EMPLOYED
       | None, None => UNEMPLOYED
       end;
     pd_bankAccountAge :=
       match earliest (map bs_startDate sources) with
       | Some start => if JS.truthy start then monthsBetween start today else f64_of_Z 0
       | None => f64_of_Z 0
       end;
     pd_incomeStability :=
       match primary with Some p => computeStabilityScore (bs_historicalSummary p) | None => f64_of_Z 0 end |}.

(** ** The requests *)

(** The service writes to no table. *)
Notation prog := (Prog unit Failure Request Reply).

Definition post (credentials : bool) (request : Request) : prog PlaidResponse :=
  if negb credentials then fail MissingCredentials else
  reply ← call request;
  match reply with
  | NoAnswer => fail FetchFailed
  | HttpError status => fail (PlaidSandboxApiError status)
  | NotJson => fail SyntaxError
  | Answered r => mret r
  end.

(** [uuid] is the random suffix of the new user's id. *)
Definition getIncomeData (credentials : bool) (uuid borrowerId : string) : prog PlaidIncomeData :=
  user ← post credentials (UserCreate (borrowerId +:+ "-" +:+ uuid));
  token ← post credentials (PublicTokenCreate (pr_userId user));
  _ ← post credentials (PublicTokenExchange (pr_publicToken token));
  bankIncome ← post credentials (BankIncomeGet (pr_userId user));
  match pr_bankIncome bankIncome with
  | Some (income :: _) => mret (mapBankIncomeToPlaidIncomeData (concat income))
  | _ => fail TypeError
  end.
End Mapping.
End PlaidSandbox.
