(* ===== verification/SimulatorFindings.v ===== *)
(** * Where the providers' data departs from its description

    Facts of all seeds, and of the sandbox mapping on a concrete year of
    income, that comments of the code deny. *)

From Stdlib Require Import Ascii SpecFloat.
From stdpp Require Import gmap strings list.
From S2P Require Import Prelude Encoding PolicyDsl Concurrency ProviderTables Consent ProviderPlatform ProviderDispatch Simulators SimulatorTheorems Underwriter UnderwriterTheorems PlaidSandbox.

Module SimulatorFindings.
Import Dsl Tables Platform Dispatch Simulators SimulatorTheorems Underwriter UnderwriterTheorems.
Open Scope Z_scope.

(** ** Credit *)

(** The seeds with a given number of derogatory marks. *)
Definition seeds_with_marks (n : Z) : nat :=
  length (List.filter (fun k => floor (times (seed_of (Z.of_nat k)) 3) =? n) (List.seq 0 1000)).

(** The marks are uniform on 0, 1 and 2, and never 3. *)
Lemma derogatory_marks_are_uniform :
  (seeds_with_marks 0, seeds_with_marks 1, seeds_with_marks 2, seeds_with_marks 3) = (334, 333, 333, 0)%nat.
Proof. vm_compute. reflexivity. Qed.

(** A high score comes with a mark: the fixed rules approve no borrower of the
    simulators, whatever the amount and the program. *)
Lemma no_simulated_borrower_is_approved show toLocaleString input c :
  contextOf input = Ok c -> um_decision (RulesUnderwriter_evaluate show toLocaleString c) <> APPROVED.
Proof.
  intros Hc. destruct (rule_outcome show toLocaleString c) as (_ & _ & H & _). intros [Hd Hq]%H.
  by destruct (never_clean input c Hc).
Qed.

(** ** The sandbox *)

Import PlaidSandbox.

(** Whole days from 31 to 760 are never a whole number of months of 30.44 days. *)
Lemma whole_days_are_no_whole_months d :
  31 <= d <= 760 -> is_int (months_of_days (f64_of_Z d)) = false.
Proof.
  intros Hd. assert (forallb (fun k => negb (is_int (months_of_days (f64_of_Z (Z.of_nat k))))) (List.seq 31 730) = true) as H
    by (vm_compute; reflexivity).
  rewrite forallb_forall in H. rewrite <- (Z2Nat.id d) by lia. apply negb_true_iff, H, in_seq. lia.
Qed.

Definition year0 (text : string) : option Z := if String.eqb text "2026-01-01" then Some (365 * 86400000) else Some 0.
Definition salary0 : BankIncomeSource :=
  {| bs_incomeCategory := "SALARY"; bs_payFrequency := "BIWEEKLY"; bs_totalAmount := f64_of_Z 60000;
     bs_startDate := "2025-01-01"; bs_endDate := "2026-01-01";
     bs_historicalSummary := replicate 12 {| hm_totalAmounts := Some [f64_of_Z 5000] |} |}.
Definition finding0 : PlaidIncomeData := mapBankIncomeToPlaidIncomeData year0 "2026-01-01" [salary0].

(** A year of salary in the sandbox is a finding that the gate behind the
    adapter refuses, because the age of the account is a fraction of months;
    with the age rounded it passes. *)
Lemma sandbox_finding_is_refused now :
  0 <= now <= 5 * 60000 ->
  validateProviderFinding (fun _ => Some 0) schemas INCOME (income_value finding0) "2026-01-01" now = Err ProviderFindingContract /\
  pd_employmentStatus finding0 = FULL_TIME /\ pd_incomeStability finding0 = f64_of_Z 100 /\
  conforming INCOME (income_value {| pd_monthlyIncome := pd_monthlyIncome finding0;
    pd_employmentStatus := pd_employmentStatus finding0; pd_bankAccountAge := math_round (pd_bankAccountAge finding0);
    pd_incomeStability := pd_incomeStability finding0 |}) = true.
Proof.
  intros Hn. split.
  - unfold validateProviderFinding. rewrite (proj2 (Z.ltb_ge _ _)), (proj2 (Z.ltb_ge _ _)) by lia. cbn [orb].
    assert (schemas INCOME (income_value finding0) = None) as -> by (vm_compute; reflexivity). done.
  - vm_compute. done.
Qed.
End SimulatorFindings.
