(* ===== verification/AuditLog.v ===== *)
(** * The audit log

    audit/audit-event.service.ts over the table of migration
    1787172327597-AuditEvents.ts: [record], which never fails its caller, the
    bounded [list], and [listAll], which walks a tenant's history page by page.

    A timestamptz column keeps microseconds and a Date milliseconds: times of
    rows are microseconds here, and a cursor, which is made of a Date, is a
    number of milliseconds.  Each page is a transaction of its own; [env n] is
    what other requests add to the log before the n-th of them. *)

From Stdlib Require Import Ascii SpecFloat.
From stdpp Require Import gmap strings list sorting pretty.
From S2P Require Import Prelude PolicyDsl.

Module AuditLog.

Record AuditEvent := {
  au_id : string;
  au_tenantId : string;
  au_actorId : string;
  au_action : string;
  au_resourceType : string;
  au_resourceId : option string;
  au_correlationId : option string;
  au_reason : option string;
  au_metadata : option Dsl.value;
  au_createdAt : Z }.

Record RecordAuditEventInput := {
  in_tenantId : string;
  in_actorId : string;
  in_action : string;
  in_resourceType : string;
  in_resourceId : option string;
  in_correlationId : option string;
  in_reason : option string;
  in_metadata : option Dsl.value }.

Notation Log := (gmap string AuditEvent).

(** ** Writing *)

(** varchar(n) *)
Definition varchar (n : nat) (s : string) : bool := bool_decide (String.length s <= n)%nat.
Definition nullable {A} (p : A -> bool) (o : option A) : bool := match o with Some a => p a | None => true end.

Definition storable (i : RecordAuditEventInput) : bool :=
  varchar 200 (in_actorId i) && varchar 100 (in_action i) && varchar 100 (in_resourceType i) &&
  nullable (varchar 200) (in_resourceId i) && nullable (varchar 2000) (in_reason i).

Definition audit_row (id : string) (now : Z) (i : RecordAuditEventInput) : AuditEvent :=
  {| au_id := id; au_tenantId := in_tenantId i; au_actorId := in_actorId i; au_action := in_action i;
     au_resourceType := in_resourceType i; au_resourceId := in_resourceId i; au_correlationId := in_correlationId i;
     au_reason := in_reason i; au_metadata := in_metadata i; au_createdAt := now |}.

(** [reachable]: the database takes the transaction.  A row that is refused
    is logged and dropped. *)
Definition record (reachable : bool) (id : string) (now : Z) (i : RecordAuditEventInput) (log : Log) : Log :=
  if reachable && storable i && bool_decide (log !! id = None) then <[id := audit_row id now i]> log else log.

(** The trigger of the table. *)
Inductive Mutation := UPDATE_ROW (id : string) (row : AuditEvent) | DELETE_ROW (id : string).
Inductive Failure := AppendOnly (operation : string) | UndefinedCursor.
Definition mutate (m : Mutation) (log : Log) : result Failure Log :=
  match m with
  | UPDATE_ROW id _ => if bool_decide (log !! id = None) then Ok log else Err (AppendOnly "UPDATE")
  | DELETE_ROW id => if bool_decide (log !! id = None) then Ok log else Err (AppendOnly "DELETE")
  end.

(** ** Reading *)

(** ORDER BY createdAt DESC, id DESC *)
Definition newer (e e' : AuditEvent) : Prop :=
  au_createdAt e' < au_createdAt e \/ au_createdAt e' = au_createdAt e /\ (au_id e' ≤ au_id e)%string.
#[export] Instance newer_dec e e' : Decision (newer e e').
Proof. unfold newer. apply _. Defined.

Definition of_tenant (tenantId : string) (e : AuditEvent) : bool := String.eqb (au_tenantId e) tenantId.

Definition list_events (tenantId : string) (limit : Z) (log : Log) : list AuditEvent :=
  take (Z.to_nat (Z.min (Z.max limit 1) 1000)) (merge_sort newer (find_rows (of_tenant tenantId) log)).

Record Cursor := { cu_createdAt : Z; cu_id : string }.
Definition cursor_of (e : AuditEvent) : Cursor := {| cu_createdAt := au_createdAt e / 1000; cu_id := au_id e |}.

Definition older (cursor : Cursor) (e : AuditEvent) : bool :=
  (au_createdAt e <? cu_createdAt cursor * 1000) ||
  ((au_createdAt e =? cu_createdAt cursor * 1000) &&
   bool_decide (au_id e ≤ cu_id cursor)%string && negb (String.eqb (au_id e) (cu_id cursor))).

Definition beyond (tenantId : string) (cursor : option Cursor) (log : Log) : list AuditEvent :=
  merge_sort newer (find_rows (fun e => of_tenant tenantId e && match cursor with Some c => older c e | None => true end) log).

Definition pageSize : nat := 1000.

Section ListAll.
Context (env : nat -> Log -> Log).
Context (tenantId : string) (maxEvents : nat).

Definition fetchPage (cursor : option Cursor) (n : nat) (log : Log) : list AuditEvent :=
  take n (beyond tenantId cursor log).

(** The loop: events, [reachedRealEnd], the number of pages and the log. *)
Fixpoint walk (fuel n : nat) (events : list AuditEvent) (cursor : option Cursor) (log : Log)
  : list AuditEvent * bool * nat * Log :=
  match fuel with
  | O => (events, false, n, log)
  | S fuel =>
      if bool_decide (maxEvents <= length events)%nat then (events, false, n, log)
      else
        let log := env n log in
        let page := fetchPage cursor pageSize log in
        match last page with
        | None => (events, true, S n, log)
        | Some e =>
            if bool_decide (length page < pageSize)%nat then (events ++ page, true, S n, log)
            else walk fuel (S n) (events ++ page) (Some (cursor_of e)) log
        end
  end.

(** Every round but the last adds a page, so [maxEvents] rounds are enough.
    The cap is also where an empty cut is dereferenced. *)
Definition listAll (log : Log) : result Failure (list AuditEvent * bool) * Log :=
  let '(events, reachedRealEnd, n, log) := walk maxEvents 0 [] None log in
  let trimmed := take maxEvents events in
  if reachedRealEnd && bool_decide (length events <= maxEvents)%nat then (Ok (trimmed, false), log)
  else
    match last trimmed with
    | None => (Err UndefinedCursor, log)
    | Some cutoff =>
        let log := env n log in
        (Ok (trimmed, bool_decide (0 < length (fetchPage (Some (cursor_of cutoff)) 1 log))%nat), log)
    end.
End ListAll.
End AuditLog.
