(* ===== verification/AuditTheorems.v ===== *)
(** * What the audit log promises

    The log only grows.  An export is complete, or says that it is not and is
    then the newest part of the history, whatever is recorded meanwhile,
    provided that rows of one millisecond have no further microseconds; without
    that proviso it loses rows and still calls itself complete. *)

From Stdlib Require Import Ascii SpecFloat.
From stdpp Require Import gmap strings list sorting pretty.
From S2P Require Import Prelude PolicyDsl AuditLog.

Module AuditTheorems.
Import AuditLog.

(** ** The order of the history *)

#[export] Instance newer_trans : Transitive newer.
Proof.
  intros a b c [H1|[H1 L1]] [H2|[H2 L2]]; unfold newer; [left; lia..|]. right. split; [lia|]. by etrans.
Qed.
#[export] Instance newer_total : Total newer.
Proof.
  intros a b. unfold newer. destruct (Z.lt_trichotomy (au_createdAt a) (au_createdAt b)) as [H|[H|H]]; [auto| |auto].
  destruct (total String.le (au_id a) (au_id b)); auto.
Qed.

(** A row of the tenant. *)
Definition recorded (tenantId : string) (log : Log) (e : AuditEvent) : Prop :=
  au_tenantId e = tenantId /\ exists k, log !! k = Some e.

(** Keys are ids, and a millisecond shared by two rows of the tenant is all
    there is to their time. *)
Record apart (tenantId : string) (log : Log) : Prop := {
  ap_ids : forall k e, log !! k = Some e -> au_id e = k;
  ap_ms : forall e e', recorded tenantId log e -> recorded tenantId log e' ->
    au_createdAt e / 1000 = au_createdAt e' / 1000 -> e = e' \/ au_createdAt e mod 1000 = 0 /\ au_createdAt e' mod 1000 = 0 }.

(** [older] than the cursor of a row: after it in the order. *)
Lemma older_iff t log e e' : apart t log -> recorded t log e -> recorded t log e' ->
  older (cursor_of e) e' = true <-> newer e e' /\ e <> e'.
Proof.
  intros [Hid Hms] He He'. pose proof (Hms _ _ He He') as Hap.
  destruct He as (_ & k & Hk), He' as (_ & k' & Hk'). pose proof (Hid _ _ Hk) as Ik. pose proof (Hid _ _ Hk') as Ik'.
  unfold older, newer, cursor_of. cbn [cu_createdAt cu_id].
  rewrite orb_true_iff, !andb_true_iff, Z.ltb_lt, Z.eqb_eq, bool_decide_eq_true, negb_true_iff, String.eqb_neq.
  pose proof (Z.div_mod (au_createdAt e) 1000) as D. pose proof (Z.mod_pos_bound (au_createdAt e) 1000) as B.
  pose proof (Z.div_mod (au_createdAt e') 1000) as D'. pose proof (Z.mod_pos_bound (au_createdAt e') 1000) as B'.
  split.
  - intros [Hlt|[[He Hle] Hne]]; [split; [left; lia|intros ->; lia]|].
    split; [|congruence]. destruct (decide (au_createdAt e mod 1000 = 0)); [right; split; [lia|done]|left; lia].
  - intros [[Hlt|[He Hle]] Hne].
    + destruct (decide (au_createdAt e / 1000 = au_createdAt e' / 1000)) as [E|E]; [|left; lia].
      destruct (Hap E) as [?|[? ?]]; [done|lia].
    + assert (au_createdAt e / 1000 = au_createdAt e' / 1000) as E by congruence.
      destruct (Hap E) as [?|[? ?]]; [done|]. right. split; [split; [lia|done]|]. intros E'. apply Hne. congruence.
Qed.

Lemma event_newer_antisym t log e e' : apart t log -> recorded t log e -> recorded t log e' ->
  newer e e' -> newer e' e -> e = e'.
Proof.
  intros [Hid _] (_ & k & Hk) (_ & k' & Hk') H1 H2.
  assert (au_id e = au_id e') by (destruct H1 as [?|[? ?]], H2 as [?|[? ?]]; [lia..|by apply (anti_symm String.le)]).
  rewrite (Hid _ _ Hk), (Hid _ _ Hk') in *. congruence.
Qed.

Lemma recorded_mono t log log' e : log ⊆ log' -> recorded t log e -> recorded t log' e.
Proof. intros H (Ht & k & Hk). split; [done|]. exists k. by eapply lookup_weaken. Qed.

(** ** One page *)

Lemma beyond_sorted t c log : StronglySorted newer (beyond t c log).
Proof. apply StronglySorted_merge_sort; apply _. Qed.

Lemma elem_beyond t c log e : e ∈ beyond t c log <->
  recorded t log e /\ match c with Some c => older c e = true | None => True end.
Proof.
  unfold beyond, recorded. rewrite merge_sort_Permutation, elem_find_rows, andb_true_iff. unfold of_tenant.
  rewrite String.eqb_eq. destruct c; naive_solver.
Qed.

Lemma beyond_NoDup t c log : (forall k e, log !! k = Some e -> au_id e = k) -> NoDup (beyond t c log).
Proof.
  intros Hid. unfold beyond. rewrite merge_sort_Permutation. unfold find_rows, rows.
  apply NoDup_ListNoDup, List.NoDup_filter, NoDup_ListNoDup. apply NoDup_fmap_2_strong; [|apply NoDup_map_to_list].
  intros [k c1] [k' c'] H1%elem_of_map_to_list H2%elem_of_map_to_list E. cbn in E. subst c'.
  f_equal. by rewrite <- (Hid _ _ H1), <- (Hid _ _ H2).
Qed.

(** What a full page leaves out is beyond its last row. *)
Lemma page_rest t c log n e x : apart t log -> x ∈ beyond t c log -> x ∉ take n (beyond t c log) ->
  last (take n (beyond t c log)) = Some e -> newer e x /\ e <> x.
Proof.
  intros Ha Hx Hn Hl. pose proof (beyond_sorted t c log) as Hs. rewrite <- (take_drop n (beyond t c log)) in Hs, Hx.
  apply last_Some in Hl as [l' Hl]. rewrite Hl in *.
  apply elem_of_app in Hx as [Hx|Hx]; [done|]. apply StronglySorted_app in Hs as (Hb & _ & _).
  split; [|intros ->; apply Hn, elem_of_app; right; by left]. apply Hb; [apply elem_of_app; right; by left|done].
Qed.

(** ** The walk *)

Section Export.
Context (env : nat -> Log -> Log) (tenantId : string) (maxEvents : nat).
Notation apart := (apart tenantId).
Notation recorded := (recorded tenantId).
(** Others add rows, whose times keep apart. *)
Hypothesis env_grows : forall n log, apart log -> log ⊆ env n log /\ apart (env n log).

(** The newest part of a history. *)
Record newest (start log : Log) (events : list AuditEvent) : Prop := {
  nw_rows : forall e, e ∈ events -> recorded log e;
  nw_sorted : StronglySorted newer events;
  nw_once : NoDup events;
  nw_rest : forall x e, recorded start x -> x ∉ events -> last events = Some e -> newer e x /\ e <> x }.

Lemma last_is_oldest start log events e x : newest start log events -> last events = Some e -> x ∈ events -> newer x e.
Proof.
  intros Hn Hl Hx. apply last_Some in Hl as [l ->]. apply elem_of_app in Hx as [Hx|Hx].
  - pose proof (nw_sorted _ _ _ Hn) as Hs. apply StronglySorted_app in Hs as (Hb & _). apply Hb; [done|by left].
  - apply list_elem_of_singleton in Hx as ->. right. done.
Qed.

(** The cursor is that of the last event, and everything else of the start is
    still ahead. *)
Definition at_cursor (events : list AuditEvent) (cursor : option Cursor) : Prop :=
  cursor = cursor_of <$> last events.

Lemma ahead start log events cursor x : apart log -> start ⊆ log -> newest start log events -> at_cursor events cursor ->
  recorded start x -> x ∉ events -> x ∈ beyond tenantId cursor log.
Proof.
  intros Ha Hs Hn -> Hx Hne. apply elem_beyond. split; [by eapply recorded_mono|].
  destruct (last events) as [e|] eqn:El; cbn; [|done].
  apply (older_iff tenantId log); [done| |by eapply recorded_mono|by eapply nw_rest].
  apply (nw_rows _ _ _ Hn). apply last_Some in El as [l ->]. apply elem_of_app. right. by left.
Qed.

(** The events with the next page. *)
Lemma page_newest start log events cursor n : apart log -> start ⊆ log -> newest start log events -> at_cursor events cursor ->
  newest start log (events ++ fetchPage tenantId cursor n log).
Proof.
  intros Ha Hs Hn Hc. set (page := fetchPage tenantId cursor n log).
  assert (forall x, x ∈ page -> x ∈ beyond tenantId cursor log) as Hin by (intros x Hx; by eapply elem_of_take in Hx as (? & ?%list_elem_of_lookup_2 & _)).
  assert (forall e x, e ∈ events -> x ∈ page -> newer e x /\ e <> x) as Hafter.
  { intros e x He Hx. apply Hin, elem_beyond in Hx as [Hx Ho]. rewrite Hc in Ho.
    destruct (last events) as [l|] eqn:El; cbn in Ho; [|by apply last_None in El as ->; apply not_elem_of_nil in He].
    assert (recorded log l) as Hl.
    { apply (nw_rows _ _ _ Hn). apply last_Some in El as [? ->]. apply elem_of_app. right. by left. }
    apply (older_iff tenantId log) in Ho as [Hlx Hne]; [|done..].
    pose proof (last_is_oldest _ _ _ _ _ Hn El He) as Hel. split; [by etrans|]. intros ->.
    by apply Hne, (event_newer_antisym tenantId log). }
  split.
  - intros e [He|He]%elem_of_app; [by apply (nw_rows _ _ _ Hn)|]. by apply Hin, elem_beyond in He as [? _].
  - apply StronglySorted_app. split_and!; [intros x y Hx Hy; by apply Hafter|apply (nw_sorted _ _ _ Hn)|].
    apply StronglySorted_app with (l2 := drop n (beyond tenantId cursor log)). unfold page, fetchPage. rewrite take_drop. apply beyond_sorted.
  - apply NoDup_app. split_and!; [apply (nw_once _ _ _ Hn)|intros e He Hp; by destruct (Hafter e e He Hp)|].
    apply NoDup_ListNoDup, (List.NoDup_app_remove_r _ (drop n (beyond tenantId cursor log))), NoDup_ListNoDup.
    unfold page, fetchPage. rewrite take_drop. apply beyond_NoDup, (ap_ids _ _ Ha).
  - intros x e Hx Hne Hl. apply not_elem_of_app in Hne as [Hne Hnp].
    destruct (last page) as [p|] eqn:Ep.
    + rewrite last_app, Ep in Hl. injection Hl as <-.
      eapply (page_rest tenantId cursor log n); [done|by eapply ahead|done|done].
    + apply last_None in Ep. rewrite Ep, app_nil_r in Hl. by eapply nw_rest.
Qed.

Lemma newest_mono start log log' events : log ⊆ log' -> newest start log events -> newest start log' events.
Proof. intros H [H1 H2 H3 H4]. split; [|done..]. intros e He. eapply recorded_mono; [done|]. by apply H1. Qed.

Lemma listed_or_not start log events x : apart log -> start ⊆ log -> newest start log events -> recorded start x ->
  x ∈ events \/ x ∉ events.
Proof.
  intros Ha Hs Hn Hx. destruct (decide (au_id x ∈ au_id <$> events)) as [Hid|Hid].
  - apply list_elem_of_fmap in Hid as (e & E & He). left.
    destruct (nw_rows _ _ _ Hn e He) as (_ & k & Hk). apply (recorded_mono _ _ _ _ Hs) in Hx as (_ & k' & Hk').
    rewrite (ap_ids _ _ Ha _ _ Hk), (ap_ids _ _ Ha _ _ Hk') in E. congruence.
  - right. intros Hin. apply Hid, list_elem_of_fmap. by exists x.
Qed.

Lemma newest_take start log events n : apart log -> start ⊆ log -> (0 < n)%nat -> newest start log events ->
  newest start log (take n events).
Proof.
  intros Ha Hsub Hpos Hn. pose proof (nw_sorted _ _ _ Hn) as Hs. pose proof (nw_once _ _ _ Hn) as Hd.
  rewrite <- (take_drop n events) in Hs, Hd.
  pose proof Hs as (Hb & Hs1 & _)%StronglySorted_app. apply NoDup_app in Hd as (Hd1 & Hd2 & _).
  split; [|done..|].
  - intros e (i & Hi & _)%elem_of_take. by eapply (nw_rows _ _ _ Hn), list_elem_of_lookup_2.
  - intros x e Hx Hne Hl. assert (e ∈ take n events) as He.
    { apply last_Some in Hl as [l ->]. apply elem_of_app. right. by left. }
    destruct (listed_or_not _ _ _ x Ha Hsub Hn Hx) as [Hin|Hin].
    + rewrite <- (take_drop n events) in Hin. apply elem_of_app in Hin as [?|Hin]; [done|].
      split; [by apply Hb|]. intros ->. by apply (Hd2 x).
    + destruct (last events) as [l|] eqn:El; [|apply last_None in El as ->; by rewrite take_nil in Hl].
      destruct (nw_rest _ _ _ Hn x l Hx Hin El) as [Hlx Hlne]. split; [|by intros ->; apply Hne].
      etrans; [|done]. eapply last_is_oldest; [done..|]. rewrite <- (take_drop n events). apply elem_of_app. by left.
Qed.

Lemma walk_spec start fuel : forall n events cursor log,
  apart log -> start ⊆ log -> newest start log events -> at_cursor events cursor -> (maxEvents <= fuel + length events)%nat ->
  let '(events', ended, n', log') := walk env tenantId maxEvents fuel n events cursor log in
  log ⊆ log' /\ apart log' /\ newest start log' events' /\
  (if ended : bool then forall x, recorded start x -> x ∈ events' else (maxEvents <= length events')%nat).
Proof using env_grows.
  induction fuel as [|fuel IH]; intros n events cursor log Ha Hs Hn Hc Hf; cbn [walk]; [by split_and!|].
  case_bool_decide as Hmax; [by split_and!|].
  destruct (env_grows n log Ha) as [Hg Ha1]. set (log1 := env n log) in *. set (page := fetchPage tenantId cursor pageSize log1).
  assert (start ⊆ log1) as Hs1 by (by etrans). pose proof (newest_mono _ _ _ _ Hg Hn) as Hn1.
  pose proof (page_newest start log1 events cursor pageSize Ha1 Hs1 Hn1 Hc) as Hn2. fold page in Hn2.
  assert ((length page < pageSize)%nat -> forall x, recorded start x -> x ∈ events ++ page) as Hall.
  { intros Hlen x Hx. apply elem_of_app. destruct (listed_or_not _ _ _ x Ha1 Hs1 Hn1 Hx) as [?|Hne]; [by left|]. right.
    pose proof (ahead start log1 events cursor x Ha1 Hs1 Hn1 Hc Hx Hne) as Hb.
    unfold page, fetchPage in *. rewrite length_take in Hlen. rewrite take_ge by lia. done. }
  destruct (last page) as [e|] eqn:El.
  - case_bool_decide as Hlen; [split_and!; [done..|by apply Hall]|].
    specialize (IH (S n) (events ++ page) (Some (cursor_of e)) log1 Ha1 Hs1 Hn2).
    destruct (walk _ _ _ _ _ _ _ _) as [[[events' ended] n'] log']. destruct IH as (H1 & H2 & H3 & H4).
    + unfold at_cursor. by rewrite last_app, El.
    + rewrite length_app. unfold pageSize in *. lia.
    + split_and!; [by etrans|done..].
  - apply last_None in El. split_and!; [done..|]. intros x Hx. rewrite <- (app_nil_r events), <- El.
    apply Hall; [rewrite El; cbn; unfold pageSize; lia|done].
Qed.

(** C23: An export is complete or says that it is not.  Whatever others record
    while its pages are read, it is a list of at most [maxEvents] rows of the
    tenant without repetition, newest first, and nothing that it leaves out of
    the history it started from is newer than what it lists; when it is not
    called truncated it leaves out nothing, and when it is, something is
    missing. *)
Theorem export_is_complete log : (0 < maxEvents)%nat -> apart log ->
  exists events truncated log', listAll env tenantId maxEvents log = (Ok (events, truncated), log') /\
    log ⊆ log' /\ (length events <= maxEvents)%nat /\ newest log log' events /\
    if truncated : bool then exists x, recorded log' x /\ x ∉ events else forall x, recorded log x -> x ∈ events.
Proof using env_grows.
  intros Hpos Ha. unfold listAll.
  assert (newest log log []) as Hnil by (split; [by intros e ?%not_elem_of_nil|constructor|constructor|done]).
  pose proof (walk_spec log maxEvents 0 [] None log Ha (reflexivity log) Hnil eq_refl ltac:(cbn; lia)) as H.
  destruct (walk _ _ _ _ _ _ _ _) as [[[events ended] n] log1]. destruct H as (Hg & Ha1 & Hn & He).
  pose proof (newest_take _ _ _ maxEvents Ha1 Hg Hpos Hn) as Ht.
  assert (length (take maxEvents events) <= maxEvents)%nat as Hlen by (rewrite length_take; lia).
  destruct (ended && bool_decide (length events <= maxEvents)%nat) eqn:Ee.
  - apply andb_true_iff in Ee as [-> Hle%bool_decide_eq_true].
    do 3 eexists. split; [reflexivity|]. split_and!; [done..|]. by rewrite take_ge.
  - destruct (last (take maxEvents events)) as [cutoff|] eqn:El.
    2:{ exfalso. apply last_None, (f_equal length) in El. rewrite length_take in El. cbn in El.
        apply andb_false_iff in Ee as [->|Hle%bool_decide_eq_false]; lia. }
    destruct (env_grows n log1 Ha1) as [Hg2 Ha2]. pose proof (newest_mono _ _ _ _ Hg2 Ht) as Ht2.
    do 3 eexists. split; [reflexivity|]. split_and!; [by etrans|done..|].
    pose proof (ahead log (env n log1) (take maxEvents events) (Some (cursor_of cutoff))) as Hahead. unfold at_cursor in Hahead. rewrite El in Hahead.
    clear Ee. case_bool_decide as Hb; unfold fetchPage in Hb; rewrite length_take in Hb.
    + destruct (beyond tenantId (Some (cursor_of cutoff)) (env n log1)) as [|x l] eqn:Eb; [cbn in Hb; lia|].
      assert (x ∈ beyond tenantId (Some (cursor_of cutoff)) (env n log1)) as [Hx Ho]%elem_beyond by (rewrite Eb; left).
      exists x. split; [done|]. intros Hin.
      assert (recorded (env n log1) cutoff) as Hcut.
      { apply (nw_rows _ _ _ Ht2). apply last_Some in El as [? ->]. apply elem_of_app. right. by left. }
      apply (older_iff tenantId (env n log1)) in Ho as [Hn1 Hne]; [|done..]. apply Hne.
      eapply event_newer_antisym; [done..|]. by eapply last_is_oldest.
    + intros x Hx. assert (log ⊆ env n log1) as Hsub by (by etrans).
      destruct (listed_or_not _ _ _ x Ha2 Hsub Ht2 Hx) as [?|Hne]; [done|exfalso].
      specialize (Hahead x Ha2 Hsub Ht2 eq_refl Hx Hne).
      destruct (beyond tenantId (Some (cursor_of cutoff)) (env n log1)) as [|y l]; [by apply not_elem_of_nil in Hahead|].
      cbn in Hb. lia.
Qed.
End Export.

(** ** The log only grows *)

(** [record] adds at most the row it was asked for, and the trigger refuses
    every change of a row that is there. *)
Theorem log_is_append_only reachable id now i log : log ⊆ record reachable id now i log /\
  (forall k e, record reachable id now i log !! k = Some e -> log !! k = Some e \/ k = id /\ e = audit_row id now i) /\
  forall m log', mutate m log = Ok log' -> log' = log.
Proof.
  split_and!.
  - unfold record. destruct (reachable && storable i && bool_decide (log !! id = None)) eqn:E; [|done].
    apply andb_true_iff in E as [_ E%bool_decide_eq_true]. by apply insert_subseteq.
  - intros k e. unfold record. destruct (_ && _ && _); [|by left].
    rewrite lookup_insert_Some. intros [[<- <-]|[_ ?]]; [by right|by left].
  - intros [id' row|id'] log'; cbn [mutate]; destruct (bool_decide (log !! id' = None)); intros H; by inversion H.
Qed.

(** ** Concrete logs *)

Definition event_at (id : string) (us : Z) : AuditEvent :=
  {| au_id := id; au_tenantId := "t"; au_actorId := "a"; au_action := "X"; au_resourceType := "r"; au_resourceId := None;
     au_correlationId := None; au_reason := None; au_metadata := None; au_createdAt := us |}.

Definition log0 : Log := {["a" := event_at "a" 3000500; "b" := event_at "b" 2000000; "c" := event_at "c" 1000000]}.

Lemma log0_apart : apart "t" log0.
Proof.
  assert (forall k e, log0 !! k = Some e -> k = "a" /\ e = event_at "a" 3000500 \/
    k = "b" /\ e = event_at "b" 2000000 \/ k = "c" /\ e = event_at "c" 1000000) as H.
  { intros k e. unfold log0. rewrite !lookup_insert_Some, lookup_singleton_Some. naive_solver. }
  split; [by intros k e [[-> ->]|[[-> ->]|[-> ->]]]%H|].
  intros e e' (_ & k & Hk) (_ & k' & Hk'). apply H in Hk, Hk'.
  destruct Hk as [[_ ->]|[[_ ->]|[_ ->]]], Hk' as [[_ ->]|[[_ ->]|[_ ->]]]; vm_compute; intros E; by auto || discriminate E.
Qed.

Definition ids (r : result Failure (list AuditEvent * bool)) : list string * bool :=
  match r with Ok (es, truncated) => (map au_id es, truncated) | Err _ => ([], true) end.

(** With room for two of the three rows the export says so. *)
Lemma export_is_complete_witness :
  exists events truncated log', listAll (fun _ l => l) "t" 2 log0 = (Ok (events, truncated), log') /\ length events = 2%nat /\
    truncated = true /\ exists x, recorded "t" log' x /\ x ∉ events.
Proof.
  destruct (export_is_complete (fun _ l => l) "t" 2 (fun _ l Ha => conj (reflexivity l) Ha) log0 ltac:(lia) log0_apart)
    as (events & truncated & log' & He & _ & _ & _ & Ht).
  assert (ids (listAll (fun _ l => l) "t" 2 log0).1 = (["a"; "b"], true)) as Hi by (vm_compute; reflexivity).
  rewrite He in Hi. cbn in Hi. injection Hi as Hi ->. exists events, true, log'. split_and!; [exact He| |reflexivity|exact Ht].
  by rewrite <- (length_map au_id), Hi.
Defined.

(** ** Rows that an export loses *)

(** A thousand rows, the last of them 0.7 milliseconds after a second, and one
    more row, 0.3 milliseconds after it: the cursor keeps the millisecond only,
    the row is never read, and the export is not called truncated. *)
Definition burst : Log :=
  list_to_map (("last", event_at "last" 300) ::
    map (fun n : nat => let id := "e" +:+ pretty n in (id, event_at id (700 + 1000 * Z.of_nat n))) (seq 0 1000)).

Theorem export_loses_rows : recorded "t" burst (event_at "last" 300) /\
  (fun r => (length r.1, bool_decide ("last" ∈ r.1), r.2)) (ids (listAll (fun _ l => l) "t" 50000 burst).1) =
  (1000%nat, false, false).
Proof. split; [split; [reflexivity|by exists "last"]|]. vm_compute. reflexivity. Qed.
End AuditTheorems.
