(* ===== verification/Telemetry.v ===== *)
(** * Telemetry

    observability/: the configuration read before the application starts
    (telemetry-config.ts), the filter in front of the exporter
    (sanitizing-span-exporter.ts) and the points that operations record
    (operational-telemetry.ts).

    A span's attributes are a list of keys and values.  [Number(text)], a
    value's [String(value)] and the path name of [new URL(target, base)] are
    parameters. *)

From Stdlib Require Import Ascii SpecFloat.
From stdpp Require Import gmap strings list.
From S2P Require Import Prelude BudgetLedger PolicyDsl PolicyDigest PolicyResolver PolicyEvaluation Concurrency ProviderTables WebhookGuard Outbox Communications AgentTables AuthTables.

Module Telemetry.
Import Dsl.

(** ** Configuration *)

Definition DEFAULT_OTLP_ENDPOINT : string := "http://127.0.0.1:4318".
Definition DEFAULT_METRIC_EXPORT_INTERVAL_MS : spec_float := f64_of_Z 15000.
Definition DEFAULT_TRACE_SAMPLE_RATIO : spec_float := f64_of_Z 1.

Definition isTelemetryEnabled (v : option string) : bool :=
  match v with Some s => String.eqb (Comms.toLowerCase (JS.trim s)) "true" | None => false end.

Record TelemetryBootstrapConfig := {
  enabled : bool;
  serviceName : string;
  otlpEndpoint : string;
  metricExportIntervalMs : spec_float;
  traceSampleRatio : spec_float }.

Section Config.
Context (to_number : string -> spec_float).

Definition is_finite (x : spec_float) : bool :=
  match x with S754_zero _ | S754_finite _ _ _ => true | _ => false end.

Definition boundedNumber (raw : option string) (fallback minimum maximum : spec_float) : spec_float :=
  let parsed := match raw with Some s => to_number s | None => S754_nan end in
  if is_finite parsed && SFleb minimum parsed && SFleb parsed maximum then parsed else fallback.

(** [a || b] of texts. *)
Definition or_else (s : option string) (standard : string) : string :=
  match s with Some s => if JS.truthy s then s else standard | None => standard end.

(** [s.replace(/\/+$/, '')] *)
Fixpoint strip_slashes (s : string) : string :=
  match s with
  | EmptyString => EmptyString
  | String c s' => let r := strip_slashes s' in if Ascii.eqb c "/" && String.eqb r "" then "" else String c r
  end.

Definition readTelemetryBootstrapConfig (environment : string -> option string) : TelemetryBootstrapConfig :=
  {| enabled := isTelemetryEnabled (environment "OTEL_ENABLED");
     serviceName := or_else (JS.trim <$> environment "OTEL_SERVICE_NAME") "mortgage-integration-agent";
     otlpEndpoint := or_else (strip_slashes <$> environment "OTEL_EXPORTER_OTLP_ENDPOINT") DEFAULT_OTLP_ENDPOINT;
     metricExportIntervalMs := boundedNumber (environment "OTEL_METRIC_EXPORT_INTERVAL_MS")
       DEFAULT_METRIC_EXPORT_INTERVAL_MS (f64_of_Z 1000) (f64_of_Z 300000);
     traceSampleRatio := boundedNumber (environment "OTEL_TRACE_SAMPLE_RATIO")
       DEFAULT_TRACE_SAMPLE_RATIO (f64_of_Z 0) (f64_of_Z 1) |}.
End Config.

(** ** What of a value may leave *)

Section Sanitizing.
(** [new URL(target, 'http://telemetry.invalid').pathname] *)
Context (url_pathname : string -> option string).

Definition starts_with (prefix s : string) : bool := String.prefix prefix s.

Definition sanitizeHttpTarget (target : option string) : string :=
  match target with
  | None => "/"
  | Some t =>
      if negb (JS.truthy t) then "/"
      else if negb (starts_with "/" t) &&
              negb (starts_with "http://" (Comms.toLowerCase t) || starts_with "https://" (Comms.toLowerCase t)) then "/"
      else or_else (url_pathname t) "/"
  end.

Definition is_letter (c : ascii) : bool :=
  let n := nat_of_ascii c in ((65 <=? n) && (n <=? 90) || (97 <=? n) && (n <=? 122))%nat.
Fixpoint leading_letters (s : string) : string :=
  match s with
  | String c s => if is_letter c then String c (leading_letters s) else ""
  | EmptyString => ""
  end.

Definition normalizeSqlOperation (statement : string) : string :=
  or_else (Some (Auth.upper (leading_letters (JS.trim statement)))) "UNKNOWN".

(** ** The filter of spans *)

Definition Attributes : Type := list (string * value).

Definition DROPPED_ATTRIBUTE_KEYS : list string :=
  ["temporalWorkflowId"; "temporalActivityId"; "temporalUpdateId"; "run_id"; "db.namespace"; "db.statement";
   "exception.message"; "exception.stacktrace"; "user.id"; "enduser.id"].

Definition shouldDropAttribute (key : string) : bool :=
  let normalized := Comms.toLowerCase key in
  includes DROPPED_ATTRIBUTE_KEYS key ||
  existsb (fun part => Comms.contains part normalized)
    [".header."; ".cookie"; "authorization"; "graphql.document"; "db.query.parameter"; "db.operation.parameter"].

Context (to_text : value -> string).

Definition sanitize_value (key : string) (v : value) : value :=
  if String.eqb key "url.full" || String.eqb key "http.url" then VString (sanitizeHttpTarget (Some (to_text v)))
  else if String.eqb key "db.query.text" then VString (normalizeSqlOperation (to_text v))
  else v.

Fixpoint sanitizeTelemetryAttributes (attributes : Attributes) : Attributes :=
  match attributes with
  | [] => []
  | (key, v) :: rest =>
      if shouldDropAttribute key then sanitizeTelemetryAttributes rest
      else (key, sanitize_value key v) :: sanitizeTelemetryAttributes rest
  end.

Fixpoint until_space (s : string) : string :=
  match s with
  | String c s => if JS.is_space c then "" else String c (until_space s)
  | EmptyString => ""
  end.

Definition sanitizeSpanName (name : string) : string :=
  if starts_with "pg.query:" name then until_space name else name.

Inductive StatusCode := UNSET | OK | ERROR.

(** Of a span, the fields that carry text or attributes. *)
Record SpanEvent := { ev_name : string; ev_attributes : option Attributes }.
Record SpanLink := { ln_traceId : string; ln_spanId : string; ln_attributes : option Attributes }.
Record ReadableSpan := {
  sp_name : string;
  sp_status : StatusCode * option string;
  sp_attributes : Attributes;
  sp_links : list SpanLink;
  sp_events : list SpanEvent;
  sp_resource : Attributes }.

Definition sanitizeSpan (span : ReadableSpan) : ReadableSpan :=
  {| sp_name := sanitizeSpanName (sp_name span);
     sp_status := ((sp_status span).1, None);
     sp_attributes := sanitizeTelemetryAttributes (sp_attributes span);
     sp_links := sp_links span;
     sp_events := map (fun e => {| ev_name := ev_name e;
       ev_attributes := Some (sanitizeTelemetryAttributes (default [] (ev_attributes e))) |}) (sp_events span);
     sp_resource := sp_resource span |}.

(** What the wrapped exporter is given. *)
Definition export (spans : list ReadableSpan) : list ReadableSpan := map sanitizeSpan spans.
End Sanitizing.

(** ** Points *)

Inductive ProviderOutcome :=
| succeeded | disabled | not_activated | authorization_rejected | provider_rejected | outcome_unknown | failed.
Inductive AgentToolOutcome := success | failure | blocked.
Inductive WorkflowOperation := start | signal | describe | cancel | recover.
Inductive BudgetAction := reserve | commit | release | mark_unknown.

Definition provider_outcome_text (o : ProviderOutcome) : string :=
  match o with
  | succeeded => "succeeded" | disabled => "disabled" | not_activated => "not_activated"
  | authorization_rejected => "authorization_rejected" | provider_rejected => "provider_rejected"
  | outcome_unknown => "outcome_unknown" | failed => "failed"
  end.
Definition tool_outcome_text (o : AgentToolOutcome) : string :=
  match o with success => "success" | failure => "failure" | blocked => "blocked" end.
Definition workflow_operation_text (o : WorkflowOperation) : string :=
  match o with start => "start" | signal => "signal" | describe => "describe" | cancel => "cancel" | recover => "recover" end.
Definition budget_action_text (a : BudgetAction) : string :=
  match a with reserve => "reserve" | commit => "commit" | release => "release" | mark_unknown => "mark_unknown" end.
Definition mode_text (m : Tables.ProviderMode) : string :=
  match m with
  | Tables.SIMULATOR => "SIMULATOR" | Tables.AUTHORIZED_SANDBOX => "AUTHORIZED_SANDBOX"
  | Tables.PRODUCTION_BYOC => "PRODUCTION_BYOC"
  end.
Definition effect_text (e : Tables.ProviderEffectClass) : string :=
  match e with
  | Tables.READ_ONLY => "READ_ONLY" | Tables.REUSABLE_LOOKUP => "REUSABLE_LOOKUP"
  | Tables.COST_BEARING_ORDER => "COST_BEARING_ORDER" | Tables.CONSUMER_IMPACTING => "CONSUMER_IMPACTING"
  | Tables.IRREVERSIBLE => "IRREVERSIBLE"
  end.

Definition REGISTERED_AGENT_TOOLS : list string :=
  ["check_case_completeness"; "evaluate_policy"; "create_condition"; "draft_information_request"].

Definition safeAgentToolLabel (toolName : string) : string :=
  if includes REGISTERED_AGENT_TOOLS toolName then toolName else "unknown".

(** What was thrown: an [Error] with its name, or something else. *)
Inductive Thrown := ThrownError (name message : string) | ThrownValue.

Definition is_alphanumeric (c : ascii) : bool :=
  is_letter c || let n := nat_of_ascii c in ((48 <=? n) && (n <=? 57))%nat.

(** [/^[A-Za-z][A-Za-z0-9]{0,63}$/] *)
Definition bounded_name (s : string) : bool :=
  match s with
  | String c s' => is_letter c && Auth.all_chars is_alphanumeric s' && (String.length s' <=? 63)%nat
  | EmptyString => false
  end.

Definition safeTelemetryErrorType (error : Thrown) : string :=
  match error with
  | ThrownValue => "unknown"
  | ThrownError name _ => if bounded_name name then name else "Error"
  end.

(** A number added to a counter, or recorded in a histogram of seconds. *)
Inductive Amount := Units (n : Z) | Seconds (s : spec_float).
Record Point := { pt_metric : string; pt_amount : Amount; pt_labels : list (string * string) }.
Definition count (metric : string) (n : Z) (labels : list (string * string)) : Point :=
  {| pt_metric := metric; pt_amount := Units n; pt_labels := labels |}.

Definition elapsedSeconds (startedAt now : spec_float) : spec_float :=
  let d := f64_sub now startedAt in
  f64_div (if SFltb d (f64_of_Z 0) then f64_of_Z 0 else d) (f64_of_Z 1000).
Definition duration (metric : string) (startedAt now : spec_float) (labels : list (string * string)) : Point :=
  {| pt_metric := metric; pt_amount := Seconds (elapsedSeconds startedAt now); pt_labels := labels |}.

Record Span := { s_name : string; s_attributes : list (string * string); s_code : StatusCode; s_errorType : option string }.

(** The span around an operation, and its result. *)
Definition withSpan {A} (name : string) (attributes : list (string * string)) (r : result Thrown A)
  : Span * result Thrown A :=
  match r with
  | Ok a => ({| s_name := name; s_attributes := attributes; s_code := OK; s_errorType := None |}, r)
  | Err e => ({| s_name := name; s_attributes := attributes; s_code := ERROR;
                 s_errorType := Some (safeTelemetryErrorType e) |}, r)
  end.

Section Recording.
Context (startedAt now : spec_float).

Definition recordProvider (capability : Tables.ProviderCapability) (mode : Tables.ProviderMode)
    (effectClass : Tables.ProviderEffectClass) (outcome : ProviderOutcome) : list Point :=
  let labels := [("capability", Tables.capability_text capability); ("mode", mode_text mode);
                 ("effect_class", effect_text effectClass); ("outcome", provider_outcome_text outcome)] in
  [count "lending.provider.operations" 1 labels; duration "lending.provider.duration" startedAt now labels].

Definition policy_outcome_text (o : option Evaluation.EvaluationOutcome) : string :=
  match o with
  | Some Evaluation.REUSED => "REUSED" | Some Evaluation.REFRESHED => "REFRESHED"
  | Some Evaluation.NEEDS_REVIEW => "REVIEW_REQUIRED" | None => "ERROR"
  end.

Definition recordPolicy (outcome : option Evaluation.EvaluationOutcome) : list Point :=
  let labels := [("outcome", Comms.toLowerCase (policy_outcome_text outcome))] in
  [count "lending.policy.evaluations" 1 labels; duration "lending.policy.duration" startedAt now labels].

Definition route_text (r : Agent.AgentRunRoute) : string :=
  match r with
  | Agent.PROPOSED_ACTION => "PROPOSED_ACTION" | Agent.AWAITING_INFORMATION => "AWAITING_INFORMATION"
  | Agent.INTERRUPTED_FOR_REVIEW => "INTERRUPTED_FOR_REVIEW" | Agent.ROUTED_TO_MANUAL_REVIEW => "ROUTED_TO_MANUAL_REVIEW"
  end.

Definition observeAgentRun {A} (route : A -> Agent.AgentRunRoute) (r : result Thrown A)
  : list Point * Span * result Thrown A :=
  let '(span, r) := withSpan "agent.run" [] r in
  let labels := [("route", match r with Ok a => Comms.toLowerCase (route_text (route a)) | Err _ => "error" end)] in
  ([count "lending.agent.runs" 1 labels; duration "lending.agent.duration" startedAt now labels], span, r).

Definition recordAgentTool (toolName : string) (outcome : AgentToolOutcome) : list Point :=
  [count "lending.agent.tool.attempts" 1
     [("tool", safeAgentToolLabel toolName); ("outcome", tool_outcome_text outcome)]].

Definition reservation_status_text (s : Ledger.AgentBudgetReservationStatus) : string :=
  match s with
  | Ledger.Reserved => "reserved" | Ledger.Committed => "committed" | Ledger.Released => "released"
  | Ledger.Unknown => "unknown"
  end.
Definition bool_text (b : bool) : string := if b then "true" else "false".

Definition recordBudgetReservation (action : BudgetAction) (receipt : Ledger.Receipt) : list Point :=
  let units := Ledger.rc_units receipt in
  let unit_point name v := count "lending.agent.budget.units" v [("action", budget_action_text action); ("unit", name)] in
  [count "lending.agent.budget.reservations" 1
     [("action", budget_action_text action); ("status", reservation_status_text (Ledger.rc_status receipt));
      ("replayed", bool_text (Ledger.rc_replayed receipt))];
   unit_point "step" (Ledger.stepUnits units); unit_point "token" (Ledger.tokenUnits units);
   unit_point "provider_call" (Ledger.providerCallUnits units);
   unit_point "cost_minor" (default (Ledger.costMinorUnits units) (Ledger.rc_actualCostMinorUnits receipt))].

Definition failure_code_text (c : option Ledger.AgentBudgetFailureCode) : string :=
  match c with
  | Some Ledger.BUDGET_EXHAUSTED => "BUDGET_EXHAUSTED" | Some Ledger.DEADLINE_EXCEEDED => "DEADLINE_EXCEEDED"
  | Some Ledger.LEDGER_VERSION_CONFLICT => "LEDGER_VERSION_CONFLICT" | Some Ledger.LEDGER_CLOSED => "LEDGER_CLOSED"
  | Some Ledger.RESERVATION_CONFLICT => "RESERVATION_CONFLICT" | None => "ERROR"
  end.

Definition recordBudgetFailure (action : BudgetAction) (code : option Ledger.AgentBudgetFailureCode) : list Point :=
  [count "lending.agent.budget.reservations" 1
     [("action", budget_action_text action); ("status", "rejected");
      ("failure_code", Comms.toLowerCase (failure_code_text code))]].

(** [AgentBudgetLedgerService.observeReservation] *)
Definition observeReservation (action : BudgetAction) (r : result Ledger.Failure Ledger.Receipt)
  : list Point * result Ledger.Failure Ledger.Receipt :=
  match r with
  | Ok receipt => (recordBudgetReservation action receipt, r)
  | Err (Ledger.AgentBudgetError code _) => (recordBudgetFailure action (Some code), r)
  | Err _ => (recordBudgetFailure action None, r)
  end.

Definition observeWorkflow {A} (operation : WorkflowOperation) (r : result Thrown A) : list Point * Span * result Thrown A :=
  let op := workflow_operation_text operation in
  let '(span, r) := withSpan ("workflow.client." +:+ op) [("operation", op)] r in
  let labels := [("operation", op); ("outcome", match r with Ok _ => "succeeded" | Err _ => "failed" end)] in
  ([count "lending.workflow.client.operations" 1 labels; duration "lending.workflow.client.duration" startedAt now labels], span, r).

Record DispatchPendingEventsResult := { eventsProcessed : Z; attemptsMade : Z }.

Definition observeWebhookBatch (r : result Thrown DispatchPendingEventsResult)
  : list Point * Span * result Thrown DispatchPendingEventsResult :=
  let '(span, r) := withSpan "webhook.dispatch_batch" [] r in
  let points :=
    match r with
    | Ok result =>
        [count "lending.webhook.batches" 1 [("outcome", "succeeded")];
         count "lending.webhook.events" (eventsProcessed result) [("kind", "outbox_event")];
         count "lending.webhook.events" (attemptsMade result) [("kind", "delivery_attempt")];
         duration "lending.webhook.duration" startedAt now [("outcome", "succeeded")]]
    | Err _ =>
        [count "lending.webhook.batches" 1 [("outcome", "failed")];
         duration "lending.webhook.duration" startedAt now [("outcome", "failed")]]
    end in
  (points, span, r).

Definition recordWebhookDelivery (delivered terminal : bool) : list Point :=
  [count "lending.webhook.deliveries" 1
     [("outcome", Comms.toLowerCase (if delivered then "SUCCEEDED" else "FAILED")); ("terminal", bool_text terminal)]].
End Recording.
End Telemetry.
