(* ===== verification/TelemetryTheorems.v ===== *)
(** * What telemetry may reveal

    Whatever instrumentation puts into a span, the exporter is given no dropped
    key, no query of an address and no text of a statement; labels of points
    come from a fixed vocabulary; and recording changes no result.  Some keys
    that carry a query are not among those that are filtered. *)

From Stdlib Require Import Ascii SpecFloat.
From stdpp Require Import gmap strings list.
From S2P Require Import Prelude BudgetLedger PolicyDsl PolicyDigest PolicyResolver PolicyEvaluation Concurrency ProviderTables WebhookGuard Outbox Communications AgentTables AuthTables Encoding Telemetry.

Module TelemetryTheorems.
Import Dsl Encoding Telemetry.

(** ** The filter *)

Lemma every_character (P : ascii -> bool) :
  forallb P (map ascii_of_nat (List.seq 0 256)) = true -> forall c, P c = true.
Proof.
  intros H c. rewrite <- (ascii_nat_embedding c). rewrite forallb_forall in H. apply H, in_map, in_seq.
  pose proof (nat_ascii_bounded c). lia.
Qed.

Definition is_capital (c : ascii) : bool := let n := nat_of_ascii c in ((65 <=? n) && (n <=? 90))%nat.

(** A verb: capital letters only. *)
Definition verb (s : string) : Prop := Forall (fun c => is_capital c = true) (String.list_ascii_of_string s) /\ s <> "".

Lemma upper_letters s :
  Forall (fun c => is_capital c = true) (String.list_ascii_of_string (Auth.upper (leading_letters s))).
Proof.
  induction s as [|c s IH]; cbn [leading_letters]; [constructor|]. destruct (is_letter c) eqn:E; [|constructor].
  cbn [Auth.upper String.list_ascii_of_string]. constructor; [|done].
  assert (implb (is_letter c) (is_capital (if ((97 <=? nat_of_ascii c) && (nat_of_ascii c <=? 122))%nat
    then ascii_of_nat (nat_of_ascii c - 32) else c)) = true) as H.
  { apply (every_character (fun c => implb (is_letter c) (is_capital (if ((97 <=? nat_of_ascii c) && (nat_of_ascii c <=? 122))%nat
      then ascii_of_nat (nat_of_ascii c - 32) else c)))). vm_compute. reflexivity. }
  by rewrite E in H.
Qed.

Lemma normalized_is_verb statement : verb (normalizeSqlOperation statement).
Proof.
  unfold normalizeSqlOperation, or_else, JS.truthy. destruct (String.eqb_spec (Auth.upper (leading_letters (JS.trim statement))) "") as [E|E]; cbn [negb].
  - split; [|done]. repeat constructor.
  - split; [apply upper_letters|done].
Qed.

Section Filter.
Context (url_pathname : string -> option string) (to_text : value -> string).
(** The path name of an address ends before its query and its fragment. *)
Hypothesis pathname_law : forall t p, url_pathname t = Some p -> lacks "?" p /\ lacks "#" p.

Lemma target_is_path t : lacks "?" (sanitizeHttpTarget url_pathname t) /\ lacks "#" (sanitizeHttpTarget url_pathname t).
Proof using pathname_law.
  assert (lacks "?" "/" /\ lacks "#" "/") as Hslash.
  { split; apply (bool_decide_unpack _); vm_compute; reflexivity. }
  unfold sanitizeHttpTarget. destruct t as [t|]; [|done]. destruct (negb (JS.truthy t)); [done|].
  destruct (_ && _); [done|]. unfold or_else. destruct (url_pathname t) as [p|] eqn:E; [|done].
  destruct (JS.truthy p); [by eapply pathname_law|done].
Qed.

(** What is left of an attribute. *)
Definition revealed (original : Attributes) (key : string) (v : value) : Prop :=
  shouldDropAttribute key = false /\ (exists v0, (key, v0) ∈ original) /\
  ((key = "url.full" \/ key = "http.url") /\ (exists path, v = VString path /\ lacks "?" path /\ lacks "#" path) \/
   key = "db.query.text" /\ (exists s, v = VString s /\ verb s) \/
   key <> "url.full" /\ key <> "http.url" /\ key <> "db.query.text" /\ (key, v) ∈ original).

Lemma sanitized_spec original key v :
  (key, v) ∈ sanitizeTelemetryAttributes url_pathname to_text original <->
  shouldDropAttribute key = false /\ exists v0, (key, v0) ∈ original /\ v = sanitize_value url_pathname to_text key v0.
Proof using.
  induction original as [|[k x] l IH]; cbn [sanitizeTelemetryAttributes].
  - split; [by intros ?%not_elem_of_nil|]. intros (_ & v0 & ?%not_elem_of_nil & _). done.
  - destruct (shouldDropAttribute k) eqn:E.
    + rewrite IH. split; intros (H & v0 & Hin & ->); (split; [done|]; exists v0; split; [|done]); [by right|].
      apply elem_of_cons in Hin as [[= -> ->]|Hin]; [congruence|done].
    + rewrite elem_of_cons, IH. split.
      * intros [[= -> ->]|(H & v0 & Hin & ->)]; [split; [done|]; exists x; split; [by left|done]|].
        split; [done|]. exists v0. split; [by right|done].
      * intros (H & v0 & [[= -> ->]|Hin]%elem_of_cons & ->); [by left|]. right. split; [done|]. by exists v0.
Qed.

Lemma sanitized_is_revealed original key v :
  (key, v) ∈ sanitizeTelemetryAttributes url_pathname to_text original -> revealed original key v.
Proof using pathname_law.
  intros (Hd & v0 & Hin & ->)%sanitized_spec. split; [done|]. split; [by exists v0|]. unfold sanitize_value.
  destruct (String.eqb_spec key "url.full"); [|destruct (String.eqb_spec key "http.url")]; cbn [orb].
  - left. split; [by left|]. eexists. split; [reflexivity|]. apply target_is_path.
  - left. split; [by right|]. eexists. split; [reflexivity|]. apply target_is_path.
  - right. destruct (String.eqb_spec key "db.query.text").
    + left. split; [done|]. eexists. split; [reflexivity|]. apply normalized_is_verb.
    + right. done.
Qed.

End Filter.

(** ** The configuration before start-up *)

Section Config.
Context (to_number : string -> spec_float).

Lemma boundedNumber_in_range raw fallback lo hi :
  is_finite fallback = true -> SFleb lo fallback = true -> SFleb fallback hi = true ->
  let x := boundedNumber to_number raw fallback lo hi in is_finite x = true /\ SFleb lo x = true /\ SFleb x hi = true.
Proof.
  intros H1 H2 H3 x. unfold x, boundedNumber. destruct (_ && _ && _) eqn:E; [|done].
  by apply andb_true_iff in E as [[? ?]%andb_true_iff ?].
Qed.

(** Whatever the environment holds, the interval and the ratio that telemetry
    starts with are finite and in their ranges, and no name is empty. *)
Theorem bootstrap_is_bounded environment : let c := readTelemetryBootstrapConfig to_number environment in
  is_finite (metricExportIntervalMs c) = true /\
  SFleb (f64_of_Z 1000) (metricExportIntervalMs c) = true /\ SFleb (metricExportIntervalMs c) (f64_of_Z 300000) = true /\
  SFleb (f64_of_Z 0) (traceSampleRatio c) = true /\ SFleb (traceSampleRatio c) (f64_of_Z 1) = true /\
  serviceName c <> "" /\ otlpEndpoint c <> "" /\
  (enabled c = true <-> exists s, environment "OTEL_ENABLED" = Some s /\ Comms.toLowerCase (JS.trim s) = "true").
Proof.
  intros c.
  destruct (boundedNumber_in_range (environment "OTEL_METRIC_EXPORT_INTERVAL_MS") DEFAULT_METRIC_EXPORT_INTERVAL_MS
    (f64_of_Z 1000) (f64_of_Z 300000) eq_refl eq_refl eq_refl) as (H1 & H2 & H3).
  destruct (boundedNumber_in_range (environment "OTEL_TRACE_SAMPLE_RATIO") DEFAULT_TRACE_SAMPLE_RATIO
    (f64_of_Z 0) (f64_of_Z 1) eq_refl eq_refl eq_refl) as (_ & H4 & H5).
  assert (forall o d, d <> "" -> or_else o d <> "") as Ho.
  { intros [s|] d Hd; cbn; [|done]. unfold JS.truthy. destruct (String.eqb_spec s ""); done. }
  split_and!; [done..|by apply Ho|by apply Ho|].
  cbn. unfold isTelemetryEnabled. destruct (environment "OTEL_ENABLED") as [s|]; [|naive_solver].
  rewrite String.eqb_eq. naive_solver.
Qed.
End Config.

(** ** Points *)

(** The words a label can have. *)
Definition vocabulary : list string :=
  ["INCOME"; "ASSET"; "CREDIT"; "IDENTITY"; "DOCUMENT"; "SIMULATOR"; "AUTHORIZED_SANDBOX"; "PRODUCTION_BYOC"; "READ_ONLY";
   "REUSABLE_LOOKUP"; "COST_BEARING_ORDER"; "CONSUMER_IMPACTING"; "IRREVERSIBLE"; "succeeded"; "disabled"; "not_activated";
   "authorization_rejected"; "provider_rejected"; "outcome_unknown"; "failed"; "reused"; "refreshed"; "review_required"; "error";
   "proposed_action"; "awaiting_information"; "interrupted_for_review"; "routed_to_manual_review"; "check_case_completeness";
   "evaluate_policy"; "create_condition"; "draft_information_request"; "unknown"; "success"; "failure"; "blocked"; "reserve";
   "commit"; "release"; "mark_unknown"; "reserved"; "committed"; "released"; "true"; "false"; "step"; "token"; "provider_call";
   "cost_minor"; "rejected"; "budget_exhausted"; "deadline_exceeded"; "ledger_version_conflict"; "ledger_closed";
   "reservation_conflict"; "start"; "signal"; "describe"; "cancel"; "recover"; "outbox_event"; "delivery_attempt"].

Definition plain (ps : list Point) : Prop := Forall (fun p => Forall (fun l => l.2 ∈ vocabulary) (pt_labels p)) ps.
Definition plainb (ps : list Point) : bool := forallb (fun p => forallb (fun l => includes vocabulary l.2) (pt_labels p)) ps.

Lemma plainb_plain ps : plainb ps = true -> plain ps.
Proof.
  unfold plainb, plain. rewrite forallb_forall. intros H. apply Forall_forall. intros p Hp%list_elem_of_In. apply H in Hp.
  rewrite forallb_forall in Hp. apply Forall_forall. intros l Hl%list_elem_of_In. apply Hp in Hl. by apply bool_decide_eq_true in Hl.
Qed.

Lemma tool_label_known toolName : safeAgentToolLabel toolName ∈ vocabulary.
Proof.
  unfold safeAgentToolLabel, includes. case_bool_decide as E.
  - apply list_elem_of_In in E. apply list_elem_of_In. cbn in E. destruct E as [<-|[<-|[<-|[<-|[]]]]]; cbn; tauto.
  - apply list_elem_of_In. cbn. tauto.
Qed.

(** Every label of every point is a word of the vocabulary, for every tool
    name, receipt and result, and an error's label is at most 64 letters and
    digits; recording hands on the result it observed. *)
Theorem labels_are_bounded startedAt now :
  (forall capability mode effect o, plain (recordProvider startedAt now capability mode effect o)) /\
  (forall o, plain (recordPolicy startedAt now o)) /\
  (forall toolName o, plain (recordAgentTool toolName o)) /\
  (forall action r, plain (observeReservation action r).1 /\ (observeReservation action r).2 = r) /\
  (forall A route (r : result Thrown A), plain (observeAgentRun startedAt now route r).1.1 /\ (observeAgentRun startedAt now route r).2 = r) /\
  (forall A op (r : result Thrown A), plain (observeWorkflow startedAt now op r).1.1 /\ (observeWorkflow startedAt now op r).2 = r) /\
  (forall r, plain (observeWebhookBatch startedAt now r).1.1 /\ (observeWebhookBatch startedAt now r).2 = r) /\
  (forall delivered terminal, plain (recordWebhookDelivery delivered terminal)) /\
  (forall e, (String.length (safeTelemetryErrorType e) <= 64)%nat).
Proof.
  split_and!.
  - intros [] [] [] []; apply plainb_plain; vm_compute; reflexivity.
  - intros [[]|]; apply plainb_plain; vm_compute; reflexivity.
  - intros toolName o. constructor; [|constructor]. constructor; [apply tool_label_known|]. constructor; [|constructor].
    apply list_elem_of_In. destruct o; vm_compute; tauto.
  - intros action [receipt|[[] m| | | |]]; (split; [|done]); [|destruct action; apply plainb_plain; vm_compute; reflexivity..].
    cbn [observeReservation fst]. unfold recordBudgetReservation.
    destruct action, (Ledger.rc_status receipt), (Ledger.rc_replayed receipt); apply plainb_plain; vm_compute; reflexivity.
  - intros A route [a|e]; (split; [|done]); cbn; [destruct (route a)|]; apply plainb_plain; vm_compute; reflexivity.
  - intros A [] [a|e]; (split; [|done]); apply plainb_plain; vm_compute; reflexivity.
  - intros [a|e]; (split; [|done]); apply plainb_plain; vm_compute; reflexivity.
  - intros [] []; apply plainb_plain; vm_compute; reflexivity.
  - intros [name m|]; cbn [safeTelemetryErrorType]; [|cbn; lia]. destruct (bounded_name name) eqn:E; [|cbn; lia].
    destruct name as [|c s]; [cbn; lia|]. cbn [bounded_name] in E. apply andb_true_iff in E as [_ E%Nat.leb_le]. cbn [String.length]. lia.
Qed.

(** ** Concrete spans *)

(** A path name parser for addresses without an authority. *)
Fixpoint before_query (s : string) : string :=
  match s with
  | String c s => if Ascii.eqb c "?" || Ascii.eqb c "#" then "" else String c (before_query s)
  | EmptyString => ""
  end.

Lemma before_query_lacks s : lacks "?" (before_query s) /\ lacks "#" (before_query s).
Proof.
  unfold lacks. induction s as [|c s [IH1 IH2]]; cbn; [split; apply not_elem_of_nil|].
  destruct (Ascii.eqb_spec c "?"), (Ascii.eqb_spec c "#"); cbn; try (split; apply not_elem_of_nil).
  split; apply not_elem_of_cons; split; congruence || done.
Qed.

Definition text0 (v : value) : string := match v with VString s => s | _ => "" end.
Definition span0 (attributes : Attributes) : ReadableSpan :=
  {| sp_name := "GET"; sp_status := (ERROR, Some "borrower secret"); sp_attributes := attributes;
     sp_links := [{| ln_traceId := "1"; ln_spanId := "2"; ln_attributes := Some [("user.id", VString "u")] |}];
     sp_events := []; sp_resource := [] |}.


(** ** What the filter lets through *)

(** The target of a request under its older name, and its query under its
    newer one, pass unchanged, and so do the attributes of a link. *)
Theorem a_query_is_exported :
  let exported := export (fun t => Some (before_query t)) text0
    [span0 [("http.target", VString "/v1/cases?borrower=secret"); ("url.query", VString "borrower=secret")]] in
  map sp_attributes exported = [[("http.target", VString "/v1/cases?borrower=secret"); ("url.query", VString "borrower=secret")]] /\
  map (fun s => map ln_attributes (sp_links s)) exported = [[Some [("user.id", VString "u")]]].
Proof. split; vm_compute; reflexivity. Qed.
End TelemetryTheorems.
