(* ===== verification/Queues.v ===== *)
(** * Lists for people

    The readers behind the queues of the console: unresolved budget claims
    (agent-budget-ledger.service.ts), disposition tasks
    (data-disposition.service.ts), the promotion history of providers
    (provider-promotion.service.ts), webhook endpoints
    (webhook-endpoint.service.ts), messages of a case
    (communication-message.service.ts); and the question whether a policy
    change concerns a case (check-policy-change-impact.tool.ts, asked by
    cases.service.ts).

    A row's createdAt is a parameter where no other part of the library needs
    the column. *)

From Stdlib Require Import Ascii SpecFloat.
From stdpp Require Import gmap strings list sorting.
From S2P Require Import Prelude BudgetLedger PolicyDsl PolicyDigest PolicyResolver PolicyEvaluation PolicyActivation Concurrency ProviderTables Consent ProviderPlatform ProviderDispatch WebhookGuard Outbox WebhookDelivery Communications.

Module Queues.
#[local] Existing Instance Ledger.AgentBudgetReservationStatus_eq_dec.

(** ORDER BY key DESC *)
Definition order_by_desc {A} (key : A -> Z) : list A -> list A := order_by (fun a => - key a).

(** ORDER BY key ASC, id ASC *)
Definition before_by {A} (key : A -> Z) (id : A -> string) (a b : A) : Prop :=
  key a < key b \/ key a = key b /\ (id a ≤ id b)%string.
#[export] Instance before_by_dec {A} (key : A -> Z) id a b : Decision (before_by key id a b).
Proof. unfold before_by. apply _. Defined.

Definition bounded (limit : Z) : nat := Z.to_nat (Z.min (Z.max limit 1) 100).

Section Lists.
Context (reservation_createdAt : Ledger.AgentBudgetReservation -> Z).
Context (endpoint_createdAt : Hooks.WebhookEndpoint -> Z) (message_createdAt : Comms.CommunicationMessage -> Z).

(** ** Budget claims without an outcome *)

Definition unknown_of (tenantId : string) (r : Ledger.AgentBudgetReservation) : bool :=
  String.eqb (Ledger.rs_tenantId r) tenantId && bool_decide (Ledger.rs_status r = Ledger.Unknown).

Definition listUnknown (tenantId : string) (limit : Z) (db : Ledger.DB) : result Ledger.Failure (list Ledger.AgentBudgetReservation) :=
  if negb (JS.isSafeInteger limit) || (limit <? 1) || (100 <? limit)
  then Err (Ledger.AgentBudgetError Ledger.RESERVATION_CONFLICT "Unknown-reservation page size must be between 1 and 100")
  else Ok (take (Z.to_nat limit)
           (merge_sort (before_by reservation_createdAt Ledger.rs_id) (find_rows (unknown_of tenantId) (Ledger.reservations db)))).

(** ** Disposition tasks *)

Import Tables.

Definition task_of (tenantId : string) (status : DataDispositionTaskStatus) (t : DataDispositionTask) : bool :=
  String.eqb (dt_tenantId t) tenantId && bool_decide (dt_status t = status).

Definition listForCase (tenantId caseId : string) (db : Db) : list DataDispositionTask :=
  order_by_desc dt_createdAt
    (find_rows (fun t => String.eqb (dt_tenantId t) tenantId && String.eqb (dt_caseId t) caseId) (tasks db)).

Definition listOpen (tenantId : string) (limit : Z) (db : Db) : list DataDispositionTask :=
  take (bounded limit) (order_by dt_createdAt (find_rows (task_of tenantId PENDING) (tasks db))).

(** In an ascending order nulls come last. *)
Definition nulls_last {A} (key : A -> option Z) (l : list A) : list A :=
  order_by (fun a => default 0 (key a)) (List.filter (fun a => bool_decide (is_Some (key a))) l) ++
  List.filter (fun a => bool_decide (key a = None)) l.

Definition listAwaitingBackupExpiry (tenantId : string) (limit : Z) (db : Db) : list DataDispositionTask :=
  take (bounded limit) (nulls_last dt_backupExpiryDueAt (find_rows (task_of tenantId COMPLETED) (tasks db))).

(** ** Promotions *)

Definition listManifests (limit : Z) (db : Db) : list ProviderPromotionManifest :=
  take (bounded limit) (order_by_desc mf_proposedAt (rows (manifests db))).

Definition getManifest (manifestId : string) (db : Db) : result Failure ProviderPromotionManifest :=
  match manifests db !! manifestId with Some m => Ok m | None => Err EntityNotFound end.

Definition listCertifications (manifestId : string) (db : Db) : list ProviderCertificationRecord :=
  order_by_desc ce_decidedAt (find_rows (fun c => String.eqb (ce_manifestId c) manifestId) (certifications db)).

Definition listApprovals (manifestId : string) (db : Db) : list ProviderApprovalRecord :=
  order_by_desc pr_decidedAt (find_rows (fun a => String.eqb (pr_manifestId a) manifestId) (approvals db)).

Definition getActivation (t : Tuple) (db : Db) : option ProviderActivation := activations db !! t.

Definition listActivations (db : Db) : list (Tuple * ProviderActivation) :=
  order_by_desc (fun a => ac_activatedAt a.2) (map_to_list (activations db)).

(** ** Webhooks and messages *)

(** ORDER BY createdAt DESC, id DESC *)
Definition list_endpoints (tenantId : string) (db : Hooks.Db) : list Hooks.WebhookEndpoint :=
  reverse (merge_sort (before_by endpoint_createdAt Hooks.we_id)
    (find_rows (fun e => String.eqb (Hooks.we_tenantId e) tenantId) (Hooks.endpoints db))).

Definition list_messages (tenantId caseId : string) (db : Comms.Db) : list Comms.CommunicationMessage :=
  order_by_desc message_createdAt
    (find_rows (fun m => String.eqb (Comms.cm_tenantId m) tenantId && String.eqb (Comms.cm_caseId m) caseId) (Comms.messages db)).
End Lists.

(** ** Does a policy change concern a case *)

Section Impact.
Import Activation.
(** The time, the resolver of the dry run, and how the log formats an error. *)
Context {RES : Evaluation.PolicyResolver} (now : Z) (message_of : Activation.Failure -> string).

Record CheckPolicyChangeImpactResult := { ck_assessed : bool; ck_impact : option PolicyChangeImpactKind }.

(** [checkPolicyChangeImpactTool(deps).execute] *)
Definition checkPolicyChangeImpactTool (tenantId caseId policyVersionId : string) : M CatalogDb Activation.Failure CheckPolicyChangeImpactResult :=
  assessment ← assessImpactForCase now tenantId caseId policyVersionId;
  match assessment with
  | None => mret {| ck_assessed := false; ck_impact := None |}
  | Some a => mret {| ck_assessed := true; ck_impact := Some (as_impact a) |}
  end.

Inductive QuestionFailure := CaseNotFound (message : string) | ToolFailed (message : string).

Definition case_of (tenantId caseId : string) (db : CatalogDb) : option LoanCase :=
  List.find (fun c => String.eqb (lc_id c) caseId && String.eqb (lc_tenantId c) tenantId) (loan_cases db).

(** [CasesService.checkPolicyChangeImpact]: [invokeTool] turns what the tool
    throws into an outcome. *)
Definition checkPolicyChangeImpact (tenantId caseId policyVersionId : string) : M CatalogDb QuestionFailure CheckPolicyChangeImpactResult :=
  loanCase ← gets (case_of tenantId caseId);
  match loanCase with
  | None => throw (CaseNotFound ("Case " +:+ caseId +:+ " not found"))
  | Some _ =>
      Threads.zoom id (fun db _ => db) (fun e => ToolFailed ("check_policy_change_impact failed: " +:+ message_of e))
        (checkPolicyChangeImpactTool tenantId caseId policyVersionId)
  end.
End Impact.

(** ** What a queue shows *)

Section Oldest.
Context {A : Type} (key : A -> Z).

Lemma insert_by_sorted a l : StronglySorted (fun x y => key x <= key y) l ->
  StronglySorted (fun x y => key x <= key y) (insert_by key a l).
Proof.
  induction 1 as [|b l Hl IH Hb]; cbn; [repeat constructor|].
  destruct (Z.leb_spec (key a) (key b)).
  - constructor; [by constructor|]. constructor; [lia|]. eapply Forall_impl; [exact Hb|]. cbn. lia.
  - constructor; [done|]. rewrite insert_by_Permutation. constructor; [lia|done].
Qed.

Lemma order_by_sorted l : StronglySorted (fun x y => key x <= key y) (order_by key l).
Proof. induction l as [|a l IH]; cbn; [constructor|]. by apply insert_by_sorted. Qed.

(** Shows [s] of [l]: at most [n] rows, in order, and nothing is left out that
    comes before something shown. *)
Definition shows (n : nat) (l s : list A) : Prop :=
  length s = (n `min` length l)%nat /\ StronglySorted (fun x y => key x <= key y) s /\
  exists rest, l ≡ₚ s ++ rest /\ forall x y, x ∈ s -> y ∈ rest -> key x <= key y.

Lemma take_shows_sorted n l l' : l' ≡ₚ l -> StronglySorted (fun x y => key x <= key y) l' -> shows n l (take n l').
Proof.
  intros Hp Hs. rewrite <- (take_drop n l') in Hs. apply StronglySorted_app in Hs as (Hb & Hs & _). split_and!.
  - by rewrite length_take, Hp.
  - done.
  - exists (drop n l'). split; [by rewrite take_drop|]. exact Hb.
Qed.

Lemma take_shows n l : shows n l (take n (order_by key l)).
Proof. apply take_shows_sorted; [apply order_by_Permutation|apply order_by_sorted]. Qed.

Context (id : A -> string).
#[local] Instance before_by_total : Total (before_by key id).
Proof.
  intros a b. unfold before_by. destruct (Z.lt_total (key a) (key b)) as [|[E|]]; [by left; left| |by right; left].
  destruct (total String.le (id a) (id b)); [left|right]; right; by split.
Qed.
#[local] Instance before_by_trans : Transitive (before_by key id).
Proof.
  intros a b c [H1|[H1 H1']] [H2|[H2 H2']]; [left; lia..|right; split; [lia|]]. by etrans.
Qed.

Lemma take_shows_by n l : shows n l (take n (merge_sort (before_by key id) l)).
Proof.
  apply take_shows_sorted; [apply merge_sort_Permutation|].
  assert (StronglySorted (before_by key id) (merge_sort (before_by key id) l)) as H
    by (apply StronglySorted_merge_sort; apply _).
  induction H as [|x l' _ IH Hx]; constructor; [done|]. eapply Forall_impl; [exact Hx|]. intros y [?|[? _]]; lia.
Qed.
End Oldest.

Section Guarantees.
Context (reservation_createdAt : Ledger.AgentBudgetReservation -> Z).

(** The queues of a tenant: the oldest of what waits for a decision, in order,
    at most as many as asked for; a page of claims outside 1 to 100 is
    refused, a page of tasks is cut to that range. *)
Theorem queues_show_the_oldest tenantId limit (ldb : Ledger.DB) (db : Tables.Db) :
  (1 <= limit <= 100 -> exists s, listUnknown reservation_createdAt tenantId limit ldb = Ok s /\
     shows reservation_createdAt (Z.to_nat limit) (find_rows (unknown_of tenantId) (Ledger.reservations ldb)) s) /\
  (limit < 1 \/ 100 < limit -> exists message,
     listUnknown reservation_createdAt tenantId limit ldb = Err (Ledger.AgentBudgetError Ledger.RESERVATION_CONFLICT message)) /\
  shows Tables.dt_createdAt (bounded limit) (find_rows (task_of tenantId Tables.PENDING) (Tables.tasks db)) (listOpen tenantId limit db) /\
  (1 <= bounded limit <= 100)%nat.
Proof.
  split_and!.
  - intros H. unfold listUnknown, JS.isSafeInteger. rewrite (proj2 (Z.leb_le _ _)), (proj2 (Z.ltb_ge _ _)), (proj2 (Z.ltb_ge _ _)) by lia.
    eexists. split; [reflexivity|]. apply take_shows_by.
  - intros H. unfold listUnknown. destruct (_ || _) eqn:E; [eauto|]. exfalso.
    rewrite !orb_false_iff, !Z.ltb_ge in E. lia.
  - apply take_shows.
  - unfold bounded. lia.
  - unfold bounded. lia.
Qed.
End Guarantees.

Section Advice.
Import Activation.
Context {RES : Evaluation.PolicyResolver} (HL : Evaluation.ResolverLaws) (now : Z) (message_of : Activation.Failure -> string).

(** What one assessment records. *)
Definition records_of (c : LoanCase) (policyVersionId : string) (new : list PolicyChangeImpactAssessment) : Prop :=
  Forall (fun a => as_tenantId a = lc_tenantId c /\ as_caseId a = lc_id c /\ as_policyVersionId a = policyVersionId) new.

Lemma assessOneCase_records c v j p e db :
  match assessOneCase now c v j p e db with
  | (Ok o, db') => assessments db' = assessments db ++ option_list o /\ records_of c v (option_list o)
  | (Err _, _) => True
  end.
Proof using HL.
  unfold assessOneCase. unfold mbind, M_bind, gets.
  destruct (Evaluation.active_binding (lc_tenantId c) (lc_id c) (policy db)) as [b|]; [|split; [symmetry; apply app_nil_r|constructor]].
  destruct (Evaluation.snapshots (policy db) !! Evaluation.bd_policySnapshotId b) as [sn|]; [|done]. cbn [or_throw mret M_ret].
  unfold dry_run. destruct (Evaluation.resolve_with _ _ _) as [[r|e'] p']; [|done].
  cbn. split; [done|]. by constructor.
Qed.

(** Asking whether a change concerns a case changes neither the catalog nor a
    binding; it records at most one assessment, of that case, and exactly when
    it says so; and of a case of another tenant it says only that there is
    none. *)
Theorem impact_question_is_advisory tenantId caseId policyVersionId db :
  let '(r, db') := checkPolicyChangeImpact now message_of tenantId caseId policyVersionId db in
  same_catalog db db' /\
  match case_of tenantId caseId db with
  | None => r = Err (CaseNotFound ("Case " +:+ caseId +:+ " not found")) /\ db' = db
  | Some c => exists new, assessments db' = assessments db ++ new /\ (length new <= 1)%nat /\ records_of c policyVersionId new /\
      lc_tenantId c = tenantId /\ lc_id c = caseId /\
      match r with Ok a => ck_assessed a = bool_decide (length new = 1%nat) | Err _ => new = [] end
  end.
Proof using HL.
  unfold checkPolicyChangeImpact. unfold mbind, M_bind, gets.
  destruct (case_of tenantId caseId db) as [c|] eqn:Ec; [|by cbn].
  pose proof Ec as Hc. apply List.find_some in Hc as [_ Hc].
  apply andb_true_iff in Hc as [Hid%String.eqb_eq Ht%String.eqb_eq].
  unfold Threads.zoom, checkPolicyChangeImpactTool, id. unfold mbind, M_bind.
  assert (assessImpactForCase now tenantId caseId policyVersionId db =
    transaction (assessOneCase now c policyVersionId (lc_jurisdictionCode c) (loanTypeToProductCode (lc_loanType c))
      UNDERWRITING_REVIEW_LIFECYCLE_EVENT) db) as ->.
  { unfold assessImpactForCase, transaction. unfold mbind, M_bind, gets. fold (case_of tenantId caseId db). by rewrite Ec. }
  unfold transaction. set (m := assessOneCase _ _ _ _ _ _).
  assert (same_catalog db (m db).2) as Ha by apply (assessOneCase_advisory HL).
  assert (match m db with (Ok o, db') => assessments db' = assessments db ++ option_list o /\ records_of c policyVersionId (option_list o)
    | (Err _, _) => True end) as Hr by apply assessOneCase_records.
  destruct (m db) as [[o|e] db']; cbn in *.
  - destruct Hr as [Hr Hw]. destruct o as [a|]; (split; [done|]); eexists; (split; [exact Hr|]); split_and!; try done; cbn; lia.
  - split; [done|]. exists []. rewrite app_nil_r. by split_and!; [|cbn; lia|constructor|..].
Qed.
End Advice.
End Queues.
