(* ===== verification/HttpRoutes.v ===== *)
(** * The routes of the server

    The endpoints of the controllers and resolvers with the decorators that
    guard them, the matching of a request's path against the routes in the
    order of their registration, and the guards that run before an endpoint
    (auth/role.guard.ts reads the roles that are declared on the handler).

    An endpoint has its class and its method; guards and roles may stand on
    either.  Matching is that of the router of the framework: the first route
    whose pattern fits, a parameter fitting any one segment. *)

From Stdlib Require Import Ascii SpecFloat.
From stdpp Require Import gmap strings list.
From S2P Require Import Prelude Encoding KeyRings BudgetLedger PolicyDsl PolicyDigest PolicyResolver PolicyEvaluation PolicyActivation Concurrency ProviderTables Outbox Communications AgentTables AuthTables OidcService OidcSessions GuestSandbox AuthGuards.

Module Routes.
Import Threads Auth.

(** ** Endpoints *)

Inductive Endpoint :=
(* auth.controller.ts *)
| beginSessionLogin | completeSessionLogin | getSession | endSession | listMyTenants
(* guest-sandbox.controller.ts *)
| createSandboxSession | getSandboxSession | removeSandboxSession | createSandboxCase
(* cases.controller.ts *)
| createCase | listWorkflowOperations | getCase | getTimeline | startWorkflow | getWorkflowRun | cancelWorkflowRun
| recoverWorkflowRun | submitReview | submitConsentAction | listConsents | escalate | checkPolicyChangeImpact
(* communication-messages.controller.ts *)
| listMessages | approveMessage | sendMessage
(* agent-budget.controller.ts *)
| aggregateUsage | listUnknownReservations | reconcileReservation
(* data-disposition.controller.ts *)
| listOpenTasks | listAwaitingBackupExpiry | resolveTask | verifyBackupExpiry
(* provider-operation-intent.controller.ts *)
| listReconciling | resolveIntent
(* webhook-endpoints.controller.ts, webhook-deliveries.controller.ts *)
| createEndpoint | listEndpoints | updateEndpoint | removeEndpoint | getDelivery
(* audit-events.controller.ts *)
| listAuditEvents | exportAuditEvents
(* provider-promotion.controller.ts *)
| listManifests | getManifestDetail | proposeManifest | certifyManifest | approveManifest | activateManifest
| listActivations | deactivateProvider
(* policy-catalog.controller.ts, policy-research.controller.ts, evaluation-report.controller.ts *)
| listPolicyVersions | listResearchRuns | listReports | getReport | downloadReport
(* health.controller.ts *)
| live | ready
(* cases.resolver.ts *)
| qlCase | qlCases | qlCaseStatusCounts | qlRecentActivity | qlStartWorkflowRun | qlSubmitReview | qlSubmitConsentAction
| qlEscalateCase | qlCheckPolicyChangeImpact
(* communication-messages.resolver.ts *)
| qlApproveMessage | qlSendMessage
(* loan.resolver.ts *)
| qlHealth | qlEvaluateLoan.

#[export] Instance Endpoint_eq : EqDecision Endpoint.
Proof. solve_decision. Defined.

Inductive Method := GET | POST | PATCH | DELETE.
#[export] Instance Method_eq : EqDecision Method.
Proof. solve_decision. Defined.

(** ** Controllers *)

Inductive Guard := TenantAuthGuard | PlatformAdminGuard | OidcIdentityGuard | RoleGuard.

(** A method of a controller or resolver: its route ([@Get], [@Post], ...; a
    field of GraphQL has none), [@UseGuards] and [@RequireRole]. *)
Record Handler := {
  h_endpoint : Endpoint; h_name : string; h_route : option (Method * string);
  h_guards : list Guard; h_roles : list ApiClientRole }.

Definition on (m : Method) (path name : string) (e : Endpoint) : Handler :=
  {| h_endpoint := e; h_name := name; h_route := Some (m, path); h_guards := []; h_roles := [] |}.
Definition field (name : string) (e : Endpoint) : Handler :=
  {| h_endpoint := e; h_name := name; h_route := None; h_guards := []; h_roles := [] |}.
(** [@UseGuards(RoleGuard) @RequireRole(ApiClientRole.REVIEWER)] *)
Definition reviewed (h : Handler) : Handler :=
  {| h_endpoint := h_endpoint h; h_name := h_name h; h_route := h_route h; h_guards := [RoleGuard]; h_roles := [REVIEWER] |}.
(** [@UseGuards(OidcIdentityGuard)] *)
Definition identified (h : Handler) : Handler :=
  {| h_endpoint := h_endpoint h; h_name := h_name h; h_route := h_route h; h_guards := [OidcIdentityGuard]; h_roles := [] |}.

(** A class, with the decorators it carries itself. *)
Record Controller := {
  c_name : string; c_prefix : string; c_guards : list Guard; c_roles : list ApiClientRole; c_handlers : list Handler }.

(** health/health.controller.ts *)
Definition HealthController : Controller :=
  {| c_name := "HealthController"; c_prefix := "health"; c_guards := []; c_roles := [];
    c_handlers :=
     [on GET "live" "live" live;
      on GET "ready" "ready" ready] |}.

(** auth/auth.controller.ts *)
Definition AuthController : Controller :=
  {| c_name := "AuthController"; c_prefix := "v1/auth"; c_guards := []; c_roles := [];
    c_handlers :=
     [on GET "session/login" "beginSessionLogin" beginSessionLogin;
      on GET "session/callback" "completeSessionLogin" completeSessionLogin;
      on GET "session" "getSession" getSession;
      on POST "session/logout" "endSession" endSession;
      identified (on GET "me/tenants" "listMyTenants" listMyTenants)] |}.

(** auth/guest-sandbox.controller.ts *)
Definition GuestSandboxController : Controller :=
  {| c_name := "GuestSandboxController"; c_prefix := "v1/demo-sandbox"; c_guards := []; c_roles := [];
    c_handlers :=
     [on POST "session" "create" createSandboxSession;
      on GET "session" "get" getSandboxSession;
      on DELETE "session" "remove" removeSandboxSession;
      on POST "cases" "createCase" createSandboxCase] |}.

(** audit/audit-events.controller.ts *)
Definition AuditEventsController : Controller :=
  {| c_name := "AuditEventsController"; c_prefix := "v1/audit-events"; c_guards := [TenantAuthGuard; RoleGuard]; c_roles := [REVIEWER];
    c_handlers :=
     [on GET "" "list" listAuditEvents;
      on GET "export" "export" exportAuditEvents] |}.

(** agent-runtime/agent-budget.controller.ts *)
Definition AgentBudgetController : Controller :=
  {| c_name := "AgentBudgetController"; c_prefix := "v1/agent-budget-reservations"; c_guards := [TenantAuthGuard]; c_roles := [];
    c_handlers :=
     [on GET "aggregate-usage" "aggregateUsage" aggregateUsage;
      reviewed (on GET "unknown" "listUnknown" listUnknownReservations);
      reviewed (on POST ":reservationId/reconcile" "reconcile" reconcileReservation)] |}.

(** cases/cases.controller.ts *)
Definition CasesController : Controller :=
  {| c_name := "CasesController"; c_prefix := "v1/loan-cases"; c_guards := [TenantAuthGuard]; c_roles := [];
    c_handlers :=
     [on POST "" "create" createCase;
      reviewed (on GET "workflow-operations" "listWorkflowOperations" listWorkflowOperations);
      on GET ":caseId" "get" getCase;
      on GET ":caseId/timeline" "getTimeline" getTimeline;
      on POST ":caseId/workflow-runs" "startWorkflow" startWorkflow;
      on GET ":caseId/workflow-runs/:runId" "getWorkflowRun" getWorkflowRun;
      reviewed (on POST ":caseId/workflow-runs/:runId/cancel" "cancelWorkflowRun" cancelWorkflowRun);
      reviewed (on POST ":caseId/workflow-runs/:runId/recover" "recoverWorkflowRun" recoverWorkflowRun);
      reviewed (on POST ":caseId/reviews" "submitReview" submitReview);
      on POST ":caseId/consents" "submitConsentAction" submitConsentAction;
      on GET ":caseId/consents" "listConsents" listConsents;
      on POST ":caseId/escalate" "escalate" escalate;
      on POST ":caseId/policy-change-impact" "checkPolicyChangeImpact" checkPolicyChangeImpact] |}.

(** policy/policy-catalog.controller.ts *)
Definition PolicyCatalogController : Controller :=
  {| c_name := "PolicyCatalogController"; c_prefix := "v1/platform-admin/policy-versions"; c_guards := [PlatformAdminGuard]; c_roles := [];
    c_handlers :=
     [on GET "" "list" listPolicyVersions] |}.

(** policy/policy-research.controller.ts *)
Definition PolicyResearchController : Controller :=
  {| c_name := "PolicyResearchController"; c_prefix := "v1/platform-admin/policy-research-runs"; c_guards := [PlatformAdminGuard]; c_roles := [];
    c_handlers :=
     [on GET "" "list" listResearchRuns] |}.

(** communications/communication-messages.controller.ts *)
Definition CommunicationMessagesController : Controller :=
  {| c_name := "CommunicationMessagesController"; c_prefix := "v1/loan-cases/:caseId/communication-messages"; c_guards := [TenantAuthGuard]; c_roles := [];
    c_handlers :=
     [on GET "" "list" listMessages;
      reviewed (on POST ":messageId/approve" "approve" approveMessage);
      on POST ":messageId/send" "send" sendMessage] |}.

(** webhooks/webhook-endpoints.controller.ts *)
Definition WebhookEndpointsController : Controller :=
  {| c_name := "WebhookEndpointsController"; c_prefix := "v1/webhook-endpoints"; c_guards := [TenantAuthGuard]; c_roles := [];
    c_handlers :=
     [on POST "" "create" createEndpoint;
      on GET "" "list" listEndpoints;
      on PATCH ":endpointId" "update" updateEndpoint;
      on DELETE ":endpointId" "remove" removeEndpoint] |}.

(** webhooks/webhook-deliveries.controller.ts *)
Definition WebhookDeliveriesController : Controller :=
  {| c_name := "WebhookDeliveriesController"; c_prefix := "v1/webhook-deliveries"; c_guards := [TenantAuthGuard]; c_roles := [];
    c_handlers :=
     [on GET ":deliveryId" "get" getDelivery] |}.

(** provider-platform/provider-operation-intent.controller.ts *)
Definition ProviderOperationIntentController : Controller :=
  {| c_name := "ProviderOperationIntentController"; c_prefix := "v1/provider-operation-intents"; c_guards := [TenantAuthGuard]; c_roles := [];
    c_handlers :=
     [reviewed (on GET "reconciling" "listReconciling" listReconciling);
      reviewed (on POST ":intentId/resolve" "resolve" resolveIntent)] |}.

(** provider-platform/provider-promotion.controller.ts *)
Definition ProviderPromotionController : Controller :=
  {| c_name := "ProviderPromotionController"; c_prefix := "v1/platform-admin/provider-promotions"; c_guards := [PlatformAdminGuard]; c_roles := [];
    c_handlers :=
     [on GET "manifests" "listManifests" listManifests;
      on GET "manifests/:manifestId" "getManifestDetail" getManifestDetail;
      on POST "manifests" "propose" proposeManifest;
      on POST "manifests/:manifestId/certifications" "certify" certifyManifest;
      on POST "manifests/:manifestId/approvals" "approve" approveManifest;
      on POST "manifests/:manifestId/activate" "activate" activateManifest;
      on GET "activations" "listActivations" listActivations;
      on POST "deactivate" "deactivate" deactivateProvider] |}.

(** data-disposition/data-disposition.controller.ts *)
Definition DataDispositionController : Controller :=
  {| c_name := "DataDispositionController"; c_prefix := "v1/data-disposition-tasks"; c_guards := [TenantAuthGuard]; c_roles := [];
    c_handlers :=
     [reviewed (on GET "open" "listOpen" listOpenTasks);
      reviewed (on GET "backup-expiry" "listAwaitingBackupExpiry" listAwaitingBackupExpiry);
      reviewed (on POST ":taskId/resolve" "resolve" resolveTask);
      reviewed (on POST ":taskId/verify-backup-expiry" "verifyBackupExpiry" verifyBackupExpiry)] |}.

(** evaluation/evaluation-report.controller.ts *)
Definition EvaluationReportController : Controller :=
  {| c_name := "EvaluationReportController"; c_prefix := "v1/platform-admin/evaluation-reports"; c_guards := [PlatformAdminGuard]; c_roles := [];
    c_handlers :=
     [on GET "" "list" listReports;
      on GET ":id" "get" getReport;
      on GET ":id/download" "download" downloadReport] |}.

(** cases/cases.resolver.ts: the queries and mutations *)
Definition CasesResolver : Controller :=
  {| c_name := "CasesResolver"; c_prefix := ""; c_guards := [TenantAuthGuard]; c_roles := [];
    c_handlers :=
     [field "case" qlCase;
      field "cases" qlCases;
      field "caseStatusCounts" qlCaseStatusCounts;
      field "recentActivity" qlRecentActivity;
      field "startWorkflowRun" qlStartWorkflowRun;
      reviewed (field "submitReview" qlSubmitReview);
      field "submitConsentAction" qlSubmitConsentAction;
      field "escalateCase" qlEscalateCase;
      field "checkPolicyChangeImpact" qlCheckPolicyChangeImpact] |}.

(** communications/communication-messages.resolver.ts *)
Definition CommunicationMessagesResolver : Controller :=
  {| c_name := "CommunicationMessagesResolver"; c_prefix := ""; c_guards := [TenantAuthGuard]; c_roles := [];
    c_handlers :=
     [reviewed (field "approveCommunicationMessage" qlApproveMessage);
      field "sendCommunicationMessage" qlSendMessage] |}.

(** loan/loan.resolver.ts *)
Definition LoanResolver : Controller :=
  {| c_name := "LoanResolver"; c_prefix := ""; c_guards := []; c_roles := [];
    c_handlers :=
     [field "health" qlHealth;
      field "evaluateLoan" qlEvaluateLoan] |}.

Definition controllers : list Controller :=
  [HealthController; AuthController; GuestSandboxController; AuditEventsController; AgentBudgetController;
   CasesController; PolicyCatalogController; PolicyResearchController; CommunicationMessagesController;
   WebhookEndpointsController; WebhookDeliveriesController; ProviderOperationIntentController;
   ProviderPromotionController; DataDispositionController; EvaluationReportController; CasesResolver;
   CommunicationMessagesResolver; LoanResolver].

Definition handlers : list (Controller * Handler) :=
  concat (map (fun c => map (pair c) (c_handlers c)) controllers).

Definition handler_of (e : Endpoint) : option (Controller * Handler) :=
  List.find (fun '(_, h) => bool_decide (h_endpoint h = e)) handlers.

(** ** Paths *)

(** A segment of a pattern: a literal, or [:name]. *)
Inductive Segment := Lit (s : string) | Param (name : string).

Definition segment (s : string) : Segment :=
  match s with String ":" name => Param name | s => Lit s end.

(** The path of a decorator, [prefix] of the class and [path] of the method. *)
Definition pattern (prefix path : string) : list Segment :=
  map segment (List.filter JS.truthy (JS.split_on "/" prefix ++ JS.split_on "/" path)).

Definition route (e : Endpoint) : option (Method * list Segment) :=
  '(c, h) ← handler_of e;
  '(m, path) ← h_route h;
  Some (m, pattern (c_prefix c) path).

(** The values of a pattern's parameters in a path. *)
Fixpoint bind_path (p : list Segment) (path : list string) : option (list (string * string)) :=
  match p, path with
  | [], [] => Some []
  | Lit s :: p, t :: path => if String.eqb (Comms.toLowerCase s) (Comms.toLowerCase t) then bind_path p path else None
  | Param name :: p, t :: path => ps ← bind_path p path; Some ((name, t) :: ps)
  | _, _ => None
  end.

Definition fits (m : Method) (path : list string) (e : Endpoint) : option (Endpoint * list (string * string)) :=
  match route e with
  | Some (m', p) => if bool_decide (m = m') then ps ← bind_path p path; Some (e, ps) else None
  | None => None
  end.

Fixpoint first_fit (m : Method) (path : list string) (es : list Endpoint) : option (Endpoint * list (string * string)) :=
  match es with
  | [] => None
  | e :: es => match fits m path e with Some r => Some r | None => first_fit m path es end
  end.

Definition endpoints_of (c : Controller) : list Endpoint := map h_endpoint (c_handlers c).

(** The router, for the controllers in the order in which they were
    registered. *)
Definition find_route (registered : list Controller) (m : Method) (path : list string)
  : option (Endpoint * list (string * string)) :=
  first_fit m path (concat (map endpoints_of registered)).

(** ** Decorators *)

(** [@UseGuards] and [@RequireRole] of the class and of the method. *)
Record Decorators := {
  de_class_guards : list Guard; de_class_roles : list ApiClientRole;
  de_guards : list Guard; de_roles : list ApiClientRole }.

Definition decorators (e : Endpoint) : Decorators :=
  match handler_of e with
  | Some (c, h) =>
      {| de_class_guards := c_guards c; de_class_roles := c_roles c; de_guards := h_guards h; de_roles := h_roles h |}
  | None => {| de_class_guards := []; de_class_roles := []; de_guards := []; de_roles := [] |}
  end.

(** [`${context.getClass().name}.${context.getHandler().name}`] *)
Definition handler_name (e : Endpoint) : string :=
  match handler_of e with Some (c, h) => c_name c +:+ "." +:+ h_name h | None => "" end.

(** ** Running the guards *)

(** What the guards leave on the request. *)
Record Context_ := {
  ct_auth : option AuthContext;
  ct_admin : option PlatformAdminContext;
  ct_identity : option OidcIdentityContext }.
Definition no_context : Context_ := {| ct_auth := None; ct_admin := None; ct_identity := None |}.

(** What authentication offers the transports. *)
Class Authentication := {
  authenticate : HttpRequest -> prog AuthContext;
  administer : HttpRequest -> prog PlatformAdminContext;
  identify : HttpRequest -> prog OidcIdentityContext }.

Section Guarding.
Context `{Authentication} (recorded : bool).

(** [reflector.get(REQUIRED_ROLES_KEY, context.getHandler())]: the roles that
    are declared on the handler. *)
Definition required_roles (d : Decorators) : list ApiClientRole := de_roles d.

Definition run_guard (e : Endpoint) (request : HttpRequest) (g : Guard) (ct : Context_) : prog Context_ :=
  match g with
  | TenantAuthGuard =>
      c ← authenticate request;
      mret {| ct_auth := Some c; ct_admin := ct_admin ct; ct_identity := ct_identity ct |}
  | PlatformAdminGuard =>
      c ← administer request;
      mret {| ct_auth := ct_auth ct; ct_admin := Some c; ct_identity := ct_identity ct |}
  | OidcIdentityGuard =>
      c ← identify request;
      mret {| ct_auth := ct_auth ct; ct_admin := ct_admin ct; ct_identity := Some c |}
  | RoleGuard =>
      match required_roles (decorators e), ct_auth ct with
      | [], _ => mret ct
      | _, None => Threads.fail (OtherError "RoleGuard used without TenantAuthGuard")
      | required, Some c => _ ← Guards.RoleGuard recorded required (handler_name e) c; mret ct
      end
  end.

Fixpoint run_all (e : Endpoint) (request : HttpRequest) (gs : list Guard) (ct : Context_) : prog Context_ :=
  match gs with
  | [] => mret ct
  | g :: gs => ct ← run_guard e request g ct; run_all e request gs ct
  end.

(** Guards of the class, then of the method. *)
Definition run_guards (e : Endpoint) (request : HttpRequest) : prog Context_ :=
  run_all e request (de_class_guards (decorators e) ++ de_guards (decorators e)) no_context.
End Guarding.
End Routes.
