(* ===== verification/RouteTheorems.v ===== *)
(** * What the routes and their guards guarantee

    No route hides another; the endpoint that a request reaches sees a context
    its credential earned, and only a role that is declared on the handler is
    enforced.  Authentication is an interface here: the theorems hold of every
    implementation with its laws, and auth/'s has them. *)

From Stdlib Require Import Ascii SpecFloat.
From stdpp Require Import gmap strings list.
From S2P Require Import Prelude Encoding KeyRings BudgetLedger PolicyDsl PolicyDigest PolicyResolver PolicyEvaluation PolicyActivation Concurrency ProviderTables Outbox Communications AgentTables AgentExamples AuthTables OidcService OidcSessions GuestSandbox AuthGuards AuthExamples AuthTheorems HttpRoutes.

Module RouteTheorems.
Import Threads Encoding Auth Routes.

(** ** Paths *)

(** A path that fits the pattern, with these values for its parameters. *)
Definition fill (v : string -> string) (p : list Segment) : list string :=
  map (fun s => match s with Lit s => s | Param n => v n end) p.
Definition bound (v : string -> string) (p : list Segment) : list (string * string) :=
  omap (fun s => match s with Lit _ => None | Param n => Some (n, v n) end) p.

Lemma bind_fill v p : bind_path p (fill v p) = Some (bound v p).
Proof.
  induction p as [|[s|n] p IH]; cbn; [done| |].
  - by rewrite String.eqb_refl.
  - fold (fill v p). by rewrite IH.
Qed.

Lemma length_toLowerCase s : String.length (Comms.toLowerCase s) = String.length s.
Proof. induction s as [|c s IH]; cbn; [done|by rewrite IH]. Qed.

Lemma length_split sep s :
  String.length s = (list_sum (map String.length (JS.split_on sep s)) + (length (JS.split_on sep s) - 1))%nat.
Proof.
  induction s as [|c s IH]; cbn [JS.split_on String.length]; [done|].
  destruct (Ascii.eqb c sep); cbn [map list_sum foldr length].
  - rewrite IH. destruct (JS.split_on sep s) as [|p ps] eqn:E; [by apply Ciphers.split_on_nonempty in E|].
    cbn [length]. unfold list_sum. cbn. lia.
  - destruct (JS.split_on sep s) as [|p ps] eqn:E; [by apply Ciphers.split_on_nonempty in E|].
    rewrite IH. unfold list_sum. cbn. lia.
Qed.

Lemma uuid_length s : UUID_PATTERN s = true -> String.length s = 36%nat.
Proof.
  intros H. rewrite (length_split "-"). unfold UUID_PATTERN in H.
  destruct (JS.split_on "-" s) as [|a [|b [|c [|d [|e [|? ?]]]]]]; try discriminate H.
  apply andb_true_iff in H as [H%bool_decide_eq_true _]. rewrite H. reflexivity.
Qed.

(** May a path that fills [q] with UUIDs also fit [p]? *)
Fixpoint clash (p q : list Segment) : bool :=
  match p, q with
  | [], [] => true
  | Lit s :: p, Lit t :: q => String.eqb (Comms.toLowerCase s) (Comms.toLowerCase t) && clash p q
  | Lit s :: p, Param _ :: q => (String.length s =? 36)%nat && clash p q
  | Param _ :: p, _ :: q => clash p q
  | _, _ => false
  end.

Lemma clash_bind v p q :
  (forall n, UUID_PATTERN (v n) = true) -> clash p q = false -> bind_path p (fill v q) = None.
Proof.
  intros Hv. revert q. induction p as [|[s|n] p IH]; intros [|[t|m] q]; cbn; try done.
  - destruct (String.eqb _ _); cbn; [apply IH|done].
  - destruct (String.eqb_spec (Comms.toLowerCase s) (Comms.toLowerCase (v m))) as [E|]; [|done].
    apply (f_equal String.length) in E. rewrite !length_toLowerCase, (uuid_length _ (Hv m)) in E.
    rewrite E. cbn. apply IH.
  - intros H. fold (fill v q). by rewrite IH.
  - intros H. fold (fill v q). by rewrite IH.
Qed.

(** The endpoints before [e], as far as they answer its method, do not clash
    with it. *)
Definition hidden_by (e f : Endpoint) : bool :=
  match route e, route f with
  | Some (m, q), Some (m', p) => bool_decide (m' = m) && clash p q
  | _, _ => false
  end.
Fixpoint reached_in (es : list Endpoint) (e : Endpoint) : bool :=
  match es with
  | [] => false
  | f :: es => if bool_decide (f = e) then true else negb (hidden_by e f) && reached_in es e
  end.

Lemma first_fit_reached v es e m p :
  (forall n, UUID_PATTERN (v n) = true) -> route e = Some (m, p) -> reached_in es e = true ->
  first_fit m (fill v p) es = Some (e, bound v p).
Proof.
  intros Hv He. induction es as [|f es IH]; cbn [reached_in first_fit]; [done|].
  destruct (bool_decide_reflect (f = e)) as [->|].
  - intros _. unfold fits. rewrite He, bool_decide_eq_true_2, bind_fill by done. done.
  - intros [Hh Hr]%andb_true_iff. unfold fits. unfold hidden_by in Hh. rewrite He in Hh.
    destruct (route f) as [[m' q]|]; [|by apply IH].
    case_bool_decide as Hm; cycle 1.
    { case_bool_decide; [by subst|by apply IH]. }
    subst m'. rewrite bool_decide_eq_true_2 by done. cbn in Hh. apply negb_true_iff in Hh.
    rewrite (clash_bind v q p Hv Hh). by apply IH.
Qed.

Definition unhidden (e : Endpoint) (es : list Endpoint) : bool := forallb (fun f => negb (hidden_by e f)) es.

Lemma reached_in_app e es es' :
  reached_in es e = true \/ unhidden e es = true /\ reached_in es' e = true -> reached_in (es ++ es') e = true.
Proof.
  induction es as [|f es IH]; cbn.
  - intros [H|[_ H]]; done.
  - destruct (bool_decide (f = e)); [done|].
    intros [[H1 H2]%andb_true_iff|[[H1 H2]%andb_true_iff H3]]; rewrite H1; cbn; apply IH; [by left|by right].
Qed.

Lemma reached_any_order e cs :
  (exists c, c ∈ cs /\ reached_in (endpoints_of c) e = true) ->
  (forall c, c ∈ cs -> reached_in (endpoints_of c) e = true \/ unhidden e (endpoints_of c) = true) ->
  reached_in (concat (map endpoints_of cs)) e = true.
Proof.
  induction cs as [|c cs IH]; intros (c0 & Hc0 & Hr) H; [by apply elem_of_nil in Hc0|].
  cbn. apply reached_in_app. destruct (H c ltac:(by left)) as [?|Hu]; [by left|].
  apply elem_of_cons in Hc0 as [->|Hc0]; [by left|]. right. split; [done|].
  apply IH; [by exists c0|]. intros c' Hc'. apply H. by right.
Qed.

Lemma controllers_apart e : is_Some (route e) ->
  (exists c, c ∈ controllers /\ reached_in (endpoints_of c) e = true) /\
  (forall c, c ∈ controllers -> reached_in (endpoints_of c) e = true \/ unhidden e (endpoints_of c) = true).
Proof.
  intros [r Hr].
  assert (existsb (fun c => reached_in (endpoints_of c) e) controllers &&
    forallb (fun c => reached_in (endpoints_of c) e || unhidden e (endpoints_of c)) controllers = true) as H
    by (destruct e; try discriminate Hr; vm_compute; reflexivity).
  rewrite andb_true_iff, existsb_exists, forallb_forall in H. destruct H as [(c & Hc & H1) H2].
  split; [exists c; split; [by apply list_elem_of_In|done]|].
  intros c' Hc'. apply orb_true_iff, H2. by apply list_elem_of_In.
Qed.

(** C36: No route hides another: in whatever order the controllers are
    registered, a request with the method of an endpoint, to its path with
    UUIDs for the parameters, is routed to that endpoint with those
    parameters, although for one path several patterns fit. *)
Theorem every_endpoint_is_reached registered e m p v :
  registered ≡ₚ controllers -> (forall n, UUID_PATTERN (v n) = true) -> route e = Some (m, p) ->
  find_route registered m (fill v p) = Some (e, bound v p).
Proof.
  intros Hp Hv He. apply first_fit_reached; [done..|].
  destruct (controllers_apart e ltac:(by eexists)) as [H1 H2]. apply reached_any_order.
  - destruct H1 as (c & Hc & H1). exists c. split; [by rewrite Hp|done].
  - intros c Hc. apply H2. by rewrite <- Hp.
Qed.

Lemma every_endpoint_is_reached_witness :
  let id := AuthExamples.uuid0 3 in
  find_route (reverse controllers) GET ["v1"; "loan-cases"; id] = Some (getCase, [("caseId", id)]) /\
  find_route controllers GET ["v1"; "loan-cases"; "workflow-operations"] = Some (listWorkflowOperations, []).
Proof.
  split.
  - apply (every_endpoint_is_reached (reverse controllers) getCase GET (pattern "v1/loan-cases" ":caseId")
      (fun _ => AuthExamples.uuid0 3)); [apply reverse_Permutation|intros n; vm_compute; reflexivity|reflexivity].
  - apply (every_endpoint_is_reached controllers listWorkflowOperations GET
      (pattern "v1/loan-cases" "workflow-operations") (fun _ => AuthExamples.uuid0 3));
      [reflexivity|intros n; vm_compute; reflexivity|reflexivity].
Defined.

(** ** Guards *)

Definition guards_of (e : Endpoint) : list Guard :=
  (de_class_guards (decorators e) ++ de_guards (decorators e))%list.

(** What answers a request that proves nothing: login and logout, the sandbox,
    the health probes, and GraphQL's [health] and [evaluateLoan]. *)
Definition public_endpoints : list Endpoint :=
  [beginSessionLogin; completeSessionLogin; getSession; endSession; createSandboxSession; getSandboxSession;
   removeSandboxSession; createSandboxCase; live; ready; qlHealth; qlEvaluateLoan].

Lemma public_unguarded e : guards_of e = [] <-> e ∈ public_endpoints.
Proof.
  assert (match guards_of e with [] => true | _ => false end = bool_decide (e ∈ public_endpoints)) as H
    by (destruct e; vm_compute; reflexivity).
  destruct (guards_of e); case_bool_decide; done.
Qed.

(** The endpoints of the same operation. *)
Definition twins : list (Endpoint * Endpoint) :=
  [(getCase, qlCase); (startWorkflow, qlStartWorkflowRun); (submitReview, qlSubmitReview);
   (submitConsentAction, qlSubmitConsentAction); (escalate, qlEscalateCase);
   (checkPolicyChangeImpact, qlCheckPolicyChangeImpact); (approveMessage, qlApproveMessage); (sendMessage, qlSendMessage)].

(** Both transports guard an operation alike. *)
Lemma twins_are_guarded_alike : Forall (fun '(r, q) => decorators r = decorators q) twins.
Proof. repeat (constructor; [vm_compute; reflexivity|]). constructor. Qed.

Notation hist := (list State).
Notation yields := (along (E := Failure) (R := Reply) (fun (_ : hist) (_ : Request) => True)).
Notation if_ok := AuthTheorems.if_ok.

(** What an implementation of authentication promises: the context it hands on
    was earned by the request, as states that were seen bear out. *)
Class AuthenticationLaws (H : Authentication) (tenant_earned : HttpRequest -> AuthContext -> hist -> Prop)
  (admin_earned : HttpRequest -> PlatformAdminContext -> hist -> Prop)
  (identity_earned : HttpRequest -> OidcIdentityContext -> hist -> Prop) := {
  authenticate_earned rq h : yields (if_ok (tenant_earned rq)) (authenticate rq) h;
  administer_earned rq h : yields (if_ok (admin_earned rq)) (administer rq) h;
  identify_earned rq h : yields (if_ok (identity_earned rq)) (identify rq) h;
  tenant_earned_lasting rq : AuthTheorems.lasting (tenant_earned rq) }.

Section Guarded.
Context `{Laws : AuthenticationLaws} (recorded : bool).

(** What a handler may rely on. *)
Definition served_with (e : Endpoint) (rq : HttpRequest) (ct : Context_) (h : hist) : Prop :=
  (TenantAuthGuard ∈ guards_of e ->
    exists c, ct_auth ct = Some c /\ tenant_earned rq c h /\
      (de_roles (decorators e) <> [] -> cx_role c ∈ de_roles (decorators e))) /\
  (PlatformAdminGuard ∈ guards_of e -> exists c, ct_admin ct = Some c /\ admin_earned rq c h) /\
  (OidcIdentityGuard ∈ guards_of e -> exists c, ct_identity ct = Some c /\ identity_earned rq c h).

Lemma yields_RoleGuard required name c h :
  yields (if_ok (fun _ _ => required = [] \/ cx_role c ∈ required)) (Guards.RoleGuard recorded required name c) h.
Proof.
  unfold Guards.RoleGuard. destruct required as [|r rs]; [by left|].
  case_bool_decide as Hr; [by right|].
  apply AuthTheorems.yields_bind with (P := fun _ _ => True); [apply AuthTheorems.yields_any|done].
Qed.

(** The guards that occur, with the roles. *)
Lemma guards_shape e :
  guards_of e = [] \/
  guards_of e = [TenantAuthGuard] /\ de_roles (decorators e) = [] \/
  guards_of e = [TenantAuthGuard; RoleGuard] \/
  guards_of e = [PlatformAdminGuard] \/ guards_of e = [OidcIdentityGuard].
Proof. destruct e; vm_compute; tauto. Qed.

Ltac no_guard := let H := fresh in intros H; exfalso; set_unfold in H; naive_solver.

Definition has_tenant (rq : HttpRequest) (ct : Context_) (h : hist) : Prop :=
  exists c, ct_auth ct = Some c /\ tenant_earned rq c h.

Lemma yields_tenant e rq ct h : yields (if_ok (has_tenant rq)) (run_guard recorded e rq TenantAuthGuard ct) h.
Proof.
  eapply AuthTheorems.yields_bind; [apply authenticate_earned|]. intros c h' Hc. by exists c.
Qed.

Lemma yields_admin e rq ct h :
  yields (if_ok (fun ct h' => exists c, ct_admin ct = Some c /\ admin_earned rq c h'))
    (run_guard recorded e rq PlatformAdminGuard ct) h.
Proof.
  eapply AuthTheorems.yields_bind; [apply administer_earned|]. intros c h' Hc. by exists c.
Qed.

Lemma yields_identity e rq ct h :
  yields (if_ok (fun ct h' => exists c, ct_identity ct = Some c /\ identity_earned rq c h'))
    (run_guard recorded e rq OidcIdentityGuard ct) h.
Proof.
  eapply AuthTheorems.yields_bind; [apply identify_earned|]. intros c h' Hc. by exists c.
Qed.

(** The role guard leaves the context as it is. *)
Lemma yields_role e rq ct h :
  yields (if_ok (fun ct' _ => ct' = ct /\
    forall c, ct_auth ct = Some c -> de_roles (decorators e) <> [] -> cx_role c ∈ de_roles (decorators e)))
    (run_guard recorded e rq RoleGuard ct) h.
Proof.
  unfold run_guard, required_roles. destruct (de_roles (decorators e)) as [|r rs] eqn:E; [by cbn|].
  destruct (ct_auth ct) as [c|]; [|done].
  eapply AuthTheorems.yields_bind; [apply yields_RoleGuard|]. intros _ h' [?|Hr]; [done|].
  cbn. split; [done|]. by intros c' [= <-] _.
Qed.

Lemma yields_role_after e rq ct h :
  has_tenant rq ct h ->
  yields (if_ok (fun ct' h' => exists c, ct_auth ct' = Some c /\ tenant_earned rq c h' /\
    (de_roles (decorators e) <> [] -> cx_role c ∈ de_roles (decorators e)))) (run_guard recorded e rq RoleGuard ct) h.
Proof.
  intros (c & Hct & Hc). eapply AuthTheorems.yields_mono;
    [|apply AuthTheorems.yields_conj; [apply yields_role|apply AuthTheorems.yields_grows]].
  intros ct' h' [[-> Hr] [d ->]]. exists c. split_and!; [done|by apply tenant_earned_lasting|by apply Hr].
Qed.

Lemma yields_last {B} (p : prog B) P h : yields (if_ok P) p h -> yields (if_ok P) (p ≫= (fun a => mret a)) h.
Proof. intros Hp. eapply AuthTheorems.yields_bind; [exact Hp|]. by cbn. Qed.

Lemma run_guards_serve e rq h : yields (if_ok (served_with e rq)) (run_guards recorded e rq) h.
Proof.
  change (run_guards recorded e rq) with (run_all recorded e rq (guards_of e) no_context). unfold served_with.
  destruct (guards_shape e) as [->|[[-> Hr]|[->|[->| ->]]]].
  - cbn. split_and!; no_guard.
  - apply yields_last. eapply AuthTheorems.yields_mono; [|apply yields_tenant].
    intros ct h' (c & Hc & He). split_and!; [|no_guard..]. intros _. exists c. by rewrite Hr.
  - eapply AuthTheorems.yields_bind; [apply yields_tenant|]. intros ct h' Hct. apply yields_last.
    eapply AuthTheorems.yields_mono; [|by apply yields_role_after].
    intros ct' h'' Hct'. split_and!; [|no_guard..]. by intros _.
  - apply yields_last. eapply AuthTheorems.yields_mono; [|apply yields_admin].
    intros ct h' Hct. split_and!; [no_guard| |no_guard]. by intros _.
  - apply yields_last. eapply AuthTheorems.yields_mono; [|apply yields_identity].
    intros ct h' Hct. split_and!; [no_guard|no_guard|]. by intros _.
Qed.

(** What the endpoint sees when its guards are through. *)
Lemma guards_served e rq h ct : reach (run_guards recorded e rq) h (Done (Ok ct)) -> served_with e rq ct h.
Proof. intros Hr. pose proof (run_guards_serve e rq []) as H'. eapply along_reach in H'; [|exact Hr]. exact H'. Qed.
End Guarded.

(** ** The guards of auth/ *)

Section Auth.
Context {A : Ciphers.Aead}.
Context (config : Config) (fresh : nat -> string).
Context (hash : string -> string) (token : nat -> string) (nonce : nat -> string).
Context (jwt_verify : Z -> string -> string -> string -> option (list (string * Dsl.value))).
Context (ring : Ciphers.KeyRing) (bundle_text : Ciphers.TokenBundle -> string)
  (parse_bundle : string -> option Ciphers.TokenBundle).
Context (scrypt : string -> string -> string).

#[local] Instance auth_guards : Authentication := {|
  authenticate := Guards.TenantAuthGuard config fresh hash token nonce jwt_verify ring bundle_text parse_bundle scrypt;
  administer := Guards.PlatformAdminGuard fresh scrypt;
  identify := Guards.OidcIdentityGuard config hash token nonce jwt_verify ring bundle_text parse_bundle |}.

Notation earned := (AuthTheorems.earned config hash jwt_verify ring parse_bundle scrypt).
Notation client_earned := (AuthTheorems.client_earned scrypt).
Notation person_earned := (AuthTheorems.person_earned config hash jwt_verify ring parse_bundle).
Notation guest_earned := (AuthTheorems.guest_earned hash).

(** If the issuer's own metadata was seen, the context was earned. *)
Definition safely {B} (P : HttpRequest -> B -> hist -> Prop) (rq : HttpRequest) (c : B) (h : hist) : Prop :=
  AuthTheorems.safe_history config h -> P rq c h.

(** The identity is that of the person whose token or session the request
    presents. *)
Definition identity_earned (rq : HttpRequest) (c : OidcIdentityContext) (h : hist) : Prop :=
  exists u, ic_userId c = us_id u /\ ic_subject c = us_subject u /\ ic_email c = us_email u /\
    (AuthTheorems.by_token config jwt_verify rq u h \/
     present (bearer rq) = None /\ AuthTheorems.by_session config hash jwt_verify ring parse_bundle rq false u h).

Lemma client_earned_lasting rq : AuthTheorems.lasting (client_earned rq).
Proof.
  intros c h h' (id & sec & s & k & ? & ? & H). exists id, sec, s, k. split_and!; [done|AuthTheorems.seen|apply H..].
Qed.

Lemma person_earned_lasting rq : AuthTheorems.lasting (person_earned rq).
Proof.
  intros c h h' (u & s & m & Hu & Ht & Hs & H). exists u, s, m. split_and!; [|done|AuthTheorems.seen|apply H..].
  destruct Hu as [Hu|[Hb Hu]]; [left|right; split; [done|]]; [by apply AuthTheorems.by_token_lasting|
    by apply AuthTheorems.by_session_lasting].
Qed.

Lemma guest_earned_lasting rq : AuthTheorems.lasting (guest_earned rq).
Proof.
  intros c h h' (raw & se & s & n & ? & ? & ? & ? & H). exists raw, se, s, n.
  split_and!; [done|AuthTheorems.seen|done|AuthTheorems.seen|apply H..].
Qed.

Lemma earned_lasting rq : AuthTheorems.lasting (earned rq).
Proof.
  intros c h h' [H|[H|H]]; [left|right; left|right; right];
    [by apply client_earned_lasting|by apply person_earned_lasting|by apply guest_earned_lasting].
Qed.

#[local] Instance auth_guards_earn :
  AuthenticationLaws auth_guards (safely earned) (AuthTheorems.admin_earned scrypt) (safely identity_earned).
Proof.
  split.
  - intros rq h. apply AuthTheorems.yields_TenantAuthGuard.
  - intros rq h. apply AuthTheorems.yields_PlatformAdminGuard.
  - intros rq h. cbn [identify auth_guards]. unfold Guards.OidcIdentityGuard.
    eapply AuthTheorems.yields_bind; [apply AuthTheorems.yields_person|]. intros [u|] h' Hu; [|done].
    cbn. intros Hs. exists u. split_and!; [done..|]. by apply Hu.
  - intros rq c h h' H Hs. apply earned_lasting, H. by eapply AuthTheorems.safe_history_app.
Qed.

(** C5: Nothing but login and logout, the sandbox, the health probes and
    GraphQL's [health] and [evaluateLoan] answers a request that proves
    nothing.  Every other endpoint runs with a context that its guards earned
    from the credentials of the request — a tenant's, an administrator's or a
    person's — and, where roles are declared on the handler, with one of those
    roles; whatever ran between the statements of the guards. *)
Theorem handler_sees_an_earned_context recorded e rq h ct :
  reach (run_guards recorded e rq) h (Done (Ok ct)) -> AuthTheorems.safe_history config h ->
  (guards_of e = [] <-> e ∈ public_endpoints) /\
  (TenantAuthGuard ∈ guards_of e -> exists c, ct_auth ct = Some c /\ earned rq c h /\
    (de_roles (decorators e) <> [] -> cx_role c ∈ de_roles (decorators e))) /\
  (PlatformAdminGuard ∈ guards_of e ->
    exists c, ct_admin ct = Some c /\ AuthTheorems.admin_earned scrypt rq c h) /\
  (OidcIdentityGuard ∈ guards_of e -> exists c, ct_identity ct = Some c /\ identity_earned rq c h).
Proof.
  intros Hr Hs. split; [apply public_unguarded|].
  destruct (guards_served recorded e rq h ct Hr) as (H1 & H2 & H3). split_and!; [|exact H2|].
  - intros Hg. destruct (H1 Hg) as (c & Hc & He & Hrole). exists c. split_and!; [done|by apply He|done].
  - intros Hg. destruct (H3 Hg) as (c & Hc & He). exists c. split; [done|by apply He].
Qed.
End Auth.

(** ** Requests of a client *)

#[local] Existing Instances Ciphers.Toy.aead Ciphers.Toy.laws.
#[local] Instance guards0 : Authentication :=
  auth_guards AuthExamples.config0 AuthExamples.uuid0 AuthExamples.hash0 AuthExamples.token0 (fun _ => Ciphers.Toy.iv)
    AuthExamples.jwt0 Ciphers.Toy.ring Ciphers.Toy.bundle_text Ciphers.Toy.parse_bundle AuthExamples.scrypt0.

Definition client_of (role : ApiClientRole) : ApiClient :=
  {| ak_id := AuthExamples.uuid0 1; ak_tenantId := "t"; ak_name := "client";
     ak_hashedSecret := "salt:" +:+ to_hex (AuthExamples.scrypt0 "secret" "salt"); ak_status := CLIENT_ACTIVE;
     ak_role := role |}.
Definition tables_of (role : ApiClientRole) : State :=
  put_clients {[AuthExamples.uuid0 1 := client_of role]} AuthExamples.state0.
Definition rq0 : HttpRequest := AuthTheorems.bearer0 (AuthExamples.uuid0 1 +:+ ".secret").

Lemma handler_sees_an_earned_context_witness :
  exists h ct c, reach (run_guards true resolveTask rq0) h (Done (Ok ct)) /\ ct_auth ct = Some c /\
    AuthTheorems.earned AuthExamples.config0 AuthExamples.hash0 AuthExamples.jwt0 Ciphers.Toy.ring
      Ciphers.Toy.parse_bundle AuthExamples.scrypt0 rq0 c h /\ cx_role c ∈ [REVIEWER].
Proof.
  pose proof (advance_reach 4 (run_guards true resolveTask rq0) (tables_of REVIEWER)) as H.
  destruct (advance 4 (run_guards true resolveTask rq0) (tables_of REVIEWER)) as [h p] eqn:E.
  assert (AuthTheorems.safe_history AuthExamples.config0 h) as Hs.
  { change h with (fst (h, p)). rewrite <- E. vm_compute. repeat constructor; intros [|n] d; discriminate. }
  cbn [fst snd] in H. destruct p as [[ct|e]|B m k0|q k0]; try (vm_compute in E; discriminate E).
  destruct (handler_sees_an_earned_context AuthExamples.config0 AuthExamples.uuid0 AuthExamples.hash0 AuthExamples.token0
    (fun _ => Ciphers.Toy.iv) AuthExamples.jwt0 Ciphers.Toy.ring Ciphers.Toy.bundle_text Ciphers.Toy.parse_bundle
    AuthExamples.scrypt0 true resolveTask rq0 h ct H Hs) as (_ & Ht & _ & _).
  destruct (Ht ltac:(by left)) as (c & Hc & He & Hr). exists h, ct, c.
  split_and!; [exact H|exact Hc|exact He|apply Hr; discriminate].
Defined.

(** What the guards say to a client of the role. *)
Definition admitted (role : ApiClientRole) (e : Endpoint) : result Failure (option ApiClientRole) :=
  match (exec (fun _ => NothingSaid) (run_guards true e rq0) (tables_of role)).1.1 with
  | Ok ct => Ok (cx_role <$> ct_auth ct)
  | Err er => Err er
  end.

(** The controller of the audit history asks for a reviewer on its class; the
    role guard reads the handler only, so that every role may list and export
    what audit-events.controller.ts says needs REVIEWER authority. *)
Theorem audit_history_is_open_to_partners :
  admitted PARTNER exportAuditEvents = Ok (Some PARTNER) /\ admitted PARTNER listAuditEvents = Ok (Some PARTNER) /\
  de_class_roles (decorators exportAuditEvents) = [REVIEWER] /\
  admitted PARTNER listOpenTasks = Err (Forbidden "This action requires one of these roles: REVIEWER") /\
  admitted REVIEWER listOpenTasks = Ok (Some REVIEWER).
Proof. vm_compute. repeat split. Qed.
End RouteTheorems.
