(* ===== verification/EvaluationRunner.v ===== *)
(** * The evaluation corpus

    evaluation/: the runner that drives fixtures through the activities of the
    case workflow (runner.ts), the corpus (load-corpus.ts), the report of a run
    (report.ts), its stored copy (evaluation-report-record.service.ts), and the
    command with its exit code (evaluation-report.ts).

    The activities are an interface here, with the types they have in
    [CaseActivities].  [Promise.all] of three fetches is their sequence, whose
    first failure is thrown when all have ended.  [JSON.parse], git and the
    formatting of dates are parameters. *)

From Stdlib Require Import Ascii SpecFloat.
From stdpp Require Import gmap strings list sorting pretty.
From S2P Require Import Prelude BudgetLedger PolicyDsl PolicyDigest PolicyResolver PolicyEvaluation PolicyActivation Concurrency ProviderTables Consent ProviderPlatform ProviderDispatch WebhookGuard Outbox Communications AgentTables AgentTools AgentPlanner AgentRuntime CaseActivities CaseWorkflow CaseService.

Module EvalRunner.
Import Threads Agent.
#[local] Existing Instance Resolver.PolicyReleaseStatus_eq_dec.

Inductive EvaluationCategory := Normal | Boundary | MissingData | PolicyCoverage | ProviderFailureCategory.
#[export] Instance EvaluationCategory_eq : EqDecision EvaluationCategory.
Proof. solve_decision. Defined.

Inductive ExpectedOutcome :=
| CONDITION_OPENED | NO_CONDITION | REVIEW_REQUIRED | PROVIDER_TRANSIENT_FAILURE | PROVIDER_TERMINAL_FAILURE.
#[export] Instance ExpectedOutcome_eq : EqDecision ExpectedOutcome.
Proof. solve_decision. Defined.

Inductive FailingStep := StepIncome | StepCredit | StepDocument.

Record EvaluationCaseFixture := {
  fx_id : string;
  fx_description : string;
  fx_category : EvaluationCategory;
  fx_borrowerId : string;
  fx_jurisdictionCode : string;
  fx_loanType : Activation.LoanType;
  fx_statedMonthlyIncome : spec_float;
  fx_requestedAmount : spec_float;
  fx_incomeEvidenceOverride : option Dsl.value;
  fx_failingStep : option FailingStep;
  fx_outcome : ExpectedOutcome;
  fx_conditionCode : option string }.

(** [actualOutcome] is [None] for ['ERROR']. *)
Record EvaluationCaseResult := {
  er_fixtureId : string;
  er_category : EvaluationCategory;
  er_description : string;
  er_expectedOutcome : ExpectedOutcome;
  er_actualOutcome : option ExpectedOutcome;
  er_actualConditionCode : option string;
  er_passed : bool;
  er_detail : string }.

(** What the workflow's activities offer the runner: tenant, case, borrower or
    run. *)
Class CaseActivities := {
  fetchIncome : string -> string -> string -> prog Dsl.value;
  fetchCredit : string -> string -> string -> prog Dsl.value;
  fetchDocument : string -> string -> string -> prog Dsl.value;
  evaluate : string -> string -> string -> prog Activities.EvaluateConditionsResult }.

(** ** The corpus *)

(** A file of the directory, and what [JSON.parse] makes of it. *)
Definition Fixture_file : Type := string * option Dsl.value.
Inductive LoadFailure := SyntaxError (file : string) | MalformedFixture (file : string).

Definition ends_with (suffix s : string) : bool :=
  let n := String.length s in let k := String.length suffix in
  (k <=? n)%nat && String.eqb (String.substring (n - k) k s) suffix.

Definition by_name (a b : Fixture_file) : Prop := (a.1 ≤ b.1)%string.
#[export] Instance by_name_dec a b : Decision (by_name a b).
Proof. unfold by_name. apply _. Defined.

Definition truthy_field (o : list (string * Dsl.value)) (key : string) : bool :=
  match Dsl.get o key with
  | Dsl.VUndefined | Dsl.VNull | Dsl.VBool false | Dsl.VNumber (S754_zero _ | S754_nan) => false
  | Dsl.VString s => JS.truthy s
  | _ => true
  end.

(** The cast after the check says nothing about the other fields. *)
Definition load_one (f : Fixture_file) : result LoadFailure Dsl.value :=
  match f.2 with
  | None => Err (SyntaxError f.1)
  | Some v =>
      let o := match v with Dsl.VObject o => o | _ => [] end in
      if truthy_field o "id" && truthy_field o "category" && truthy_field o "expected" then Ok v
      else Err (MalformedFixture f.1)
  end.

Fixpoint load_all (fs : list Fixture_file) : result LoadFailure (list Dsl.value) :=
  match fs with
  | [] => Ok []
  | f :: fs =>
      match load_one f with
      | Err e => Err e
      | Ok v => match load_all fs with Ok vs => Ok (v :: vs) | Err e => Err e end
      end
  end.

Definition loadCorpus (files : list Fixture_file) : result LoadFailure (list Dsl.value) :=
  load_all (merge_sort by_name (List.filter (fun f => ends_with ".json" f.1) files)).

(** ** One fixture *)

Section Runner.
Context (message_of : Failure -> string) (fresh : nat -> string) (numeric_14_2 : spec_float -> option string).
Context `{CaseActivities}.

Definition NOT_COVERED_JURISDICTION_CODE : string := "US-EVAL-NC".
Definition not_covered : Resolver.Jurisdiction :=
  {| Resolver.code := NOT_COVERED_JURISDICTION_CODE; Resolver.parentCode := None;
     Resolver.coverageStatus := Resolver.NOT_COVERED |}.

Definition with_jurisdiction (j : Resolver.Jurisdiction) (w : World) : World :=
  let p := w_policy w in let c := Evaluation.catalog p in
  put_policy
    {| Evaluation.generation := Evaluation.generation p;
       Evaluation.catalog :=
         {| Resolver.c_jurisdictions := <[Resolver.code j := j]> (Resolver.c_jurisdictions c);
            Resolver.c_applicability := Resolver.c_applicability c; Resolver.c_versions := Resolver.c_versions c;
            Resolver.c_sources := Resolver.c_sources c; Resolver.c_revisions := Resolver.c_revisions c |};
       Evaluation.bindings := Evaluation.bindings p; Evaluation.snapshots := Evaluation.snapshots p |} w.

Definition ensureJurisdictions : prog unit :=
  existing ← atomically (gets (fun w => Resolver.c_jurisdictions (Evaluation.catalog (w_policy w)) !! NOT_COVERED_JURISDICTION_CODE));
  match existing with
  | Some _ => mret tt
  | None => atomically (modify (with_jurisdiction not_covered))
  end.

Definition outcome_text (o : Activities.EvaluationOutcome) : string :=
  match o with
  | Activities.READY => "READY" | Activities.CONDITION_OPENED => "CONDITION_OPENED"
  | Activities.REVIEW_REQUIRED => "REVIEW_REQUIRED" | Activities.INTERRUPTED => "INTERRUPTED"
  end.

Definition classifyEvaluateConditionsOutcome (o : Activities.EvaluationOutcome) : ExpectedOutcome :=
  match o with
  | Activities.CONDITION_OPENED => CONDITION_OPENED
  | Activities.READY => NO_CONDITION
  | Activities.REVIEW_REQUIRED | Activities.INTERRUPTED => REVIEW_REQUIRED
  end.

Definition result_of (fixture : EvaluationCaseFixture) (actual : option ExpectedOutcome) (code : option string)
    (passed : bool) (detail : string) : EvaluationCaseResult :=
  {| er_fixtureId := fx_id fixture; er_category := fx_category fixture; er_description := fx_description fixture;
     er_expectedOutcome := fx_outcome fixture; er_actualOutcome := actual; er_actualConditionCode := code;
     er_passed := passed; er_detail := detail |}.

Definition corpus_key (fixture : EvaluationCaseFixture) : string := "evaluation-corpus-" +:+ fx_id fixture.

Definition fixture_dto (fixture : EvaluationCaseFixture) : Cases.CreateCaseDto :=
  {| Cases.dto_borrowerId := fx_borrowerId fixture; Cases.dto_requestedAmount := fx_requestedAmount fixture;
     Cases.dto_loanType := fx_loanType fixture; Cases.dto_statedMonthlyIncome := fx_statedMonthlyIncome fixture;
     Cases.dto_jurisdictionCode := fx_jurisdictionCode fixture |}.

(** [caseRepo.save]: the row alone, without the event of the service. *)
Definition save_case (tenantId : string) (fixture : EvaluationCaseFixture) : M World Failure LoanCase :=
  transaction (
    id ← new_id fresh;
    amount ← or_throw (numeric_14_2 (fx_requestedAmount fixture)) (OtherError "numeric field overflow");
    income ← or_throw (numeric_14_2 (fx_statedMonthlyIncome fixture)) (OtherError "numeric field overflow");
    taken ← gets (fun w => bool_decide (is_Some (w_cases w !! id)) ||
                           bool_decide (is_Some (Cases.case_with_key tenantId (corpus_key fixture) w)));
    _ ← guard_throw taken UniqueViolation;
    now ← gets w_dbclock;
    let row := Cases.new_case id (corpus_key fixture) tenantId amount income (fixture_dto fixture) now in
    _ ← modify (fun w => put_cases (<[id := row]> (w_cases w)) w);
    mret row).

Definition grantForCase (tenantId caseId : string) : prog Tables.ConsentRecord :=
  id ← atomically (new_id fresh);
  embed w_tables put_tables ProviderFailure (fun q : Empty_set => match q with end) (fun _ => tt)
    (Consent.grantForCase id tenantId caseId Consent.DEFAULT_PROVIDER_PURPOSE Consent.DEFAULT_SCOPE).

Definition insertOverrideIncomeEvidence (tenantId caseId : string) (fixture : EvaluationCaseFixture) : M World Failure unit :=
  id ← new_id fresh;
  taken ← gets (fun w => Tables.evidence (w_tables w) !! id);
  _ ← guard_throw (bool_decide (is_Some taken)) UniqueViolation;
  modify (fun w => put_tables (Tables.with_evidence
    (<[id := Activities.evidence_row id tenantId caseId "INCOME" "evaluation-corpus-override"
               (default (Dsl.VObject []) (fx_incomeEvidenceOverride fixture)) (date_now w) (w_dbclock w)]>
       (Tables.evidence (w_tables w))) (w_tables w)) w).

(** What an expression threw, kept until the others have ended. *)
Definition settled {A} (p : prog A) : prog (result Failure A) :=
  pcatch (a ← p; mret (Ok a)) (fun e => mret (Err e)).

Definition fetch_three (tenantId caseId borrowerId : string) : prog unit :=
  income ← settled (fetchIncome tenantId caseId borrowerId);
  credit ← settled (fetchCredit tenantId caseId borrowerId);
  document ← settled (fetchDocument tenantId caseId borrowerId);
  match income, credit, document with
  | Err e, _, _ | _, Err e, _ | _, _, Err e => fail e
  | Ok _, Ok _, Ok _ => mret tt
  end.

Definition step_text (s : FailingStep) : string :=
  match s with StepIncome => "income" | StepCredit => "credit" | StepDocument => "document" end.
Definition bool_text (b : bool) : string := if b then "true" else "false".

Definition runProviderFailureCase (tenantId caseId : string) (fixture : EvaluationCaseFixture) : prog EvaluationCaseResult :=
  let step := default StepIncome (fx_failingStep fixture) in
  let call := match step with StepIncome => fetchIncome | StepCredit => fetchCredit | StepDocument => fetchDocument end in
  fetched ← settled (call tenantId caseId (fx_borrowerId fixture));
  match fetched with
  | Ok _ =>
      mret (result_of fixture None None false ("expected the " +:+ step_text step +:+ " fetch to throw, but it succeeded"))
  | Err (ApplicationFailure nonRetryable type _) =>
      let actual := if nonRetryable then PROVIDER_TERMINAL_FAILURE else PROVIDER_TRANSIENT_FAILURE in
      mret (result_of fixture (Some actual) None (bool_decide (actual = fx_outcome fixture))
        (step_text step +:+ " fetch failed: type=" +:+ type +:+ " nonRetryable=" +:+ bool_text nonRetryable))
  | Err e => mret (result_of fixture None None false ("expected an ApplicationFailure, got: " +:+ message_of e))
  end.

(** The code of the condition the evaluation opened. *)
Definition opened_code (r : Activities.EvaluateConditionsResult) : prog (option string) :=
  match Activities.ec_outcome r, Activities.ec_conditionId r with
  | Activities.CONDITION_OPENED, Some id =>
      if JS.truthy id then
        row ← atomically (gets (fun w => w_conditions w !! id));
        mret (cn_code <$> (row : option LoanCondition))
      else mret None
  | _, _ => mret None
  end.

Definition quote : string := String (ascii_of_nat 34) "".
Definition evaluation_detail (r : Activities.EvaluateConditionsResult) : string :=
  "evaluateConditions outcome=" +:+ outcome_text (Activities.ec_outcome r) +:+
  match Activities.ec_reviewReason r with
  | Some reason => if JS.truthy reason then " reason=" +:+ quote +:+ reason +:+ quote else ""
  | None => ""
  end.

Definition passes (fixture : EvaluationCaseFixture) (actual : ExpectedOutcome) (code : option string) : bool :=
  bool_decide (actual = fx_outcome fixture) &&
  (bool_decide (fx_conditionCode fixture = None) || bool_decide (code = fx_conditionCode fixture)).

Definition run_evaluation_case (tenantId caseId : string) (fixture : EvaluationCaseFixture) : prog EvaluationCaseResult :=
  _ ← match fx_category fixture with
      | MissingData =>
          _ ← atomically (insertOverrideIncomeEvidence tenantId caseId fixture);
          _ ← fetchCredit tenantId caseId (fx_borrowerId fixture);
          _ ← fetchDocument tenantId caseId (fx_borrowerId fixture);
          mret tt
      | _ => fetch_three tenantId caseId (fx_borrowerId fixture)
      end;
  evaluation ← evaluate tenantId caseId (corpus_key fixture);
  let actual := classifyEvaluateConditionsOutcome (Activities.ec_outcome evaluation) in
  code ← opened_code evaluation;
  mret (result_of fixture (Some actual) code (passes fixture actual code) (evaluation_detail evaluation)).

Definition runOneCase (tenantId : string) (fixture : EvaluationCaseFixture) : prog EvaluationCaseResult :=
  pcatch
    (loanCase ← atomically (save_case tenantId fixture);
     _ ← grantForCase tenantId (lc_id loanCase);
     match fx_category fixture with
     | ProviderFailureCategory => runProviderFailureCase tenantId (lc_id loanCase) fixture
     | _ => run_evaluation_case tenantId (lc_id loanCase) fixture
     end)
    (fun e => mret (result_of fixture None None false ("unexpected error: " +:+ message_of e))).

Fixpoint run_cases (tenantId : string) (fixtures : list EvaluationCaseFixture) : prog (list EvaluationCaseResult) :=
  match fixtures with
  | [] => mret []
  | fixture :: fixtures =>
      r ← runOneCase tenantId fixture;
      rs ← run_cases tenantId fixtures;
      mret (r :: rs)
  end.

Definition runCorpus (tenantId : string) (fixtures : list EvaluationCaseFixture) : prog (list EvaluationCaseResult) :=
  _ ← ensureJurisdictions;
  run_cases tenantId fixtures.
End Runner.

(** ** The report *)

Definition ALL_CATEGORIES : list EvaluationCategory :=
  [Normal; Boundary; MissingData; PolicyCoverage; ProviderFailureCategory].

Record Tally := { tl_total : nat; tl_passed : nat }.
Record Summary := {
  su_totalCases : nat;
  su_passed : nat;
  su_failed : nat;
  su_byCategory : list (EvaluationCategory * Tally);
  su_conditionRecall : option spec_float;
  su_conditionPrecision : option spec_float }.
Record EvaluationReport := {
  rp_generatedAt : Z;
  rp_gitCommit : option string;
  rp_gitBranch : option string;
  rp_resolverVersion : string;
  rp_releasedPolicyVersionIds : list string;
  rp_corpusSource : string;
  rp_results : list EvaluationCaseResult;
  rp_summary : Summary }.

Definition count {A} (p : A -> bool) (l : list A) : nat := length (List.filter p l).

Definition expected_open (r : EvaluationCaseResult) : bool := bool_decide (er_expectedOutcome r = CONDITION_OPENED).
Definition actually_opened (r : EvaluationCaseResult) : bool := bool_decide (er_actualOutcome r = Some CONDITION_OPENED).

(** [a / b], or [null] for an empty whole. *)
Definition share (part whole : nat) : option spec_float :=
  if (0 <? whole)%nat then Some (Dsl.f64_div (Dsl.f64_of_Z (Z.of_nat part)) (Dsl.f64_of_Z (Z.of_nat whole))) else None.

Definition in_category (c : EvaluationCategory) (r : EvaluationCaseResult) : bool := bool_decide (er_category r = c).

Definition summary_of (results : list EvaluationCaseResult) : Summary :=
  let expectedOpen := List.filter expected_open results in
  let actuallyOpened := List.filter actually_opened results in
  {| su_totalCases := length results;
     su_passed := count er_passed results;
     su_failed := count (fun r => negb (er_passed r)) results;
     su_byCategory := map (fun c => (c,
       let inCategory := List.filter (in_category c) results in
       {| tl_total := length inCategory; tl_passed := count er_passed inCategory |})) ALL_CATEGORIES;
     su_conditionRecall := share (count actually_opened expectedOpen) (length expectedOpen);
     su_conditionPrecision := share (count expected_open actuallyOpened) (length actuallyOpened) |}.

Definition released_ids (c : Resolver.Catalog) : list string :=
  merge_sort String.le (map Resolver.pv_id
    (find_rows (fun v => bool_decide (Resolver.pv_releaseStatus v = Resolver.RELEASED)) (Resolver.c_versions c))).

(** [git]: the commit and the branch, if there is a checkout. *)
Definition buildReport (now : Z) (git : option (string * string)) (catalog : Resolver.Catalog) (corpusSource : string)
    (results : list EvaluationCaseResult) : EvaluationReport :=
  {| rp_generatedAt := now; rp_gitCommit := fst <$> git; rp_gitBranch := snd <$> git;
     rp_resolverVersion := Evaluation.RESOLVER_VERSION; rp_releasedPolicyVersionIds := released_ids catalog;
     rp_corpusSource := corpusSource; rp_results := results; rp_summary := summary_of results |}.

(** The exit code of the command. *)
Definition exit_code (report : EvaluationReport) : Z := if (su_failed (rp_summary report) =? 0)%nat then 0 else 1.

(** ** Stored reports *)

Record EvaluationReportRecord := {
  rr_id : string;
  rr_generatedAt : Z;
  rr_gitCommit : option string;
  rr_gitBranch : option string;
  rr_totalCases : nat;
  rr_passed : nat;
  rr_failed : nat;
  rr_conditionRecall : option spec_float;
  rr_conditionPrecision : option spec_float;
  rr_report : EvaluationReport }.

Definition record_of (id : string) (report : EvaluationReport) : EvaluationReportRecord :=
  let s := rp_summary report in
  {| rr_id := id; rr_generatedAt := rp_generatedAt report; rr_gitCommit := rp_gitCommit report;
     rr_gitBranch := rp_gitBranch report; rr_totalCases := su_totalCases s; rr_passed := su_passed s;
     rr_failed := su_failed s; rr_conditionRecall := su_conditionRecall s; rr_conditionPrecision := su_conditionPrecision s;
     rr_report := report |}.

Inductive RecordFailure := ValueTooLong | DuplicateId | RecordNotFound.

(** The columns are varchar(64) and varchar(200). *)
Definition fits_columns (report : EvaluationReport) : bool :=
  match rp_gitCommit report with Some s => (String.length s <=? 64)%nat | None => true end &&
  match rp_gitBranch report with Some s => (String.length s <=? 200)%nat | None => true end.

Definition record (id : string) (report : EvaluationReport)
  : M (gmap string EvaluationReportRecord) RecordFailure EvaluationReportRecord :=
  taken ← gets (fun rows => rows !! id);
  _ ← guard_throw (negb (fits_columns report)) ValueTooLong;
  _ ← guard_throw (bool_decide (is_Some taken)) DuplicateId;
  _ ← modify (fun rows => <[id := record_of id report]> rows);
  mret (record_of id report).

Definition list_records (limit : Z) (rows : gmap string EvaluationReportRecord) : list EvaluationReportRecord :=
  take (Z.to_nat (Z.min (Z.max limit 1) 100)) (order_by (fun r => - rr_generatedAt r) (map snd (map_to_list rows))).

Definition get_record (id : string) (rows : gmap string EvaluationReportRecord) : result RecordFailure EvaluationReportRecord :=
  match rows !! id with Some r => Ok r | None => Err RecordNotFound end.
End EvalRunner.
