(* ===== verification/EvaluationTheorems.v ===== *)
(** * What a run of the corpus says

    A run reports every fixture, whatever the activities do, and its report
    adds up. *)

From Stdlib Require Import Ascii SpecFloat.
From stdpp Require Import gmap strings list sorting pretty.
From S2P Require Import Prelude BudgetLedger PolicyDsl PolicyDigest PolicyResolver PolicyEvaluation PolicyActivation Concurrency ProviderTables Consent ProviderPlatform ProviderDispatch WebhookGuard Outbox Communications AgentTables AgentTools AgentPlanner AgentRuntime AgentExamples CaseActivities CaseWorkflow CaseService EvaluationRunner.

Module EvaluationTheorems.
Import Threads Agent EvalRunner.

(** ** Runs *)

(** Whatever happens in between, [p] ends with a result that satisfies [P],
    or throws. *)
Notation gives P p := (forall hist, along (S := World) (E := Failure) (Q := Request) (R := Reply) (fun _ _ => True)
  (fun r _ => match r with Ok a => P a | Err _ => True end) p hist).
(** It does not throw. *)
Notation returns P p := (forall hist, along (S := World) (E := Failure) (Q := Request) (R := Reply) (fun _ _ => True)
  (fun r _ => match r with Ok a => P a | Err _ => False end) p hist).

Section Rules.
Context {A B : Type}.

Lemma gives_any (p : prog A) : gives (fun _ => True) p.
Proof.
  induction p as [[a|e]|C m k IH|q k IH]; intros h; cbn; [done|done| |].
  - intros s. apply IH.
  - split; [done|]. intros r. apply IH.
Qed.

Lemma gives_then (p : prog A) (f : A -> prog B) (P : B -> Prop) :
  (forall a, gives P (f a)) -> gives P (p ≫= f).
Proof.
  intros Hf h. apply along_bind. eapply along_mono; [|apply (gives_any p)]. intros [a|e] h' _; cbn; [apply Hf|done].
Qed.

Lemma returns_then (p : prog A) (f : A -> prog B) (P : A -> Prop) (Q : B -> Prop) :
  returns P p -> (forall a, P a -> returns Q (f a)) -> returns Q (p ≫= f).
Proof.
  intros Hp Hf h. apply along_bind. eapply along_mono; [|apply Hp]. intros [a|e] h' H; cbn; [by apply Hf|done].
Qed.

Lemma returns_caught (p : prog A) (h : Failure -> A) (P : A -> Prop) :
  gives P p -> (forall e, P (h e)) -> returns P (pcatch p (fun e => mret (h e))).
Proof.
  intros Hp Hh hist. apply along_catch. eapply along_mono; [|apply Hp]. intros [a|e] h' H; cbn; [done|apply Hh].
Qed.
End Rules.

Section Run.
Context (message_of : Failure -> string) (fresh : nat -> string) (numeric_14_2 : spec_float -> option string).
Context `{CaseActivities}.

(** The result of a fixture: it passed exactly if the outcome was the expected
    one, with the expected condition, if the fixture names one; failures of
    providers open none. *)
Definition reports (f : EvaluationCaseFixture) (r : EvaluationCaseResult) : Prop :=
  er_fixtureId r = fx_id f /\ er_category r = fx_category f /\ er_expectedOutcome r = fx_outcome f /\
  (er_passed r = true <-> er_actualOutcome r = Some (fx_outcome f) /\
     (fx_category f = ProviderFailureCategory \/ fx_conditionCode f = None \/ er_actualConditionCode r = fx_conditionCode f)).

Lemma failed_reports f code detail : reports f (result_of f None code false detail).
Proof. unfold reports. split_and!; [done..|]. split; [done|]. by intros [? _]. Qed.

Lemma provider_case_reports t c f : fx_category f = ProviderFailureCategory ->
  gives (reports f) (runProviderFailureCase message_of t c f).
Proof.
  intros Hf. unfold runProviderFailureCase. apply gives_then. intros [v|e] h; [cbn; apply failed_reports|].
  destruct e; cbn; try apply failed_reports. unfold reports. cbn. split_and!; [done..|].
  rewrite bool_decide_eq_true. split; [intros ->; split; [done|by left]|by intros [[= ->] _]].
Qed.

Lemma evaluation_case_reports t c f : fx_category f <> ProviderFailureCategory ->
  gives (reports f) (run_evaluation_case fresh t c f).
Proof.
  intros Hf. unfold run_evaluation_case. apply gives_then. intros []. apply gives_then. intros ev.
  apply gives_then. intros code h. cbn. unfold reports. cbn. split_and!; [done..|].
  unfold passes. rewrite andb_true_iff, orb_true_iff, !bool_decide_eq_true. split.
  - intros [-> Hc]. split; [done|by right].
  - intros [[= ->] [?|Hc]]; done.
Qed.

Lemma one_case_reports t f : returns (reports f) (runOneCase message_of fresh numeric_14_2 t f).
Proof.
  unfold runOneCase. apply returns_caught; [|intros e; apply failed_reports].
  apply gives_then. intros loanCase. apply gives_then. intros _.
  destruct (fx_category f) eqn:E; first [by apply provider_case_reports|apply evaluation_case_reports; by rewrite E].
Qed.

Lemma run_cases_reports t fs : returns (fun rs => Forall2 reports fs rs) (run_cases message_of fresh numeric_14_2 t fs).
Proof.
  induction fs as [|f fs IH]; intros h; [constructor|]. cbn [run_cases]. revert h.
  eapply returns_then; [apply one_case_reports|]. intros r Hr. eapply returns_then; [apply IH|].
  intros rs Hrs h. by constructor.
Qed.

End Run.

(** *** A small corpus *)

Definition activities0 : CaseActivities := {|
  fetchIncome _ _ borrowerId :=
    if String.prefix "TRANSIENT" borrowerId then fail (ApplicationFailure false "TransientProviderFailure" "later")
    else mret Dsl.VNull;
  fetchCredit _ _ _ := mret Dsl.VNull;
  fetchDocument _ _ _ := mret Dsl.VNull;
  evaluate _ _ _ := mret {| Activities.ec_outcome := Activities.READY; Activities.ec_conditionId := None;
                            Activities.ec_reviewReason := None |} |}.

Definition fixture0 (id borrowerId : string) (category : EvaluationCategory) (outcome : ExpectedOutcome) : EvaluationCaseFixture :=
  {| fx_id := id; fx_description := "d"; fx_category := category; fx_borrowerId := borrowerId;
     fx_jurisdictionCode := "US-CA"; fx_loanType := Activation.CONVENTIONAL;
     fx_statedMonthlyIncome := Dsl.f64_of_Z 9000; fx_requestedAmount := Dsl.f64_of_Z 300000;
     fx_incomeEvidenceOverride := None; fx_failingStep := None; fx_outcome := outcome; fx_conditionCode := None |}.
Definition corpus0 : list EvaluationCaseFixture :=
  [fixture0 "a" "borrower" Normal NO_CONDITION;
   fixture0 "b" "TRANSIENT-1" ProviderFailureCategory PROVIDER_TRANSIENT_FAILURE;
   fixture0 "c" "borrower" Boundary CONDITION_OPENED].
Definition run0 := runCorpus (H := activities0) (fun _ => "error") AgentExamples.fresh0 (fun _ => Some "1.00") "t" corpus0.


(** ** Reports *)

Section Counts.
Context {A : Type}.

Lemma count_split (p : A -> bool) l : (count p l + count (fun a => negb (p a)) l)%nat = length l.
Proof. unfold count. induction l as [|a l IH]; cbn; [done|]. destruct (p a); cbn; lia. Qed.

Lemma count_le (p : A -> bool) l : (count p l <= length l)%nat.
Proof. pose proof (count_split p l). lia. Qed.

Lemma count_zero (p : A -> bool) l : count p l = 0%nat <-> Forall (fun a => p a = false) l.
Proof.
  unfold count. induction l as [|a l IH]; cbn; [by split|]. destruct (p a) eqn:E; cbn.
  - split; [done|]. intros [? _]%Forall_cons_1. congruence.
  - rewrite IH. split; [by constructor|by intros [_ ?]%Forall_cons_1].
Qed.

Lemma count_all (l : list A) : length (List.filter (fun _ => true) l) = length l.
Proof. induction l as [|a l IH]; cbn; [done|by rewrite IH]. Qed.

Lemma count_within (p q : A -> bool) l : count p (List.filter q l) = count (fun a => p a && q a) l.
Proof.
  unfold count. induction l as [|a l IH]; cbn; [done|]. destruct (q a); cbn.
  - rewrite andb_true_r. destruct (p a); cbn; by rewrite IH.
  - by rewrite andb_false_r.
Qed.

Lemma count_ext (p q : A -> bool) l : (forall a, p a = q a) -> count p l = count q l.
Proof. intros H. unfold count. induction l as [|a l IH]; cbn; [done|]. rewrite H. destruct (q a); cbn; by rewrite IH. Qed.
End Counts.

(** Every result is counted under one category. *)
Lemma categories_partition (p : EvaluationCaseResult -> bool) rs :
  list_sum (map (fun c => count (fun r => p r && in_category c r) rs) ALL_CATEGORIES) = count p rs.
Proof.
  unfold count, in_category, list_sum. induction rs as [|r rs IH]; cbn in *; [done|].
  destruct (p r); cbn; [|exact IH]. destruct (er_category r); repeat case_bool_decide; try congruence; cbn in *; lia.
Qed.

(** A report adds up: passed and failed make the total, and so do the five
    categories, each with its own; the command succeeds exactly if every
    fixture passed.  Recall and precision share their numerator, the fixtures
    that were expected to open a condition and did; they are absent exactly if
    none was expected to, or none did. *)
Theorem report_adds_up now git catalog source rs :
  let report := buildReport now git catalog source rs in
  let s := rp_summary report in
  let hits := count (fun r => expected_open r && actually_opened r) rs in
  (su_passed s + su_failed s = su_totalCases s)%nat /\ su_totalCases s = length rs /\
  map fst (su_byCategory s) = ALL_CATEGORIES /\
  (forall c t, (c, t) ∈ su_byCategory s -> tl_total t = count (in_category c) rs /\
     tl_passed t = count (fun r => er_passed r && in_category c r) rs) /\
  list_sum (map (fun ct => tl_total ct.2) (su_byCategory s)) = su_totalCases s /\
  list_sum (map (fun ct => tl_passed ct.2) (su_byCategory s)) = su_passed s /\
  (exit_code report = 0 <-> Forall (fun r => er_passed r = true) rs) /\
  su_conditionRecall s = share hits (count expected_open rs) /\ (hits <= count expected_open rs)%nat /\
  su_conditionPrecision s = share hits (count actually_opened rs) /\ (hits <= count actually_opened rs)%nat /\
  (su_conditionRecall s = None <-> count expected_open rs = 0%nat) /\
  (su_conditionPrecision s = None <-> count actually_opened rs = 0%nat).
Proof.
  intros report s hits.
  assert (su_conditionRecall s = share hits (count expected_open rs)) as Hr.
  { subst s hits. cbn. rewrite count_within. f_equal. apply count_ext. intros r. apply andb_comm. }
  assert (su_conditionPrecision s = share hits (count actually_opened rs)) as Hp.
  { subst s hits. cbn. by rewrite count_within. }
  assert (forall k n, share k n = None <-> n = 0%nat) as Hs.
  { intros k [|n]; cbn; [done|]. unfold share. cbn. done. }
  split_and!.
  - apply count_split.
  - done.
  - done.
  - intros c t Ht. subst s. unfold report, buildReport, summary_of in Ht. cbn [rp_summary su_byCategory] in Ht.
    apply list_elem_of_fmap in Ht as (c' & [= -> ->] & _). cbn. split; [done|apply count_within].
  - etrans; [exact (categories_partition (fun _ => true) rs)|]. unfold count. by rewrite count_all.
  - etrans; [|exact (categories_partition er_passed rs)]. subst s. cbn. by rewrite !count_within.
  - unfold exit_code. subst s report. cbn. destruct (Nat.eqb_spec (count (fun r => negb (er_passed r)) rs) 0) as [E|E].
    + split; [intros _|done]. apply count_zero in E. eapply Forall_impl; [exact E|]. intros r. apply negb_false_iff.
    + split; [done|]. intros Hf. destruct E. apply count_zero. eapply Forall_impl; [exact Hf|]. intros r ->. done.
  - exact Hr.
  - subst hits. rewrite (count_ext _ (fun r => actually_opened r && expected_open r)) by (intros; apply andb_comm).
    rewrite <- count_within. apply count_le.
  - exact Hp.
  - subst hits. rewrite <- count_within. apply count_le.
  - rewrite Hr. apply Hs.
  - rewrite Hp. apply Hs.
Qed.

(** What was saved is read back, in full and in the listing's columns; other
    rows stay. *)
Theorem saved_report_is_read_back id report rows :
  match record id report rows with
  | (Ok r, rows') => get_record id rows' = Ok r /\ rr_report r = report /\ rr_totalCases r = su_totalCases (rp_summary report) /\
      rr_passed r = su_passed (rp_summary report) /\ rr_failed r = su_failed (rp_summary report) /\ rows ⊆ rows'
  | (Err e, rows') => rows' = rows /\ (fits_columns report = false \/ is_Some (rows !! id))
  end.
Proof.
  unfold record. unfold mbind, M_bind, gets, guard_throw. cbn.
  destruct (fits_columns report); cbn; [|by split; [|left]].
  case_bool_decide as Hid; cbn; [by split; [|right]|].
  apply eq_None_not_Some in Hid. unfold get_record. rewrite lookup_insert_eq. split_and!; try done. by apply insert_subseteq.
Qed.

(** The corpus is read in the order of the file names, one value per fixture,
    or a file is named that is no fixture. *)
Theorem corpus_is_ordered files :
  match loadCorpus files with
  | Ok vs => exists fs, fs ≡ₚ List.filter (fun f => ends_with ".json" f.1) files /\ StronglySorted by_name fs /\
      map snd fs = map Some vs
  | Err (SyntaxError name) => (name, None) ∈ files
  | Err (MalformedFixture name) => exists v, (name, Some v) ∈ files
  end.
Proof.
  assert (forall fs, match load_all fs with
    | Ok vs => map snd fs = map Some vs
    | Err (SyntaxError name) => (name, None) ∈ fs
    | Err (MalformedFixture name) => exists v, (name, Some v) ∈ fs end) as Hl.
  { induction fs as [|[name [v|]] fs IH]; cbn; [done| |by left]. unfold load_one. cbn.
    destruct (truthy_field _ _ && _ && _); [|exists v; by left].
    destruct (load_all fs) as [vs|[n|n]]; cbn; [by rewrite IH|by right|]. destruct IH as [v' ?]. exists v'. by right. }
  unfold loadCorpus. set (fs := merge_sort by_name (List.filter (fun f => ends_with ".json" f.1) files)).
  assert (fs ≡ₚ List.filter (fun f => ends_with ".json" f.1) files) as Hp by apply merge_sort_Permutation.
  assert (forall f, f ∈ fs -> f ∈ files) as Hin.
  { intros f. rewrite Hp, !list_elem_of_In, filter_In. by intros [? _]. }
  specialize (Hl fs). destruct (load_all fs) as [vs|[n|n]].
  - exists fs. split_and!; [done| |done]. apply StronglySorted_merge_sort.
    + intros a b c. unfold by_name. apply transitivity.
    + intros a b. unfold by_name. apply total, _.
  - by apply Hin.
  - destruct Hl as [v Hv]. exists v. by apply Hin.
Qed.
End EvaluationTheorems.
