(* ===== verification/RequestDtos.v ===== *)
(** * Request bodies

    The DTO classes of the controllers and resolvers, with their decorators,
    and what main.ts's ValidationPipe (whitelist, forbidNonWhitelisted,
    transform) does with a body.  The checks of text formats that the
    validation library makes are parameters.

    A class is a [Dto]: its properties, and how a validated body is read.  The
    law says that what passed validation can be read, so no handler sees a
    property of another type than its class declares. *)

From Stdlib Require Import Ascii SpecFloat.
From stdpp Require Import gmap strings list.
From S2P Require Import Prelude Encoding KeyRings BudgetLedger PolicyDsl PolicyDigest PolicyResolver PolicyEvaluation PolicyActivation Concurrency ProviderTables Consent ProviderPlatform ProviderDispatch WebhookGuard Outbox WebhookDelivery Communications AgentTables AgentTools AgentPlanner AgentRuntime CaseActivities CaseWorkflow CaseService AuthTables OidcService OidcSessions GuestSandbox Regex EnvConfig Simulators Underwriter.

Module Dtos.
Import Dsl.
Open Scope string_scope.

(** ** Decorators *)

Inductive Rule :=
| Length (lo hi : nat) | IsString | IsNotEmpty | MinLength (n : nat) | MaxLength (n : nat)
| IsIn (values : list string)
| IsNumber | IsInt | IsPositive | Min (n : Z) | Max (n : Z)
| IsArray | ArrayMinSize (n : nat) | ArrayUnique | Each (r : Rule)
| IsUUID | IsUrl | IsISO8601 | NoWhitespace.

(** What the library's predicates on texts decide. *)
Class Formats := { isUUID : string -> bool; isURL : string -> bool; isISO8601 : string -> bool }.

(** [value_eqb] of the texts of an array; other elements fail [Each]. *)
Fixpoint distinct_texts (vs : list value) : bool :=
  match vs with
  | [] => true
  | VString s :: vs => negb (existsb (fun v => match v with VString t => String.eqb s t | _ => false end) vs) && distinct_texts vs
  | _ :: vs => distinct_texts vs
  end.

Fixpoint meets `{Formats} (r : Rule) (v : value) : bool :=
  match r, v with
  | Length lo hi, VString s => (lo <=? String.length s)%nat && (String.length s <=? hi)%nat
  | IsString, VString _ => true
  | IsNotEmpty, VString s => JS.truthy s
  | IsNotEmpty, (VBool _ | VNumber _ | VArray _ | VObject _) => true
  | MinLength n, VString s => (n <=? String.length s)%nat
  | MaxLength n, VString s => (String.length s <=? n)%nat
  | IsIn l, VString s => includes l s
  | IsNumber, VNumber x => isFinite x
  | IsInt, VNumber x => Env.isInteger x
  | IsPositive, VNumber x => SFltb (f64_of_Z 0) x
  | Min n, VNumber x => SFleb (f64_of_Z n) x
  | Max n, VNumber x => SFleb x (f64_of_Z n)
  | IsArray, VArray _ => true
  | ArrayMinSize n, VArray vs => (n <=? length vs)%nat
  | ArrayUnique, VArray vs => distinct_texts vs
  | Each r, VArray vs => forallb (meets r) vs
  | IsUUID, VString s => isUUID s
  | IsUrl, VString s => isURL s
  | IsISO8601, VString s => isISO8601 s
  | NoWhitespace, VString s => JS.truthy s && Auth.all_chars (fun c => negb (JS.is_space c)) s
  | _, _ => false
  end.

Definition Body : Type := list (string * value).

(** A property with [@IsOptional] and [@ValidateIf]. *)
Record Property := { pr_name : string; pr_optional : bool; pr_when : Body -> bool; pr_rules : list Rule }.
Definition prop (name : string) (rules : list Rule) : Property :=
  {| pr_name := name; pr_optional := false; pr_when := fun _ => true; pr_rules := rules |}.
Definition optional (name : string) (rules : list Rule) : Property :=
  {| pr_name := name; pr_optional := true; pr_when := fun _ => true; pr_rules := rules |}.

Definition absent (v : value) : bool := match v with VUndefined | VNull => true | _ => false end.

(** ** The pipe *)

Inductive Rejection :=
| BadParameter (name : string)
| NotAnObject
| UnknownProperties (names : list string)
| InvalidProperties (names : list string)
| Rejected (message : string).

Section Pipe.
Context `{Formats}.

Definition valid_property (o : Body) (p : Property) : bool :=
  negb (pr_when p o) || (pr_optional p && absent (get o (pr_name p))) || forallb (fun r => meets r (get o (pr_name p))) (pr_rules p).

Definition unknown (ps : list Property) (o : Body) : list string :=
  map fst (List.filter (fun kv => negb (existsb (fun p => String.eqb (pr_name p) kv.1) ps)) o).
Definition invalid (ps : list Property) (o : Body) : list string :=
  map pr_name (List.filter (fun p => negb (valid_property o p)) ps).

(** A body that is missing is an empty one. *)
Definition body_of (body : value) : result Rejection Body :=
  match body with
  | VObject o => Ok o
  | VUndefined | VNull => Ok []
  | _ => Err NotAnObject
  end.

Definition validate (ps : list Property) (body : value) : result Rejection Body :=
  match body_of body with
  | Err e => Err e
  | Ok o =>
      match unknown ps o, invalid ps o with
      | [], [] => Ok o
      | [], names => Err (InvalidProperties names)
      | names, _ => Err (UnknownProperties names)
      end
  end.
End Pipe.

Class Dto `{Formats} (A : Type) := {
  properties : list Property;
  read : Body -> option A;
  readable o : forallb (valid_property o) properties = true -> is_Some (read o) }.

(** [@Body() dto: A] *)
Definition parse_body `{Dto A} (body : value) : result Rejection (Body * A) :=
  match validate properties body with
  | Err e => Err e
  | Ok o => match read o with Some a => Ok (o, a) | None => Err (Rejected "unreadable") end
  end.

(** ** Reading *)

Definition text (o : Body) (key : string) : option string :=
  match get o key with VString s => Some s | _ => None end.
Definition number (o : Body) (key : string) : option spec_float :=
  match get o key with VNumber x => Some x | _ => None end.
Definition texts_of (v : value) : option (list string) :=
  match v with
  | VArray vs => mapM (fun v => match v with VString s => Some s | _ => None end) vs
  | _ => None
  end.
(** A property that may be missing or null. *)
Definition maybe {A} (read : Body -> string -> option A) (o : Body) (key : string) : option (option A) :=
  if absent (get o key) then Some None else Some <$> read o key.
(** [dto.x === undefined], null, or a value. *)
Inductive Patch (A : Type) := Keep | Null | Set_ (a : A).
Arguments Keep {A}.
Arguments Null {A}.
Arguments Set_ {A}.
Definition patch {A} (read : Body -> string -> option A) (o : Body) (key : string) : option (Patch A) :=
  match get o key with VUndefined => Some Keep | VNull => Some Null | _ => Set_ <$> read o key end.
Definition integer (o : Body) (key : string) : option Z := Simulators.to_Z <$> number o key.
Definition texts (o : Body) (key : string) : option (list string) := texts_of (get o key).

(** The member of an enumeration with this text. *)
Definition member {A} (text : A -> string) (all : list A) (s : string) : option A := List.find (fun a => String.eqb (text a) s) all.
Definition chosen {A} (name : A -> string) (all : list A) (o : Body) (key : string) : option A :=
  s ← text o key; member name all s.
(** [@IsIn], [@IsEnum] *)
Definition one_of {A} (name : A -> string) (all : list A) : Rule := IsIn (map name all).

Definition loan_types : list Activation.LoanType :=
  [Activation.CONVENTIONAL; Activation.FHA; Activation.VA; Activation.JUMBO].
Definition capabilities : list Tables.ProviderCapability :=
  [Tables.INCOME; Tables.ASSET; Tables.CREDIT; Tables.IDENTITY; Tables.DOCUMENT].
Definition mode_text (m : Tables.ProviderMode) : string :=
  match m with
  | Tables.SIMULATOR => "SIMULATOR" | Tables.AUTHORIZED_SANDBOX => "AUTHORIZED_SANDBOX"
  | Tables.PRODUCTION_BYOC => "PRODUCTION_BYOC"
  end.
Definition PROVIDER_MODES : list Tables.ProviderMode := [Tables.SIMULATOR; Tables.AUTHORIZED_SANDBOX; Tables.PRODUCTION_BYOC].
Definition certification_text (d : Tables.ProviderCertificationDecision) : string :=
  match d with Tables.PASSED => "PASSED" | Tables.FAILED => "FAILED" | Tables.CERTIFICATION_REVOKED => "REVOKED" end.
Definition approval_text (d : Tables.ProviderApprovalDecision) : string :=
  match d with Tables.APPROVED => "APPROVED" | Tables.REJECTED => "REJECTED" | Tables.APPROVAL_REVOKED => "REVOKED" end.
Definition KNOWN_EVENT_TYPES : list string :=
  [Outbox.LoanCaseCreated; Outbox.WorkflowRunStarted; Outbox.WorkflowRunWaitingForReview; Outbox.WorkflowRunCompleted;
   Outbox.WorkflowRunFailed; Outbox.WorkflowRunCancelled; Outbox.WorkflowRunRecoveryStarted; Outbox.EvidenceUpdated;
   Outbox.ConditionOpened; Outbox.ConditionSatisfied; Outbox.ConditionWaived; Outbox.EvaluationInterrupted;
   Outbox.CaseEscalated; Outbox.CommunicationDelivered].

(** ** What validity says about a property *)

Section Facts.
Context `{Formats}.

Lemma absent_false v : absent v = false -> v <> VUndefined /\ v <> VNull.
Proof. by destruct v. Qed.

(** The rules that say what type a value has. *)
Definition textual (r : Rule) : bool :=
  match r with
  | Length _ _ | IsString | MinLength _ | MaxLength _ | IsIn _ | IsUUID | IsUrl | IsISO8601 | NoWhitespace => true
  | _ => false
  end.
Definition numeric (r : Rule) : bool :=
  match r with IsNumber | IsInt | IsPositive | Min _ | Max _ => true | _ => false end.
Definition of_texts (r : Rule) : bool := match r with Each r => textual r | _ => false end.

Lemma textual_text r v : textual r = true -> meets r v = true -> exists s, v = VString s.
Proof. destruct r, v; cbn; intros; try done; by eexists. Qed.
Lemma numeric_number r v : numeric r = true -> meets r v = true -> exists x, v = VNumber x.
Proof. destruct r, v; cbn; intros; try done; by eexists. Qed.

Lemma of_texts_texts r v : of_texts r = true -> meets r v = true -> is_Some (texts_of v).
Proof.
  destruct r; try done. cbn. intros Ht. destruct v; try done. intros Hall. rewrite forallb_forall in Hall.
  cbn. apply mapM_is_Some, Forall_forall. intros v Hv. apply list_elem_of_In in Hv.
  destruct (textual_text _ _ Ht (Hall v Hv)) as [s ->]. by eexists.
Qed.

Lemma rule_of o p r : valid_property o p = true -> pr_when p o = true -> r ∈ pr_rules p ->
  pr_optional p = true /\ absent (get o (pr_name p)) = true \/ meets r (get o (pr_name p)) = true.
Proof.
  intros Hv Hw Hr. unfold valid_property in Hv. rewrite Hw in Hv. cbn in Hv.
  apply orb_true_iff in Hv as [[? ?]%andb_true_iff|Hv]; [by left|right].
  rewrite forallb_forall in Hv. apply Hv. by apply list_elem_of_In.
Qed.

Lemma valid_text o name rules : valid_property o (prop name rules) = true -> existsb textual rules = true -> is_Some (text o name).
Proof.
  intros Hv (r & Hr & Ht)%existsb_exists.
  destruct (rule_of o _ r Hv eq_refl) as [[? _]|Hm]; [by apply list_elem_of_In|done|].
  destruct (textual_text _ _ Ht Hm) as [s Hs]. cbn in Hs. unfold text. rewrite Hs. by eexists.
Qed.

Lemma valid_number o name rules : valid_property o (prop name rules) = true -> existsb numeric rules = true -> is_Some (number o name).
Proof.
  intros Hv (r & Hr & Ht)%existsb_exists.
  destruct (rule_of o _ r Hv eq_refl) as [[? _]|Hm]; [by apply list_elem_of_In|done|].
  destruct (numeric_number _ _ Ht Hm) as [x Hx]. cbn in Hx. unfold number. rewrite Hx. by eexists.
Qed.

Lemma valid_texts o name rules : valid_property o (prop name rules) = true -> existsb of_texts rules = true -> is_Some (texts o name).
Proof.
  intros Hv (r & Hr & Ht)%existsb_exists.
  destruct (rule_of o _ r Hv eq_refl) as [[? _]|Hm]; [by apply list_elem_of_In|done|].
  by apply (of_texts_texts r).
Qed.

Lemma valid_chosen {A} (name : A -> string) all o key rules :
  valid_property o (prop key (one_of name all :: rules)) = true -> is_Some (chosen name all o key).
Proof.
  intros Hv. destruct (rule_of o _ (one_of name all) Hv eq_refl) as [[? _]|Hm]; [by left|done|].
  unfold chosen, text. cbn in Hm. destruct (get o key) as [| |b|x|s|l|l]; try done. cbn in *.
  unfold includes in Hm. apply bool_decide_eq_true, list_elem_of_fmap in Hm as (a & -> & Ha).
  unfold member. destruct (List.find _ all) as [b|] eqn:E; [by eexists|].
  eapply List.find_none in E; [|by apply list_elem_of_In]. by rewrite String.eqb_refl in E.
Qed.

Lemma chosen_text {A} (name : A -> string) all o key a : chosen name all o key = Some a -> text o key = Some (name a).
Proof.
  unfold chosen. destruct (text o key) as [s|]; [|done]. cbn. unfold member. intros Hf.
  apply List.find_some in Hf as [_ Hf]. apply String.eqb_eq in Hf. by f_equal.
Qed.

Lemma valid_maybe {A} (rd : Body -> string -> option A) o name rules :
  valid_property o (optional name rules) = true ->
  (valid_property o (prop name rules) = true -> is_Some (rd o name)) -> is_Some (maybe rd o name).
Proof.
  unfold maybe, valid_property. cbn. intros Hv Hr. destruct (absent (get o name)); [by eexists|]. cbn in Hv.
  destruct (Hr Hv) as [a ->]. by eexists.
Qed.

Lemma valid_patch {A} (rd : Body -> string -> option A) o name rules :
  valid_property o (optional name rules) = true ->
  (valid_property o (prop name rules) = true -> is_Some (rd o name)) -> is_Some (patch rd o name).
Proof.
  unfold patch, valid_property. cbn. intros Hv Hr. destruct (get o name); try (by eexists); destruct (Hr Hv) as [a ->]; by eexists.
Qed.

Lemma fmap_is_Some {A B} (f : A -> B) (o : option A) : is_Some o -> is_Some (f <$> o).
Proof. intros [a ->]. by eexists. Qed.
Lemma bind_is_Some {A B} (o : option A) (f : A -> option B) : is_Some o -> (forall a, o = Some a -> is_Some (f a)) -> is_Some (o ≫= f).
Proof. intros [a Ha] H'. rewrite Ha. by apply H'. Qed.
End Facts.

(** One property that was validated. *)
Ltac readable_one :=
  first
    [ eapply valid_chosen; eassumption
    | eapply valid_text; [eassumption|reflexivity]
    | eapply valid_number; [eassumption|reflexivity]
    | apply fmap_is_Some; eapply valid_number; [eassumption|reflexivity]
    | eapply valid_texts; [eassumption|reflexivity]
    | eapply valid_maybe; [eassumption|]; intros; readable_one
    | eapply valid_patch; [eassumption|]; intros; readable_one ].

(** Reads the properties of a class one after the other. *)
Ltac readable :=
  intros o Hv; cbn [forallb] in Hv; rewrite ?andb_true_iff in Hv; destruct_and? Hv;
  repeat first [ readable_one | by eexists | apply bind_is_Some; [|intros ? _] ].
End Dtos.
