(* ===== verification/RequestClasses.v ===== *)
(** * The DTO classes

    One instance of [Dto] per class: cases/dto, communications/dto,
    agent-runtime/dto, data-disposition/dto, provider-platform/dto,
    webhooks/dto, auth/dto and the input of loan/loan.model.ts. *)

From Stdlib Require Import Ascii SpecFloat.
From stdpp Require Import gmap strings list.
From S2P Require Import Prelude Encoding KeyRings BudgetLedger PolicyDsl PolicyDigest PolicyResolver PolicyEvaluation PolicyActivation Concurrency ProviderTables Consent ProviderPlatform ProviderDispatch WebhookGuard Outbox WebhookDelivery Communications AgentTables AgentTools AgentPlanner AgentRuntime CaseActivities CaseWorkflow CaseService AuthTables OidcService OidcSessions GuestSandbox Regex EnvConfig Simulators Underwriter RequestDtos.

Module Classes.
Import Dtos.
Open Scope string_scope.

(** ** Cases *)

Section CaseBodies.
Context `{Formats}.

#[export] Program Instance CreateCaseDto : Dto Cases.CreateCaseDto := {|
  properties := [prop "borrowerId" [Length 1 100]; prop "requestedAmount" [IsPositive];
    prop "loanType" [one_of Cases.loan_type_text loan_types]; prop "statedMonthlyIncome" [IsPositive];
    prop "jurisdictionCode" [Length 1 20]];
  read o :=
    borrowerId ← text o "borrowerId"; requestedAmount ← number o "requestedAmount";
    loanType ← chosen Cases.loan_type_text loan_types o "loanType";
    statedMonthlyIncome ← number o "statedMonthlyIncome"; jurisdictionCode ← text o "jurisdictionCode";
    Some {| Cases.dto_borrowerId := borrowerId; Cases.dto_requestedAmount := requestedAmount;
            Cases.dto_loanType := loanType; Cases.dto_statedMonthlyIncome := statedMonthlyIncome;
            Cases.dto_jurisdictionCode := jurisdictionCode |} |}.
Next Obligation. readable. Qed.

Inductive ReviewActionType := CONDITION_RESOLUTION | RESUME_EVALUATION.
Definition review_text (t : ReviewActionType) : string :=
  match t with CONDITION_RESOLUTION => "CONDITION_RESOLUTION" | RESUME_EVALUATION => "RESUME_EVALUATION" end.
Definition review_types : list ReviewActionType := [CONDITION_RESOLUTION; RESUME_EVALUATION].
Definition resolution_text (k : Activities.ConditionResolutionKind) : string :=
  match k with Activities.Resolve_SATISFIED => "SATISFIED" | Activities.Resolve_WAIVED => "WAIVED" end.
Definition resolutions : list Activities.ConditionResolutionKind := [Activities.Resolve_SATISFIED; Activities.Resolve_WAIVED].

Definition resolves_condition (o : Body) : bool :=
  match text o "reviewType" with Some t => String.eqb t "CONDITION_RESOLUTION" | None => false end.
Definition resolution_property : Property :=
  {| pr_name := "resolution"; pr_optional := false; pr_when := resolves_condition;
     pr_rules := [one_of resolution_text resolutions] |}.

#[export] Program Instance ReviewDto : Dto Cases.ReviewDto := {|
  properties := [prop "reviewType" [one_of review_text review_types]; prop "actorId" [Length 1 200];
    resolution_property; optional "reason" [Length 1 2000]];
  read o :=
    reviewType ← chosen review_text review_types o "reviewType"; actorId ← text o "actorId";
    reason ← maybe text o "reason";
    match reviewType with
    | RESUME_EVALUATION => Some (Cases.RESUME_EVALUATION actorId reason)
    | CONDITION_RESOLUTION =>
        resolution ← chosen resolution_text resolutions o "resolution";
        Some (Cases.CONDITION_RESOLUTION actorId resolution reason)
    end |}.
Next Obligation.
  intros o Hv. cbn [forallb] in Hv. rewrite !andb_true_iff in Hv. destruct Hv as (H1 & H2 & H3 & H4 & _).
  apply bind_is_Some; [eapply valid_chosen; eassumption|]. intros t Ht.
  apply bind_is_Some; [eapply valid_text; [eassumption|reflexivity]|]. intros a _.
  apply bind_is_Some; [eapply valid_maybe; [eassumption|]; intros; eapply valid_text; [eassumption|reflexivity]|]. intros r _.
  destruct t; [|by eexists]. apply bind_is_Some; [|by eexists].
  assert (resolves_condition o = true) as Hw.
  { apply chosen_text in Ht. unfold resolves_condition. by rewrite Ht. }
  apply (valid_chosen _ _ _ _ []). unfold valid_property in H3 |- *. cbn [pr_when resolution_property] in H3.
  rewrite Hw in H3. exact H3.
Qed.

Inductive ConsentActionType := GRANT | REVOKE.
Definition consent_text (t : ConsentActionType) : string := match t with GRANT => "GRANT" | REVOKE => "REVOKE" end.
Definition consent_actions : list ConsentActionType := [GRANT; REVOKE].

#[export] Program Instance ConsentActionDto : Dto Cases.ConsentActionDto := {|
  properties := [prop "action" [one_of consent_text consent_actions]; optional "reason" [Length 1 2000]];
  read o :=
    action ← chosen consent_text consent_actions o "action"; reason ← maybe text o "reason";
    Some (match action with REVOKE => Cases.REVOKE reason | GRANT => Cases.GRANT end) |}.
Next Obligation. readable. Qed.

Record EscalateDto := { es_actorId : string; es_reason : string }.
#[export] Program Instance EscalateDto_class : Dto EscalateDto := {|
  properties := [prop "actorId" [Length 1 200]; prop "reason" [Length 1 2000]];
  read o := actorId ← text o "actorId"; reason ← text o "reason"; Some {| es_actorId := actorId; es_reason := reason |} |}.
Next Obligation. readable. Qed.

Record CheckPolicyChangeImpactDto := { cp_policyVersionId : string }.
#[export] Program Instance CheckPolicyChangeImpactDto_class : Dto CheckPolicyChangeImpactDto := {|
  properties := [prop "policyVersionId" [IsUUID]];
  read o := id ← text o "policyVersionId"; Some {| cp_policyVersionId := id |} |}.
Next Obligation. readable. Qed.

Record WorkflowOperationReasonDto := { wo_reason : string }.
#[export] Program Instance WorkflowOperationReasonDto_class : Dto WorkflowOperationReasonDto := {|
  properties := [prop "reason" [Length 10 1000]];
  read o := reason ← text o "reason"; Some {| wo_reason := reason |} |}.
Next Obligation. readable. Qed.

Record ApproveCommunicationMessageDto := { ap_actorId : string; ap_reason : option string }.
#[export] Program Instance ApproveCommunicationMessageDto_class : Dto ApproveCommunicationMessageDto := {|
  properties := [prop "actorId" [Length 1 200]; optional "reason" [Length 1 2000]];
  read o := actorId ← text o "actorId"; reason ← maybe text o "reason"; Some {| ap_actorId := actorId; ap_reason := reason |} |}.
Next Obligation. readable. Qed.
End CaseBodies.

(** ** Operators *)

Section Operators.
Context `{Formats}.

Inductive AgentBudgetResolutionOutcome := Committed | Released.
Definition outcome_text (o : AgentBudgetResolutionOutcome) : string :=
  match o with Committed => "COMMITTED" | Released => "RELEASED" end.

Record ReconcileAgentBudgetReservationDto := {
  rc_outcome : AgentBudgetResolutionOutcome; rc_resolutionNote : string; rc_actualCostMinorUnits : Patch Z }.
#[export] Program Instance ReconcileAgentBudgetReservationDto_class : Dto ReconcileAgentBudgetReservationDto := {|
  properties := [prop "outcome" [one_of outcome_text [Committed; Released]];
    prop "resolutionNote" [IsString; MinLength 10; MaxLength 2000];
    optional "actualCostMinorUnits" [IsInt; Min 0; Max 2147483647]];
  read o :=
    outcome ← chosen outcome_text [Committed; Released] o "outcome"; resolutionNote ← text o "resolutionNote";
    cost ← patch integer o "actualCostMinorUnits";
    Some {| rc_outcome := outcome; rc_resolutionNote := resolutionNote; rc_actualCostMinorUnits := cost |} |}.
Next Obligation. readable. Qed.

Definition action_text (a : Consent.DataDispositionResolutionAction) : string :=
  match a with Consent.DELETE => "DELETE" | Consent.ANONYMIZE => "ANONYMIZE" | Consent.RETAIN => "RETAIN" end.
Definition actions : list Consent.DataDispositionResolutionAction := [Consent.DELETE; Consent.ANONYMIZE; Consent.RETAIN].

Record ResolveDataDispositionTaskDto := { rd_action : Consent.DataDispositionResolutionAction }.
#[export] Program Instance ResolveDataDispositionTaskDto_class : Dto ResolveDataDispositionTaskDto := {|
  properties := [prop "action" [one_of action_text actions]];
  read o := action ← chosen action_text actions o "action"; Some {| rd_action := action |} |}.
Next Obligation. readable. Qed.

Record VerifyBackupExpiryDto := { vb_verificationReference : string }.
#[export] Program Instance VerifyBackupExpiryDto_class : Dto VerifyBackupExpiryDto := {|
  properties := [prop "verificationReference" [IsString; IsNotEmpty; MaxLength 500]];
  read o := reference ← text o "verificationReference"; Some {| vb_verificationReference := reference |} |}.
Next Obligation. readable. Qed.

Definition manual_text (o : Dispatch.ManualOutcome) : string :=
  match o with
  | Dispatch.Manual_SUCCEEDED => "SUCCEEDED" | Dispatch.Manual_FAILED_FINAL => "FAILED_FINAL"
  | Dispatch.Manual_CANCELLED => "CANCELLED"
  end.
Definition manual_outcomes : list Dispatch.ManualOutcome :=
  [Dispatch.Manual_SUCCEEDED; Dispatch.Manual_FAILED_FINAL; Dispatch.Manual_CANCELLED].

Record ResolveProviderOperationIntentDto := { ri_outcome : Dispatch.ManualOutcome; ri_resolutionNote : string }.
#[export] Program Instance ResolveProviderOperationIntentDto_class : Dto ResolveProviderOperationIntentDto := {|
  properties := [prop "outcome" [one_of manual_text manual_outcomes];
    prop "resolutionNote" [IsString; MinLength 10; MaxLength 2000]];
  read o :=
    outcome ← chosen manual_text manual_outcomes o "outcome"; note ← text o "resolutionNote";
    Some {| ri_outcome := outcome; ri_resolutionNote := note |} |}.
Next Obligation. readable. Qed.

Record CreateWebhookEndpointDto := { cw_targetUrl : string; cw_eventTypes : list string }.
#[export] Program Instance CreateWebhookEndpointDto_class : Dto CreateWebhookEndpointDto := {|
  properties := [prop "targetUrl" [IsUrl]; prop "eventTypes" [ArrayMinSize 1; ArrayUnique; Each (IsIn KNOWN_EVENT_TYPES)]];
  read o := url ← text o "targetUrl"; types ← texts o "eventTypes"; Some {| cw_targetUrl := url; cw_eventTypes := types |} |}.
Next Obligation. readable. Qed.

Record UpdateWebhookEndpointDto := {
  uw_targetUrl : Patch string; uw_eventTypes : Patch (list string); uw_outboundRateLimitPerMinute : Patch Z }.
#[export] Program Instance UpdateWebhookEndpointDto_class : Dto UpdateWebhookEndpointDto := {|
  properties := [optional "targetUrl" [IsUrl]; optional "eventTypes" [ArrayMinSize 1; ArrayUnique; Each (IsIn KNOWN_EVENT_TYPES)];
    optional "outboundRateLimitPerMinute" [IsInt; Min 1; Max 600]];
  read o :=
    url ← patch text o "targetUrl"; types ← patch texts o "eventTypes"; limit ← patch integer o "outboundRateLimitPerMinute";
    Some {| uw_targetUrl := url; uw_eventTypes := types; uw_outboundRateLimitPerMinute := limit |} |}.
Next Obligation. readable. Qed.
End Operators.

(** ** Platform administrators *)

Section Promotions.
Context `{Formats}.

Record ProposeManifestDto := {
  pm_providerId : string; pm_capability : Tables.ProviderCapability; pm_mode : Tables.ProviderMode;
  pm_adapterVersion : string; pm_endpointAllowlist : list string; pm_dataClassifications : list string;
  pm_validUntil : option string; pm_declaredCommandClass : option string }.
#[export] Program Instance ProposeManifestDto_class : Dto ProposeManifestDto := {|
  properties := [prop "providerId" [IsString; MinLength 1]; prop "capability" [one_of Tables.capability_text capabilities];
    prop "mode" [one_of mode_text PROVIDER_MODES]; prop "adapterVersion" [IsString; MinLength 1];
    prop "endpointAllowlist" [IsArray; ArrayMinSize 1; Each IsString];
    prop "dataClassifications" [IsArray; ArrayMinSize 1; Each IsString];
    optional "validUntil" [IsISO8601]; optional "declaredCommandClass" [IsString]];
  read o :=
    providerId ← text o "providerId"; capability ← chosen Tables.capability_text capabilities o "capability";
    mode ← chosen mode_text PROVIDER_MODES o "mode"; adapterVersion ← text o "adapterVersion";
    endpointAllowlist ← texts o "endpointAllowlist"; dataClassifications ← texts o "dataClassifications";
    validUntil ← maybe text o "validUntil"; declaredCommandClass ← maybe text o "declaredCommandClass";
    Some {| pm_providerId := providerId; pm_capability := capability; pm_mode := mode; pm_adapterVersion := adapterVersion;
            pm_endpointAllowlist := endpointAllowlist; pm_dataClassifications := dataClassifications;
            pm_validUntil := validUntil; pm_declaredCommandClass := declaredCommandClass |} |}.
Next Obligation. readable. Qed.

Definition certification_decisions : list Tables.ProviderCertificationDecision :=
  [Tables.PASSED; Tables.FAILED; Tables.CERTIFICATION_REVOKED].
Definition approval_decisions : list Tables.ProviderApprovalDecision :=
  [Tables.APPROVED; Tables.REJECTED; Tables.APPROVAL_REVOKED].

Record CertifyManifestDto := {
  ce_environment : string; ce_decision : Tables.ProviderCertificationDecision; ce_evidenceRef : string;
  ce_expiresAt : option string }.
#[export] Program Instance CertifyManifestDto_class : Dto CertifyManifestDto := {|
  properties := [prop "environment" [IsString; MinLength 1]; prop "decision" [one_of certification_text certification_decisions];
    prop "evidenceRef" [IsString; MinLength 1]; optional "expiresAt" [IsISO8601]];
  read o :=
    environment ← text o "environment"; decision ← chosen certification_text certification_decisions o "decision";
    evidenceRef ← text o "evidenceRef"; expiresAt ← maybe text o "expiresAt";
    Some {| ce_environment := environment; ce_decision := decision; ce_evidenceRef := evidenceRef; ce_expiresAt := expiresAt |} |}.
Next Obligation. readable. Qed.

Record ApproveManifestDto := {
  am_approvalRole : string; am_decision : Tables.ProviderApprovalDecision; am_expiresAt : option string }.
#[export] Program Instance ApproveManifestDto_class : Dto ApproveManifestDto := {|
  properties := [prop "approvalRole" [IsString; MinLength 1]; prop "decision" [one_of approval_text approval_decisions];
    optional "expiresAt" [IsISO8601]];
  read o :=
    approvalRole ← text o "approvalRole"; decision ← chosen approval_text approval_decisions o "decision";
    expiresAt ← maybe text o "expiresAt";
    Some {| am_approvalRole := approvalRole; am_decision := decision; am_expiresAt := expiresAt |} |}.
Next Obligation. readable. Qed.

Record ActivateManifestDto := { ac_environment : string; ac_expectedCurrentManifestVersion : option Z }.
#[export] Program Instance ActivateManifestDto_class : Dto ActivateManifestDto := {|
  properties := [prop "environment" [IsString; MinLength 1]; optional "expectedCurrentManifestVersion" [IsInt]];
  read o :=
    environment ← text o "environment"; version ← maybe integer o "expectedCurrentManifestVersion";
    Some {| ac_environment := environment; ac_expectedCurrentManifestVersion := version |} |}.
Next Obligation. readable. Qed.

Record DeactivateProviderDto := {
  dp_providerId : string; dp_capability : Tables.ProviderCapability; dp_mode : Tables.ProviderMode }.
#[export] Program Instance DeactivateProviderDto_class : Dto DeactivateProviderDto := {|
  properties := [prop "providerId" [IsString; MinLength 1]; prop "capability" [one_of Tables.capability_text capabilities];
    prop "mode" [one_of mode_text PROVIDER_MODES]];
  read o :=
    providerId ← text o "providerId"; capability ← chosen Tables.capability_text capabilities o "capability";
    mode ← chosen mode_text PROVIDER_MODES o "mode";
    Some {| dp_providerId := providerId; dp_capability := capability; dp_mode := mode |} |}.
Next Obligation. readable. Qed.
End Promotions.

(** ** Anybody *)

Section Public.
Context `{Formats}.

#[export] Program Instance CreateGuestSandboxSessionDto_class : Dto Sandbox.CreateGuestSandboxSessionDto := {|
  properties := [optional "requestedAmount" [IsPositive; Max 10000000]; optional "statedMonthlyIncome" [IsPositive; Max 1000000]];
  read o :=
    amount ← maybe number o "requestedAmount"; income ← maybe number o "statedMonthlyIncome";
    Some {| Sandbox.sc_requestedAmount := amount; Sandbox.sc_statedMonthlyIncome := income |} |}.
Next Obligation. readable. Qed.

#[export] Program Instance EvaluateLoanInput_class : Dto Underwriter.EvaluateLoanInput := {|
  properties := [prop "borrowerId" [IsString; IsNotEmpty; MaxLength 100; NoWhitespace];
    prop "requestedAmount" [IsNumber; IsPositive; Min 10000]; prop "loanType" [one_of Cases.loan_type_text loan_types]];
  read o :=
    borrowerId ← text o "borrowerId"; amount ← number o "requestedAmount"; loanType ← text o "loanType";
    Some {| Underwriter.el_borrowerId := borrowerId; Underwriter.el_requestedAmount := amount; Underwriter.el_loanType := loanType |} |}.
Next Obligation. readable. Qed.
End Public.
End Classes.
