(* ===== verification/Requests.v ===== *)
(** * From a request to a service call

    What every method of a controller or resolver does once its guards let the
    request through: read the parameters and the body, or refuse them; name the
    call to the service with its arguments; and, after the call, write the
    audit event.  [plan] is the first half of a handler and [audit_of] the
    second.

    The tenant and the actor come from the context the guards left on the
    request.  ParseUUIDPipe, ParseIntPipe and [new Date] are parameters; the
    answer of a service is the object it returns. *)

From Stdlib Require Import Ascii SpecFloat.
From stdpp Require Import gmap strings list.
From S2P Require Import Prelude Encoding KeyRings BudgetLedger PolicyDsl PolicyDigest PolicyResolver PolicyEvaluation PolicyActivation Concurrency ProviderTables Consent ProviderPlatform ProviderDispatch WebhookGuard Outbox WebhookDelivery Communications AgentTables AgentTools AgentPlanner AgentRuntime CaseActivities CaseWorkflow CaseService CaseQuery AuditLog AuthTables OidcService OidcSessions GuestSandbox AuthGuards Regex EnvConfig Simulators Underwriter HttpRoutes RequestDtos RequestClasses.

Module Requests.
Import Auth Routes Dtos Classes.
Open Scope string_scope.

(** ** What arrives *)

(** A request beside its credentials: path parameters, query, headers, body;
    for GraphQL the arguments are its parameters and [input] its body. *)
Record Input := {
  in_params : list (string * string);
  in_query : list (string * string);
  in_headers : list (string * string);
  in_body : Dsl.value;
  in_request : HttpRequest }.

(** ** What a handler calls *)

Inductive Call :=
| Authenticate (op : Guards.Op)
| CaseOp (op : Cases.Op)
| CaseTimeline (tenantId caseId : string)
| CasesOf (tenantId : string) (options : Query.ListCasesOptions)
| CaseStatusCounts (tenantId : string)
| RecentActivity (tenantId : string) (limit : option Z)
| CaseChangeImpact (tenantId caseId policyVersionId : string)
| MessagesOf (tenantId caseId : string)
| ApproveMessage (tenantId messageId actorId : string) (reason : option string) (correlationId : string)
| DeliverMessage (tenantId messageId : string)
| ObserveAggregateUsage (tenantId : string)
| ListUnknown (tenantId : string) (limit : Z)
| CommitReservation (i : Ledger.CommitInput) (costIsNull : bool)
| ReleaseReservation (tenantId reservationId resolvedBy resolutionNote : string)
| ListOpen (tenantId : string) (limit : Z)
| ListAwaitingBackupExpiry (tenantId : string) (limit : Z)
| ResolveTask (tenantId taskId : string) (action : Consent.DataDispositionResolutionAction) (actorId correlationId : string)
| VerifyBackupExpiry (tenantId taskId actorId reference : string)
| ListNeedingReconciliation (tenantId : string) (limit : Z)
| ResolveManually (tenantId intentId : string) (outcome : Dispatch.ManualOutcome) (resolvedBy note : string)
| CreateEndpoint (tenantId targetUrl : string) (eventTypes : list string)
| EndpointsOf (tenantId : string)
| UpdateEndpoint (tenantId endpointId : string) (changes : UpdateWebhookEndpointDto)
| DisableEndpoint (tenantId endpointId : string)
| DeliveryOf (tenantId deliveryId : string)
| AuditEvents (tenantId : string) (limit : Z)
| AuditHistory (tenantId : string)
| Manifests (limit : Z)
| ManifestDetail (manifestId : string)
| Propose (i : Platform.ProposeManifestInput)
| Certify (manifestId environment certifiedBy : string) (decision : Tables.ProviderCertificationDecision)
    (evidenceRef : string) (expiresAt : option Z)
| Approve (manifestId approvalRole approvedBy : string) (decision : Tables.ProviderApprovalDecision) (expiresAt : option Z)
| Activate (manifestId environment activatedBy : string) (expectedCurrentManifestVersion : option Z)
| Activations
| Deactivate (tuple : Tables.Tuple) (actorId : string)
| PolicyVersions (query : option string) (limit : Z)
| ResearchRuns (limit : Z)
| Reports (limit : Z)
| Report (id : string)
| EvaluateLoan (input : Underwriter.EvaluateLoanInput)
| Health.

(** The tenant a call is for. *)
Definition call_tenant (c : Call) : option string :=
  match c with
  | CaseOp op => Some (Cases.op_tenant op)
  | CaseTimeline t _ | CasesOf t _ | CaseStatusCounts t | RecentActivity t _ | CaseChangeImpact t _ _ | MessagesOf t _
  | ApproveMessage t _ _ _ _ | DeliverMessage t _ | ObserveAggregateUsage t | ListUnknown t _ | ReleaseReservation t _ _ _
  | ListOpen t _ | ListAwaitingBackupExpiry t _ | ResolveTask t _ _ _ _ | VerifyBackupExpiry t _ _ _
  | ListNeedingReconciliation t _ | ResolveManually t _ _ _ _ | CreateEndpoint t _ _ | EndpointsOf t | UpdateEndpoint t _ _
  | DisableEndpoint t _ | DeliveryOf t _ | AuditEvents t _ | AuditHistory t => Some t
  | CommitReservation i _ => Some (Ledger.ci_tenantId i)
  | _ => None
  end.

(** Whom a call that records a person records. *)
Definition call_actor (c : Call) : option string :=
  match c with
  | CommitReservation i _ => Ledger.ci_resolvedBy i
  | ReleaseReservation _ _ who _ | ResolveTask _ _ _ who _ | VerifyBackupExpiry _ _ who _ | ResolveManually _ _ _ who _ => Some who
  | Propose i => Some (Platform.pi_proposedBy i)
  | Certify _ _ who _ _ _ | Approve _ _ who _ _ | Activate _ _ who _ | Deactivate _ who => Some who
  | _ => None
  end.

Section Handlers.
Context `{Formats} (parse_uuid : string -> bool) (parse_int : string -> option Z) (new_date : string -> Z).

(** ** Reading parameters *)

Definition lookup_param (key : string) (l : list (string * string)) : option string :=
  snd <$> List.find (fun kv => String.eqb kv.1 key) l.

Notation handler A := (result Rejection A).

(** [@Param(name)] *)
Definition param (name : string) (i : Input) : handler string :=
  match lookup_param name (in_params i) with Some s => Ok s | None => Err (BadParameter name) end.
(** [@Param(name, ParseUUIDPipe)] *)
Definition uuid_param (name : string) (i : Input) : handler string :=
  s ← param name i; if parse_uuid s then Ok s else Err (BadParameter name).
(** [@Query('limit', new DefaultValuePipe(n), ParseIntPipe)] *)
Definition limit_query (n : Z) (i : Input) : handler Z :=
  match lookup_param "limit" (in_query i) with
  | None => Ok n
  | Some s => match parse_int s with Some l => Ok l | None => Err (BadParameter "limit") end
  end.

(** [dto.x ? new Date(dto.x) : null] *)
Definition date_or_null (s : option string) : option Z :=
  match s with Some s => if JS.truthy s then Some (new_date s) else None | None => None end.

(** An argument of GraphQL that may be left out. *)
Definition arg_text (key : string) (i : Input) : option string :=
  match in_body i with Dsl.VObject o => text o key | _ => None end.
Definition arg_int (key : string) (i : Input) : option Z :=
  match in_body i with Dsl.VObject o => integer o key | _ => None end.

(** [@CurrentAuth()], [@AuthTenantId()] *)
Definition current (ct : Context_) : handler AuthContext :=
  match ct_auth ct with Some c => Ok c | None => Err (Rejected "CurrentAuth used without TenantAuthGuard") end.
(** [@CurrentPlatformAdmin()] *)
Definition admin (ct : Context_) : handler PlatformAdminContext :=
  match ct_admin ct with Some c => Ok c | None => Err (Rejected "CurrentPlatformAdmin used without PlatformAdminGuard") end.

(** [@Body() dto] *)
Definition body `{Dto A} (i : Input) : handler A := '(_, a) ← parse_body (A := A) (in_body i); Ok a.

(** ** Cases *)

Definition plan_create (c : AuthContext) (i : Input) : handler Call :=
  dto ← body (A := Cases.CreateCaseDto) i;
  let key := default "" (JS.trim <$> lookup_param "idempotency-key" (in_headers i)) in
  if JS.truthy key then Ok (CaseOp (Cases.OpCreate (cx_tenantId c) key dto))
  else Err (Rejected "Idempotency-Key header is required").

(** A method of a case, for both transports: [caseId] reads the parameter. *)
Section OfCase.
Context (caseId : string -> Input -> handler string).

Definition plan_case (f : string -> string -> Call) (c : AuthContext) (i : Input) : handler Call :=
  id ← caseId "caseId" i; Ok (f (cx_tenantId c) id).

Definition plan_review (c : AuthContext) (i : Input) : handler Call :=
  id ← caseId "caseId" i; dto ← body (A := Cases.ReviewDto) i;
  Ok (CaseOp (Cases.OpReview (cx_tenantId c) id dto)).

Definition plan_consent (c : AuthContext) (i : Input) : handler Call :=
  id ← caseId "caseId" i; dto ← body (A := Cases.ConsentActionDto) i;
  Ok (CaseOp (Cases.OpConsent (cx_tenantId c) id dto)).

Definition plan_escalate (c : AuthContext) (i : Input) : handler Call :=
  id ← caseId "caseId" i; dto ← body (A := EscalateDto) i;
  Ok (CaseOp (Cases.OpEscalate (cx_tenantId c) id (es_reason dto))).

Definition plan_impact (c : AuthContext) (i : Input) : handler Call :=
  id ← caseId "caseId" i; dto ← body (A := CheckPolicyChangeImpactDto) i;
  Ok (CaseChangeImpact (cx_tenantId c) id (cp_policyVersionId dto)).

Definition plan_approve_message (c : AuthContext) (i : Input) : handler Call :=
  id ← caseId "messageId" i; dto ← body (A := ApproveCommunicationMessageDto) i;
  Ok (ApproveMessage (cx_tenantId c) id (ap_actorId dto) (ap_reason dto) (cx_correlationId c)).

Definition plan_send (c : AuthContext) (i : Input) : handler Call :=
  id ← caseId "messageId" i; Ok (DeliverMessage (cx_tenantId c) id).
End OfCase.

(** [cancel] and [recover] *)
Definition plan_run (f : string -> string -> string -> Cases.Op) (c : AuthContext) (i : Input) : handler Call :=
  id ← uuid_param "caseId" i; runId ← param "runId" i; _ ← body (A := WorkflowOperationReasonDto) i;
  Ok (CaseOp (f (cx_tenantId c) id runId)).

Definition plan_get_run (c : AuthContext) (i : Input) : handler Call :=
  id ← uuid_param "caseId" i; runId ← param "runId" i; Ok (CaseOp (Cases.OpRun (cx_tenantId c) id runId)).

(** The value of the enumeration; GraphQL refuses others. *)
Definition plan_cases (c : AuthContext) (i : Input) : handler Call :=
  Ok (CasesOf (cx_tenantId c)
    {| Query.lo_status := (t ← arg_text "status" i; member Agent.case_status_text Query.case_statuses t);
       Query.lo_borrowerId := arg_text "borrowerId" i; Query.lo_first := arg_int "first" i; Query.lo_after := arg_text "after" i |}).

(** ** Operators *)

Definition plan_limited (n : Z) (f : string -> Z -> Call) (c : AuthContext) (i : Input) : handler Call :=
  l ← limit_query n i; Ok (f (cx_tenantId c) l).

Definition plan_reconcile (c : AuthContext) (i : Input) : handler Call :=
  id ← uuid_param "reservationId" i; dto ← body (A := ReconcileAgentBudgetReservationDto) i;
  match rc_outcome dto, rc_actualCostMinorUnits dto with
  | Released, Keep => Ok (ReleaseReservation (cx_tenantId c) id (cx_actorId c) (rc_resolutionNote dto))
  | Released, _ => Err (Rejected "actualCostMinorUnits is valid only for a COMMITTED outcome")
  | Committed, cost =>
      Ok (CommitReservation
        {| Ledger.ci_tenantId := cx_tenantId c; Ledger.ci_reservationId := id;
           Ledger.ci_actualCostMinorUnits := match cost with Set_ z => Some z | _ => None end;
           Ledger.ci_requireUnknown := true; Ledger.ci_resolvedBy := Some (cx_actorId c);
           Ledger.ci_resolutionNote := Some (rc_resolutionNote dto) |}
        (match cost with Null => true | _ => false end))
  end.

Definition plan_resolve_task (c : AuthContext) (i : Input) : handler Call :=
  id ← uuid_param "taskId" i; dto ← body (A := ResolveDataDispositionTaskDto) i;
  Ok (ResolveTask (cx_tenantId c) id (rd_action dto) (cx_actorId c) (cx_correlationId c)).

Definition plan_verify (c : AuthContext) (i : Input) : handler Call :=
  id ← uuid_param "taskId" i; dto ← body (A := VerifyBackupExpiryDto) i;
  Ok (VerifyBackupExpiry (cx_tenantId c) id (cx_actorId c) (vb_verificationReference dto)).

Definition plan_resolve_intent (c : AuthContext) (i : Input) : handler Call :=
  id ← uuid_param "intentId" i; dto ← body (A := ResolveProviderOperationIntentDto) i;
  Ok (ResolveManually (cx_tenantId c) id (ri_outcome dto) (cx_actorId c) (ri_resolutionNote dto)).

Definition plan_create_endpoint (c : AuthContext) (i : Input) : handler Call :=
  dto ← body (A := CreateWebhookEndpointDto) i;
  Ok (CreateEndpoint (cx_tenantId c) (cw_targetUrl dto) (cw_eventTypes dto)).

Definition plan_update_endpoint (c : AuthContext) (i : Input) : handler Call :=
  id ← param "endpointId" i; dto ← body (A := UpdateWebhookEndpointDto) i; Ok (UpdateEndpoint (cx_tenantId c) id dto).

Definition plan_remove_endpoint (c : AuthContext) (i : Input) : handler Call :=
  id ← param "endpointId" i; Ok (DisableEndpoint (cx_tenantId c) id).

Definition plan_delivery (c : AuthContext) (i : Input) : handler Call :=
  id ← uuid_param "deliveryId" i; Ok (DeliveryOf (cx_tenantId c) id).

(** ** Platform administrators *)

Definition plan_propose (a : PlatformAdminContext) (i : Input) : handler Call :=
  dto ← body (A := ProposeManifestDto) i;
  Ok (Propose {| Platform.pi_tuple := (pm_providerId dto, pm_capability dto, pm_mode dto);
                 Platform.pi_adapterVersion := pm_adapterVersion dto; Platform.pi_endpointAllowlist := pm_endpointAllowlist dto;
                 Platform.pi_dataClassifications := pm_dataClassifications dto; Platform.pi_proposedBy := pc_adminName a;
                 Platform.pi_validFrom := None; Platform.pi_validUntil := date_or_null (pm_validUntil dto);
                 Platform.pi_declaredCommandClass := pm_declaredCommandClass dto |}).

Definition plan_certify (a : PlatformAdminContext) (i : Input) : handler Call :=
  id ← uuid_param "manifestId" i; dto ← body (A := CertifyManifestDto) i;
  Ok (Certify id (ce_environment dto) (pc_adminName a) (ce_decision dto) (ce_evidenceRef dto) (date_or_null (ce_expiresAt dto))).

Definition plan_approve (a : PlatformAdminContext) (i : Input) : handler Call :=
  id ← uuid_param "manifestId" i; dto ← body (A := ApproveManifestDto) i;
  Ok (Approve id (am_approvalRole dto) (pc_adminName a) (am_decision dto) (date_or_null (am_expiresAt dto))).

Definition plan_activate (a : PlatformAdminContext) (i : Input) : handler Call :=
  id ← uuid_param "manifestId" i; dto ← body (A := ActivateManifestDto) i;
  Ok (Activate id (ac_environment dto) (pc_adminName a) (ac_expectedCurrentManifestVersion dto)).

Definition plan_deactivate (a : PlatformAdminContext) (i : Input) : handler Call :=
  dto ← body (A := DeactivateProviderDto) i;
  Ok (Deactivate (dp_providerId dto, dp_capability dto, dp_mode dto) (pc_adminName a)).

Definition plan_list (f : Z -> Call) (i : Input) : handler Call := l ← limit_query 50 i; Ok (f l).

Definition plan_report (i : Input) : handler Call := id ← uuid_param "id" i; Ok (Report id).

(** ** Every handler *)

Definition of_tenant (f : AuthContext -> Input -> handler Call) (ct : Context_) (i : Input) : handler Call :=
  c ← current ct; f c i.
Definition of_admin (f : PlatformAdminContext -> Input -> handler Call) (ct : Context_) (i : Input) : handler Call :=
  a ← admin ct; f a i.

Definition plan (e : Endpoint) (ct : Context_) (i : Input) : handler Call :=
  match e with
  | createCase => of_tenant plan_create ct i
  | listWorkflowOperations => of_tenant (fun c _ => Ok (CaseOp (Cases.OpOperations (cx_tenantId c)))) ct i
  | getCase => of_tenant (plan_case uuid_param (fun t id => CaseOp (Cases.OpGet t id))) ct i
  | getTimeline => of_tenant (plan_case uuid_param CaseTimeline) ct i
  | startWorkflow => of_tenant (plan_case uuid_param (fun t id => CaseOp (Cases.OpStart t id))) ct i
  | getWorkflowRun => of_tenant plan_get_run ct i
  | cancelWorkflowRun => of_tenant (plan_run Cases.OpCancel) ct i
  | recoverWorkflowRun => of_tenant (plan_run Cases.OpRecover) ct i
  | submitReview => of_tenant (plan_review uuid_param) ct i
  | submitConsentAction => of_tenant (plan_consent uuid_param) ct i
  | listConsents => of_tenant (plan_case uuid_param (fun t id => CaseOp (Cases.OpConsents t id))) ct i
  | escalate => of_tenant (plan_escalate uuid_param) ct i
  | checkPolicyChangeImpact => of_tenant (plan_impact uuid_param) ct i
  | listMessages => of_tenant (plan_case uuid_param MessagesOf) ct i
  | approveMessage => of_tenant (plan_approve_message uuid_param) ct i
  | sendMessage => of_tenant (plan_send uuid_param) ct i
  | aggregateUsage => of_tenant (fun c _ => Ok (ObserveAggregateUsage (cx_tenantId c))) ct i
  | listUnknownReservations => of_tenant (plan_limited 50 ListUnknown) ct i
  | reconcileReservation => of_tenant plan_reconcile ct i
  | listOpenTasks => of_tenant (plan_limited 50 ListOpen) ct i
  | Routes.listAwaitingBackupExpiry => of_tenant (plan_limited 50 ListAwaitingBackupExpiry) ct i
  | resolveTask => of_tenant plan_resolve_task ct i
  | verifyBackupExpiry => of_tenant plan_verify ct i
  | listReconciling => of_tenant (plan_limited 50 ListNeedingReconciliation) ct i
  | resolveIntent => of_tenant plan_resolve_intent ct i
  | createEndpoint => of_tenant plan_create_endpoint ct i
  | listEndpoints => of_tenant (fun c _ => Ok (EndpointsOf (cx_tenantId c))) ct i
  | updateEndpoint => of_tenant plan_update_endpoint ct i
  | removeEndpoint => of_tenant plan_remove_endpoint ct i
  | getDelivery => of_tenant plan_delivery ct i
  | listAuditEvents => of_tenant (plan_limited 100 AuditEvents) ct i
  | exportAuditEvents => of_tenant (fun c _ => Ok (AuditHistory (cx_tenantId c))) ct i
  | listManifests => plan_list Manifests i
  | getManifestDetail => id ← uuid_param "manifestId" i; Ok (ManifestDetail id)
  | proposeManifest => of_admin plan_propose ct i
  | certifyManifest => of_admin plan_certify ct i
  | approveManifest => of_admin plan_approve ct i
  | activateManifest => of_admin plan_activate ct i
  | listActivations => Ok Activations
  | deactivateProvider => of_admin plan_deactivate ct i
  | listPolicyVersions => plan_list (PolicyVersions (lookup_param "query" (in_query i))) i
  | listResearchRuns => plan_list ResearchRuns i
  | listReports => plan_list Reports i
  | getReport | downloadReport => plan_report i
  | live | ready | qlHealth => Ok Health
  | beginSessionLogin => Ok (Authenticate (Guards.OpBeginLogin (lookup_param "returnTo" (in_query i))))
  | completeSessionLogin =>
      Ok (Authenticate (Guards.OpCallback (in_request i) (lookup_param "code" (in_query i)) (lookup_param "state" (in_query i))))
  | getSession => Ok (Authenticate (Guards.OpSession (in_request i)))
  | endSession => Ok (Authenticate (Guards.OpLogout (in_request i)))
  | listMyTenants => Ok (Authenticate (Guards.OpTenants (in_request i)))
  | createSandboxSession =>
      dto ← body (A := Sandbox.CreateGuestSandboxSessionDto) i; Ok (Authenticate (Guards.OpGuestCreate dto))
  | getSandboxSession => Ok (Authenticate (Guards.OpGuestSession (in_request i)))
  | removeSandboxSession => Ok (Authenticate (Guards.OpGuestLogout (in_request i)))
  | createSandboxCase =>
      dto ← body (A := Sandbox.CreateGuestSandboxSessionDto) i; Ok (Authenticate (Guards.OpGuestCase (in_request i) dto))
  | qlCase => of_tenant (plan_case param (fun t id => CaseOp (Cases.OpGet t id))) ct i
  | qlCases => of_tenant plan_cases ct i
  | qlCaseStatusCounts => of_tenant (fun c _ => Ok (CaseStatusCounts (cx_tenantId c))) ct i
  | qlRecentActivity => of_tenant (fun c i => Ok (RecentActivity (cx_tenantId c) (arg_int "limit" i))) ct i
  | qlStartWorkflowRun => of_tenant (plan_case param (fun t id => CaseOp (Cases.OpStart t id))) ct i
  | qlSubmitReview => of_tenant (plan_review param) ct i
  | qlSubmitConsentAction => of_tenant (plan_consent param) ct i
  | qlEscalateCase => of_tenant (plan_escalate param) ct i
  | qlCheckPolicyChangeImpact => of_tenant (plan_impact param) ct i
  | qlApproveMessage => of_tenant (plan_approve_message param) ct i
  | qlSendMessage => of_tenant (plan_send param) ct i
  | qlEvaluateLoan => dto ← body (A := Underwriter.EvaluateLoanInput) i; Ok (EvaluateLoan dto)
  end.

(** ** The audit event of a handler *)

Definition field_text (answer : Dsl.value) (key : string) : string :=
  match answer with Dsl.VObject o => default "" (text o key) | _ => "" end.
Definition field_of (answer : Dsl.value) (key : string) : Dsl.value :=
  match answer with Dsl.VObject o => Dsl.get o key | _ => Dsl.VUndefined end.

Definition event (c : AuthContext) (actorId action resourceType resourceId : string) (reason : option string)
    (metadata : option Dsl.value) : AuditLog.RecordAuditEventInput :=
  {| AuditLog.in_tenantId := cx_tenantId c; AuditLog.in_actorId := actorId; AuditLog.in_action := action;
     AuditLog.in_resourceType := resourceType; AuditLog.in_resourceId := Some resourceId;
     AuditLog.in_correlationId := Some (cx_correlationId c); AuditLog.in_reason := reason; AuditLog.in_metadata := metadata |}.

Definition review_actor (dto : Cases.ReviewDto) : string :=
  match dto with Cases.RESUME_EVALUATION a _ | Cases.CONDITION_RESOLUTION a _ _ => a end.
Definition review_reason (dto : Cases.ReviewDto) : option string :=
  match dto with Cases.RESUME_EVALUATION _ r | Cases.CONDITION_RESOLUTION _ _ r => r end.
Definition review_type (dto : Cases.ReviewDto) : ReviewActionType :=
  match dto with Cases.RESUME_EVALUATION _ _ => RESUME_EVALUATION | Cases.CONDITION_RESOLUTION _ _ _ => CONDITION_RESOLUTION end.
Definition consent_reason (dto : Cases.ConsentActionDto) : option string :=
  match dto with Cases.REVOKE r => r | Cases.GRANT => None end.

Definition ok {A} (r : result Rejection A) : option A := match r with Ok a => Some a | Err _ => None end.
Definition parsed `{Dto A} (i : Input) : option (Body * A) := ok (parse_body (A := A) (in_body i)).

Definition audit_review (c : AuthContext) (i : Input) : option AuditLog.RecordAuditEventInput :=
  caseId ← lookup_param "caseId" (in_params i);
  '(o, dto) ← parsed (A := Cases.ReviewDto) i;
  Some (event c (review_actor dto) ("REVIEW_" +:+ review_text (review_type dto)) "loan_case" caseId (review_reason dto)
    (Some (Dsl.VObject [("authenticatedActorId", Dsl.VString (cx_actorId c)); ("resolution", Dsl.get o "resolution")]))).

Definition audit_consent (c : AuthContext) (i : Input) (answer : Dsl.value) : option AuditLog.RecordAuditEventInput :=
  caseId ← lookup_param "caseId" (in_params i);
  '(o, dto) ← parsed (A := Cases.ConsentActionDto) i;
  reason ← maybe text o "reason";
  Some (event c (cx_actorId c) ("CONSENT_" +:+ match dto with Cases.REVOKE _ => "REVOKE" | Cases.GRANT => "GRANT" end)
    "loan_case" caseId reason (Some (Dsl.VObject [("consentRecordId", field_of answer "id")]))).

Definition audit_escalation (c : AuthContext) (i : Input) : option AuditLog.RecordAuditEventInput :=
  caseId ← lookup_param "caseId" (in_params i);
  '(_, dto) ← parsed (A := EscalateDto) i;
  Some (event c (es_actorId dto) "CASE_ESCALATED" "loan_case" caseId (Some (es_reason dto))
    (Some (Dsl.VObject [("authenticatedActorId", Dsl.VString (cx_actorId c))]))).

Definition audit_run (action : string) (metadata : string -> Dsl.value) (c : AuthContext) (i : Input)
  : option AuditLog.RecordAuditEventInput :=
  caseId ← lookup_param "caseId" (in_params i); runId ← lookup_param "runId" (in_params i);
  '(_, dto) ← parsed (A := WorkflowOperationReasonDto) i;
  Some (event c (cx_actorId c) action "workflow_run" runId (Some (wo_reason dto)) (Some (metadata caseId))).

Definition audit_sent (c : AuthContext) (i : Input) (answer : Dsl.value) : option AuditLog.RecordAuditEventInput :=
  messageId ← lookup_param "messageId" (in_params i);
  Some (event c (cx_actorId c) "COMMUNICATION_SENT" "communication_message" messageId None
    (Some (Dsl.VObject [("deliveryReference", field_of answer "deliveryReference")]))).

Definition audit_reconciliation (c : AuthContext) (i : Input) (answer : Dsl.value) : option AuditLog.RecordAuditEventInput :=
  id ← lookup_param "reservationId" (in_params i);
  '(_, dto) ← parsed (A := ReconcileAgentBudgetReservationDto) i;
  Some (event c (cx_actorId c) "AGENT_BUDGET_RESERVATION_RECONCILED" "agent_budget_reservation" id (Some (rc_resolutionNote dto))
    (Some (Dsl.VObject [("outcome", field_of answer "status"); ("actualCostMinorUnits", field_of answer "actualCostMinorUnits");
      ("ledgerVersion", match field_of answer "ledger" with Dsl.VObject l => Dsl.get l "version" | _ => Dsl.VUndefined end)]))).

Definition audit_intent (c : AuthContext) (i : Input) : option AuditLog.RecordAuditEventInput :=
  id ← lookup_param "intentId" (in_params i);
  '(_, dto) ← parsed (A := ResolveProviderOperationIntentDto) i;
  Some (event c (cx_actorId c) "PROVIDER_OPERATION_INTENT_RESOLVED" "provider_operation_intent" id (Some (ri_resolutionNote dto))
    (Some (Dsl.VObject [("outcome", Dsl.VString (manual_text (ri_outcome dto)))]))).

Definition audit_endpoint (action : string) (metadata : option Dsl.value) (c : AuthContext) (answer : Dsl.value)
  : option AuditLog.RecordAuditEventInput :=
  Some (event c (cx_actorId c) action "webhook_endpoint" (field_text answer "id") None metadata).

(** What the handler of [e] records once its call has returned [answer]. *)
Definition audit_of (e : Endpoint) (c : AuthContext) (i : Input) (answer : Dsl.value) : option AuditLog.RecordAuditEventInput :=
  match e with
  | cancelWorkflowRun => audit_run "WORKFLOW_CANCELLATION_REQUESTED"
      (fun caseId => Dsl.VObject [("caseId", Dsl.VString caseId); ("providerCancellationAsserted", Dsl.VBool false)]) c i
  | recoverWorkflowRun => audit_run "WORKFLOW_RECOVERY_STARTED"
      (fun caseId => Dsl.VObject [("caseId", Dsl.VString caseId); ("recoveryRunId", field_of answer "runId")]) c i
  | submitReview | qlSubmitReview => audit_review c i
  | submitConsentAction | qlSubmitConsentAction => audit_consent c i answer
  | escalate | qlEscalateCase => audit_escalation c i
  | sendMessage | qlSendMessage => audit_sent c i answer
  | reconcileReservation => audit_reconciliation c i answer
  | resolveIntent => audit_intent c i
  | createEndpoint =>
      '(o, _) ← parsed (A := CreateWebhookEndpointDto) i;
      audit_endpoint "WEBHOOK_ENDPOINT_CREATED"
        (Some (Dsl.VObject [("targetUrl", Dsl.get o "targetUrl"); ("eventTypes", Dsl.get o "eventTypes")])) c answer
  | updateEndpoint => audit_endpoint "WEBHOOK_ENDPOINT_UPDATED"
      (Some (Dsl.VObject [("targetUrl", field_of answer "targetUrl"); ("eventTypes", field_of answer "eventTypes")])) c answer
  | removeEndpoint => audit_endpoint "WEBHOOK_ENDPOINT_DISABLED" None c answer
  | _ => None
  end.
End Handlers.
End Requests.
