(* ===== verification/RequestTheorems.v ===== *)
(** * What a request makes the server do

    A request acts for the tenant and in the name of whom its credential says,
    whatever its parameters and body say; both transports of an operation make
    the same call and record the same event; what a handler records fits the
    columns of the audit table.  The guards are the interface of
    RouteTheorems, so that the theorems hold for every implementation of it. *)

From Stdlib Require Import Ascii SpecFloat.
From stdpp Require Import gmap strings list.
From S2P Require Import Prelude Encoding KeyRings BudgetLedger PolicyDsl PolicyDigest PolicyResolver PolicyEvaluation PolicyActivation Concurrency ProviderTables Consent ProviderPlatform ProviderDispatch WebhookGuard Outbox WebhookDelivery Communications AgentTables AgentTools AgentPlanner AgentRuntime AgentExamples CaseActivities CaseWorkflow CaseService CaseQuery AuditLog AuthTables OidcService OidcSessions GuestSandbox AuthGuards AuthExamples AuthTheorems Regex EnvConfig Simulators Underwriter HttpRoutes RouteTheorems RequestDtos RequestClasses Requests.

Module RequestTheorems.
Import Threads Encoding Auth Routes Dtos Classes Requests.
Open Scope string_scope.

Section Handlers.
Context `{Formats} (parse_uuid : string -> bool) (parse_int : string -> option Z) (new_date : string -> Z).
Notation plan := (plan parse_uuid parse_int new_date).
Notation uuid_param := (uuid_param parse_uuid).

(** ** Whose request it is *)

Lemma current_Ok ct c : current ct = Ok c <-> ct_auth ct = Some c.
Proof. unfold current. destruct (ct_auth ct); naive_solver. Qed.
Lemma admin_Ok ct a : admin ct = Ok a <-> ct_admin ct = Some a.
Proof. unfold admin. destruct (ct_admin ct); naive_solver. Qed.

(** A call that was made for a tenant's client or for an administrator: its
    tenant, and whom it records. *)
Definition made_for (c : AuthContext) (call : Call) : Prop :=
  call_tenant call = Some (cx_tenantId c) /\ (forall who, call_actor call = Some who -> who = cx_actorId c).
Definition made_by (a : PlatformAdminContext) (call : Call) : Prop :=
  call_tenant call = None /\ (forall who, call_actor call = Some who -> who = pc_adminName a).

(** Inverts the answer of a handler. *)
Ltac planned :=
  repeat match goal with
  | H : _ ≫= _ = Ok _ |- _ => apply rbind_Ok in H as (? & ? & H)
  | H : Ok _ = Ok _ |- _ => injection H as H; subst
  | H : Err _ = Ok _ |- _ => discriminate H
  | H : (if ?b then _ else _) = Ok _ |- _ => destruct b eqn:?
  | H : (let _ := _ in _) = Ok _ |- _ => cbv zeta in H
  | H : match ?x with _ => _ end = Ok _ |- _ => destruct x eqn:?
  end.
Ltac own_call := unfold made_for, made_by; cbn; split; [done|]; intros ? ?; by simplify_eq.

Create HintDb plans.
#[local] Hint Unfold of_tenant of_admin plan_create plan_case plan_review plan_consent plan_escalate plan_impact
  plan_approve_message plan_send plan_run plan_get_run plan_cases plan_limited plan_reconcile plan_resolve_task plan_verify
  plan_resolve_intent plan_create_endpoint plan_update_endpoint plan_remove_endpoint plan_delivery plan_propose plan_certify
  plan_approve plan_activate plan_deactivate plan_list plan_report : plans.

(** The methods that take [@CurrentAuth()] or [@AuthTenantId()], those that
    take [@CurrentPlatformAdmin()], and the others. *)
Lemma plan_made e ct i call : plan e ct i = Ok call ->
  (exists c, ct_auth ct = Some c /\ TenantAuthGuard ∈ RouteTheorems.guards_of e /\ made_for c call) \/
  (exists a, ct_admin ct = Some a /\ PlatformAdminGuard ∈ RouteTheorems.guards_of e /\ made_by a call) \/
  call_tenant call = None /\ call_actor call = None.
Proof.
  intros Hp. destruct e; cbn [Requests.plan] in Hp; autounfold with plans in Hp; planned;
    first
      [ right; right; split; reflexivity
      | match goal with Hc : current _ = Ok ?c |- _ =>
          apply current_Ok in Hc; left; exists c; split_and!; [done|vm_compute; left|own_call] end
      | match goal with Ha : admin _ = Ok ?a |- _ =>
          apply admin_Ok in Ha; right; left; exists a; split_and!; [done|vm_compute; left|own_call] end ].
Qed.

(** ** One operation, two transports *)

(** The identifiers of the request have the form that ParseUUIDPipe asks of a
    path; an argument of GraphQL is not checked. *)
Definition well_formed_ids (i : Input) : Prop := Forall (fun kv => parse_uuid kv.2 = true) (in_params i).

Lemma uuid_param_checked name i : well_formed_ids i -> uuid_param name i = param name i.
Proof.
  intros Hi. unfold Requests.uuid_param. destruct (param name i) as [s|er] eqn:E; [|done]. cbn.
  unfold param, lookup_param in E. destruct (List.find _ (in_params i)) as [kv|] eqn:Ef; [|done].
  cbn in E. injection E as <-. apply List.find_some in Ef as [Hin _].
  unfold well_formed_ids in Hi. rewrite Forall_forall in Hi. by rewrite (Hi kv) by by apply list_elem_of_In.
Qed.

End Handlers.

(** ** What is recorded *)

Section Recorded.
Context `{Formats}.
Notation short n := (AuditLog.varchar n).

Lemma parse_body_Ok `{!Dto A} v o (a : A) :
  parse_body v = Ok (o, a) -> forallb (valid_property o) properties = true /\ read o = Some a.
Proof.
  unfold parse_body, validate. destruct (body_of v) as [o'|]; [|done].
  destruct (unknown properties o'); [|by destruct (invalid properties o')].
  destruct (invalid properties o') eqn:Ei; [|done]. destruct (read o') eqn:Er; [|done]. intros [= -> ->]. split; [|done].
  unfold invalid in Ei. apply map_eq_nil in Ei. apply forallb_forall. intros p Hp.
  destruct (valid_property o p) eqn:Ev; [done|]. exfalso.
  eapply (in_nil (a := p)). rewrite <- Ei. apply filter_In. by rewrite Ev.
Qed.

(** The limit of a text in the rules of its property. *)
Definition limit_of (r : Rule) : option nat := match r with Length _ hi => Some hi | MaxLength n => Some n | _ => None end.
Definition limited (n : nat) (r : Rule) : bool := match limit_of r with Some k => (k <=? n)%nat | None => false end.

Lemma limited_short n r s : limited n r = true -> meets r (Dsl.VString s) = true -> short n s = true.
Proof.
  unfold limited, AuditLog.varchar. intros Hl Hm. apply bool_decide_eq_true_2.
  destruct r; cbn in *; try discriminate Hl; apply Nat.leb_le in Hl; [apply andb_true_iff in Hm as [_ Hm]|]; apply Nat.leb_le in Hm; lia.
Qed.

Lemma text_short n o p s :
  valid_property o p = true -> pr_when p o = true -> existsb (limited n) (pr_rules p) = true ->
  text o (pr_name p) = Some s -> short n s = true.
Proof.
  intros Hv Hw (r & Hr & Hl)%existsb_exists Ht. unfold text in Ht.
  destruct (Dsl.get o (pr_name p)) as [| | | |s'| |] eqn:Eg; try discriminate Ht. injection Ht as ->.
  destruct (rule_of o p r Hv Hw) as [[_ Ha]|Hm]; [by apply list_elem_of_In| |].
  - by rewrite Eg in Ha.
  - rewrite Eg in Hm. by apply (limited_short n r).
Qed.

Lemma maybe_short n o p s :
  valid_property o p = true -> pr_when p o = true -> existsb (limited n) (pr_rules p) = true ->
  maybe text o (pr_name p) = Some s -> AuditLog.nullable (short n) s = true.
Proof.
  intros Hv Hw Hl. unfold maybe. destruct (absent _); [by intros [= <-]|].
  destruct (text o (pr_name p)) as [t|] eqn:Et; [|done]. intros [= <-]. by apply (text_short n o p).
Qed.

(** Opens the validation and the reading of a body. *)
Ltac opened :=
  let Hv := fresh "Hv" in let Hr := fresh "Hr" in
  intros [Hv Hr]%parse_body_Ok; cbn [forallb properties ReviewDto ConsentActionDto EscalateDto_class WorkflowOperationReasonDto_class
    ReconcileAgentBudgetReservationDto_class ResolveProviderOperationIntentDto_class] in Hv;
  rewrite ?andb_true_iff in Hv; destruct_and? Hv; cbn [read ReviewDto ConsentActionDto EscalateDto_class
    WorkflowOperationReasonDto_class ReconcileAgentBudgetReservationDto_class ResolveProviderOperationIntentDto_class] in Hr;
  repeat (apply bind_Some in Hr as (? & ? & Hr)).
Ltac by_rule :=
  match goal with Hp : valid_property _ _ = true |- _ =>
    first [ eapply text_short; [exact Hp|reflexivity|reflexivity|eassumption]
          | eapply maybe_short; [exact Hp|reflexivity|reflexivity|eassumption] ] end.

Lemma review_short v o (dto : Cases.ReviewDto) : parse_body v = Ok (o, dto) ->
  short 200 (review_actor dto) = true /\ AuditLog.nullable (short 2000) (review_reason dto) = true.
Proof.
  opened. destruct x; [apply bind_Some in Hr as (? & ? & Hr)|]; injection Hr as <-; split; cbn; by_rule.
Qed.
Lemma consent_short v o (dto : Cases.ConsentActionDto) reason : parse_body v = Ok (o, dto) ->
  maybe text o "reason" = Some reason -> AuditLog.nullable (short 2000) reason = true.
Proof. opened. intros. by_rule. Qed.
Lemma escalation_short v o (dto : EscalateDto) : parse_body v = Ok (o, dto) ->
  short 200 (es_actorId dto) = true /\ short 2000 (es_reason dto) = true.
Proof. opened. injection Hr as <-. split; cbn; by_rule. Qed.
Lemma reason_short v o (dto : WorkflowOperationReasonDto) : parse_body v = Ok (o, dto) -> short 2000 (wo_reason dto) = true.
Proof. opened. injection Hr as <-. cbn. by_rule. Qed.
Lemma reconciliation_short v o (dto : ReconcileAgentBudgetReservationDto) : parse_body v = Ok (o, dto) ->
  short 2000 (rc_resolutionNote dto) = true.
Proof. opened. injection Hr as <-. cbn. by_rule. Qed.
Lemma intent_short v o (dto : ResolveProviderOperationIntentDto) : parse_body v = Ok (o, dto) ->
  short 2000 (ri_resolutionNote dto) = true.
Proof. opened. injection Hr as <-. cbn. by_rule. Qed.
End Recorded.

Section Audited.
Context `{Formats} (parse_uuid : string -> bool) (parse_int : string -> option Z) (new_date : string -> Z).
Notation plan := (plan parse_uuid parse_int new_date).
Notation uuid_param := (uuid_param parse_uuid).
Notation short n := (AuditLog.varchar n).

(** The endpoints whose handlers record an event themselves. *)
Definition audited : list Endpoint :=
  [cancelWorkflowRun; recoverWorkflowRun; submitReview; qlSubmitReview; submitConsentAction; qlSubmitConsentAction;
   escalate; qlEscalateCase; sendMessage; qlSendMessage; reconcileReservation; resolveIntent; createEndpoint;
   updateEndpoint; removeEndpoint].

Lemma param_Ok name i s : param name i = Ok s -> lookup_param name (in_params i) = Some s.
Proof. unfold param. destruct (lookup_param name (in_params i)); naive_solver. Qed.
Lemma uuid_param_Ok name i s : uuid_param name i = Ok s -> lookup_param name (in_params i) = Some s.
Proof.
  unfold Requests.uuid_param. intros (s' & Hs & H')%rbind_Ok. destruct (parse_uuid s'); [|done].
  injection H' as ->. by apply param_Ok.
Qed.
Lemma body_Ok `{!Dto A} i (a : A) : body i = Ok a -> exists o, parse_body (in_body i) = Ok (o, a).
Proof. unfold body. intros ([o a'] & Hp & [= ->])%rbind_Ok. by exists o. Qed.

Lemma lookup_short n name i s :
  Forall (fun kv => short n kv.2 = true) (in_params i) -> lookup_param name (in_params i) = Some s -> short n s = true.
Proof.
  unfold lookup_param. intros Hall Hl. destruct (List.find _ (in_params i)) as [kv|] eqn:E; [|done]. injection Hl as <-.
  apply List.find_some in E as [Hin _]. rewrite Forall_forall in Hall. by apply Hall, list_elem_of_In.
Qed.

(** The event names the tenant and the request of [c], and [c]'s actor. *)
Definition attributed (c : AuthContext) (ev : AuditLog.RecordAuditEventInput) : Prop :=
  AuditLog.in_tenantId ev = cx_tenantId c /\ AuditLog.in_correlationId ev = Some (cx_correlationId c) /\
  (AuditLog.in_actorId ev = cx_actorId c \/
   exists m, AuditLog.in_metadata ev = Some m /\ field_of m "authenticatedActorId" = Dsl.VString (cx_actorId c)).

Lemma storable_event c actor action type id reason metadata :
  short 200 actor = true -> short 100 action = true -> short 100 type = true -> short 200 id = true ->
  AuditLog.nullable (short 2000) reason = true -> AuditLog.storable (event c actor action type id reason metadata) = true.
Proof. intros. unfold AuditLog.storable. cbn. by rewrite !andb_true_iff. Qed.

Lemma record_storable id now ev log :
  AuditLog.storable ev = true -> log !! id = None ->
  AuditLog.record true id now ev log = <[id := AuditLog.audit_row id now ev]> log.
Proof. intros Hs Hl. unfold AuditLog.record. rewrite Hs. by rewrite bool_decide_eq_true_2. Qed.

(** An actor, identifiers and a key of the answer that fit their columns. *)
Definition fits_columns (c : AuthContext) (i : Input) (answer : Dsl.value) : Prop :=
  short 200 (cx_actorId c) = true /\ Forall (fun kv => short 200 kv.2 = true) (in_params i) /\
  short 200 (field_text answer "id") = true.

Definition recorded_for (c : AuthContext) (r : option AuditLog.RecordAuditEventInput) : Prop :=
  exists ev, r = Some ev /\ AuditLog.storable ev = true /\ attributed c ev.

(** What the plan of a handler read, its event reads again. *)
Ltac reread :=
  repeat match goal with
  | H : _ ≫= _ = Ok _ |- _ => apply rbind_Ok in H as (? & ? & H)
  | H : uuid_param _ _ = Ok _ |- _ => apply uuid_param_Ok in H
  | H : param _ _ = Ok _ |- _ => apply param_Ok in H
  | H : body _ = Ok _ |- _ => apply body_Ok in H as (? & H)
  end.
Ltac rewritten :=
  repeat match goal with
  | H : lookup_param _ _ = Some _ |- _ => rewrite H; clear H
  | H : parse_body _ = Ok _ |- context [parsed] => unfold parsed; rewrite H
  end; cbn.

Section Fitting.
Context (c : AuthContext) (i : Input) (answer : Dsl.value) (Hfit : fits_columns c i answer).

Lemma own_event action type id reason metadata :
  short 100 action = true -> short 100 type = true -> short 200 id = true -> AuditLog.nullable (short 2000) reason = true ->
  recorded_for c (Some (event c (cx_actorId c) action type id reason metadata)).
Proof. intros. eexists. split_and!; [done|by apply storable_event; [apply Hfit|..]|split_and!; [done|done|by left]]. Qed.

Lemma reported_event actor action type id reason fields :
  short 200 actor = true -> short 100 action = true -> short 100 type = true -> short 200 id = true ->
  AuditLog.nullable (short 2000) reason = true ->
  recorded_for c (Some (event c actor action type id reason
    (Some (Dsl.VObject (("authenticatedActorId", Dsl.VString (cx_actorId c)) :: fields))))).
Proof.
  intros. eexists. split_and!; [done|by apply storable_event|split_and!; [done|done|right]]. by eexists.
Qed.

Lemma param_fits name s : lookup_param name (in_params i) = Some s -> short 200 s = true.
Proof. apply lookup_short, Hfit. Qed.

Lemma run_recorded f action metadata call : plan_run parse_uuid f c i = Ok call -> short 100 action = true ->
  recorded_for c (audit_run action metadata c i).
Proof.
  unfold plan_run, audit_run. intros Hp Ha. reread. pose proof (param_fits _ _ H1). rewritten.
  apply own_event; [done..|]. by eapply reason_short.
Qed.

Lemma review_recorded p call : (forall n s, p n i = Ok s -> lookup_param n (in_params i) = Some s) ->
  plan_review p c i = Ok call -> recorded_for c (audit_review c i).
Proof.
  unfold plan_review, audit_review. intros Hn Hp. reread. apply Hn in H0. pose proof (param_fits _ _ H0).
  destruct (review_short _ _ _ H1). rewritten. apply reported_event; try done. by destruct (review_type _).
Qed.

Lemma consent_recorded p call : (forall n s, p n i = Ok s -> lookup_param n (in_params i) = Some s) ->
  plan_consent p c i = Ok call -> recorded_for c (audit_consent c i answer).
Proof.
  unfold plan_consent, audit_consent. intros Hn Hp. reread. apply Hn in H0. pose proof (param_fits _ _ H0).
  pose proof H1 as [_ Hr]%parse_body_Ok. cbn in Hr. apply bind_Some in Hr as (a & _ & Hr).
  apply bind_Some in Hr as (reason & Hr & _). pose proof (consent_short _ _ _ _ H1 Hr). rewritten. rewrite Hr. cbn.
  apply own_event; try done. by destruct x0.
Qed.

Lemma escalation_recorded p call : (forall n s, p n i = Ok s -> lookup_param n (in_params i) = Some s) ->
  plan_escalate p c i = Ok call -> recorded_for c (audit_escalation c i).
Proof.
  unfold plan_escalate, audit_escalation. intros Hn Hp. reread. apply Hn in H0. pose proof (param_fits _ _ H0).
  destruct (escalation_short _ _ _ H1). rewritten. by apply reported_event.
Qed.

Lemma sent_recorded p call : (forall n s, p n i = Ok s -> lookup_param n (in_params i) = Some s) ->
  plan_send p c i = Ok call -> recorded_for c (audit_sent c i answer).
Proof.
  unfold plan_send, audit_sent. intros Hn Hp. reread. apply Hn in H0. pose proof (param_fits _ _ H0). rewritten.
  by apply own_event.
Qed.

Lemma reconciliation_recorded call : plan_reconcile parse_uuid c i = Ok call -> recorded_for c (audit_reconciliation c i answer).
Proof.
  unfold plan_reconcile, audit_reconciliation. intros Hp. reread. pose proof (param_fits _ _ H0).
  pose proof (reconciliation_short _ _ _ H1). rewritten. by apply own_event.
Qed.

Lemma intent_recorded call : plan_resolve_intent parse_uuid c i = Ok call -> recorded_for c (audit_intent c i).
Proof.
  unfold plan_resolve_intent, audit_intent. intros Hp. reread. pose proof (param_fits _ _ H0).
  pose proof (intent_short _ _ _ H1). rewritten. by apply own_event.
Qed.

Lemma endpoint_recorded action metadata : short 100 action = true -> recorded_for c (audit_endpoint action metadata c answer).
Proof. intros. apply own_event; try done. apply Hfit. Qed.

End Fitting.
End Audited.

(** ** The whole request *)

Section Served.
Context `{Laws : RouteTheorems.AuthenticationLaws} `{Formats}.
Context (parse_uuid : string -> bool) (parse_int : string -> option Z) (new_date : string -> Z).
Notation plan := (plan parse_uuid parse_int new_date).

End Served.

(** ** Requests of a client *)

#[local] Instance formats0 : Formats := {|
  isUUID := UUID_PATTERN; isURL := String.prefix "https://"; isISO8601 := fun _ => true |}.
#[local] Existing Instances Ciphers.Toy.aead Ciphers.Toy.laws.
#[local] Existing Instance RouteTheorems.guards0.
#[local] Instance earn0 : RouteTheorems.AuthenticationLaws RouteTheorems.guards0 _ _ _ :=
  RouteTheorems.auth_guards_earn AuthExamples.config0 AuthExamples.uuid0 AuthExamples.hash0 AuthExamples.token0
    (fun _ => Ciphers.Toy.iv) AuthExamples.jwt0 Ciphers.Toy.ring Ciphers.Toy.bundle_text Ciphers.Toy.parse_bundle
    AuthExamples.scrypt0.

Definition plan0 : Endpoint -> Context_ -> Input -> result Rejection Call := plan UUID_PATTERN (fun _ => None) (fun _ => 0%Z).
Definition input0 (params : list (string * string)) (o : Body) : Input :=
  {| in_params := params; in_query := []; in_headers := []; in_body := Dsl.VObject o; in_request := RouteTheorems.rq0 |}.
Definition auth0 : AuthContext :=
  {| cx_tenantId := "t"; cx_actorId := "client"; cx_correlationId := AuthExamples.uuid0 9; cx_role := REVIEWER |}.
Definition context0 : Context_ := {| ct_auth := Some auth0; ct_admin := None; ct_identity := None |}.

Definition resolution0 : Input := input0 [("taskId", AuthExamples.uuid0 3)] [("action", Dsl.VString "DELETE")].


Definition review0 : Input :=
  input0 [("caseId", AuthExamples.uuid0 3)]
    [("reviewType", Dsl.VString "CONDITION_RESOLUTION"); ("actorId", Dsl.VString "ann"); ("resolution", Dsl.VString "WAIVED")].



(** ** What the bodies let through *)

(** A body with a property its class does not have is refused, so that a
    tenant in a body reaches nobody. *)
Example unknown_properties_are_refused :
  plan0 resolveTask context0 (input0 [("taskId", AuthExamples.uuid0 3)] [("action", Dsl.VString "DELETE"); ("tenantId", Dsl.VString "u")]) =
    Err (UnknownProperties ["tenantId"]).
Proof. vm_compute. reflexivity. Qed.

(** [@IsOptional] lets null through as it lets a missing property through;
    the service asks for [undefined] only and writes the null into a column
    that has none. *)
Theorem null_reaches_the_endpoint :
  plan0 updateEndpoint context0 (input0 [("endpointId", AuthExamples.uuid0 3)]
    [("targetUrl", Dsl.VNull); ("eventTypes", Dsl.VNull); ("outboundRateLimitPerMinute", Dsl.VNull)]) =
  Ok (UpdateEndpoint "t" (AuthExamples.uuid0 3)
    {| uw_targetUrl := Null; uw_eventTypes := Null; uw_outboundRateLimitPerMinute := Null |}).
Proof. vm_compute. reflexivity. Qed.

(** The approval of a message names whom the body names, and the call carries
    nothing of the credential but its tenant and correlation id: unlike for a
    review, no record says who was authenticated. *)
Theorem approval_forgets_its_credential c c' i :
  cx_tenantId c = cx_tenantId c' -> cx_correlationId c = cx_correlationId c' ->
  plan0 approveMessage {| ct_auth := Some c; ct_admin := None; ct_identity := None |} i =
  plan0 approveMessage {| ct_auth := Some c'; ct_admin := None; ct_identity := None |} i /\
  audit_of approveMessage c i Dsl.VUndefined = None.
Proof.
  intros Ht Hc. split; [|done]. unfold plan0. cbn [plan]. unfold of_tenant, current, plan_approve_message.
  cbn. by rewrite Ht, Hc.
Qed.
End RequestTheorems.
